(* ===== verification/_CoqProject ===== *)
-Q . S2P
Prelude.v
Flags.v
Sequence.v
PartitionInfo.v
Bits.v
SqlInt.v
Privilege.v
SelectLimit.v
Views.v
TimeModes.v
Temporal.v
TemporalProps.v
TimeValue.v
TimeValueProps.v
DatetimeValue.v
DatetimeProps.v
TemporalSample.v
SessionClock.v
Bitmap.v
Mem.v
MyIsamPack.v
ByteOrder.v
BinaryString.v
StringOwner.v
SortBuffer.v
SortParam.v
CDouble.v
DoubleOrder.v
Mbr.v
LooseScan.v
CostEstimate.v
Statistics.v
WindowFunc.v
SelArg.v
SelArgKeys.v
KeyPack.v
LexStream.v
Xid.v
HandlerScan.v
ThreadCache.v
LifoBuffer.v
Links.v
TrxInfo.v
Session.v
AutoInc.v
QueryTables.v
InList.v
ProfileQueue.v
HashFilo.v
BoundedQueue.v
PList.v
Mdl.v
SqlCondition.v
Diagnostics.v
RootArray.v
TranxAlloc.v
Rings.v
SqlIList.v
BaseIList.v
IList.v
SqlList.v
SqlListSort.v
SqlListProps.v
AppModel.v
AppControllers.v
AppProps.v
AppSample.v
