(* ===== verification/Prelude.v ===== *)
(** * Verified models of menus-dishes-management and of the database headers it ships

    The repository holds two programs.  src/prjspring2025 is a Spring web
    application that manages the dishes (plats) and menus of a restaurant:
    entities, repositories with queries, and controllers that answer HTTP
    requests.  It stores its data in the MariaDB 10.8 server distributed in
    src/mariadb-fp, whose C and C++ headers (include/mysql/server, and the
    directory private below it) define the server's own data structures and
    value classes in inline functions, templates and macros.  This library
    models both: the whole request handling of the application, and the parts
    of the server that have their code in the headers.

    ** How code becomes definitions

    A function is a Rocq function with the source's name.  Integers are [Z]
    kept at their C width ([wrap], [sgn] below); [int] and, as my_config.h
    configures this build (x64 Windows), [long] have 32 bits.  State is passed
    explicitly, or through a small monad where a whole class threads it
    ([Temporal.TM], [AppModel.result]).  Objects that share memory live in one
    store.  A failed DBUG_ASSERT, an access outside an object or a wrong free
    has no result ([None]); error codes, flags and exceptions are values, so
    "returns an error" and "is undefined" are never confused.

    Code that is not in the repository is a parameter with named laws taken
    from its documentation: [BinaryString.realloc_law] (realloc_raw),
    [HashFilo.MyHash] with [MyHashLaws] (my_hash functions), [BoundedQueue.Queue]
    with [QueueLaws] (the heap of queues.h), [SortBuffer.allocated]
    (alloc_sort_buffer), [TimeEnv] with [TimeLaws], [TimeTypeLaws] and
    [DatetimeLaws] (parsers, calendar and rounding functions the headers only
    declare), [GroupCache] with [GroupCacheLaws] (the cached items of window
    functions), [SelCmp] with [SelCmpLaws] (comparison of key images by a
    field, for the bounds of an interval), [SelNew] with [SelNewLaws] (the
    constructor of SEL_ARG), strmake with [Mdl.Key.strmake_law],
    ok_for_lower_case_names and the hash of [Mdl.Key], [WarningImpl] with [WarningLaws] (functions
    of Warning_info), MBR::within in [Mbr.overlaps], [Handler.Engine] (the virtual
    methods of a storage engine; no laws), [PartitionInfo.CaseEq] (my_strcasecmp),
    the readings of the clocks in SessionClock, [binlog_unsafe_map] in
    QueryTables, what Loose_scan_opt reads of the join and the table,
    the evaluation of items and the state after make_unique_cmp_items in InList,
    [AppModel.Repositories] with [RepoLaws] (Spring Data JPA), [AppModel.Jpql]
    (LOWER, LIKE and the collation of ORDER BY).  Each has a concrete instance for
    which the laws are proved (the bump allocator in BinaryString, the list in
    HashFilo, the sorted array in BoundedQueue, the integer fields of WindowFunc and
    SelArg, the samples at the end of Mdl, Diagnostics, Mbr, HandlerScan,
    PartitionInfo and InList, TemporalSample, AppSample); the witnesses run on them.

    ** The files

    - Prelude: machine integers, bitwise reasoning ([bits]), arrays and
      counted loops, tactics and hint databases.
    - Integers.  Bits (my_bit.h), SqlInt (sql_type_int.h), MyIsamPack
      (myisampack.h) and ByteOrder (my_byteorder.h and the headers it
      selects) over the byte memory of Mem: the bit tricks compute the
      logarithms and counts they name, comparisons of mixed signedness compare
      the denoted numbers, stores and reads are inverse at every width,
      byte-wise order of keys is numeric order.
    - Sets and counters.  Flags: words of flags as sets of enumerators, for the
      classes that keep such words.  Bitmap (sql_bitmap.h) refines finite sets, where
      its assertions allow the operation; Privilege
      (privilege.h): packing rights into grant-table columns is invertible;
      SelectLimit (sql_limit.h): LIMIT and OFFSET let through one window.
    - Views (span.h, Bounds_checked_array of sql_array.h): interface [View].
    - Lists.  SqlList, SqlListSort and SqlListProps (base_list, List, their
      iterators and bubble_sort of sql_list.h), SqlIList (SQL_I_List),
      BaseIList (ilink, base_ilist, I_List), IList (ilist.h), PList
      (sql_plist.h), on the pointer theory of Links and Rings: any sequence of
      commands refines the operations on mathematical lists; sorting sorts;
      iteration visits every element once and terminates.
    - Buffers and allocation.  LifoBuffer (sql_lifo_buffer.h): one interface
      ([LifoLaws]) for both directions; RootArray (mem_root_array.h);
      TranxAlloc (Tranx_node_allocator of semisync_master.h): no live node is
      reused; BinaryString and StringOwner (Binary_string of sql_string.h):
      appends stay in the buffer and extend the bytes, and ownership of heap
      blocks is exclusive, so nothing is freed twice and nothing leaks.
    - Caching and sorting.  HashFilo (hash_filo.h) refines a cache of the most
      recently used entries and frees every entry once; BoundedQueue (queues.h,
      bounded_queue.h) keeps the best keys of all that are pushed; SortBuffer
      (filesort_utils.h): records and the pointers to them never meet;
      SortParam (sql_sort.h): lengths of packed records, merging of buffers.
    - The optimizer.  CDouble gives C's double on the Standard Library's
      specification of binary64; Statistics (sql_statistics.h) on it: histogram
      lookup finds the bucket of a position, collected counts are exact;
      SelArg and SelArgKeys (opt_range.h): the operations on intervals compute
      the sets they name, and stored keys bound every row of a range.
      LooseScan (Loose_scan_opt of opt_subselect.h): the bit maps of a semi-join
      decide as documented when an index gives a loose scan, and the cheapest plan
      is kept; CostEstimate (handler.h): costs of plans add up.
    - Storage engines.  HandlerScan (handler.h): whatever an engine answers, the
      wrappers that open and end scans keep the protocol it may rely on.
    - Transactions.  Xid (handler.h): identifiers give back what they were made
      from; TrxInfo (handler.h) refines lists of participants with their modes;
      Session (sql_class.h) on it: a transaction answers for all its statements,
      and the format of the binary log changes between statements only.
    - Statements.  LexStream (sql_lex.h): the lexer reads the query and echoes
      what it is told to; QueryTables (sql_lex.h): the list of a statement's
      tables and the verdicts on its safety; SessionClock (sql_class.h): start
      times increase; AutoInc (structs.h, sql_class.h): intervals of generated
      values and the ids remembered; Sequence (sql_sequence.h): a sequence
      enumerates its progression, and where it overflows; ProfileQueue
      (sql_profile.h) is a FIFO while memory lasts;
      PartitionInfo (partition_info.h): ids and free names of partitions.
    - Expressions.  InList (item_cmpfunc.h): IN lists, simple CASE and
      DECODE_ORACLE with the objects that cache the predicant, against the
      three-valued logic of SQL.
    - Window functions.  WindowFunc (item_windowfunc.h): ROW_NUMBER, NTILE,
      the percentile functions and the peer-group tracker compute what SQL
      says about the rows of a partition, errors included.
    - Geometry.  DoubleOrder gives doubles their order as numbers; Mbr
      (struct MBR of spatial.h) on it: predicates of rectangles are the
      relations of their point sets, adding points gives their hull.
    - Keys and records.  KeyPack (my_compare.h, my_bitmap.h): key lengths and
      bit fields survive storing, MY_BITMAP refines a set of bit numbers.
    - Errors.  SqlCondition and Diagnostics (sql_error.h): SQL states fall into
      one class each; the diagnostics area refines a stack of warning infos, and
      a handler that copies nothing down leaves those below its own untouched.
    - Threads and locks.  ThreadCache (thread_cache.h): a system of threads
      that interleaves park, enqueue and flush at every critical section, with
      an invariant of all reachable states and what becomes of every accepted
      connection; Mdl (mdl.h): lock keys are compared by what they name, and a
      lock ticket never has two requests.
    - Temporal values.  TimeModes (sql_basic_types.h): conversion and rounding
      flags; Temporal (mysql_time.h, my_time.h, sql_time.h; Sec6, Sec9,
      Sec6_add, Temporal of sql_type.h) with TemporalProps; TimeValue (class
      Time) with TimeValueProps; DatetimeValue (Date, Datetime, Extract_source,
      Timestamp) with DatetimeProps.  A TIME denotes a signed number of
      microseconds; sums, truncation, nanosecond carries and conversions are
      exact in these terms, and the constructors that read no item, native value
      or time zone, followed by any roundings under FRAC_TRUNCATE or FRAC_ROUND,
      leave their class's documented states and fail none of its assertions;
      FRAC_NONE is accepted exactly where no digit is lost.
    - The application.  AppModel (model/, the queries of repository/, the
      persistence interface), AppControllers (controller/) with AppProps: what
      is saved is what is shown, deletion removes exactly its object, the
      pages of a listing show the rows the filters select in the order asked
      for, and partition them when that order has no ties.

    ** Bounds and fuel

    Loops over C arrays run a number of rounds computed from their bounds
    ([for_], [all_]).  Loops over linked structures take fuel, and the theorems
    give it: more than the length of the list for traversals and iterators and
    for each round of bubble_sort, as many rounds as elements, and at least one,
    for the sort; the number of blocks
    for the allocator's loops, the number of records for the sort buffer's, one
    more than the number of buckets for a histogram lookup, 256 for stored keys,
    whose part numbers are bytes, n(k+1) rounds and one more for n new names among
    k partitions.  The thread cache has no fuel: the
    number of steps to quiescence is bounded in the theorem, n(n+4) for n
    threads.  With less fuel a model returns no result, which no theorem accepts.
    Addresses are unbounded where the source never computes with them and
    64-bit where it does.

    ** What is not modelled, and why

    Most of the 175,000 lines of headers declare classes whose code is in the
    server's source files, which the repository does not contain (items, fields,
    type handlers, log events, table caches, plugins, the wait and wake-up
    functions of group commit): there is no code to translate.  Of the classes
    that have code in the headers, what remains is of four kinds: accessors and
    setters of one member; functions that only forward to virtual methods or to
    the character-set library (class String, items); conversions of doubles to
    temporal values, warning texts and printf-style formatting; and wrappers of
    the performance schema, of sockets, files and threads.  Templates,
    configuration and data files hold no program logic.  PROJECT.json lists the
    parts one by one.

    Findings.  Where a comment and the code differ, or the code does not do what
    it means to, a theorem states what it does ([emptied_queue_dangles],
    [descending_step_overflows], [disabled_filter_comes_back_active],
    [replicated_fraction_without_carry], [loose_scan_32_parts_undefined],
    [zero_cost_with_total], [touches_asymmetric], [concurrent_flush_starves],
    [mixed_order_start_key_too_late] and others). *)

From Stdlib Require Import ZArith Lia.
From stdpp Require Import prelude gmap sorting.

(** ** Machine integers

    C's fixed-width integers are [Z] with the wrap-around written out:
    [wrap w] is the value an unsigned [w]-bit object holds after an
    assignment, [sgn w] the value of the same bits read as two's complement. *)

Declare Scope cint_scope.
Delimit Scope cint_scope with cint.
Local Open Scope Z_scope.

Definition wrap (w z : Z) : Z := z mod 2 ^ w.

Definition sgn (w z : Z) : Z :=
  let m := wrap w z in if m <? 2 ^ (w - 1) then m else m - 2 ^ w.

Notation "'u8' z" := (wrap 8 z) (at level 10, z at level 9) : cint_scope.
Notation "'u16' z" := (wrap 16 z) (at level 10, z at level 9) : cint_scope.
Notation "'u32' z" := (wrap 32 z) (at level 10, z at level 9) : cint_scope.
Notation "'u64' z" := (wrap 64 z) (at level 10, z at level 9) : cint_scope.
Notation "'s64' z" := (sgn 64 z) (at level 10, z at level 9) : cint_scope.

(** C's truth test of an integer. *)
Definition truth (z : Z) : bool := negb (z =? 0).

Definition urange (w z : Z) : Prop := 0 <= z < 2 ^ w.
Definition srange (w z : Z) : Prop := - 2 ^ (w - 1) <= z < 2 ^ (w - 1).

Create HintDb cint.
Create Rewrite HintDb bits.

Lemma wrap_small w z : urange w z -> wrap w z = z.
Proof. apply Z.mod_small. Qed.

Lemma u32_small z : 0 <= z < 0x100000000 -> wrap 32 z = z.
Proof. intros H. by apply wrap_small. Qed.

Lemma u64_small z : 0 <= z < 0x10000000000000000 -> wrap 64 z = z.
Proof. intros H. by apply wrap_small. Qed.

Lemma wrap_range w z : 0 <= w -> urange w (wrap w z).
Proof. intros. apply Z.mod_pos_bound. lia. Qed.

Lemma wrap_testbit w z i :
  0 <= w -> 0 <= i -> Z.testbit (wrap w z) i = (i <? w) && Z.testbit z i.
Proof.
  intros Hw Hi. unfold wrap. destruct (Z.ltb_spec i w).
  - apply Z.mod_pow2_bits_low; lia.
  - apply Z.mod_pow2_bits_high; lia.
Qed.

Lemma sgn_range w z : 0 < w -> srange w (sgn w z).
Proof.
  intros Hw. unfold srange, sgn.
  pose proof (wrap_range w z ltac:(lia)) as [H1 H2].
  assert (2 ^ w = 2 * 2 ^ (w - 1)) as E by (rewrite <- Z.pow_succ_r by lia; f_equal; lia).
  destruct (Z.ltb_spec (wrap w z) (2 ^ (w - 1))); lia.
Qed.

Lemma sgn_small w z : 0 < w -> srange w z -> sgn w z = z.
Proof.
  intros Hw [H1 H2]. unfold sgn, wrap.
  assert (2 ^ w = 2 * 2 ^ (w - 1)) as E by (rewrite <- Z.pow_succ_r by lia; f_equal; lia).
  destruct (Z.le_gt_cases 0 z).
  - rewrite Z.mod_small by lia. destruct (Z.ltb_spec z (2 ^ (w - 1))); lia.
  - rewrite <- (Z.mod_add z 1) by lia. rewrite Z.mod_small by lia.
    destruct (Z.ltb_spec (z + 1 * 2 ^ w) (2 ^ (w - 1))); lia.
Qed.

Lemma wrap_sgn w z : 0 < w -> wrap w (sgn w z) = wrap w z.
Proof.
  intros Hw. unfold sgn.
  destruct (wrap w z <? 2 ^ (w - 1)); unfold wrap.
  - apply Z.mod_mod. lia.
  - rewrite Zminus_mod, Z_mod_same_full, Z.sub_0_r, !Z.mod_mod by lia. done.
Qed.

Lemma sgn_wrap w z : sgn w (wrap w z) = sgn w z.
Proof. unfold sgn, wrap. by rewrite Zmod_mod. Qed.

Lemma truth_false z : truth z = false <-> z = 0.
Proof. unfold truth. destruct (Z.eqb_spec z 0); naive_solver. Qed.

Lemma truth_true z : truth z = true <-> z <> 0.
Proof. unfold truth. destruct (Z.eqb_spec z 0); naive_solver. Qed.

#[export] Hint Resolve wrap_range sgn_range : cint.

(** ** Bitwise reasoning

    [bits] proves an equation between integers bit by bit: it introduces a
    bit index and pushes [Z.testbit] through the bitwise operators. *)

Lemma testbit_ltb_high w z i : urange w z -> w <= i -> Z.testbit z i = false.
Proof.
  intros Hz Hi. destruct (Z.le_gt_cases w 0) as [Hw|Hw].
  - assert (z = 0) as ->; [|apply Z.testbit_0_l].
    destruct Hz as [? Hz]. destruct (Z.eq_dec w 0) as [->|]; [simpl in Hz; lia|].
    rewrite Z.pow_neg_r in Hz by lia. lia.
  - rewrite <- (Z.mod_small z (2 ^ w)) by done. apply Z.mod_pow2_bits_high; lia.
Qed.

Lemma testbit_ones w i : 0 <= w -> Z.testbit (Z.ones w) i = (0 <=? i) && (i <? w).
Proof. intros. rewrite Z.testbit_ones by lia. done. Qed.

Lemma shiftr_testbit z n i : 0 <= i -> Z.testbit (Z.shiftr z n) i = Z.testbit z (i + n).
Proof. apply Z.shiftr_spec. Qed.

Lemma pow2_testbit n i : 0 <= n -> Z.testbit (2 ^ n) i = (i =? n).
Proof.
  intros. destruct (Z.eqb_spec i n) as [->|].
  - by apply Z.pow2_bits_true.
  - apply Z.pow2_bits_false. lia.
Qed.

#[export] Hint Rewrite
  Z.land_spec Z.lor_spec Z.lxor_spec Z.ldiff_spec Z.testbit_0_l : bits.
#[export] Hint Rewrite
  Z.shiftr_spec Z.shiftl_spec Z.lnot_spec testbit_ones wrap_testbit pow2_testbit
  using lia : bits.

Ltac bits :=
  apply Z.bits_inj'; intros ?i ?Hi; autorewrite with bits.

(** Linear arithmetic with [/] and [mod] by constants. *)
Ltac dlia := Z.div_mod_to_equations; lia.

(** Case analysis on every integer comparison of the goal. *)
Ltac zcases :=
  repeat match goal with
  | |- context [?a <? ?b] => destruct (Z.ltb_spec a b)
  | |- context [?a <=? ?b] => destruct (Z.leb_spec a b)
  | |- context [?a =? ?b] => destruct (Z.eqb_spec a b)
  end.

(** Two numbers in the range of [w] bits with the same [w] low bits are equal. *)
Lemma bits_eq w a b :
  urange w a -> urange w b ->
  (forall i, 0 <= i < w -> Z.testbit a i = Z.testbit b i) -> a = b.
Proof.
  intros Ha Hb H. apply Z.bits_inj'. intros i Hi.
  destruct (Z.lt_ge_cases i w); [by apply H|].
  by rewrite !(testbit_ltb_high w).
Qed.

(** A number whose high bits are clear is in range. *)
Lemma urange_testbit w z :
  0 <= w -> 0 <= z -> (forall i, w <= i -> Z.testbit z i = false) -> urange w z.
Proof.
  intros Hw Hz H. split; [done|].
  destruct (Z.eq_dec z 0) as [->|]; [lia|].
  apply Z.log2_lt_pow2; [lia|].
  destruct (Z.lt_ge_cases (Z.log2 z) w) as [|Hge]; [done|].
  pose proof (Z.bit_log2 z ltac:(lia)). rewrite H in *; done.
Qed.

Lemma urange_weaken v w z : 0 <= v <= w -> urange v z -> urange w z.
Proof.
  intros Hvw [H1 H2]. split; [done|].
  pose proof (Z.pow_le_mono_r 2 v w ltac:(lia) ltac:(lia)). lia.
Qed.

Lemma urange_land w a b : 0 <= w -> urange w a -> 0 <= b -> urange w (Z.land a b).
Proof.
  intros Hw Ha Hb. apply urange_testbit; [done|apply Z.land_nonneg; tauto|].
  intros i Hi. rewrite Z.land_spec, (testbit_ltb_high w a) by done. done.
Qed.

Lemma urange_land_r w a b : 0 <= w -> urange w b -> urange w (Z.land a b).
Proof.
  intros Hw Hb. apply urange_testbit; [done|apply Z.land_nonneg; right; apply Hb|].
  intros i Hi. by rewrite Z.land_spec, (testbit_ltb_high w b), andb_false_r.
Qed.

Lemma urange_lor w a b : 0 <= w -> urange w a -> urange w b -> urange w (Z.lor a b).
Proof.
  intros Hw Ha Hb. apply urange_testbit; [done|apply Z.lor_nonneg; split; [apply Ha|apply Hb]|].
  intros i Hi. by rewrite Z.lor_spec, (testbit_ltb_high w a), (testbit_ltb_high w b).
Qed.

Lemma urange_shiftr w z n : 0 <= n -> urange w z -> urange w (Z.shiftr z n).
Proof.
  intros Hn [H1 H2]. split; [by apply Z.shiftr_nonneg|].
  rewrite Z.shiftr_div_pow2 by done.
  apply Z.le_lt_trans with z; [|done]. apply Z.div_le_upper_bound; [lia|]. nia.
Qed.

(** Shifting right by [n] drops [n] bits of the range. *)
Lemma urange_shiftr_drop w n z :
  0 <= w -> 0 <= n -> urange (w + n) z -> urange w (Z.shiftr z n).
Proof.
  intros Hw Hn [H1 H2]. split; [by apply Z.shiftr_nonneg|].
  rewrite Z.shiftr_div_pow2 by done. apply Z.div_lt_upper_bound; [lia|].
  rewrite <- Z.pow_add_r by lia. by rewrite (Z.add_comm n w).
Qed.

(** [land] with a mask of low bits, and with the complementary mask. *)
Lemma land_high_zero k w z :
  0 <= k <= w -> urange w z ->
  Z.land z (Z.ones w - Z.ones k) = 0 <-> z < 2 ^ k.
Proof.
  intros Hk Hz.
  assert (Z.ones w - Z.ones k = Z.ldiff (Z.ones w) (Z.ones k)) as ->.
  { apply Z.sub_nocarry_ldiff. bits. destruct (Z.ltb_spec i k), (Z.ltb_spec i w); try lia.
    all: simpl; rewrite ?andb_false_r; done. }
  split.
  - intros H. destruct (Z.lt_ge_cases z (2 ^ k)) as [|Hge]; [done|].
    assert (0 < 2 ^ k) by lia.
    pose proof (f_equal (fun x => Z.testbit x (Z.log2 z)) H) as E. simpl in E.
    pose proof (Z.log2_le_pow2 z k ltac:(lia)) as [E1 _]. specialize (E1 Hge).
    assert (Z.log2 z < w) as E2.
    { destruct (Z.lt_ge_cases (Z.log2 z) w) as [|E3]; [done|].
      apply Z.log2_le_pow2 in E3; [|lia]. destruct Hz; lia. }
    autorewrite with bits in E. rewrite Z.bit_log2 in E by lia.
    destruct (Z.leb_spec 0 (Z.log2 z)), (Z.ltb_spec (Z.log2 z) k),
      (Z.ltb_spec (Z.log2 z) w); try lia; done.
  - intros H. bits. destruct (Z.ltb_spec i k); simpl.
    + rewrite andb_true_r, (proj2 (Z.leb_le 0 i)) by lia. by rewrite !andb_false_r.
    + rewrite (testbit_ltb_high k z); [done| |lia]. destruct Hz; split; lia.
Qed.

(** ** Arrays and counted loops

    A C array is a list read and written at integer indices; the components
    prove that their indices are in bounds.  [for_ lo hi body] is
    [for (i= lo; i < hi; i++) body], [all_ lo hi test] the same loop over a
    test with an early exit [return false]. *)

Section arrays.
Context {A : Type} (dflt : A).

Definition aget (a : list A) (i : Z) : A := nth (Z.to_nat i) a dflt.

Definition aput (a : list A) (i : Z) (x : A) : list A := <[Z.to_nat i := x]> a.

Lemma aget_aput a i j x :
  0 <= i < Z.of_nat (length a) -> 0 <= j ->
  aget (aput a i x) j = if i =? j then x else aget a j.
Proof.
  intros Hi Hj. unfold aget, aput.
  rewrite !nth_lookup. destruct (Z.eqb_spec i j) as [->|].
  - rewrite list_lookup_insert_eq by lia. done.
  - rewrite list_lookup_insert_ne by lia. done.
Qed.

Lemma aput_length a i x : length (aput a i x) = length a.
Proof. apply length_insert. Qed.

Lemma aget_beyond a i : Z.of_nat (length a) <= i -> aget a i = dflt.
Proof. intros. apply nth_overflow. lia. Qed.

(** Two arrays of one length with equal elements are equal. *)
Lemma aget_ext a b :
  length a = length b ->
  (forall i, 0 <= i < Z.of_nat (length a) -> aget a i = aget b i) -> a = b.
Proof.
  intros Hl H. apply (nth_ext a b dflt dflt Hl). intros n Hn.
  specialize (H (Z.of_nat n) ltac:(lia)). unfold aget in H. by rewrite Nat2Z.id in H.
Qed.
End arrays.

Fixpoint for_n {S} (n : nat) (i : Z) (body : Z -> S -> S) (s : S) : S :=
  match n with O => s | Datatypes.S n => for_n n (i + 1) body (body i s) end.

Definition for_ {S} (lo hi : Z) (body : Z -> S -> S) (s : S) : S :=
  for_n (Z.to_nat (hi - lo)) lo body s.

Fixpoint all_n (n : nat) (i : Z) (test : Z -> bool) : bool :=
  match n with O => true | Datatypes.S n => if test i then all_n n (i + 1) test else false end.

Definition all_ (lo hi : Z) (test : Z -> bool) : bool := all_n (Z.to_nat (hi - lo)) lo test.

Lemma all_n_spec n i test :
  all_n n i test = true <-> forall j, i <= j < i + Z.of_nat n -> test j = true.
Proof.
  revert i. induction n as [|n IH]; intros i; cbn [all_n]; [naive_solver lia|].
  destruct (test i) eqn:E.
  - rewrite IH. split; intros H j Hj.
    + destruct (Z.eq_dec j i) as [->|]; [done|]. apply H. lia.
    + apply H. lia.
  - split; [done|]. intros H. rewrite H in E; [done|lia].
Qed.

Lemma all_spec lo hi test :
  all_ lo hi test = true <-> forall j, lo <= j < hi -> test j = true.
Proof. unfold all_. rewrite all_n_spec. split; intros H j Hj; apply H; lia. Qed.

Lemma for_n_snoc {S} n i (body : Z -> S -> S) s :
  for_n (Datatypes.S n) i body s = body (i + Z.of_nat n) (for_n n i body s).
Proof.
  revert i s. induction n as [|n IH]; intros i s.
  - cbn. by rewrite Z.add_0_r.
  - change (for_n (Datatypes.S (Datatypes.S n)) i body s)
      with (for_n (Datatypes.S n) (i + 1) body (body i s)).
    rewrite IH. change (for_n (Datatypes.S n) i body s) with (for_n n (i + 1) body (body i s)).
    f_equal. lia.
Qed.

(** A loop that rewrites each element of a range from its old value. *)
Lemma for_update {A} (d : A) lo hi (f : Z -> A -> A) a :
  0 <= lo -> hi <= Z.of_nat (length a) ->
  let a' := for_ lo hi (fun i a => aput a i (f i (aget d a i))) a in
  length a' = length a /\
  forall j, 0 <= j ->
    aget d a' j = if (lo <=? j) && (j <? hi) then f j (aget d a j) else aget d a j.
Proof.
  intros Hlo Hhi. unfold for_.
  assert (forall n, lo + Z.of_nat n <= Z.of_nat (length a) ->
    let a' := for_n n lo (fun i a => aput a i (f i (aget d a i))) a in
    length a' = length a /\ forall j, 0 <= j ->
      aget d a' j = if (lo <=? j) && (j <? lo + Z.of_nat n) then f j (aget d a j) else aget d a j)
    as Hn.
  { induction n as [|n IH]; intros Hn.
    - split; [done|]. intros j Hj. destruct (Z.leb_spec lo j), (Z.ltb_spec j (lo + Z.of_nat 0)); simpl; lia || done.
    - destruct IH as [Hl IH]; [lia|]. rewrite for_n_snoc. split; [by rewrite aput_length|].
      intros j Hj. rewrite aget_aput by lia. rewrite !IH by lia.
      destruct (Z.eqb_spec (lo + Z.of_nat n) j) as [E|], (Z.leb_spec lo j),
        (Z.ltb_spec j (lo + Z.of_nat n)), (Z.ltb_spec j (lo + Z.of_nat (S n)));
        simpl; try lia; try done; rewrite E.
      by rewrite Z.ltb_irrefl, andb_false_r. }
  destruct (Z.le_gt_cases lo hi) as [Hle|Hgt].
  - destruct (Hn (Z.to_nat (hi - lo))) as [Hl H]; [lia|]. split; [done|].
    intros j Hj. rewrite H by done. by replace (lo + Z.of_nat (Z.to_nat (hi - lo))) with hi by lia.
  - replace (Z.to_nat (hi - lo)) with 0%nat by lia. split; [done|]. intros j Hj. cbn [for_n].
    destruct (Z.leb_spec lo j), (Z.ltb_spec j hi); simpl; lia || done.
Qed.

(** ** The last element of a list, with a default *)

Lemma last_shift {A} (l : list A) : forall x d, List.last (x :: l) d = List.last l x.
Proof.
  induction l as [|y l IH]; intros x d; [done|].
  change (List.last (y :: l) d = List.last (y :: l) x). by rewrite !IH.
Qed.

Lemma last_app_r {A} (xs ys : list A) d : ys <> [] -> List.last (xs ++ ys) d = List.last ys d.
Proof.
  intros H. induction xs as [|x xs IH]; [done|]. cbn [app List.last].
  destruct (xs ++ ys) eqn:E; [by destruct xs|done].
Qed.

Lemma last_default {A} (ys : list A) d d' : ys <> [] -> List.last ys d = List.last ys d'.
Proof. induction ys as [|y [|z ys] IH]; intros H; [done|done|]. by apply IH. Qed.

Lemma last_snoc_form {A} (l : list A) d : l <> [] -> exists k, l = k ++ [List.last l d].
Proof. intros H. exists (removelast l). by apply app_removelast_last. Qed.

Lemma last_elem {A} (x : A) l d : List.last (x :: l) d ∈ x :: l.
Proof.
  destruct (last_snoc_form (x :: l) d) as [k E]; [done|]. rewrite E at 2.
  apply elem_of_app. right. by apply list_elem_of_singleton.
Qed.
