(* ===== verification/Flags.v ===== *)
(** * Sets of enumerators in an integer

    Many classes keep a set of the values of an enumeration as the bits of an
    unsigned integer.  This file relates such words to lists of enumerators, for
    any enumeration with a numbering of its own. *)

From Stdlib Require Import ZArith Lia.
From S2P Require Import Prelude.
From stdpp Require Import prelude list.
Local Open Scope Z_scope.

Lemma truth_land_pow2 z n : 0 <= n -> truth (Z.land z (2 ^ n)) = Z.testbit z n.
Proof.
  intros Hn. destruct (Z.testbit z n) eqn:E.
  - apply truth_true. intros E0. apply (f_equal (fun x => Z.testbit x n)) in E0.
    rewrite Z.land_spec, E, pow2_testbit, Z.eqb_refl, Z.testbit_0_l in E0 by done. done.
  - apply truth_false. bits. destruct (Z.eqb_spec i n) as [->|]; [by rewrite E|by rewrite andb_false_r].
Qed.

Lemma truth_lor a b : truth (Z.lor a b) = truth a || truth b.
Proof.
  unfold truth. destruct (Z.eqb_spec (Z.lor a b) 0) as [E|E]; [apply Z.lor_eq_0_iff in E as [-> ->]; done|].
  destruct (Z.eqb_spec a 0) as [->|]; [|done]. destruct (Z.eqb_spec b 0) as [->|]; done.
Qed.

(** An enumeration whose values have a bit each. *)
Class Numbered (K : Type) `{EqDecision K} := {
  number : K -> Z;
  number_nonneg k : 0 <= number k;
  number_inj : Inj (=) (=) number
}.
#[export] Existing Instance number_inj.

Section flags.
Context {K : Type} `{Numbered K}.

Definition flag (k : K) : Z := 2 ^ number k.

(** The flags set in [z] are those of the enumerators in [ks]. *)
Definition holds_flags (z : Z) (ks : list K) : Prop :=
  forall k, Z.testbit z (number k) = bool_decide (k ∈ ks).

Lemma holds_flags_nil : holds_flags 0 [].
Proof. intros k. rewrite Z.testbit_0_l, bool_decide_false; [done|apply not_elem_of_nil]. Qed.

Lemma holds_flags_add z ks k : holds_flags z ks -> holds_flags (Z.lor z (flag k)) (ks ++ [k]).
Proof.
  intros Hz k'. unfold flag. rewrite Z.lor_spec, (Hz k'), pow2_testbit by apply number_nonneg.
  destruct (Z.eqb_spec (number k') (number k)) as [E|E].
  - apply (inj number) in E as ->. rewrite orb_true_r, bool_decide_true by set_solver. done.
  - rewrite orb_false_r. apply bool_decide_ext. assert (k' <> k) by congruence. set_solver.
Qed.

Lemma holds_flags_test z ks k : holds_flags z ks -> truth (Z.land z (flag k)) = bool_decide (k ∈ ks).
Proof. intros Hz. unfold flag. rewrite truth_land_pow2 by apply number_nonneg. apply Hz. Qed.

(** A test against a mask of two flags. *)
Lemma holds_flags_test2 z ks k1 k2 :
  holds_flags z ks ->
  truth (Z.land z (Z.lor (flag k1) (flag k2))) = bool_decide (k1 ∈ ks \/ k2 ∈ ks).
Proof.
  intros Hz. rewrite Z.land_lor_distr_r, truth_lor, !(holds_flags_test z ks) by done.
  repeat case_bool_decide; naive_solver.
Qed.

(** The mask of a list of flags. *)
Definition flag_mask (ks : list K) : Z := foldl (fun z k => Z.lor z (flag k)) 0 ks.

Lemma fold_flags_lor a b ks :
  foldl (fun z k => Z.lor z (flag k)) (Z.lor a b) ks = Z.lor a (foldl (fun z k => Z.lor z (flag k)) b ks).
Proof.
  revert b. induction ks as [|k ks IH]; intros b; [done|]. cbn. by rewrite <- Z.lor_assoc, IH.
Qed.

Lemma holds_flags_fold z ks0 ks :
  holds_flags z ks0 -> holds_flags (foldl (fun z k => Z.lor z (flag k)) z ks) (ks0 ++ ks).
Proof.
  revert z ks0. induction ks as [|k ks IH]; intros z ks0 Hz; cbn; [by rewrite app_nil_r|].
  rewrite cons_middle, app_assoc. apply IH. by apply holds_flags_add.
Qed.

Lemma holds_flags_mask z ks0 ks : holds_flags z ks0 -> holds_flags (Z.lor z (flag_mask ks)) (ks0 ++ ks).
Proof.
  intros Hz. unfold flag_mask. rewrite <- fold_flags_lor, Z.lor_0_r. by apply holds_flags_fold.
Qed.
End flags.
