(* ===== verification/Sequence.v ===== *)
(** * Sequences (sequence_definition and SEQUENCE of private/sql_sequence.h)

    How a sequence advances from one value to the next within its bounds.
    Arithmetic is on longlong: an operation whose result is outside 64 bits is
    undefined in C and has no result here. *)

From Stdlib Require Import ZArith Lia.
From S2P Require Import Prelude.
From stdpp Require Import prelude list.
Local Open Scope Z_scope.

Module Sequence.

Definition LONGLONG_MIN : Z := - 2 ^ 63.
Definition LONGLONG_MAX : Z := 2 ^ 63 - 1.

Record sequence_definition := mk_seq {
  reserved_until : Z;
  min_value : Z;
  max_value : Z;
  start : Z;
  increment : Z;
  cache : Z;
  round : Z;
  restart : Z;
  cycle : bool;
  used_fields : Z;
  real_increment : Z;
  next_free_value : Z
}.

(** The constructor; three members are left unset. *)
Definition new_definition (reserved real_incr next_free : Z) : sequence_definition :=
  mk_seq reserved 1 (LONGLONG_MAX - 1) 1 1 1000 0 0 false 0 real_incr next_free.

Inductive seq_init : Type := SEQ_UNINTIALIZED | SEQ_IN_PREPARE | SEQ_IN_ALTER | SEQ_READY_TO_USE.

Record SEQUENCE := mk_SEQUENCE {
  def : sequence_definition;
  all_values_used : bool;
  initialized : seq_init
}.

(** [adjust_values] is declared only. *)
Definition copy (adjust_values : sequence_definition -> Z -> sequence_definition)
    (s : SEQUENCE) (seq : sequence_definition) : SEQUENCE :=
  mk_SEQUENCE (adjust_values seq (reserved_until seq)) false (initialized s).

(** Signed 64-bit results. *)
Definition ll (z : Z) : option Z :=
  if (LONGLONG_MIN <=? z) && (z <=? LONGLONG_MAX) then Some z else None.

Definition increment_value (s : sequence_definition) (value : Z) : option Z :=
  if 0 <? real_increment s then
    d ← ll (max_value s - real_increment s);
    if d <? value then ll (max_value s + 1)
    else
      n ← ll (value + real_increment s);
      if max_value s <? n then ll (max_value s + 1) else ll (value + real_increment s)
  else
    n ← ll (value + real_increment s);
    if n <? min_value s then ll (min_value s - 1)
    else
      d ← ll (min_value s - real_increment s);
      if value <? d then ll (min_value s - 1) else ll (value + real_increment s).

(** ** Properties *)

Lemma ll_some z : LONGLONG_MIN <= z <= LONGLONG_MAX -> ll z = Some z.
Proof.
  intros H. unfold ll. rewrite (proj2 (Z.leb_le _ _)), (proj2 (Z.leb_le _ _)) by apply H. done.
Qed.

(** The bounds that a sequence may have: room for one value beyond each. *)
Definition bounds_ok (s : sequence_definition) : Prop :=
  LONGLONG_MIN < min_value s /\ min_value s <= max_value s /\ max_value s < LONGLONG_MAX.

(** What the next value is meant to be. *)
Definition next_of (s : sequence_definition) (value : Z) : Z :=
  let n := value + real_increment s in
  if 0 <? real_increment s then if max_value s <? n then max_value s + 1 else n
  else if n <? min_value s then min_value s - 1 else n.

(** An ascending sequence whose bound is at least the increment above the
    smallest longlong. *)
Definition ascending (s : sequence_definition) : Prop :=
  bounds_ok s /\ 0 < real_increment s <= LONGLONG_MAX /\ LONGLONG_MIN <= max_value s - real_increment s.

Lemma increment_ascending s v :
  ascending s -> LONGLONG_MIN <= v <= LONGLONG_MAX -> increment_value s v = Some (next_of s v).
Proof.
  intros ((Hb1&Hb2&Hb3)&Hr&Hm) Hv. unfold increment_value, next_of. unfold LONGLONG_MIN, LONGLONG_MAX in *.
  rewrite (proj2 (Z.ltb_lt 0 _)) by lia. rewrite (ll_some (_ - _)) by (unfold LONGLONG_MIN, LONGLONG_MAX; lia).
  cbn. destruct (Z.ltb_spec (max_value s - real_increment s) v).
  - rewrite (proj2 (Z.ltb_lt _ _)) by lia. apply ll_some. unfold LONGLONG_MIN, LONGLONG_MAX; lia.
  - rewrite (ll_some (v + _)) by (unfold LONGLONG_MIN, LONGLONG_MAX; lia). cbn.
    rewrite (proj2 (Z.ltb_ge _ _)) by lia. done.
Qed.

Lemma increment_descending s v :
  bounds_ok s -> real_increment s <= 0 -> LONGLONG_MIN <= v + real_increment s -> v <= LONGLONG_MAX ->
  increment_value s v = Some (next_of s v).
Proof.
  intros (Hb1&Hb2&Hb3) Hr Hm Hv. unfold increment_value, next_of. unfold LONGLONG_MIN, LONGLONG_MAX in *.
  rewrite (proj2 (Z.ltb_ge 0 _)) by lia. rewrite (ll_some (v + _)) by (unfold LONGLONG_MIN, LONGLONG_MAX; lia).
  cbn. destruct (Z.ltb_spec (v + real_increment s) (min_value s)).
  - apply ll_some. unfold LONGLONG_MIN, LONGLONG_MAX; lia.
  - rewrite (ll_some (min_value s - real_increment s)) by (unfold LONGLONG_MIN, LONGLONG_MAX; lia). cbn.
    rewrite (proj2 (Z.ltb_ge _ _)) by lia. done.
Qed.

(** The steps whose arithmetic cannot leave the 64 bits. *)
Lemma increment_defined s w :
  bounds_ok s -> real_increment s <> 0 -> real_increment s <= LONGLONG_MAX ->
  (0 < real_increment s -> LONGLONG_MIN <= max_value s - real_increment s) ->
  min_value s <= w <= max_value s -> LONGLONG_MIN <= w + real_increment s ->
  increment_value s w = Some (next_of s w).
Proof.
  intros Hb Hr Hr2 Hm Hw Hl. pose proof Hb as (?&?&?). destruct (Z.lt_ge_cases 0 (real_increment s)).
  - apply increment_ascending; [|lia]. split; [done|]. split; [lia|auto].
  - apply increment_descending; [done|lia|done|lia].
Qed.

(** [v] and the [n] values after it. *)
Fixpoint values (n : nat) (s : sequence_definition) (v : Z) : option (list Z) :=
  match n with
  | O => Some [v]
  | S n => v' ← increment_value s v; vs ← values n s v'; Some (v :: vs)
  end.

(** Advancing by [n] steps stays on the arithmetic progression while it is
    within the bounds. *)
Lemma values_progression s n v :
  bounds_ok s -> real_increment s <> 0 -> real_increment s <= LONGLONG_MAX ->
  (0 < real_increment s -> LONGLONG_MIN <= max_value s - real_increment s) ->
  min_value s <= v <= max_value s -> min_value s <= v + Z.of_nat n * real_increment s <= max_value s ->
  values n s v = Some ((fun k => v + Z.of_nat k * real_increment s) <$> seq 0 (S n)).
Proof.
  intros Hb Hr Hr2 Hm. revert v. induction n as [|n IH]; intros v Hv Hn.
  - cbn. do 2 f_equal. lia.
  - assert (min_value s <= v + real_increment s <= max_value s) as Hv' by nia.
    assert (next_of s v = v + real_increment s) as En.
    { unfold next_of. destruct (Z.ltb_spec 0 (real_increment s)); rewrite (proj2 (Z.ltb_ge _ _)); done || lia. }
    cbn [values]. rewrite increment_defined, En by (destruct Hb as (?&?&?); done || lia).
    cbn [mbind option_bind]. rewrite IH; [|done|nia]. cbn [mbind option_bind].
    f_equal.
    change (seq 0 (S (S n))) with (0%nat :: seq 1 (S n)). rewrite fmap_cons. f_equal; [lia|].
    rewrite <- (seq_shift (S n) 0), <- list_fmap_compose. apply list_fmap_ext.
    intros i x _. unfold compose. lia.
Qed.

(** Steps from [v] to the bound in the direction of the sequence. *)
Definition steps_left (s : sequence_definition) (v : Z) : Z :=
  if 0 <? real_increment s then (max_value s - v) / real_increment s
  else (v - min_value s) / (- real_increment s).

Lemma steps_left_spec s v :
  real_increment s <> 0 -> min_value s <= v <= max_value s ->
  0 <= steps_left s v /\
  min_value s <= v + steps_left s v * real_increment s <= max_value s /\
  next_of s (v + steps_left s v * real_increment s) =
    if 0 <? real_increment s then max_value s + 1 else min_value s - 1.
Proof.
  intros Hr Hv. unfold steps_left, next_of. destruct (Z.ltb_spec 0 (real_increment s)).
  - pose proof (Z.div_mod (max_value s - v) (real_increment s) ltac:(lia)).
    pose proof (Z.mod_pos_bound (max_value s - v) (real_increment s) ltac:(lia)).
    assert (0 <= (max_value s - v) / real_increment s) by (apply Z.div_pos; lia).
    rewrite (proj2 (Z.ltb_lt _ _)) by nia. split; [done|]. split; [nia|done].
  - pose proof (Z.div_mod (v - min_value s) (- real_increment s) ltac:(lia)).
    pose proof (Z.mod_pos_bound (v - min_value s) (- real_increment s) ltac:(lia)).
    assert (0 <= (v - min_value s) / - real_increment s) by (apply Z.div_pos; lia).
    rewrite (proj2 (Z.ltb_lt _ _)) by nia. split; [done|]. split; [nia|done].
Qed.

(** The two steps whose arithmetic leaves the 64 bits. *)
Lemma ascending_undefined s v :
  0 < real_increment s -> max_value s - real_increment s < LONGLONG_MIN -> increment_value s v = None.
Proof.
  intros Hr Hm. unfold increment_value, ll. rewrite (proj2 (Z.ltb_lt 0 _)) by lia.
  by rewrite (proj2 (Z.leb_gt LONGLONG_MIN (max_value s - real_increment s)) Hm).
Qed.

Lemma descending_undefined s v :
  real_increment s < 0 -> v + real_increment s < LONGLONG_MIN -> increment_value s v = None.
Proof.
  intros Hr Hm. unfold increment_value, ll. rewrite (proj2 (Z.ltb_ge 0 _)) by lia.
  by rewrite (proj2 (Z.leb_gt LONGLONG_MIN (v + real_increment s)) Hm).
Qed.

(** C36: a sequence with room for one value beyond each bound and a non-zero
    increment, from any value [v] within its bounds.  An ascending one whose
    increment is more than [max_value] lies above the smallest longlong takes
    no step at all (the subtraction overflows).  Otherwise it generates exactly
    the values of its arithmetic progression up to the bound, without overflow,
    and the step after the last of them gives the value just outside the bound,
    by which an exhausted sequence is recognised, unless last value plus
    increment is below the smallest longlong: then that addition overflows. *)
Theorem sequence_enumerates s v :
  bounds_ok s -> real_increment s <> 0 -> real_increment s <= LONGLONG_MAX ->
  min_value s <= v <= max_value s ->
  let n := Z.to_nat (steps_left s v) in
  let last := v + steps_left s v * real_increment s in
  if (0 <? real_increment s) && (max_value s - real_increment s <? LONGLONG_MIN)
  then increment_value s v = None
  else
    values n s v = Some ((fun k => v + Z.of_nat k * real_increment s) <$> seq 0 (S n)) /\
    min_value s <= last <= max_value s /\
    increment_value s last =
      if last + real_increment s <? LONGLONG_MIN then None
      else Some (if 0 <? real_increment s then max_value s + 1 else min_value s - 1).
Proof.
  intros Hb Hr Hr2 Hv. cbv zeta. destruct (steps_left_spec s v Hr Hv) as (H1&H2&H3).
  destruct ((0 <? real_increment s) && (max_value s - real_increment s <? LONGLONG_MIN)) eqn:E.
  { apply andb_prop in E as [E1%Z.ltb_lt E2%Z.ltb_lt]. by apply ascending_undefined. }
  assert (0 < real_increment s -> LONGLONG_MIN <= max_value s - real_increment s) as Hm.
  { intros Hp. rewrite (proj2 (Z.ltb_lt _ _) Hp) in E. by apply Z.ltb_ge in E. }
  split; [apply values_progression; try done; rewrite Z2Nat.id by done; done|]. split; [done|].
  destruct (Z.ltb_spec (v + steps_left s v * real_increment s + real_increment s) LONGLONG_MIN).
  - apply descending_undefined; [destruct Hb as (?&?&?); lia|done].
  - rewrite <- H3. by apply increment_defined.
Qed.

Definition odd_seq : sequence_definition := mk_seq 0 1 10 1 2 1000 0 0 false 0 2 1.
Definition low_seq : sequence_definition :=
  mk_seq 0 (LONGLONG_MIN + 1) (-1) (-1) (-1000) 1000 0 0 false 0 (-1000) 0.

Lemma sequence_enumerates_witness :
  (values 4 odd_seq 1 = Some [1; 3; 5; 7; 9] /\ increment_value odd_seq 9 = Some 11) /\
  (values 1 low_seq (LONGLONG_MIN + 1500) = Some [LONGLONG_MIN + 1500; LONGLONG_MIN + 500] /\
   increment_value low_seq (LONGLONG_MIN + 500) = None).
Proof.
  split.
  - assert (bounds_ok odd_seq) as Hb by (unfold bounds_ok, LONGLONG_MIN, LONGLONG_MAX; cbn; lia).
    destruct (sequence_enumerates odd_seq 1 Hb) as (H1&_&H3);
      [discriminate|vm_compute; congruence|cbn; lia|]. split; [exact H1|exact H3].
  - assert (bounds_ok low_seq) as Hb by (split; [|split]; vm_compute; congruence).
    destruct (sequence_enumerates low_seq (LONGLONG_MIN + 1500) Hb) as (H1&_&H3);
      [discriminate|vm_compute; congruence|split; vm_compute; congruence|]. split; [exact H1|exact H3].
Defined.

(** near the lower end of the 64 bits a descending sequence evaluates
    [value + real_increment] before it tests whether there is room for it: with
    the smallest admissible lower bound the addition overflows, which C leaves
    undefined, although the value to return is representable.  The ascending
    branch tests first, and is defined for every bound that is not negative. *)
Theorem descending_step_overflows :
  (exists s v, bounds_ok s /\ real_increment s < 0 /\ min_value s <= v <= max_value s /\
     ll (next_of s v) = Some (next_of s v) /\ increment_value s v = None) /\
  (forall s v, ~ (bounds_ok s /\ 0 <= max_value s /\ 0 < real_increment s <= LONGLONG_MAX /\
     min_value s <= v <= max_value s /\ increment_value s v = None)).
Proof.
  split.
  - exists (mk_seq 0 (LONGLONG_MIN + 1) (-1) (-1) (-1000) 1000 0 0 false 0 (-1000) 0), (LONGLONG_MIN + 10).
    unfold bounds_ok, LONGLONG_MIN, LONGLONG_MAX. cbn [min_value max_value real_increment].
    split; [lia|]. split; [lia|]. split; [lia|]. split; vm_compute; reflexivity.
  - intros s v (Hb&Hm&Hr&Hv&E). rewrite increment_ascending in E; [done| |].
    + split; [done|]. split; [done|]. unfold LONGLONG_MIN, LONGLONG_MAX in *. lia.
    + destruct Hb as (?&?&?). unfold LONGLONG_MIN, LONGLONG_MAX in *. lia.
Qed.
End Sequence.
