(* ===== verification/PartitionInfo.v ===== *)
(** * Partitions of a versioned table (private/partition_info.h, private/partition_element.h)

    Finding partitions by id, numbering them, and choosing names for new ones.
    Comparison of names (my_strcasecmp) is a parameter with its law. *)

From Stdlib Require Import ZArith Lia.
From S2P Require Import Prelude.
From stdpp Require Import prelude list strings pretty.
Local Open Scope Z_scope.
Local Open Scope cint_scope.

Module PartitionInfo.

Definition MAX_PART_NAME_SIZE : Z := 8.
Definition UINT_MAX32 : Z := 0xFFFFFFFF.

Inductive partition_type : Type :=
  | NOT_A_PARTITION | RANGE_PARTITION | HASH_PARTITION | LIST_PARTITION | VERSIONING_PARTITION.
Inductive elem_type_enum : Type := CONVENTIONAL | CURRENT | HISTORY.

#[global] Instance partition_type_eq_dec : EqDecision partition_type.
Proof. solve_decision. Defined.
#[global] Instance elem_type_eq_dec : EqDecision elem_type_enum.
Proof. solve_decision. Defined.

Record partition_element := mk_elem {
  partition_name : string;
  id : Z;                       (* uint32 *)
  type : elem_type_enum
}.

(** The iteration returns null after the last element. *)
Fixpoint get_partition (partitions : list partition_element) (part_id : Z) : option partition_element :=
  match partitions with
  | [] => None
  | el :: rest => if id el =? part_id then Some el else get_partition rest part_id
  end.

(** The loop of [vers_update_el_ids] from the element of number [n]; [None] for
    its assertion on the types. *)
Fixpoint update_ids (n : Z) (partitions : list partition_element) : option (list partition_element) :=
  match partitions with
  | [] => Some []
  | el :: rest =>
      if bool_decide (type el = CONVENTIONAL) then None
      else
        let current := bool_decide (type el = CURRENT) in
        let el := if (id el =? UINT_MAX32) || current then mk_elem (partition_name el) n (type el) else el in
        if current then Some (el :: rest)
        else rest ← update_ids (u32 (n + 1)) rest; Some (el :: rest)
  end.

Definition vers_update_el_ids (part_type : partition_type) (partitions : list partition_element) :
    option (list partition_element) :=
  if bool_decide (part_type = VERSIONING_PARTITION) then update_ids 0 partitions else None.

(** The name, or [None] where the function returns true. *)
Definition make_partition_name (i : Z) : option string :=
  let name := ("p" +:+ pretty (Z.to_N i))%string in
  if MAX_PART_NAME_SIZE <? Z.of_nat (String.length name) then None else Some name.

Section names.
(** [my_strcasecmp(...) == 0] in the character set latin1. *)
Context (strcaseeq : string -> string -> bool).

(** The loop over the elements, restarted with the next suffix after a match;
    [None] inside: the function returns 0. *)
Fixpoint free_suffix (fuel : nat) (partitions : list partition_element) (suffix : Z) (part_name : string) :
    option (option Z) :=
  match fuel with
  | O => None
  | S f =>
      if existsb (fun el => strcaseeq (partition_name el) part_name) partitions then
        match make_partition_name (u32 (suffix + 1)) with
        | None => Some None
        | Some name => free_suffix f partitions (u32 (suffix + 1)) name
        end
      else Some (Some suffix)
  end.

(** The outer loop. *)
Fixpoint find_suffixes (fuel : nat) (partitions : list partition_element) (new_parts cur_part suffix : Z) :
    option Z :=
  match fuel with
  | O => None
  | S f =>
      if cur_part <? new_parts then
        match make_partition_name suffix with
        | None => Some 0
        | Some name =>
            found ← free_suffix (S (length partitions)) partitions suffix name;
            match found with
            | None => Some 0
            | Some s =>
                let cur_part := if (0 <? cur_part) && (suffix <? s) then 0 else cur_part in
                find_suffixes f partitions new_parts (u32 (cur_part + 1)) (u32 (s + 1))
            end
        end
      else Some (u32 (suffix - new_parts))
  end.

Definition next_part_no (fuel : nat) (part_type : partition_type) (num_parts : Z)
    (partitions : list partition_element) (new_parts : Z) : option Z :=
  if negb (bool_decide (part_type = VERSIONING_PARTITION)) then Some num_parts
  else if 0 <? new_parts then
    let suffix := u32 (num_parts - 1) in
    if 0 <? suffix then find_suffixes fuel partitions new_parts 0 suffix else None
  else None.
End names.

(** ** Properties of names *)

Definition name_of (i : Z) : string := ("p" +:+ pretty (Z.to_N i))%string.

(** What is relied on of the comparison of names: it is an equivalence, and
    does not confuse the names of different suffixes. *)
Class CaseEq (strcaseeq : string -> string -> bool) : Prop := {
  caseeq_sym a b : strcaseeq a b = true -> strcaseeq b a = true;
  caseeq_trans a b c : strcaseeq a b = true -> strcaseeq b c = true -> strcaseeq a c = true;
  caseeq_suffix i j : 0 <= i -> 0 <= j -> strcaseeq (name_of i) (name_of j) = true -> i = j
}.

Lemma length_String c s : String.length (String c s) = S (String.length s).
Proof. done. Qed.

Lemma pretty_go_length k x s :
  (10 ^ N.of_nat k <= x)%N -> (k < String.length (pretty_N_go x s) - String.length s)%nat.
Proof.
  assert (forall y t, (String.length t <= String.length (pretty_N_go y t))%nat) as Hmono.
  { intros y. induction (N.lt_wf_0 y) as [y _ IH]; intros t.
    destruct (decide (y = 0)%N) as [->|]; [by rewrite pretty_N_go_0|].
    rewrite pretty_N_go_step by lia. etransitivity; [|apply IH; apply N.div_lt; lia]. rewrite length_String. lia. }
  revert x s. induction k as [|k IH]; intros x s Hx.
  - rewrite pretty_N_go_step by (cbn in Hx; lia). pose proof (Hmono (x `div` 10)%N (String (pretty_N_char (x `mod` 10)) s)) as H.
    rewrite length_String in H. lia.
  - rewrite Nat2N.inj_succ, N.pow_succ_r' in Hx. assert (0 < 10 ^ N.of_nat k)%N by (apply N.neq_0_lt_0, N.pow_nonzero; done).
    rewrite pretty_N_go_step by lia.
    assert (10 ^ N.of_nat k <= x `div` 10)%N as Hd by (apply N.div_le_lower_bound; lia).
    specialize (IH (x `div` 10)%N (String (pretty_N_char (x `mod` 10)) s) Hd).
    rewrite length_String in IH. lia.
Qed.

(** Names that fit have at most seven digits. *)
Lemma make_name_small i name :
  0 <= i -> make_partition_name i = Some name -> name = name_of i /\ i < 10000000.
Proof.
  intros Hi. unfold make_partition_name. cbv zeta. fold (name_of i).
  destruct (Z.ltb_spec MAX_PART_NAME_SIZE (Z.of_nat (String.length (name_of i)))) as [|Hl]; [done|].
  intros [= <-]. split; [done|]. apply Z.nle_gt. intros Hge. unfold MAX_PART_NAME_SIZE in Hl.
  change (String.length (name_of i)) with (S (String.length (pretty (Z.to_N i)))) in Hl.
  unfold pretty, pretty_N in Hl. rewrite decide_False in Hl by lia.
  pose proof (pretty_go_length 7 (Z.to_N i) "" ltac:(cbn; lia)) as H.
  change (String.length "") with 0%nat in H. lia.
Qed.

Lemma pretty_go_short k x s :
  (x < 10 ^ N.of_nat k)%N -> (String.length (pretty_N_go x s) <= k + String.length s)%nat.
Proof.
  revert x s. induction k as [|k IH]; intros x s Hx.
  - cbn in Hx. replace x with 0%N by lia. by rewrite pretty_N_go_0.
  - destruct (decide (x = 0)%N) as [->|]; [rewrite pretty_N_go_0; lia|].
    rewrite Nat2N.inj_succ, N.pow_succ_r' in Hx. rewrite pretty_N_go_step by lia.
    specialize (IH (x `div` 10)%N (String (pretty_N_char (x `mod` 10)) s)).
    rewrite length_String in IH. etransitivity; [apply IH, N.div_lt_upper_bound; lia|lia].
Qed.

(** A suffix has a name exactly below 10000000. *)
Definition named (i : Z) : Prop := is_Some (make_partition_name i).

Lemma named_iff i : 0 <= i -> named i <-> i < 10000000.
Proof.
  intros Hi. split; [intros [name E]; by apply (make_name_small i name)|]. intros Hlt.
  unfold named, make_partition_name. cbv zeta. fold (name_of i).
  destruct (Z.ltb_spec MAX_PART_NAME_SIZE (Z.of_nat (String.length (name_of i)))) as [Hl|]; [|by eexists].
  exfalso. unfold MAX_PART_NAME_SIZE in Hl.
  change (String.length (name_of i)) with (S (String.length (pretty (Z.to_N i)))) in Hl.
  unfold pretty, pretty_N in Hl. case_decide; [cbn in Hl; lia|].
  pose proof (pretty_go_short 7 (Z.to_N i) "" ltac:(cbn; lia)) as Hs.
  change (String.length "") with 0%nat in Hs. lia.
Qed.

Lemma no_name i : 0 <= i -> make_partition_name i = None -> 10000000 <= i.
Proof.
  intros Hi E. apply Z.nlt_ge. intros Hlt. apply named_iff in Hlt as [name E']; [|done].
  by rewrite E in E'.
Qed.

Section free_names.
Context (strcaseeq : string -> string -> bool) `{!CaseEq strcaseeq}.

(** Some element of [els] is called like the suffix. *)
Definition occupied (els : list partition_element) (s : Z) : bool :=
  existsb (fun el => strcaseeq (partition_name el) (name_of s)) els.

(** [rem] are the elements that can still match, from suffix [s] on. *)
Definition remaining (els rem : list partition_element) (s : Z) : Prop :=
  forall s', s <= s' -> occupied els s' = occupied rem s'.

Definition drop_suffix (rem : list partition_element) (s : Z) : list partition_element :=
  filter (fun el => strcaseeq (partition_name el) (name_of s) = false) rem.

Lemma occupied_true els s :
  occupied els s = true <-> exists el, el ∈ els /\ strcaseeq (partition_name el) (name_of s) = true.
Proof.
  unfold occupied. rewrite existsb_exists. split; intros (el&H1&H2); exists el; split; try done;
    by apply list_elem_of_In.
Qed.

Lemma drop_remaining els rem s :
  0 <= s -> remaining els rem s -> occupied els s = true ->
  remaining els (drop_suffix rem s) (s + 1) /\ (length (drop_suffix rem s) < length rem)%nat.
Proof.
  intros Hs Hr Ho. split.
  - intros s' Hs'. rewrite (Hr s') by lia. apply eq_true_iff_eq. rewrite !occupied_true. unfold drop_suffix.
    setoid_rewrite list_elem_of_filter. split; [|naive_solver]. intros (el&H1&H2). exists el. split; [|done].
    split; [|done]. destruct (strcaseeq _ (name_of s)) eqn:E; [|done].
    assert (s = s'); [|lia]. apply caseeq_suffix; [lia|lia|].
    eapply caseeq_trans; [apply caseeq_sym; exact E|exact H2].
  - rewrite (Hr s) in Ho by lia. apply occupied_true in Ho as (el&Hel&E).
    unfold drop_suffix. clear Hr. induction rem as [|x rem IH]; [by apply elem_of_nil in Hel|].
    rewrite filter_cons. apply elem_of_cons in Hel as [<-|Hel].
    + rewrite decide_False by (rewrite E; done). cbn. apply Nat.lt_succ_r. apply length_filter.
    + specialize (IH Hel). case_decide; cbn; lia.
Qed.

Lemma free_suffix_spec fuel els rem s :
  0 <= s < 10000000 -> remaining els rem s -> (length rem < fuel)%nat ->
  free_suffix strcaseeq fuel els s (name_of s) = Some None /\
    (forall u, s <= u < 10000000 -> occupied els u = true) \/
  exists v rem', free_suffix strcaseeq fuel els s (name_of s) = Some (Some v) /\
    s <= v < 10000000 /\ (forall u, s <= u < v -> occupied els u = true) /\ occupied els v = false /\
    remaining els rem' v /\ Z.of_nat (length rem') + (v - s) <= Z.of_nat (length rem).
Proof.
  revert rem s. induction fuel as [|fuel IH]; intros rem s Hs Hr Hf; [lia|].
  cbn [free_suffix]. fold (occupied els s). destruct (occupied els s) eqn:Ho.
  - destruct (drop_remaining els rem s ltac:(lia) Hr Ho) as [Hr' Hl].
    rewrite u32_small by lia. destruct (make_partition_name (s + 1)) as [name|] eqn:En.
    + destruct (make_name_small (s + 1) name ltac:(lia) En) as [-> Hsm].
      destruct (IH (drop_suffix rem s) (s + 1) ltac:(lia) Hr' ltac:(lia)) as [[E Hocc]|(v&rem'&E&Hv&Hocc&Hfree&Hrem&Hlen)].
      * left. split; [done|]. intros u Hu. destruct (decide (u = s)) as [->|]; [done|apply Hocc; lia].
      * right. exists v, rem'. split; [done|]. split; [lia|]. split; [|split; [done|split; [done|lia]]].
        intros u Hu. destruct (decide (u = s)) as [->|]; [done|apply Hocc; lia].
    + left. split; [done|]. apply no_name in En; [|lia]. intros u Hu.
      by replace u with s by lia.
  - right. exists s, rem. split; [done|]. split; [lia|]. split; [lia|]. split; [done|]. split; [done|lia].
Qed.

(** [r] begins the first range of [n] free suffixes from [s0] on. *)
Definition first_free_range (els : list partition_element) (s0 n r : Z) : Prop :=
  s0 <= r /\ (forall u, r <= u < r + n -> occupied els u = false) /\
  (forall r', s0 <= r' < r -> exists u, r' <= u < r' + n /\ occupied els u = true).

(** Every range of [n] suffixes that have names meets an occupied one. *)
Definition no_free_range (els : list partition_element) (s0 n : Z) : Prop :=
  forall r, s0 <= r -> named (r + n - 1) -> exists u, r <= u < r + n /\ occupied els u = true.

Lemma find_suffixes_spec fuel els rem s0 new cur suffix :
  0 <= s0 -> 0 < new < 2 ^ 32 -> 0 <= cur <= new -> s0 <= suffix - cur -> suffix <= 10000000 ->
  remaining els rem suffix -> (length rem <= length els)%nat ->
  (forall u, suffix - cur <= u < suffix -> occupied els u = false) ->
  (forall r', s0 <= r' < suffix - cur -> exists u, r' <= u < r' + new /\ occupied els u = true) ->
  Z.of_nat (length rem) * new + (new - cur) < Z.of_nat fuel ->
  exists r, find_suffixes strcaseeq fuel els new cur suffix = Some r /\
    (first_free_range els s0 new r /\ named (r + new - 1) \/ r = 0 /\ no_free_range els s0 new).
Proof.
  revert rem cur suffix. induction fuel as [|fuel IH];
    intros rem cur suffix Hs0 Hnew Hcur Hsuf Hlt Hr Hlen Hfree Hmin Hf; [lia|].
  cbn [find_suffixes]. destruct (Z.ltb_spec cur new) as [Hc|Hc].
  2:{ assert (cur = new) as -> by lia. rewrite u32_small by lia. eexists. split; [done|]. left.
      split; [|apply named_iff; lia].
      split; [lia|]. split; [|done]. intros u Hu. apply Hfree. lia. }
  destruct (make_partition_name suffix) as [name|] eqn:En.
  2:{ exists 0. split; [done|]. right. split; [done|]. apply no_name in En; [|lia].
      intros r' Hr' Hn%named_iff; [|lia]. apply Hmin. lia. }
  destruct (make_name_small suffix name ltac:(lia) En) as [-> Hsm].
  destruct (free_suffix_spec (S (length els)) els rem suffix ltac:(lia) Hr ltac:(lia))
    as [[E Hocc]|(v&rem'&E&Hv&Hocc&Hvf&Hrem&Hl)]; rewrite E; cbn [mbind option_bind].
  { exists 0. split; [done|]. right. split; [done|]. intros r' Hr' Hn%named_iff; [|lia].
    destruct (Z.lt_ge_cases r' (suffix - cur)); [apply Hmin; lia|].
    exists (Z.max r' suffix). split; [lia|]. apply Hocc. lia. }
  assert (remaining els rem' (v + 1)) as Hrem' by (intros u Hu; apply Hrem; lia).
  rewrite (u32_small (v + 1)) by lia.
  destruct (Z.ltb_spec suffix v) as [Hjump|Hjump].
  - replace (if (0 <? cur) && true then 0 else cur) with 0 by (destruct (Z.ltb_spec 0 cur); cbn; lia).
    rewrite u32_small by lia. apply (IH rem'); try lia; [done| | |nia].
    + intros u Hu. replace u with v by lia. done.
    + intros r' Hr'. destruct (Z.lt_ge_cases r' (suffix - cur)); [apply Hmin; lia|].
      destruct (Z.lt_ge_cases r' suffix).
      * exists suffix. split; [lia|]. apply Hocc. lia.
      * exists r'. split; [lia|]. apply Hocc. lia.
  - assert (v = suffix) as -> by lia. rewrite andb_false_r, u32_small by lia.
    apply (IH rem'); try lia; [done| | |nia].
    + intros u Hu. destruct (decide (u = suffix)) as [->|]; [done|apply Hfree; lia].
    + intros r' Hr'. apply Hmin. lia.
Qed.

End free_names.

(** *** Comparison without case *)

Definition lower (c : Ascii.ascii) : Ascii.ascii :=
  let n := Ascii.N_of_ascii c in
  if (65 <=? n)%N && (n <=? 90)%N then Ascii.ascii_of_N (n + 32) else c.

Fixpoint lower_string (s : string) : string :=
  match s with EmptyString => EmptyString | String c s => String (lower c) (lower_string s) end.

Definition ascii_caseeq (a b : string) : bool := bool_decide (lower_string a = lower_string b).

Lemma lower_pretty x s : lower_string s = s -> lower_string (pretty_N_go x s) = pretty_N_go x s.
Proof.
  revert s. induction (N.lt_wf_0 x) as [x _ IH]; intros s Hs.
  destruct (decide (x = 0)%N) as [->|]; [by rewrite pretty_N_go_0|].
  rewrite pretty_N_go_step by lia. apply IH; [apply N.div_lt; lia|].
  cbn [lower_string]. rewrite Hs. f_equal. unfold pretty_N_char. by repeat case_match.
Qed.

Lemma lower_name i : lower_string (name_of i) = name_of i.
Proof.
  change (name_of i) with (String (Ascii.ascii_of_N 112) (pretty (Z.to_N i))). cbn [lower_string].
  f_equal. unfold pretty, pretty_N. case_decide; [done|]. by apply lower_pretty.
Qed.

#[global] Instance ascii_caseeq_ok : CaseEq ascii_caseeq.
Proof.
  split; unfold ascii_caseeq; intros *; rewrite ?bool_decide_eq_true; try congruence.
  intros Hi Hj. rewrite !lower_name. intros E. unfold name_of in E.
  apply (inj (String.append "p")), (inj pretty) in E. lia.
Qed.

Definition history : list partition_element :=
  [mk_elem "p0" 0 HISTORY; mk_elem "P3" 1 HISTORY; mk_elem "pn" 2 CURRENT].


(** ** Properties of ids *)

(** History partitions are numbered by position, or new and not numbered. *)
Definition ids_pending (n : Z) (hist : list partition_element) : Prop :=
  forall k el, hist !! k = Some el -> type el = HISTORY /\ (id el = n + Z.of_nat k \/ id el = UINT_MAX32).

Definition numbered (n : Z) (els : list partition_element) : list partition_element :=
  imap (fun k el => mk_elem (partition_name el) (n + Z.of_nat k) (type el)) els.

Lemma numbered_cons n el els :
  numbered n (el :: els) = mk_elem (partition_name el) n (type el) :: numbered (n + 1) els.
Proof.
  unfold numbered. rewrite imap_cons. f_equal; [f_equal; lia|].
  apply imap_ext. intros k x _. cbn. f_equal. lia.
Qed.

Lemma update_ids_spec n hist cur :
  0 <= n -> n + Z.of_nat (length hist) < UINT_MAX32 -> ids_pending n hist -> type cur = CURRENT ->
  update_ids n (hist ++ [cur]) = Some (numbered n (hist ++ [cur])).
Proof.
  revert n. induction hist as [|el hist IH]; intros n Hn Hl Hp Hc; cbn [app].
  - destruct cur as [nm i ty]. cbn in Hc. subst ty. unfold numbered. cbn. by rewrite orb_true_r, Z.add_0_r.
  - destruct (Hp 0%nat el eq_refl) as [Ht Hid]. rewrite numbered_cons. cbn [update_ids]. rewrite Ht.
    rewrite bool_decide_false by done. rewrite (bool_decide_false (HISTORY = CURRENT)) by done. cbn [length] in Hl.
    unfold UINT_MAX32 in *. rewrite u32_small by lia. rewrite IH; [|lia|lia| |done].
    + cbn [mbind option_bind]. do 2 f_equal. rewrite orb_false_r.
      destruct (Z.eqb_spec (id el) 0xFFFFFFFF); [done|]. destruct Hid as [Hid|]; [|done].
      destruct el as [nm i ty]. cbn in *. f_equal; [lia|done].
    + intros k x Hx. destruct (Hp (S k) x Hx) as [H1 H2]. split; [done|]. lia.
Qed.

Lemma get_numbered n els k :
  get_partition (numbered n els) (n + Z.of_nat k) =
  (fun el => mk_elem (partition_name el) (n + Z.of_nat k) (type el)) <$> els !! k.
Proof.
  revert n k. induction els as [|el els IH]; intros n k; [done|]. rewrite numbered_cons. cbn [get_partition id].
  destruct k as [|k].
  - rewrite (proj2 (Z.eqb_eq _ _)) by lia. cbn. do 2 f_equal. lia.
  - rewrite (proj2 (Z.eqb_neq _ _)) by lia. specialize (IH (n + 1) k).
    replace (n + 1 + Z.of_nat k) with (n + Z.of_nat (S k)) in IH by lia. done.
Qed.

(** Numbering changes nothing else. *)
Lemma numbered_same {B} (f : partition_element -> B) n els :
  (forall nm i j ty, f (mk_elem nm i ty) = f (mk_elem nm j ty)) -> f <$> numbered n els = f <$> els.
Proof.
  intros Hf. revert n. induction els as [|[nm i ty] els IH]; intros n; [done|].
  rewrite numbered_cons, !fmap_cons. f_equal; [apply Hf|apply IH].
Qed.

(** after partitions were added before the current one, vers_update_el_ids
    numbers them: names and types stay, every partition has the number of its
    position, and get_partition finds the partition at that position and none
    beyond the last. *)
Theorem partition_ids_are_positions hist cur :
  ids_pending 0 hist -> type cur = CURRENT -> Z.of_nat (length hist) < UINT_MAX32 ->
  exists ps, vers_update_el_ids VERSIONING_PARTITION (hist ++ [cur]) = Some ps /\
    partition_name <$> ps = partition_name <$> (hist ++ [cur]) /\
    type <$> ps = type <$> (hist ++ [cur]) /\
    forall k, get_partition ps (Z.of_nat k) = ps !! k.
Proof.
  intros Hp Hc Hl. exists (numbered 0 (hist ++ [cur])). split; [by apply update_ids_spec|].
  split; [|split].
  - by apply numbered_same.
  - by apply numbered_same.
  - intros k. rewrite (get_numbered 0 _ k : get_partition _ (Z.of_nat k) = _).
    unfold numbered. by rewrite list_lookup_imap.
Qed.

Lemma partition_ids_are_positions_witness :
  exists ps, vers_update_el_ids VERSIONING_PARTITION
      ([mk_elem "p0" 0 HISTORY; mk_elem "p1" UINT_MAX32 HISTORY] ++ [mk_elem "pn" 1 CURRENT]) = Some ps /\
    get_partition ps 1 = Some (mk_elem "p1" 1 HISTORY).
Proof.
  destruct (partition_ids_are_positions [mk_elem "p0" 0 HISTORY; mk_elem "p1" UINT_MAX32 HISTORY]
              (mk_elem "pn" 1 CURRENT)) as (ps&E&_&_&H).
  - intros [|[|k]] el Hk; cbn in Hk; simplify_eq; cbn; split; try reflexivity; [left|right]; reflexivity.
  - reflexivity.
  - cbn. unfold UINT_MAX32. lia.
  - exists ps. split; [exact E|]. change 1 with (Z.of_nat 1). rewrite (H 1%nat). vm_compute in E. injection E as <-. reflexivity.
Defined.
End PartitionInfo.
