(* ===== verification/Bits.v ===== *)
(** * Bit tricks of include/mysql/server/private/my_bit.h

    Every function of the header on [Z], at the width its C type has.  The
    specifications are [Z.log2], a counted set of bit positions, powers of two
    and single bits read with [Z.testbit]. *)

From Stdlib Require Import ZArith Lia.
From stdpp Require Import prelude.
From S2P Require Import Prelude.
Local Open Scope Z_scope.
Local Open Scope cint_scope.

Module MyBit.

(** ** [my_bit_log2_*] *)

Definition my_bit_log2_hex_digit (value : Z) : Z :=
  if truth (Z.land value 0x0C)
  then (if truth (Z.land value 0x08) then 3 else 2)
  else (if truth (Z.land value 0x02) then 1 else 0).

Definition my_bit_log2_uint8 (value : Z) : Z :=
  if truth (Z.land value 0xF0)
  then u32 (my_bit_log2_hex_digit (u8 (Z.shiftr value 4)) + 4)
  else my_bit_log2_hex_digit value.

Definition my_bit_log2_uint16 (value : Z) : Z :=
  if truth (Z.land value 0xFF00)
  then u32 (my_bit_log2_uint8 (u8 (Z.shiftr value 8)) + 8)
  else my_bit_log2_uint8 (u8 value).

Definition my_bit_log2_uint32 (value : Z) : Z :=
  if truth (Z.land value 0xFFFF0000)
  then u32 (my_bit_log2_uint16 (u16 (Z.shiftr value 16)) + 16)
  else my_bit_log2_uint16 (u16 value).

Definition my_bit_log2_uint64 (value : Z) : Z :=
  if truth (Z.land value 0xFFFFFFFF00000000)
  then u32 (my_bit_log2_uint32 (u32 (Z.shiftr value 32)) + 32)
  else my_bit_log2_uint32 (u32 value).

Definition my_bit_log2_size_t (value : Z) : Z := my_bit_log2_uint64 (u64 value).

(** ** [my_count_bits] *)

Definition my_count_bits_uint32 (v : Z) : Z :=
  let v := u32 (v - Z.land (Z.shiftr v 1) 0x55555555) in
  let v := u32 (Z.land v 0x33333333 + Z.land (Z.shiftr v 2) 0x33333333) in
  Z.shiftr (u32 (Z.land (u32 (v + Z.shiftr v 4)) 0xF0F0F0F * 0x1010101)) 24.

Definition my_count_bits (x : Z) : Z :=
  u32 (my_count_bits_uint32 (u32 x) + my_count_bits_uint32 (u32 (Z.shiftr x 32))).

(** ** Powers of two *)

Definition my_round_up_to_next_power (v : Z) : Z :=
  let v := u32 (v - 1) in
  let v := Z.lor v (Z.shiftr v 1) in
  let v := Z.lor v (Z.shiftr v 2) in
  let v := Z.lor v (Z.shiftr v 4) in
  let v := Z.lor v (Z.shiftr v 8) in
  let v := Z.lor v (Z.shiftr v 16) in
  u32 (v + 1).

Definition my_clear_highest_bit (v : Z) : Z :=
  let w := Z.shiftr v 1 in
  let w := Z.lor w (Z.shiftr w 1) in
  let w := Z.lor w (Z.shiftr w 2) in
  let w := Z.lor w (Z.shiftr w 4) in
  let w := Z.lor w (Z.shiftr w 8) in
  let w := Z.lor w (Z.shiftr w 16) in
  Z.land v w.

(** [_my_bits_reverse_table] is only declared by the header: the table is an
    argument, an index function on 0..255. *)
Definition my_reverse_bits (_my_bits_reverse_table : Z -> Z) (key : Z) : Z :=
  Z.lor (Z.lor (Z.lor
    (u32 (Z.shiftl (_my_bits_reverse_table (Z.land key 255)) 24))
    (u32 (Z.shiftl (_my_bits_reverse_table (Z.land (Z.shiftr key 8) 255)) 16)))
    (u32 (Z.shiftl (_my_bits_reverse_table (Z.land (Z.shiftr key 16) 255)) 8)))
    (_my_bits_reverse_table (Z.shiftr key 24)).

Definition my_set_bits (n : Z) : Z :=
  Z.lor (u64 (Z.shiftl (u64 (u64 (Z.shiftl 1 (n - 1)) - 1)) 1)) 1.

Definition last_byte_mask (bits : Z) : Z :=
  let used := Z.land (u32 (bits - 1)) 7 in
  u8 (u32 (Z.shiftl 2 used) - 1).

(** ** [my_find_first_bit]: the portable branch

    The loop reads a nibble at a time.  Sixteen rounds cover the 64 bits; the
    loop leaves earlier for every non-zero argument. *)

Definition last_bit : list Z := [32; 0; 1; 0; 2; 0; 1; 0; 3; 0; 1; 0; 2; 0; 1; 0].

Fixpoint find_first_loop (fuel : nat) (n shift : Z) : option Z :=
  match fuel with
  | O => None
  | S fuel =>
      let bit := nth (Z.to_nat (Z.land (Z.shiftr n shift) 0xF)) last_bit 0 in
      if bit =? 32 then find_first_loop fuel n (u32 (shift + 4))
      else Some (u32 (shift + bit))
  end.

Definition my_find_first_bit (n : Z) : option Z :=
  if n =? 0 then Some 64 else find_first_loop 16 n 0.

(** ** Specifications *)

(** Number of set bits among the positions [0 .. w-1]. *)
Fixpoint popcount (w : nat) (z : Z) : Z :=
  match w with
  | O => 0
  | S w => Z.b2z (Z.testbit z (Z.of_nat w)) + popcount w z
  end.


(** ** Lemmas: logarithm *)

(** One halving step shared by the four [my_bit_log2_*] widths. *)
Lemma log2_high w k z :
  0 < k -> urange w z -> 2 ^ k <= z -> Z.log2 (Z.shiftr z k) + k = Z.log2 z.
Proof.
  intros Hk [Hz _] Hge. rewrite Z.log2_shiftr by lia.
  pose proof (proj1 (Z.log2_le_pow2 z k ltac:(lia)) Hge). lia.
Qed.

Lemma log2_u32 w z : 0 <= z < 2 ^ w -> 0 < w <= 64 -> u32 (Z.log2 z) = Z.log2 z.
Proof.
  intros [Hz Hlt] Hw. apply wrap_small. split; [apply Z.log2_nonneg|].
  destruct (Z.eq_dec z 0) as [->|]; [done|].
  apply Z.log2_lt_pow2 in Hlt; lia.
Qed.

Lemma log2_step w k (mask z : Z) (hi lo : Z -> Z) :
  0 < k -> 0 < w -> w + k <= 64 -> mask = Z.ones (w + k) - Z.ones k ->
  urange (w + k) z ->
  (forall x, urange w x -> hi x = Z.log2 x) ->
  (forall x, urange k x -> lo x = Z.log2 x) ->
  (if truth (Z.land z mask) then u32 (hi (wrap w (Z.shiftr z k)) + k) else lo (wrap k z))
  = Z.log2 z.
Proof.
  intros Hk Hw Hwk -> Hz Hhi Hlo.
  pose proof (land_high_zero k (w + k) z ltac:(lia) Hz) as Hland.
  destruct (truth _) eqn:E.
  - apply truth_true in E. rewrite Hland in E. apply Z.nlt_ge in E.
    assert (urange w (Z.shiftr z k)) as Hr by (apply urange_shiftr_drop; done || lia).
    rewrite (wrap_small w) by done. rewrite Hhi by done.
    rewrite (log2_high (w + k)) by (done || lia).
    apply (log2_u32 (w + k)); [done|lia].
  - apply truth_false in E. rewrite Hland in E.
    assert (urange k z) by (destruct Hz; split; lia).
    rewrite wrap_small by done. by apply Hlo.
Qed.

Lemma my_bit_log2_hex_digit_spec z : urange 4 z -> my_bit_log2_hex_digit z = Z.log2 z.
Proof.
  intros [H1 H2]. change (2 ^ 4) with 16 in H2.
  assert (z = 0 \/ z = 1 \/ z = 2 \/ z = 3 \/ z = 4 \/ z = 5 \/ z = 6 \/ z = 7 \/ z = 8 \/
    z = 9 \/ z = 10 \/ z = 11 \/ z = 12 \/ z = 13 \/ z = 14 \/ z = 15) as C by lia.
  by repeat destruct C as [->|C]; try subst z.
Qed.

Lemma my_bit_log2_uint8_spec z : urange 8 z -> my_bit_log2_uint8 z = Z.log2 z.
Proof.
  intros Hz. rewrite <- (log2_step 4 4 0xF0 z
    my_bit_log2_hex_digit my_bit_log2_hex_digit)
    by (lia || done || auto using my_bit_log2_hex_digit_spec).
  unfold my_bit_log2_uint8. pose proof (land_high_zero 4 8 z ltac:(lia) Hz) as Hland.
  change (Z.ones 8 - Z.ones 4) with 0xF0 in Hland.
  destruct (truth _) eqn:E.
  - assert (urange 4 (Z.shiftr z 4)) as Hr by (apply urange_shiftr_drop; done || lia).
    rewrite (wrap_small 4), (wrap_small 8) by (done || destruct Hr; split; simpl in *; lia).
    done.
  - apply truth_false in E. rewrite Hland in E.
    rewrite wrap_small; [done|]. destruct Hz; split; lia.
Qed.

Lemma my_bit_log2_uint16_spec z : urange 16 z -> my_bit_log2_uint16 z = Z.log2 z.
Proof.
  intros Hz. apply (log2_step 8 8 0xFF00); try (lia || done);
    apply my_bit_log2_uint8_spec.
Qed.

Lemma my_bit_log2_uint32_spec z : urange 32 z -> my_bit_log2_uint32 z = Z.log2 z.
Proof.
  intros Hz. apply (log2_step 16 16 0xFFFF0000); try (lia || done);
    apply my_bit_log2_uint16_spec.
Qed.

Lemma my_bit_log2_uint64_spec z : urange 64 z -> my_bit_log2_uint64 z = Z.log2 z.
Proof.
  intros Hz. apply (log2_step 32 32 0xFFFFFFFF00000000); try (lia || done);
    apply my_bit_log2_uint32_spec.
Qed.

(** ** Lemmas: counting bits

    A word is cut into a low field of [k] bits and the rest; the masks of the
    algorithm act on each field separately. *)

Lemma pack_testbit k a b i :
  0 <= k -> urange k a -> 0 <= i ->
  Z.testbit (a + 2 ^ k * b) i = if i <? k then Z.testbit a i else Z.testbit b (i - k).
Proof.
  intros Hk Ha Hi. destruct (Z.ltb_spec i k).
  - rewrite <- (Z.mod_pow2_bits_low _ k) by lia.
    rewrite Z.mul_comm, Z_mod_plus_full, Z.mod_small by done. done.
  - replace i with (i - k + k) at 1 by lia. rewrite <- Z.div_pow2_bits by lia.
    rewrite Z.mul_comm, Z.div_add, Z.div_small by (done || lia). done.
Qed.

Lemma land_pack k a b m0 m1 :
  0 <= k -> urange k a -> urange k m0 ->
  Z.land (a + 2 ^ k * b) (m0 + 2 ^ k * m1) = Z.land a m0 + 2 ^ k * Z.land b m1.
Proof.
  intros Hk Ha Hm. apply Z.bits_inj'. intros i Hi.
  assert (urange k (Z.land a m0)) by (apply urange_land; [lia|done|apply Hm]).
  rewrite Z.land_spec, !pack_testbit by done.
  destruct (i <? k); by rewrite Z.land_spec.
Qed.

Lemma shiftr_land_pack k s a b m0 m1 :
  0 <= s <= k -> urange k a -> urange (k - s) m0 ->
  Z.land (Z.shiftr (a + 2 ^ k * b) s) (m0 + 2 ^ k * m1)
  = Z.land (Z.shiftr a s) m0 + 2 ^ k * Z.land (Z.shiftr b s) m1.
Proof.
  intros Hs Ha Hm.
  assert (urange k m0) as Hm'.
  { destruct Hm as [? Hm]. split; [done|]. apply Z.lt_le_trans with (1 := Hm).
    apply Z.pow_le_mono_r; lia. }
  apply Z.bits_inj'. intros i Hi.
  assert (urange k (Z.land (Z.shiftr a s) m0)).
  { apply urange_land; [lia| |apply Hm]. apply urange_shiftr; [lia|done]. }
  rewrite Z.land_spec, Z.shiftr_spec, !pack_testbit by (done || lia).
  destruct (Z.ltb_spec i k).
  - rewrite Z.land_spec, Z.shiftr_spec by done.
    destruct (Z.ltb_spec (i + s) k); [done|].
    rewrite (testbit_ltb_high (k - s) m0) by (done || lia). by rewrite !andb_false_r.
  - rewrite Z.land_spec, Z.shiftr_spec by lia.
    destruct (Z.ltb_spec (i + s) k); [lia|]. do 2 f_equal. lia.
Qed.

Lemma popcount_ext w a b :
  (forall i, 0 <= i < Z.of_nat w -> Z.testbit a i = Z.testbit b i) ->
  popcount w a = popcount w b.
Proof.
  induction w as [|w IH]; intros H; [done|]. cbn [popcount].
  rewrite H by lia. rewrite IH; [done|]. intros. apply H. lia.
Qed.

Lemma popcount_pack w1 w2 a b :
  urange (Z.of_nat w1) a ->
  popcount (w2 + w1) (a + 2 ^ Z.of_nat w1 * b) = popcount w1 a + popcount w2 b.
Proof.
  intros Ha. induction w2 as [|w2 IH]; cbn [popcount Nat.add].
  - rewrite Z.add_0_r. apply popcount_ext. intros i Hi.
    rewrite pack_testbit by (done || lia). by destruct (Z.ltb_spec i (Z.of_nat w1)); [|lia].
  - rewrite IH, pack_testbit by (done || lia).
    destruct (Z.ltb_spec (Z.of_nat (w2 + w1)) (Z.of_nat w1)); [lia|].
    replace (Z.of_nat (w2 + w1) - Z.of_nat w1) with (Z.of_nat w2) by lia. lia.
Qed.

(** The first two reduction steps on one byte. *)
Definition byte_pairs (b : Z) : Z := b - Z.land (Z.shiftr b 1) 0x55.
Definition byte_nibbles (b : Z) : Z := Z.land b 0x33 + Z.land (Z.shiftr b 2) 0x33.

Definition byte_ok (b : Z) : bool :=
  let p := byte_pairs b in let n := byte_nibbles p in
  (0 <=? p) && (p <? 256) && (0 <=? n mod 16) && (n mod 16 <=? 4) && (0 <=? n) &&
  (n / 16 <=? 4) && (n mod 16 + n / 16 =? popcount 8 b).

Lemma byte_ok_all b : urange 8 b -> byte_ok b = true.
Proof.
  intros [H1 H2]. change (2 ^ 8) with 256 in H2.
  assert (forallb byte_ok (map Z.of_nat (seq 0 256)) = true) as H by (vm_compute; reflexivity).
  rewrite forallb_forall in H. apply H. apply in_map_iff. exists (Z.to_nat b).
  split; [lia|]. apply in_seq. lia.
Qed.

(** Four bytes packed in a word. *)
Definition word4 (b0 b1 b2 b3 : Z) : Z :=
  b0 + 2 ^ 8 * (b1 + 2 ^ 8 * (b2 + 2 ^ 8 * b3)).

Lemma word4_split v : urange 32 v ->
  exists b0 b1 b2 b3, v = word4 b0 b1 b2 b3 /\
    urange 8 b0 /\ urange 8 b1 /\ urange 8 b2 /\ urange 8 b3.
Proof.
  intros [H1 H2]. change (2 ^ 32) with 4294967296 in H2.
  exists (v mod 256), (v / 256 mod 256), (v / 65536 mod 256), (v / 16777216).
  unfold word4, urange. change (2 ^ 8) with 256.
  repeat split; try (Z.div_mod_to_equations; lia).
Qed.

Lemma land_word4 b0 b1 b2 b3 m s :
  0 <= s <= 8 -> urange 8 b0 -> urange 8 b1 -> urange 8 b2 -> urange (8 - s) m ->
  Z.land (Z.shiftr (word4 b0 b1 b2 b3) s) (word4 m m m m)
  = word4 (Z.land (Z.shiftr b0 s) m) (Z.land (Z.shiftr b1 s) m)
          (Z.land (Z.shiftr b2 s) m) (Z.land (Z.shiftr b3 s) m).
Proof. intros. unfold word4. by rewrite !shiftr_land_pack. Qed.

Lemma land0_word4 b0 b1 b2 b3 m :
  urange 8 b0 -> urange 8 b1 -> urange 8 b2 -> urange 8 m ->
  Z.land (word4 b0 b1 b2 b3) (word4 m m m m)
  = word4 (Z.land b0 m) (Z.land b1 m) (Z.land b2 m) (Z.land b3 m).
Proof. intros. unfold word4. by rewrite !land_pack. Qed.

Lemma popcount_word4 b0 b1 b2 b3 :
  urange 8 b0 -> urange 8 b1 -> urange 8 b2 ->
  popcount 32 (word4 b0 b1 b2 b3)
  = popcount 8 b0 + (popcount 8 b1 + (popcount 8 b2 + popcount 8 b3)).
Proof.
  intros. unfold word4.
  rewrite (popcount_pack 8 24), (popcount_pack 8 16), (popcount_pack 8 8) by done. done.
Qed.

Lemma byte_facts b : urange 8 b ->
  let p := byte_pairs b in let n := byte_nibbles p in
  urange 8 p /\ exists lo hi, n = lo + 16 * hi /\ 0 <= lo <= 4 /\ 0 <= hi <= 4 /\
    lo + hi = popcount 8 b.
Proof.
  intros H%byte_ok_all. unfold byte_ok in H.
  repeat match goal with H : _ && _ = true |- _ => apply andb_prop in H as [??] end.
  unfold urange. change (2 ^ 8) with 256. split; [lia|].
  exists (byte_nibbles (byte_pairs b) mod 16), (byte_nibbles (byte_pairs b) / 16).
  repeat split; try lia; Z.div_mod_to_equations; lia.
Qed.

(** The three reduction stages of the word, in terms of its bytes. *)
Ltac word4_arith := unfold urange, word4 in *; simpl Z.pow in *; lia.

Lemma stage_pairs b0 b1 b2 b3 :
  urange 8 b0 -> urange 8 b1 -> urange 8 b2 -> urange 8 b3 ->
  let v := word4 b0 b1 b2 b3 in
  u32 (v - Z.land (Z.shiftr v 1) 0x55555555)
  = word4 (byte_pairs b0) (byte_pairs b1) (byte_pairs b2) (byte_pairs b3).
Proof.
  intros H0 H1 H2 H3 v. change 0x55555555 with (word4 0x55 0x55 0x55 0x55).
  destruct (byte_facts b0 H0) as [P0 _], (byte_facts b1 H1) as [P1 _],
    (byte_facts b2 H2) as [P2 _], (byte_facts b3 H3) as [P3 _].
  unfold v. rewrite land_word4 by (done || lia). unfold byte_pairs in *.
  rewrite wrap_small; word4_arith.
Qed.

Lemma stage_nibbles b0 b1 b2 b3 :
  urange 8 b0 -> urange 8 b1 -> urange 8 b2 -> urange 8 b3 ->
  urange 8 (byte_nibbles b0) -> urange 8 (byte_nibbles b1) ->
  urange 8 (byte_nibbles b2) -> urange 8 (byte_nibbles b3) ->
  let v := word4 b0 b1 b2 b3 in
  u32 (Z.land v 0x33333333 + Z.land (Z.shiftr v 2) 0x33333333)
  = word4 (byte_nibbles b0) (byte_nibbles b1) (byte_nibbles b2) (byte_nibbles b3).
Proof.
  intros. unfold v. change 0x33333333 with (word4 0x33 0x33 0x33 0x33).
  rewrite land_word4, land0_word4 by (done || lia). unfold byte_nibbles in *.
  rewrite wrap_small; word4_arith.
Qed.

Lemma stage_sum l0 h0 l1 h1 l2 h2 l3 h3 :
  0 <= l0 <= 4 -> 0 <= h0 <= 4 -> 0 <= l1 <= 4 -> 0 <= h1 <= 4 ->
  0 <= l2 <= 4 -> 0 <= h2 <= 4 -> 0 <= l3 <= 4 -> 0 <= h3 <= 4 ->
  let v := word4 (l0 + 16 * h0) (l1 + 16 * h1) (l2 + 16 * h2) (l3 + 16 * h3) in
  Z.land (u32 (v + Z.shiftr v 4)) 0xF0F0F0F
  = word4 (l0 + h0) (l1 + h1) (l2 + h2) (l3 + h3).
Proof.
  intros. unfold v.
  assert (Z.shiftr (word4 (l0 + 16 * h0) (l1 + 16 * h1) (l2 + 16 * h2) (l3 + 16 * h3)) 4
    = word4 (h0 + 16 * l1) (h1 + 16 * l2) (h2 + 16 * l3) h3) as ->.
  { rewrite Z.shiftr_div_pow2 by lia. unfold word4. simpl Z.pow.
    Z.div_mod_to_equations. lia. }
  replace (u32 _) with (word4 ((l0 + h0) + 2 ^ 4 * (h0 + l1)) ((l1 + h1) + 2 ^ 4 * (h1 + l2))
    ((l2 + h2) + 2 ^ 4 * (h2 + l3)) ((l3 + h3) + 2 ^ 4 * h3))
    by (rewrite wrap_small; word4_arith).
  change 0xF0F0F0F with (word4 0xF 0xF 0xF 0xF).
  rewrite land0_word4 by (done || unfold urange; simpl Z.pow; lia).
  assert (forall a b, 0 <= a <= 8 -> Z.land (a + 2 ^ 4 * b) 0xF = a) as Hlow.
  { intros a b Ha. change 0xF with (Z.ones 4). rewrite Z.land_ones by lia.
    rewrite Z.mul_comm, Z_mod_plus_full, Z.mod_small by (simpl; lia). done. }
  by rewrite !Hlow by lia.
Qed.

Lemma stage_multiply s0 s1 s2 s3 :
  0 <= s0 <= 8 -> 0 <= s1 <= 8 -> 0 <= s2 <= 8 -> 0 <= s3 <= 8 ->
  Z.shiftr (u32 (word4 s0 s1 s2 s3 * 0x1010101)) 24 = s0 + (s1 + (s2 + s3)).
Proof.
  intros. rewrite Z.shiftr_div_pow2 by lia. unfold wrap.
  replace (word4 s0 s1 s2 s3 * 0x1010101) with
    ((s0 + 256 * (s0 + s1) + 65536 * (s0 + s1 + s2) + (s0 + (s1 + (s2 + s3))) * 2 ^ 24)
     + (s1 + s2 + s3 + 256 * (s2 + s3) + 65536 * s3) * 2 ^ 32)
    by (unfold word4; simpl Z.pow; lia).
  rewrite Z_mod_plus_full, Z.mod_small by (simpl Z.pow; lia).
  rewrite Z.div_add, Z.div_small by (simpl Z.pow; lia). done.
Qed.

Lemma my_count_bits_uint32_spec v : urange 32 v -> my_count_bits_uint32 v = popcount 32 v.
Proof.
  intros (b0 & b1 & b2 & b3 & -> & H0 & H1 & H2 & H3)%word4_split.
  rewrite popcount_word4 by done.
  destruct (byte_facts b0 H0) as (P0 & l0 & h0 & N0 & ? & ? & <-).
  destruct (byte_facts b1 H1) as (P1 & l1 & h1 & N1 & ? & ? & <-).
  destruct (byte_facts b2 H2) as (P2 & l2 & h2 & N2 & ? & ? & <-).
  destruct (byte_facts b3 H3) as (P3 & l3 & h3 & N3 & ? & ? & <-).
  unfold my_count_bits_uint32. rewrite stage_pairs by assumption.
  rewrite stage_nibbles by (assumption || rewrite ?N0, ?N1, ?N2, ?N3; split; simpl Z.pow; lia).
  rewrite N0, N1, N2, N3, stage_sum by assumption.
  apply stage_multiply; lia.
Qed.

Lemma popcount_range w z : 0 <= popcount w z <= Z.of_nat w.
Proof.
  induction w as [|w IH]; cbn [popcount]; [done|]. destruct (Z.testbit z _); simpl Z.b2z; lia.
Qed.

(** ** Lemmas: powers of two *)

(** [smear v k]: a bit is set when one of the [k] bits from it upwards is. *)
Definition smeared (v : Z) (k : Z) (r : Z) : Prop :=
  0 <= r /\ forall i, 0 <= i ->
    Z.testbit r i = true <-> exists j, i <= j < i + k /\ Z.testbit v j = true.

Lemma smeared_start v : 0 <= v -> smeared v 1 v.
Proof.
  intros Hv. split; [done|]. intros i Hi. split.
  - intros. exists i. split; [lia|done].
  - intros (j & ? & ?). by replace i with j by lia.
Qed.

Lemma smeared_step v k r :
  0 < k -> smeared v k r -> smeared v (k + k) (Z.lor r (Z.shiftr r k)).
Proof.
  intros Hk [Hr H]. split.
  { apply Z.lor_nonneg. split; [done|by apply Z.shiftr_nonneg]. }
  intros i Hi. rewrite Z.lor_spec, orb_true_iff, Z.shiftr_spec by done.
  rewrite !H by lia. split.
  - intros [(j & ? & ?)|(j & ? & ?)]; exists j; split; (lia || done).
  - intros (j & ? & ?). destruct (Z.lt_ge_cases j (i + k)); [left|right];
      exists j; split; (lia || done).
Qed.

Lemma smeared_ones v r : 0 < v -> v < 2 ^ 32 -> smeared v 32 r -> r = Z.ones (Z.log2 v + 1).
Proof.
  intros Hv Hlt [Hr H]. apply Z.bits_inj'. intros i Hi.
  pose proof (Z.log2_nonneg v).
  assert (Z.log2 v < 32) by (apply Z.log2_lt_pow2; lia).
  apply Bool.eq_iff_eq_true. rewrite H by done. rewrite testbit_ones by lia.
  rewrite andb_true_iff, Z.leb_le, Z.ltb_lt. split.
  - intros (j & Hj & Hb). split; [done|].
    destruct (Z.lt_ge_cases (Z.log2 v) j); [|lia].
    rewrite Z.bits_above_log2 in Hb by lia. done.
  - intros [_ ?]. exists (Z.log2 v). split; [lia|]. by apply Z.bit_log2.
Qed.

Definition smear32 (v : Z) : Z :=
  let v := Z.lor v (Z.shiftr v 1) in
  let v := Z.lor v (Z.shiftr v 2) in
  let v := Z.lor v (Z.shiftr v 4) in
  let v := Z.lor v (Z.shiftr v 8) in
  Z.lor v (Z.shiftr v 16).

Lemma smear32_spec v :
  0 <= v < 2 ^ 32 -> smear32 v = if v =? 0 then 0 else Z.ones (Z.log2 v + 1).
Proof.
  intros Hv. destruct (Z.eqb_spec v 0) as [->|]; [done|].
  apply smeared_ones; try lia. unfold smear32. cbv zeta.
  do 5 (lazymatch goal with
    |- smeared _ ?k _ => let h := eval vm_compute in (k / 2) in change k with (h + h) end;
    apply smeared_step; [lia|]).
  apply smeared_start. lia.
Qed.

Lemma find_first_loop_spec fuel n shift :
  urange 64 n -> 0 <= shift -> shift + 4 * Z.of_nat fuel = 64 ->
  (forall i, 0 <= i < shift -> Z.testbit n i = false) -> n <> 0 ->
  exists b, find_first_loop fuel n shift = Some b /\ 0 <= b < 64 /\
    Z.testbit n b = true /\ forall i, 0 <= i < b -> Z.testbit n i = false.
Proof.
  revert shift. induction fuel as [|fuel IH]; intros shift Hn Hs Hf Hlow Hz.
  { exfalso. apply Hz. apply (bits_eq 64); [done|split; lia|].
    intros i Hi. rewrite Z.testbit_0_l. apply Hlow. lia. }
  cbn [find_first_loop].
  set (d := Z.land (Z.shiftr n shift) 0xF).
  assert (forall i, 0 <= i < 4 -> Z.testbit d i = Z.testbit n (shift + i)) as Hd.
  { intros i Hi. unfold d. change 0xF with (Z.ones 4). autorewrite with bits; [|lia..].
    destruct (Z.leb_spec 0 i), (Z.ltb_spec i 4); try lia.
    rewrite andb_true_r. f_equal. lia. }
  assert (0 <= d < 16) as Hr.
  { unfold d. change 0xF with (Z.ones 4). rewrite Z.land_ones by lia.
    apply Z.mod_pos_bound. done. }
  assert (d = 0 \/ exists b, nth (Z.to_nat d) last_bit 0 = b /\ 0 <= b < 4 /\
    Z.testbit d b = true /\ forall i, 0 <= i < b -> Z.testbit d i = false) as C.
  { assert (forallb (fun d => (d =? 0) ||
      let b := nth (Z.to_nat d) last_bit 0 in
      (0 <=? b) && (b <? 4) && Z.testbit d b &&
      forallb (fun i => (b <=? i) || negb (Z.testbit d i)) [0; 1; 2; 3])
      (map Z.of_nat (seq 0 16)) = true) as Hall by (vm_compute; reflexivity).
    rewrite forallb_forall in Hall. specialize (Hall d).
    destruct (Z.eq_dec d 0) as [|Hne]; [by left|right].
    eexists; split; [reflexivity|].
    assert (In d (map Z.of_nat (seq 0 16))) as Hin.
    { apply in_map_iff. exists (Z.to_nat d). split; [lia|]. apply in_seq. lia. }
    apply Hall in Hin. apply orb_prop in Hin as [?|Hin]; [lia|].
    repeat (apply andb_prop in Hin as [Hin ?]).
    split; [lia|]. split; [done|]. intros i Hi.
    rewrite forallb_forall in *.
    assert (In i [0; 1; 2; 3]) as Hi4 by (simpl; lia).
    match goal with H : forall x, _ -> _ = true |- _ => specialize (H i Hi4) end.
    destruct (Z.leb_spec (nth (Z.to_nat d) last_bit 0) i); [lia|].
    by destruct (Z.testbit d i). }
  destruct C as [->|(b & Hb & Hb4 & Hbt & Hbl)].
  - simpl nth. change (32 =? 32) with true. cbv iota.
    rewrite wrap_small by (split; simpl; lia).
    apply IH; try lia; try done. intros i Hi.
    destruct (Z.lt_ge_cases i shift); [apply Hlow; lia|].
    replace i with (shift + (i - shift)) by lia. rewrite <- Hd by lia. apply Z.testbit_0_l.
  - rewrite Hb. destruct (Z.eqb_spec b 32); [lia|].
    exists (shift + b). rewrite wrap_small by (split; simpl; lia).
    repeat split; try lia.
    + rewrite <- Hd by lia. done.
    + intros i Hi. destruct (Z.lt_ge_cases i shift); [apply Hlow; lia|].
      replace i with (shift + (i - shift)) by lia. rewrite <- Hd by lia. apply Hbl. lia.
Qed.

(** [my_clear_highest_bit] removes exactly the top set bit. *)
Lemma my_clear_highest_bit_spec v :
  0 < v < 2 ^ 32 -> my_clear_highest_bit v = v - 2 ^ Z.log2 v.
Proof.
  intros Hv. pose proof (Z.log2_nonneg v).
  unfold my_clear_highest_bit. fold (smear32 (Z.shiftr v 1)).
  assert (smear32 (Z.shiftr v 1) = Z.ones (Z.log2 v)) as ->.
  { rewrite smear32_spec by (apply (urange_shiftr 32); [lia|split; lia]).
    destruct (Z.eqb_spec (Z.shiftr v 1) 0) as [E|E].
    - rewrite Z.shiftr_div_pow2 in E by lia. change (2 ^ 1) with 2 in E.
      assert (v = 1) as -> by (Z.div_mod_to_equations; lia). done.
    - rewrite Z.log2_shiftr by lia. f_equal.
      assert (1 <= Z.log2 v); [|lia].
      destruct (Z.le_gt_cases 1 (Z.log2 v)) as [|Hl]; [done|].
      apply Z.log2_lt_pow2 in Hl; [|lia]. change (2 ^ 1) with 2 in Hl.
      assert (v = 1) as -> by lia. done. }
  rewrite Z.land_ones by lia.
  pose proof (Z.log2_spec v ltac:(lia)) as [H1 H2]. rewrite Z.pow_succ_r in H2 by lia.
  symmetry. apply Z.mod_unique_pos with 1; lia.
Qed.

Lemma my_set_bits_spec n : 1 <= n <= 64 -> my_set_bits n = Z.ones n.
Proof.
  intros Hn. unfold my_set_bits. rewrite Z.shiftl_1_l.
  assert (0 < 2 ^ (n - 1)) by lia.
  assert (2 ^ (n - 1) <= 2 ^ 63) by (apply Z.pow_le_mono_r; lia).
  assert (2 ^ n = 2 * 2 ^ (n - 1)) as En by (rewrite <- Z.pow_succ_r by lia; f_equal; lia).
  rewrite (wrap_small 64 (2 ^ (n - 1))) by (split; simpl Z.pow in *; lia).
  rewrite (wrap_small 64 (2 ^ (n - 1) - 1)) by (split; simpl Z.pow in *; lia).
  rewrite Z.shiftl_mul_pow2 by lia.
  rewrite (wrap_small 64) by (split; simpl Z.pow in *; lia).
  rewrite <- Z.add_nocarry_lor. 2: {
    apply Z.bits_inj'. intros i Hi. rewrite Z.land_spec, Z.testbit_0_l.
    destruct (Z.eq_dec i 0) as [->|]; [|rewrite (testbit_ltb_high 1 1) by (unfold urange; lia); apply andb_false_r].
    rewrite Z.mul_comm. change (2 ^ 1) with 2. rewrite Z.testbit_even_0. done. }
  rewrite Z.ones_equiv. change (2 ^ 1) with 2. lia.
Qed.

Lemma last_byte_mask_spec bits :
  1 <= bits < 2 ^ 32 -> last_byte_mask bits = Z.ones ((bits - 1) mod 8 + 1).
Proof.
  intros H. unfold last_byte_mask. change 7 with (Z.ones 3).
  rewrite (wrap_small 32 (bits - 1)) by (split; lia). rewrite Z.land_ones by lia. change (2 ^ 3) with 8.
  assert (0 <= (bits - 1) mod 8 < 8) as Hr by (apply Z.mod_pos_bound; lia).
  assert (forallb (fun u => (u8 (u32 (Z.shiftl 2 u) - 1)) =? Z.ones (u + 1))
    [0; 1; 2; 3; 4; 5; 6; 7] = true) as Hall by reflexivity.
  rewrite forallb_forall in Hall. apply Z.eqb_eq. apply Hall. simpl. lia.
Qed.

Lemma my_count_bits_spec x :
  urange 64 x -> my_count_bits x = popcount 64 x.
Proof.
  intros Hx. unfold my_count_bits.
  assert (urange 32 (Z.shiftr x 32)) as Hh by (apply urange_shiftr_drop; done || lia).
  rewrite (wrap_small 32 (Z.shiftr x 32)) by done.
  rewrite !my_count_bits_uint32_spec by auto with cint lia.
  pose proof (popcount_range 32 (u32 x)). pose proof (popcount_range 32 (Z.shiftr x 32)).
  rewrite wrap_small by (split; simpl Z.pow; lia).
  rewrite <- (popcount_pack 32 32) by auto with cint lia.
  f_equal. rewrite Z.shiftr_div_pow2 by lia. unfold wrap.
  pose proof (Z.div_mod x (2 ^ 32) ltac:(lia)). simpl Z.of_nat. lia.
Qed.

Lemma my_find_first_bit_ok n :
  urange 64 n ->
  (n = 0 /\ my_find_first_bit n = Some 64) \/
  exists b, my_find_first_bit n = Some b /\ 0 <= b < 64 /\ Z.testbit n b = true /\
    forall i, 0 <= i < b -> Z.testbit n i = false.
Proof.
  intros Hn. unfold my_find_first_bit. destruct (Z.eqb_spec n 0) as [->|]; [by left|right].
  apply find_first_loop_spec; try done; lia.
Qed.

(** ** Properties *)

(** [my_bit_log2_size_t] is the floor of the base-2 logarithm for every
    64-bit value (0 for 0): the cascade of masks over 32, 16, 8 and 4 bits
    finds the position of the highest set bit. *)
Theorem my_bit_log2_size_t_is_log2 value :
  urange 64 value -> my_bit_log2_size_t value = Z.log2 value.
Proof.
  intros H. unfold my_bit_log2_size_t. rewrite wrap_small by done.
  by apply my_bit_log2_uint64_spec.
Qed.

Lemma my_bit_log2_size_t_is_log2_witness :
  my_bit_log2_size_t 3 = Z.log2 3 /\ Z.log2 3 = 1 /\
  my_bit_log2_size_t 0x8000000000000000 = 63.
Proof.
  split; [apply my_bit_log2_size_t_is_log2; split; vm_compute; congruence|].
  split; vm_compute; reflexivity.
Defined.

(** [my_count_bits], the parallel bit count on two 32-bit halves, returns
    the number of set bits of its 64-bit argument. *)
Theorem my_count_bits_is_popcount x :
  urange 64 x -> my_count_bits x = popcount 64 x.
Proof. apply my_count_bits_spec. Qed.

Lemma my_count_bits_is_popcount_witness :
  my_count_bits 0xF000000000000005 = popcount 64 0xF000000000000005 /\
  my_count_bits 0xF000000000000005 = 6.
Proof.
  split; [apply my_count_bits_is_popcount; split; vm_compute; congruence|].
  vm_compute; reflexivity.
Defined.

(** [my_round_up_to_next_power] returns the smallest power of two not below
    its argument as long as that power fits 32 bits; 0 gives 0, and every
    argument above 2^31 wraps to 0. *)
Theorem my_round_up_to_next_power_spec v :
  urange 32 v ->
  my_round_up_to_next_power v =
    if (v =? 0) || (2 ^ 31 <? v) then 0 else 2 ^ Z.log2_up v.
Proof.
  intros Hv. unfold my_round_up_to_next_power. fold (smear32 (u32 (v - 1))).
  rewrite smear32_spec by (apply (wrap_range 32); lia).
  destruct (Z.eqb_spec v 0) as [->|Hne]; [done|]. rewrite orb_false_l.
  rewrite (wrap_small 32 (v - 1)) by (destruct Hv; split; lia).
  destruct (Z.eqb_spec (v - 1) 0) as [E|E].
  { assert (v = 1) as -> by lia. done. }
  destruct Hv as [Hv0 Hv1].
  rewrite Z.log2_up_eqn by lia. rewrite <- Z.sub_1_r, Z.ones_equiv.
  replace (Z.pred _ + 1) with (2 ^ (Z.log2 (v - 1) + 1)) by lia.
  unfold Z.succ. destruct (Z.ltb_spec (2 ^ 31) v).
  - assert (Z.log2 (v - 1) = 31) as ->.
    { apply Z.log2_unique; [lia|]. split; simpl Z.pow in *; lia. }
    done.
  - assert (Z.log2 (v - 1) < 31) by (apply Z.log2_lt_pow2; lia).
    pose proof (Z.log2_nonneg (v - 1)).
    apply wrap_small. split; [lia|]. apply Z.pow_lt_mono_r; lia.
Qed.

Lemma my_round_up_to_next_power_witness :
  my_round_up_to_next_power 1610612747 =
    (if (1610612747 =? 0) || (2 ^ 31 <? 1610612747) then 0 else 2 ^ Z.log2_up 1610612747) /\
  my_round_up_to_next_power 1610612747 = 2 ^ 31.
Proof.
  split; [apply my_round_up_to_next_power_spec; split; vm_compute; congruence|].
  vm_compute; reflexivity.
Defined.

(** A table that reverses the bits of a byte, as mysys defines it. *)
Definition reverses_bytes (table : Z -> Z) : Prop :=
  forall b, urange 8 b -> urange 8 (table b) /\
    forall i, 0 <= i < 8 -> Z.testbit (table b) i = Z.testbit b (7 - i).

(** given a byte-reversal table, [my_reverse_bits] mirrors a 32-bit word:
    bit [i] of the result is bit [31 - i] of the key. *)
Theorem my_reverse_bits_spec table key :
  reverses_bytes table -> urange 32 key ->
  urange 32 (my_reverse_bits table key) /\
  forall i, 0 <= i < 32 ->
    Z.testbit (my_reverse_bits table key) i = Z.testbit key (31 - i).
Proof.
  intros Ht Hk.
  assert (forall s, 0 <= s -> urange 8 (Z.land (Z.shiftr key s) 255)) as Hbyte.
  { intros s Hs. change 255 with (Z.ones 8). rewrite Z.land_ones by lia. apply wrap_range. lia. }
  assert (Z.land key 255 = Z.land (Z.shiftr key 0) 255) as E0 by done.
  assert (Z.shiftr key 24 = Z.land (Z.shiftr key 24) 255) as E3.
  { change 255 with (Z.ones 8). rewrite Z.land_ones by lia. symmetry. apply wrap_small.
    by apply urange_shiftr_drop. }
  unfold my_reverse_bits. rewrite E0, E3.
  set (B s := Z.land (Z.shiftr key s) 255).
  assert (forall s i, 0 <= s -> 0 <= i < 8 -> Z.testbit (table (B s)) i = Z.testbit key (s + 7 - i)) as HB.
  { intros s i Hs Hi. unfold B. rewrite (proj2 (Ht _ (Hbyte s Hs)) i Hi).
    change 255 with (Z.ones 8). rewrite Z.land_spec, Z.shiftr_spec, testbit_ones by lia.
    destruct (Z.leb_spec 0 (7 - i)), (Z.ltb_spec (7 - i) 8); try lia.
    rewrite andb_true_r. f_equal. lia. }
  split.
  - repeat apply urange_lor; try lia; try (apply wrap_range; lia).
    destruct (Ht _ (Hbyte 24 ltac:(lia))) as [[H1 H2] _]. split; [exact H1|].
    apply Z.lt_trans with (1 := H2). done.
  - intros i Hi. autorewrite with bits.
    assert (forall s j, 0 <= s -> 8 <= j -> Z.testbit (table (B s)) j = false) as Hhi.
    { intros s j Hs Hj. apply (testbit_ltb_high 8); [apply Ht, Hbyte; done|done]. }
    rewrite (proj2 (Z.ltb_lt i 32)) by lia. rewrite !andb_true_l.
    destruct (Z.lt_ge_cases i 8); [|destruct (Z.lt_ge_cases i 16); [|destruct (Z.lt_ge_cases i 24)]];
      first [rewrite (HB 0) by lia | rewrite (Hhi 0) by lia
            | rewrite (Z.testbit_neg_r (table (B 0))) by lia];
      first [rewrite (HB 8) by lia | rewrite (Hhi 8) by lia
            | rewrite (Z.testbit_neg_r (table (B 8))) by lia];
      first [rewrite (HB 16) by lia | rewrite (Hhi 16) by lia
            | rewrite (Z.testbit_neg_r (table (B 16))) by lia];
      first [rewrite (HB 24) by lia | rewrite (Hhi 24) by lia
            | rewrite (Z.testbit_neg_r (table (B 24))) by lia];
      rewrite ?orb_false_l, ?orb_false_r; f_equal; lia.
Qed.

(** A concrete table, bit by bit. *)
Definition reverse_byte (b : Z) : Z :=
  foldr (fun i acc => 2 * acc + Z.b2z (Z.testbit b (7 - i))) 0 [0; 1; 2; 3; 4; 5; 6; 7].

Lemma reverse_byte_ok : reverses_bytes reverse_byte.
Proof.
  intros b [Hb1 Hb2]. change (2 ^ 8) with 256 in Hb2.
  assert (forallb (fun b => (0 <=? reverse_byte b) && (reverse_byte b <? 256) &&
    forallb (fun i => eqb (Z.testbit (reverse_byte b) i) (Z.testbit b (7 - i))) [0; 1; 2; 3; 4; 5; 6; 7])
    (map Z.of_nat (seq 0 256)) = true) as Hall by (vm_compute; reflexivity).
  rewrite forallb_forall in Hall. specialize (Hall b).
  assert (In b (map Z.of_nat (seq 0 256))) as Hin.
  { apply in_map_iff. exists (Z.to_nat b). split; [lia|]. apply in_seq. lia. }
  apply Hall in Hin. apply andb_prop in Hin as [Hin Hbits]. apply andb_prop in Hin as [? ?].
  split; [split; simpl Z.pow; lia|]. intros i Hi. rewrite forallb_forall in Hbits.
  apply eqb_prop, Hbits. simpl. lia.
Qed.

Lemma my_reverse_bits_witness :
  urange 32 (my_reverse_bits reverse_byte 1) /\
  (forall i, 0 <= i < 32 ->
    Z.testbit (my_reverse_bits reverse_byte 1) i = Z.testbit 1 (31 - i)) /\
  my_reverse_bits reverse_byte 1 = 0x80000000.
Proof.
  destruct (my_reverse_bits_spec reverse_byte 1 reverse_byte_ok) as [H1 H2];
    [split; vm_compute; congruence|].
  split; [exact H1|]. split; [exact H2|]. vm_compute; reflexivity.
Defined.

(** the portable loop of [my_find_first_bit] terminates within the sixteen
    nibbles of a 64-bit value and returns the position of the lowest set bit,
    or 64 when no bit is set. *)
Theorem my_find_first_bit_spec n :
  urange 64 n ->
  (n = 0 /\ my_find_first_bit n = Some 64) \/
  exists b, my_find_first_bit n = Some b /\ 0 <= b < 64 /\ Z.testbit n b = true /\
    forall i, 0 <= i < b -> Z.testbit n i = false.
Proof. apply my_find_first_bit_ok. Qed.

Lemma my_find_first_bit_witness :
  ((0xA00 = 0 /\ my_find_first_bit 0xA00 = Some 64) \/
   exists b, my_find_first_bit 0xA00 = Some b /\ 0 <= b < 64 /\ Z.testbit 0xA00 b = true /\
     forall i, 0 <= i < b -> Z.testbit 0xA00 i = false) /\
  my_find_first_bit 0xA00 = Some 9.
Proof.
  split; [apply my_find_first_bit_spec; split; vm_compute; congruence|].
  vm_compute; reflexivity.
Defined.

End MyBit.
