(* ===== verification/SqlInt.v ===== *)
(** * 64-bit SQL integers of include/mysql/server/private/sql_type_int.h

    [Longlong_null] (a nullable [longlong]) with its bit operators, and
    [Longlong_hybrid], a 64-bit pattern with a signedness flag.  A [longlong]
    is a [Z] in [-2^63, 2^63); conversions to [ulonglong] and [uint] are
    written out. *)

From Stdlib Require Import ZArith Lia.
From stdpp Require Import prelude.
From S2P Require Import Prelude Bits.
Local Open Scope Z_scope.
Local Open Scope cint_scope.

Module SqlInt.
Import MyBit.

(** ** [Longlong_null] *)

Record Longlong_null := mk_lln { value : Z; is_null : bool }.

(** The three constructors. *)
Definition lln_null : Longlong_null := mk_lln 0 true.
Definition lln (nr : Z) : Longlong_null := mk_lln nr false.

Definition lln_or (a b : Longlong_null) : Longlong_null :=
  if is_null a || is_null b then lln_null else lln (Z.lor (value a) (value b)).

Definition lln_and (a b : Longlong_null) : Longlong_null :=
  if is_null a || is_null b then lln_null else lln (Z.land (value a) (value b)).

Definition lln_xor (a b : Longlong_null) : Longlong_null :=
  if is_null a || is_null b then lln_null else lln (s64 (Z.lxor (value a) (value b))).

Definition lln_not (a : Longlong_null) : Longlong_null :=
  if is_null a then a else lln (s64 (u64 (Z.lnot (u64 (value a))))).

Definition lln_shl (a llshift : Longlong_null) : Longlong_null :=
  if is_null a || is_null llshift then lln_null
  else
    let shift := u32 (value llshift) in
    let res := if shift <? 64 then u64 (Z.shiftl (u64 (value a)) shift) else 0 in
    lln (s64 res).

Definition lln_shr (a llshift : Longlong_null) : Longlong_null :=
  if is_null a || is_null llshift then lln_null
  else
    let shift := u32 (value llshift) in
    let res := if shift <? 64 then Z.shiftr (u64 (value a)) shift else 0 in
    lln (s64 res).

Definition lln_bit_count (a : Longlong_null) : Longlong_null :=
  if is_null a then a else lln (s64 (my_count_bits (u64 (value a)))).

(** ** [Longlong_hybrid] *)

Definition LONGLONG_MAX : Z := 0x7FFFFFFFFFFFFFFF.
Definition LONGLONG_MIN : Z := - 0x8000000000000000.

Record Longlong_hybrid := mk_llh { m_value : Z; m_unsigned : bool }.

Definition cmp_signed (a other : Longlong_hybrid) : Z :=
  if m_value a <? m_value other then -1 else if m_value a =? m_value other then 0 else 1.

Definition cmp_unsigned (a other : Longlong_hybrid) : Z :=
  if u64 (m_value a) <? u64 (m_value other) then -1
  else if m_value a =? m_value other then 0 else 1.

Definition is_unsigned_outside_of_signed_range (a : Longlong_hybrid) : bool :=
  m_unsigned a && (LONGLONG_MAX <? u64 (m_value a)).

Definition neg (a : Longlong_hybrid) : bool := (m_value a <? 0) && negb (m_unsigned a).

Definition abs (a : Longlong_hybrid) : Z :=
  if m_unsigned a then u64 (m_value a)
  else if m_value a =? LONGLONG_MIN then u64 (LONGLONG_MAX + 1)
  else if m_value a <? 0 then u64 (s64 (- m_value a)) else u64 (m_value a).

Definition to_ulonglong (a : Longlong_hybrid) (upper_bound : Z) : Z :=
  if neg a then 0
  else if upper_bound <? u64 (m_value a) then upper_bound else u64 (m_value a).

Definition to_uint (a : Longlong_hybrid) (upper_bound : Z) : Z := u32 (to_ulonglong a upper_bound).

Definition cmp (a other : Longlong_hybrid) : Z :=
  if Bool.eqb (m_unsigned a) (m_unsigned other)
  then (if m_unsigned a then cmp_unsigned a other else cmp_signed a other)
  else if is_unsigned_outside_of_signed_range a then 1
  else if is_unsigned_outside_of_signed_range other then -1
  else cmp_signed a other.

Definition eq_hybrid (a nr : Longlong_hybrid) : bool := cmp a nr =? 0.
Definition eq_ulonglong (a : Longlong_hybrid) (nr : Z) : bool := cmp a (mk_llh (s64 nr) true) =? 0.
Definition eq_uint (a : Longlong_hybrid) (nr : Z) : bool := cmp a (mk_llh nr true) =? 0.
Definition eq_longlong (a : Longlong_hybrid) (nr : Z) : bool := cmp a (mk_llh nr false) =? 0.
Definition eq_int (a : Longlong_hybrid) (nr : Z) : bool := cmp a (mk_llh nr false) =? 0.

(** [Longlong_hybrid_null]: the constructor from a nullable integer. *)
Definition Longlong_hybrid_null (nr : Longlong_null) (unsigned_flag : bool) : Longlong_hybrid * bool :=
  (mk_llh (value nr) unsigned_flag, is_null nr).

(** ** Specification: the integer a hybrid denotes *)

Definition denote (a : Longlong_hybrid) : Z := if m_unsigned a then u64 (m_value a) else m_value a.

Definition wf (a : Longlong_hybrid) : Prop := srange 64 (m_value a).

Lemma u64_srange z : srange 64 z -> u64 z = if z <? 0 then z + 2 ^ 64 else z.
Proof.
  intros [H1 H2]. unfold wrap. destruct (Z.ltb_spec z 0).
  - symmetry. apply Z.mod_unique_pos with (-1); simpl Z.pow in *; lia.
  - apply Z.mod_small. simpl Z.pow in *. lia.
Qed.

(** [cint] decides goals about 64-bit values by cases on their signs. *)
Ltac cint :=
  unfold wf, srange, LONGLONG_MAX, LONGLONG_MIN in *;
  rewrite ?u64_srange by (unfold srange; simpl Z.pow in *; lia); simpl Z.pow in *;
  repeat match goal with
  | |- context [?a <? ?b] => destruct (Z.ltb_spec a b)
  | |- context [?a =? ?b] => destruct (Z.eqb_spec a b)
  end; try lia.

(** ** Properties *)

(** [Longlong_hybrid::cmp] compares the integers the two operands denote,
    for every combination of signed and unsigned 64-bit operands: the result
    is -1, 0 or 1 as the first is smaller, equal or larger. *)
Theorem cmp_denotes a b :
  wf a -> wf b ->
  cmp a b = match denote a ?= denote b with Lt => -1 | Eq => 0 | Gt => 1 end.
Proof.
  destruct a as [x ux], b as [y uy]. unfold wf, denote, cmp, cmp_signed, cmp_unsigned,
    is_unsigned_outside_of_signed_range. simpl m_value. simpl m_unsigned. intros Hx Hy.
  destruct ux, uy; simpl Bool.eqb; cbv iota; simpl andb;
    match goal with |- context [?p ?= ?q] => destruct (Z.compare_spec p q) as [E|E|E] end;
    revert E; cint.
Qed.

Lemma cmp_denotes_witness :
  cmp (mk_llh (-1) true) (mk_llh (-1) false) =
    (match denote (mk_llh (-1) true) ?= denote (mk_llh (-1) false) with Lt => -1 | Eq => 0 | Gt => 1 end) /\
  cmp (mk_llh (-1) true) (mk_llh (-1) false) = 1.
Proof.
  split; [apply cmp_denotes; split; vm_compute; congruence|]. vm_compute; reflexivity.
Defined.

Lemma abs_denote a : wf a -> abs a = Z.abs (denote a).
Proof.
  destruct a as [x ux]. unfold wf, denote, abs. simpl m_value. simpl m_unsigned.
  intros Hx. destruct ux; [cint|]. destruct (Z.eqb_spec x LONGLONG_MIN) as [->|Hne]; [reflexivity|].
  destruct (Z.ltb_spec x 0); [|cint].
  rewrite sgn_small by (unfold srange, LONGLONG_MIN in *; simpl Z.pow in *; lia).
  rewrite wrap_small by (destruct Hx; split; simpl Z.pow in *; lia). lia.
Qed.

Lemma neg_denote a : wf a -> neg a = (denote a <? 0).
Proof.
  destruct a as [x ux]. unfold wf, denote, neg. simpl m_value. simpl m_unsigned.
  intros Hx. destruct ux; cbn [negb]; rewrite ?andb_true_r, ?andb_false_r; [|done].
  pose proof (wrap_range 64 x ltac:(lia)) as [? _]. symmetry. by apply Z.ltb_ge.
Qed.

(** [abs] and [to_ulonglong] are total on 64-bit operands: [abs] is the
    absolute value of the denoted integer (2^63 for the smallest [longlong])
    and [to_ulonglong] clamps it to [0, upper_bound]. *)
Theorem abs_and_clamp a upper :
  wf a -> 0 <= upper ->
  abs a = Z.abs (denote a) /\ to_ulonglong a upper = Z.min upper (Z.max 0 (denote a)).
Proof.
  intros Hwf Hu. split; [by apply abs_denote|].
  destruct a as [x ux]. unfold wf, denote, to_ulonglong, neg in *. simpl m_value in *. simpl m_unsigned.
  destruct ux; simpl negb; rewrite ?andb_true_r, ?andb_false_r; cint.
Qed.

Lemma abs_and_clamp_witness :
  (abs (mk_llh LONGLONG_MIN false) = Z.abs (denote (mk_llh LONGLONG_MIN false)) /\
   to_ulonglong (mk_llh LONGLONG_MIN false) 10 = Z.min 10 (Z.max 0 (denote (mk_llh LONGLONG_MIN false)))) /\
  abs (mk_llh LONGLONG_MIN false) = 2 ^ 63.
Proof.
  split; [apply abs_and_clamp; [split; vm_compute; congruence|lia]|]. vm_compute; reflexivity.
Defined.

(** The SQL bit operators on 64-bit operands are null exactly when an
    operand is null; otherwise the bit pattern of the result is the bitwise
    or, and, exclusive or and complement of the operands' patterns, and
    [bit_count] counts the set bits of the pattern. *)
Theorem bit_operators_spec a b :
  srange 64 (value a) -> srange 64 (value b) ->
  (is_null (lln_or a b) = is_null a || is_null b /\
   is_null (lln_and a b) = is_null a || is_null b /\
   is_null (lln_xor a b) = is_null a || is_null b /\ is_null (lln_not a) = is_null a) /\
  (is_null a = false -> is_null b = false ->
   u64 (value (lln_or a b)) = Z.lor (u64 (value a)) (u64 (value b)) /\
   u64 (value (lln_and a b)) = Z.land (u64 (value a)) (u64 (value b)) /\
   u64 (value (lln_xor a b)) = Z.lxor (u64 (value a)) (u64 (value b)) /\
   u64 (value (lln_not a)) = 2 ^ 64 - 1 - u64 (value a) /\
   value (lln_bit_count a) = popcount 64 (u64 (value a))).
Proof.
  destruct a as [x nx], b as [y ny]. simpl. intros Hx Hy. split.
  { unfold lln_or, lln_and, lln_xor, lln_not. simpl. by destruct nx, ny. }
  intros -> ->. unfold lln_or, lln_and, lln_xor, lln_not, lln_bit_count. simpl value.
  rewrite !wrap_sgn by lia. repeat split.
  - bits. by destruct (i <? 64).
  - bits. by destruct (i <? 64), (Z.testbit x i), (Z.testbit y i).
  - bits. by destruct (i <? 64).
  - rewrite wrap_small.
    + unfold wrap. unfold Z.lnot.
      pose proof (Z.mod_pos_bound x (2 ^ 64) ltac:(lia)).
      symmetry. apply Z.mod_unique_pos with (-1); lia.
    + apply wrap_range. lia.
  - rewrite my_count_bits_spec by auto with cint lia.
    pose proof (popcount_range 64 (u64 x)). rewrite sgn_small; [reflexivity|lia|].
    unfold srange. change (2 ^ (64 - 1)) with 0x8000000000000000. lia.
Qed.

Lemma bit_operators_spec_witness :
  let a := lln (-1) in let b := lln 12 in
  ((is_null (lln_or a b) = is_null a || is_null b /\
    is_null (lln_and a b) = is_null a || is_null b /\
    is_null (lln_xor a b) = is_null a || is_null b /\ is_null (lln_not a) = is_null a) /\
   (is_null a = false -> is_null b = false ->
    u64 (value (lln_or a b)) = Z.lor (u64 (value a)) (u64 (value b)) /\
    u64 (value (lln_and a b)) = Z.land (u64 (value a)) (u64 (value b)) /\
    u64 (value (lln_xor a b)) = Z.lxor (u64 (value a)) (u64 (value b)) /\
    u64 (value (lln_not a)) = 2 ^ 64 - 1 - u64 (value a) /\
    value (lln_bit_count a) = popcount 64 (u64 (value a)))) /\
  value (lln_bit_count a) = 64 /\ value (lln_xor a b) = -13.
Proof.
  split; [apply bit_operators_spec; split; vm_compute; congruence|].
  split; vm_compute; reflexivity.
Defined.

(** The shift operators reduce the shift count to 32 bits before they
    compare it with 64: a count [k] acts as [k mod 2^32], so counts of 64 and
    more give 0 only when they are not a multiple of 2^32 plus a small count;
    2^32 itself shifts by nothing. *)
Theorem shifts_truncate_count a k :
  srange 64 (value a) -> is_null a = false -> 0 <= k < 2 ^ 63 ->
  u64 (value (lln_shl a (lln k))) =
    (if k mod 2 ^ 32 <? 64 then u64 (value a) * 2 ^ (k mod 2 ^ 32) mod 2 ^ 64 else 0) /\
  u64 (value (lln_shr a (lln k))) =
    (if k mod 2 ^ 32 <? 64 then u64 (value a) / 2 ^ (k mod 2 ^ 32) else 0) /\
  value (lln_shl a (lln (2 ^ 32))) = value a.
Proof.
  destruct a as [x nx]. simpl. intros Hx -> Hk.
  assert (0 <= k mod 2 ^ 32) by (apply Z.mod_pos_bound; lia).
  unfold lln_shl, lln_shr. simpl value. simpl is_null. cbv iota. simpl orb. cbv iota.
  rewrite !wrap_sgn by lia. change (u32 k) with (k mod 2 ^ 32). split; [|split].
  - destruct (_ <? 64); [|done]. unfold wrap. rewrite Z.shiftl_mul_pow2 by lia.
    by rewrite Zmod_mod.
  - destruct (_ <? 64); [|done]. rewrite Z.shiftr_div_pow2 by lia. apply wrap_small.
    pose proof (wrap_range 64 x ltac:(lia)) as [H1 H2]. split.
    + apply Z.div_pos; lia.
    + apply Z.div_lt_upper_bound; [lia|]. nia.
  - change (u32 (2 ^ 32)) with 0. simpl Z.ltb. cbv iota. rewrite Z.shiftl_0_r, !sgn_wrap.
    by apply sgn_small.
Qed.

Lemma shifts_truncate_count_witness :
  (u64 (value (lln_shl (lln 5) (lln 64))) =
    (if 64 mod 2 ^ 32 <? 64 then u64 (value (lln 5)) * 2 ^ (64 mod 2 ^ 32) mod 2 ^ 64 else 0) /\
   u64 (value (lln_shr (lln 5) (lln 64))) =
    (if 64 mod 2 ^ 32 <? 64 then u64 (value (lln 5)) / 2 ^ (64 mod 2 ^ 32) else 0) /\
   value (lln_shl (lln 5) (lln (2 ^ 32))) = value (lln 5)) /\
  value (lln_shl (lln 5) (lln 64)) = 0.
Proof.
  split; [apply shifts_truncate_count; [split; vm_compute; congruence|reflexivity|lia]|].
  vm_compute; reflexivity.
Defined.

End SqlInt.
