(* ===== verification/Privilege.v ===== *)
(** * [privilege.h]: privilege bits and their storage in the grant tables

    [privilege_t] is an enumeration over an unsigned 64-bit integer; a value is
    a set of privileges, so it is a [Z] kept in 64 bits.  The file holds the
    enumerators, the overloaded operators, the named privilege sets, and the
    eight functions that pack a privilege set into the contiguous bits of a
    grant-table column and unpack it.  The theorems show that packing and
    unpacking are inverse on the sets the tables store, that the named sets
    are nested as the grant levels are, and that SUPER keeps admitting every
    action it admitted before its replacements were introduced. *)

From Stdlib Require Import ZArith Lia.
From stdpp Require Import prelude.
From S2P Require Import Prelude Bits.

Local Open Scope Z_scope.
Local Open Scope cint_scope.

Module Privilege.

(** ** Enumerators *)

Definition NO_ACL : Z := 0.
Definition SELECT_ACL : Z := Z.shiftl 1 0.
Definition INSERT_ACL : Z := Z.shiftl 1 1.
Definition UPDATE_ACL : Z := Z.shiftl 1 2.
Definition DELETE_ACL : Z := Z.shiftl 1 3.
Definition CREATE_ACL : Z := Z.shiftl 1 4.
Definition DROP_ACL : Z := Z.shiftl 1 5.
Definition RELOAD_ACL : Z := Z.shiftl 1 6.
Definition SHUTDOWN_ACL : Z := Z.shiftl 1 7.
Definition PROCESS_ACL : Z := Z.shiftl 1 8.
Definition FILE_ACL : Z := Z.shiftl 1 9.
Definition GRANT_ACL : Z := Z.shiftl 1 10.
Definition REFERENCES_ACL : Z := Z.shiftl 1 11.
Definition INDEX_ACL : Z := Z.shiftl 1 12.
Definition ALTER_ACL : Z := Z.shiftl 1 13.
Definition SHOW_DB_ACL : Z := Z.shiftl 1 14.
Definition SUPER_ACL : Z := Z.shiftl 1 15.
Definition CREATE_TMP_ACL : Z := Z.shiftl 1 16.
Definition LOCK_TABLES_ACL : Z := Z.shiftl 1 17.
Definition EXECUTE_ACL : Z := Z.shiftl 1 18.
Definition REPL_SLAVE_ACL : Z := Z.shiftl 1 19.
Definition BINLOG_MONITOR_ACL : Z := Z.shiftl 1 20.
Definition CREATE_VIEW_ACL : Z := Z.shiftl 1 21.
Definition SHOW_VIEW_ACL : Z := Z.shiftl 1 22.
Definition CREATE_PROC_ACL : Z := Z.shiftl 1 23.
Definition ALTER_PROC_ACL : Z := Z.shiftl 1 24.
Definition CREATE_USER_ACL : Z := Z.shiftl 1 25.
Definition EVENT_ACL : Z := Z.shiftl 1 26.
Definition TRIGGER_ACL : Z := Z.shiftl 1 27.
Definition CREATE_TABLESPACE_ACL : Z := Z.shiftl 1 28.
Definition DELETE_HISTORY_ACL : Z := Z.shiftl 1 29.
Definition SET_USER_ACL : Z := Z.shiftl 1 30.
Definition FEDERATED_ADMIN_ACL : Z := Z.shiftl 1 31.
Definition CONNECTION_ADMIN_ACL : Z := Z.shiftl 1 32.
Definition READ_ONLY_ADMIN_ACL : Z := Z.shiftl 1 33.
Definition REPL_SLAVE_ADMIN_ACL : Z := Z.shiftl 1 34.
Definition REPL_MASTER_ADMIN_ACL : Z := Z.shiftl 1 35.
Definition BINLOG_ADMIN_ACL : Z := Z.shiftl 1 36.
Definition BINLOG_REPLAY_ACL : Z := Z.shiftl 1 37.
Definition SLAVE_MONITOR_ACL : Z := Z.shiftl 1 38.

(** The enumerators in the order the source declares them. *)
Definition privilege_t_enum : list Z :=
  [SELECT_ACL; INSERT_ACL; UPDATE_ACL; DELETE_ACL; CREATE_ACL; DROP_ACL;
   RELOAD_ACL; SHUTDOWN_ACL; PROCESS_ACL; FILE_ACL; GRANT_ACL;
   REFERENCES_ACL; INDEX_ACL; ALTER_ACL; SHOW_DB_ACL; SUPER_ACL;
   CREATE_TMP_ACL; LOCK_TABLES_ACL; EXECUTE_ACL; REPL_SLAVE_ACL;
   BINLOG_MONITOR_ACL; CREATE_VIEW_ACL; SHOW_VIEW_ACL; CREATE_PROC_ACL;
   ALTER_PROC_ACL; CREATE_USER_ACL; EVENT_ACL; TRIGGER_ACL;
   CREATE_TABLESPACE_ACL; DELETE_HISTORY_ACL; SET_USER_ACL;
   FEDERATED_ADMIN_ACL; CONNECTION_ADMIN_ACL; READ_ONLY_ADMIN_ACL;
   REPL_SLAVE_ADMIN_ACL; REPL_MASTER_ADMIN_ACL; BINLOG_ADMIN_ACL;
   BINLOG_REPLAY_ACL; SLAVE_MONITOR_ACL].

Definition ALL_KNOWN_BITS (x : Z) : Z := u64 (Z.lor x (u64 (x - 1))).

(** ** Operators

    Each overload is a function of its own; an assignment operator gives the
    new value of its left operand. *)

Definition op_not (access : Z) : Z := u64 (Z.lnot access).
Definition op_and (a b : Z) : Z := Z.land a b.
Definition op_and_up (a b : Z) : Z := Z.land a b.
Definition op_and_pu (a b : Z) : Z := Z.land a b.
Definition op_or (a b : Z) : Z := Z.lor a b.
Definition op_and_assign (a b : Z) : Z := op_and a b.
Definition op_and_assign_u (a b : Z) : Z := op_and_pu a b.
Definition op_or_assign (a b : Z) : Z := op_or a b.

Local Infix ".|" := op_or (at level 50, left associativity).

(** ** Version markers *)

Definition LAST_100304_ACL : Z := DELETE_HISTORY_ACL.
Definition LAST_100502_ACL : Z := BINLOG_REPLAY_ACL.
Definition LAST_100508_ACL : Z := SLAVE_MONITOR_ACL.
Definition LAST_CURRENT_ACL : Z := LAST_100508_ACL.
Definition PRIVILEGE_T_MAX_BIT : Z := MyBit.my_bit_log2_uint64 LAST_CURRENT_ACL.
Definition ALL_KNOWN_ACL_100304 : Z := ALL_KNOWN_BITS LAST_100304_ACL.
Definition ALL_KNOWN_ACL_100502 : Z := ALL_KNOWN_BITS LAST_100502_ACL.
Definition ALL_KNOWN_ACL_100508 : Z := ALL_KNOWN_BITS LAST_100508_ACL.
Definition ALL_KNOWN_ACL_100509 : Z := ALL_KNOWN_ACL_100508.
Definition ALL_KNOWN_ACL : Z := ALL_KNOWN_BITS LAST_CURRENT_ACL.

(** ** Privilege sets of the grant levels *)

Definition GLOBAL_SUPER_ADDED_SINCE_USER_TABLE_ACLS : Z :=
  SET_USER_ACL .| FEDERATED_ADMIN_ACL .| CONNECTION_ADMIN_ACL .|
  READ_ONLY_ADMIN_ACL .| REPL_SLAVE_ADMIN_ACL .| BINLOG_ADMIN_ACL .|
  BINLOG_REPLAY_ACL.
Definition COL_DML_ACLS : Z :=
  SELECT_ACL .| INSERT_ACL .| UPDATE_ACL .| DELETE_ACL.
Definition VIEW_ACLS : Z := CREATE_VIEW_ACL .| SHOW_VIEW_ACL.
Definition STD_TABLE_DDL_ACLS : Z := CREATE_ACL .| DROP_ACL .| ALTER_ACL.
Definition ALL_TABLE_DDL_ACLS : Z := STD_TABLE_DDL_ACLS .| INDEX_ACL.
Definition COL_ACLS : Z :=
  SELECT_ACL .| INSERT_ACL .| UPDATE_ACL .| REFERENCES_ACL.
Definition PROC_DDL_ACLS : Z := CREATE_PROC_ACL .| ALTER_PROC_ACL.
Definition SHOW_PROC_ACLS : Z := PROC_DDL_ACLS .| EXECUTE_ACL.
Definition TABLE_ACLS : Z :=
  COL_DML_ACLS .| ALL_TABLE_DDL_ACLS .| VIEW_ACLS .| GRANT_ACL .|
  REFERENCES_ACL .| TRIGGER_ACL .| DELETE_HISTORY_ACL.
Definition DB_ACLS : Z :=
  TABLE_ACLS .| PROC_DDL_ACLS .| EXECUTE_ACL .| CREATE_TMP_ACL .|
  LOCK_TABLES_ACL .| EVENT_ACL.
Definition PROC_ACLS : Z := ALTER_PROC_ACL .| EXECUTE_ACL .| GRANT_ACL.
Definition GLOBAL_ACLS : Z :=
  DB_ACLS .| SHOW_DB_ACL .| CREATE_USER_ACL .| CREATE_TABLESPACE_ACL .|
  SUPER_ACL .| RELOAD_ACL .| SHUTDOWN_ACL .| PROCESS_ACL .| FILE_ACL .|
  REPL_SLAVE_ACL .| BINLOG_MONITOR_ACL .|
  GLOBAL_SUPER_ADDED_SINCE_USER_TABLE_ACLS .| REPL_MASTER_ADMIN_ACL .|
  SLAVE_MONITOR_ACL.
Definition DEFAULT_CREATE_PROC_ACLS : Z := ALTER_PROC_ACL .| EXECUTE_ACL.
Definition SHOW_CREATE_TABLE_ACLS : Z :=
  COL_DML_ACLS .| ALL_TABLE_DDL_ACLS .| TRIGGER_ACL .| REFERENCES_ACL .|
  GRANT_ACL .| VIEW_ACLS.
Definition TMP_TABLE_ACLS : Z := COL_DML_ACLS .| ALL_TABLE_DDL_ACLS.
Definition PRIV_LOCK_TABLES : Z := SELECT_ACL .| LOCK_TABLES_ACL.

(** ** Privileges an action requires *)

Definition PRIV_DEFINER_CLAUSE : Z := SET_USER_ACL .| SUPER_ACL.
Definition PRIV_REVEAL_MISSING_DEFINER : Z := SET_USER_ACL .| SUPER_ACL.
Definition PRIV_DES_DECRYPT_ONE_ARG : Z := SUPER_ACL.
Definition PRIV_LOG_BIN_TRUSTED_SP_CREATOR : Z := SUPER_ACL.
Definition PRIV_DEBUG : Z := SUPER_ACL.
Definition PRIV_SET_GLOBAL_SYSTEM_VARIABLE : Z := SUPER_ACL.
Definition PRIV_SET_RESTRICTED_SESSION_SYSTEM_VARIABLE : Z := SUPER_ACL.
Definition PRIV_SET_SYSTEM_VAR_BINLOG_FORMAT : Z :=
  SUPER_ACL .| BINLOG_ADMIN_ACL.
Definition PRIV_SET_SYSTEM_VAR_BINLOG_DIRECT_NON_TRANSACTIONAL_UPDATES : Z :=
  SUPER_ACL .| BINLOG_ADMIN_ACL.
Definition PRIV_SET_SYSTEM_VAR_BINLOG_ANNOTATE_ROW_EVENTS : Z :=
  SUPER_ACL .| BINLOG_ADMIN_ACL.
Definition PRIV_SET_SYSTEM_VAR_BINLOG_ROW_IMAGE : Z :=
  SUPER_ACL .| BINLOG_ADMIN_ACL.
Definition PRIV_SET_SYSTEM_VAR_SQL_LOG_BIN : Z := SUPER_ACL .| BINLOG_ADMIN_ACL.
Definition PRIV_SET_SYSTEM_GLOBAL_VAR_BINLOG_CACHE_SIZE : Z :=
  SUPER_ACL .| BINLOG_ADMIN_ACL.
Definition PRIV_SET_SYSTEM_GLOBAL_VAR_BINLOG_FILE_CACHE_SIZE : Z :=
  SUPER_ACL .| BINLOG_ADMIN_ACL.
Definition PRIV_SET_SYSTEM_GLOBAL_VAR_BINLOG_STMT_CACHE_SIZE : Z :=
  SUPER_ACL .| BINLOG_ADMIN_ACL.
Definition PRIV_SET_SYSTEM_GLOBAL_VAR_BINLOG_COMMIT_WAIT_COUNT : Z :=
  SUPER_ACL .| BINLOG_ADMIN_ACL.
Definition PRIV_SET_SYSTEM_GLOBAL_VAR_BINLOG_COMMIT_WAIT_USEC : Z :=
  SUPER_ACL .| BINLOG_ADMIN_ACL.
Definition PRIV_SET_SYSTEM_GLOBAL_VAR_BINLOG_ROW_METADATA : Z :=
  SUPER_ACL .| BINLOG_ADMIN_ACL.
Definition PRIV_SET_SYSTEM_GLOBAL_VAR_EXPIRE_LOGS_DAYS : Z :=
  SUPER_ACL .| BINLOG_ADMIN_ACL.
Definition PRIV_SET_SYSTEM_GLOBAL_VAR_LOG_BIN_COMPRESS : Z :=
  SUPER_ACL .| BINLOG_ADMIN_ACL.
Definition PRIV_SET_SYSTEM_GLOBAL_VAR_LOG_BIN_COMPRESS_MIN_LEN : Z :=
  SUPER_ACL .| BINLOG_ADMIN_ACL.
Definition PRIV_SET_SYSTEM_GLOBAL_VAR_LOG_BIN_TRUST_FUNCTION_CREATORS : Z :=
  SUPER_ACL .| BINLOG_ADMIN_ACL.
Definition PRIV_SET_SYSTEM_GLOBAL_VAR_MAX_BINLOG_CACHE_SIZE : Z :=
  SUPER_ACL .| BINLOG_ADMIN_ACL.
Definition PRIV_SET_SYSTEM_GLOBAL_VAR_MAX_BINLOG_STMT_CACHE_SIZE : Z :=
  SUPER_ACL .| BINLOG_ADMIN_ACL.
Definition PRIV_SET_SYSTEM_GLOBAL_VAR_MAX_BINLOG_SIZE : Z :=
  SUPER_ACL .| BINLOG_ADMIN_ACL.
Definition PRIV_SET_SYSTEM_GLOBAL_VAR_SYNC_BINLOG : Z :=
  SUPER_ACL .| BINLOG_ADMIN_ACL.
Definition PRIV_IGNORE_READ_ONLY : Z := READ_ONLY_ADMIN_ACL .| SUPER_ACL.
Definition PRIV_SET_SYSTEM_GLOBAL_VAR_READ_ONLY : Z :=
  READ_ONLY_ADMIN_ACL .| SUPER_ACL.
Definition PRIV_IGNORE_INIT_CONNECT : Z := CONNECTION_ADMIN_ACL .| SUPER_ACL.
Definition PRIV_IGNORE_MAX_USER_CONNECTIONS : Z :=
  CONNECTION_ADMIN_ACL .| SUPER_ACL.
Definition PRIV_IGNORE_MAX_CONNECTIONS : Z := CONNECTION_ADMIN_ACL .| SUPER_ACL.
Definition PRIV_IGNORE_MAX_PASSWORD_ERRORS : Z :=
  CONNECTION_ADMIN_ACL .| SUPER_ACL.
Definition PRIV_KILL_OTHER_USER_PROCESS : Z :=
  CONNECTION_ADMIN_ACL .| SUPER_ACL.
Definition PRIV_SET_SYSTEM_GLOBAL_VAR_CONNECT_TIMEOUT : Z :=
  CONNECTION_ADMIN_ACL .| SUPER_ACL.
Definition PRIV_SET_SYSTEM_GLOBAL_VAR_DISCONNECT_ON_EXPIRED_PASSWORD : Z :=
  CONNECTION_ADMIN_ACL .| SUPER_ACL.
Definition PRIV_SET_SYSTEM_GLOBAL_VAR_EXTRA_MAX_CONNECTIONS : Z :=
  CONNECTION_ADMIN_ACL .| SUPER_ACL.
Definition PRIV_SET_SYSTEM_GLOBAL_VAR_INIT_CONNECT : Z :=
  CONNECTION_ADMIN_ACL .| SUPER_ACL.
Definition PRIV_SET_SYSTEM_GLOBAL_VAR_MAX_CONNECTIONS : Z :=
  CONNECTION_ADMIN_ACL .| SUPER_ACL.
Definition PRIV_SET_SYSTEM_GLOBAL_VAR_MAX_CONNECT_ERRORS : Z :=
  CONNECTION_ADMIN_ACL .| SUPER_ACL.
Definition PRIV_SET_SYSTEM_GLOBAL_VAR_MAX_PASSWORD_ERRORS : Z :=
  CONNECTION_ADMIN_ACL .| SUPER_ACL.
Definition PRIV_SET_SYSTEM_GLOBAL_VAR_PROXY_PROTOCOL_NETWORKS : Z :=
  CONNECTION_ADMIN_ACL .| SUPER_ACL.
Definition PRIV_SET_SYSTEM_GLOBAL_VAR_SECURE_AUTH : Z :=
  CONNECTION_ADMIN_ACL .| SUPER_ACL.
Definition PRIV_SET_SYSTEM_GLOBAL_VAR_SLOW_LAUNCH_TIME : Z :=
  CONNECTION_ADMIN_ACL .| SUPER_ACL.
Definition PRIV_SET_SYSTEM_GLOBAL_VAR_THREAD_POOL : Z :=
  CONNECTION_ADMIN_ACL .| SUPER_ACL.
Definition PRIV_STMT_SHOW_BINLOG_STATUS : Z := BINLOG_MONITOR_ACL .| SUPER_ACL.
Definition PRIV_STMT_SHOW_BINARY_LOGS : Z := BINLOG_MONITOR_ACL .| SUPER_ACL.
Definition PRIV_STMT_PURGE_BINLOG : Z := BINLOG_ADMIN_ACL .| SUPER_ACL.
Definition PRIV_STMT_SHOW_BINLOG_EVENTS : Z := BINLOG_MONITOR_ACL.
Definition PRIV_COM_REGISTER_SLAVE : Z := REPL_SLAVE_ACL.
Definition PRIV_COM_BINLOG_DUMP : Z := REPL_SLAVE_ACL.
Definition PRIV_STMT_SHOW_SLAVE_HOSTS : Z := REPL_MASTER_ADMIN_ACL.
Definition PRIV_SET_SYSTEM_GLOBAL_VAR_RPL_SEMI_SYNC_MASTER_ENABLED : Z :=
  REPL_MASTER_ADMIN_ACL .| SUPER_ACL.
Definition PRIV_SET_SYSTEM_GLOBAL_VAR_RPL_SEMI_SYNC_MASTER_TIMEOUT : Z :=
  REPL_MASTER_ADMIN_ACL .| SUPER_ACL.
Definition PRIV_SET_SYSTEM_GLOBAL_VAR_RPL_SEMI_SYNC_MASTER_WAIT_NO_SLAVE : Z :=
  REPL_MASTER_ADMIN_ACL .| SUPER_ACL.
Definition PRIV_SET_SYSTEM_GLOBAL_VAR_RPL_SEMI_SYNC_MASTER_TRACE_LEVEL : Z :=
  REPL_MASTER_ADMIN_ACL .| SUPER_ACL.
Definition PRIV_SET_SYSTEM_GLOBAL_VAR_RPL_SEMI_SYNC_MASTER_WAIT_POINT : Z :=
  REPL_MASTER_ADMIN_ACL .| SUPER_ACL.
Definition PRIV_SET_SYSTEM_GLOBAL_VAR_MASTER_VERIFY_CHECKSUM : Z :=
  REPL_MASTER_ADMIN_ACL .| SUPER_ACL.
Definition PRIV_SET_SYSTEM_GLOBAL_VAR_GTID_BINLOG_STATE : Z :=
  REPL_MASTER_ADMIN_ACL .| SUPER_ACL.
Definition PRIV_SET_SYSTEM_GLOBAL_VAR_SERVER_ID : Z :=
  REPL_MASTER_ADMIN_ACL .| SUPER_ACL.
Definition PRIV_SET_SYSTEM_GLOBAL_VAR_GTID_DOMAIN_ID : Z :=
  REPL_MASTER_ADMIN_ACL .| SUPER_ACL.
Definition PRIV_STMT_START_SLAVE : Z := REPL_SLAVE_ADMIN_ACL .| SUPER_ACL.
Definition PRIV_STMT_STOP_SLAVE : Z := REPL_SLAVE_ADMIN_ACL .| SUPER_ACL.
Definition PRIV_STMT_CHANGE_MASTER : Z := REPL_SLAVE_ADMIN_ACL .| SUPER_ACL.
Definition PRIV_STMT_SHOW_SLAVE_STATUS : Z := SLAVE_MONITOR_ACL .| SUPER_ACL.
Definition PRIV_STMT_SHOW_RELAYLOG_EVENTS : Z := SLAVE_MONITOR_ACL.
Definition PRIV_STMT_BINLOG : Z := BINLOG_REPLAY_ACL .| SUPER_ACL.
Definition PRIV_SET_SYSTEM_SESSION_VAR_GTID_SEQ_NO : Z :=
  BINLOG_REPLAY_ACL .| SUPER_ACL.
Definition PRIV_SET_SYSTEM_SESSION_VAR_PSEUDO_THREAD_ID : Z :=
  BINLOG_REPLAY_ACL .| SUPER_ACL.
Definition PRIV_SET_SYSTEM_SESSION_VAR_SERVER_ID : Z :=
  BINLOG_REPLAY_ACL .| SUPER_ACL.
Definition PRIV_SET_SYSTEM_SESSION_VAR_GTID_DOMAIN_ID : Z :=
  BINLOG_REPLAY_ACL .| SUPER_ACL.
Definition PRIV_SET_SYSTEM_GLOBAL_VAR_REPLICATE_EVENTS_MARKED_FOR_SKIP : Z :=
  REPL_SLAVE_ADMIN_ACL .| SUPER_ACL.
Definition PRIV_SET_SYSTEM_GLOBAL_VAR_REPLICATE_DO_DB : Z :=
  REPL_SLAVE_ADMIN_ACL .| SUPER_ACL.
Definition PRIV_SET_SYSTEM_GLOBAL_VAR_REPLICATE_DO_TABLE : Z :=
  REPL_SLAVE_ADMIN_ACL .| SUPER_ACL.
Definition PRIV_SET_SYSTEM_GLOBAL_VAR_REPLICATE_IGNORE_DB : Z :=
  REPL_SLAVE_ADMIN_ACL .| SUPER_ACL.
Definition PRIV_SET_SYSTEM_GLOBAL_VAR_REPLICATE_IGNORE_TABLE : Z :=
  REPL_SLAVE_ADMIN_ACL .| SUPER_ACL.
Definition PRIV_SET_SYSTEM_GLOBAL_VAR_REPLICATE_WILD_DO_TABLE : Z :=
  REPL_SLAVE_ADMIN_ACL .| SUPER_ACL.
Definition PRIV_SET_SYSTEM_GLOBAL_VAR_REPLICATE_WILD_IGNORE_TABLE : Z :=
  REPL_SLAVE_ADMIN_ACL .| SUPER_ACL.
Definition PRIV_SET_SYSTEM_GLOBAL_VAR_READ_BINLOG_SPEED_LIMIT : Z :=
  REPL_SLAVE_ADMIN_ACL .| SUPER_ACL.
Definition PRIV_SET_SYSTEM_GLOBAL_VAR_SLAVE_COMPRESSED_PROTOCOL : Z :=
  REPL_SLAVE_ADMIN_ACL .| SUPER_ACL.
Definition PRIV_SET_SYSTEM_GLOBAL_VAR_SLAVE_DDL_EXEC_MODE : Z :=
  REPL_SLAVE_ADMIN_ACL .| SUPER_ACL.
Definition PRIV_SET_SYSTEM_GLOBAL_VAR_SLAVE_DOMAIN_PARALLEL_THREADS : Z :=
  REPL_SLAVE_ADMIN_ACL .| SUPER_ACL.
Definition PRIV_SET_SYSTEM_GLOBAL_VAR_SLAVE_EXEC_MODE : Z :=
  REPL_SLAVE_ADMIN_ACL .| SUPER_ACL.
Definition PRIV_SET_SYSTEM_GLOBAL_VAR_SLAVE_MAX_ALLOWED_PACKET : Z :=
  REPL_SLAVE_ADMIN_ACL .| SUPER_ACL.
Definition PRIV_SET_SYSTEM_GLOBAL_VAR_SLAVE_NET_TIMEOUT : Z :=
  REPL_SLAVE_ADMIN_ACL .| SUPER_ACL.
Definition PRIV_SET_SYSTEM_GLOBAL_VAR_SLAVE_PARALLEL_MAX_QUEUED : Z :=
  REPL_SLAVE_ADMIN_ACL .| SUPER_ACL.
Definition PRIV_SET_SYSTEM_GLOBAL_VAR_SLAVE_PARALLEL_MODE : Z :=
  REPL_SLAVE_ADMIN_ACL .| SUPER_ACL.
Definition PRIV_SET_SYSTEM_GLOBAL_VAR_SLAVE_PARALLEL_THREADS : Z :=
  REPL_SLAVE_ADMIN_ACL .| SUPER_ACL.
Definition PRIV_SET_SYSTEM_GLOBAL_VAR_SLAVE_PARALLEL_WORKERS : Z :=
  REPL_SLAVE_ADMIN_ACL .| SUPER_ACL.
Definition PRIV_SET_SYSTEM_GLOBAL_VAR_SLAVE_RUN_TRIGGERS_FOR_RBR : Z :=
  REPL_SLAVE_ADMIN_ACL .| SUPER_ACL.
Definition PRIV_SET_SYSTEM_GLOBAL_VAR_SLAVE_SQL_VERIFY_CHECKSUM : Z :=
  REPL_SLAVE_ADMIN_ACL .| SUPER_ACL.
Definition PRIV_SET_SYSTEM_GLOBAL_VAR_SLAVE_TRANSACTION_RETRY_INTERVAL : Z :=
  REPL_SLAVE_ADMIN_ACL .| SUPER_ACL.
Definition PRIV_SET_SYSTEM_GLOBAL_VAR_SLAVE_TYPE_CONVERSIONS : Z :=
  REPL_SLAVE_ADMIN_ACL .| SUPER_ACL.
Definition PRIV_SET_SYSTEM_GLOBAL_VAR_INIT_SLAVE : Z :=
  REPL_SLAVE_ADMIN_ACL .| SUPER_ACL.
Definition PRIV_SET_SYSTEM_GLOBAL_VAR_RPL_SEMI_SYNC_SLAVE_ENABLED : Z :=
  REPL_SLAVE_ADMIN_ACL .| SUPER_ACL.
Definition PRIV_SET_SYSTEM_GLOBAL_VAR_RPL_SEMI_SYNC_SLAVE_TRACE_LEVEL : Z :=
  REPL_SLAVE_ADMIN_ACL .| SUPER_ACL.
Definition PRIV_SET_SYSTEM_GLOBAL_VAR_RPL_SEMI_SYNC_SLAVE_DELAY_MASTER : Z :=
  REPL_SLAVE_ADMIN_ACL .| SUPER_ACL.
Definition PRIV_SET_SYSTEM_GLOBAL_VAR_RPL_SEMI_SYNC_SLAVE_KILL_CONN_TIMEOUT : Z :=
  REPL_SLAVE_ADMIN_ACL .| SUPER_ACL.
Definition PRIV_SET_SYSTEM_GLOBAL_VAR_RELAY_LOG_PURGE : Z :=
  REPL_SLAVE_ADMIN_ACL .| SUPER_ACL.
Definition PRIV_SET_SYSTEM_GLOBAL_VAR_RELAY_LOG_RECOVERY : Z :=
  REPL_SLAVE_ADMIN_ACL .| SUPER_ACL.
Definition PRIV_SET_SYSTEM_GLOBAL_VAR_SYNC_MASTER_INFO : Z :=
  REPL_SLAVE_ADMIN_ACL .| SUPER_ACL.
Definition PRIV_SET_SYSTEM_GLOBAL_VAR_SYNC_RELAY_LOG : Z :=
  REPL_SLAVE_ADMIN_ACL .| SUPER_ACL.
Definition PRIV_SET_SYSTEM_GLOBAL_VAR_SYNC_RELAY_LOG_INFO : Z :=
  REPL_SLAVE_ADMIN_ACL .| SUPER_ACL.
Definition PRIV_SET_SYSTEM_GLOBAL_VAR_GTID_CLEANUP_BATCH_SIZE : Z :=
  REPL_SLAVE_ADMIN_ACL .| SUPER_ACL.
Definition PRIV_SET_SYSTEM_GLOBAL_VAR_GTID_IGNORE_DUPLICATES : Z :=
  REPL_SLAVE_ADMIN_ACL .| SUPER_ACL.
Definition PRIV_SET_SYSTEM_GLOBAL_VAR_GTID_POS_AUTO_ENGINES : Z :=
  REPL_SLAVE_ADMIN_ACL .| SUPER_ACL.
Definition PRIV_SET_SYSTEM_GLOBAL_VAR_GTID_SLAVE_POS : Z :=
  REPL_SLAVE_ADMIN_ACL .| SUPER_ACL.
Definition PRIV_SET_SYSTEM_GLOBAL_VAR_GTID_STRICT_MODE : Z :=
  REPL_SLAVE_ADMIN_ACL .| SUPER_ACL.
Definition PRIV_STMT_CREATE_SERVER : Z := FEDERATED_ADMIN_ACL .| SUPER_ACL.
Definition PRIV_STMT_ALTER_SERVER : Z := FEDERATED_ADMIN_ACL .| SUPER_ACL.
Definition PRIV_STMT_DROP_SERVER : Z := FEDERATED_ADMIN_ACL .| SUPER_ACL.
Definition PRIV_COM_PROCESS_INFO : Z := PROCESS_ACL.
Definition PRIV_STMT_SHOW_EXPLAIN : Z := PROCESS_ACL.
Definition PRIV_STMT_SHOW_ENGINE_STATUS : Z := PROCESS_ACL.
Definition PRIV_STMT_SHOW_ENGINE_MUTEX : Z := PROCESS_ACL.
Definition PRIV_STMT_SHOW_PROCESSLIST : Z := PROCESS_ACL.

(** ** Packing for the grant tables *)

Definition DB_CHUNK0 : Z := COL_DML_ACLS .| CREATE_ACL .| DROP_ACL.
Definition DB_CHUNK1 : Z :=
  GRANT_ACL .| REFERENCES_ACL .| INDEX_ACL .| ALTER_ACL.
Definition DB_CHUNK2 : Z := CREATE_TMP_ACL .| LOCK_TABLES_ACL.
Definition DB_CHUNK3 : Z := VIEW_ACLS .| PROC_DDL_ACLS.
Definition DB_CHUNK4 : Z := EXECUTE_ACL.
Definition DB_CHUNK5 : Z := EVENT_ACL .| TRIGGER_ACL.
Definition DB_CHUNK6 : Z := DELETE_HISTORY_ACL.

Definition fix_rights_for_db (access : Z) : Z :=
  let A := access in
  op_and_up A DB_CHUNK0 .|
  op_and_up (u64 (Z.shiftl A 4)) DB_CHUNK1 .|
  op_and_up (u64 (Z.shiftl A 6)) DB_CHUNK2 .|
  op_and_up (u64 (Z.shiftl A 9)) DB_CHUNK3 .|
  op_and_up (u64 (Z.shiftl A 2)) DB_CHUNK4 .|
  op_and_up (u64 (Z.shiftl A 9)) DB_CHUNK5 .|
  op_and_up (u64 (Z.shiftl A 10)) DB_CHUNK6.

Definition get_rights_for_db (access : Z) : Z :=
  let A := access in
  op_and_up A DB_CHUNK0 .|
  Z.shiftr (op_and_up A DB_CHUNK1) 4 .|
  Z.shiftr (op_and_up A DB_CHUNK2) 6 .|
  Z.shiftr (op_and_up A DB_CHUNK3) 9 .|
  Z.shiftr (op_and_up A DB_CHUNK4) 2 .|
  Z.shiftr (op_and_up A DB_CHUNK5) 9 .|
  Z.shiftr (op_and_up A DB_CHUNK6) 10.

Definition TBL_CHUNK0 : Z := DB_CHUNK0.
Definition TBL_CHUNK1 : Z := DB_CHUNK1.
Definition TBL_CHUNK2 : Z := CREATE_VIEW_ACL .| SHOW_VIEW_ACL.
Definition TBL_CHUNK3 : Z := TRIGGER_ACL.
Definition TBL_CHUNK4 : Z := DELETE_HISTORY_ACL.

Definition fix_rights_for_table (access : Z) : Z :=
  let A := access in
  op_and_up A TBL_CHUNK0 .|
  op_and_up (u64 (Z.shiftl A 4)) TBL_CHUNK1 .|
  op_and_up (u64 (Z.shiftl A 11)) TBL_CHUNK2 .|
  op_and_up (u64 (Z.shiftl A 15)) TBL_CHUNK3 .|
  op_and_up (u64 (Z.shiftl A 16)) TBL_CHUNK4.

Definition get_rights_for_table (access : Z) : Z :=
  let A := access in
  op_and_up A TBL_CHUNK0 .|
  Z.shiftr (op_and_up A TBL_CHUNK1) 4 .|
  Z.shiftr (op_and_up A TBL_CHUNK2) 11 .|
  Z.shiftr (op_and_up A TBL_CHUNK3) 15 .|
  Z.shiftr (op_and_up A TBL_CHUNK4) 16.

Definition fix_rights_for_column (A : Z) : Z :=
  let mask := SELECT_ACL .| INSERT_ACL .| UPDATE_ACL in
  op_and_pu A mask .| u64 (Z.shiftl (op_and_pu A (u64 (Z.lnot mask))) 8).

Definition get_rights_for_column (A : Z) : Z :=
  let mask := SELECT_ACL .| INSERT_ACL .| UPDATE_ACL in
  Z.lor (Z.land A mask) (Z.shiftr A 8).

Definition fix_rights_for_procedure (access : Z) : Z :=
  let A := access in
  op_and_up (u64 (Z.shiftl A 18)) EXECUTE_ACL .|
  op_and_up (u64 (Z.shiftl A 23)) ALTER_PROC_ACL .|
  op_and_up (u64 (Z.shiftl A 8)) GRANT_ACL.

Definition get_rights_for_procedure (access : Z) : Z :=
  let A := access in
  Z.shiftr (op_and_up A EXECUTE_ACL) 18 .|
  Z.shiftr (op_and_up A ALTER_PROC_ACL) 23 .|
  Z.shiftr (op_and_up A GRANT_ACL) 8.

(** ** Packing as a relocation of chunks

    A chunk is a mask of the privilege word with the distance its bits move.
    [spread] unpacks a stored word along a list of chunks and [gather] packs;
    [spread_bits] and [gather_bits] are the same on bit functions, where a
    closed list of chunks evaluates. *)

Definition chunk : Type := Z * Z.

Definition spread (cs : list chunk) (a : Z) : Z :=
  foldr (fun c r => Z.lor (Z.land (u64 (Z.shiftl a c.2)) c.1) r) 0 cs.

Definition gather (cs : list chunk) (a : Z) : Z :=
  foldr (fun c r => Z.lor (Z.shiftr (Z.land a c.1) c.2) r) 0 cs.

Definition spread_bits (cs : list chunk) (f : Z -> bool) (n : Z) : bool :=
  existsb (fun c => Z.testbit c.1 n &&
    ((n <? 64) && ((c.2 <=? n) && f (n - c.2)))) cs.

Definition gather_bits (cs : list chunk) (f : Z -> bool) (n : Z) : bool :=
  existsb (fun c => Z.testbit c.1 (n + c.2) && f (n + c.2)) cs.

Definition chunks_ok (cs : list chunk) : Prop :=
  Forall (fun c : chunk => urange 64 c.1 /\ 0 <= c.2) cs.

Definition db_chunks : list chunk :=
  [(DB_CHUNK0, 0); (DB_CHUNK1, 4); (DB_CHUNK2, 6); (DB_CHUNK3, 9);
   (DB_CHUNK4, 2); (DB_CHUNK5, 9); (DB_CHUNK6, 10)].

Definition table_chunks : list chunk :=
  [(TBL_CHUNK0, 0); (TBL_CHUNK1, 4); (TBL_CHUNK2, 11); (TBL_CHUNK3, 15);
   (TBL_CHUNK4, 16)].

Definition procedure_chunks : list chunk :=
  [(EXECUTE_ACL, 18); (ALTER_PROC_ACL, 23); (GRANT_ACL, 8)].

Lemma spread_testbit cs a n :
  chunks_ok cs -> 0 <= n -> Z.testbit (spread cs a) n = spread_bits cs (Z.testbit a) n.
Proof.
  intros Hok Hn. induction Hok as [|[m s] cs [Hm Hs] _ IH]; cbn [spread foldr].
  - apply Z.testbit_0_l.
  - rewrite Z.lor_spec, Z.land_spec, wrap_testbit, Z.shiftl_spec by lia.
    fold (spread cs a). rewrite IH. unfold spread_bits. cbn [existsb fst snd].
    f_equal. rewrite andb_comm. do 2 f_equal.
    destruct (Z.leb_spec s n); cbn [andb]; [done|].
    apply Z.testbit_neg_r. lia.
Qed.

Lemma gather_testbit cs a n :
  chunks_ok cs -> 0 <= n -> Z.testbit (gather cs a) n = gather_bits cs (Z.testbit a) n.
Proof.
  intros Hok Hn. induction Hok as [|[m s] cs [Hm Hs] _ IH]; cbn [gather foldr].
  - apply Z.testbit_0_l.
  - rewrite Z.lor_spec, Z.shiftr_spec, Z.land_spec by lia.
    fold (gather cs a). rewrite IH, andb_comm. done.
Qed.

Lemma spread_bits_ext cs f g n :
  chunks_ok cs -> (forall i, 0 <= i -> f i = g i) -> 0 <= n ->
  spread_bits cs f n = spread_bits cs g n.
Proof.
  intros Hok Hfg Hn. induction Hok as [|[m s] cs [Hm Hs] _ IH]; [done|].
  unfold spread_bits in *. cbn [existsb fst snd]. rewrite IH. do 3 f_equal.
  destruct (Z.leb_spec s n); cbn [andb]; [apply Hfg; lia|done].
Qed.

Lemma gather_bits_ext cs f g n :
  chunks_ok cs -> (forall i, 0 <= i -> f i = g i) -> 0 <= n ->
  gather_bits cs f n = gather_bits cs g n.
Proof.
  intros Hok Hfg Hn. induction Hok as [|[m s] cs [Hm Hs] _ IH]; [done|].
  unfold gather_bits in *. cbn [existsb fst snd] in *. by rewrite IH, Hfg by lia.
Qed.

(** Two words agree when their 64 bits do. *)
Lemma word64_eq a b :
  urange 64 a -> urange 64 b ->
  (forall k : nat, (k < 64)%nat -> Z.testbit a (Z.of_nat k) = Z.testbit b (Z.of_nat k)) ->
  a = b.
Proof.
  intros Ha Hb Hk. apply (bits_eq 64); [done..|]. intros n Hn.
  specialize (Hk (Z.to_nat n)). rewrite Z2Nat.id in Hk by lia. apply Hk. lia.
Qed.

Lemma spread_range cs a : chunks_ok cs -> urange 64 (spread cs a).
Proof.
  intros Hok. induction Hok as [|[m s] cs [Hm Hs] _ IH]; cbn [spread foldr].
  - unfold urange. lia.
  - apply urange_lor; [lia| |done]. rewrite Z.land_comm.
    apply urange_land; [lia|done|]. by apply wrap_range.
Qed.

Lemma gather_range cs a : chunks_ok cs -> urange 64 a -> urange 64 (gather cs a).
Proof.
  intros Hok Ha. induction Hok as [|[m s] cs [Hm Hs] _ IH]; cbn [gather foldr].
  - unfold urange. lia.
  - apply urange_lor; [lia| |done]. apply urange_shiftr; [done|].
    apply urange_land; [lia|done|]. apply Hm.
Qed.

Ltac bit_cases f k Hk :=
  do 64 (destruct k as [|k];
    [ first [vm_compute; done
            | vm_compute; repeat match goal with |- context [f ?z] => destruct (f z) end; done] |]);
  exfalso; clear - Hk; lia.

(** The storage law of a chunk list: [all] is the set it stores and [w] the
    number of contiguous bits it uses. *)
Definition stores (cs : list chunk) (all w : Z) : Prop :=
  forall f k, (k < 64)%nat ->
    let n := Z.of_nat k in
    spread_bits cs (gather_bits cs f) n = Z.testbit all n && f n /\
    gather_bits cs (spread_bits cs f) n = (n <? w) && f n /\
    ((n <? w) || negb (gather_bits cs f n)) = true.

Lemma stores_roundtrip cs all w a :
  chunks_ok cs -> stores cs all w -> urange 64 all -> 0 <= w <= 64 -> urange 64 a ->
  spread cs (gather cs a) = Z.land a all /\
  gather cs (spread cs a) = wrap w a /\
  urange w (gather cs a).
Proof.
  intros Hok Hst Hall Hw Ha. split; [|split].
  - apply word64_eq; [by apply spread_range|by apply urange_land, Hall|].
    intros k Hk. destruct (Hst (Z.testbit a) k Hk) as (Hb & _).
    rewrite spread_testbit, Z.land_spec, andb_comm, <- Hb by (done || lia).
    apply spread_bits_ext; [done| |lia]. intros i Hi. by apply gather_testbit.
  - apply word64_eq; [apply gather_range; [done|by apply spread_range]| |].
    + apply urange_weaken with w; [lia|]. apply wrap_range. lia.
    + intros k Hk. destruct (Hst (Z.testbit a) k Hk) as (_ & Hb & _).
      rewrite gather_testbit, wrap_testbit, <- Hb by (done || lia).
      apply gather_bits_ext; [done| |lia]. intros i Hi. by apply spread_testbit.
  - replace (gather cs a) with (wrap w (gather cs a)); [apply wrap_range; lia|].
    apply word64_eq; [|by apply gather_range|].
    + apply urange_weaken with w; [lia|]. apply wrap_range. lia.
    + intros k Hk. destruct (Hst (Z.testbit a) k Hk) as (_ & _ & Hb).
      rewrite wrap_testbit, gather_testbit by (done || lia).
      destruct (Z.of_nat k <? w); [done|]. cbn [orb] in Hb.
      by destruct (gather_bits _ _ _).
Qed.

Ltac chunks_check :=
  repeat (apply Forall_cons_2; [split; [split|]; by vm_compute|]); apply Forall_nil_2.

Lemma db_chunks_ok : chunks_ok db_chunks.
Proof. chunks_check. Qed.
Lemma table_chunks_ok : chunks_ok table_chunks.
Proof. chunks_check. Qed.
Lemma procedure_chunks_ok : chunks_ok procedure_chunks.
Proof. chunks_check. Qed.

Lemma db_stores : stores db_chunks DB_ACLS 20.
Proof. intros f k Hk. split; [|split]; bit_cases f k Hk. Qed.
Lemma table_stores : stores table_chunks TABLE_ACLS 14.
Proof. intros f k Hk. split; [|split]; bit_cases f k Hk. Qed.
Lemma procedure_stores : stores procedure_chunks PROC_ACLS 3.
Proof. intros f k Hk. split; [|split]; bit_cases f k Hk. Qed.

(** The masking functions are the generic relocation of their chunk lists. *)

Lemma fix_db_spread a : urange 64 a -> fix_rights_for_db a = spread db_chunks a.
Proof.
  intros Ha. unfold fix_rights_for_db, spread, op_or, op_and_up, db_chunks.
  cbn [foldr fst snd].
  by rewrite Z.shiftl_0_r, (wrap_small 64 a), Z.lor_0_r, !Z.lor_assoc.
Qed.

Lemma get_db_gather a : get_rights_for_db a = gather db_chunks a.
Proof.
  unfold get_rights_for_db, gather, op_or, op_and_up, db_chunks. cbn [foldr fst snd].
  by rewrite Z.shiftr_0_r, Z.lor_0_r, !Z.lor_assoc.
Qed.

Lemma fix_table_spread a : urange 64 a -> fix_rights_for_table a = spread table_chunks a.
Proof.
  intros Ha. unfold fix_rights_for_table, spread, op_or, op_and_up, table_chunks.
  cbn [foldr fst snd].
  by rewrite Z.shiftl_0_r, (wrap_small 64 a), Z.lor_0_r, !Z.lor_assoc.
Qed.

Lemma get_table_gather a : get_rights_for_table a = gather table_chunks a.
Proof.
  unfold get_rights_for_table, gather, op_or, op_and_up, table_chunks.
  cbn [foldr fst snd]. by rewrite Z.shiftr_0_r, Z.lor_0_r, !Z.lor_assoc.
Qed.

Lemma fix_procedure_spread a : fix_rights_for_procedure a = spread procedure_chunks a.
Proof.
  unfold fix_rights_for_procedure, spread, op_or, op_and_up, procedure_chunks.
  cbn [foldr fst snd]. by rewrite Z.lor_0_r, !Z.lor_assoc.
Qed.

Lemma get_procedure_gather a : get_rights_for_procedure a = gather procedure_chunks a.
Proof.
  unfold get_rights_for_procedure, gather, op_or, op_and_up, procedure_chunks.
  cbn [foldr fst snd]. by rewrite Z.lor_0_r, !Z.lor_assoc.
Qed.

(** Packing database, table and routine privileges for the grant tables and
    unpacking them returns exactly the privileges of that level; unpacking a
    stored word and packing it again returns the word's low 20, 14 or 3 bits;
    and the packed word fits those bits. *)
Theorem rights_storage_roundtrip (access : Z) :
  urange 64 access ->
  (fix_rights_for_db (get_rights_for_db access) = op_and access DB_ACLS /\
   get_rights_for_db (fix_rights_for_db access) = wrap 20 access /\
   urange 20 (get_rights_for_db access)) /\
  (fix_rights_for_table (get_rights_for_table access) = op_and access TABLE_ACLS /\
   get_rights_for_table (fix_rights_for_table access) = wrap 14 access /\
   urange 14 (get_rights_for_table access)) /\
  (fix_rights_for_procedure (get_rights_for_procedure access) = op_and access PROC_ACLS /\
   get_rights_for_procedure (fix_rights_for_procedure access) = wrap 3 access /\
   urange 3 (get_rights_for_procedure access)).
Proof.
  intros Ha. unfold op_and.
  rewrite !get_db_gather, !get_table_gather, !get_procedure_gather,
    !fix_procedure_spread.
  rewrite !fix_db_spread, !fix_table_spread
    by auto using gather_range, db_chunks_ok, table_chunks_ok.
  split; [|split]; apply stores_roundtrip;
    auto using db_chunks_ok, table_chunks_ok, procedure_chunks_ok,
      db_stores, table_stores, procedure_stores; by vm_compute.
Qed.

Lemma rights_storage_roundtrip_witness :
  fix_rights_for_db (get_rights_for_db GLOBAL_ACLS) = op_and GLOBAL_ACLS DB_ACLS.
Proof. apply (rights_storage_roundtrip GLOBAL_ACLS). split; by vm_compute. Defined.

Lemma column_get_bit a n : 0 <= n ->
  Z.testbit (get_rights_for_column a) n = ((n <? 3) && Z.testbit a n) || Z.testbit a (n + 8).
Proof.
  intros Hn. unfold get_rights_for_column.
  change (SELECT_ACL .| INSERT_ACL .| UPDATE_ACL) with (Z.ones 3).
  rewrite Z.lor_spec, Z.land_spec, Z.shiftr_spec, testbit_ones by lia.
  destruct (Z.leb_spec 0 n); [|lia]. cbn [andb]. by rewrite andb_comm.
Qed.

Lemma column_fix_bit a n : 0 <= n ->
  Z.testbit (fix_rights_for_column a) n =
  ((n <? 3) && Z.testbit a n) || ((n <? 64) && ((11 <=? n) && Z.testbit a (n - 8))).
Proof.
  intros Hn. unfold fix_rights_for_column, op_or, op_and_pu.
  change (Z.lor (Z.lor SELECT_ACL INSERT_ACL) UPDATE_ACL) with (Z.ones 3).
  rewrite Z.lor_spec, Z.land_spec, wrap_testbit, Z.shiftl_spec, testbit_ones by lia.
  destruct (Z.leb_spec 0 n); [|lia]. cbn [andb]. rewrite (andb_comm _ (n <? 3)).
  f_equal. destruct (Z.ltb_spec n 64); [|done]. cbn [andb].
  destruct (Z.leb_spec 11 n).
  - rewrite Z.land_spec, wrap_testbit, Z.lnot_spec, testbit_ones by lia.
    destruct (Z.leb_spec 0 (n - 8)), (Z.ltb_spec (n - 8) 3), (Z.ltb_spec (n - 8) 64);
      try lia. cbn. by rewrite andb_true_r.
  - destruct (Z.lt_ge_cases n 8); [by apply Z.testbit_neg_r; lia|].
    rewrite Z.land_spec, wrap_testbit, Z.lnot_spec, testbit_ones by lia.
    destruct (Z.leb_spec 0 (n - 8)), (Z.ltb_spec (n - 8) 3);
      lia || (cbn; by rewrite !andb_false_r).
Qed.

Lemma column_range a :
  urange 64 a ->
  urange 64 (get_rights_for_column a) /\ urange 64 (fix_rights_for_column a).
Proof.
  intros Ha. split.
  - unfold get_rights_for_column. apply urange_lor; [lia| |].
    + by apply urange_land.
    + by apply urange_shiftr.
  - unfold fix_rights_for_column, op_or, op_and_pu. apply urange_lor; [lia| |].
    + by apply urange_land.
    + by apply wrap_range.
Qed.

Lemma land_low_gap a :
  op_and a 0x7F8 = NO_ACL <-> forall n, 3 <= n < 11 -> Z.testbit a n = false.
Proof.
  unfold op_and, NO_ACL. change 0x7F8 with (Z.shiftl (Z.ones 8) 3). split.
  - intros H n Hn. pose proof (f_equal (fun z => Z.testbit z n) H) as Hb. cbn beta in Hb.
    rewrite Z.land_spec, Z.shiftl_spec, testbit_ones, Z.testbit_0_l in Hb by lia.
    destruct (Z.leb_spec 0 (n - 3)), (Z.ltb_spec (n - 3) 8); try lia.
    cbn in Hb. by rewrite andb_true_r in Hb.
  - intros H. apply Z.bits_inj'. intros n Hn.
    rewrite Z.land_spec, Z.shiftl_spec, testbit_ones, Z.testbit_0_l by lia.
    destruct (Z.leb_spec 0 (n - 3)), (Z.ltb_spec (n - 3) 8); cbn;
      rewrite ?andb_false_r; try done. rewrite H by lia. done.
Qed.

(** A round trip through the packed word keeps the bits outside the gap. *)
Lemma column_fix_get_bit a n :
  0 <= n < 64 ->
  Z.testbit (fix_rights_for_column (get_rights_for_column a)) n =
  if n <? 3 then Z.testbit a n || Z.testbit a (n + 8) else (11 <=? n) && Z.testbit a n.
Proof.
  intros Hn. rewrite column_fix_bit by lia.
  destruct (Z.ltb_spec n 3), (Z.leb_spec 11 n), (Z.ltb_spec n 64); try lia; cbn [andb orb].
  - rewrite column_get_bit, orb_false_r by lia. by destruct (Z.ltb_spec n 3); [|lia].
  - rewrite column_get_bit by lia. destruct (Z.ltb_spec (n - 8) 3); [lia|].
    cbn [andb orb]. by replace (n - 8 + 8) with n by lia.
Qed.

Lemma column_fix_get a :
  urange 64 a ->
  fix_rights_for_column (get_rights_for_column a) = a <-> op_and a 0x7F8 = NO_ACL.
Proof.
  intros Ha. rewrite land_low_gap. split.
  - intros H n Hn. rewrite <- H, column_fix_get_bit by lia.
    by destruct (Z.ltb_spec n 3), (Z.leb_spec 11 n); [lia..|].
  - intros H. destruct (column_range a Ha) as [Hg _]. apply (bits_eq 64); [|done|].
    { by apply column_range. }
    intros n Hn. rewrite column_fix_get_bit by lia.
    destruct (Z.ltb_spec n 3).
    + rewrite (H (n + 8)) by lia. apply orb_false_r.
    + destruct (Z.leb_spec 11 n); [done|]. symmetry. apply H. lia.
Qed.

Lemma column_get_fix a :
  urange 64 a -> a < 2 ^ 56 -> get_rights_for_column (fix_rights_for_column a) = a.
Proof.
  intros Ha Hlt. destruct (column_range a Ha) as [_ Hf]. apply (bits_eq 64); [|done|].
  { by apply column_range. }
  intros n Hn. rewrite column_get_bit, !column_fix_bit by lia.
  replace (n + 8 - 8) with n by lia.
  destruct (Z.ltb_spec n 3), (Z.leb_spec 11 n), (Z.leb_spec 11 (n + 8)),
    (Z.ltb_spec (n + 8) 3), (Z.ltb_spec (n + 8) 64), (Z.ltb_spec n 64);
    try lia; cbn [andb orb]; rewrite ?orb_false_r; try done.
  symmetry. apply (testbit_ltb_high 56); [split; [apply Ha|done]|lia].
Qed.

Lemma column_get_small a :
  urange 64 a -> op_and a COL_ACLS = a -> urange 4 (get_rights_for_column a).
Proof.
  intros Ha Hc. apply urange_testbit; [lia|apply column_range, Ha|].
  intros n Hn. rewrite column_get_bit by lia. destruct (Z.ltb_spec n 3); [lia|].
  cbn [andb orb]. rewrite <- Hc. unfold op_and. rewrite Z.land_spec.
  rewrite (testbit_ltb_high 12 COL_ACLS); [apply andb_false_r|by split; vm_compute|lia].
Qed.

(** Column privileges survive packing and unpacking exactly when the set
    uses none of the bits 3 to 10, so in particular when it is a set of column
    privileges (the packed word then has 4 bits); and every stored word below
    2^56 survives unpacking and packing. *)
Theorem column_rights_roundtrip (A : Z) :
  urange 64 A ->
  (fix_rights_for_column (get_rights_for_column A) = A <-> op_and A 0x7F8 = NO_ACL) /\
  (op_and A COL_ACLS = A ->
   fix_rights_for_column (get_rights_for_column A) = A /\
   urange 4 (get_rights_for_column A)) /\
  (A < 2 ^ 56 -> get_rights_for_column (fix_rights_for_column A) = A).
Proof.
  intros HA. split; [by apply column_fix_get|]. split; [|by apply column_get_fix].
  intros Hc. split; [|by apply column_get_small].
  apply column_fix_get; [done|]. rewrite <- Hc. unfold op_and.
  rewrite <- Z.land_assoc. change (Z.land COL_ACLS 0x7F8) with 0. apply Z.land_0_r.
Qed.

Lemma column_rights_roundtrip_witness :
  fix_rights_for_column (get_rights_for_column COL_ACLS) = COL_ACLS /\
  fix_rights_for_column (get_rights_for_column GRANT_ACL) <> GRANT_ACL.
Proof.
  split.
  - apply (column_rights_roundtrip COL_ACLS); [split; by vm_compute|reflexivity].
  - intros H. apply (column_rights_roundtrip GRANT_ACL) in H; [|split; by vm_compute].
    discriminate H.
Defined.

(** ** Grant levels *)

Definition subset (a b : Z) : bool := op_and a b =? a.

Definition union (l : list Z) : Z := foldr op_or NO_ACL l.

Lemma ALL_KNOWN_BITS_pow k : 0 <= k < 64 -> ALL_KNOWN_BITS (2 ^ k) = Z.ones (k + 1).
Proof.
  intros Hk. pose proof (Z.pow_pos_nonneg 2 k ltac:(lia) ltac:(lia)).
  assert (2 ^ k < 2 ^ 64) by (apply Z.pow_lt_mono_r; lia).
  unfold ALL_KNOWN_BITS. rewrite (wrap_small 64 (2 ^ k - 1)) by (unfold urange; lia).
  replace (2 ^ k - 1) with (Z.ones k) by (rewrite Z.ones_equiv; lia).
  apply Z.bits_inj'. intros n Hn. rewrite wrap_testbit, Z.lor_spec, Z.pow2_bits_eqb,
    !testbit_ones by lia.
  zcases; cbn; try done; lia.
Qed.

(** The enumerators are the 39 distinct single bits 0 to 38 in declaration
    order and [PRIVILEGE_T_MAX_BIT] is the last of them, as the static
    assertion demands; [ALL_KNOWN_BITS] of the privilege at any bit is the
    union of the privileges up to it, and [ALL_KNOWN_ACL] the union of all;
    the privilege sets of columns, tables, databases and routines lie inside
    one another up to [GLOBAL_ACLS], which holds every known privilege; the
    storage chunks partition the sets they store. *)
Theorem privilege_levels :
  privilege_t_enum = map (fun k => Z.shiftl 1 (Z.of_nat k)) (seq 0 39) /\
  Z.shiftl 1 PRIVILEGE_T_MAX_BIT = LAST_CURRENT_ACL /\
  (forall k, (k < 39)%nat ->
     ALL_KNOWN_BITS (Z.shiftl 1 (Z.of_nat k)) = union (take (S k) privilege_t_enum)) /\
  ALL_KNOWN_ACL = union privilege_t_enum /\
  subset COL_ACLS TABLE_ACLS && subset TABLE_ACLS DB_ACLS && subset DB_ACLS GLOBAL_ACLS &&
  subset PROC_ACLS DB_ACLS && subset TMP_TABLE_ACLS TABLE_ACLS &&
  subset SHOW_CREATE_TABLE_ACLS TABLE_ACLS = true /\
  GLOBAL_ACLS = ALL_KNOWN_ACL /\
  union [DB_CHUNK0; DB_CHUNK1; DB_CHUNK2; DB_CHUNK3; DB_CHUNK4; DB_CHUNK5; DB_CHUNK6]
    = DB_ACLS /\
  DB_CHUNK0 + DB_CHUNK1 + DB_CHUNK2 + DB_CHUNK3 + DB_CHUNK4 + DB_CHUNK5 + DB_CHUNK6
    = DB_ACLS /\
  TBL_CHUNK0 + TBL_CHUNK1 + TBL_CHUNK2 + TBL_CHUNK3 + TBL_CHUNK4 = TABLE_ACLS.
Proof.
  split; [reflexivity|]. split; [by vm_compute|]. split; [|by vm_compute].
  intros k Hk. rewrite Z.shiftl_1_l, ALL_KNOWN_BITS_pow by lia.
  do 39 (destruct k as [|k]; [by vm_compute|]). lia.
Qed.

(** ** Actions

    The sets of actions that the SUPER privilege covers and the remaining
    ones; an action is admitted when the user holds any privilege of its set. *)

Definition super_actions : list Z :=
  [PRIV_DEFINER_CLAUSE;
   PRIV_REVEAL_MISSING_DEFINER;
   PRIV_DES_DECRYPT_ONE_ARG;
   PRIV_LOG_BIN_TRUSTED_SP_CREATOR;
   PRIV_DEBUG;
   PRIV_SET_GLOBAL_SYSTEM_VARIABLE;
   PRIV_SET_RESTRICTED_SESSION_SYSTEM_VARIABLE;
   PRIV_SET_SYSTEM_VAR_BINLOG_FORMAT;
   PRIV_SET_SYSTEM_VAR_BINLOG_DIRECT_NON_TRANSACTIONAL_UPDATES;
   PRIV_SET_SYSTEM_VAR_BINLOG_ANNOTATE_ROW_EVENTS;
   PRIV_SET_SYSTEM_VAR_BINLOG_ROW_IMAGE;
   PRIV_SET_SYSTEM_VAR_SQL_LOG_BIN;
   PRIV_SET_SYSTEM_GLOBAL_VAR_BINLOG_CACHE_SIZE;
   PRIV_SET_SYSTEM_GLOBAL_VAR_BINLOG_FILE_CACHE_SIZE;
   PRIV_SET_SYSTEM_GLOBAL_VAR_BINLOG_STMT_CACHE_SIZE;
   PRIV_SET_SYSTEM_GLOBAL_VAR_BINLOG_COMMIT_WAIT_COUNT;
   PRIV_SET_SYSTEM_GLOBAL_VAR_BINLOG_COMMIT_WAIT_USEC;
   PRIV_SET_SYSTEM_GLOBAL_VAR_BINLOG_ROW_METADATA;
   PRIV_SET_SYSTEM_GLOBAL_VAR_EXPIRE_LOGS_DAYS;
   PRIV_SET_SYSTEM_GLOBAL_VAR_LOG_BIN_COMPRESS;
   PRIV_SET_SYSTEM_GLOBAL_VAR_LOG_BIN_COMPRESS_MIN_LEN;
   PRIV_SET_SYSTEM_GLOBAL_VAR_LOG_BIN_TRUST_FUNCTION_CREATORS;
   PRIV_SET_SYSTEM_GLOBAL_VAR_MAX_BINLOG_CACHE_SIZE;
   PRIV_SET_SYSTEM_GLOBAL_VAR_MAX_BINLOG_STMT_CACHE_SIZE;
   PRIV_SET_SYSTEM_GLOBAL_VAR_MAX_BINLOG_SIZE;
   PRIV_SET_SYSTEM_GLOBAL_VAR_SYNC_BINLOG;
   PRIV_IGNORE_READ_ONLY;
   PRIV_SET_SYSTEM_GLOBAL_VAR_READ_ONLY;
   PRIV_IGNORE_INIT_CONNECT;
   PRIV_IGNORE_MAX_USER_CONNECTIONS;
   PRIV_IGNORE_MAX_CONNECTIONS;
   PRIV_IGNORE_MAX_PASSWORD_ERRORS;
   PRIV_KILL_OTHER_USER_PROCESS;
   PRIV_SET_SYSTEM_GLOBAL_VAR_CONNECT_TIMEOUT;
   PRIV_SET_SYSTEM_GLOBAL_VAR_DISCONNECT_ON_EXPIRED_PASSWORD;
   PRIV_SET_SYSTEM_GLOBAL_VAR_EXTRA_MAX_CONNECTIONS;
   PRIV_SET_SYSTEM_GLOBAL_VAR_INIT_CONNECT;
   PRIV_SET_SYSTEM_GLOBAL_VAR_MAX_CONNECTIONS;
   PRIV_SET_SYSTEM_GLOBAL_VAR_MAX_CONNECT_ERRORS;
   PRIV_SET_SYSTEM_GLOBAL_VAR_MAX_PASSWORD_ERRORS;
   PRIV_SET_SYSTEM_GLOBAL_VAR_PROXY_PROTOCOL_NETWORKS;
   PRIV_SET_SYSTEM_GLOBAL_VAR_SECURE_AUTH;
   PRIV_SET_SYSTEM_GLOBAL_VAR_SLOW_LAUNCH_TIME;
   PRIV_SET_SYSTEM_GLOBAL_VAR_THREAD_POOL;
   PRIV_STMT_SHOW_BINLOG_STATUS;
   PRIV_STMT_SHOW_BINARY_LOGS;
   PRIV_STMT_PURGE_BINLOG;
   PRIV_SET_SYSTEM_GLOBAL_VAR_RPL_SEMI_SYNC_MASTER_ENABLED;
   PRIV_SET_SYSTEM_GLOBAL_VAR_RPL_SEMI_SYNC_MASTER_TIMEOUT;
   PRIV_SET_SYSTEM_GLOBAL_VAR_RPL_SEMI_SYNC_MASTER_WAIT_NO_SLAVE;
   PRIV_SET_SYSTEM_GLOBAL_VAR_RPL_SEMI_SYNC_MASTER_TRACE_LEVEL;
   PRIV_SET_SYSTEM_GLOBAL_VAR_RPL_SEMI_SYNC_MASTER_WAIT_POINT;
   PRIV_SET_SYSTEM_GLOBAL_VAR_MASTER_VERIFY_CHECKSUM;
   PRIV_SET_SYSTEM_GLOBAL_VAR_GTID_BINLOG_STATE;
   PRIV_SET_SYSTEM_GLOBAL_VAR_SERVER_ID;
   PRIV_SET_SYSTEM_GLOBAL_VAR_GTID_DOMAIN_ID;
   PRIV_STMT_START_SLAVE;
   PRIV_STMT_STOP_SLAVE;
   PRIV_STMT_CHANGE_MASTER;
   PRIV_STMT_SHOW_SLAVE_STATUS;
   PRIV_STMT_BINLOG;
   PRIV_SET_SYSTEM_SESSION_VAR_GTID_SEQ_NO;
   PRIV_SET_SYSTEM_SESSION_VAR_PSEUDO_THREAD_ID;
   PRIV_SET_SYSTEM_SESSION_VAR_SERVER_ID;
   PRIV_SET_SYSTEM_SESSION_VAR_GTID_DOMAIN_ID;
   PRIV_SET_SYSTEM_GLOBAL_VAR_REPLICATE_EVENTS_MARKED_FOR_SKIP;
   PRIV_SET_SYSTEM_GLOBAL_VAR_REPLICATE_DO_DB;
   PRIV_SET_SYSTEM_GLOBAL_VAR_REPLICATE_DO_TABLE;
   PRIV_SET_SYSTEM_GLOBAL_VAR_REPLICATE_IGNORE_DB;
   PRIV_SET_SYSTEM_GLOBAL_VAR_REPLICATE_IGNORE_TABLE;
   PRIV_SET_SYSTEM_GLOBAL_VAR_REPLICATE_WILD_DO_TABLE;
   PRIV_SET_SYSTEM_GLOBAL_VAR_REPLICATE_WILD_IGNORE_TABLE;
   PRIV_SET_SYSTEM_GLOBAL_VAR_READ_BINLOG_SPEED_LIMIT;
   PRIV_SET_SYSTEM_GLOBAL_VAR_SLAVE_COMPRESSED_PROTOCOL;
   PRIV_SET_SYSTEM_GLOBAL_VAR_SLAVE_DDL_EXEC_MODE;
   PRIV_SET_SYSTEM_GLOBAL_VAR_SLAVE_DOMAIN_PARALLEL_THREADS;
   PRIV_SET_SYSTEM_GLOBAL_VAR_SLAVE_EXEC_MODE;
   PRIV_SET_SYSTEM_GLOBAL_VAR_SLAVE_MAX_ALLOWED_PACKET;
   PRIV_SET_SYSTEM_GLOBAL_VAR_SLAVE_NET_TIMEOUT;
   PRIV_SET_SYSTEM_GLOBAL_VAR_SLAVE_PARALLEL_MAX_QUEUED;
   PRIV_SET_SYSTEM_GLOBAL_VAR_SLAVE_PARALLEL_MODE;
   PRIV_SET_SYSTEM_GLOBAL_VAR_SLAVE_PARALLEL_THREADS;
   PRIV_SET_SYSTEM_GLOBAL_VAR_SLAVE_PARALLEL_WORKERS;
   PRIV_SET_SYSTEM_GLOBAL_VAR_SLAVE_RUN_TRIGGERS_FOR_RBR;
   PRIV_SET_SYSTEM_GLOBAL_VAR_SLAVE_SQL_VERIFY_CHECKSUM;
   PRIV_SET_SYSTEM_GLOBAL_VAR_SLAVE_TRANSACTION_RETRY_INTERVAL;
   PRIV_SET_SYSTEM_GLOBAL_VAR_SLAVE_TYPE_CONVERSIONS;
   PRIV_SET_SYSTEM_GLOBAL_VAR_INIT_SLAVE;
   PRIV_SET_SYSTEM_GLOBAL_VAR_RPL_SEMI_SYNC_SLAVE_ENABLED;
   PRIV_SET_SYSTEM_GLOBAL_VAR_RPL_SEMI_SYNC_SLAVE_TRACE_LEVEL;
   PRIV_SET_SYSTEM_GLOBAL_VAR_RPL_SEMI_SYNC_SLAVE_DELAY_MASTER;
   PRIV_SET_SYSTEM_GLOBAL_VAR_RPL_SEMI_SYNC_SLAVE_KILL_CONN_TIMEOUT;
   PRIV_SET_SYSTEM_GLOBAL_VAR_RELAY_LOG_PURGE;
   PRIV_SET_SYSTEM_GLOBAL_VAR_RELAY_LOG_RECOVERY;
   PRIV_SET_SYSTEM_GLOBAL_VAR_SYNC_MASTER_INFO;
   PRIV_SET_SYSTEM_GLOBAL_VAR_SYNC_RELAY_LOG;
   PRIV_SET_SYSTEM_GLOBAL_VAR_SYNC_RELAY_LOG_INFO;
   PRIV_SET_SYSTEM_GLOBAL_VAR_GTID_CLEANUP_BATCH_SIZE;
   PRIV_SET_SYSTEM_GLOBAL_VAR_GTID_IGNORE_DUPLICATES;
   PRIV_SET_SYSTEM_GLOBAL_VAR_GTID_POS_AUTO_ENGINES;
   PRIV_SET_SYSTEM_GLOBAL_VAR_GTID_SLAVE_POS;
   PRIV_SET_SYSTEM_GLOBAL_VAR_GTID_STRICT_MODE;
   PRIV_STMT_CREATE_SERVER;
   PRIV_STMT_ALTER_SERVER;
   PRIV_STMT_DROP_SERVER].

Definition other_actions : list Z :=
  [PRIV_STMT_SHOW_BINLOG_EVENTS;
   PRIV_COM_REGISTER_SLAVE;
   PRIV_COM_BINLOG_DUMP;
   PRIV_STMT_SHOW_SLAVE_HOSTS;
   PRIV_STMT_SHOW_RELAYLOG_EVENTS;
   PRIV_COM_PROCESS_INFO;
   PRIV_STMT_SHOW_EXPLAIN;
   PRIV_STMT_SHOW_ENGINE_STATUS;
   PRIV_STMT_SHOW_ENGINE_MUTEX;
   PRIV_STMT_SHOW_PROCESSLIST].

Definition admits (access p : Z) : bool := negb (op_and access p =? NO_ACL).

Lemma admits_mono a b p : subset a b = true -> admits a p = true -> admits b p = true.
Proof.
  unfold subset, admits, op_and, NO_ACL. rewrite Z.eqb_eq, !negb_true_iff, !Z.eqb_neq.
  intros Hs Ha Hb. apply Ha. rewrite <- Hs, <- Z.land_assoc, Hb. apply Z.land_0_r.
Qed.

(** A user that holds SUPER is admitted to every action whose set names
    SUPER; every such set is SUPER with at most one replacement privilege, and
    the other sets are one privilege each and never SUPER, so SUPER alone does
    not admit them; and once SUPER is withdrawn, the privileges that the
    upgrade of an old user table adds keep admitting exactly the actions whose
    replacement is one of them, which leaves out the five SUPER-only actions
    and the actions replaced by [REPL_MASTER_ADMIN_ACL], [BINLOG_MONITOR_ACL]
    and [SLAVE_MONITOR_ACL]. *)
Theorem super_admits_actions (access p : Z) :
  subset SUPER_ACL access = true -> In p super_actions ->
  admits access p = true /\
  (p = SUPER_ACL \/ exists r, In r privilege_t_enum /\ p = op_or SUPER_ACL r) /\
  forallb (fun q => existsb (Z.eqb q) privilege_t_enum && negb (admits SUPER_ACL q))
    other_actions = true /\
  admits GLOBAL_SUPER_ADDED_SINCE_USER_TABLE_ACLS p =
  negb (existsb (Z.eqb p)
    [SUPER_ACL; op_or SUPER_ACL REPL_MASTER_ADMIN_ACL;
     op_or SUPER_ACL BINLOG_MONITOR_ACL; op_or SUPER_ACL SLAVE_MONITOR_ACL]).
Proof.
  intros Hs Hp. split; [|split; [|split]].
  - apply (admits_mono SUPER_ACL); [done|].
    revert p Hp. apply forallb_forall. by vm_compute.
  - assert (forallb (fun q => (q =? SUPER_ACL) ||
      existsb (fun r => q =? op_or SUPER_ACL r) privilege_t_enum) super_actions = true)
      as Hall by (by vm_compute).
    rewrite forallb_forall in Hall. specialize (Hall p Hp).
    apply orb_true_iff in Hall as [H%Z.eqb_eq|H]; [by left|right].
    apply existsb_exists in H as (r & Hr & ->%Z.eqb_eq). by exists r.
  - by vm_compute.
  - apply eqb_prop. revert p Hp. apply forallb_forall. by vm_compute.
Qed.

Lemma super_admits_actions_witness :
  admits (op_or SUPER_ACL SELECT_ACL) PRIV_KILL_OTHER_USER_PROCESS = true.
Proof.
  apply (super_admits_actions (op_or SUPER_ACL SELECT_ACL) PRIV_KILL_OTHER_USER_PROCESS); [reflexivity|].
  unfold super_actions. repeat (first [left; reflexivity | right]).
Defined.

End Privilege.
