(* ===== verification/SelectLimit.v ===== *)
(** * [sql_limit.h]: LIMIT and OFFSET counters of a select

    [Select_limit_counters] keeps the number of rows to skip and the number of
    rows after which to stop, both counted from the first row produced, as
    unsigned integers of the width of [ha_rows].  The theorem relates the
    counters to the window of rows they let through, on every operation,
    including the case where LIMIT + OFFSET leaves the integer range. *)

From Stdlib Require Import ZArith Lia.
From stdpp Require Import prelude list_numbers.
From S2P Require Import Prelude.

Local Open Scope Z_scope.

Module SelectLimit.

Record counters : Type := Counters {
  select_limit_cnt : Z;
  offset_limit_cnt : Z;
  with_ties : bool;
}.

Section Counters.

(** The width of [ha_rows]: 64 bits with [BIG_TABLES], else that of [ulong]. *)
Variable ha_rows_bits : Z.
Local Notation ha_rows z := (wrap ha_rows_bits z).

Definition HA_POS_ERROR : Z := ha_rows (Z.lnot 0).

Definition construct : counters := Counters 0 0 false.

Definition copy (orig : counters) : counters :=
  Counters (select_limit_cnt orig) (offset_limit_cnt orig) (with_ties orig).

Definition set_limit (this : counters) (limit offset : Z) (with_ties_arg : bool) : counters :=
  let offset := if limit =? 0 then 0 else offset in
  let offset_limit_cnt := offset in
  let select_limit_cnt := limit in
  if select_limit_cnt <=? ha_rows (select_limit_cnt + offset_limit_cnt)
  then Counters (ha_rows (select_limit_cnt + offset_limit_cnt)) offset_limit_cnt with_ties_arg
  else Counters HA_POS_ERROR offset_limit_cnt with_ties_arg.

Definition set_single_row (this : counters) : counters := Counters 1 0 false.

Definition is_unlimited (this : counters) : bool := select_limit_cnt this =? HA_POS_ERROR.

Definition set_unlimited (this : counters) : counters :=
  Counters HA_POS_ERROR (offset_limit_cnt this) (with_ties this).

Definition clear (this : counters) : counters := Counters HA_POS_ERROR 0 false.

Definition check_offset (this : counters) (sent : Z) : bool := sent <? offset_limit_cnt this.

Definition remove_offset (this : counters) : counters :=
  Counters (select_limit_cnt this) 0 (with_ties this).

Definition get_select_limit (this : counters) : Z := select_limit_cnt this.
Definition get_offset_limit (this : counters) : Z := offset_limit_cnt this.
Definition is_with_ties (this : counters) : bool := with_ties this.

(** ** The rows the counters let through

    A scan numbers the rows it produces from 0; it stops at
    [get_select_limit] and does not send a row for which [check_offset]
    holds. *)

Fixpoint scan {A} (this : counters) (k : Z) (rows : list A) : list A :=
  match rows with
  | [] => []
  | r :: rows =>
      if k <? get_select_limit this
      then (if check_offset this k then [] else [r]) ++ scan this (k + 1) rows
      else []
  end.

Definition window {A} (this : counters) (rows : list A) : list A := scan this 0 rows.

Definition ha_row (z : Z) : Prop := urange ha_rows_bits z.

Lemma HA_POS_ERROR_max : 0 < ha_rows_bits -> HA_POS_ERROR = 2 ^ ha_rows_bits - 1.
Proof.
  intros Hw. unfold HA_POS_ERROR, wrap. change (Z.lnot 0) with (-1).
  pose proof (Z.pow_pos_nonneg 2 ha_rows_bits ltac:(lia) ltac:(lia)).
  symmetry. apply (Z.mod_unique _ _ (-1)); lia.
Qed.

Lemma scan_window {A} (this : counters) (rows : list A) k :
  0 <= k ->
  scan this k rows =
  drop (Z.to_nat (get_offset_limit this - k)) (take (Z.to_nat (get_select_limit this - k)) rows).
Proof.
  revert k. induction rows as [|r rows IH]; intros k Hk; cbn [scan].
  - by rewrite take_nil, drop_nil.
  - unfold check_offset. fold (get_offset_limit this).
    destruct (Z.ltb_spec k (get_select_limit this)).
    + rewrite (IH (k + 1)) by lia.
      replace (Z.to_nat (get_select_limit this - k))
        with (S (Z.to_nat (get_select_limit this - (k + 1)))) by lia.
      cbn [take]. destruct (Z.ltb_spec k (get_offset_limit this)).
      * by replace (Z.to_nat (get_offset_limit this - k))
          with (S (Z.to_nat (get_offset_limit this - (k + 1)))) by lia.
      * replace (Z.to_nat (get_offset_limit this - k)) with O by lia.
        replace (Z.to_nat (get_offset_limit this - (k + 1))) with O by lia. done.
    + replace (Z.to_nat (get_select_limit this - k)) with O by lia.
      cbn [take]. by rewrite drop_nil.
Qed.

Lemma window_eq {A} (this : counters) (rows : list A) :
  window this rows =
  drop (Z.to_nat (get_offset_limit this)) (take (Z.to_nat (get_select_limit this)) rows).
Proof. unfold window. rewrite scan_window by lia. by rewrite !Z.sub_0_r. Qed.

(** The sum test detects exactly the sums that leave the range. *)
Lemma sum_wraps a b :
  0 < ha_rows_bits -> ha_row a -> ha_row b ->
  (a <=? ha_rows (a + b)) = (a + b <? 2 ^ ha_rows_bits).
Proof.
  intros Hw [Ha1 Ha2] [Hb1 Hb2]. unfold wrap.
  destruct (Z.ltb_spec (a + b) (2 ^ ha_rows_bits)).
  - rewrite Z.mod_small by lia. apply Z.leb_le. lia.
  - replace ((a + b) mod 2 ^ ha_rows_bits) with (a + b - 2 ^ ha_rows_bits).
    + apply Z.leb_gt. lia.
    + apply (Z.mod_unique _ _ 1); lia.
Qed.

Definition wf (c : counters) : Prop := ha_row (select_limit_cnt c) /\ ha_row (offset_limit_cnt c).

Lemma set_limit_window {A} (this : counters) limit offset ties (rows : list A) :
  0 < ha_rows_bits -> ha_row limit -> ha_row offset ->
  Z.of_nat (length rows) <= HA_POS_ERROR ->
  window (set_limit this limit offset ties) rows =
  take (Z.to_nat limit) (drop (Z.to_nat offset) rows).
Proof.
  intros Hw Hl Ho Hn. rewrite HA_POS_ERROR_max in Hn by done. rewrite window_eq.
  unfold set_limit. destruct (Z.eqb_spec limit 0) as [->|Hl0].
  - rewrite sum_wraps by (done || unfold ha_row, urange; lia).
    destruct (Z.ltb_spec (0 + 0) (2 ^ ha_rows_bits)); [|destruct Hl; lia].
    cbn [get_select_limit get_offset_limit select_limit_cnt offset_limit_cnt].
    rewrite wrap_small by done. done.
  - rewrite sum_wraps by done. destruct (Z.ltb_spec (limit + offset) (2 ^ ha_rows_bits));
      cbn [get_select_limit get_offset_limit select_limit_cnt offset_limit_cnt].
    + destruct Hl, Ho. rewrite wrap_small by (unfold urange; lia).
      rewrite take_drop_commute. do 2 f_equal. lia.
    + rewrite HA_POS_ERROR_max by done. destruct Hl, Ho.
      rewrite !take_ge; [done|rewrite length_drop; lia|lia].
Qed.

Lemma set_limit_wf this limit offset ties :
  0 < ha_rows_bits -> ha_row limit -> ha_row offset -> wf (set_limit this limit offset ties).
Proof.
  intros Hw Hl Ho.
  assert (ha_row (if limit =? 0 then 0 else offset)) as Ho'.
  { destruct (limit =? 0); [|done]. unfold ha_row, urange in *. lia. }
  unfold set_limit. set (o := if limit =? 0 then 0 else offset) in *.
  destruct (limit <=? _); split; cbn; try done; apply wrap_range; lia.
Qed.

(** After [set_limit] the counters let through exactly the rows of
    [LIMIT limit OFFSET offset], that is the first [limit] rows after the first
    [offset], for every limit and offset of the type and every result smaller
    than its largest value, also when the sum overflows; [set_single_row] lets
    the first row through, [clear] every row, [set_unlimited] every row after
    the offset and [remove_offset] every row before the stopping point; and
    every operation keeps the counters inside the type. *)
Theorem limit_window {A} (this : counters) (limit offset : Z) (ties : bool) (rows : list A) :
  0 < ha_rows_bits -> wf this -> ha_row limit -> ha_row offset ->
  Z.of_nat (length rows) <= HA_POS_ERROR ->
  window (set_limit this limit offset ties) rows =
    take (Z.to_nat limit) (drop (Z.to_nat offset) rows) /\
  window (set_single_row this) rows = take 1 rows /\
  window (clear this) rows = rows /\
  window (set_unlimited this) rows = drop (Z.to_nat (get_offset_limit this)) rows /\
  window (remove_offset this) rows = take (Z.to_nat (get_select_limit this)) rows /\
  is_unlimited (clear this) && is_unlimited (set_unlimited this) = true /\
  Forall wf [set_limit this limit offset ties; set_single_row this; clear this;
             set_unlimited this; remove_offset this; copy this; construct].
Proof.
  intros Hw Hthis Hl Ho Hn. split; [by apply set_limit_window|].
  pose proof (HA_POS_ERROR_max Hw) as HP.
  rewrite !window_eq. cbn -[Z.to_nat HA_POS_ERROR].
  rewrite (take_ge rows (Z.to_nat HA_POS_ERROR)) by lia.
  unfold is_unlimited. cbn [select_limit_cnt clear set_unlimited].
  rewrite Z.eqb_refl. repeat (split; [done|]).
  pose proof (Z.pow_le_mono_r 2 1 ha_rows_bits ltac:(lia) ltac:(lia)) as H2.
  assert (ha_row 0 /\ ha_row 1 /\ ha_row HA_POS_ERROR) as (? & ? & ?)
    by (unfold ha_row, urange; lia).
  destruct Hthis. repeat (apply Forall_cons_2; [by apply set_limit_wf || by split|]).
  by apply Forall_nil_2.
Qed.

End Counters.

Lemma limit_window_witness :
  window (set_limit 64 (construct) 2 1 false) [10; 20; 30; 40] = [20; 30] /\
  window (set_limit 64 (construct) (2 ^ 64 - 1) 3 false) [10; 20; 30; 40] = [40].
Proof.
  split.
  - apply (limit_window 64 construct 2 1 false [10; 20; 30; 40]);
      (lia || (repeat split; by vm_compute) || by vm_compute).
  - apply (limit_window 64 construct (2 ^ 64 - 1) 3 false [10; 20; 30; 40]);
      (lia || (repeat split; by vm_compute) || by vm_compute).
Defined.

End SelectLimit.
