(* ===== verification/Views.v ===== *)
(** * [span.h] and [Bounds_checked_array] of [sql_array.h]: views of arrays

    Both classes are a pointer to the first element and a number of elements
    of an array somebody else owns.  Memory is a function from element
    addresses; a reference is the address it refers to; a member function that
    asserts returns [None] when its assertion fails.  [View] is the interface
    both classes satisfy: the elements a view denotes depend on its data
    pointer and size only. *)

From Stdlib Require Import ZArith Lia.
From stdpp Require Import prelude list_numbers.
From S2P Require Import Prelude.

Local Open Scope Z_scope.
Local Open Scope cint_scope.

Module Views.

Definition NULL : Z := 0.

(** ** [st_::span] *)

Record span : Type := Span { data_ : Z; size_ : Z }.

Module Sp.

Definition construct : span := Span NULL 0.
Definition construct_count (ptr count : Z) : span := Span ptr count.
Definition construct_range (first last : Z) : span := Span first (u64 (last - first)).
Definition construct_array (arr N : Z) : span := Span arr N.
Definition copy (other : span) : span := Span (data_ other) (size_ other).

Definition size (this : span) : Z := size_ this.
Definition data (this : span) : Z := data_ this.

Definition assign (this other : span) : span := Span (data other) (size other).
Definition size_bytes (sizeof : Z) (this : span) : Z := u64 (size this * sizeof).
Definition empty (this : span) : bool := size this =? 0.

(** [first<Count>()] and [last<Count>()] have the bodies of the overloads that
    take the count as an argument. *)
Definition first_static (Count : Z) (this : span) : option span :=
  if negb (empty this) then Some (Span (data this) 1) else None.
Definition last_static (Count : Z) (this : span) : option span :=
  if negb (empty this) then Some (Span (data this + size this - 1) 1) else None.
Definition first (this : span) (count : Z) : option span :=
  if negb (empty this) then Some (Span (data this) 1) else None.
Definition last (this : span) (count : Z) : option span :=
  if negb (empty this) then Some (Span (data this + size this - 1) 1) else None.

Definition subspan (this : span) (offset count : Z) : option span :=
  if negb (empty this)
  then if u64 (offset + count) <=? size this
       then Some (Span (data this + offset) count)
       else None
  else None.

Definition index (this : span) (idx : Z) : option Z :=
  if idx <? size this then Some (data this + idx) else None.
Definition front (this : span) : option Z :=
  if negb (empty this) then Some (data this + 0) else None.
Definition back (this : span) : option Z :=
  if negb (empty this) then Some (data this + (size this - 1)) else None.

Definition begin (this : span) : Z := data_ this.
Definition end_ (this : span) : Z := data_ this + size_ this.

(** A [std::reverse_iterator] holds the address after the element it refers
    to; incrementing moves it down. *)
Definition rbegin (this : span) : Z := end_ this.
Definition rend (this : span) : Z := begin this.

End Sp.

(** ** [Bounds_checked_array] *)

Record bca : Type := Bca { m_array : Z; m_size : Z }.

Module Bc.

Definition construct : bca := Bca NULL 0.
Definition construct_el (el size_arg : Z) : bca := Bca el size_arg.
Definition reset (this : bca) : bca := Bca NULL 0.
Definition reset_to (this : bca) (array_arg size_arg : Z) : bca := Bca array_arg size_arg.

Definition resize (this : bca) (new_size : Z) : option bca :=
  if new_size <=? m_size this then Some (Bca (m_array this) new_size) else None.

Definition index (this : bca) (n : Z) : option Z :=
  if n <? m_size this then Some (m_array this + n) else None.

Definition size (this : bca) : Z := m_size this.
Definition is_null (this : bca) : bool := m_array this =? NULL.

Definition pop_front (this : bca) : option bca :=
  if 0 <? m_size this
  then Some (Bca (m_array this + 1) (u64 (m_size this - 1)))
  else None.

Definition array (this : bca) : Z := m_array this.
Definition begin (this : bca) : Z := array this.
Definition end_ (this : bca) : Z := array this + m_size this.

Definition op_eq (this rhs : bca) : bool :=
  (m_array this =? m_array rhs) && (m_size this =? m_size rhs).
Definition op_ne (this rhs : bca) : bool :=
  negb (m_array this =? m_array rhs) || negb (m_size this =? m_size rhs).

End Bc.

(** ** The interface *)

Class View (V : Type) := {
  vdata : V -> Z;
  vsize : V -> Z;
}.

#[export] Instance span_view : View span := { vdata := Sp.data; vsize := Sp.size }.
#[export] Instance bca_view : View bca := { vdata := Bc.array; vsize := Bc.size }.

Section Elems.

Context `{VV : View V} {A : Type}.
Implicit Types (heap : Z -> A) (v : V).

Definition valid (v : V) : Prop := urange 64 (vsize v).

Definition elems (heap : Z -> A) (v : V) : list A := heap <$> seqZ (vdata v) (vsize v).

(** Walking an iterator pair, upwards and, for reverse iterators, downwards. *)
Fixpoint walk (n : nat) (heap : Z -> A) (first last : Z) : list A :=
  match n with
  | O => []
  | S n => if first =? last then [] else heap first :: walk n heap (first + 1) last
  end.

Fixpoint rwalk (n : nat) (heap : Z -> A) (first last : Z) : list A :=
  match n with
  | O => []
  | S n => if first =? last then [] else heap (first - 1) :: rwalk n heap (first - 1) last
  end.

Lemma elems_length heap v : length (elems heap v) = Z.to_nat (vsize v).
Proof. unfold elems. by rewrite length_fmap, length_seqZ. Qed.

Lemma elems_lookup heap v i :
  0 <= i < vsize v -> elems heap v !! Z.to_nat i = Some (heap (vdata v + i)).
Proof.
  intros Hi. unfold elems. rewrite list_lookup_fmap, lookup_seqZ_lt by lia.
  cbn. do 2 f_equal. lia.
Qed.

Lemma elems_take_drop heap v data n :
  0 <= n -> vdata v <= data -> data + n <= vdata v + vsize v ->
  heap <$> seqZ data n =
  take (Z.to_nat n) (drop (Z.to_nat (data - vdata v)) (elems heap v)).
Proof.
  intros Hn H1 H2. unfold elems.
  replace (vsize v) with ((data - vdata v) + (n + (vdata v + vsize v - data - n))) by lia.
  rewrite !seqZ_app, !fmap_app by lia. rewrite drop_app_length', take_app_length';
    rewrite ?length_fmap, ?length_seqZ; try done.
  do 2 f_equal. lia.
Qed.

Lemma walk_elems heap v : valid v ->
  walk (Z.to_nat (vsize v)) heap (vdata v) (vdata v + vsize v) = elems heap v.
Proof.
  intros [Hv _]. unfold elems. rewrite <- (Z2Nat.id (vsize v)) at 2 3 by done.
  generalize (Z.to_nat (vsize v)) as n, (vdata v) as a. clear.
  induction n as [|n IH]; intros a; [done|]. cbn [walk].
  destruct (Z.eqb_spec a (a + Z.of_nat (S n))); [lia|].
  rewrite seqZ_cons by lia. rewrite fmap_cons. f_equal.
  replace (Z.pred (Z.of_nat (S n))) with (Z.of_nat n) by lia. rewrite <- IH.
  f_equal; lia.
Qed.

Lemma rwalk_elems heap v : valid v ->
  rwalk (Z.to_nat (vsize v)) heap (vdata v + vsize v) (vdata v) = rev (elems heap v).
Proof.
  intros [Hv _]. unfold elems. rewrite <- (Z2Nat.id (vsize v)) at 2 3 by done.
  generalize (Z.to_nat (vsize v)) as n, (vdata v) as a. clear.
  induction n as [|n IH]; intros a; [done|]. cbn [rwalk].
  destruct (Z.eqb_spec (a + Z.of_nat (S n)) a); [lia|].
  replace (Z.of_nat (S n)) with (Z.of_nat n + 1) by lia.
  rewrite seqZ_app, fmap_app, rev_app_distr by lia. cbn.
  replace (a + (Z.of_nat n + 1) - 1) with (a + Z.of_nat n) by lia. by rewrite IH.
Qed.

Lemma elems_update heap v i x :
  0 <= i < vsize v ->
  elems (fun a => if a =? vdata v + i then x else heap a) v =
  <[Z.to_nat i := x]> (elems heap v).
Proof.
  intros Hi. apply list_eq. intros k.
  destruct (decide (k < Z.to_nat (vsize v))%nat) as [Hk|Hk].
  - rewrite <- (Nat2Z.id k), elems_lookup by lia.
    destruct (Z.eqb_spec (vdata v + Z.of_nat k) (vdata v + i)).
    + replace (Z.of_nat k) with i by lia. rewrite list_lookup_insert_eq; [done|].
      rewrite elems_length. lia.
    + rewrite list_lookup_insert_ne, elems_lookup by lia. done.
  - rewrite !lookup_ge_None_2; rewrite ?length_insert, ?elems_length; done || lia.
Qed.

End Elems.

(** ** [span] *)

(** On a span of any size, [operator[]] refers to the element of that index
    exactly when the index is inside and asserts otherwise; [front] and [back]
    refer to the first and the last element and assert on an empty span; the
    iterators walk the elements in order and the reverse iterators in reverse
    order; and writing through a reference changes that element only. *)
Theorem span_access {A} (heap : Z -> A) (s : span) :
  valid s ->
  (forall idx, 0 <= idx ->
     heap <$> Sp.index s idx = elems heap s !! Z.to_nat idx) /\
  heap <$> Sp.front s = head (elems heap s) /\
  heap <$> Sp.back s = list.last (elems heap s) /\
  walk (Z.to_nat (Sp.size s)) heap (Sp.begin s) (Sp.end_ s) = elems heap s /\
  rwalk (Z.to_nat (Sp.size s)) heap (Sp.rbegin s) (Sp.rend s) = rev (elems heap s) /\
  (forall idx r x, 0 <= idx -> Sp.index s idx = Some r ->
     elems (fun a => if a =? r then x else heap a) s = <[Z.to_nat idx := x]> (elems heap s)).
Proof.
  intros Hv. pose proof Hv as [Hs _]. cbn in Hs.
  assert (forall idx, 0 <= idx -> heap <$> Sp.index s idx = elems heap s !! Z.to_nat idx)
    as Hidx.
  { intros idx Hi. unfold Sp.index. destruct (Z.ltb_spec idx (Sp.size s)).
    - by rewrite elems_lookup by (cbn; lia).
    - symmetry. apply lookup_ge_None_2. rewrite elems_length. cbn. lia. }
  split; [done|]. split; [|split; [|split; [exact (walk_elems heap s Hv)|]]].
  - rewrite head_lookup. change O with (Z.to_nat 0). rewrite <- (Hidx 0) by done.
    unfold Sp.front, Sp.index, Sp.empty.
    by destruct (Z.eqb_spec (Sp.size s) 0), (Z.ltb_spec 0 (Sp.size s)); try lia.
  - rewrite last_lookup, elems_length. unfold Sp.back, Sp.empty.
    destruct (Z.eqb_spec (Sp.size s) 0) as [E|].
    + symmetry. apply lookup_ge_None_2. rewrite elems_length. cbn. lia.
    + replace (Nat.pred (Z.to_nat (vsize s))) with (Z.to_nat (Sp.size s - 1)) by (cbn; lia).
      rewrite elems_lookup by (cbn; lia). done.
  - split; [exact (rwalk_elems heap s Hv)|]. intros idx r x Hi. unfold Sp.index.
    destruct (Z.ltb_spec idx (Sp.size s)); [|done]. intros [= <-].
    exact (elems_update heap s idx x (conj Hi H)).
Qed.

Lemma span_access_witness :
  walk 3 (fun a => a * a) (Sp.begin (Span 10 3)) (Sp.end_ (Span 10 3)) = [100; 121; 144].
Proof. apply (span_access (fun a => a * a) (Span 10 3)). split; by vm_compute. Defined.

(** When the end of the requested range does not overflow, [subspan] of a
    non-empty span gives the elements from the offset on exactly when the range
    lies inside, and asserts otherwise. *)
Theorem subspan_elems {A} (heap : Z -> A) (s : span) (offset count : Z) :
  valid s -> Sp.empty s = false -> 0 <= offset -> 0 <= count -> offset + count < 2 ^ 64 ->
  (forall s', Sp.subspan s offset count = Some s' ->
     elems heap s' = take (Z.to_nat count) (drop (Z.to_nat offset) (elems heap s)) /\
     length (elems heap s') = Z.to_nat count) /\
  (Sp.subspan s offset count = None <->
   (length (elems heap s) < Z.to_nat (offset + count))%nat).
Proof.
  intros [Hs _] He Ho Hc Hw. cbn in Hs. rewrite elems_length. cbn [vsize span_view].
  unfold Sp.subspan. rewrite He, u64_small by lia. cbn [negb].
  destruct (Z.leb_spec (offset + count) (Sp.size s)).
  - split; [|split; [done|lia]]. intros s' [= <-]. rewrite elems_length. split; [|done].
    unfold elems at 1. cbn [vdata vsize span_view Sp.data Sp.size data_ size_].
    rewrite (elems_take_drop heap s) by (cbn; unfold Sp.size, Sp.data in *; lia).
    do 2 f_equal. cbn. unfold Sp.data. lia.
  - split; [done|]. split; [lia|done].
Qed.

Lemma subspan_elems_witness :
  (exists s', Sp.subspan (Span 10 5) 1 2 = Some s' /\ elems (fun a => a) s' = [11; 12]) /\
  Sp.subspan (Span 10 5) 4 2 = None.
Proof.
  split.
  - exists (Span 11 2). split; [reflexivity|].
    apply (subspan_elems (fun a => a) (Span 10 5) 1 2);
      (lia || reflexivity || (split; by vm_compute) || (vm_compute; lia)).
  - apply (subspan_elems (fun a => a) (Span 10 5) 4 2);
      (lia || reflexivity || (split; by vm_compute) || (vm_compute; lia)).
Defined.

(** [first] and [last], with the count as template argument or as function
    argument, return the first or the last single element of a non-empty span
    whatever the count; and [subspan]'s bound check can be passed by an offset
    far outside the span when offset and count overflow together. *)
Theorem span_counts_ignored {A} (heap : Z -> A) (s : span) (count : Z) :
  valid s -> Sp.empty s = false ->
  (exists s1 s2, Sp.first s count = Some s1 /\ Sp.first_static count s = Some s1 /\
     Sp.last s count = Some s2 /\ Sp.last_static count s = Some s2 /\
     elems heap s1 = take 1 (elems heap s) /\
     elems heap s2 = drop (length (elems heap s) - 1) (elems heap s)) /\
  Sp.subspan s (2 ^ 64 - 1) 1 = Some (Span (Sp.data s + (2 ^ 64 - 1)) 1).
Proof.
  intros [Hs Hw] He. cbn in Hs, Hw. unfold Sp.first, Sp.first_static, Sp.last, Sp.last_static,
    Sp.subspan. rewrite He. cbn [negb]. unfold Sp.empty in He. apply Z.eqb_neq in He. split.
  - eexists _, _. do 4 (split; [reflexivity|]). split.
    + unfold elems at 1. cbn [vdata vsize span_view Sp.data Sp.size data_ size_].
      rewrite (elems_take_drop heap s) by (cbn; unfold Sp.size, Sp.data in *; lia).
      replace (Z.to_nat (_ - _)) with O by (cbn; unfold Sp.data; lia). done.
    + unfold elems at 1. cbn [vdata vsize span_view Sp.data Sp.size data_ size_].
      rewrite (elems_take_drop heap s) by (cbn; unfold Sp.size, Sp.data in *; lia).
      rewrite elems_length. rewrite take_ge by (rewrite length_drop, elems_length;
        cbn; unfold Sp.size, Sp.data in *; lia).
      f_equal. cbn. unfold Sp.size, Sp.data in *. lia.
  - change (u64 (2 ^ 64 - 1 + 1)) with 0. by destruct (Z.leb_spec 0 (Sp.size s)); [|lia].
Qed.

Lemma span_counts_ignored_witness :
  exists s1, Sp.first (Span 10 5) 3 = Some s1 /\ elems (fun a => a) s1 = [10].
Proof.
  destruct (span_counts_ignored (fun a => a) (Span 10 5) 3) as ((s1 & _ & H1 & _ & _ & _ & H2 & _) & _);
    [split; by vm_compute|reflexivity|].
  exists s1. by split.
Defined.

(** ** [Bounds_checked_array] *)

Inductive command : Type :=
| Resize (new_size : Z)
| PopFront
| Reset
| ResetTo (array_arg size_arg : Z).

Definition exec (this : bca) (c : command) : option bca :=
  match c with
  | Resize n => Bc.resize this n
  | PopFront => Bc.pop_front this
  | Reset => Some (Bc.reset this)
  | ResetTo a n => Some (Bc.reset_to this a n)
  end.

Fixpoint run (this : bca) (cs : list command) : option bca :=
  match cs with
  | [] => Some this
  | c :: cs => this' ← exec this c; run this' cs
  end.

Definition command_ok (c : command) : Prop :=
  match c with
  | Resize n => 0 <= n
  | PopFront | Reset => True
  | ResetTo _ n => urange 64 n
  end.

(** The list of elements a sequence of commands leaves, [None] when one of them
    asserts. *)
Definition spec_exec {A} (heap : Z -> A) (l : list A) (c : command) : option (list A) :=
  match c with
  | Resize n => if Z.of_nat (length l) <? n then None else Some (take (Z.to_nat n) l)
  | PopFront => match l with [] => None | _ :: l => Some l end
  | Reset => Some []
  | ResetTo a n => Some (heap <$> seqZ a n)
  end.

Fixpoint spec_run {A} (heap : Z -> A) (l : list A) (cs : list command) : option (list A) :=
  match cs with
  | [] => Some l
  | c :: cs => l' ← spec_exec heap l c; spec_run heap l' cs
  end.

Lemma exec_refines {A} (heap : Z -> A) (this : bca) c :
  valid this -> command_ok c ->
  match exec this c with
  | Some this' => valid this' /\ spec_exec heap (elems heap this) c = Some (elems heap this')
  | None => spec_exec heap (elems heap this) c = None
  end.
Proof.
  destruct this as [a n]. intros [Hn Hw] Hc. cbn in Hn, Hw.
  pose proof (elems_length heap (Bca a n)) as Hlen. cbn in Hlen.
  destruct c as [k| | |b k]; cbn [exec spec_exec command_ok] in *.
  - unfold Bc.resize. cbn [m_size m_array]. rewrite Hlen, Z2Nat.id by done.
    destruct (Z.leb_spec k n), (Z.ltb_spec n k); try lia; [|done].
    split; [split; cbn; lia|]. f_equal.
    pose proof (elems_take_drop heap (Bca a n) a k) as Ht. cbn in Ht.
    unfold elems at 2. cbn. rewrite Ht, Z.sub_diag by lia. done.
  - unfold Bc.pop_front. cbn [m_size m_array].
    destruct (Z.ltb_spec 0 n).
    + rewrite u64_small by lia. split; [split; cbn; lia|].
      unfold elems. cbn. rewrite seqZ_cons by lia. done.
    + assert (n = 0) as -> by lia. done.
  - split; [by vm_compute|done].
  - split; [done|done].
Qed.

(** Any sequence of resizes, pops and resets of a [Bounds_checked_array]
    asserts exactly when the sequence on its list of elements has no result,
    and otherwise denotes that result; and indexing the array refers to the
    element exactly when the index is inside. *)
Theorem bca_refines {A} (heap : Z -> A) (this : bca) (cs : list command) :
  valid this -> Forall command_ok cs ->
  (elems heap <$> run this cs) = spec_run heap (elems heap this) cs /\
  (forall this', run this cs = Some this' -> valid this' /\
     forall n, 0 <= n -> heap <$> Bc.index this' n = elems heap this' !! Z.to_nat n).
Proof.
  intros Hv Hcs. revert this Hv. induction Hcs as [|c cs Hc _ IH]; intros this Hv.
  - split; [done|]. intros this' [= <-]. split; [done|]. intros n Hn. unfold Bc.index.
    destruct (Z.ltb_spec n (m_size this)).
    + rewrite elems_lookup by done. done.
    + symmetry. apply lookup_ge_None_2. rewrite elems_length. cbn. unfold Bc.size. lia.
  - cbn [run spec_run]. pose proof (exec_refines heap this c Hv Hc) as He.
    destruct (exec this c) as [t|]; [|by rewrite He].
    destruct He as [Ht ->]. cbn. by apply IH.
Qed.

Lemma bca_refines_witness :
  (elems (fun a => a) <$> run (Bca 50 4) [PopFront; Resize 2]) = Some [51; 52].
Proof.
  apply (bca_refines (fun a => a) (Bca 50 4) [PopFront; Resize 2]).
  - split; by vm_compute.
  - repeat constructor; by vm_compute.
Defined.

End Views.
