(* ===== verification/TimeModes.v ===== *)
(** * Temporal conversion modes of include/mysql/server/private/sql_basic_types.h

    [date_conv_mode_t] (conversion flags), [time_round_mode_t] (fractional
    rounding) and [date_mode_t] (a mixture of both).  Each class keeps one
    [value_t], an enumeration stored in an [unsigned int]: converting a
    [ulonglong] to it keeps the low 32 bits.  A constructor whose
    [DBUG_ASSERT] fails has no result ([None]). *)

From Stdlib Require Import ZArith Lia.
From stdpp Require Import prelude.
From S2P Require Import Prelude.
Local Open Scope Z_scope.
Local Open Scope cint_scope.

Module TimeModes.

(** ** [date_conv_mode_t] *)

Module Conv.
Definition CONV_NONE : Z := 0.
Definition FUZZY_DATES : Z := 1.
Definition TIME_ONLY : Z := 4.
Definition INTERVAL_hhmmssff : Z := 8.
Definition INTERVAL_DAY : Z := 16.
Definition RANGE0_LAST : Z := INTERVAL_DAY.
Definition NO_ZERO_IN_DATE : Z := Z.shiftl 1 23.
Definition NO_ZERO_DATE : Z := Z.shiftl 1 24.
Definition INVALID_DATES : Z := Z.shiftl 1 25.

Definition KNOWN_MODES : Z :=
  Z.lor (Z.lor (Z.lor (Z.lor (Z.lor (Z.lor FUZZY_DATES TIME_ONLY) INTERVAL_hhmmssff)
    INTERVAL_DAY) NO_ZERO_IN_DATE) NO_ZERO_DATE) INVALID_DATES.
End Conv.

Record date_conv_mode_t := mk_conv { conv_mode : Z }.

(** The constructor from [ulonglong], and the conversion operators. *)
Definition date_conv_mode (fuzzydate : Z) : date_conv_mode_t := mk_conv (u32 fuzzydate).
Definition conv_ulonglong (a : date_conv_mode_t) : Z := conv_mode a.
Definition conv_bool (a : date_conv_mode_t) : bool := negb (conv_mode a =? 0).

(** [~m_mode] is computed on the 32-bit [value_t] and then widened. *)
Definition conv_compl (a : date_conv_mode_t) : Z := u32 (Z.lnot (conv_mode a)).

Definition conv_and (a other : date_conv_mode_t) : date_conv_mode_t :=
  date_conv_mode (Z.land (conv_mode a) (conv_mode other)).
Definition conv_and_ull (a : date_conv_mode_t) (other : Z) : date_conv_mode_t :=
  date_conv_mode (Z.land (conv_mode a) other).
Definition conv_or (a other : date_conv_mode_t) : date_conv_mode_t :=
  date_conv_mode (Z.lor (conv_mode a) (conv_mode other)).

(** [operator&=] and [operator|=]: the object's new value. *)
Definition conv_and_assign (a other : date_conv_mode_t) : date_conv_mode_t :=
  mk_conv (u32 (Z.land (conv_mode a) (conv_mode other))).
Definition conv_or_assign (a other : date_conv_mode_t) : date_conv_mode_t :=
  mk_conv (u32 (Z.lor (conv_mode a) (conv_mode other))).

(** ** [time_round_mode_t] *)

Module Round.
Definition FRAC_NONE : Z := 0.
Definition FRAC_TRUNCATE : Z := Z.shiftl Conv.RANGE0_LAST 1.
Definition FRAC_ROUND : Z := Z.shiftl Conv.RANGE0_LAST 2.
Definition KNOWN_MODES : Z := Z.lor FRAC_TRUNCATE FRAC_ROUND.
End Round.

Record time_round_mode_t := mk_round { round_mode : Z }.

Definition time_round_mode (mode : Z) : option time_round_mode_t :=
  if (mode =? Round.FRAC_NONE) || (mode =? Round.FRAC_TRUNCATE) || (mode =? Round.FRAC_ROUND)
  then Some (mk_round (u32 mode)) else None.

Definition round_ulonglong (a : time_round_mode_t) : Z := round_mode a.
Definition round_mode_mode (a : time_round_mode_t) : Z := round_mode a.
Definition round_eq (a other : time_round_mode_t) : bool := round_mode a =? round_mode other.

(** ** [date_mode_t] *)

Module Mode.
Definition CONV_NONE : Z := Conv.CONV_NONE.
Definition FUZZY_DATES : Z := Conv.FUZZY_DATES.
Definition TIME_ONLY : Z := Conv.TIME_ONLY.
Definition INTERVAL_hhmmssff : Z := Conv.INTERVAL_hhmmssff.
Definition INTERVAL_DAY : Z := Conv.INTERVAL_DAY.
Definition FRAC_TRUNCATE : Z := Round.FRAC_TRUNCATE.
Definition FRAC_ROUND : Z := Round.FRAC_ROUND.
Definition NO_ZERO_IN_DATE : Z := Conv.NO_ZERO_IN_DATE.
Definition NO_ZERO_DATE : Z := Conv.NO_ZERO_DATE.
Definition INVALID_DATES : Z := Conv.INVALID_DATES.
End Mode.

Record date_mode_t := mk_mode { mode_mode : Z }.

Definition date_mode (fuzzydate : Z) : date_mode_t := mk_mode (u32 fuzzydate).
Definition mode_ulonglong (a : date_mode_t) : Z := mode_mode a.
Definition mode_bool (a : date_mode_t) : bool := negb (mode_mode a =? 0).

(** [explicit operator date_conv_mode_t()] and
    [explicit operator time_round_mode_t()]. *)
Definition mode_conv (a : date_mode_t) : date_conv_mode_t :=
  date_conv_mode (Z.land (mode_mode a) Conv.KNOWN_MODES).
Definition mode_round (a : date_mode_t) : option time_round_mode_t :=
  time_round_mode (Z.land (mode_mode a) Round.KNOWN_MODES).

Definition mode_compl (a : date_mode_t) : Z := u32 (Z.lnot (mode_mode a)).
Definition mode_not (a : date_mode_t) : bool := mode_mode a =? 0.

Definition mode_and (a other : date_mode_t) : date_mode_t :=
  date_mode (Z.land (mode_mode a) (mode_mode other)).
Definition mode_and_ull (a : date_mode_t) (other : Z) : date_mode_t :=
  date_mode (Z.land (mode_mode a) other).
Definition mode_or (a other : date_mode_t) : date_mode_t :=
  date_mode (Z.lor (mode_mode a) (mode_mode other)).
Definition mode_and_assign (a other : date_mode_t) : date_mode_t :=
  mk_mode (u32 (Z.land (mode_mode a) (mode_mode other))).
Definition mode_or_assign (a other : date_mode_t) : date_mode_t :=
  mk_mode (u32 (Z.lor (mode_mode a) (mode_mode other))).
Definition mode_or_assign_conv (a : date_mode_t) (other : date_conv_mode_t) : date_mode_t :=
  mk_mode (u32 (Z.lor (mode_mode a) (conv_ulonglong other))).

(** The operators outside the classes. *)
Definition or_mode_conv (a : date_mode_t) (b : date_conv_mode_t) : date_mode_t :=
  date_mode (Z.lor (mode_ulonglong a) (conv_ulonglong b)).
Definition or_conv_round (a : date_conv_mode_t) (b : time_round_mode_t) : date_mode_t :=
  date_mode (Z.lor (conv_ulonglong a) (round_ulonglong b)).
Definition or_conv_mode (a : date_conv_mode_t) (b : date_mode_t) : date_mode_t :=
  date_mode (Z.lor (conv_ulonglong a) (mode_ulonglong b)).
Definition and_mode_conv (a : date_mode_t) (b : date_conv_mode_t) : date_conv_mode_t :=
  date_conv_mode (Z.land (mode_ulonglong a) (conv_ulonglong b)).
Definition and_conv_mode (a : date_conv_mode_t) (b : date_mode_t) : date_conv_mode_t :=
  date_conv_mode (Z.land (conv_ulonglong a) (mode_ulonglong b)).
Definition and_sql_mode_conv (a : Z) (b : date_conv_mode_t) : date_conv_mode_t :=
  date_conv_mode (Z.land a (conv_ulonglong b)).

(** ** Named modes *)

Definition TIME_CONV_NONE := date_conv_mode Conv.CONV_NONE.
Definition TIME_FUZZY_DATES := date_conv_mode Conv.FUZZY_DATES.
Definition TIME_TIME_ONLY := date_conv_mode Conv.TIME_ONLY.
Definition TIME_INTERVAL_hhmmssff := date_conv_mode Conv.INTERVAL_hhmmssff.
Definition TIME_INTERVAL_DAY := date_conv_mode Conv.INTERVAL_DAY.
Definition TIME_NO_ZERO_IN_DATE := date_conv_mode Conv.NO_ZERO_IN_DATE.
Definition TIME_NO_ZERO_DATE := date_conv_mode Conv.NO_ZERO_DATE.
Definition TIME_INVALID_DATES := date_conv_mode Conv.INVALID_DATES.

Definition TIME_NO_ZEROS := date_conv_mode (Z.lor Conv.NO_ZERO_DATE Conv.NO_ZERO_IN_DATE).

Definition TIME_MODE_FOR_XXX_TO_DATE :=
  date_conv_mode (Z.lor (Z.lor Mode.NO_ZERO_IN_DATE Mode.NO_ZERO_DATE) Mode.INVALID_DATES).

(** The three rounding modes: their constructors' assertions hold. *)
Definition TIME_FRAC_NONE := mk_round (u32 Round.FRAC_NONE).
Definition TIME_FRAC_TRUNCATE := mk_round (u32 Round.FRAC_TRUNCATE).
Definition TIME_FRAC_ROUND := mk_round (u32 Round.FRAC_ROUND).

(** ** Well-formed modes *)

(** A conversion mode that uses known flags only; a rounding mode that the
    constructor accepts. *)
Definition known_conv (c : date_conv_mode_t) : Prop := Z.land (conv_mode c) Conv.KNOWN_MODES = conv_mode c.

Definition known_round (r : time_round_mode_t) : Prop :=
  r = TIME_FRAC_NONE \/ r = TIME_FRAC_TRUNCATE \/ r = TIME_FRAC_ROUND.

#[global] Instance known_conv_dec c : Decision (known_conv c).
Proof. unfold known_conv. apply _. Defined.

(** The flags of one class, as sets of bits, never meet those of the other. *)
Lemma known_modes_disjoint : Z.land Conv.KNOWN_MODES Round.KNOWN_MODES = 0.
Proof. reflexivity. Qed.

Lemma known_conv_range c : known_conv c -> urange 32 (conv_mode c).
Proof. unfold known_conv. intros <-. apply urange_land_r; [lia|done]. Qed.

Lemma known_round_range r : known_round r -> urange 32 (round_mode r).
Proof. intros [-> | [-> | ->]]; done. Qed.

Lemma known_round_mask r : known_round r -> Z.land (round_mode r) Round.KNOWN_MODES = round_mode r.
Proof. intros [-> | [-> | ->]]; done. Qed.

Lemma known_round_accepted r : known_round r -> time_round_mode (round_mode r) = Some r.
Proof. intros [-> | [-> | ->]]; done. Qed.

Lemma conv_known_round c r :
  known_conv c -> known_round r ->
  Z.land (conv_mode c) Round.KNOWN_MODES = 0 /\ Z.land (round_mode r) Conv.KNOWN_MODES = 0.
Proof.
  intros Hc Hr. split.
  - rewrite <- Hc, <- Z.land_assoc. by rewrite known_modes_disjoint, Z.land_0_r.
  - rewrite <- (known_round_mask r Hr), <- Z.land_assoc, (Z.land_comm Round.KNOWN_MODES).
    by rewrite known_modes_disjoint, Z.land_0_r.
Qed.

Lemma conv_eta c : mk_conv (conv_mode c) = c.
Proof. by destruct c. Qed.

Lemma or_conv_round_value c r :
  known_conv c -> known_round r ->
  mode_mode (or_conv_round c r) = Z.lor (conv_mode c) (round_mode r).
Proof.
  intros Hc Hr. apply wrap_small, urange_lor; [lia|by apply known_conv_range|by apply known_round_range].
Qed.

Lemma land_round_bits x :
  Z.land x Round.KNOWN_MODES = (if Z.testbit x 5 then 32 else 0) + (if Z.testbit x 6 then 64 else 0).
Proof.
  assert (Z.land x Round.KNOWN_MODES =
    Z.lor (if Z.testbit x 5 then 2 ^ 5 else 0) (if Z.testbit x 6 then 2 ^ 6 else 0)) as ->.
  { change Round.KNOWN_MODES with (Z.lor (2 ^ 5) (2 ^ 6)). bits.
    destruct (Z.eqb_spec i 5), (Z.eqb_spec i 6); subst; try lia;
      destruct (Z.testbit x 5) eqn:?, (Z.testbit x 6) eqn:?; autorewrite with bits;
      rewrite ?andb_true_r, ?andb_false_r, ?orb_false_r; zcases; try lia; try done; congruence. }
  by destruct (Z.testbit x 5), (Z.testbit x 6).
Qed.

Lemma time_round_mode_inv z r :
  time_round_mode z = Some r -> known_round r /\ round_mode r = z.
Proof.
  unfold time_round_mode, known_round. zcases; subst; cbn; intros [= <-]; auto.
Qed.

(** ** Properties *)

(** Mixing a conversion mode and a rounding mode into a [date_mode_t] and
    taking it apart again gives both back: the two groups of flags share no
    bit, the rounding constructor's assertion holds, testing a flag of the
    mixture tests the conversion mode's flag, and clearing flags with [& ~x]
    clears exactly those. *)
Theorem mode_parts_roundtrip c r d :
  known_conv c -> known_round r -> known_conv d ->
  mode_conv (or_conv_round c r) = c /\
  mode_round (or_conv_round c r) = Some r /\
  and_mode_conv (or_conv_round c r) d = conv_and c d /\
  conv_mode (conv_and_ull c (conv_compl d)) = Z.ldiff (conv_mode c) (conv_mode d) /\
  or_conv_round (conv_or c d) r = or_mode_conv (or_conv_round c r) d.
Proof.
  intros Hc Hr Hd. pose proof (conv_known_round c r Hc Hr) as [E1 E2].
  pose proof (conv_known_round d r Hd Hr) as [E3 E4].
  pose proof (known_conv_range c Hc) as Rc. pose proof (known_conv_range d Hd) as Rd.
  pose proof (known_round_range r Hr) as Rr.
  unfold mode_conv, mode_round, and_mode_conv, mode_ulonglong, or_mode_conv.
  rewrite or_conv_round_value by done. rewrite !Z.land_lor_distr_l, E1, E2, Hc.
  rewrite Z.lor_0_l, Z.lor_0_r, known_round_mask by done. split_and!.
  - unfold date_conv_mode. by rewrite wrap_small, conv_eta.
  - by apply known_round_accepted.
  - unfold conv_and, conv_ulonglong. do 2 f_equal.
    rewrite <- Hd, (Z.land_comm (conv_mode d)), (Z.land_assoc (round_mode r)), E2, Z.land_0_l.
    apply Z.lor_0_r.
  - apply (bits_eq 32); [by apply wrap_range| |].
    + rewrite Z.ldiff_land, Z.land_comm. by apply urange_land_r.
    + intros i Hi. unfold conv_and_ull, conv_compl, date_conv_mode. cbn [conv_mode].
      autorewrite with bits. rewrite (proj2 (Z.ltb_lt i 32)) by lia. done.
  - unfold or_conv_round, conv_ulonglong, round_ulonglong, conv_or. cbn [conv_mode date_conv_mode].
    rewrite (wrap_small 32 (Z.lor (conv_mode c) (conv_mode d))) by (by apply urange_lor).
    fold (conv_ulonglong c) (round_ulonglong r). fold (or_conv_round c r).
    change (mode_ulonglong ?m) with (mode_mode m). rewrite or_conv_round_value by done.
    f_equal. rewrite <- !Z.lor_assoc. f_equal. apply Z.lor_comm.
Qed.

Lemma mode_parts_roundtrip_witness :
  mode_conv (or_conv_round TIME_NO_ZEROS TIME_FRAC_ROUND) = TIME_NO_ZEROS /\
  conv_mode (conv_and_ull TIME_NO_ZEROS (conv_compl TIME_NO_ZERO_DATE)) = Conv.NO_ZERO_IN_DATE.
Proof.
  destruct (mode_parts_roundtrip TIME_NO_ZEROS TIME_FRAC_ROUND TIME_NO_ZERO_DATE)
    as (H1 & _ & _ & H2 & _); [reflexivity|by right; right|reflexivity|].
  split; [exact H1|]. rewrite H2. reflexivity.
Defined.

(** Taking the rounding mode out of a [date_mode_t] fails its assertion
    exactly when both rounding flags are set; otherwise, where only known
    flags are set, the parts put together are the mode itself. *)
Theorem mode_round_error m :
  (mode_round m = None <->
     Z.testbit (mode_mode m) 5 = true /\ Z.testbit (mode_mode m) 6 = true) /\
  (forall r, Z.land (mode_mode m) (Z.lor Conv.KNOWN_MODES Round.KNOWN_MODES) = mode_mode m ->
     mode_round m = Some r -> or_conv_round (mode_conv m) r = m).
Proof.
  unfold mode_round. set (x := mode_mode m). split.
  - assert (Z.land x Round.KNOWN_MODES =
      (if Z.testbit x 5 then 32 else 0) + (if Z.testbit x 6 then 64 else 0)) as ->
      by apply land_round_bits.
    destruct (Z.testbit x 5), (Z.testbit x 6); cbn; naive_solver.
  - intros r Hx Hr. apply time_round_mode_inv in Hr as [Hk Hr].
    destruct m as [m]; cbn in x; subst x. unfold or_conv_round, mode_conv, date_mode. f_equal.
    cbn [mode_mode]. unfold conv_ulonglong, round_ulonglong. cbn [conv_mode date_conv_mode].
    rewrite (wrap_small 32 (Z.land m Conv.KNOWN_MODES)) by (by apply urange_land_r). rewrite Hr, <- Z.land_lor_distr_r, Hx.
    rewrite <- Hx. apply wrap_small, urange_land_r; done.
Qed.

Lemma mode_round_error_witness :
  mode_round (date_mode 96) = None /\
  or_conv_round (mode_conv (date_mode (4 + 64))) TIME_FRAC_ROUND = date_mode (4 + 64).
Proof.
  split; [apply (mode_round_error (date_mode 96)); by split|].
  apply (mode_round_error (date_mode (4 + 64))); reflexivity.
Defined.

End TimeModes.
