(* ===== verification/Temporal.v ===== *)
(** * Temporal values: include/mysql/server/{mysql_time.h, private/my_time.h,
      private/sql_time.h} and the base classes of private/sql_type.h

    [MYSQL_TIME] and the functions the headers define on it, the fixed-point
    seconds [Sec6] and [Sec9], their sums [Sec6_add], and the base class
    [Temporal].  Integers have the widths of the configured build
    (my_config.h: [SIZEOF_LONG] is 4).

    Code that works on a [MYSQL_TIME] through [this] (or an output parameter)
    and on an [int *warn] is written in the monad [TM]: state passing, with no
    result where a [DBUG_ASSERT] fails.  Functions implemented outside the
    headers are the operations of the class [TimeEnv]; what the headers
    document about them are the fields of [TimeLaws]. *)

From Stdlib Require Import ZArith Lia.
From stdpp Require Import prelude strings.
From S2P Require Import Prelude SqlInt TimeModes.
Local Open Scope Z_scope.
Local Open Scope cint_scope.

Module Temporal.
Import TimeModes.

(** [SIZEOF_LONG], in bits. *)
Definition LONG_BITS : Z := 4 * 8.

Definition ulong (z : Z) : Z := wrap LONG_BITS z.
Definition long (z : Z) : Z := sgn LONG_BITS z.

(** ** Data (mysql_time.h) *)

Inductive timestamp_type :=
  | MYSQL_TIMESTAMP_NONE | MYSQL_TIMESTAMP_ERROR
  | MYSQL_TIMESTAMP_DATE | MYSQL_TIMESTAMP_DATETIME | MYSQL_TIMESTAMP_TIME.

#[global] Instance timestamp_type_eq_dec : EqDecision timestamp_type.
Proof. solve_decision. Defined.

(** The enumerators' values. *)
Definition timestamp_value (t : timestamp_type) : Z :=
  match t with
  | MYSQL_TIMESTAMP_NONE => -2 | MYSQL_TIMESTAMP_ERROR => -1
  | MYSQL_TIMESTAMP_DATE => 0 | MYSQL_TIMESTAMP_DATETIME => 1 | MYSQL_TIMESTAMP_TIME => 2
  end.

Definition type_is (a b : timestamp_type) : bool := timestamp_value a =? timestamp_value b.

Record MYSQL_TIME := mk_time {
  year : Z; month : Z; day : Z; hour : Z; minute : Z; second : Z;
  second_part : Z; neg : bool; time_type : timestamp_type }.

(** Assignments to the members. *)
Definition set_year v t := mk_time v (month t) (day t) (hour t) (minute t) (second t) (second_part t) (neg t) (time_type t).
Definition set_month v t := mk_time (year t) v (day t) (hour t) (minute t) (second t) (second_part t) (neg t) (time_type t).
Definition set_day v t := mk_time (year t) (month t) v (hour t) (minute t) (second t) (second_part t) (neg t) (time_type t).
Definition set_hour v t := mk_time (year t) (month t) (day t) v (minute t) (second t) (second_part t) (neg t) (time_type t).
Definition set_minute v t := mk_time (year t) (month t) (day t) (hour t) v (second t) (second_part t) (neg t) (time_type t).
Definition set_second v t := mk_time (year t) (month t) (day t) (hour t) (minute t) v (second_part t) (neg t) (time_type t).
Definition set_second_part v t := mk_time (year t) (month t) (day t) (hour t) (minute t) (second t) v (neg t) (time_type t).
Definition set_neg v t := mk_time (year t) (month t) (day t) (hour t) (minute t) (second t) (second_part t) v (time_type t).
Definition set_time_type v t := mk_time (year t) (month t) (day t) (hour t) (minute t) (second t) (second_part t) (neg t) v.

Definition zero_time (ty : timestamp_type) : MYSQL_TIME := mk_time 0 0 0 0 0 0 0 false ty.

(** ** Constants of my_time.h *)

Definition INT_MAX32 : Z := 0x7FFFFFFF.
Definition UINT_MAX32 : Z := 0xFFFFFFFF.
Definition YY_PART_YEAR : Z := 70.
Definition TIMESTAMP_MAX_YEAR : Z := 2038.
Definition TIMESTAMP_MIN_YEAR : Z := 1900 + YY_PART_YEAR - 1.
Definition TIMESTAMP_MAX_VALUE : Z := INT_MAX32.
Definition TIMESTAMP_MIN_VALUE : Z := 0.

(** [SIZEOF_TIME_T] is 8, so both bounds are tested. *)
Definition IS_TIME_T_VALID_FOR_TIMESTAMP (x : Z) : bool :=
  (x <=? TIMESTAMP_MAX_VALUE) && (TIMESTAMP_MIN_VALUE <=? x).

Definition C_TIME_NO_ZERO_IN_DATE : Z := Z.shiftl 1 23.
Definition C_TIME_NO_ZERO_DATE : Z := Z.shiftl 1 24.
Definition C_TIME_INVALID_DATES : Z := Z.shiftl 1 25.

Definition MYSQL_TIME_WARN_TRUNCATED : Z := 1.
Definition MYSQL_TIME_WARN_OUT_OF_RANGE : Z := 2.
Definition MYSQL_TIME_WARN_EDOM : Z := 4.
Definition MYSQL_TIME_WARN_ZERO_DATE : Z := 8.
Definition MYSQL_TIME_NOTE_TRUNCATED : Z := 16.

Definition MYSQL_TIME_WARN_WARNINGS : Z :=
  Z.lor (Z.lor (Z.lor MYSQL_TIME_WARN_TRUNCATED MYSQL_TIME_WARN_OUT_OF_RANGE)
    MYSQL_TIME_WARN_EDOM) MYSQL_TIME_WARN_ZERO_DATE.
Definition MYSQL_TIME_WARN_NOTES : Z := MYSQL_TIME_NOTE_TRUNCATED.

Definition MYSQL_TIME_WARN_HAVE_WARNINGS (x : Z) : bool := truth (Z.land x MYSQL_TIME_WARN_WARNINGS).
Definition MYSQL_TIME_WARN_HAVE_NOTES (x : Z) : bool := truth (Z.land x MYSQL_TIME_WARN_NOTES).

Definition SECONDS_IN_24H : Z := 86400.
Definition TIME_MAX_INTERVAL_HOUR : Z := 87649415.
Definition TIME_MAX_INTERVAL_HOUR_CHAR_LENGTH : Z := 8.
Definition TIME_MAX_INTERVAL_DAY : Z := 3652058.
Definition TIME_MAX_INTERVAL_DAY_CHAR_LENGTH : Z := 7.
Definition TIME_MAX_HOUR : Z := 838.
Definition TIME_MAX_MINUTE : Z := 59.
Definition TIME_MAX_SECOND : Z := 59.
Definition TIME_MAX_SECOND_PART : Z := 999999.
Definition TIME_SECOND_PART_FACTOR : Z := TIME_MAX_SECOND_PART + 1.
Definition TIME_SECOND_PART_DIGITS : Z := 6.
Definition TIME_MAX_VALUE : Z := TIME_MAX_HOUR * 10000 + TIME_MAX_MINUTE * 100 + TIME_MAX_SECOND.
Definition TIME_MAX_VALUE_SECONDS : Z := TIME_MAX_HOUR * 3600 + TIME_MAX_MINUTE * 60 + TIME_MAX_SECOND.

Record MYSQL_TIME_STATUS := mk_status { warnings : Z; precision : Z; nanoseconds : Z }.

Definition my_time_status_init : MYSQL_TIME_STATUS := mk_status 0 0 0.

Definition validate_timestamp_range (t : MYSQL_TIME) : bool :=
  if ((TIMESTAMP_MAX_YEAR <? year t) || (year t <? TIMESTAMP_MIN_YEAR)) ||
     ((year t =? TIMESTAMP_MAX_YEAR) && ((1 <? month t) || (19 <? day t))) ||
     ((year t =? TIMESTAMP_MIN_YEAR) && ((month t <? 12) || (day t <? 31)))
  then false else true.

(** ** Inline functions of sql_time.h *)

Definition datetime_to_date (t : MYSQL_TIME) : option MYSQL_TIME :=
  if (type_is (time_type t) MYSQL_TIMESTAMP_DATE || type_is (time_type t) MYSQL_TIMESTAMP_DATETIME)
     && negb (neg t)
  then Some (mk_time (year t) (month t) (day t) 0 0 0 0 (neg t) MYSQL_TIMESTAMP_DATE)
  else None.

Definition date_to_datetime (t : MYSQL_TIME) : option MYSQL_TIME :=
  if (type_is (time_type t) MYSQL_TIMESTAMP_DATE || type_is (time_type t) MYSQL_TIMESTAMP_DATETIME)
     && negb (neg t)
  then Some (set_time_type MYSQL_TIMESTAMP_DATETIME t)
  else None.

Definition non_zero_hhmmssuu (t : MYSQL_TIME) : bool :=
  truth (hour t) || truth (minute t) || truth (second t) || truth (second_part t).

Definition non_zero_YYMMDD (t : MYSQL_TIME) : bool :=
  truth (year t) || truth (month t) || truth (day t).

Definition non_zero_date (t : MYSQL_TIME) : bool :=
  non_zero_YYMMDD t ||
  (type_is (time_type t) MYSQL_TIMESTAMP_DATETIME && non_zero_hhmmssuu t).

(** ** The state monad of the temporal classes

    The object under construction and the caller's [*warn]. *)

Record tstate := mk_ts { this : MYSQL_TIME; warn : Z }.

Definition TM (A : Type) : Type := tstate -> option (A * tstate).

#[global] Instance TM_ret : MRet TM := fun A a s => Some (a, s).
#[global] Instance TM_bind : MBind TM := fun A B f m s =>
  match m s with Some (a, s') => f a s' | None => None end.

(** [DBUG_ASSERT] on the current state, a member read, assignments to
    [*this] and to [*warn]. *)
Definition assert_ (b : tstate -> bool) : TM unit := fun s => if b s then Some (tt, s) else None.
Definition get_this {A} (f : MYSQL_TIME -> A) : TM A := fun s => Some (f (this s), s).
Definition upd (f : MYSQL_TIME -> MYSQL_TIME) : TM unit := fun s => Some (tt, mk_ts (f (this s)) (warn s)).
Definition upd_warn (f : Z -> Z) : TM unit := fun s => Some (tt, mk_ts (this s) (f (warn s))).

(** A function on a [MYSQL_TIME *] that may fail an assertion. *)
Definition upd_opt (f : MYSQL_TIME -> option MYSQL_TIME) : TM unit := fun s =>
  match f (this s) with Some t => Some (tt, mk_ts t (warn s)) | None => None end.

(** A call of a function implemented elsewhere, which gets both pointers. *)
Definition call {A} (f : MYSQL_TIME -> Z -> A * MYSQL_TIME * Z) : TM A := fun s =>
  let '(a, t, w) := f (this s) (warn s) in Some (a, mk_ts t w).

(** [wp m Q s]: run from [s], [m] fails no assertion and ends in [Q]. *)
Definition wp {A} (m : TM A) (Q : A -> tstate -> Prop) (s : tstate) : Prop :=
  exists a s', m s = Some (a, s') /\ Q a s'.

Section wp.
Context {A B : Type}.
Implicit Types (s : tstate).

Lemma wp_ret (a : A) (Q : A -> tstate -> Prop) s : Q a s -> wp (mret a) Q s.
Proof. intros H. by exists a, s. Qed.

Lemma wp_bind (m : TM A) (f : A -> TM B) (Q : B -> tstate -> Prop) s :
  wp m (fun a s' => wp (f a) Q s') s -> wp (m ≫= f) Q s.
Proof.
  intros (a & s' & E & b & s'' & E' & H). exists b, s''. split; [|done].
  unfold mbind, TM_bind. by rewrite E.
Qed.

Lemma wp_mono (m : TM A) (P Q : A -> tstate -> Prop) s :
  wp m P s -> (forall a s', P a s' -> Q a s') -> wp m Q s.
Proof. intros (a & s' & E & H) HPQ. exists a, s'. auto. Qed.

Lemma wp_assert b (Q : unit -> tstate -> Prop) s : b s = true -> Q tt s -> wp (assert_ b) Q s.
Proof. intros E H. exists tt, s. unfold assert_. by rewrite E. Qed.

Lemma wp_get (f : MYSQL_TIME -> A) (Q : A -> tstate -> Prop) s :
  Q (f (this s)) s -> wp (get_this f) Q s.
Proof. intros H. by exists (f (this s)), s. Qed.

Lemma wp_upd f (Q : unit -> tstate -> Prop) s :
  Q tt (mk_ts (f (this s)) (warn s)) -> wp (upd f) Q s.
Proof. intros H. by eexists tt, _. Qed.

Lemma wp_upd_warn f (Q : unit -> tstate -> Prop) s :
  Q tt (mk_ts (this s) (f (warn s))) -> wp (upd_warn f) Q s.
Proof. intros H. by eexists tt, _. Qed.

Lemma wp_upd_opt f t (Q : unit -> tstate -> Prop) s :
  f (this s) = Some t -> Q tt (mk_ts t (warn s)) -> wp (upd_opt f) Q s.
Proof. intros E H. eexists tt, _. unfold upd_opt. by rewrite E. Qed.

Lemma wp_call (f : MYSQL_TIME -> Z -> A * MYSQL_TIME * Z) (Q : A -> tstate -> Prop) s :
  (forall a t w, f (this s) (warn s) = (a, t, w) -> Q a (mk_ts t w)) -> wp (call f) Q s.
Proof.
  intros H. unfold wp, call. destruct (f (this s) (warn s)) as [[a t] w].
  exists a, (mk_ts t w). auto.
Qed.

Lemma wp_if (b : bool) (m n : TM A) (Q : A -> tstate -> Prop) s :
  (b = true -> wp m Q s) -> (b = false -> wp n Q s) -> wp (if b then m else n) Q s.
Proof. destruct b; auto. Qed.

Lemma wp_run (m : TM A) (Q : A -> tstate -> Prop) s a s' :
  wp m Q s -> m s = Some (a, s') -> Q a s'.
Proof. intros (a0 & s0 & E & H) E'. rewrite E in E'. by simplify_eq. Qed.
End wp.

(** [wp_go] runs the monadic steps of the goal in order. *)
Ltac wp_step :=
  first [ apply wp_bind | apply wp_ret | apply wp_get | apply wp_upd | apply wp_upd_warn
        | apply wp_assert; cbn [this warn] | apply wp_call ]; cbn [this warn].
Ltac wp_go := repeat wp_step.

(** ** Code outside the headers

    The functions the headers only declare.  Each gets the values it reads
    and returns what it writes; [THD] and character sets are opaque. *)

Class TimeEnv := {
  THD : Type;
  CHARSET_INFO : Type;
  (* my_time.h *)
  log_10_int : Z -> Z;
  set_zero_time : timestamp_type -> MYSQL_TIME -> MYSQL_TIME;
  check_time_range : Z -> MYSQL_TIME -> Z -> Z * MYSQL_TIME * Z;
  check_datetime_range : MYSQL_TIME -> bool;
  check_date : MYSQL_TIME -> bool -> Z -> Z -> bool * Z;
  number_to_datetime_or_date : Z -> Z -> Z -> MYSQL_TIME -> Z -> Z * MYSQL_TIME * Z;
  number_to_time_only : bool -> Z -> Z -> Z -> MYSQL_TIME -> Z -> Z * MYSQL_TIME * Z;
  calc_daynr : Z -> Z -> Z -> Z;
  TIME_to_ulonglong : MYSQL_TIME -> Z;
  TIME_to_ulonglong_time : MYSQL_TIME -> Z;
  TIME_to_ulonglong_date : MYSQL_TIME -> Z;
  TIME_to_ulonglong_datetime : MYSQL_TIME -> Z;
  (* sql_time.h *)
  set_current_date : THD -> MYSQL_TIME;
  get_date_from_daynr : Z -> bool * (Z * Z * Z);
  calc_time_diff : MYSQL_TIME -> MYSQL_TIME -> Z -> bool * Z * Z;
  calc_time_diff_TIME : MYSQL_TIME -> MYSQL_TIME -> Z -> date_mode_t -> bool * MYSQL_TIME;
  calc_time_from_sec : Z -> Z -> MYSQL_TIME -> MYSQL_TIME;
  calc_week : MYSQL_TIME -> Z -> Z * Z;
  calc_weekday : Z -> bool -> Z;
  adjust_time_range_with_warn : THD -> Z -> MYSQL_TIME -> bool * MYSQL_TIME;
  pack_time : MYSQL_TIME -> Z;
  (* sql_type.cc *)
  str_to_datetime_or_date_or_time : THD -> string -> CHARSET_INFO -> date_mode_t ->
    MYSQL_TIME -> Z -> bool * MYSQL_TIME * Z;
  str_to_datetime_or_date : THD -> string -> CHARSET_INFO -> date_mode_t ->
    MYSQL_TIME -> Z -> bool * MYSQL_TIME * Z;
  default_round_mode : THD -> time_round_mode_t;
  sql_mode_for_dates : THD -> date_conv_mode_t;
  Time_round_or_set_max_nsec : Z -> Z -> MYSQL_TIME -> Z -> unit * MYSQL_TIME * Z;
  Time_round_or_set_max : Z -> MYSQL_TIME -> Z -> unit * MYSQL_TIME * Z;
  datetime_add_nanoseconds_or_invalidate : THD -> Z -> MYSQL_TIME -> Z -> bool * MYSQL_TIME * Z;
  datetime_round_or_invalidate : THD -> Z -> Z -> MYSQL_TIME -> Z -> bool * MYSQL_TIME * Z;
  Datetime_round_or_invalidate : THD -> Z -> MYSQL_TIME -> Z -> bool * MYSQL_TIME * Z;
  add_nanoseconds_with_round : THD -> date_conv_mode_t -> Z -> MYSQL_TIME -> Z -> bool * MYSQL_TIME * Z;
  Sec6_convert_to_mysql_time : THD -> bool -> Z -> Z -> date_mode_t -> MYSQL_TIME -> Z -> bool * MYSQL_TIME * Z;
}.

Section env.
Context {env : TimeEnv}.

(** ** Rounding functions of my_time.h *)

Definition sec_part_shift (second_part digits : Z) : Z :=
  Z.quot second_part (s64 (log_10_int (TIME_SECOND_PART_DIGITS - digits))).

Definition sec_part_unshift (second_part digits : Z) : Z :=
  s64 (second_part * s64 (log_10_int (TIME_SECOND_PART_DIGITS - digits))).

Definition my_time_fraction_remainder (nr decimals : Z) : option Z :=
  if decimals <=? TIME_SECOND_PART_DIGITS
  then Some (Z.rem nr (long (log_10_int (TIME_SECOND_PART_DIGITS - decimals)))) else None.

Definition my_datetime_trunc (ltime : MYSQL_TIME) (decimals : Z) : option MYSQL_TIME :=
  r ← my_time_fraction_remainder (long (second_part ltime)) decimals;
  Some (set_second_part (ulong (second_part ltime - r)) ltime).

Definition my_time_trunc (ltime : MYSQL_TIME) (decimals : Z) : option MYSQL_TIME :=
  r ← my_time_fraction_remainder (long (second_part ltime)) decimals;
  let ltime := set_second_part (ulong (second_part ltime - r)) ltime in
  Some (if negb (truth (second_part ltime)) && neg ltime &&
           negb (truth (hour ltime)) && negb (truth (minute ltime)) && negb (truth (second ltime))
        then set_neg false ltime else ltime).

(** [struct timeval]. *)
Record timeval := mk_tv { tv_sec : Z; tv_usec : Z }.

Definition my_timeval_trunc (tv : timeval) (decimals : Z) : option timeval :=
  r ← my_time_fraction_remainder (tv_usec tv) decimals;
  Some (mk_tv (tv_sec tv) (long (tv_usec tv - r))).

(** ** [Sec6] *)

Record Sec6 := mk_sec6 { m_sec : Z; m_usec : Z; m_neg : bool; m_truncated : bool }.

Definition Sec6_make_from_int (nr : SqlInt.Longlong_hybrid) : Sec6 :=
  mk_sec6 (SqlInt.abs nr) 0 (SqlInt.neg nr) false.

Definition Sec6_reset : Sec6 := mk_sec6 0 0 false false.

Definition Sec6_add_nanoseconds (nanoseconds : Z) (x : Sec6) : option (bool * Sec6) :=
  if negb (nanoseconds <=? 1000000000) then None
  else if nanoseconds <? 500 then Some (false, x)
  else
    let usec := ulong (m_usec x + u32 (nanoseconds + 500) / 1000) in
    let x := mk_sec6 (m_sec x) usec (m_neg x) (m_truncated x) in
    if m_usec x <? 1000000 then Some (false, x)
    else Some (true, mk_sec6 (m_sec x) (m_usec x mod 1000000) (m_neg x) (m_truncated x)).

(** The constructors from integers. *)
Definition Sec6_hybrid (nr : SqlInt.Longlong_hybrid) : Sec6 := Sec6_make_from_int nr.
Definition Sec6_longlong (nr : Z) (unsigned_val : bool) : Sec6 :=
  Sec6_make_from_int (SqlInt.mk_llh nr unsigned_val).

Definition Sec6_usec (x : Sec6) : Z := long (m_usec x).

(** [number_to_time_only] returns an [int]; the wrapper returns it as [bool]. *)
Definition to_interval_hhmmssff_only (x : Sec6) : TM bool :=
  rc ← call (number_to_time_only (m_neg x) (m_sec x) (m_usec x) TIME_MAX_INTERVAL_HOUR);
  mret (truth rc).

Definition to_datetime_or_date (x : Sec6) (flags : date_conv_mode_t) : TM bool :=
  if m_neg x then upd_warn (fun _ => MYSQL_TIME_WARN_OUT_OF_RANGE);; mret true
  else
    r ← call (number_to_datetime_or_date (s64 (m_sec x)) (m_usec x)
               (conv_ulonglong (conv_and flags TIME_MODE_FOR_XXX_TO_DATE)));
    let rc := r =? -1 in
    assert_ (fun s => truth (warn s) || negb rc);;
    mret rc.

Definition to_datetime_or_to_interval_hhmmssff (x : Sec6) : TM bool :=
  assert_ (fun _ => TIME_MAX_INTERVAL_HOUR <=? 999999995959);;
  if (999999995959 <? m_sec x) && (m_sec x <=? 99991231235959) && negb (m_neg x)
  then to_datetime_or_date x TIME_INVALID_DATES
  else if TIME_MAX_INTERVAL_HOUR <? m_sec x / 10000
  then upd_warn (fun _ => MYSQL_TIME_WARN_OUT_OF_RANGE);; mret true
  else to_interval_hhmmssff_only x.

Definition to_datetime_or_time (x : Sec6) (mode : date_conv_mode_t) : TM bool :=
  rc ← (if (9999999 <? m_sec x) && (m_sec x <=? 99991231235959) && negb (m_neg x)
        then r ← call (number_to_datetime_or_date (s64 (m_sec x)) (m_usec x)
                        (conv_ulonglong (conv_and mode TIME_MODE_FOR_XXX_TO_DATE)));
             mret (r <? 0)
        else r ← call (number_to_time_only (m_neg x) (m_sec x) (m_usec x) TIME_MAX_HOUR);
             mret (truth r));
  assert_ (fun s => truth (warn s) || negb rc);;
  mret rc.

(** [sec_to_time] writes [*ltime]; the warnings of [check_time_range] go to a
    local variable. *)
Definition sec_to_time (x : Sec6) (dec : Z) (ltime : MYSQL_TIME) : option (bool * MYSQL_TIME) :=
  let ltime := set_neg (m_neg x) (set_zero_time MYSQL_TIMESTAMP_TIME ltime) in
  if TIME_MAX_VALUE_SECONDS <? m_sec x
  then
    let ltime := set_hour (TIME_MAX_HOUR + 1) ltime in
    let '(_, ltime, _) := check_time_range dec ltime 0 in
    Some (true, ltime)
  else if negb (Sec6_usec x <=? TIME_MAX_SECOND_PART) then None
  else
    let ltime := set_hour (u32 (m_sec x / 3600)) ltime in
    let ltime := set_minute (u32 (m_sec x mod 3600) / 60) ltime in
    let ltime := set_second (u32 (m_sec x) mod 60) ltime in
    Some (false, set_second_part (m_usec x) ltime).

Definition Sec6_trunc (dec : Z) (x : Sec6) : option Sec6 :=
  r ← my_time_fraction_remainder (long (m_usec x)) dec;
  Some (mk_sec6 (m_sec x) (ulong (m_usec x - r)) (m_neg x) (m_truncated x)).

(** ** [Sec9]: [Sec6] with nanoseconds.  [round(dec)] is implemented elsewhere. *)

Record Sec9 := mk_sec9 { sec6 : Sec6; m_nsec : Z }.

Definition Sec9_make_from_int (nr : SqlInt.Longlong_hybrid) : Sec9 := mk_sec9 (Sec6_make_from_int nr) 0.

Definition Sec9_trunc (dec : Z) (x : Sec9) : option Sec9 :=
  s ← Sec6_trunc dec (sec6 x); Some (mk_sec9 s 0).

Definition Sec9_round_mode (Sec9_round : Z -> Sec9 -> Sec9) (dec : Z) (mode : time_round_mode_t)
    (x : Sec9) : option Sec9 :=
  if round_eq mode TIME_FRAC_TRUNCATE then Sec9_trunc dec x else Some (Sec9_round dec x).

(** ** [Sec6_add] *)

Record Sec6_add := mk_add { add_sec : Z; add_usec : Z; add_neg : bool; add_error : bool }.

(** The constructor; the members are not initialised when [m_error] is set. *)
Definition Sec6_add_make (ltime1 ltime2 : MYSQL_TIME) (sign : Z) : option Sec6_add :=
  if negb ((sign =? -1) || (sign =? 1)) then None
  else if neg ltime1 && negb (type_is (time_type ltime1) MYSQL_TIMESTAMP_TIME) then None
  else if negb (type_is (time_type ltime2) MYSQL_TIMESTAMP_TIME) then Some (mk_add 0 0 false true)
  else
    let sign := if xorb (neg ltime1) (neg ltime2) then - sign else sign in
    let '(n, sec, usec) := calc_time_diff ltime1 ltime2 (- sign) in
    let n := if neg ltime1 && (truth sec || truth usec) then negb n else n in
    Some (mk_add sec usec n false).

Definition to_hh24mmssff (x : Sec6_add) (tstype : timestamp_type) : MYSQL_TIME :=
  let ltime := set_neg (add_neg x) (zero_time MYSQL_TIMESTAMP_DATE) in
  let ltime := calc_time_from_sec (ulong (add_sec x mod SECONDS_IN_24H)) (add_usec x) ltime in
  set_time_type tstype ltime.

Definition to_days_abs (x : Sec6_add) : Z := long (add_sec x / SECONDS_IN_24H).

(** [to_time] and [to_datetime] return [true] for an error; [None] for the
    time when the output is not written. *)
Definition Sec6_add_to_time (thd : THD) (x : Sec6_add) (decimals : Z) : bool * option MYSQL_TIME :=
  if add_error x then (true, None)
  else
    let ltime := to_hh24mmssff x MYSQL_TIMESTAMP_TIME in
    let ltime := set_hour (u32 (hour ltime + u32 (long (to_days_abs x * 24)))) ltime in
    let '(rc, ltime) := adjust_time_range_with_warn thd decimals ltime in
    (rc, Some ltime).

Definition Sec6_add_to_datetime (x : Sec6_add) : bool * option MYSQL_TIME :=
  if add_error x || add_neg x then (true, None)
  else
    let ltime := to_hh24mmssff x MYSQL_TIMESTAMP_DATETIME in
    let '(rc, (y, m, d)) := get_date_from_daynr (to_days_abs x) in
    let ltime := set_day d (set_month m (set_year y ltime)) in
    (rc || negb (truth (day ltime)), Some ltime).

(** ** [Year] *)

Record Year := mk_year { m_year : Z; year_truncated : bool }.
Definition Year_default : Year := mk_year 0 false.
Definition to_YYYYMMDD (x : Year) : Z := u32 (m_year x * 10000).

(** ** [Temporal] *)

Definition type_name_by_timestamp_type (t : timestamp_type) : string :=
  match t with
  | MYSQL_TIMESTAMP_DATE => "date"
  | MYSQL_TIMESTAMP_TIME => "time"
  | _ => "datetime"
  end.

(** The type name a pushed conversion warning carries ([Warn]). *)
Definition warn_type_name (mode : date_mode_t) (tstype : timestamp_type) : string :=
  if 0 <=? timestamp_value tstype then type_name_by_timestamp_type tstype
  else if conv_bool (and_mode_conv mode (conv_or TIME_INTERVAL_hhmmssff TIME_INTERVAL_DAY))
  then "interval"
  else if conv_bool (and_mode_conv mode TIME_TIME_ONLY) then "time" else "datetime".

(** [Temporal::Options]. *)
Definition Options_mode (flags : date_mode_t) : date_mode_t := flags.
Definition Options_parts (flags : date_conv_mode_t) (rm : time_round_mode_t) : option date_mode_t :=
  if conv_ulonglong flags <=? UINT_MAX32 then Some (or_conv_round flags rm) else None.

Definition is_valid_temporal (t : MYSQL_TIME) : option bool :=
  if type_is (time_type t) MYSQL_TIMESTAMP_ERROR then None
  else Some (negb (type_is (time_type t) MYSQL_TIMESTAMP_NONE)).

Definition make_fuzzy_date (fuzzydate : date_conv_mode_t) (t : MYSQL_TIME) : MYSQL_TIME :=
  let tstype :=
    if negb (conv_bool (conv_and fuzzydate TIME_FUZZY_DATES)) then MYSQL_TIMESTAMP_NONE
    else if conv_bool (conv_and fuzzydate TIME_TIME_ONLY) then MYSQL_TIMESTAMP_TIME
    else MYSQL_TIMESTAMP_DATETIME in
  set_zero_time tstype t.

Definition make_from_out_of_range : TM unit :=
  upd_warn (fun _ => MYSQL_TIME_WARN_OUT_OF_RANGE);;
  upd (set_time_type MYSQL_TIMESTAMP_NONE).

Definition Sec6_convert (thd : THD) (nr : Sec6) (mode : date_mode_t) : TM bool :=
  call (Sec6_convert_to_mysql_time thd (m_neg nr) (m_sec nr) (m_usec nr) mode).

Definition make_from_sec6 (thd : THD) (nr : Sec6) (mode : date_mode_t) : TM unit :=
  failed ← Sec6_convert thd nr mode;
  if (failed : bool) then upd (make_fuzzy_date (mode_conv mode)) else mret tt.

(** A [time_round_mode_t] read out of a mode: its assertion may fail. *)
Definition round_of (mode : date_mode_t) : TM time_round_mode_t := fun s =>
  match mode_round mode with Some r => Some (r, s) | None => None end.

Definition add_nanoseconds (thd : THD) (mode : date_mode_t) (nsec : Z) : TM bool :=
  r ← round_of mode;
  if round_eq r TIME_FRAC_ROUND then call (add_nanoseconds_with_round thd (mode_conv mode) nsec)
  else mret false.

Definition make_from_sec9 (thd : THD) (nr : Sec9) (mode : date_mode_t) : TM unit :=
  failed ← Sec6_convert thd (sec6 nr) mode;
  failed ← (if (failed : bool) then mret true else add_nanoseconds thd mode (m_nsec nr));
  if (failed : bool) then upd (make_fuzzy_date (mode_conv mode)) else mret tt.

Definition has_valid_mmssff (t : MYSQL_TIME) : bool :=
  (minute t <=? TIME_MAX_MINUTE) && (second t <=? TIME_MAX_SECOND) &&
  (second_part t <=? TIME_MAX_SECOND_PART).

Definition has_zero_YYYYMM (t : MYSQL_TIME) : bool := (year t =? 0) && (month t =? 0).

Definition has_zero_YYYYMMDD (t : MYSQL_TIME) : bool :=
  (year t =? 0) && (month t =? 0) && (day t =? 0).

(** [Temporal::check_date] through the inline [check_date] of sql_time.h. *)
Definition Temporal_check_date (t : MYSQL_TIME) (flags : date_conv_mode_t) (was_cut : Z) : bool * Z :=
  check_date t (non_zero_date t) (conv_ulonglong (conv_and flags TIME_MODE_FOR_XXX_TO_DATE)) was_cut.

Definition time_hhmmssff_set_max (max_hour : Z) (t : MYSQL_TIME) : MYSQL_TIME :=
  set_second_part TIME_MAX_SECOND_PART (set_second TIME_MAX_SECOND
    (set_minute TIME_MAX_MINUTE (set_hour max_hour t))).

Definition add_nanoseconds_ssff (nanoseconds : Z) (t : MYSQL_TIME) : option (bool * MYSQL_TIME) :=
  if negb (nanoseconds <=? 1000000000) then None
  else if nanoseconds <? 500 then Some (false, t)
  else
    let t := set_second_part (ulong (second_part t + u32 (nanoseconds + 500) / 1000)) t in
    if second_part t <? 1000000 then Some (false, t)
    else
      let t := set_second_part (second_part t mod 1000000) t in
      if second t <? 59 then Some (false, set_second (u32 (second t + 1)) t)
      else Some (true, set_second 0 t).

Definition add_nanoseconds_mmssff (nanoseconds : Z) (t : MYSQL_TIME) : option (bool * MYSQL_TIME) :=
  '(carry, t) ← add_nanoseconds_ssff nanoseconds t;
  if negb carry then Some (false, t)
  else if minute t <? 59 then Some (false, set_minute (u32 (minute t + 1)) t)
  else Some (true, set_minute 0 t).

Definition fraction_remainder (dec : Z) (t : MYSQL_TIME) : option Z :=
  my_time_fraction_remainder (long (second_part t)) dec.

End env.
End Temporal.
