(* ===== verification/TemporalProps.v ===== *)
(** * Properties of the base temporal classes

    What a [MYSQL_TIME] of type TIME denotes (a signed number of
    microseconds), and the arithmetic of private/my_time.h and of the classes
    [Sec6], [Sec6_add] and [Temporal] of private/sql_type.h in these terms. *)

From Stdlib Require Import ZArith Lia.
From stdpp Require Import prelude strings.
From S2P Require Import Prelude SqlInt TimeModes Temporal.
Local Open Scope Z_scope.
Local Open Scope cint_scope.

Module TemporalProps.
Import TimeModes Temporal.

(** ** The value of a TIME *)

Definition abs_usec (t : MYSQL_TIME) : Z :=
  (hour t * 3600 + minute t * 60 + second t) * 1000000 + second_part t.

Definition signed (n : bool) (z : Z) : Z := if n then - z else z.

Definition time_usec (t : MYSQL_TIME) : Z := signed (neg t) (abs_usec t).

(** The members hold values of their types, minutes to microseconds in range. *)
Definition mmssff_ok (t : MYSQL_TIME) : Prop :=
  0 <= minute t <= 59 /\ 0 <= second t <= 59 /\ 0 <= second_part t <= 999999.

(** A TIME value of the hours the type TIME supports. *)
Definition time_ok (t : MYSQL_TIME) : Prop :=
  time_type t = MYSQL_TIMESTAMP_TIME /\ year t = 0 /\ month t = 0 /\ day t = 0 /\
  0 <= hour t <= TIME_MAX_HOUR /\ mmssff_ok t.

#[global] Instance mmssff_ok_dec t : Decision (mmssff_ok t).
Proof. unfold mmssff_ok. apply _. Defined.
#[global] Instance time_ok_dec t : Decision (time_ok t).
Proof. unfold time_ok. apply _. Defined.

(** Callers ask for at most six decimals, and round under a mode other than
    FRAC_NONE. *)
Definition dec_ok (dec : Z) : Prop := 0 <= dec <= 6.

Definition mode_ok (r : time_round_mode_t) : Prop := r = TIME_FRAC_TRUNCATE \/ r = TIME_FRAC_ROUND.

(** The microseconds of a unit of the last of [dec] decimals, and the largest
    TIME with [dec] decimals (838:59:59 with as many nines). *)
Definition unit_of (dec : Z) : Z := 10 ^ (6 - dec).

Definition time_max_usec (dec : Z) : Z :=
  TIME_MAX_VALUE_SECONDS * 1000000 + (999999 - 999999 mod unit_of dec).

(** What the headers say of the functions they declare: powers of ten, the
    zero value, the difference of absolute values, seconds to hh:mm:ss, and
    that a TIME up to the maximum for its decimals needs no adjustment. *)
Class TimeLaws (env : TimeEnv) : Prop := {
  log_10_int_law : forall i, 0 <= i < 20 -> log_10_int i = 10 ^ i;
  set_zero_time_law : forall ty t, set_zero_time ty t = zero_time ty;
  calc_time_from_sec_law : forall sec usec t, 0 <= sec < SECONDS_IN_24H ->
    calc_time_from_sec sec usec t =
      set_second_part usec (set_second (sec mod 60)
        (set_minute (sec / 60 mod 60) (set_hour (sec / 3600) t)));
  calc_time_diff_law : forall t1 t2 sign n sec usec,
    time_ok t1 -> time_ok t2 -> sign = 1 \/ sign = -1 ->
    calc_time_diff t1 t2 sign = (n, sec, usec) ->
    0 <= sec /\ 0 <= usec <= 999999 /\
    signed n (sec * 1000000 + usec) = abs_usec t1 - sign * abs_usec t2;
  adjust_time_range_law : forall thd dec t, dec_ok dec -> time_ok t -> abs_usec t <= time_max_usec dec ->
    adjust_time_range_with_warn thd dec t = (false, t);
}.

(** ** Powers of ten *)

Section laws.
Context {env : TimeEnv} {laws : TimeLaws env}.

Lemma unit_of_cases dec :
  0 <= dec <= 6 -> unit_of dec ∈ [1000000; 100000; 10000; 1000; 100; 10; 1].
Proof.
  intros H. assert (dec = 0 \/ dec = 1 \/ dec = 2 \/ dec = 3 \/ dec = 4 \/ dec = 5 \/ dec = 6)
    as Hc by lia. unfold unit_of.
  repeat destruct Hc as [-> | Hc]; try subst dec; vm_compute; set_solver.
Qed.

Lemma unit_of_range dec : 0 <= dec <= 6 -> 0 < unit_of dec <= 1000000.
Proof. intros H%unit_of_cases. set_unfold in H. naive_solver lia. Qed.

Lemma long_small z : - 0x80000000 <= z < 0x80000000 -> long z = z.
Proof. intros H. apply sgn_small; [done|exact H]. Qed.

Lemma ulong_small z : 0 <= z < 0x100000000 -> ulong z = z.
Proof. intros H. by apply wrap_small. Qed.

Lemma fraction_remainder_value nr dec :
  0 <= dec <= 6 -> 0 <= nr ->
  my_time_fraction_remainder nr dec = Some (nr mod unit_of dec).
Proof.
  intros H Hn. unfold my_time_fraction_remainder, TIME_SECOND_PART_DIGITS.
  rewrite (proj2 (Z.leb_le dec 6)) by lia. rewrite log_10_int_law by lia.
  fold (unit_of dec). pose proof (unit_of_range dec H). rewrite long_small by lia.
  by rewrite Z.rem_mod_nonneg by lia.
Qed.

(** Truncating a non-negative fraction. *)
Lemma trunc_fraction u dec :
  0 <= dec <= 6 -> 0 <= u <= 999999 ->
  ulong (u - u mod unit_of dec) = u / unit_of dec * unit_of dec /\
  0 <= u / unit_of dec * unit_of dec <= u.
Proof.
  intros H Hu. pose proof (unit_of_range dec H).
  pose proof (Z.div_mod u (unit_of dec) ltac:(lia)).
  pose proof (Z.mod_pos_bound u (unit_of dec) ltac:(lia)).
  pose proof (Z.div_pos u (unit_of dec) ltac:(lia) ltac:(lia)).
  assert (u - u mod unit_of dec = u / unit_of dec * unit_of dec) as -> by lia.
  split; [apply ulong_small; nia|nia].
Qed.

(** The same for a whole TIME: an hour is a multiple of every unit. *)
Lemma abs_usec_trunc h u dec :
  0 <= dec <= 6 ->
  (h * 1000000 + u) / unit_of dec * unit_of dec = h * 1000000 + u / unit_of dec * unit_of dec.
Proof.
  intros H. assert (exists k, 1000000 = k * unit_of dec) as [k Hk].
  { exists (10 ^ dec). unfold unit_of. rewrite <- Z.pow_add_r by lia.
    by replace (dec + (6 - dec)) with 6 by lia. }
  pose proof (unit_of_range dec H). rewrite Hk at 1.
  rewrite Z.mul_assoc, Z.div_add_l by lia. rewrite Z.mul_add_distr_r.
  by rewrite <- Z.mul_assoc, <- Hk.
Qed.

(** ** Truncation *)

Lemma my_datetime_trunc_value t dec :
  0 <= dec <= 6 -> 0 <= second_part t <= 999999 ->
  my_datetime_trunc t dec = Some (set_second_part (second_part t / unit_of dec * unit_of dec) t).
Proof.
  intros H Hu. unfold my_datetime_trunc.
  rewrite long_small by lia. rewrite fraction_remainder_value by lia. cbn [mbind option_bind].
  by destruct (trunc_fraction (second_part t) dec) as [-> _].
Qed.

Lemma my_time_trunc_value t dec :
  0 <= dec <= 6 -> mmssff_ok t ->
  let u := second_part t / unit_of dec * unit_of dec in
  my_time_trunc t dec =
    Some (set_neg (neg t && non_zero_hhmmssuu (set_second_part u t)) (set_second_part u t)).
Proof.
  intros H (_ & _ & Hu) u. unfold my_time_trunc.
  rewrite long_small by lia. rewrite fraction_remainder_value by lia. cbn [mbind option_bind].
  destruct (trunc_fraction (second_part t) dec) as [-> _]; [done..|]. fold u.
  clearbody u. unfold non_zero_hhmmssuu. destruct t as [y m d h mi se sp n ty]. cbn.
  destruct (truth u), n, (truth h), (truth mi), (truth se); done.
Qed.

Lemma abs_usec_zero t :
  0 <= hour t -> mmssff_ok t -> non_zero_hhmmssuu t = false <-> abs_usec t = 0.
Proof.
  intros Hh (H1 & H2 & H3). unfold non_zero_hhmmssuu, abs_usec.
  rewrite !orb_false_iff, !truth_false. lia.
Qed.

(** Truncation keeps a TIME in range. *)
Lemma time_trunc_ok t dec :
  time_ok t -> 0 <= dec <= 6 -> exists t', my_time_trunc t dec = Some t' /\ time_ok t'.
Proof.
  intros (Hty & Hy & Hm & Hd & Hh & Hok) H. rewrite my_time_trunc_value by done.
  destruct (trunc_fraction (second_part t) dec) as [_ Hu]; [done|apply Hok|].
  eexists. split; [done|]. unfold mmssff_ok in Hok. unfold time_ok, mmssff_ok. cbn. lia || (repeat split; auto; lia).
Qed.

(** [my_time_trunc] rounds a TIME towards zero to the requested number of
    decimals: the signed value becomes [10^(6-dec)] times the truncated
    quotient, the value stays a TIME in range, and the result is never a
    negative zero. *)
Lemma my_time_trunc_toward_zero t dec :
  time_ok t -> 0 <= dec <= 6 ->
  exists t', my_time_trunc t dec = Some t' /\ time_ok t' /\
    time_usec t' = Z.quot (time_usec t) (unit_of dec) * unit_of dec /\
    (neg t' = true -> time_usec t' < 0).
Proof.
  intros (Hty & Hy & Hm & Hd & Hh & Hok) H. rewrite my_time_trunc_value by done.
  set (u := second_part t / unit_of dec * unit_of dec). set (t1 := set_second_part u t).
  pose proof (unit_of_range dec H).
  destruct (trunc_fraction (second_part t) dec) as [_ Hu]; [done|apply Hok|]. fold u in Hu.
  assert (mmssff_ok t1) as Hok1 by (unfold mmssff_ok in *; cbn; lia).
  assert (abs_usec t1 = abs_usec t / unit_of dec * unit_of dec) as E.
  { unfold abs_usec. by rewrite abs_usec_trunc. }
  assert (0 <= abs_usec t) as Hp by (unfold abs_usec, mmssff_ok in *; lia).
  pose proof (abs_usec_zero t1 (proj1 Hh) Hok1) as Hz.
  eexists. split; [done|]. split; [by repeat split; try apply Hok1; try apply Hh|].
  unfold time_usec. cbn [neg set_neg]. change (abs_usec (set_neg _ t1)) with (abs_usec t1).
  assert (Z.quot (signed (neg t) (abs_usec t)) (unit_of dec) * unit_of dec =
          signed (neg t) (abs_usec t1)) as ->.
  { rewrite E. destruct (neg t); cbn [signed]; rewrite ?Z.quot_opp_l, Z.quot_div_nonneg by lia; lia. }
  assert (0 <= abs_usec t1) as Hp1 by (rewrite E; pose proof (Z.div_pos (abs_usec t) (unit_of dec)); nia).
  change (neg t1) with (neg t). destruct (neg t), (non_zero_hhmmssuu t1) eqn:En; cbn [signed andb]; split; try done.
  - intros _. assert (abs_usec t1 <> 0) by (rewrite <- Hz; congruence). lia.
  - rewrite (proj1 Hz eq_refl). done.
Qed.

(** ** Adding nanoseconds *)

(** The microseconds [(nanoseconds + 500) / 1000] added by every variant. *)
Definition rounded_usec (ns : Z) : Z := (ns + 500) / 1000.

Lemma rounded_usec_range ns : 0 <= ns <= 1000000000 -> 0 <= rounded_usec ns <= 1000000.
Proof. unfold rounded_usec. intros. dlia. Qed.

Lemma rounded_usec_small ns : 0 <= ns < 500 -> rounded_usec ns = 0.
Proof. unfold rounded_usec. intros. dlia. Qed.

Lemma rounded_usec_u32 ns : 0 <= ns <= 1000000000 -> u32 (ns + 500) / 1000 = rounded_usec ns.
Proof. intros. unfold rounded_usec. rewrite u32_small by lia. done. Qed.

Lemma carry_usec u ns :
  0 <= u <= 999999 -> 0 <= ns <= 1000000000 ->
  ulong (u + u32 (ns + 500) / 1000) = u + rounded_usec ns /\
  (1000000 <= u + rounded_usec ns -> (u + rounded_usec ns) mod 1000000 = u + rounded_usec ns - 1000000).
Proof.
  intros Hu Hns. rewrite rounded_usec_u32 by done. pose proof (rounded_usec_range ns Hns).
  split; [apply ulong_small; lia|]. intros. symmetry. apply Z.mod_unique_pos with 1; lia.
Qed.

(** Seconds and microseconds: the value with its carry into the minutes. *)
Lemma add_nanoseconds_ssff_value t ns :
  0 <= second t <= 59 -> 0 <= second_part t <= 999999 -> 0 <= ns <= 1000000000 ->
  exists c ss ff, add_nanoseconds_ssff ns t = Some (c, set_second_part ff (set_second ss t)) /\
    0 <= ss <= 59 /\ 0 <= ff <= 999999 /\
    ss * 1000000 + ff + (if c then 60000000 else 0) =
      second t * 1000000 + second_part t + rounded_usec ns.
Proof.
  intros Hs Hu Hns. unfold add_nanoseconds_ssff.
  rewrite (proj2 (Z.leb_le ns 1000000000)) by lia. cbn [negb].
  destruct (Z.ltb_spec ns 500).
  { exists false, (second t), (second_part t). rewrite rounded_usec_small by lia.
    split; [by destruct t|lia]. }
  destruct (carry_usec (second_part t) ns Hu Hns) as [-> Hc].
  pose proof (rounded_usec_range ns Hns). cbn [second_part set_second_part second].
  destruct (Z.ltb_spec (second_part t + rounded_usec ns) 1000000).
  { exists false, (second t), (second_part t + rounded_usec ns). split; [by destruct t|lia]. }
  rewrite Hc by done. destruct (Z.ltb_spec (second t) 59).
  - exists false, (second t + 1), (second_part t + rounded_usec ns - 1000000).
    rewrite u32_small by lia. split; [by destruct t|lia].
  - exists true, 0, (second_part t + rounded_usec ns - 1000000). split; [by destruct t|lia].
Qed.

(** [add_nanoseconds_mmssff] adds the nanoseconds, rounded half up to
    microseconds, to the minutes, seconds and microseconds of a value, with
    every carry: the sum is exact, the overflow into hours is exactly the
    returned flag, all three members stay in range and nothing else changes. *)
Theorem add_nanoseconds_exact t ns :
  mmssff_ok t -> 0 <= ns <= 1000000000 ->
  exists c mm ss ff,
    add_nanoseconds_mmssff ns t =
      Some (c, set_second_part ff (set_second ss (set_minute mm t))) /\
    0 <= mm <= 59 /\ 0 <= ss <= 59 /\ 0 <= ff <= 999999 /\
    (mm * 60 + ss) * 1000000 + ff + (if c then 3600000000 else 0) =
      (minute t * 60 + second t) * 1000000 + second_part t + rounded_usec ns.
Proof.
  intros (Hm & Hs & Hu) Hns. unfold add_nanoseconds_mmssff.
  destruct (add_nanoseconds_ssff_value t ns Hs Hu Hns) as (c & ss & ff & -> & Hss & Hff & E).
  cbn [mbind option_bind]. destruct c; cbn [negb].
  - cbn [minute set_second_part set_second]. destruct (Z.ltb_spec (minute t) 59).
    + exists false, (minute t + 1), ss, ff. rewrite u32_small by lia. split; [by destruct t|lia].
    + exists true, 0, ss, ff. split; [by destruct t|lia].
  - exists false, (minute t), ss, ff. split; [by destruct t|lia].
Qed.

(** The same for [Sec6]. *)
Lemma Sec6_add_nanoseconds_value x ns :
  0 <= m_usec x <= 999999 -> 0 <= ns <= 1000000000 ->
  exists c u, Sec6_add_nanoseconds ns x = Some (c, mk_sec6 (m_sec x) u (m_neg x) (m_truncated x)) /\
    0 <= u <= 999999 /\ u + (if c then 1000000 else 0) = m_usec x + rounded_usec ns.
Proof.
  intros Hu Hns. unfold Sec6_add_nanoseconds.
  rewrite (proj2 (Z.leb_le ns 1000000000)) by lia. cbn [negb].
  destruct (Z.ltb_spec ns 500).
  { exists false, (m_usec x). rewrite rounded_usec_small by lia. split; [by destruct x|lia]. }
  destruct (carry_usec (m_usec x) ns Hu Hns) as [-> Hc].
  pose proof (rounded_usec_range ns Hns). cbn [m_usec].
  destruct (Z.ltb_spec (m_usec x + rounded_usec ns) 1000000).
  - exists false, (m_usec x + rounded_usec ns). split; [done|lia].
  - rewrite Hc by done. exists true, (m_usec x + rounded_usec ns - 1000000). split; [done|lia].
Qed.

(** ** Seconds to TIME *)

Definition sec6_ok (x : Sec6) : Prop := urange 64 (m_sec x) /\ 0 <= m_usec x <= 999999.

Definition sec6_value (x : Sec6) : Z := signed (m_neg x) (m_sec x * 1000000 + m_usec x).

(** The TIME written for a number of seconds in range. *)
Lemma sec_to_time_run x dec t :
  sec6_ok x -> m_sec x <= TIME_MAX_VALUE_SECONDS ->
  sec_to_time x dec t =
    Some (false, mk_time 0 0 0 (m_sec x / 3600) (m_sec x mod 3600 / 60) (m_sec x mod 60)
                   (m_usec x) (m_neg x) MYSQL_TIMESTAMP_TIME).
Proof.
  intros [[Hs _] Hu] Hmax. unfold sec_to_time. rewrite set_zero_time_law.
  rewrite (proj2 (Z.ltb_ge _ _) Hmax). change TIME_MAX_VALUE_SECONDS with 3020399 in Hmax.
  unfold Sec6_usec, TIME_MAX_SECOND_PART. rewrite long_small by lia.
  rewrite (proj2 (Z.leb_le (m_usec x) 999999)) by lia. cbn [negb].
  rewrite (u32_small (m_sec x)) by lia.
  rewrite (u32_small (m_sec x / 3600)), (u32_small (m_sec x mod 3600)) by dlia. done.
Qed.

Lemma sec_to_time_ok x :
  sec6_ok x -> m_sec x <= TIME_MAX_VALUE_SECONDS ->
  time_ok (mk_time 0 0 0 (m_sec x / 3600) (m_sec x mod 3600 / 60) (m_sec x mod 60)
             (m_usec x) (m_neg x) MYSQL_TIMESTAMP_TIME).
Proof.
  intros [[Hs _] Hu] Hmax. change TIME_MAX_VALUE_SECONDS with 3020399 in Hmax.
  unfold time_ok, mmssff_ok, TIME_MAX_HOUR. cbn. repeat split; dlia.
Qed.

(** [Sec6::sec_to_time] splits a number of seconds up to 838:59:59 into
    hours, minutes and seconds: it returns [false] and the TIME written is in
    range and denotes the same signed number of microseconds; for a larger
    number it returns [true] with what [check_time_range] makes of 839 hours. *)
Theorem sec_to_time_exact x dec t :
  sec6_ok x ->
  (m_sec x <= TIME_MAX_VALUE_SECONDS ->
    exists t', sec_to_time x dec t = Some (false, t') /\ time_ok t' /\
      time_usec t' = sec6_value x) /\
  (TIME_MAX_VALUE_SECONDS < m_sec x ->
    exists t', sec_to_time x dec t = Some (true, t') /\
      t' = (check_time_range dec (mk_time 0 0 0 839 0 0 0 (m_neg x) MYSQL_TIMESTAMP_TIME) 0).1.2).
Proof.
  intros Hx. split; intros Hmax.
  - rewrite sec_to_time_run by done. eexists. split; [done|]. split; [by apply sec_to_time_ok|].
    unfold time_usec, sec6_value, abs_usec. cbn. f_equal. dlia.
  - unfold sec_to_time. rewrite set_zero_time_law, (proj2 (Z.ltb_lt _ _) Hmax).
    change (set_hour _ _) with (mk_time 0 0 0 839 0 0 0 (m_neg x) MYSQL_TIMESTAMP_TIME).
    destruct (check_time_range _ _ _) as [[rc t'] w] eqn:E. by exists t'.
Qed.

(** An integer converted to [Sec6] denotes the same number of seconds. *)
Lemma Sec6_hybrid_value nr :
  SqlInt.wf nr -> sec6_value (Sec6_hybrid nr) = SqlInt.denote nr * 1000000 /\ sec6_ok (Sec6_hybrid nr).
Proof.
  intros Hwf. unfold sec6_ok, sec6_value, Sec6_hybrid, Sec6_make_from_int. cbn [m_sec m_usec m_neg].
  rewrite SqlInt.abs_denote, SqlInt.neg_denote by done. repeat split; try lia.
  - destruct (Z.ltb_spec (SqlInt.denote nr) 0); cbn [signed]; lia.
  - destruct nr as [z []]; unfold SqlInt.denote, SqlInt.wf, srange in *; cbn [SqlInt.m_value SqlInt.m_unsigned] in *.
    + pose proof (wrap_range 64 z ltac:(lia)) as [? ?]. lia.
    + simpl Z.pow in *. lia.
Qed.

(** ** Sums of TIME values *)

Lemma signed_negb n z : signed (negb n) z = - signed n z.
Proof. destruct n; cbn; lia. Qed.

(** The sum a [Sec6_add] object holds. *)
Definition add_value (x : Sec6_add) : Z := signed (add_neg x) (add_sec x * 1000000 + add_usec x).

Lemma Sec6_add_value t1 t2 sign :
  time_ok t1 -> time_ok t2 -> sign = 1 \/ sign = -1 ->
  exists x, Sec6_add_make t1 t2 sign = Some x /\ add_error x = false /\
    0 <= add_sec x /\ 0 <= add_usec x <= 999999 /\
    add_value x = time_usec t1 + sign * time_usec t2.
Proof.
  intros H1 H2 Hs. unfold Sec6_add_make.
  rewrite (proj1 H1), (proj1 H2). change (type_is MYSQL_TIMESTAMP_TIME MYSQL_TIMESTAMP_TIME) with true.
  rewrite andb_false_r. cbn [negb].
  assert ((sign =? -1) || (sign =? 1) = true) as -> by (destruct Hs as [-> | ->]; done). cbn [negb].
  set (sg := if xorb (neg t1) (neg t2) then - sign else sign).
  destruct (calc_time_diff t1 t2 (- sg)) as [[n sec] usec] eqn:E.
  apply calc_time_diff_law in E as (Hsec & Hus & E); [|done..|subst sg; destruct (xorb _ _); lia].
  eexists. split; [done|]. cbn [add_error add_sec add_usec]. split_and!; [done|lia..|].
  unfold add_value. cbn [add_neg add_sec add_usec]. unfold time_usec.
  assert (signed (if neg t1 && (truth sec || truth usec) then negb n else n) (sec * 1000000 + usec) =
          signed (neg t1) (signed n (sec * 1000000 + usec))) as ->.
  { destruct (neg t1); cbn [andb signed]; [|done].
    destruct (truth sec || truth usec) eqn:Et; [apply signed_negb|].
    apply orb_false_iff in Et as [->%truth_false ->%truth_false]. by destruct n. }
  rewrite E. subst sg. destruct (neg t1), (neg t2); cbn [signed xorb]; lia.
Qed.

(** C29: ADDTIME / SUBTIME: for two TIME values whose sum (or difference) is
    within the largest TIME of [dec] decimals (+-838:59:59.99.. with [dec]
    nines, [dec] at most 6), building a [Sec6_add] and converting it with
    [to_time] fails no assertion, reports no error and gives a TIME in range
    that denotes exactly the signed sum (or difference). *)
Theorem sec6_add_time_exact thd t1 t2 sign dec :
  time_ok t1 -> time_ok t2 -> sign = 1 \/ sign = -1 -> dec_ok dec ->
  Z.abs (time_usec t1 + sign * time_usec t2) <= time_max_usec dec ->
  exists x t', Sec6_add_make t1 t2 sign = Some x /\
    Sec6_add_to_time thd x dec = (false, Some t') /\ time_ok t' /\
    time_usec t' = time_usec t1 + sign * time_usec t2.
Proof.
  intros H1 H2 Hs Hdec Hb.
  assert (time_max_usec dec <= 3020399999999) as Hmax.
  { unfold time_max_usec. change TIME_MAX_VALUE_SECONDS with 3020399. pose proof (unit_of_range dec Hdec).
    pose proof (Z.mod_pos_bound 999999 (unit_of dec)). lia. }
  destruct (Sec6_add_value t1 t2 sign H1 H2 Hs) as (x & E & Herr & Hsec & Hus & Hv).
  exists x. rewrite <- Hv in Hb |- *. unfold add_value in Hb.
  assert (0 <= add_sec x <= 3020399) as Hr.
  { destruct (add_neg x); cbn [signed] in Hb; lia. }
  unfold Sec6_add_to_time. rewrite Herr. unfold to_hh24mmssff, to_days_abs, SECONDS_IN_24H.
  rewrite (ulong_small (add_sec x mod 86400)) by dlia. rewrite calc_time_from_sec_law by (unfold SECONDS_IN_24H; dlia).
  rewrite (long_small (add_sec x / 86400)) by dlia. rewrite long_small by dlia.
  rewrite (u32_small (add_sec x / 86400 * 24)) by dlia. cbn.
  rewrite u32_small by dlia.
  match goal with |- context [adjust_time_range_with_warn thd dec ?t] => set (t' := t) end.
  assert (time_ok t') as Hok.
  { subst t'. unfold time_ok, mmssff_ok, TIME_MAX_HOUR. cbn. repeat split; dlia. }
  assert (abs_usec t' = add_sec x * 1000000 + add_usec x) as Ha.
  { unfold abs_usec. subst t'. cbn. dlia. }
  rewrite adjust_time_range_law; [|done..|rewrite Ha; destruct (add_neg x); cbn [signed] in Hb; lia].
  exists t'. split_and!; [done..|]. unfold time_usec, add_value. by rewrite Ha.
Qed.
End laws.
End TemporalProps.
