(* ===== verification/TimeValue.v ===== *)
(** * The class Time of include/mysql/server/private/sql_type.h

    [Time] holds a valid TIME or an undefined value ([MYSQL_TIMESTAMP_NONE]).
    Its constructors run from whatever the storage held before and leave the
    object in one of these two states; so do its rounding methods.  [TM] runs
    a constructor or method on the object and on [*warn]. *)

From Stdlib Require Import ZArith Lia.
From stdpp Require Import prelude strings.
From S2P Require Import Prelude SqlInt TimeModes Temporal TemporalProps.
Local Open Scope Z_scope.
Local Open Scope cint_scope.

Module TimeValue.
Import TimeModes Temporal TemporalProps.

(** ** Options *)

Inductive datetime_to_time_mode_t :=
  | DATETIME_TO_TIME_DISALLOW
  | DATETIME_TO_TIME_YYYYMMDD_000000DD_MIX_TO_HOURS
  | DATETIME_TO_TIME_YYYYMMDD_TRUNCATE
  | DATETIME_TO_TIME_YYYYMMDD_00000000_ONLY
  | DATETIME_TO_TIME_MINUS_CURRENT_DATE.

#[global] Instance datetime_to_time_mode_eq_dec : EqDecision datetime_to_time_mode_t.
Proof. solve_decision. Defined.

Definition default_flags_for_get_date : date_conv_mode_t := conv_or TIME_TIME_ONLY TIME_INVALID_DATES.
Definition comparison_flags_for_get_date : date_conv_mode_t :=
  conv_or (conv_or TIME_TIME_ONLY TIME_INVALID_DATES) TIME_FUZZY_DATES.

Record Options := mk_opt { opt_mode : date_mode_t; m_datetime_to_time_mode : datetime_to_time_mode_t }.

Definition default_datetime_to_time_mode : datetime_to_time_mode_t :=
  DATETIME_TO_TIME_YYYYMMDD_000000DD_MIX_TO_HOURS.

Section env.
Context {env : TimeEnv}.

(** The constructors of [Options]; the base class asserts the flags' range. *)
Definition Options_full (fuzzydate : date_conv_mode_t) (rm : time_round_mode_t)
    (dtmode : datetime_to_time_mode_t) : option Options :=
  m ← Options_parts fuzzydate rm; Some (mk_opt m dtmode).
Definition Options_thd (thd : THD) : option Options :=
  Options_full default_flags_for_get_date (default_round_mode thd) default_datetime_to_time_mode.
Definition Options_flags_thd (flags : date_conv_mode_t) (thd : THD) : option Options :=
  Options_full flags (default_round_mode thd) default_datetime_to_time_mode.
Definition Options_flags_thd_mode (flags : date_conv_mode_t) (thd : THD)
    (dtmode : datetime_to_time_mode_t) : option Options :=
  Options_full flags (default_round_mode thd) dtmode.

Definition Options_for_cast (thd : THD) : option Options :=
  Options_full default_flags_for_get_date (default_round_mode thd) DATETIME_TO_TIME_YYYYMMDD_TRUNCATE.
Definition Options_for_cast_mode (mode : date_mode_t) (thd : THD) : option Options :=
  Options_full (conv_or default_flags_for_get_date (and_mode_conv mode TIME_FUZZY_DATES))
    (default_round_mode thd) DATETIME_TO_TIME_YYYYMMDD_TRUNCATE.
Definition Options_for_round (rm : time_round_mode_t) : option Options :=
  Options_full default_flags_for_get_date rm DATETIME_TO_TIME_DISALLOW.
Definition Options_cmp (thd : THD) : option Options :=
  Options_flags_thd comparison_flags_for_get_date thd.
Definition Options_cmp_mode (thd : THD) (dtmode : datetime_to_time_mode_t) : option Options :=
  Options_full comparison_flags_for_get_date (default_round_mode thd) dtmode.

(** ** Validity checks *)

Definition is_valid_time_slow (t : MYSQL_TIME) : bool :=
  type_is (time_type t) MYSQL_TIMESTAMP_TIME && has_zero_YYYYMMDD t && has_valid_mmssff t.

Definition is_valid_value_slow (t : MYSQL_TIME) : bool :=
  type_is (time_type t) MYSQL_TIMESTAMP_NONE || is_valid_time_slow t.

Definition is_valid_time : TM bool :=
  assert_ (fun s => is_valid_value_slow (this s));;
  get_this (fun t => type_is (time_type t) MYSQL_TIMESTAMP_TIME).

(** ** Conversion to a valid value *)

Definition hhmmssff_copy (from t : MYSQL_TIME) : MYSQL_TIME :=
  set_second_part (second_part from) (set_second (second from)
    (set_minute (minute from) (set_hour (hour from) t))).

Definition datetime_to_time_YYYYMMDD_000000DD_mix_to_hours (from_year from_month from_day : Z) : TM unit :=
  if negb (from_year =? 0) || negb (from_month =? 0)
  then upd_warn (fun w => Z.lor w MYSQL_TIME_NOTE_TRUNCATED)
  else upd (fun t => set_hour (u32 (hour t + u32 (from_day * 24))) t).

(** The warnings of [check_time_range] go to a local variable. *)
Definition datetime_to_time_minus_current_date (thd : THD) : TM unit :=
  upd (fun t => (calc_time_diff_TIME t (set_current_date thd) 1 (date_mode 0)).2);;
  upd (fun t => (check_time_range TIME_SECOND_PART_DIGITS t 0).1.2);;
  b ← is_valid_time;
  assert_ (fun _ => b).

Definition valid_datetime_to_valid_time (thd : THD) (opt : Options) : TM unit :=
  assert_ (fun s => type_is (time_type (this s)) MYSQL_TIMESTAMP_DATE ||
                    type_is (time_type (this s)) MYSQL_TIMESTAMP_DATETIME);;
  assert_ (fun s => day (this s) <? 32);;
  assert_ (fun s => hour (this s) <? 24);;
  (if decide (m_datetime_to_time_mode opt = DATETIME_TO_TIME_MINUS_CURRENT_DATE)
   then datetime_to_time_minus_current_date thd
   else
     ymd ← get_this (fun t => (year t, month t, day t));
     (if decide (m_datetime_to_time_mode opt = DATETIME_TO_TIME_YYYYMMDD_000000DD_MIX_TO_HOURS)
      then datetime_to_time_YYYYMMDD_000000DD_mix_to_hours ymd.1.1 ymd.1.2 ymd.2
      else mret tt);;
     upd (fun t => set_time_type MYSQL_TIMESTAMP_TIME (set_year 0 (set_month 0 (set_day 0 t)))));;
  assert_ (fun s => is_valid_time_slow (this s)).

Definition valid_MYSQL_TIME_to_valid_value (thd : THD) (opt : Options) : TM unit :=
  t ← get_this id;
  match time_type t with
  | MYSQL_TIMESTAMP_DATE | MYSQL_TIMESTAMP_DATETIME =>
      if bool_decide (m_datetime_to_time_mode opt = DATETIME_TO_TIME_YYYYMMDD_00000000_ONLY) &&
         (truth (year t) || truth (month t) || truth (day t))
      then make_from_out_of_range
      else if bool_decide (m_datetime_to_time_mode opt = DATETIME_TO_TIME_DISALLOW)
      then make_from_out_of_range
      else valid_datetime_to_valid_time thd opt
  | MYSQL_TIMESTAMP_NONE => mret tt
  | MYSQL_TIMESTAMP_ERROR => upd (set_zero_time MYSQL_TIMESTAMP_TIME)
  | MYSQL_TIMESTAMP_TIME => assert_ (fun s => is_valid_time_slow (this s))
  end.

Definition xxx_to_time_result_to_valid_value (thd : THD) (opt : Options) : TM unit :=
  assert_ (fun s => negb (type_is (time_type (this s)) MYSQL_TIMESTAMP_ERROR));;
  valid_MYSQL_TIME_to_valid_value thd opt.

Definition adjust_time_range_or_invalidate : TM unit :=
  rc ← call (check_time_range TIME_SECOND_PART_DIGITS);
  (if truth rc then upd (set_time_type MYSQL_TIMESTAMP_NONE) else mret tt);;
  assert_ (fun s => is_valid_value_slow (this s)).

(** ** Rounding *)

Definition Time_fraction_remainder (dec : Z) : TM Z := fun s =>
  match (b ← is_valid_time; assert_ (fun _ => b)) s with
  | Some _ => r ← fraction_remainder dec (this s); Some (r, s)
  | None => None
  end.

Definition trunc (dec : Z) : TM unit :=
  b ← is_valid_time;
  (if (b : bool) then upd_opt (fun t => my_time_trunc t dec) else mret tt);;
  assert_ (fun s => is_valid_value_slow (this s)).

Definition ceiling : TM unit :=
  b ← is_valid_time;
  (if (b : bool) then
     t ← get_this id;
     if neg t then upd_opt (fun t => my_time_trunc t 0)
     else if truth (second_part t) then call (Time_round_or_set_max_nsec 0 999999999)
     else mret tt
   else mret tt);;
  assert_ (fun s => is_valid_value_slow (this s)).

Definition floor : TM unit :=
  b ← is_valid_time;
  (if (b : bool) then
     t ← get_this id;
     if negb (neg t) then upd_opt (fun t => my_time_trunc t 0)
     else if truth (second_part t) then call (Time_round_or_set_max_nsec 0 999999999)
     else mret tt
   else mret tt);;
  assert_ (fun s => is_valid_value_slow (this s)).

Definition round (dec : Z) : TM unit :=
  b ← is_valid_time;
  (if (b : bool) then call (Time_round_or_set_max dec) else mret tt);;
  assert_ (fun s => is_valid_value_slow (this s)).

(** [round(dec, mode, warn)]: the switch over the three rounding modes. *)
Definition round_with_mode (dec : Z) (mode : time_round_mode_t) : TM unit :=
  if round_mode_mode mode =? Round.FRAC_NONE
  then r ← Time_fraction_remainder dec; assert_ (fun _ => r =? 0);; trunc dec
  else if round_mode_mode mode =? Round.FRAC_TRUNCATE then trunc dec
  else if round_mode_mode mode =? Round.FRAC_ROUND then round dec
  else mret tt.

(** ** Constructors *)

Definition Time_default : TM unit := upd (set_time_type MYSQL_TIMESTAMP_NONE).

(** From a [MYSQL_TIME]; warnings go to a local variable. *)
Definition Time_from_MYSQL_TIME (thd : THD) (ltime : MYSQL_TIME) (opt : Options) : TM unit := fun s =>
  match (upd (fun _ => ltime);;
         assert_ (fun s => match is_valid_temporal (this s) with Some b => b | None => false end);;
         upd_warn (fun _ => 0);;
         valid_MYSQL_TIME_to_valid_value thd opt) s with
  | Some (_, s') => Some (tt, mk_ts (this s') (warn s))
  | None => None
  end.

Definition Time_from_str (thd : THD) (str : string) (cs : CHARSET_INFO) (opt : Options) : TM unit :=
  rc ← call (str_to_datetime_or_date_or_time thd str cs (opt_mode opt));
  if (rc : bool) then upd (set_time_type MYSQL_TIMESTAMP_NONE)
  else xxx_to_time_result_to_valid_value thd opt.

Definition Time_from_Sec6 (thd : THD) (nr : Sec6) (opt : Options) : TM unit :=
  rc ← to_datetime_or_time nr TIME_INVALID_DATES;
  (if (rc : bool) then upd (set_time_type MYSQL_TIMESTAMP_NONE) else mret tt);;
  xxx_to_time_result_to_valid_value thd opt.

Definition Time_from_Sec9 (thd : THD) (nr : Sec9) (opt : Options) : TM unit :=
  Time_from_Sec6 thd (sec6 nr) opt;;
  b ← is_valid_time;
  if (b : bool) then
    r ← round_of (opt_mode opt);
    if round_eq r TIME_FRAC_ROUND then call (Time_round_or_set_max_nsec 6 (m_nsec nr)) else mret tt
  else mret tt.

Definition Time_from_hybrid (thd : THD) (nr : SqlInt.Longlong_hybrid) (opt : Options) : TM unit :=
  Time_from_Sec6 thd (Sec6_hybrid nr) opt.

(** The constructors with a number of decimals. *)
Definition Time_from_str_dec (thd : THD) (str : string) (cs : CHARSET_INFO) (opt : Options) (dec : Z) : TM unit :=
  Time_from_str thd str cs opt;;
  r ← round_of (opt_mode opt);
  round_with_mode dec r.

Definition Time_from_hybrid_dec (thd : THD) (nr : SqlInt.Longlong_hybrid) (opt : Options) (dec : Z) : TM unit :=
  Time_from_hybrid thd nr opt;; trunc dec.

Definition Time_from_Sec9_dec (thd : THD) (nr : Sec9) (opt : Options) (dec : Z) : TM unit :=
  Time_from_Sec9 thd nr opt;;
  r ← round_of (opt_mode opt);
  round_with_mode dec r.

(** ** Reading *)

Definition copy_to_mysql_time (t ltime : MYSQL_TIME) : option (bool * MYSQL_TIME) :=
  if type_is (time_type t) MYSQL_TIMESTAMP_NONE
  then Some (true, set_time_type MYSQL_TIMESTAMP_NONE ltime)
  else if is_valid_time_slow t then Some (false, t) else None.

(** [hour * 3600L + minute * 60 + second]: with a 32-bit [long] the sum is an
    [unsigned long]. *)
Definition to_seconds_abs (t : MYSQL_TIME) : option Z :=
  if is_valid_time_slow t
  then Some (ulong (ulong (hour t * 3600) + u32 (minute t * 60) + second t)) else None.

Definition to_seconds (t : MYSQL_TIME) : option Z :=
  s ← to_seconds_abs t; Some (if neg t then - s else s).

Definition to_longlong (t : MYSQL_TIME) : option Z :=
  if negb (is_valid_value_slow t) then None
  else if negb (type_is (time_type t) MYSQL_TIMESTAMP_TIME) then Some 0
  else let v := TIME_to_ulonglong_time t in Some (if neg t then s64 (- s64 v) else s64 v).

Definition to_packed (t : MYSQL_TIME) : option Z :=
  if negb (is_valid_value_slow t) then None
  else Some (if type_is (time_type t) MYSQL_TIMESTAMP_TIME then pack_time t else 0).

Definition valid_time_to_packed (t : MYSQL_TIME) : option Z :=
  if is_valid_time_slow t then Some (pack_time t) else None.

Definition cmp (t other : MYSQL_TIME) : option Z :=
  if is_valid_time_slow t && is_valid_time_slow other then
    p0 ← to_packed t;
    p1 ← to_packed other;
    Some (if p0 <? p1 then -1 else if p1 <? p0 then 1 else 0)
  else None.

End env.
End TimeValue.
