(* ===== verification/TimeValueProps.v ===== *)
(** * Properties of the class Time

    Every constructor and rounding method of [Time] (private/sql_type.h)
    leaves a valid TIME or an undefined value and fails none of its
    assertions, given what the headers document of the parsing and range
    functions it calls; and what the conversions of a DATE or DATETIME give. *)

From Stdlib Require Import ZArith Lia.
From stdpp Require Import prelude strings.
From S2P Require Import Prelude SqlInt TimeModes Temporal TemporalProps TimeValue.
Local Open Scope Z_scope.
Local Open Scope cint_scope.

Module TimeValueProps.
Import TimeModes Temporal TemporalProps TimeValue.

(** ** The class's contract *)

(** What [str_to_xxx()] and [number_to_xxx()] may leave in a [MYSQL_TIME]: a
    TIME in range, a DATE or DATETIME with its parts in range, or nothing. *)
Definition valid_result (t : MYSQL_TIME) : Prop :=
  match time_type t with
  | MYSQL_TIMESTAMP_TIME => time_ok t
  | MYSQL_TIMESTAMP_DATE | MYSQL_TIMESTAMP_DATETIME =>
      0 <= day t < 32 /\ 0 <= hour t < 24 /\ mmssff_ok t
  | MYSQL_TIMESTAMP_NONE => True
  | MYSQL_TIMESTAMP_ERROR => False
  end.

Lemma valid_result_date t :
  time_type t = MYSQL_TIMESTAMP_DATE \/ time_type t = MYSQL_TIMESTAMP_DATETIME ->
  valid_result t -> 0 <= day t < 32 /\ 0 <= hour t < 24 /\ mmssff_ok t.
Proof. unfold valid_result. by intros [-> | ->]. Qed.

(** What a [Time] object may hold. *)
Definition value_ok (t : MYSQL_TIME) : Prop := time_type t = MYSQL_TIMESTAMP_NONE \/ time_ok t.

(** The documented behaviour of the functions implemented elsewhere: parsers
    return valid values or set a warning, a difference is a TIME of any
    length, [check_time_range] brings it into range, rounding keeps a TIME
    in range ("or set max"). *)
Class TimeTypeLaws (env : TimeEnv) : Prop := {
  number_to_time_only_law : forall n nr sp t w rc t' w',
    number_to_time_only n nr sp TIME_MAX_HOUR t w = (rc, t', w') ->
    (rc <> 0 -> w' <> 0) /\ (rc = 0 -> valid_result t');
  number_to_datetime_law : forall nr sp fl t w r t' w',
    number_to_datetime_or_date nr sp fl t w = (r, t', w') ->
    (r < 0 -> r = -1 /\ w' <> 0) /\ (0 <= r -> valid_result t');
  str_to_time_law : forall thd str cs m t w t' w',
    str_to_datetime_or_date_or_time thd str cs m t w = (false, t', w') -> valid_result t';
  calc_time_diff_TIME_law : forall t1 t2 sign m,
    let t := (calc_time_diff_TIME t1 t2 sign m).2 in
    time_type t = MYSQL_TIMESTAMP_TIME /\ year t = 0 /\ month t = 0 /\ day t = 0 /\
    0 <= hour t /\ mmssff_ok t;
  check_time_range_law : forall dec t w,
    time_type t = MYSQL_TIMESTAMP_TIME -> year t = 0 -> month t = 0 -> day t = 0 ->
    0 <= hour t -> mmssff_ok t -> 0 <= dec <= 6 ->
    time_ok (check_time_range dec t w).1.2;
  round_nsec_law : forall dec nsec t w, time_ok t ->
    time_ok (Time_round_or_set_max_nsec dec nsec t w).1.2;
  round_law : forall dec t w, time_ok t -> time_ok (Time_round_or_set_max dec t w).1.2;
}.

Lemma time_ok_slow t : time_ok t -> is_valid_time_slow t = true.
Proof.
  intros (Hty & Hy & Hm & Hd & _ & H1 & H2 & H3).
  unfold is_valid_time_slow, has_zero_YYYYMMDD, has_valid_mmssff.
  rewrite Hty, Hy, Hm, Hd. cbn.
  rewrite !(proj2 (Z.leb_le _ _)) by (unfold TIME_MAX_MINUTE, TIME_MAX_SECOND, TIME_MAX_SECOND_PART; lia).
  done.
Qed.

Lemma value_ok_slow t : value_ok t -> is_valid_value_slow t = true.
Proof.
  unfold is_valid_value_slow. intros [-> | H]; [done|]. by rewrite time_ok_slow, orb_true_r.
Qed.

#[export] Hint Resolve time_ok_slow value_ok_slow : cint.

Lemma type_is_spec a b : type_is a b = bool_decide (a = b).
Proof. by destruct a, b. Qed.

Lemma value_ok_time t : value_ok t -> type_is (time_type t) MYSQL_TIMESTAMP_TIME = true -> time_ok t.
Proof. intros [E | H]; [by rewrite E|done]. Qed.

Section env.
Context {env : TimeEnv}.

Lemma wp_is_valid_time (Q : bool -> tstate -> Prop) s :
  value_ok (this s) ->
  (time_ok (this s) -> Q true s) ->
  (time_type (this s) = MYSQL_TIMESTAMP_NONE -> Q false s) ->
  wp is_valid_time Q s.
Proof.
  intros H H1 H2. unfold is_valid_time. wp_step. wp_step; [by apply value_ok_slow|].
  wp_step. destruct H as [E | H]; [rewrite E; auto|]. rewrite (proj1 H). auto.
Qed.

(** The assertion that closes each method. *)
Lemma wp_value_assert s :
  value_ok (this s) ->
  wp (assert_ (fun s => is_valid_value_slow (this s))) (fun _ s' => value_ok (this s')) s.
Proof. intros H. apply wp_assert; [by apply value_ok_slow|done]. Qed.

Section laws.
Context {laws : TimeLaws env} {tlaws : TimeTypeLaws env}.

(** ** Conversion to TIME *)

Lemma minus_current_date_ok thd s :
  wp (datetime_to_time_minus_current_date thd) (fun _ s' => time_ok (this s')) s.
Proof.
  unfold datetime_to_time_minus_current_date. wp_step. wp_step. wp_step. wp_step. wp_step.
  destruct (calc_time_diff_TIME_law (this s) (set_current_date thd) 1 (date_mode 0))
    as (H1 & H2 & H3 & H4 & H5 & H6).
  pose proof (check_time_range_law TIME_SECOND_PART_DIGITS _ 0 H1 H2 H3 H4 H5 H6 ltac:(done)) as Hok.
  apply wp_is_valid_time; [by right|..].
  - intros _. apply wp_assert; done.
  - cbn [this]. intros E. rewrite (proj1 Hok) in E. done.
Qed.

(** Clearing the date of a DATE or DATETIME leaves a TIME in range; mixing the
    days into the hours gives at most 31 * 24 + 23 hours. *)
Lemma date_cleared_ok t h :
  0 <= h <= 767 -> mmssff_ok t ->
  time_ok (set_time_type MYSQL_TIMESTAMP_TIME (set_year 0 (set_month 0 (set_day 0 (set_hour h t))))).
Proof. intros Hh H. unfold time_ok, TIME_MAX_HOUR. cbn. repeat split; try lia; apply H. Qed.

Lemma set_hour_id t : set_hour (hour t) t = t.
Proof. by destruct t. Qed.

Lemma valid_datetime_ok thd opt s :
  time_type (this s) = MYSQL_TIMESTAMP_DATE \/ time_type (this s) = MYSQL_TIMESTAMP_DATETIME ->
  valid_result (this s) ->
  wp (valid_datetime_to_valid_time thd opt) (fun _ s' => time_ok (this s')) s.
Proof.
  intros Hty Hv. destruct (valid_result_date _ Hty Hv) as (Hd & Hh & Hm).
  unfold valid_datetime_to_valid_time.
  wp_step. wp_step; [destruct Hty as [-> | ->]; done|].
  wp_step. wp_step; [apply Z.ltb_lt; lia|]. wp_step. wp_step; [apply Z.ltb_lt; lia|].
  wp_step. assert (forall s', time_ok (this s') ->
    wp (assert_ (fun s => is_valid_time_slow (this s))) (fun _ s' => time_ok (this s')) s') as Hend.
  { intros s' Hs'. apply wp_assert; [by apply time_ok_slow|done]. }
  case_decide as Hmc.
  { eapply wp_mono; [apply minus_current_date_ok|]. intros [] s' Hs'. by apply Hend. }
  wp_step. wp_step. cbn [fst snd]. wp_step.
  assert (forall h w, 0 <= h <= 767 ->
    wp (upd (fun t => set_time_type MYSQL_TIMESTAMP_TIME (set_year 0 (set_month 0 (set_day 0 t)))))
      (fun _ s' => wp (assert_ (fun s => is_valid_time_slow (this s))) (fun _ s' => time_ok (this s')) s')
      (mk_ts (set_hour h (this s)) w)) as Hfin.
  { intros h w Hb. apply wp_upd, Hend. cbn [this]. by apply date_cleared_ok. }
  destruct s as [t w]. cbn [this warn] in *. case_decide.
  - unfold datetime_to_time_YYYYMMDD_000000DD_mix_to_hours. destruct (negb _ || negb _).
    + wp_step. rewrite <- (set_hour_id t). apply Hfin. lia.
    + wp_step. rewrite (u32_small (day t * 24)), u32_small by lia. apply Hfin. lia.
  - wp_step. rewrite <- (set_hour_id t). apply Hfin. lia.
Qed.

Lemma out_of_range_ok s : wp make_from_out_of_range (fun _ s' => value_ok (this s')) s.
Proof. unfold make_from_out_of_range. wp_go. by left. Qed.

Lemma time_ok_value m s :
  wp m (fun _ s' => time_ok (this s')) s -> wp (A := unit) m (fun _ s' => value_ok (this s')) s.
Proof. intros H. eapply wp_mono; [exact H|]. intros [] s' Hs. by right. Qed.

Lemma to_valid_value_ok thd opt s :
  valid_result (this s) ->
  wp (valid_MYSQL_TIME_to_valid_value thd opt) (fun _ s' => value_ok (this s')) s.
Proof.
  intros Hv. unfold valid_MYSQL_TIME_to_valid_value. wp_step. wp_step. cbn [id].
  pose proof (valid_datetime_ok thd opt s) as Hdt.
  unfold valid_result in Hv. destruct (time_type (this s)) eqn:Ety; cbn [id]; rewrite ?Ety.
  - wp_step. by left.
  - done.
  - destruct (_ && _); [apply out_of_range_ok|]. destruct (bool_decide _); [apply out_of_range_ok|].
    apply time_ok_value, Hdt; [tauto|]. unfold valid_result. by rewrite Ety.
  - destruct (_ && _); [apply out_of_range_ok|]. destruct (bool_decide _); [apply out_of_range_ok|].
    apply time_ok_value, Hdt; [tauto|]. unfold valid_result. by rewrite Ety.
  - apply wp_assert; [by apply time_ok_slow|by right].
Qed.

Lemma xxx_result_ok thd opt s :
  valid_result (this s) ->
  wp (xxx_to_time_result_to_valid_value thd opt) (fun _ s' => value_ok (this s')) s.
Proof.
  intros Hv. unfold xxx_to_time_result_to_valid_value. wp_step.
  wp_step; [unfold valid_result in Hv; by destruct (time_type (this s))|]. by apply to_valid_value_ok.
Qed.

(** ** Rounding *)

Lemma trunc_ok dec s :
  0 <= dec <= 6 -> value_ok (this s) -> wp (trunc dec) (fun _ s' => value_ok (this s')) s.
Proof.
  intros Hd H. unfold trunc. wp_step. apply wp_is_valid_time; [done|..]; intros Ht; wp_step.
  - destruct (time_trunc_ok (this s) dec Ht Hd) as (t' & E & Ht').
    eapply wp_upd_opt; [exact E|]. apply wp_value_assert. by right.
  - wp_step. by apply wp_value_assert.
Qed.

Lemma wp_round_nsec dec nsec s :
  time_ok (this s) ->
  wp (call (Time_round_or_set_max_nsec dec nsec)) (fun _ s' => time_ok (this s')) s.
Proof. intros Ht. wp_step. intros a t w E. pose proof (round_nsec_law dec nsec _ (warn s) Ht) as H. by rewrite E in H. Qed.

(** [ceiling] and [floor] differ in the sign that truncates. *)
Lemma toward_ok (sel : MYSQL_TIME -> bool) s :
  value_ok (this s) ->
  wp (b ← is_valid_time;
      (if (b : bool) then
         t ← get_this id;
         if sel t then upd_opt (fun t => my_time_trunc t 0)
         else if truth (second_part t) then call (Time_round_or_set_max_nsec 0 999999999)
         else mret tt
       else mret tt);;
      assert_ (fun s => is_valid_value_slow (this s)))
    (fun _ s' => value_ok (this s')) s.
Proof.
  intros H. wp_step. apply wp_is_valid_time; [done|..]; intros Ht; wp_step.
  - wp_step. wp_step. cbn [id]. apply wp_if; intros _.
    + destruct (time_trunc_ok (this s) 0 Ht ltac:(lia)) as (t' & E & Ht').
      eapply wp_upd_opt; [exact E|]. apply wp_value_assert. by right.
    + apply wp_if; intros _; [|wp_step; by apply wp_value_assert].
      eapply wp_mono; [by apply wp_round_nsec|]. intros [] s' Hs. apply wp_value_assert. by right.
  - wp_step. by apply wp_value_assert.
Qed.

Lemma round_ok dec s : value_ok (this s) -> wp (round dec) (fun _ s' => value_ok (this s')) s.
Proof.
  intros H. unfold round. wp_step. apply wp_is_valid_time; [done|..]; intros Ht; wp_step.
  - wp_step. intros a t w E. apply wp_value_assert. right.
    pose proof (round_law dec _ (warn s) Ht) as Hr. by rewrite E in Hr.
  - wp_step. by apply wp_value_assert.
Qed.

(** Rounding under a mode other than FRAC_NONE. *)
Lemma round_with_mode_ok dec mode s :
  0 <= dec <= 6 -> known_round mode -> mode <> TIME_FRAC_NONE -> value_ok (this s) ->
  wp (round_with_mode dec mode) (fun _ s' => value_ok (this s')) s.
Proof.
  intros Hd [-> | [-> | ->]] Hn H; [done|..]; unfold round_with_mode; cbn.
  - by apply trunc_ok.
  - by apply round_ok.
Qed.

(** ** Constructors *)

Lemma to_datetime_or_time_ok nr mode s :
  wp (to_datetime_or_time nr mode) (fun rc s' => rc = false -> valid_result (this s')) s.
Proof.
  unfold to_datetime_or_time. wp_step. apply wp_if; intros _; wp_step.
  - wp_step. intros r t w E. wp_step. wp_step. apply number_to_datetime_law in E as [E1 E2].
    wp_step; [|wp_step; intros Hr; apply E2; by apply Z.ltb_ge].
    destruct (Z.ltb_spec r 0); [|by rewrite orb_true_r]. cbn [negb]. rewrite orb_false_r.
    apply truth_true. by apply E1.
  - wp_step. intros r t w E. wp_step. wp_step. apply number_to_time_only_law in E as [E1 E2].
    wp_step; [|wp_step; rewrite truth_false; auto].
    destruct (truth r) eqn:Er; [|by rewrite orb_true_r]. cbn [negb]. rewrite orb_false_r.
    apply truth_true, E1. by apply truth_true.
Qed.

Lemma from_Sec6_ok thd nr opt s :
  wp (Time_from_Sec6 thd nr opt) (fun _ s' => value_ok (this s')) s.
Proof.
  unfold Time_from_Sec6. wp_step. eapply wp_mono; [apply to_datetime_or_time_ok|].
  intros [] s' Hs; wp_step; wp_step; apply xxx_result_ok; [done|by apply Hs].
Qed.

Lemma from_Sec9_ok thd nr opt s r :
  mode_round (opt_mode opt) = Some r ->
  wp (Time_from_Sec9 thd nr opt) (fun _ s' => value_ok (this s')) s.
Proof.
  intros Er. unfold Time_from_Sec9. wp_step. eapply wp_mono; [apply from_Sec6_ok|]. intros [] s' Hs.
  wp_step. apply wp_is_valid_time; [done|..]; intros Ht.
  - wp_step. exists r, s'. unfold round_of. rewrite Er. split; [done|]. apply wp_if; intros _.
    + by apply time_ok_value, wp_round_nsec.
    + wp_step. by right.
  - wp_step. by left.
Qed.

Lemma from_str_ok thd str cs opt s :
  wp (Time_from_str thd str cs opt) (fun _ s' => value_ok (this s')) s.
Proof.
  unfold Time_from_str. wp_step. wp_step. intros [] t w E.
  - wp_step. by left.
  - apply xxx_result_ok. cbn [this]. by eapply str_to_time_law.
Qed.

Lemma from_MYSQL_TIME_ok thd ltime opt s :
  valid_result ltime -> time_type ltime <> MYSQL_TIMESTAMP_NONE ->
  wp (Time_from_MYSQL_TIME thd ltime opt) (fun _ s' => value_ok (this s')) s.
Proof.
  intros Hv Hn. unfold Time_from_MYSQL_TIME.
  assert (wp (upd (fun _ => ltime);;
    assert_ (fun s => match is_valid_temporal (this s) with Some b => b | None => false end);;
    upd_warn (fun _ => 0);; valid_MYSQL_TIME_to_valid_value thd opt)
    (fun _ s' => value_ok (this s')) s) as (a & s' & E & H).
  { wp_step. wp_step. wp_step. wp_step.
    { unfold valid_result, is_valid_temporal in *. by destruct (time_type ltime). }
    wp_step. wp_step. by apply to_valid_value_ok. }
  unfold wp. rewrite E. by eexists tt, _.
Qed.

(** ** Programs over a Time object *)

Inductive ctor :=
  | CDefault
  | CFromMYSQL_TIME (ltime : MYSQL_TIME) (opt : Options)
  | CFromSec6 (nr : Sec6) (opt : Options)
  | CFromSec9 (nr : Sec9) (opt : Options)
  | CFromSec9Dec (nr : Sec9) (opt : Options) (dec : Z)
  | CFromHybrid (nr : SqlInt.Longlong_hybrid) (opt : Options)
  | CFromHybridDec (nr : SqlInt.Longlong_hybrid) (opt : Options) (dec : Z)
  | CFromStr (str : string) (cs : CHARSET_INFO) (opt : Options)
  | CFromStrDec (str : string) (cs : CHARSET_INFO) (opt : Options) (dec : Z).

Inductive meth :=
  | MTrunc (dec : Z) | MCeiling | MFloor | MRound (dec : Z)
  | MRoundMode (dec : Z) (mode : time_round_mode_t).

Definition run_ctor (thd : THD) (c : ctor) : TM unit :=
  match c with
  | CDefault => Time_default
  | CFromMYSQL_TIME ltime opt => Time_from_MYSQL_TIME thd ltime opt
  | CFromSec6 nr opt => Time_from_Sec6 thd nr opt
  | CFromSec9 nr opt => Time_from_Sec9 thd nr opt
  | CFromSec9Dec nr opt dec => Time_from_Sec9_dec thd nr opt dec
  | CFromHybrid nr opt => Time_from_hybrid thd nr opt
  | CFromHybridDec nr opt dec => Time_from_hybrid_dec thd nr opt dec
  | CFromStr str cs opt => Time_from_str thd str cs opt
  | CFromStrDec str cs opt dec => Time_from_str_dec thd str cs opt dec
  end.

Definition run_meth (m : meth) : TM unit :=
  match m with
  | MTrunc dec => trunc dec
  | MCeiling => ceiling
  | MFloor => floor
  | MRound dec => round dec
  | MRoundMode dec mode => round_with_mode dec mode
  end.

Fixpoint run_meths (ms : list meth) : TM unit :=
  match ms with [] => mret tt | m :: ms => run_meth m;; run_meths ms end.

(** The callers' side ([dec_ok], [mode_ok]): a [MYSQL_TIME] argument is a valid defined value, the
    options name a rounding mode, decimals are at most 6, and an object is
    rounded under FRAC_TRUNCATE or FRAC_ROUND. *)
Definition opt_ok (opt : Options) : Prop := exists r, mode_round (opt_mode opt) = Some r /\ mode_ok r.

Definition ctor_ok (c : ctor) : Prop :=
  match c with
  | CDefault | CFromSec6 _ _ | CFromHybrid _ _ | CFromStr _ _ _ => True
  | CFromMYSQL_TIME ltime _ => valid_result ltime /\ time_type ltime <> MYSQL_TIMESTAMP_NONE
  | CFromSec9 _ opt => opt_ok opt
  | CFromSec9Dec _ opt dec | CFromStrDec _ _ opt dec => opt_ok opt /\ dec_ok dec
  | CFromHybridDec _ _ dec => dec_ok dec
  end.

Definition meth_ok (m : meth) : Prop :=
  match m with
  | MCeiling | MFloor => True
  | MTrunc dec | MRound dec => dec_ok dec
  | MRoundMode dec mode => dec_ok dec /\ mode_ok mode
  end.

Lemma mode_ok_round dec mode s :
  dec_ok dec -> mode_ok mode -> value_ok (this s) ->
  wp (round_with_mode dec mode) (fun _ s' => value_ok (this s')) s.
Proof.
  intros Hd Hm H. apply round_with_mode_ok; [done| |by destruct Hm as [-> | ->]|done].
  right. exact Hm.
Qed.

Lemma opt_round_ok opt dec s :
  opt_ok opt -> dec_ok dec -> value_ok (this s) ->
  wp (r ← round_of (opt_mode opt); round_with_mode dec r) (fun _ s' => value_ok (this s')) s.
Proof.
  intros (r & Er & Hr) Hd H. wp_step. exists r, s. unfold round_of. rewrite Er. split; [done|].
  by apply mode_ok_round.
Qed.

Lemma run_ctor_ok thd c s : ctor_ok c -> wp (run_ctor thd c) (fun _ s' => value_ok (this s')) s.
Proof.
  destruct c; cbn [ctor_ok run_ctor]; intros H.
  - unfold Time_default. wp_step. by left.
  - destruct H. by apply from_MYSQL_TIME_ok.
  - apply from_Sec6_ok.
  - destruct H as (r & Er & _). by eapply from_Sec9_ok.
  - destruct H as [Ho Hd]. pose proof Ho as (r & Er & _). unfold Time_from_Sec9_dec. wp_step.
    eapply wp_mono; [by eapply from_Sec9_ok|]. intros [] s' Hs. by apply opt_round_ok.
  - apply from_Sec6_ok.
  - unfold Time_from_hybrid_dec. wp_step. eapply wp_mono; [apply from_Sec6_ok|].
    intros [] s' Hs. by apply trunc_ok.
  - apply from_str_ok.
  - destruct H as [Ho Hd]. unfold Time_from_str_dec. wp_step.
    eapply wp_mono; [apply from_str_ok|]. intros [] s' Hs. by apply opt_round_ok.
Qed.

Lemma run_meth_ok m s : meth_ok m -> value_ok (this s) -> wp (run_meth m) (fun _ s' => value_ok (this s')) s.
Proof.
  destruct m; cbn [meth_ok run_meth]; intros H Hv.
  - by apply trunc_ok.
  - by apply toward_ok.
  - by apply (toward_ok (fun t => negb (neg t))).
  - by apply round_ok.
  - destruct H. by apply mode_ok_round.
Qed.

(** Rounding under FRAC_NONE accepts exactly a defined value without digits
    below the [dec]-th decimal. *)
Lemma round_none_exact dec s :
  dec_ok dec -> value_ok (this s) ->
  if type_is (time_type (this s)) MYSQL_TIMESTAMP_TIME && (second_part (this s) mod unit_of dec =? 0)
  then exists s', round_with_mode dec TIME_FRAC_NONE s = Some (tt, s') /\ value_ok (this s')
  else round_with_mode dec TIME_FRAC_NONE s = None.
Proof.
  intros Hd Hv. pose proof Hv as Hs%value_ok_slow. destruct s as [t w]. cbn [this] in *.
  assert (Time_fraction_remainder dec (mk_ts t w) =
    if type_is (time_type t) MYSQL_TIMESTAMP_TIME
    then Some (second_part t mod unit_of dec, mk_ts t w) else None) as Hr.
  { unfold Time_fraction_remainder, is_valid_time, fraction_remainder.
    cbv [mbind TM_bind assert_ get_this this]. rewrite Hs.
    destruct (type_is _ _) eqn:Et; [|done]. apply value_ok_time in Hv; [|done].
    destruct Hv as (_ & _ & _ & _ & _ & _ & _ & Hu).
    rewrite long_small, fraction_remainder_value by (done || lia). done. }
  assert (round_with_mode dec TIME_FRAC_NONE (mk_ts t w) =
    if type_is (time_type t) MYSQL_TIMESTAMP_TIME && (second_part t mod unit_of dec =? 0)
    then trunc dec (mk_ts t w) else None) as ->.
  { change (round_with_mode dec TIME_FRAC_NONE (mk_ts t w)) with
      (match Time_fraction_remainder dec (mk_ts t w) with
       | Some (r, s') => (assert_ (fun _ => r =? 0);; trunc dec) s' | None => None end).
    rewrite Hr. destruct (type_is _ _); cbn [andb]; [|done].
    unfold mbind, TM_bind, assert_ at 1. by destruct (_ =? 0). }
  destruct (_ && _); [|done]. destruct (trunc_ok dec (mk_ts t w) Hd Hv) as ([] & s' & E & Hv').
  by exists s'.
Qed.

(** C27: The contract of class [Time], for the constructors that do not read an
    item, a native value or separate fields (default, from a valid MYSQL_TIME,
    from a number with six or nine fractional digits, from an integer, from a
    string, each with and without a number of decimals): whatever the storage
    held before, a constructor followed by any sequence of truncations,
    roundings (to decimals, or under FRAC_TRUNCATE or FRAC_ROUND), floors and ceilings
    fails no assertion of the class and leaves the object either undefined or
    holding a TIME of the supported range with zero date part; so the object
    can be copied and, when defined, read with [to_seconds].  Rounding it under
    FRAC_NONE succeeds exactly when it is defined and has no digits to lose;
    otherwise the assertion there fails. *)
Theorem time_values_valid thd c ms s :
  ctor_ok c -> Forall meth_ok ms ->
  exists s', (run_ctor thd c;; run_meths ms) s = Some (tt, s') /\
    value_ok (this s') /\
    (forall ltime, is_Some (copy_to_mysql_time (this s') ltime)) /\
    (time_type (this s') = MYSQL_TIMESTAMP_TIME -> is_Some (to_seconds (this s'))) /\
    (forall dec, dec_ok dec ->
       if type_is (time_type (this s')) MYSQL_TIMESTAMP_TIME && (second_part (this s') mod unit_of dec =? 0)
       then exists s'', round_with_mode dec TIME_FRAC_NONE s' = Some (tt, s'') /\ value_ok (this s'')
       else round_with_mode dec TIME_FRAC_NONE s' = None).
Proof.
  intros Hc Hms.
  assert (forall s, value_ok (this s) -> wp (run_meths ms) (fun _ s' => value_ok (this s')) s) as Hrun.
  { clear s. induction Hms as [|m ms Hm _ IH]; intros s Hv; cbn [run_meths]; [by wp_step|].
    wp_step. eapply wp_mono; [by apply run_meth_ok|]. intros [] s' Hs. by apply IH. }
  assert (wp (run_ctor thd c;; run_meths ms) (fun _ s' => value_ok (this s')) s) as ([] & s' & E & Hv).
  { wp_step. eapply wp_mono; [by apply run_ctor_ok|]. intros [] s' Hs. by apply Hrun. }
  exists s'. split; [exact E|]. split; [done|].
  pose proof (fun dec Hd => round_none_exact dec s' Hd Hv) as Hn.
  unfold copy_to_mysql_time, to_seconds, to_seconds_abs.
  destruct Hv as [En | Ht].
  - split; [intros; rewrite En; eexists; reflexivity|]. split; [by rewrite En|exact Hn].
  - split; [|split; [|exact Hn]]; intros; rewrite ?(proj1 Ht), time_ok_slow by done;
      eexists; reflexivity.
Qed.

(** ** DATE and DATETIME to TIME *)

(** The TIME a DATE or DATETIME becomes, with hour [h]. *)
Definition as_time (h : Z) (t : MYSQL_TIME) : MYSQL_TIME :=
  mk_time 0 0 0 h (minute t) (second t) (second_part t) (neg t) MYSQL_TIMESTAMP_TIME.

(** What each conversion mode makes of a DATE or DATETIME [t] with warnings
    [w]: an undefined value with "out of range", the time of day, or the time
    of day plus the days. *)
Definition to_time_spec (m : datetime_to_time_mode_t) (t : MYSQL_TIME) (w : Z) : option tstate :=
  let undefined := mk_ts (set_time_type MYSQL_TIMESTAMP_NONE t) MYSQL_TIME_WARN_OUT_OF_RANGE in
  match m with
  | DATETIME_TO_TIME_DISALLOW => Some undefined
  | DATETIME_TO_TIME_YYYYMMDD_00000000_ONLY =>
      Some (if non_zero_YYMMDD t then undefined else mk_ts (as_time (hour t) t) w)
  | DATETIME_TO_TIME_YYYYMMDD_TRUNCATE => Some (mk_ts (as_time (hour t) t) w)
  | DATETIME_TO_TIME_YYYYMMDD_000000DD_MIX_TO_HOURS =>
      Some (if has_zero_YYYYMM t then mk_ts (as_time (hour t + day t * 24) t) w
            else mk_ts (as_time (hour t) t) (Z.lor w MYSQL_TIME_NOTE_TRUNCATED))
  | DATETIME_TO_TIME_MINUS_CURRENT_DATE => None
  end.

(** The conversion proper, in the modes that do not subtract a date. *)
Lemma valid_datetime_run thd om dm t w :
  time_type t = MYSQL_TIMESTAMP_DATE \/ time_type t = MYSQL_TIMESTAMP_DATETIME ->
  valid_result t -> dm <> DATETIME_TO_TIME_MINUS_CURRENT_DATE ->
  valid_datetime_to_valid_time thd (mk_opt om dm) (mk_ts t w) =
    Some (tt, if bool_decide (dm = DATETIME_TO_TIME_YYYYMMDD_000000DD_MIX_TO_HOURS)
              then if has_zero_YYYYMM t then mk_ts (as_time (hour t + day t * 24) t) w
                   else mk_ts (as_time (hour t) t) (Z.lor w MYSQL_TIME_NOTE_TRUNCATED)
              else mk_ts (as_time (hour t) t) w).
Proof.
  intros Hty Hv Hdm. destruct (valid_result_date t Hty Hv) as (Hd & Hh & Hm).
  assert (forall h, 0 <= h <= 767 -> is_valid_time_slow (as_time h t) = true) as Hok.
  { intros h Hb. exact (time_ok_slow _ (date_cleared_ok t h Hb Hm)). }
  unfold valid_datetime_to_valid_time, datetime_to_time_YYYYMMDD_000000DD_mix_to_hours, has_zero_YYYYMM.
  cbn [m_datetime_to_time_mode]. rewrite decide_False by done.
  cbv [mbind TM_bind assert_ get_this upd upd_warn mret TM_ret this warn].
  assert (type_is (time_type t) MYSQL_TIMESTAMP_DATE || type_is (time_type t) MYSQL_TIMESTAMP_DATETIME
    = true) as -> by (destruct Hty as [-> | ->]; done).
  rewrite (proj2 (Z.ltb_lt (day t) 32)), (proj2 (Z.ltb_lt (hour t) 24)) by lia.
  case_decide; subst; cbn [fst snd];
    [rewrite bool_decide_eq_true_2 by done|rewrite bool_decide_eq_false_2 by done].
  - rewrite <- negb_andb. destruct ((year t =? 0) && (month t =? 0)); cbn [negb].
    + rewrite (u32_small (day t * 24)), u32_small by lia.
      change (set_time_type _ _) with (as_time (hour t + day t * 24) t). by rewrite Hok by lia.
    + change (set_time_type _ _) with (as_time (hour t) t). by rewrite Hok by lia.
  - change (set_time_type _ _) with (as_time (hour t) t). by rewrite Hok by lia.
Qed.

(** A DATE or DATETIME turned into a TIME: disallowed (an undefined value
    and "out of range"), allowed for a zero date only, cut to its time of
    day, or with the days of a date 0000-00-DD added to the hours (a note
    when year or month are lost); no assertion fails in any mode. *)
Theorem datetime_to_time_spec thd opt t w :
  time_type t = MYSQL_TIMESTAMP_DATE \/ time_type t = MYSQL_TIMESTAMP_DATETIME ->
  valid_result t ->
  match to_time_spec (m_datetime_to_time_mode opt) t w with
  | Some s' => valid_MYSQL_TIME_to_valid_value thd opt (mk_ts t w) = Some (tt, s')
  | None => exists s', valid_MYSQL_TIME_to_valid_value thd opt (mk_ts t w) = Some (tt, s') /\
      time_ok (this s')
  end.
Proof.
  intros Hty Hv. pose proof (valid_datetime_ok thd opt (mk_ts t w) Hty Hv) as Hmc.
  assert (valid_MYSQL_TIME_to_valid_value thd opt (mk_ts t w) =
    if (bool_decide (m_datetime_to_time_mode opt = DATETIME_TO_TIME_YYYYMMDD_00000000_ONLY) &&
        non_zero_YYMMDD t) || bool_decide (m_datetime_to_time_mode opt = DATETIME_TO_TIME_DISALLOW)
    then make_from_out_of_range (mk_ts t w) else valid_datetime_to_valid_time thd opt (mk_ts t w)) as ->.
  { cbv [valid_MYSQL_TIME_to_valid_value mbind TM_bind get_this this id non_zero_YYMMDD].
    destruct Hty as [-> | ->]; by destruct (_ && _), (bool_decide _). }
  destruct opt as [om dm]. cbn [m_datetime_to_time_mode] in *.
  destruct dm; cbn [to_time_spec]; [done|..| |].
  - (* MIX_TO_HOURS *) cbn. by rewrite valid_datetime_run.
  - cbn. by rewrite valid_datetime_run.
  - cbn. destruct (non_zero_YYMMDD t); [done|]. by rewrite valid_datetime_run.
  - cbn. destruct Hmc as ([] & s' & E & H). by exists s'.
Qed.

(** ** Rounding to seconds, and seconds *)

Lemma is_valid_time_run s : time_ok (this s) -> is_valid_time s = Some (true, s).
Proof.
  intros H. unfold is_valid_time. cbv [mbind TM_bind assert_ get_this].
  rewrite value_ok_slow by (by right). by rewrite (proj1 H).
Qed.

(** A method that truncates a TIME and then checks it. *)
Lemma trunc_then_check t w dec t' :
  my_time_trunc t dec = Some t' -> time_ok t' ->
  (upd_opt (fun t => my_time_trunc t dec);; assert_ (fun s => is_valid_value_slow (this s))) (mk_ts t w) =
    Some (tt, mk_ts t' w).
Proof.
  intros E Ht. cbv [mbind TM_bind upd_opt assert_ this warn]. rewrite E.
  by rewrite value_ok_slow by (by right).
Qed.

(** Rounding a TIME: [trunc] rounds the signed value towards zero to the
    requested decimals and never leaves a negative zero; [floor] of a value
    that is not negative and [ceiling] of a negative one round it to whole
    seconds downwards and upwards; and neither changes a value of the other
    sign that has no fraction. *)
Theorem time_rounding_spec t w dec :
  time_ok t -> 0 <= dec <= 6 ->
  (exists t', trunc dec (mk_ts t w) = Some (tt, mk_ts t' w) /\ time_ok t' /\
     time_usec t' = Z.quot (time_usec t) (unit_of dec) * unit_of dec /\
     (neg t' = true -> time_usec t' < 0)) /\
  (if neg t
   then exists t', ceiling (mk_ts t w) = Some (tt, mk_ts t' w) /\
          time_usec t' = - (- time_usec t / 1000000 * 1000000)
   else exists t', floor (mk_ts t w) = Some (tt, mk_ts t' w) /\
          time_usec t' = time_usec t / 1000000 * 1000000) /\
  (second_part t = 0 -> (if neg t then floor else ceiling) (mk_ts t w) = Some (tt, mk_ts t w)).
Proof.
  intros Ht Hd.
  destruct (my_time_trunc_toward_zero t dec Ht Hd) as (t1 & E1 & Ht1 & V1 & N1).
  destruct (my_time_trunc_toward_zero t 0 Ht ltac:(lia)) as (t2 & E2 & Ht2 & V2 & _).
  change (unit_of 0) with 1000000 in V2.
  assert (0 <= abs_usec t) as Hp by (destruct Ht as (_ & _ & _ & _ & ? & ? & ? & ?); unfold abs_usec; lia).
  assert (forall m : bool -> TM unit, (is_valid_time ≫= m) (mk_ts t w) = m true (mk_ts t w)) as Hgo.
  { intros m. unfold mbind, TM_bind. by rewrite is_valid_time_run. }
  unfold trunc, ceiling, floor. rewrite !Hgo. split_and!.
  - exists t1. split; [by apply trunc_then_check|done].
  - destruct (neg t) eqn:En; cbv [mbind TM_bind get_this this id]; rewrite En; cbn [negb];
      exists t2; (split; [exact (trunc_then_check t w 0 t2 E2 Ht2)|]); rewrite V2; unfold time_usec; rewrite En;
      cbn [signed].
    + rewrite Z.quot_opp_l, Z.quot_div_nonneg, Z.opp_involutive by lia. lia.
    + rewrite Z.quot_div_nonneg by lia. done.
  - intros Hz. assert (is_valid_value_slow t = true) as Hs by (apply value_ok_slow; by right).
    destruct (neg t) eqn:En; rewrite Hgo; cbv [mbind TM_bind get_this this id]; rewrite En, Hz; cbn;
      unfold assert_; cbn [this]; by rewrite Hs.
Qed.

(** SEC_TO_TIME and TIME_TO_SEC are inverse: a number of seconds in range
    converted with [sec_to_time] reads back with [to_seconds] with its sign,
    and every TIME in range is what [sec_to_time] makes of its own seconds
    and microseconds. *)
Theorem seconds_roundtrip x dec t0 t tr :
  sec6_ok x -> m_sec x <= TIME_MAX_VALUE_SECONDS -> time_ok t ->
  (exists t', sec_to_time x dec t0 = Some (false, t') /\
     to_seconds t' = Some (signed (m_neg x) (m_sec x))) /\
  (exists n, to_seconds_abs t = Some n /\
     sec_to_time (mk_sec6 n (second_part t) (neg t) tr) dec t0 = Some (false, t)).
Proof.
  intros Hx Hmax Ht. split.
  - rewrite sec_to_time_run by done. eexists. split; [done|].
    unfold to_seconds, to_seconds_abs. rewrite time_ok_slow by (by apply sec_to_time_ok).
    destruct Hx as [[Hs _] Hu]. change TIME_MAX_VALUE_SECONDS with 3020399 in Hmax. cbn.
    rewrite (ulong_small (m_sec x / 3600 * 3600)), (u32_small (m_sec x mod 3600 / 60 * 60)) by dlia.
    rewrite ulong_small by dlia. unfold signed.
    replace (m_sec x / 3600 * 3600 + m_sec x mod 3600 / 60 * 60 + m_sec x mod 60) with (m_sec x) by dlia.
    done.
  - unfold to_seconds_abs. rewrite time_ok_slow by done.
    destruct t as [y mo d h mi se sp n ty]. destruct Ht as (? & ? & ? & ? & Hh & Hmi & Hse & Hsp).
    unfold TIME_MAX_HOUR in Hh. cbn in *. subst.
    rewrite (ulong_small (h * 3600)), (u32_small (mi * 60)), ulong_small by lia.
    eexists. split; [done|]. rewrite sec_to_time_run; cbn [m_sec m_usec m_neg];
      [|by split; [split; cbn; lia|]|change TIME_MAX_VALUE_SECONDS with 3020399; lia].
    do 3 f_equal; dlia.
Qed.

(** Rounding an undefined [Time] under FRAC_NONE fails an assertion (the
    remainder of an undefined value is asked for), while the other two modes
    and [trunc] itself accept it and leave it as it is. *)
Theorem round_none_undefined dec t w :
  time_type t = MYSQL_TIMESTAMP_NONE ->
  round_with_mode dec TIME_FRAC_NONE (mk_ts t w) = None /\
  round_with_mode dec TIME_FRAC_TRUNCATE (mk_ts t w) = Some (tt, mk_ts t w) /\
  round_with_mode dec TIME_FRAC_ROUND (mk_ts t w) = Some (tt, mk_ts t w).
Proof.
  intros E. assert (is_valid_value_slow t = true) as Hs by (apply value_ok_slow; by left).
  assert (is_valid_time (mk_ts t w) = Some (false, mk_ts t w)) as Hv.
  { unfold is_valid_time. cbv [mbind TM_bind assert_ get_this this]. by rewrite Hs, E. }
  assert (forall m : bool -> TM unit, (is_valid_time ≫= m) (mk_ts t w) = m false (mk_ts t w)) as Hgo.
  { intros m. unfold mbind, TM_bind. by rewrite Hv. }
  assert (assert_ (fun s => is_valid_value_slow (this s)) (mk_ts t w) = Some (tt, mk_ts t w)) as Ha.
  { unfold assert_. cbn [this]. by rewrite Hs. }
  split_and!.
  - assert (Time_fraction_remainder dec (mk_ts t w) = None) as Hr
      by (unfold Time_fraction_remainder; by rewrite Hgo).
    change (TM_bind _ _ (fun r => assert_ (fun _ => r =? 0);; trunc dec)
      (Time_fraction_remainder dec) (mk_ts t w) = None).
    unfold TM_bind. by rewrite Hr.
  - exact (eq_trans (Hgo _) Ha).
  - exact (eq_trans (Hgo _) Ha).
Qed.
End laws.
End env.
End TimeValueProps.
