(* ===== verification/DatetimeValue.v ===== *)
(** * DATE, DATETIME and TIMESTAMP classes of include/mysql/server/private/sql_type.h

    [Temporal_with_date] and its subclasses [Date] and [Datetime], the
    sources of EXTRACT ([Extract_source]), and [Timestamp] with
    [Timestamp_or_zero_datetime]. *)

From Stdlib Require Import ZArith Lia.
From stdpp Require Import prelude strings.
From S2P Require Import Prelude SqlInt TimeModes Temporal.
Local Open Scope Z_scope.
Local Open Scope cint_scope.

Module DatetimeValue.
Import TimeModes Temporal.

Section env.
Context {env : TimeEnv}.

(** ** [Temporal_with_date] *)

Definition daynr (t : MYSQL_TIME) : Z := ulong (calc_daynr (year t) (month t) (day t)).
Definition weekday (t : MYSQL_TIME) (sunday_first_day_of_week : bool) : Z :=
  calc_weekday (long (daynr t)) sunday_first_day_of_week.
Definition dayofyear (t : MYSQL_TIME) : Z := ulong (daynr t - ulong (calc_daynr (year t) 1 1) + 1).
Definition quarter (t : MYSQL_TIME) : Z := u32 (month t + 2) / 3.
Definition week (t : MYSQL_TIME) (week_behaviour : Z) : Z := (calc_week t week_behaviour).1.
Definition yearweek (t : MYSQL_TIME) (week_behaviour : Z) : Z :=
  let '(w, y) := calc_week t week_behaviour in u32 (w + u32 (y * 100)).

Definition Temporal_with_date_default : TM unit := upd (set_time_type MYSQL_TIMESTAMP_NONE).

Definition Temporal_with_date_Sec6 (nr : Sec6) (flags : date_mode_t) : TM unit :=
  assert_ (fun _ => negb (conv_bool (and_mode_conv flags TIME_TIME_ONLY)));;
  rc ← to_datetime_or_date nr (mode_conv flags);
  if (rc : bool) then upd (set_time_type MYSQL_TIMESTAMP_NONE) else mret tt.

Definition Temporal_with_date_str (thd : THD) (str : string) (cs : CHARSET_INFO) (flags : date_mode_t) : TM unit :=
  assert_ (fun _ => negb (conv_bool (and_mode_conv flags TIME_TIME_ONLY)));;
  rc ← call (str_to_datetime_or_date thd str cs flags);
  if (rc : bool) then upd (set_time_type MYSQL_TIMESTAMP_NONE) else mret tt.

Definition Temporal_with_date_comparison_flags : date_conv_mode_t :=
  conv_or TIME_INVALID_DATES TIME_FUZZY_DATES.

(** ** [Date]: validity has no value where the type's assertion fails *)

Definition is_valid_date_slow (t : MYSQL_TIME) : option bool :=
  if type_is (time_type t) MYSQL_TIMESTAMP_DATE then Some (negb (check_datetime_range t)) else None.

Definition Date_is_valid_value_slow (t : MYSQL_TIME) : option bool :=
  if type_is (time_type t) MYSQL_TIMESTAMP_NONE then Some true else is_valid_date_slow t.

(** [DBUG_ASSERT] of a check that may itself fail an assertion. *)
Definition assert_opt (f : MYSQL_TIME -> option bool) : TM unit :=
  assert_ (fun s => match f (this s) with Some b => b | None => false end).

Definition Date_from_temporal_with_date (d : MYSQL_TIME) : TM unit :=
  upd (fun _ => d);; upd_opt datetime_to_date;; assert_opt is_valid_date_slow.

Definition is_valid_date (t : MYSQL_TIME) : option bool :=
  match Date_is_valid_value_slow t with
  | Some true => Some (type_is (time_type t) MYSQL_TIMESTAMP_DATE)
  | _ => None
  end.

Definition Date_copy_to_mysql_time (t ltime : MYSQL_TIME) : option (bool * MYSQL_TIME) :=
  if type_is (time_type t) MYSQL_TIMESTAMP_NONE
  then Some (true, set_time_type MYSQL_TIMESTAMP_NONE ltime)
  else match is_valid_date_slow t with Some true => Some (false, t) | _ => None end.

Definition Date_to_longlong (t : MYSQL_TIME) : option Z :=
  b ← is_valid_date t; Some (if (b : bool) then s64 (TIME_to_ulonglong_date t) else 0).

(** A read guarded by [DBUG_ASSERT(is_valid_date_slow())]. *)
Definition Date_checked {A} (t : MYSQL_TIME) (a : A) : option A :=
  match is_valid_date_slow t with Some true => Some a | _ => None end.

Definition Date_check_date (t : MYSQL_TIME) (flags : date_conv_mode_t) (w : Z) : option (bool * Z) :=
  Date_checked t (check_date t (non_zero_YYMMDD t)
    (conv_ulonglong (conv_and flags TIME_MODE_FOR_XXX_TO_DATE)) w).

Definition Date_daynr (t : MYSQL_TIME) : option Z := Date_checked t (daynr t).
Definition Date_dayofyear (t : MYSQL_TIME) : option Z := Date_checked t (dayofyear t).
Definition Date_quarter (t : MYSQL_TIME) : option Z := Date_checked t (quarter t).
Definition Date_week (t : MYSQL_TIME) (week_behaviour : Z) : option Z := Date_checked t (week t week_behaviour).
Definition Date_yearweek (t : MYSQL_TIME) (week_behaviour : Z) : option Z :=
  Date_checked t (yearweek t week_behaviour).
Definition valid_date_to_packed (t : MYSQL_TIME) : option Z := Date_checked t (pack_time t).

(** ** [Datetime] *)

Definition is_valid_datetime_slow (t : MYSQL_TIME) : option bool :=
  if type_is (time_type t) MYSQL_TIMESTAMP_DATETIME then Some (negb (check_datetime_range t)) else None.

Definition Datetime_is_valid_value_slow (t : MYSQL_TIME) : option bool :=
  if type_is (time_type t) MYSQL_TIMESTAMP_NONE then Some true else is_valid_datetime_slow t.

Definition add_nanoseconds_or_invalidate (thd : THD) (nsec : Z) : TM bool :=
  assert_opt is_valid_datetime_slow;;
  rc ← call (datetime_add_nanoseconds_or_invalidate thd nsec);
  assert_opt Datetime_is_valid_value_slow;;
  mret rc.

Definition date_to_datetime_if_needed : TM unit :=
  ty ← get_this time_type;
  if type_is ty MYSQL_TIMESTAMP_DATE then upd_opt date_to_datetime else mret tt.

Definition round_or_invalidate (thd : THD) (dec nsec : Z) : TM bool :=
  assert_opt is_valid_datetime_slow;;
  rc ← call (datetime_round_or_invalidate thd dec nsec);
  assert_opt Datetime_is_valid_value_slow;;
  mret rc.

Definition is_valid_datetime : TM bool :=
  assert_opt Datetime_is_valid_value_slow;;
  get_this (fun t => type_is (time_type t) MYSQL_TIMESTAMP_DATETIME).

Definition Datetime_fraction_remainder (dec : Z) : TM Z := fun s =>
  match (b ← is_valid_datetime; assert_ (fun _ => b)) s with
  | Some _ => r ← fraction_remainder dec (this s); Some (r, s)
  | None => None
  end.

Definition Datetime_trunc (dec : Z) : TM unit :=
  b ← is_valid_datetime;
  (if (b : bool) then upd_opt (fun t => my_datetime_trunc t dec) else mret tt);;
  assert_opt Datetime_is_valid_value_slow.

Definition Datetime_ceiling (thd : THD) : TM unit :=
  b ← is_valid_datetime;
  sp ← get_this second_part;
  (if b && truth sp then round_or_invalidate thd 0 999999999;; mret tt else mret tt);;
  assert_opt Datetime_is_valid_value_slow.

Definition Datetime_round (thd : THD) (dec : Z) : TM unit :=
  b ← is_valid_datetime;
  (if (b : bool) then call (Datetime_round_or_invalidate thd dec);; mret tt else mret tt);;
  assert_opt Datetime_is_valid_value_slow.

Definition Datetime_round_mode (thd : THD) (dec : Z) (mode : time_round_mode_t) : TM unit :=
  if round_mode_mode mode =? Round.FRAC_NONE
  then r ← Datetime_fraction_remainder dec; assert_ (fun _ => r =? 0);; Datetime_trunc dec
  else if round_mode_mode mode =? Round.FRAC_TRUNCATE then Datetime_trunc dec
  else if round_mode_mode mode =? Round.FRAC_ROUND then Datetime_round thd dec
  else mret tt.

(** Constructors. *)
Definition Datetime_default : TM unit := Temporal_with_date_default.

Definition Datetime_from_str (thd : THD) (str : string) (cs : CHARSET_INFO) (fuzzydate : date_mode_t) : TM unit :=
  Temporal_with_date_str thd str cs fuzzydate;;
  date_to_datetime_if_needed;;
  assert_opt Datetime_is_valid_value_slow.

Definition Datetime_from_Sec6 (nr : Sec6) (flags : date_mode_t) : TM unit :=
  Temporal_with_date_Sec6 nr flags;;
  date_to_datetime_if_needed;;
  assert_opt Datetime_is_valid_value_slow.

Definition Datetime_from_Sec9 (thd : THD) (nr : Sec9) (fuzzydate : date_mode_t) : TM unit :=
  Datetime_from_Sec6 (sec6 nr) fuzzydate;;
  b ← is_valid_datetime;
  (if (b : bool) then
     r ← round_of fuzzydate;
     if round_eq r TIME_FRAC_ROUND then round_or_invalidate thd 6 (m_nsec nr);; mret tt else mret tt
   else mret tt);;
  assert_opt Datetime_is_valid_value_slow.

Definition Datetime_from_hybrid (nr : SqlInt.Longlong_hybrid) (mode : date_mode_t) : TM unit :=
  Datetime_from_Sec6 (Sec6_hybrid nr) mode.

Definition Datetime_zero : TM unit := Datetime_from_hybrid (SqlInt.mk_llh 0 false) (date_mode 0).

Definition Datetime_from_str_dec (thd : THD) (str : string) (cs : CHARSET_INFO) (fuzzydate : date_mode_t)
    (dec : Z) : TM unit :=
  Datetime_from_str thd str cs fuzzydate;;
  r ← round_of fuzzydate;
  Datetime_round_mode thd dec r.

Definition Datetime_from_Sec9_dec (thd : THD) (nr : Sec9) (fuzzydate : date_mode_t) (dec : Z) : TM unit :=
  Datetime_from_Sec9 thd nr fuzzydate;;
  r ← round_of fuzzydate;
  Datetime_round_mode thd dec r.

Definition Datetime_from_MYSQL_TIME (from : MYSQL_TIME) : TM unit :=
  upd (fun _ => from);; assert_opt is_valid_datetime_slow.

(** Reading. *)
Definition checked {A} (t : MYSQL_TIME) (a : A) : option A :=
  match is_valid_datetime_slow t with Some true => Some a | _ => None end.

Definition Datetime_check_date (t : MYSQL_TIME) (flags : date_conv_mode_t) (w : Z) : option (bool * Z) :=
  checked t (check_date t (non_zero_YYMMDD t)
    (conv_ulonglong (conv_and flags TIME_MODE_FOR_XXX_TO_DATE)) w).

Definition Datetime_daynr (t : MYSQL_TIME) : option Z := checked t (daynr t).
Definition Datetime_weekday (t : MYSQL_TIME) (sunday_first : bool) : option Z := checked t (weekday t sunday_first).
Definition Datetime_dayofyear (t : MYSQL_TIME) : option Z := checked t (dayofyear t).
Definition Datetime_quarter (t : MYSQL_TIME) : option Z := checked t (quarter t).
Definition Datetime_week (t : MYSQL_TIME) (week_behaviour : Z) : option Z := checked t (week t week_behaviour).
Definition Datetime_yearweek (t : MYSQL_TIME) (week_behaviour : Z) : option Z :=
  checked t (yearweek t week_behaviour).
Definition valid_datetime_to_packed (t : MYSQL_TIME) : option Z := checked t (pack_time t).

Definition hhmmssff_is_zero (t : MYSQL_TIME) : option bool :=
  checked t ((hour t =? 0) && (minute t =? 0) && (second t =? 0) && (second_part t =? 0)).

Definition hhmmss_to_seconds_abs (t : MYSQL_TIME) : option Z :=
  checked t (ulong (ulong (hour t * 3600) + u32 (minute t * 60) + second t)).

Definition hhmmss_to_seconds (t : MYSQL_TIME) : option Z :=
  s ← hhmmss_to_seconds_abs t; Some (if neg t then - s else s).

Definition Datetime_to_seconds (t : MYSQL_TIME) : option Z :=
  s ← hhmmss_to_seconds t;
  d ← Datetime_daynr t;
  Some (s64 (s + d * 24 * 3600)).

Definition Datetime_copy_to_mysql_time (t ltime : MYSQL_TIME) : option (bool * MYSQL_TIME) :=
  if type_is (time_type t) MYSQL_TIMESTAMP_NONE
  then Some (true, set_time_type MYSQL_TIMESTAMP_NONE ltime)
  else checked t (false, t).

(** Copy with an optional conversion to DATE. *)
Definition Datetime_copy_with_type (t ltime : MYSQL_TIME) (type : timestamp_type) : option (bool * MYSQL_TIME) :=
  if negb (type_is type MYSQL_TIMESTAMP_DATE || type_is type MYSQL_TIMESTAMP_DATETIME) then None
  else
    '(rc, ltime) ← Datetime_copy_to_mysql_time t ltime;
    if (rc : bool) then Some (true, ltime)
    else
      z ← hhmmssff_is_zero t;
      if type_is type MYSQL_TIMESTAMP_DATE && negb z then None
      else Some (false, set_time_type type ltime).

Definition Datetime_to_longlong (t : MYSQL_TIME) : option Z :=
  match Datetime_is_valid_value_slow t with
  | Some true =>
      Some (if type_is (time_type t) MYSQL_TIMESTAMP_DATETIME then s64 (TIME_to_ulonglong_datetime t) else 0)
  | _ => None
  end.

Definition Datetime_to_packed (t : MYSQL_TIME) : option Z :=
  match Datetime_is_valid_value_slow t with
  | Some true => Some (if type_is (time_type t) MYSQL_TIMESTAMP_DATETIME then pack_time t else 0)
  | _ => None
  end.

(** ** [Temporal_hybrid] and [Interval_DDhhmmssff] *)

Definition copy_valid_value_to_mysql_time (t : MYSQL_TIME) : option (bool * MYSQL_TIME) :=
  v ← is_valid_temporal t; if (v : bool) then Some (false, t) else None.

Definition Temporal_hybrid_to_longlong (t : MYSQL_TIME) : option Z :=
  v ← is_valid_temporal t;
  Some (if negb v then 0
        else let u := TIME_to_ulonglong t in if neg t then s64 (- s64 u) else s64 u).

Definition is_valid_interval_DDhhmmssff_slow (t : MYSQL_TIME) : bool :=
  type_is (time_type t) MYSQL_TIMESTAMP_TIME && has_zero_YYYYMMDD t && has_valid_mmssff t.

Definition Interval_is_valid_value_slow (t : MYSQL_TIME) : bool :=
  type_is (time_type t) MYSQL_TIMESTAMP_NONE || is_valid_interval_DDhhmmssff_slow t.

Definition max_useful_hour : Z := TIME_MAX_INTERVAL_HOUR.
Definition max_int_part_char_length : Z := 1 + TIME_MAX_INTERVAL_DAY_CHAR_LENGTH + 1 + 8.
Definition max_char_length (fsp : Z) : option Z :=
  if fsp <=? TIME_SECOND_PART_DIGITS
  then Some (u32 (max_int_part_char_length + (if truth fsp then 1 else 0) + fsp)) else None.

(** ** [Extract_source]

    The members are read through [get_mysql_time], which asserts
    [is_valid_extract_source_slow]; a constructed object satisfies it. *)

Definition time_to_daytime_interval (t : MYSQL_TIME) : option MYSQL_TIME :=
  if type_is (time_type t) MYSQL_TIMESTAMP_TIME && has_zero_YYYYMMDD t
  then let t := set_day (hour t / 24) t in Some (set_hour (hour t mod 24) t) else None.

Definition is_valid_extract_source_slow (t : MYSQL_TIME) : option bool :=
  v ← is_valid_temporal t;
  Some (v && (hour t <? 24) && (has_zero_YYYYMM t || negb (type_is (time_type t) MYSQL_TIMESTAMP_TIME))).

Definition Extract_is_valid_value_slow (t : MYSQL_TIME) : option bool :=
  if type_is (time_type t) MYSQL_TIMESTAMP_NONE then Some true else is_valid_extract_source_slow t.

(** The constructor, from the value its base class has read. *)
Definition Extract_source (t : MYSQL_TIME) : option MYSQL_TIME :=
  t ← (if type_is (time_type t) MYSQL_TIMESTAMP_TIME then time_to_daytime_interval t else Some t);
  match Extract_is_valid_value_slow t with Some true => Some t | _ => None end.

Section extract.
Variable t : MYSQL_TIME.

Definition ex_sign : Z := if neg t then -1 else 1.
Definition ex_year : Z := year t.
Definition ex_month : Z := month t.
Definition ex_day : Z := sgn 32 (sgn 32 (day t) * ex_sign).
Definition ex_hour : Z := sgn 32 (sgn 32 (hour t) * ex_sign).
Definition ex_minute : Z := sgn 32 (sgn 32 (minute t) * ex_sign).
Definition ex_second : Z := sgn 32 (sgn 32 (second t) * ex_sign).
Definition ex_microsecond : Z := sgn 32 (sgn 32 (second_part t) * ex_sign).
Definition ex_year_month : Z := u32 (u32 (ex_year * 100) + ex_month).
Definition ex_quarter : Z := u32 (ex_month + 2) / 3.
Definition second_microsecond : Z := s64 (s64 (ex_second * 1000000) + ex_microsecond).
Definition day_hour : Z := s64 (s64 (ex_day * 100) + ex_hour).
Definition day_minute : Z := s64 (s64 (day_hour * 100) + ex_minute).
Definition day_second : Z := s64 (s64 (day_minute * 100) + ex_second).
Definition day_microsecond : Z := s64 (s64 (day_second * 1000000) + ex_microsecond).
Definition hour_minute : Z := sgn 32 (sgn 32 (ex_hour * 100) + ex_minute).
Definition hour_second : Z := sgn 32 (sgn 32 (hour_minute * 100) + ex_second).
Definition hour_microsecond : Z := s64 (s64 (hour_second * 1000000) + ex_microsecond).
Definition minute_second : Z := sgn 32 (sgn 32 (ex_minute * 100) + ex_second).
Definition minute_microsecond : Z := s64 (s64 (minute_second * 1000000) + ex_microsecond).
End extract.

(** ** [Timestamp] (a [Timeval]) *)

Definition Timeval_make (sec usec : Z) : option timeval :=
  if usec <? 1000000 then Some (mk_tv (long sec) (long (u32 usec))) else None.

Definition add_nanoseconds_usec (nanoseconds : Z) (tv : timeval) : option (bool * timeval) :=
  if negb (nanoseconds <=? 1000000000) then None
  else if nanoseconds <? 500 then Some (false, tv)
  else
    let tv := mk_tv (tv_sec tv) (long (tv_usec tv + u32 (nanoseconds + 500) / 1000)) in
    if tv_usec tv <? 1000000 then Some (false, tv)
    else Some (true, mk_tv (tv_sec tv) (Z.rem (tv_usec tv) 1000000)).

Definition Timestamp_cmp (a other : timeval) : Z :=
  if tv_sec a <? tv_sec other then -1
  else if tv_sec other <? tv_sec a then 1
  else if tv_usec a <? tv_usec other then -1
  else if tv_usec other <? tv_usec a then 1 else 0.

Definition Timestamp_fraction_remainder (dec : Z) (tv : timeval) : option Z :=
  my_time_fraction_remainder (tv_usec tv) dec.

Definition Timestamp_trunc (dec : Z) (tv : timeval) : option timeval := my_timeval_trunc tv dec.

(** [round] under a mode; [round_or_set_max] is implemented elsewhere. *)
Definition Timestamp_round_mode (round_or_set_max : Z -> timeval -> Z -> timeval * Z)
    (dec : Z) (mode : time_round_mode_t) (tv : timeval) (w : Z) : option (timeval * Z) :=
  if round_mode_mode mode =? Round.FRAC_NONE
  then r ← Timestamp_fraction_remainder dec tv;
       if r =? 0 then tv' ← Timestamp_trunc dec tv; Some (tv', w) else None
  else if round_mode_mode mode =? Round.FRAC_TRUNCATE
  then tv' ← Timestamp_trunc dec tv; Some (tv', w)
  else if round_mode_mode mode =? Round.FRAC_ROUND then Some (round_or_set_max dec tv w)
  else Some (tv, w).

(** ** [Timestamp_or_zero_datetime] *)

Record Timestamp_or_zero := mk_tz { tz_tv : timeval; m_is_zero_datetime : bool }.

Definition Timestamp_or_zero_default : Timestamp_or_zero := mk_tz (mk_tv 0 0) true.

Definition Timestamp_or_zero_trunc (decimals : Z) (x : Timestamp_or_zero) : option Timestamp_or_zero :=
  if negb (m_is_zero_datetime x)
  then tv ← Timestamp_trunc decimals (tz_tv x); Some (mk_tz tv (m_is_zero_datetime x))
  else Some x.

Definition Timestamp_or_zero_cmp (x other : Timestamp_or_zero) : Z :=
  if m_is_zero_datetime x then (if m_is_zero_datetime other then 0 else -1)
  else if m_is_zero_datetime other then 1
  else Timestamp_cmp (tz_tv x) (tz_tv other).

End env.
End DatetimeValue.
