(* ===== verification/DatetimeProps.v ===== *)
(** * Properties of DATE, DATETIME, EXTRACT sources and TIMESTAMP

    The contract of [Datetime] (private/sql_type.h), the numbers EXTRACT
    builds from an interval, and the order of TIMESTAMP values. *)

From Stdlib Require Import ZArith Lia.
From stdpp Require Import prelude strings.
From S2P Require Import Prelude SqlInt TimeModes Temporal TemporalProps DatetimeValue.
Local Open Scope Z_scope.
Local Open Scope cint_scope.

Module DatetimeProps.
Import TimeModes Temporal TemporalProps DatetimeValue.

(** ** EXTRACT *)

Lemma s32_small z : - 0x80000000 <= z < 0x80000000 -> sgn 32 z = z.
Proof. intros H. by apply sgn_small. Qed.

Lemma s64_small z : - 0x8000000000000000 <= z < 0x8000000000000000 -> s64 z = z.
Proof. intros H. by apply sgn_small. Qed.

(** [unsgn] removes conversions to signed types from the inside out, where the
    value is in range. *)
Ltac unsgn :=
  repeat match goal with
  | |- context [sgn 32 ?z] =>
      lazymatch z with context [sgn] => fail | _ => rewrite (s32_small z) by lia end
  | |- context [sgn 64 ?z] =>
      lazymatch z with context [sgn] => fail | _ => rewrite (s64_small z) by lia end
  end.

(** The parts of a DAY-TIME interval as decimal groups [DDDhhmmssffffff]. *)
Definition grouped (D H M S U : Z) : Z := (((D * 100 + H) * 100 + M) * 100 + S) * 1000000 + U.

(** A TIME or interval of at most TIME_MAX_INTERVAL_HOUR hours. *)
Definition interval_ok (t : MYSQL_TIME) : Prop :=
  time_type t = MYSQL_TIMESTAMP_TIME /\ year t = 0 /\ month t = 0 /\ day t = 0 /\
  0 <= hour t <= TIME_MAX_INTERVAL_HOUR /\ mmssff_ok t.

Section env.
Context {env : TimeEnv}.

(** The members with their sign, and their sums, stay within their types. *)
Lemma ex_members t :
  0 <= day t <= TIME_MAX_INTERVAL_DAY -> 0 <= hour t < 24 -> mmssff_ok t ->
  ex_day t = ex_sign t * day t /\ ex_hour t = ex_sign t * hour t /\
  ex_minute t = ex_sign t * minute t /\ ex_second t = ex_sign t * second t /\
  ex_microsecond t = ex_sign t * second_part t /\ (ex_sign t = 1 \/ ex_sign t = -1).
Proof.
  unfold TIME_MAX_INTERVAL_DAY. intros Hd Hh (Hm & Hs & Hu).
  assert (ex_sign t = 1 \/ ex_sign t = -1) as He by (unfold ex_sign; destruct (neg t); auto).
  unfold ex_day, ex_hour, ex_minute, ex_second, ex_microsecond.
  destruct He as [-> | ->]; unsgn; repeat split; auto; lia.
Qed.

Lemma ex_sums t :
  0 <= day t <= TIME_MAX_INTERVAL_DAY -> 0 <= hour t < 24 -> mmssff_ok t ->
  day_microsecond t = ex_sign t * grouped (day t) (hour t) (minute t) (second t) (second_part t) /\
  hour_microsecond t = ex_sign t * grouped 0 (hour t) (minute t) (second t) (second_part t) /\
  minute_microsecond t = ex_sign t * grouped 0 0 (minute t) (second t) (second_part t) /\
  second_microsecond t = ex_sign t * grouped 0 0 0 (second t) (second_part t).
Proof.
  intros Hd Hh Hm. destruct (ex_members t Hd Hh Hm) as (Ed & Eh & Em & Es & Eu & He).
  destruct Hm as (Hm & Hs & Hu). unfold TIME_MAX_INTERVAL_DAY in Hd.
  unfold day_microsecond, day_second, day_minute, day_hour, hour_microsecond, hour_second, hour_minute,
    minute_microsecond, minute_second, second_microsecond, grouped. rewrite Ed, Eh, Em, Es, Eu.
  destruct He as [-> | ->]; unsgn; repeat split; lia.
Qed.

(** EXTRACT from a TIME or interval of at most 87649415 hours: the
    constructor moves full days out of the hours and passes its own checks,
    days, hours, minutes, seconds and microseconds make up the interval, and
    the composite fields (DAY_MICROSECOND to SECOND_MICROSECOND) are the
    decimal groups with the sign of the value, computed without overflow. *)
Theorem extract_interval_exact t :
  interval_ok t ->
  exists t', Extract_source t = Some t' /\ is_valid_extract_source_slow t' = Some true /\
    time_usec t = ex_sign t' * ((((day t' * 24 + hour t') * 60 + minute t') * 60 + second t')
                                * 1000000 + second_part t') /\
    day_microsecond t' = ex_sign t' * grouped (day t') (hour t') (minute t') (second t') (second_part t') /\
    hour_microsecond t' = ex_sign t' * grouped 0 (hour t') (minute t') (second t') (second_part t') /\
    minute_microsecond t' = ex_sign t' * grouped 0 0 (minute t') (second t') (second_part t') /\
    second_microsecond t' = ex_sign t' * grouped 0 0 0 (second t') (second_part t').
Proof.
  intros (Hty & Hy & Hmo & Hd & Hh & Hm). unfold TIME_MAX_INTERVAL_HOUR in Hh.
  set (t' := set_hour (hour t mod 24) (set_day (hour t / 24) t)).
  assert (is_valid_extract_source_slow t' = Some true) as Hv.
  { unfold is_valid_extract_source_slow, is_valid_temporal, has_zero_YYYYMM. subst t'. cbn.
    rewrite Hty, Hy, Hmo. cbn. by rewrite (proj2 (Z.ltb_lt _ _)) by dlia. }
  exists t'. split; [|split; [done|split]].
  - unfold Extract_source, time_to_daytime_interval, has_zero_YYYYMMDD.
    rewrite Hty, Hy, Hmo, Hd. change (type_is _ _) with true. cbn [Z.eqb andb mbind option_bind].
    change (set_hour _ _) with t'. unfold Extract_is_valid_value_slow. rewrite Hv.
    by change (time_type t') with (time_type t); rewrite Hty.
  - unfold time_usec, abs_usec, ex_sign. subst t'. cbn.
    destruct (neg t); cbn [signed]; dlia.
  - apply ex_sums; subst t'; cbn; unfold TIME_MAX_INTERVAL_DAY; [dlia..|done].
Qed.
End env.

(** ** TIMESTAMP *)

Definition tv_ok (tv : timeval) : Prop := 0 <= tv_usec tv <= 999999.

Definition tv_value (tv : timeval) : Z := tv_sec tv * 1000000 + tv_usec tv.

(** The value of a TIMESTAMP or zero datetime; the zero datetime has none. *)
Definition tz_value (x : Timestamp_or_zero) : option Z :=
  if m_is_zero_datetime x then None else Some (tv_value (tz_tv x)).

Definition opt_compare (a b : option Z) : comparison :=
  match a, b with
  | None, None => Eq | None, Some _ => Lt | Some _, None => Gt | Some a, Some b => a ?= b
  end.

Lemma Timestamp_cmp_value a b :
  tv_ok a -> tv_ok b ->
  Timestamp_cmp a b = match tv_value a ?= tv_value b with Lt => -1 | Eq => 0 | Gt => 1 end.
Proof.
  unfold tv_ok, tv_value, Timestamp_cmp. intros.
  match goal with |- context [?p ?= ?q] => destruct (Z.compare_spec p q) end; zcases; lia.
Qed.

(** Truncation rounds down to a multiple of the unit, also before the epoch. *)
Lemma Timestamp_trunc_value {env : TimeEnv} {laws : TimeLaws env} tv dec :
  tv_ok tv -> 0 <= dec <= 6 ->
  exists tv', Timestamp_trunc dec tv = Some tv' /\ tv_ok tv' /\
    tv_value tv' = tv_value tv / unit_of dec * unit_of dec.
Proof.
  intros Hu Hd. unfold Timestamp_trunc, my_timeval_trunc. unfold tv_ok in Hu.
  rewrite fraction_remainder_value by lia. cbn [mbind option_bind].
  destruct (trunc_fraction (tv_usec tv) dec Hd Hu) as [_ Ht]. pose proof (unit_of_range dec Hd).
  pose proof (Z.div_mod (tv_usec tv) (unit_of dec) ltac:(lia)).
  eexists. split; [done|]. unfold tv_ok, tv_value. cbn [tv_usec tv_sec].
  rewrite long_small by lia. rewrite abs_usec_trunc by done. lia.
Qed.

Lemma cmp_sign (a b : option Z) : (match opt_compare a b with Lt => -1 | Eq => 0 | Gt => 1 end <= 0) <->
  match a, b with Some a, Some b => a <= b | Some _, None => False | None, _ => True end.
Proof. destruct a as [a|], b as [b|]; cbn; try lia. destruct (Z.compare_spec a b); lia. Qed.

Lemma Timestamp_or_zero_cmp_value x y :
  tv_ok (tz_tv x) -> tv_ok (tz_tv y) ->
  Timestamp_or_zero_cmp x y =
    match opt_compare (tz_value x) (tz_value y) with Lt => -1 | Eq => 0 | Gt => 1 end.
Proof.
  intros Hx Hy. unfold Timestamp_or_zero_cmp, tz_value.
  destruct (m_is_zero_datetime x), (m_is_zero_datetime y); try done. by apply Timestamp_cmp_value.
Qed.

Lemma Timestamp_or_zero_trunc_value {env : TimeEnv} {laws : TimeLaws env} x dec :
  tv_ok (tz_tv x) -> 0 <= dec <= 6 ->
  exists x', Timestamp_or_zero_trunc dec x = Some x' /\ tv_ok (tz_tv x') /\
    tz_value x' = (fun v => v / unit_of dec * unit_of dec) <$> tz_value x.
Proof.
  intros Hx Hd. unfold Timestamp_or_zero_trunc, tz_value. destruct (m_is_zero_datetime x) eqn:Ez; cbn [negb].
  - exists x. by rewrite Ez.
  - destruct (Timestamp_trunc_value (tz_tv x) dec Hx Hd) as (tv & -> & Hok & E).
    cbn [mbind option_bind]. eexists. split; [done|]. cbn. by rewrite E.
Qed.

(** [cmp] of TIMESTAMP values compares the microseconds since the epoch,
    with the zero datetime before every real timestamp; truncating to [dec]
    decimals never moves a value up and never past another in the order. *)
Theorem timestamp_order (env : TimeEnv) (laws : TimeLaws env) x y dec :
  tv_ok (tz_tv x) -> tv_ok (tz_tv y) -> 0 <= dec <= 6 ->
  Timestamp_or_zero_cmp x y =
    match opt_compare (tz_value x) (tz_value y) with Lt => -1 | Eq => 0 | Gt => 1 end /\
  exists x' y', Timestamp_or_zero_trunc dec x = Some x' /\ Timestamp_or_zero_trunc dec y = Some y' /\
    Timestamp_or_zero_cmp x' x <= 0 /\
    (Timestamp_or_zero_cmp x y <= 0 -> Timestamp_or_zero_cmp x' y' <= 0).
Proof.
  intros Hx Hy Hd. rewrite Timestamp_or_zero_cmp_value by done. split; [done|].
  destruct (Timestamp_or_zero_trunc_value x dec Hx Hd) as (x' & Ex & Hx' & Vx).
  destruct (Timestamp_or_zero_trunc_value y dec Hy Hd) as (y' & Ey & Hy' & Vy).
  exists x', y'. rewrite !Timestamp_or_zero_cmp_value, !cmp_sign, Vx, Vy by done.
  pose proof (unit_of_range dec Hd). split; [done|]. split; [done|].
  destruct (tz_value x) as [v|], (tz_value y) as [v'|]; cbn; try done; split; try done.
  - pose proof (Z.mul_div_le v (unit_of dec)). lia.
  - intros Hle. apply Z.mul_le_mono_nonneg_r; [lia|]. apply Z.div_le_mono; lia.
  - pose proof (Z.mul_div_le v (unit_of dec)). lia.
Qed.
(** ** DATETIME *)

(** The ranges mysql_time.h documents for a normalized value. *)
Definition date_range (t : MYSQL_TIME) : Prop :=
  0 <= year t <= 9999 /\ 0 <= month t <= 12 /\ 0 <= day t <= 31 /\ 0 <= hour t <= 23 /\
  mmssff_ok t /\ neg t = false.

Definition date_result (t : MYSQL_TIME) : Prop :=
  (time_type t = MYSQL_TIMESTAMP_DATE \/ time_type t = MYSQL_TIMESTAMP_DATETIME) /\ date_range t.

Definition datetime_ok (t : MYSQL_TIME) : Prop :=
  time_type t = MYSQL_TIMESTAMP_DATETIME /\ date_range t.

(** What a [Datetime] object may hold. *)
Definition dvalue_ok (t : MYSQL_TIME) : Prop := time_type t = MYSQL_TIMESTAMP_NONE \/ datetime_ok t.

(** The documented behaviour of the functions implemented elsewhere: the range
    check accepts a normalized value, parsers return normalized values or set
    a warning, rounding gives a DATETIME in range or invalidates the object. *)
Class DatetimeLaws (env : TimeEnv) : Prop := {
  check_datetime_range_law : forall t, date_result t -> check_datetime_range t = false;
  number_to_date_law : forall nr sp fl t w r t' w',
    number_to_datetime_or_date nr sp fl t w = (r, t', w') ->
    (r < 0 -> r = -1 /\ w' <> 0) /\ (0 <= r -> date_result t');
  str_to_date_law : forall thd str cs m t w t' w',
    str_to_datetime_or_date thd str cs m t w = (false, t', w') -> date_result t';
  datetime_round_nsec_law : forall thd dec nsec t w, datetime_ok t ->
    dvalue_ok (datetime_round_or_invalidate thd dec nsec t w).1.2;
  datetime_round_law : forall thd dec t w, datetime_ok t ->
    dvalue_ok (Datetime_round_or_invalidate thd dec t w).1.2;
}.

Section dlaws.
Context {env : TimeEnv} {laws : TimeLaws env} {dlaws : DatetimeLaws env}.

Lemma datetime_result t : datetime_ok t -> date_result t.
Proof. intros [H1 H2]. split; auto. Qed.

Lemma datetime_ok_slow t : datetime_ok t -> is_valid_datetime_slow t = Some true.
Proof.
  intros H. unfold is_valid_datetime_slow. rewrite (proj1 H).
  by rewrite check_datetime_range_law by (by apply datetime_result).
Qed.

Lemma dvalue_ok_slow t : dvalue_ok t -> Datetime_is_valid_value_slow t = Some true.
Proof.
  unfold Datetime_is_valid_value_slow. intros [-> | H]; [done|].
  rewrite (proj1 H). by apply datetime_ok_slow.
Qed.

Lemma wp_assert_opt f (Q : unit -> tstate -> Prop) s :
  f (this s) = Some true -> Q tt s -> wp (assert_opt f) Q s.
Proof. intros E H. apply wp_assert; [by rewrite E|done]. Qed.

Lemma wp_dvalue_assert s :
  dvalue_ok (this s) ->
  wp (assert_opt Datetime_is_valid_value_slow) (fun _ s' => dvalue_ok (this s')) s.
Proof. intros H. apply wp_assert_opt; [by apply dvalue_ok_slow|done]. Qed.

Lemma wp_is_valid_datetime (Q : bool -> tstate -> Prop) s :
  dvalue_ok (this s) ->
  (datetime_ok (this s) -> Q true s) ->
  (time_type (this s) = MYSQL_TIMESTAMP_NONE -> Q false s) ->
  wp is_valid_datetime Q s.
Proof.
  intros H H1 H2. unfold is_valid_datetime. wp_step. apply wp_assert_opt; [by apply dvalue_ok_slow|].
  wp_step. destruct H as [E | H]; [rewrite E; auto|]. rewrite (proj1 H). auto.
Qed.

Lemma datetime_trunc_ok t dec :
  datetime_ok t -> 0 <= dec <= 6 -> exists t', my_datetime_trunc t dec = Some t' /\ datetime_ok t'.
Proof.
  intros (Hty & Hy & Hm & Hd & Hh & (Hmi & Hs & Hu) & Hn) Hdec.
  rewrite my_datetime_trunc_value by done. eexists. split; [done|].
  destruct (trunc_fraction (second_part t) dec Hdec Hu) as [_ Hr].
  split; [done|]. unfold date_range, mmssff_ok. cbn. split_and!; try done; lia.
Qed.

Lemma Datetime_trunc_ok dec s :
  0 <= dec <= 6 -> dvalue_ok (this s) -> wp (Datetime_trunc dec) (fun _ s' => dvalue_ok (this s')) s.
Proof.
  intros Hd H. unfold Datetime_trunc. wp_step. apply wp_is_valid_datetime; [done|..]; intros Ht; wp_step.
  - destruct (datetime_trunc_ok (this s) dec Ht Hd) as (t' & E & Ht').
    eapply wp_upd_opt; [exact E|]. apply wp_dvalue_assert. by right.
  - wp_step. by apply wp_dvalue_assert.
Qed.

Lemma round_or_invalidate_ok thd dec nsec s :
  datetime_ok (this s) ->
  wp (round_or_invalidate thd dec nsec) (fun _ s' => dvalue_ok (this s')) s.
Proof.
  intros H. unfold round_or_invalidate. wp_step. apply wp_assert_opt; [by apply datetime_ok_slow|].
  wp_step. wp_step. intros a t w E. pose proof (datetime_round_nsec_law thd dec nsec _ (warn s) H) as Hr.
  rewrite E in Hr. wp_step. apply wp_assert_opt; [by apply dvalue_ok_slow|]. by wp_step.
Qed.

Lemma Datetime_ceiling_ok thd s :
  dvalue_ok (this s) -> wp (Datetime_ceiling thd) (fun _ s' => dvalue_ok (this s')) s.
Proof.
  intros H. unfold Datetime_ceiling. wp_step.
  apply wp_is_valid_datetime; [done|..]; intros Ht; wp_step; wp_step; wp_step; cbn [andb].
  - apply wp_if; intros _; [|wp_step; by apply wp_dvalue_assert].
    wp_step. eapply wp_mono; [by apply round_or_invalidate_ok|]. intros b s' Hs.
    wp_step. by apply wp_dvalue_assert.
  - wp_step. by apply wp_dvalue_assert.
Qed.

Lemma Datetime_round_ok thd dec s :
  dvalue_ok (this s) -> wp (Datetime_round thd dec) (fun _ s' => dvalue_ok (this s')) s.
Proof.
  intros H. unfold Datetime_round. wp_step.
  apply wp_is_valid_datetime; [done|..]; intros Ht; wp_step; wp_step; [|by apply wp_dvalue_assert].
  wp_step. intros b t w E. pose proof (datetime_round_law thd dec _ (warn s) Ht) as Hr. rewrite E in Hr.
  wp_step. by apply wp_dvalue_assert.
Qed.

(** The tail of the constructors: a DATE becomes a DATETIME. *)
Lemma if_needed_ok s :
  time_type (this s) = MYSQL_TIMESTAMP_NONE \/ date_result (this s) ->
  wp (date_to_datetime_if_needed;; assert_opt Datetime_is_valid_value_slow)
    (fun _ s' => dvalue_ok (this s')) s.
Proof.
  intros H. unfold date_to_datetime_if_needed. wp_step. wp_step. wp_step.
  destruct H as [E | [[E | E] Hr]]; rewrite E.
  - wp_step. apply wp_dvalue_assert. by left.
  - eapply wp_upd_opt; [unfold date_to_datetime; rewrite E; destruct Hr as (_ & _ & _ & _ & _ & ->); done|].
    apply wp_dvalue_assert. right. by split.
  - wp_step. apply wp_dvalue_assert. right. by split.
Qed.

Lemma Datetime_from_Sec6_ok nr flags s :
  conv_bool (and_mode_conv flags TIME_TIME_ONLY) = false ->
  wp (Datetime_from_Sec6 nr flags) (fun _ s' => dvalue_ok (this s')) s.
Proof.
  intros Hf. unfold Datetime_from_Sec6. wp_step.
  enough (wp (Temporal_with_date_Sec6 nr flags) (fun _ s' =>
    time_type (this s') = MYSQL_TIMESTAMP_NONE \/ date_result (this s')) s) as H.
  { eapply wp_mono; [exact H|]. intros [] s' Hs. by apply if_needed_ok. }
  unfold Temporal_with_date_Sec6. wp_step. wp_step; [by rewrite Hf|]. wp_step.
  unfold to_datetime_or_date. apply wp_if; intros _; wp_step; wp_step.
  - wp_step. wp_step. by left.
  - intros r t w E. apply number_to_date_law in E as [E1 E2]. wp_step. wp_step.
    { destruct (Z.eqb_spec r (-1)); [|by rewrite orb_true_r]. cbn [negb]. rewrite orb_false_r.
      apply truth_true, E1. lia. }
    wp_step. destruct (Z.eqb_spec r (-1)); wp_step; [by left|]. right. apply E2.
    destruct (Z.le_gt_cases 0 r); [done|]. destruct E1; lia.
Qed.

Lemma Datetime_from_str_ok thd str cs flags s :
  conv_bool (and_mode_conv flags TIME_TIME_ONLY) = false ->
  wp (Datetime_from_str thd str cs flags) (fun _ s' => dvalue_ok (this s')) s.
Proof.
  intros Hf. unfold Datetime_from_str. wp_step. unfold Temporal_with_date_str.
  wp_step. wp_step; [by rewrite Hf|]. wp_step. wp_step. intros [] t w E; wp_step; apply if_needed_ok.
  - by left.
  - right. by eapply str_to_date_law.
Qed.

Lemma Datetime_from_Sec9_ok thd nr flags r s :
  conv_bool (and_mode_conv flags TIME_TIME_ONLY) = false -> mode_round flags = Some r ->
  wp (Datetime_from_Sec9 thd nr flags) (fun _ s' => dvalue_ok (this s')) s.
Proof.
  intros Hf Er. unfold Datetime_from_Sec9. wp_step. eapply wp_mono; [by apply Datetime_from_Sec6_ok|].
  intros [] s' Hs. wp_step. apply wp_is_valid_datetime; [done|..]; intros Ht; wp_step.
  - wp_step. exists r, s'. unfold round_of. rewrite Er. split; [done|]. apply wp_if; intros _.
    + wp_step. eapply wp_mono; [by apply round_or_invalidate_ok|]. intros b s'' Hs'.
      wp_step. by apply wp_dvalue_assert.
    + wp_step. by apply wp_dvalue_assert.
  - wp_step. by apply wp_dvalue_assert.
Qed.

Lemma Datetime_round_mode_ok thd dec mode s :
  dec_ok dec -> mode_ok mode -> dvalue_ok (this s) ->
  wp (Datetime_round_mode thd dec mode) (fun _ s' => dvalue_ok (this s')) s.
Proof.
  intros Hd [-> | ->] H; unfold Datetime_round_mode; cbn.
  - by apply Datetime_trunc_ok.
  - by apply Datetime_round_ok.
Qed.

(** ** Programs over a Datetime object *)

Inductive dctor :=
  | DDefault | DZero
  | DFromSec6 (nr : Sec6) (flags : date_mode_t)
  | DFromHybrid (nr : SqlInt.Longlong_hybrid) (flags : date_mode_t)
  | DFromSec9 (nr : Sec9) (flags : date_mode_t)
  | DFromSec9Dec (nr : Sec9) (flags : date_mode_t) (dec : Z)
  | DFromStr (str : string) (cs : CHARSET_INFO) (flags : date_mode_t)
  | DFromStrDec (str : string) (cs : CHARSET_INFO) (flags : date_mode_t) (dec : Z)
  | DFromMYSQL_TIME (from : MYSQL_TIME).

Inductive dmeth :=
  | DTrunc (dec : Z) | DCeiling | DRound (dec : Z) | DRoundMode (dec : Z) (mode : time_round_mode_t).

Definition run_dctor (thd : THD) (c : dctor) : TM unit :=
  match c with
  | DDefault => Datetime_default
  | DZero => Datetime_zero
  | DFromSec6 nr flags => Datetime_from_Sec6 nr flags
  | DFromHybrid nr flags => Datetime_from_hybrid nr flags
  | DFromSec9 nr flags => Datetime_from_Sec9 thd nr flags
  | DFromSec9Dec nr flags dec => Datetime_from_Sec9_dec thd nr flags dec
  | DFromStr str cs flags => Datetime_from_str thd str cs flags
  | DFromStrDec str cs flags dec => Datetime_from_str_dec thd str cs flags dec
  | DFromMYSQL_TIME from => Datetime_from_MYSQL_TIME from
  end.

Definition run_dmeth (thd : THD) (m : dmeth) : TM unit :=
  match m with
  | DTrunc dec => Datetime_trunc dec
  | DCeiling => Datetime_ceiling thd
  | DRound dec => Datetime_round thd dec
  | DRoundMode dec mode => Datetime_round_mode thd dec mode
  end.

Fixpoint run_dmeths (thd : THD) (ms : list dmeth) : TM unit :=
  match ms with [] => mret tt | m :: ms => run_dmeth thd m;; run_dmeths thd ms end.

(** Flags of a DATETIME: not TIME_TIME_ONLY, and a rounding mode where the
    constructor reads one. *)
Definition dflags_ok (flags : date_mode_t) : Prop :=
  conv_bool (and_mode_conv flags TIME_TIME_ONLY) = false.

Definition dround_ok (flags : date_mode_t) : Prop := exists r, mode_round flags = Some r /\ mode_ok r.

Definition dctor_ok (c : dctor) : Prop :=
  match c with
  | DDefault | DZero => True
  | DFromSec6 _ flags | DFromHybrid _ flags | DFromStr _ _ flags => dflags_ok flags
  | DFromSec9 _ flags => dflags_ok flags /\ dround_ok flags
  | DFromSec9Dec _ flags dec | DFromStrDec _ _ flags dec => dflags_ok flags /\ dround_ok flags /\ dec_ok dec
  | DFromMYSQL_TIME from => datetime_ok from
  end.

Definition dmeth_ok (m : dmeth) : Prop :=
  match m with
  | DCeiling => True
  | DTrunc dec | DRound dec => dec_ok dec
  | DRoundMode dec mode => dec_ok dec /\ mode_ok mode
  end.

Lemma flags_round_ok thd flags dec s :
  dround_ok flags -> dec_ok dec -> dvalue_ok (this s) ->
  wp (r ← round_of flags; Datetime_round_mode thd dec r) (fun _ s' => dvalue_ok (this s')) s.
Proof.
  intros (r & Er & Hr) Hd H. wp_step. exists r, s. unfold round_of. rewrite Er. split; [done|].
  by apply Datetime_round_mode_ok.
Qed.

Lemma run_dctor_ok thd c s : dctor_ok c -> wp (run_dctor thd c) (fun _ s' => dvalue_ok (this s')) s.
Proof.
  destruct c; cbn [dctor_ok run_dctor]; intros H.
  - unfold Datetime_default, Temporal_with_date_default. wp_step. by left.
  - by apply Datetime_from_Sec6_ok.
  - by apply Datetime_from_Sec6_ok.
  - by apply Datetime_from_Sec6_ok.
  - destruct H as (Hf & r & Er & _). by eapply Datetime_from_Sec9_ok.
  - destruct H as (Hf & Hr & Hd). pose proof Hr as (r & Er & _). unfold Datetime_from_Sec9_dec. wp_step.
    eapply wp_mono; [by eapply Datetime_from_Sec9_ok|]. intros [] s' Hs. by apply flags_round_ok.
  - by apply Datetime_from_str_ok.
  - destruct H as (Hf & Hr & Hd). unfold Datetime_from_str_dec. wp_step.
    eapply wp_mono; [by apply Datetime_from_str_ok|]. intros [] s' Hs. by apply flags_round_ok.
  - unfold Datetime_from_MYSQL_TIME. wp_step. wp_step. apply wp_assert_opt; [by apply datetime_ok_slow|].
    by right.
Qed.

Lemma run_dmeth_ok thd m s :
  dmeth_ok m -> dvalue_ok (this s) -> wp (run_dmeth thd m) (fun _ s' => dvalue_ok (this s')) s.
Proof.
  destruct m; cbn [dmeth_ok run_dmeth]; intros H Hv.
  - by apply Datetime_trunc_ok.
  - by apply Datetime_ceiling_ok.
  - by apply Datetime_round_ok.
  - destruct H. by apply Datetime_round_mode_ok.
Qed.

Lemma run_dmeths_ok thd ms s :
  Forall dmeth_ok ms -> dvalue_ok (this s) -> wp (run_dmeths thd ms) (fun _ s' => dvalue_ok (this s')) s.
Proof.
  intros Hms. revert s. induction Hms as [|m ms Hm _ IH]; intros s Hv; cbn [run_dmeths]; [by wp_step|].
  wp_step. eapply wp_mono; [by apply run_dmeth_ok|]. intros [] s' Hs. by apply IH.
Qed.

(** Rounding under FRAC_NONE accepts exactly a defined value without digits
    below the [dec]-th decimal. *)
Lemma Datetime_round_none_exact thd dec s :
  dec_ok dec -> dvalue_ok (this s) ->
  if type_is (time_type (this s)) MYSQL_TIMESTAMP_DATETIME && (second_part (this s) mod unit_of dec =? 0)
  then exists s', Datetime_round_mode thd dec TIME_FRAC_NONE s = Some (tt, s') /\ dvalue_ok (this s')
  else Datetime_round_mode thd dec TIME_FRAC_NONE s = None.
Proof.
  intros Hd Hv. pose proof Hv as Hs%dvalue_ok_slow. destruct s as [t w]. cbn [this] in *.
  assert (Datetime_fraction_remainder dec (mk_ts t w) =
    if type_is (time_type t) MYSQL_TIMESTAMP_DATETIME
    then Some (second_part t mod unit_of dec, mk_ts t w) else None) as Hr.
  { unfold Datetime_fraction_remainder, is_valid_datetime, fraction_remainder, assert_opt.
    cbv [mbind TM_bind assert_ get_this this]. rewrite Hs.
    destruct (type_is _ _) eqn:Et; [|done].
    destruct Hv as [Hn | (_ & _ & _ & _ & _ & (_ & _ & Hu) & _)]; [by rewrite Hn in Et|].
    rewrite long_small, fraction_remainder_value by (done || lia). done. }
  assert (Datetime_round_mode thd dec TIME_FRAC_NONE (mk_ts t w) =
    if type_is (time_type t) MYSQL_TIMESTAMP_DATETIME && (second_part t mod unit_of dec =? 0)
    then Datetime_trunc dec (mk_ts t w) else None) as ->.
  { change (Datetime_round_mode thd dec TIME_FRAC_NONE (mk_ts t w)) with
      (match Datetime_fraction_remainder dec (mk_ts t w) with
       | Some (r, s') => (assert_ (fun _ => r =? 0);; Datetime_trunc dec) s' | None => None end).
    rewrite Hr. destruct (type_is _ _); cbn [andb]; [|done].
    unfold mbind, TM_bind, assert_ at 1. by destruct (_ =? 0). }
  destruct (_ && _); [|done]. destruct (Datetime_trunc_ok dec (mk_ts t w) Hd Hv) as ([] & s' & E & Hv').
  by exists s'.
Qed.

(** C28: The contract of class [Datetime], for the constructors that read
    neither an item nor a time zone (default, zero, from a number with six or
    nine fractional digits, from an integer, from a string, with and without a
    number of decimals, from a valid MYSQL_TIME): whatever the storage held
    before, a constructor followed by any sequence of truncations, roundings
    (FRAC_TRUNCATE or FRAC_ROUND) and ceilings fails no assertion of the class
    and leaves the object either undefined or holding a normalized DATETIME;
    a defined object converts to a [Date] of the same day with a zero time of
    day, failing no assertion; rounding the object under FRAC_NONE succeeds
    exactly when it is defined and has no digits to lose, and fails the
    assertion there otherwise. *)
Theorem datetime_values_valid thd c ms s :
  dctor_ok c -> Forall dmeth_ok ms ->
  exists s', (run_dctor thd c;; run_dmeths thd ms) s = Some (tt, s') /\
    dvalue_ok (this s') /\
    (time_type (this s') = MYSQL_TIMESTAMP_DATETIME -> forall s0,
       Date_from_temporal_with_date (this s') s0 =
         Some (tt, mk_ts (mk_time (year (this s')) (month (this s')) (day (this s')) 0 0 0 0 false
                            MYSQL_TIMESTAMP_DATE) (warn s0))) /\
    (forall dec, dec_ok dec ->
       if type_is (time_type (this s')) MYSQL_TIMESTAMP_DATETIME &&
          (second_part (this s') mod unit_of dec =? 0)
       then exists s'', Datetime_round_mode thd dec TIME_FRAC_NONE s' = Some (tt, s'') /\
              dvalue_ok (this s'')
       else Datetime_round_mode thd dec TIME_FRAC_NONE s' = None).
Proof.
  intros Hc Hms.
  assert (wp (run_dctor thd c;; run_dmeths thd ms) (fun _ s' => dvalue_ok (this s')) s)
    as ([] & s' & E & Hv).
  { wp_step. eapply wp_mono; [by apply run_dctor_ok|]. intros [] s' Hs. by apply run_dmeths_ok. }
  exists s'. split; [exact E|]. split; [done|].
  split; [|intros dec Hd; by apply Datetime_round_none_exact]. intros Ht s0.
  destruct Hv as [En | [_ Hr]]; [by rewrite Ht in En|].
  pose proof Hr as (Hy & Hm & Hd & Hh & Hf & Hn).
  unfold Date_from_temporal_with_date, datetime_to_date, is_valid_date_slow.
  cbv [mbind TM_bind upd upd_opt assert_opt assert_ this warn]. destruct s' as [t w]. cbn [this] in *.
  rewrite Ht, Hn. cbn. rewrite check_datetime_range_law; [done|].
  split; [by left|]. unfold date_range, mmssff_ok. cbn. split_and!; try done; lia.
Qed.
End dlaws.
End DatetimeProps.
