(* ===== verification/TemporalSample.v ===== *)
(** * A concrete environment for the temporal classes

    [TimeEnv] leaves the functions implemented outside the headers open.
    Here they are instantiated by simple executable functions, for which the
    laws are proved, so that the theorems about [Time], [Datetime] and their
    base classes are applied to concrete values. *)

From Stdlib Require Import ZArith Lia.
From stdpp Require Import prelude strings.
From S2P Require Import Prelude SqlInt TimeModes Temporal TemporalProps TimeValue TimeValueProps.
From S2P Require Import DatetimeValue DatetimeProps.
Local Open Scope Z_scope.
Local Open Scope cint_scope.

Module TemporalSample.
Import TimeModes Temporal TemporalProps TimeValue TimeValueProps DatetimeValue DatetimeProps.

(** A TIME from microseconds, and the longest one. *)
Definition of_usec (n : bool) (v : Z) : MYSQL_TIME :=
  mk_time 0 0 0 (v / 3600000000) (v / 60000000 mod 60) (v / 1000000 mod 60) (v mod 1000000) n
    MYSQL_TIMESTAMP_TIME.

Definition max_usec : Z := 3020399999999.

Definition clamped (n : bool) (v : Z) : MYSQL_TIME := of_usec n (Z.max 0 (Z.min v max_usec)).

Definition sample_round (dec : Z) (t : MYSQL_TIME) : MYSQL_TIME :=
  clamped (neg t) ((abs_usec t + unit_of dec / 2) / unit_of dec * unit_of dec).

Definition in_date_range (t : MYSQL_TIME) : bool :=
  (year t <=? 9999) && (month t <=? 12) && (day t <=? 31) && (hour t <=? 23) &&
  (minute t <=? 59) && (second t <=? 59) && (second_part t <=? 999999).

Definition sample_number_to_time (n : bool) (nr sp max_hour : Z) (t : MYSQL_TIME) (w : Z) : Z * MYSQL_TIME * Z :=
  let t' := mk_time 0 0 0 (nr / 10000) (nr / 100 mod 100) (nr mod 100) sp n MYSQL_TIMESTAMP_TIME in
  if (0 <=? nr) && (nr / 10000 <=? Z.min max_hour 838) && (nr / 100 mod 100 <=? 59) && (nr mod 100 <=? 59) &&
     (0 <=? sp) && (sp <=? 999999)
  then (0, t', w) else (1, t, MYSQL_TIME_WARN_OUT_OF_RANGE).

Definition sample_number_to_date (nr sp flags : Z) (t : MYSQL_TIME) (w : Z) : Z * MYSQL_TIME * Z :=
  let t' := mk_time (nr / 10000000000) (nr / 100000000 mod 100) (nr / 1000000 mod 100)
              (nr / 10000 mod 100) (nr / 100 mod 100) (nr mod 100) sp false MYSQL_TIMESTAMP_DATETIME in
  if (0 <=? nr) && (0 <=? sp) && in_date_range t' then (nr, t', w) else (-1, t, MYSQL_TIME_WARN_OUT_OF_RANGE).

Definition sample_str_to_time (str : string) (t : MYSQL_TIME) (w : Z) : bool * MYSQL_TIME * Z :=
  if decide (str = "10:11:12.5"%string) then (false, of_usec false 36672500000, w)
  else (true, t, MYSQL_TIME_WARN_TRUNCATED).

Definition sample_str_to_date (str : string) (t : MYSQL_TIME) (w : Z) : bool * MYSQL_TIME * Z :=
  if decide (str = "2001-02-03"%string)
  then (false, mk_time 2001 2 3 0 0 0 0 false MYSQL_TIMESTAMP_DATE, w)
  else (true, t, MYSQL_TIME_WARN_TRUNCATED).

Arguments sample_str_to_time : simpl never.
Arguments sample_str_to_date : simpl never.

#[global] Instance sample_env : TimeEnv := {|
  THD := unit;
  CHARSET_INFO := unit;
  log_10_int i := 10 ^ i;
  set_zero_time ty _ := zero_time ty;
  check_time_range dec t w :=
    if hour t <=? TIME_MAX_HOUR then (0, t, w) else (0, clamped (neg t) max_usec, MYSQL_TIME_WARN_OUT_OF_RANGE);
  check_datetime_range t := negb (in_date_range t);
  check_date t not_zero flags w := (false, w);
  number_to_datetime_or_date := sample_number_to_date;
  number_to_time_only := sample_number_to_time;
  calc_daynr y m d := y * 366 + m * 31 + d;
  TIME_to_ulonglong t := hour t * 10000 + minute t * 100 + second t;
  TIME_to_ulonglong_time t := hour t * 10000 + minute t * 100 + second t;
  TIME_to_ulonglong_date t := year t * 10000 + month t * 100 + day t;
  TIME_to_ulonglong_datetime t :=
    (year t * 10000 + month t * 100 + day t) * 1000000 + hour t * 10000 + minute t * 100 + second t;
  set_current_date _ := mk_time 2025 1 2 0 0 0 0 false MYSQL_TIMESTAMP_DATE;
  get_date_from_daynr n := (false, (n / 366, 1, 1));
  calc_time_diff t1 t2 sign :=
    let v := abs_usec t1 - sign * abs_usec t2 in (v <? 0, Z.abs v / 1000000, Z.abs v mod 1000000);
  calc_time_diff_TIME t1 t2 sign _ :=
    let v := abs_usec t1 - sign * abs_usec t2 in (false, of_usec (v <? 0) (Z.abs v));
  calc_time_from_sec sec usec t :=
    set_second_part usec (set_second (sec mod 60) (set_minute (sec / 60 mod 60) (set_hour (sec / 3600) t)));
  calc_week t _ := (day t / 7, year t);
  calc_weekday n _ := n mod 7;
  adjust_time_range_with_warn _ dec t :=
    if abs_usec t <=? time_max_usec dec then (false, t)
    else (false, of_usec (neg t) (time_max_usec dec));
  pack_time t := time_usec t;
  str_to_datetime_or_date_or_time _ str _ _ t w := sample_str_to_time str t w;
  str_to_datetime_or_date _ str _ _ t w := sample_str_to_date str t w;
  default_round_mode _ := TIME_FRAC_TRUNCATE;
  sql_mode_for_dates _ := TIME_CONV_NONE;
  Time_round_or_set_max_nsec dec nsec t w := (tt, sample_round dec t, w);
  Time_round_or_set_max dec t w := (tt, sample_round dec t, w);
  datetime_add_nanoseconds_or_invalidate _ _ t w := (false, t, w);
  datetime_round_or_invalidate _ _ _ t w := (false, t, w);
  Datetime_round_or_invalidate _ _ t w := (false, t, w);
  add_nanoseconds_with_round _ _ _ t w := (false, t, w);
  Sec6_convert_to_mysql_time _ n sec usec _ t w := (true, t, w);
|}.

Lemma of_usec_ok n v : 0 <= v <= max_usec -> time_ok (of_usec n v).
Proof. unfold max_usec. intros H. unfold time_ok, mmssff_ok, TIME_MAX_HOUR. cbn. repeat split; dlia. Qed.

Lemma clamped_ok n v : time_ok (clamped n v).
Proof. apply of_usec_ok. unfold max_usec. lia. Qed.

#[global] Instance sample_laws : TimeLaws sample_env.
Proof.
  split; cbn; try done.
  - intros t1 t2 sign n sec usec H1 H2 Hs [= <- <- <-]. set (v := abs_usec t1 - sign * abs_usec t2).
    split; [dlia|]. split; [dlia|]. destruct (Z.ltb_spec v 0); cbn [signed]; dlia.
  - intros _ dec t _ _ Hb. by rewrite (proj2 (Z.leb_le _ _) Hb).
Qed.

Lemma sample_number_to_time_ok n nr sp t w rc t' w' :
  sample_number_to_time n nr sp TIME_MAX_HOUR t w = (rc, t', w') ->
  (rc <> 0 -> w' <> 0) /\ (rc = 0 -> valid_result t').
Proof.
  unfold sample_number_to_time, TIME_MAX_HOUR. destruct (_ && _) eqn:E; intros [= <- <- <-]; split; try done.
  intros _. unfold valid_result, time_ok, mmssff_ok, TIME_MAX_HOUR. cbn.
  rewrite !andb_true_iff, !Z.leb_le in E. destruct E as (((((E1 & E2) & E3) & E4) & E5) & E6).
  repeat split; dlia.
Qed.

Lemma sample_number_to_date_ok nr sp fl t w r t' w' :
  sample_number_to_date nr sp fl t w = (r, t', w') ->
  (r < 0 -> r = -1 /\ w' <> 0) /\ (0 <= r -> date_result t').
Proof.
  unfold sample_number_to_date, in_date_range. destruct (_ && _) eqn:E; intros [= <- <- <-].
  - cbn in E. rewrite !andb_true_iff, !Z.leb_le in E.
    destruct E as ((E1 & E2) & (((((E3 & E4) & E5) & E6) & E7) & E8) & E9). split; [lia|]. intros _.
    split; [by right|]. unfold date_range, mmssff_ok. cbn. repeat split; dlia.
  - by split.
Qed.

Lemma date_result_valid t : date_result t -> valid_result t.
Proof.
  intros [Hty (Hy & Hm & Hd & Hh & Hf & Hn)]. unfold valid_result.
  destruct Hty as [-> | ->]; repeat split; try apply Hf; lia.
Qed.

#[global] Instance sample_type_laws : TimeTypeLaws sample_env.
Proof.
  split; cbn.
  - apply sample_number_to_time_ok.
  - intros * E. apply sample_number_to_date_ok in E as [E1 E2]. split; [done|].
    intros Hr. apply date_result_valid. auto.
  - intros ? str ? ? t w t' w'. unfold sample_str_to_time. case_decide; intros [= <- <-]. by apply of_usec_ok.
  - intros t1 t2 sign _. set (v := abs_usec t1 - sign * abs_usec t2). unfold mmssff_ok. cbn.
    repeat split; dlia.
  - intros dec t w H1 H2 H3 H4 H5 H6 _. destruct (Z.leb_spec (hour t) TIME_MAX_HOUR); [|apply clamped_ok].
    done.
  - intros. apply clamped_ok.
  - intros. apply clamped_ok.
Qed.

Lemma in_date_range_ok t : date_range t -> in_date_range t = true.
Proof.
  intros (Hy & Hm & Hd & Hh & (H1 & H2 & H3) & Hn). unfold in_date_range.
  rewrite !(proj2 (Z.leb_le _ _)) by lia. done.
Qed.

#[global] Instance sample_datetime_laws : DatetimeLaws sample_env.
Proof.
  split; cbn.
  - intros t [_ H]. by rewrite in_date_range_ok.
  - apply sample_number_to_date_ok.
  - intros ? str ? ? t w t' w'. unfold sample_str_to_date. case_decide; intros [= <- <-]. split; [by left|]. unfold date_range, mmssff_ok. cbn. lia.
  - intros. by right.
  - intros. by right.
Qed.

(** ** The theorems at concrete values *)

Definition thd0 : @THD sample_env := tt.
Definition cs0 : @CHARSET_INFO sample_env := tt.

(** -12:34:56.789012 *)
Definition t1 : MYSQL_TIME := mk_time 0 0 0 12 34 56 789012 true MYSQL_TIMESTAMP_TIME.
Definition t2 : MYSQL_TIME := mk_time 0 0 0 1 25 3 210988 false MYSQL_TIMESTAMP_TIME.

Lemma t1_ok : time_ok t1.
Proof. unfold time_ok, mmssff_ok, TIME_MAX_HOUR. cbn. split_and!; done || lia. Qed.
Lemma t2_ok : time_ok t2.
Proof. unfold time_ok, mmssff_ok, TIME_MAX_HOUR. cbn. split_and!; done || lia. Qed.

Lemma add_nanoseconds_exact_witness :
  exists c mm ss ff,
    add_nanoseconds_mmssff 999999500 (set_minute 59 (set_second 59 t1)) =
      Some (c, set_second_part ff (set_second ss (set_minute mm (set_minute 59 (set_second 59 t1))))) /\
    c = true.
Proof.
  destruct (add_nanoseconds_exact (set_minute 59 (set_second 59 t1)) 999999500)
    as (c & mm & ss & ff & E & Hm & Hs & Hf & V); [unfold mmssff_ok; cbn; lia|lia|].
  exists c, mm, ss, ff. split; [exact E|]. cbn in V. unfold rounded_usec in V.
  destruct c; [reflexivity|]. exfalso. revert V.
  change ((999999500 + 500) / 1000) with 1000000. lia.
Defined.

Lemma sec_to_time_exact_witness :
  exists t', sec_to_time (mk_sec6 3020399 7 true false) 6 t1 = Some (false, t') /\ time_ok t' /\
    time_usec t' = -3020399000007.
Proof.
  destruct (sec_to_time_exact (mk_sec6 3020399 7 true false) 6 t1) as [H _];
    [split; cbn; [split; vm_compute; congruence|lia]|].
  apply H. cbn. vm_compute. congruence.
Defined.

Lemma sec6_add_time_exact_witness :
  exists x t', Sec6_add_make t1 t2 1 = Some x /\ Sec6_add_to_time thd0 x 6 = (false, Some t') /\
    time_usec t' = -40193578024.
Proof.
  destruct (sec6_add_time_exact thd0 t1 t2 1 6 t1_ok t2_ok) as (x & t' & H1 & H2 & _ & H3);
    [by left|split; lia|vm_compute; congruence|].
  exists x, t'. split; [exact H1|]. split; [exact H2|]. rewrite H3. reflexivity.
Defined.
Definition truncating : Options := mk_opt (or_conv_round TIME_TIME_ONLY TIME_FRAC_TRUNCATE)
  DATETIME_TO_TIME_YYYYMMDD_000000DD_MIX_TO_HOURS.

(** '10:11:12.5' parsed with one decimal and then floored. *)
Lemma time_values_valid_witness :
  exists s', (run_ctor thd0 (CFromStrDec "10:11:12.5" cs0 truncating 1);; run_meths [MFloor])
               (mk_ts t1 0) = Some (tt, s') /\ value_ok (this s') /\ to_seconds (this s') = Some 36672.
Proof.
  destruct (time_values_valid thd0 (CFromStrDec "10:11:12.5" cs0 truncating 1) [MFloor]
    (mk_ts t1 0)) as (s' & E & Hv & _).
  - split; [|split; lia]. exists TIME_FRAC_TRUNCATE. split; [reflexivity|by left].
  - by repeat constructor.
  - exists s'. split; [exact E|]. split; [exact Hv|]. vm_compute in E. injection E as <-. reflexivity.
Defined.

(** DATE '0000-00-02' with 3 hours becomes 51 hours. *)
Lemma datetime_to_time_spec_witness :
  valid_MYSQL_TIME_to_valid_value thd0 truncating
    (mk_ts (mk_time 0 0 2 3 4 5 6 false MYSQL_TIMESTAMP_DATETIME) 0) =
  Some (tt, mk_ts (mk_time 0 0 0 51 4 5 6 false MYSQL_TIMESTAMP_TIME) 0).
Proof.
  refine (datetime_to_time_spec thd0 truncating
    (mk_time 0 0 2 3 4 5 6 false MYSQL_TIMESTAMP_DATETIME) 0 (or_intror eq_refl) _).
  unfold valid_result, mmssff_ok. cbn. lia.
Defined.

Lemma time_rounding_spec_witness :
  exists t', ceiling (mk_ts t1 0) = Some (tt, mk_ts t' 0) /\ time_usec t' = -45296000000.
Proof.
  destruct (time_rounding_spec t1 0 3 t1_ok) as (_ & (t' & E & V) & _); [lia|].
  exists t'. split; [exact E|]. rewrite V. reflexivity.
Defined.

Lemma seconds_roundtrip_witness :
  (exists t', sec_to_time (mk_sec6 100 5 true false) 6 t1 = Some (false, t') /\ to_seconds t' = Some (-100)) /\
  exists n, to_seconds_abs t2 = Some n /\
    sec_to_time (mk_sec6 n (second_part t2) (neg t2) false) 6 t1 = Some (false, t2).
Proof.
  apply (seconds_roundtrip (mk_sec6 100 5 true false) 6 t1 t2 false);
    [split; cbn; [split; vm_compute; congruence|lia]|vm_compute; congruence|exact t2_ok].
Defined.

Lemma round_none_undefined_witness :
  round_with_mode 3 TIME_FRAC_NONE (mk_ts (set_time_type MYSQL_TIMESTAMP_NONE t1) 0) = None.
Proof. apply (round_none_undefined 3 (set_time_type MYSQL_TIMESTAMP_NONE t1) 0). reflexivity. Defined.

(** -12:34:56.789012 as DAY_MICROSECOND. *)
Lemma extract_interval_exact_witness :
  exists t', Extract_source (set_hour 87649415 t1) = Some t' /\ day_microsecond t' = -3652058233456789012.
Proof.
  destruct (extract_interval_exact (set_hour 87649415 t1)) as (t' & E & _ & _ & V & _).
  { destruct t1_ok as (H1 & H2 & H3 & H4 & _ & H6).
    split_and!; [exact H1|exact H2|exact H3|exact H4|cbn; unfold TIME_MAX_INTERVAL_HOUR; lia..|exact H6]. }
  exists t'. split; [exact E|]. rewrite V. vm_compute in E. injection E as <-. reflexivity.
Defined.

Lemma timestamp_order_witness :
  Timestamp_or_zero_cmp (mk_tz (mk_tv (-5) 20) false) (mk_tz (mk_tv (-5) 19) false) = 1.
Proof.
  destruct (timestamp_order sample_env sample_laws
    (mk_tz (mk_tv (-5) 20) false) (mk_tz (mk_tv (-5) 19) false) 3) as [E _];
    [unfold tv_ok; cbn; lia..|lia|]. rewrite E. reflexivity.
Defined.

(** '2001-02-03' as DATETIME, truncated, and as DATE. *)
Lemma datetime_values_valid_witness :
  exists s', (run_dctor thd0 (DFromStr "2001-02-03" cs0 (date_mode 0));;
              run_dmeths thd0 [DTrunc 0; DCeiling]) (mk_ts t1 0) = Some (tt, s') /\
    Date_from_temporal_with_date (this s') (mk_ts t1 0) =
      Some (tt, mk_ts (mk_time 2001 2 3 0 0 0 0 false MYSQL_TIMESTAMP_DATE) 0).
Proof.
  destruct (datetime_values_valid thd0 (DFromStr "2001-02-03" cs0 (date_mode 0))
    [DTrunc 0; DCeiling] (mk_ts t1 0)) as (s' & E & _ & H & _).
  - reflexivity.
  - repeat constructor; cbn; lia.
  - exists s'. split; [exact E|].
    vm_compute in E. injection E as <-. exact (H eq_refl (mk_ts t1 0)).
Defined.
End TemporalSample.
