(* ===== verification/SessionClock.v ===== *)
(** * The time of a statement (class THD of private/sql_class.h, macros of my_sys.h)

    A session gives every statement a start time: the system clock, kept from
    repeating itself, or a time set by the user or by the replication stream.
    Readings of the clocks (my_hrtime, microsecond_interval_timer) are arguments.
    my_time_t is a 32-bit long in this build; an increment beyond it is undefined
    and has no result. *)

From Stdlib Require Import ZArith Lia.
From S2P Require Import Prelude Temporal.
From stdpp Require Import prelude list sorting.
Local Open Scope Z_scope.
Local Open Scope cint_scope.

Module SessionClock.

Definition HRTIME_RESOLUTION : Z := 1000000.

(** A [my_hrtime_t] is its member [val]. *)
Definition hrtime_to_time (x : Z) : Z := x / HRTIME_RESOLUTION.
Definition hrtime_from_time (x : Z) : Z := u64 (u64 x * HRTIME_RESOLUTION).
Definition hrtime_sec_part (x : Z) : Z := u32 (x mod HRTIME_RESOLUTION).
Definition hrtime_to_my_time (x : Z) : Z := sgn 32 (hrtime_to_time x).

Definition SECTIME_NO : Z := 0.
Definition SECTIME_SUPER : Z := 1.
Definition SECTIME_REPL : Z := 2.
Definition SECTIME_YES : Z := 3.

Record THD := mk_thd {
  sys_start : Z;             (* system_time.start.val, ulonglong *)
  sys_sec : Z;               (* system_time.sec, my_time_t *)
  sys_sec_part : Z;          (* system_time.sec_part, ulong *)
  start_time : Z;
  start_time_sec_part : Z;
  user_time : Z;
  start_utime : Z;
  utime_after_lock : Z
}.

Definition set_sys (t : THD) (start sec sec_part : Z) : THD :=
  mk_thd start sec sec_part (start_time t) (start_time_sec_part t) (user_time t)
    (start_utime t) (utime_after_lock t).
Definition set_start (t : THD) (sec sec_part : Z) : THD :=
  mk_thd (sys_start t) (sys_sec t) (sys_sec_part t) sec sec_part (user_time t)
    (start_utime t) (utime_after_lock t).
Definition set_user (t : THD) (val : Z) : THD :=
  mk_thd (sys_start t) (sys_sec t) (sys_sec_part t) (start_time t) (start_time_sec_part t) val
    (start_utime t) (utime_after_lock t).
Definition set_utimes (t : THD) (now : Z) : THD :=
  mk_thd (sys_start t) (sys_sec t) (sys_sec_part t) (start_time t) (start_time_sec_part t)
    (user_time t) now now.

(** [++] on my_time_t. *)
Definition incr_time (sec : Z) : option Z := if sec + 1 <? 2 ^ 31 then Some (sec + 1) else None.

Definition set_system_time (hrtime : Z) (t : THD) : option THD :=
  let sec := hrtime_to_my_time hrtime in
  let sec_part := hrtime_sec_part hrtime in
  if (sys_sec t <? sec) || ((sec =? sys_sec t) && (sys_sec_part t <? sec_part)) || (hrtime <? sys_start t)
  then Some (set_sys t hrtime sec sec_part)
  else if sys_sec_part t <? Temporal.TIME_MAX_SECOND_PART
  then Some (set_sys t (sys_start t) (sys_sec t) (u32 (sys_sec_part t + 1)))
  else sec ← incr_time (sys_sec t); Some (set_sys t (sys_start t) sec 0).

Definition set_start_time (hrtime : Z) (t : THD) : option THD :=
  if truth (user_time t)
  then Some (set_start t (hrtime_to_my_time (user_time t)) (hrtime_sec_part (user_time t)))
  else t ← set_system_time hrtime t; Some (set_start t (sys_sec t) (sys_sec_part t)).

Definition set_time (hrtime now : Z) (t : THD) : option THD :=
  t ← set_start_time hrtime t; Some (set_utimes t now).

(** [set_time(my_hrtime_t)]. *)
Definition set_time_user (user hrtime now : Z) (t : THD) : option THD := set_time hrtime now (set_user t user).

Definition force_set_time (sec sec_part : Z) (t : THD) : THD :=
  set_start (set_sys t (sys_start t) sec sec_part) sec sec_part.

(** [set_time(my_time_t, ulong)], used by replication. *)
Definition set_time_repl (opt_secure_timestamp : Z) (slave_thread : bool) (sec sec_part hrtime now : Z)
    (t : THD) : option THD :=
  if (if slave_thread then SECTIME_REPL else SECTIME_SUPER) <? opt_secure_timestamp then set_time hrtime now t
  else
    let t :=
      if sec_part <=? Temporal.TIME_MAX_SECOND_PART then force_set_time sec sec_part t
      else if negb (sec =? sys_sec t) then force_set_time sec 0 t
      else
        let t := set_sys t (sys_start t) (sys_sec t) (u32 (sys_sec_part t + 1)) in
        set_start t sec (sys_sec_part t) in
    let t := set_user t (u64 (hrtime_from_time (start_time t) + start_time_sec_part t)) in
    Some (set_utimes t now).

Definition set_time_after_lock (now : Z) (t : THD) : THD :=
  mk_thd (sys_start t) (sys_sec t) (sys_sec_part t) (start_time t) (start_time_sec_part t)
    (user_time t) (start_utime t) now.

(** ** Properties *)

(** The times as numbers of microseconds. *)
Definition sys_micros (t : THD) : Z := sys_sec t * 1000000 + sys_sec_part t.
Definition start_micros (t : THD) : Z := start_time t * 1000000 + start_time_sec_part t.

(** A system time that is a time of day of the epoch, before 2038. *)
Definition clock_ok (t : THD) : Prop :=
  0 <= sys_sec t < 2 ^ 31 /\ 0 <= sys_sec_part t <= Temporal.TIME_MAX_SECOND_PART.

Definition MAX_MICROS : Z := 2 ^ 31 * 1000000.

Lemma hrtime_parts h :
  0 <= h < MAX_MICROS ->
  hrtime_to_my_time h = h / 1000000 /\ hrtime_sec_part h = h mod 1000000 /\
  0 <= h / 1000000 < 2 ^ 31 /\ 0 <= h mod 1000000 <= Temporal.TIME_MAX_SECOND_PART.
Proof.
  intros Hh. unfold MAX_MICROS in Hh. unfold hrtime_to_my_time, hrtime_to_time, hrtime_sec_part, HRTIME_RESOLUTION.
  change Temporal.TIME_MAX_SECOND_PART with 999999.
  assert (0 <= h / 1000000 < 2 ^ 31) by (split; dlia).
  assert (0 <= h mod 1000000 <= 999999) by dlia.
  rewrite sgn_small by (try done; unfold srange; lia). rewrite u32_small by lia. done.
Qed.

(** The next system time in terms of microseconds. *)
Lemma set_system_time_spec h t :
  clock_ok t -> 0 <= h < MAX_MICROS -> sys_micros t + 1 < MAX_MICROS ->
  exists t', set_system_time h t = Some t' /\ clock_ok t' /\
    sys_micros t' = (if (sys_micros t <? h) || (h <? sys_start t) then h else sys_micros t + 1) /\
    sys_start t' = (if (sys_micros t <? h) || (h <? sys_start t) then h else sys_start t) /\
    user_time t' = user_time t.
Proof.
  intros (Hs&Hp) Hh Hm. destruct (hrtime_parts h Hh) as (E1&E2&H1&H2).
  unfold set_system_time, sys_micros, clock_ok, MAX_MICROS in *. rewrite E1, E2.
  change Temporal.TIME_MAX_SECOND_PART with 999999 in *.
  assert ((sys_sec t <? h / 1000000) || ((h / 1000000 =? sys_sec t) && (sys_sec_part t <? h mod 1000000)) =
          (sys_sec t * 1000000 + sys_sec_part t <? h)) as ->.
  { zcases; cbn; try done; dlia. }
  destruct (_ || _).
  - eexists. split; [done|]. cbn. split; [lia|]. split; [dlia|done].
  - destruct (Z.ltb_spec (sys_sec_part t) 999999).
    + eexists. split; [done|]. cbn. rewrite u32_small by lia. split; [lia|]. split; [lia|done].
    + unfold incr_time. rewrite (proj2 (Z.ltb_lt _ _)) by lia. cbn. eexists. split; [done|]. cbn.
      split; [lia|]. split; [lia|done].
Qed.

Lemma set_time_spec h now t :
  clock_ok t -> user_time t = 0 -> 0 <= h < MAX_MICROS -> sys_micros t + 1 < MAX_MICROS ->
  exists t', set_time h now t = Some t' /\ clock_ok t' /\ user_time t' = 0 /\
    start_micros t' = sys_micros t' /\
    sys_micros t' = (if (sys_micros t <? h) || (h <? sys_start t) then h else sys_micros t + 1) /\
    sys_start t' = (if (sys_micros t <? h) || (h <? sys_start t) then h else sys_start t).
Proof.
  intros Hc Hu Hh Hm. destruct (set_system_time_spec h t Hc Hh Hm) as (t'&E&H1&H2&H3&H4).
  unfold set_time, set_start_time. rewrite Hu, E. cbn. eexists. split; [done|].
  split; [done|]. split; [cbn; congruence|]. done.
Qed.

(** The start times of statements at the given readings of the two clocks. *)
Fixpoint statements (readings : list (Z * Z)) (t : THD) : option (list Z) :=
  match readings with
  | [] => Some []
  | (h, now) :: rest =>
      t ← set_time h now t; ts ← statements rest t; Some (start_micros t :: ts)
  end.

(** C33: in a session whose time was not set by SET TIMESTAMP or by a replicated
    event ([user_time] is 0), while the system clock is not set back, the
    statements get strictly increasing start times, none earlier than the
    clock's reading, even when the clock stands still or is coarser than a
    microsecond (up to 2038, where my_time_t ends). *)
Theorem start_times_increase t readings :
  clock_ok t -> user_time t = 0 ->
  StronglySorted Z.le (sys_start t :: readings.*1) ->
  Forall (fun h => 0 <= h /\ h + Z.of_nat (length readings) < MAX_MICROS) readings.*1 ->
  sys_micros t + Z.of_nat (length readings) < MAX_MICROS ->
  exists ts, statements readings t = Some ts /\
    StronglySorted Z.lt (sys_micros t :: ts) /\ Forall2 Z.le readings.*1 ts.
Proof.
  revert t. induction readings as [|[h now] rest IH]; intros t Hc Hu Hs Hh Hm; cbn in *.
  - exists []. split; [done|]. split; [repeat constructor|constructor].
  - inversion Hs as [|? ? Hs1 Hs2]; subst. inversion Hs2 as [|? ? Hsh Hsr]; subst.
    inversion Hs1 as [|? ? Hs3 Hs4]; subst. inversion Hh as [|? ? [Hh0 Hh1] Hhr]; subst.
    destruct (set_time_spec h now t Hc Hu ltac:(lia) ltac:(lia)) as (t'&E&Hc'&Hu'&Est&Em&Es).
    rewrite (proj2 (Z.ltb_ge h (sys_start t))), orb_false_r in Em, Es by done.
    assert (sys_micros t < sys_micros t' /\ h <= sys_micros t' /\ sys_start t' <= h) as (L1&L2&L3)
      by (destruct (Z.ltb_spec (sys_micros t) h); lia).
    destruct (IH t') as (ts&Ets&Hsort&Hle); [done|done| | |destruct (Z.ltb_spec (sys_micros t) h); lia|].
    + constructor; [done|]. eapply Forall_impl; [exact Hs4|]. intros; lia.
    + eapply Forall_impl; [exact Hhr|]. cbn. intros; lia.
    + rewrite E. cbn. rewrite Ets. cbn. eexists. split; [done|]. rewrite Est. split.
      * constructor; [done|]. constructor; [done|]. inversion Hsort as [|? ? _ Hall]; subst.
        eapply Forall_impl; [exact Hall|]. intros; lia.
      * by constructor.
Qed.

Definition session0 : THD := mk_thd 0 0 0 0 0 0 0 0.

Lemma start_times_increase_witness :
  exists ts, statements [(5, 1); (5, 2); (6, 3); (2000000, 4)] session0 = Some ts /\
    StronglySorted Z.lt ts.
Proof.
  destruct (start_times_increase session0 [(5, 1); (5, 2); (6, 3); (2000000, 4)]) as (ts&E&H&_).
  - unfold clock_ok. cbn. change Temporal.TIME_MAX_SECOND_PART with 999999. lia.
  - reflexivity.
  - repeat constructor; cbn; lia.
  - unfold MAX_MICROS. repeat constructor; cbn; lia.
  - vm_compute. reflexivity.
  - exists ts. split; [exact E|]. by inversion H.
Defined.

(** A clock that is set back below its last reading is followed. *)
Lemma clock_set_back h now t :
  clock_ok t -> user_time t = 0 -> 0 <= h < MAX_MICROS -> sys_micros t + 1 < MAX_MICROS ->
  h < sys_start t -> exists t', set_time h now t = Some t' /\ start_micros t' = h.
Proof.
  intros Hc Hu Hh Hm Hb. destruct (set_time_spec h now t Hc Hu Hh Hm) as (t'&E&_&_&Est&Em&_).
  exists t'. split; [done|]. rewrite Est, Em, (proj2 (Z.ltb_lt h _)), orb_true_r by done. done.
Qed.

Lemma user_time_parts sec part :
  0 <= sec < 2 ^ 31 -> 0 <= part <= Temporal.TIME_MAX_SECOND_PART ->
  u64 (hrtime_from_time sec + part) = sec * 1000000 + part /\
  hrtime_to_my_time (sec * 1000000 + part) = sec /\ hrtime_sec_part (sec * 1000000 + part) = part.
Proof.
  change Temporal.TIME_MAX_SECOND_PART with 999999. intros Hs Hp.
  unfold hrtime_from_time, HRTIME_RESOLUTION. rewrite (u64_small sec), (u64_small (sec * 1000000)), u64_small by lia. split; [done|].
  destruct (hrtime_parts (sec * 1000000 + part)) as (->&->&_&_); [unfold MAX_MICROS; lia|].
  split; dlia.
Qed.

(** a time taken from the replication stream stays the session's time: when
    timestamps of that origin are trusted, the statement starts at the given
    second and microsecond, and every later set_time of the session, whatever
    its clock says, gives that same time back. *)
Theorem replicated_time_sticks sectime (slave : bool) sec part h now t :
  sectime <= (if slave then SECTIME_REPL else SECTIME_SUPER) ->
  0 <= sec < 2 ^ 31 -> 0 <= part <= Temporal.TIME_MAX_SECOND_PART -> 0 < sec + part ->
  exists t', set_time_repl sectime slave sec part h now t = Some t' /\
    start_time t' = sec /\ start_time_sec_part t' = part /\
    forall h' now', exists t'', set_time h' now' t' = Some t'' /\
      start_time t'' = sec /\ start_time_sec_part t'' = part.
Proof.
  intros Hst Hs Hp Hpos. destruct (user_time_parts sec part Hs Hp) as (E1&E2&E3).
  unfold set_time_repl. rewrite (proj2 (Z.ltb_ge _ _)), (proj2 (Z.leb_le part _)) by lia. cbn.
  eexists. split; [done|]. split; [done|]. split; [done|]. intros h' now'.
  unfold set_time, set_start_time. cbn. rewrite E1.
  destruct (truth _) eqn:Et; [|apply truth_false in Et; lia]. cbn. eexists. split; [done|]. cbn. done.
Qed.

Lemma replicated_time_sticks_witness :
  exists t', set_time_repl SECTIME_NO true 1700000000 42 5 6 session0 = Some t' /\ start_time_sec_part t' = 42.
Proof.
  destruct (replicated_time_sticks SECTIME_NO true 1700000000 42 5 6 session0) as (t'&E&_&H&_).
  - vm_compute. discriminate.
  - lia.
  - change Temporal.TIME_MAX_SECOND_PART with 999999. lia.
  - lia.
  - exists t'. split; [exact E|exact H].
Defined.

(** an event of the same second without microseconds advances the fraction
    of the session's system time without a carry: after a statement at the last
    microsecond of a second, the next one starts at fraction 1000000, beyond
    TIME_MAX_SECOND_PART; set_system_time carries into the seconds there. *)
Theorem replicated_fraction_without_carry :
  exists t1 t2,
    set_time_repl SECTIME_NO true 100 Temporal.TIME_MAX_SECOND_PART 0 0 session0 = Some t1 /\
    set_time_repl SECTIME_NO true 100 (Temporal.TIME_MAX_SECOND_PART + 1) 0 0 t1 = Some t2 /\
    start_time t2 = 100 /\ start_time_sec_part t2 = Temporal.TIME_MAX_SECOND_PART + 1 /\
    exists t3, set_system_time 0 t1 = Some t3 /\ sys_sec t3 = 101 /\ sys_sec_part t3 = 0.
Proof. eexists _, _. do 4 (split; [vm_compute; reflexivity|]). eexists. do 2 (split; [vm_compute; reflexivity|]). vm_compute. reflexivity. Qed.
End SessionClock.
