(* ===== verification/Bitmap.v ===== *)
(** * Fixed-width bitmaps of include/mysql/server/private/sql_bitmap.h

    [Table_map_iterator] walks the set bits of a 64-bit word; [Bitmap<width>]
    is an array of 64-bit words.  The specification of a bitmap is the set of
    bit numbers it contains, read with [member]. *)

From Stdlib Require Import ZArith Lia Btauto.
From stdpp Require Import prelude list_numbers.
From S2P Require Import Prelude Bits.
Local Open Scope Z_scope.
Local Open Scope cint_scope.

Module Bitmap.
Import MyBit.

(** ** [Table_map_iterator] *)

Definition TABLE_MAP_END : Z := 64.

Definition next_bit (bmp : Z) : option (Z * Z) :=
  if bmp =? 0 then Some (TABLE_MAP_END, bmp)
  else bit ← my_find_first_bit bmp;
       Some (bit, Z.land bmp (u64 (Z.lnot (u64 (Z.shiftl 1 bit))))).

(** ** [Bitmap<width>] *)

Definition BITS_PER_ELEMENT : Z := 64.
Definition ALL_BITS_SET : Z := 0xFFFFFFFFFFFFFFFF.

Notation get := (aget 0).

Section bitmap.
Context (width : Z).

Definition ARRAY_ELEMENTS : Z := u32 (u32 (width + BITS_PER_ELEMENT) - 1) / BITS_PER_ELEMENT.

(** The assertions of the three helpers are part of them ([None] when one
    fails), so an operation whose helper asserts fails as well. *)
Definition bit_index (n : Z) : option Z :=
  if n <? width then Some (if ARRAY_ELEMENTS =? 1 then 0 else n / BITS_PER_ELEMENT) else None.

Definition bit_mask (n : Z) : option Z :=
  if n <? width
  then Some (if ARRAY_ELEMENTS =? 1 then u64 (Z.shiftl 1 n)
             else u64 (Z.shiftl 1 (n mod BITS_PER_ELEMENT)))
  else None.

Definition last_element_mask (n : Z) : option Z :=
  if n mod BITS_PER_ELEMENT =? 0 then None
  else mask ← bit_mask n; Some (u64 (mask - 1)).

Definition set_bit (buffer : list Z) (n : Z) : option (list Z) :=
  i ← bit_index n; mask ← bit_mask n;
  Some (aput buffer i (Z.lor (get buffer i) mask)).

Definition clear_bit (buffer : list Z) (n : Z) : option (list Z) :=
  i ← bit_index n; mask ← bit_mask n;
  Some (aput buffer i (Z.land (get buffer i) (u64 (Z.lnot mask)))).

Definition is_set (buffer : list Z) (n : Z) : option bool :=
  i ← bit_index n; mask ← bit_mask n;
  Some (truth (Z.land (get buffer i) mask)).

Definition set_prefix (buffer : list Z) (prefix_size : Z) : option (list Z) :=
  let prefix_size := if width <? prefix_size then width else prefix_size in
  let idx := prefix_size / BITS_PER_ELEMENT in
  let buffer := for_ 0 idx (fun i b => aput b i ALL_BITS_SET) buffer in
  '(buffer, idx) ←
    (if truth (prefix_size mod BITS_PER_ELEMENT)
     then mask ← last_element_mask prefix_size; Some (aput buffer idx mask, idx + 1)
     else Some (buffer, idx));
  Some (for_ idx ARRAY_ELEMENTS (fun i b => aput b i 0) buffer).

Definition is_prefix (buffer : list Z) (prefix_size : Z) : option bool :=
  if width <? prefix_size then None
  else
  let idx := prefix_size / BITS_PER_ELEMENT in
  if negb (all_ 0 idx (fun i => get buffer i =? ALL_BITS_SET)) then Some false
  else if truth (prefix_size mod BITS_PER_ELEMENT)
  then mask ← last_element_mask prefix_size;
       if negb (get buffer idx =? mask) then Some false
       else Some (all_ (idx + 1) ARRAY_ELEMENTS (fun i => get buffer i =? 0))
  else Some (all_ idx ARRAY_ELEMENTS (fun i => get buffer i =? 0)).

Definition set_all (buffer : list Z) : option (list Z) :=
  if truth (width mod BITS_PER_ELEMENT) then set_prefix buffer width
  else if 1 <? ARRAY_ELEMENTS then Some (map (fun _ => ALL_BITS_SET) buffer)
  else Some (aput buffer 0 ALL_BITS_SET).

Definition clear_all (buffer : list Z) : list Z :=
  if 1 <? ARRAY_ELEMENTS then map (fun _ => 0) buffer else aput buffer 0 0.

Definition intersect (buffer map2 : list Z) : list Z :=
  for_ 0 ARRAY_ELEMENTS (fun i b => aput b i (Z.land (get b i) (get map2 i))) buffer.

Definition intersect_and_pad (buffer : list Z) (map2buff : Z) (pad_with_ones : bool) :
    option (list Z) :=
  let buffer := aput buffer 0 (Z.land (get buffer 0) map2buff) in
  let buffer := for_ 1 ARRAY_ELEMENTS
    (fun i b => aput b i (if pad_with_ones then ALL_BITS_SET else 0)) buffer in
  if (1 <? ARRAY_ELEMENTS) && truth (width mod BITS_PER_ELEMENT) && pad_with_ones
  then mask ← last_element_mask width; Some (aput buffer (ARRAY_ELEMENTS - 1) mask)
  else Some buffer.

Definition intersect_ulonglong (buffer : list Z) (map2buff : Z) : option (list Z) :=
  intersect_and_pad buffer map2buff false.

Definition intersect_extended (buffer : list Z) (map2buff : Z) : option (list Z) :=
  intersect_and_pad buffer map2buff (truth (Z.land map2buff (u64 (Z.shiftl 1 63)))).

Definition subtract (buffer map2 : list Z) : list Z :=
  for_ 0 ARRAY_ELEMENTS (fun i b => aput b i (Z.land (get b i) (u64 (Z.lnot (get map2 i))))) buffer.

Definition merge (buffer map2 : list Z) : list Z :=
  for_ 0 ARRAY_ELEMENTS (fun i b => aput b i (Z.lor (get b i) (get map2 i))) buffer.

Definition is_clear_all (buffer : list Z) : bool :=
  all_ 0 ARRAY_ELEMENTS (fun i => negb (truth (get buffer i))).

Definition is_subset (buffer map2 : list Z) : bool :=
  all_ 0 ARRAY_ELEMENTS (fun i => negb (truth (Z.land (get buffer i) (u64 (Z.lnot (get map2 i)))))).

Definition is_overlapping (buffer map2 : list Z) : bool :=
  negb (all_ 0 ARRAY_ELEMENTS (fun i => negb (truth (Z.land (get buffer i) (get map2 i))))).

Definition eqb (buffer map2 : list Z) : bool :=
  if 1 <? ARRAY_ELEMENTS then bool_decide (buffer = map2) else get buffer 0 =? get map2 0.

Definition to_ulonglong (buffer : list Z) : Z := get buffer 0.

Definition bits_set (buffer : list Z) : Z :=
  for_ 0 ARRAY_ELEMENTS (fun i res => u32 (res + my_count_bits (get buffer i))) 0.

(** [Bitmap::Iterator]: the offset of the current word and the bits of it that
    remain.  [operator++] leaves the loop after at most one round per word. *)
Record Iterator := mk_it { offset : Z; tmi : Z }.

Definition it_begin (map2 : list Z) : Iterator := mk_it 0 (get map2 0).

Fixpoint it_loop (fuel : nat) (m : list Z) (it : Iterator) : option (Z * Iterator) :=
  match fuel with
  | O => None
  | S fuel =>
      '(nextbit, bmp) ← next_bit (tmi it);
      if negb (nextbit =? TABLE_MAP_END) then Some (u32 (offset it + nextbit), mk_it (offset it) bmp)
      else if width <=? u32 (offset it + BITS_PER_ELEMENT) then Some (width, mk_it (offset it) bmp)
      else
        let off := u32 (offset it + BITS_PER_ELEMENT) in
        it_loop fuel m (mk_it off (get m (off / BITS_PER_ELEMENT)))
  end.

Definition it_next (m : list Z) (it : Iterator) : option (Z * Iterator) :=
  it_loop (Z.to_nat ARRAY_ELEMENTS) m it.

(** [print]: a shift by the width of the operand or more is undefined
    ([None]); [longlong2str] writes the digits of a number and a terminator at
    the start of the buffer and is an argument. *)
Fixpoint print_last (n : nat) (buffer : list Z) : Z :=
  match n with
  | O => 0
  | S n => if truth (get buffer (Z.of_nat (S n))) then Z.of_nat (S n) else print_last n buffer
  end.

Fixpoint print_digits (k : nat) (num shift pos : Z) (dig : Z -> Z) (buf : list Z) : option (list Z) :=
  match k with
  | O => Some buf
  | S k =>
      if shift <? 64
      then print_digits k num (u32 (shift + 4)) (pos + 1) dig
             (aput buf pos (dig (Z.land (Z.shiftr num shift) 0xF)))
      else None
  end.

Fixpoint print_words (n : nat) (i : Z) (buffer : list Z) (dig : Z -> Z) (buf : list Z) : option (list Z) :=
  match n with
  | O => Some buf
  | S n =>
      buf ← print_digits 16 (get buffer i) (BITS_PER_ELEMENT - 4) (i * 16) dig buf;
      print_words n (i + 1) buffer dig buf
  end.

Definition print (dig : Z -> Z) (longlong2str : Z -> list Z -> list Z)
    (buffer buf : list Z) : option (list Z) :=
  let last := print_last (Z.to_nat (ARRAY_ELEMENTS - 1)) buffer in
  buf ← print_words (Z.to_nat last) 0 buffer dig buf;
  Some (longlong2str (get buffer last) buf).

End bitmap.

(** ** Specification: the set of bit numbers *)

Definition member (m : list Z) (n : Z) : bool := Z.testbit (get m (n / 64)) (n mod 64).

Section proofs.
Context (width : Z) (Hwidth : 0 < width < 2 ^ 31).
Local Notation AE := (ARRAY_ELEMENTS width).

(** An array of the right length with words in range; a well-formed bitmap has
    no bit at [width] or above as well. *)
Definition words (m : list Z) : Prop :=
  Z.of_nat (length m) = AE /\ forall i, 0 <= i < AE -> urange 64 (get m i).

Definition wf (m : list Z) : Prop :=
  words m /\ forall n, width <= n -> member m n = false.

Lemma elements_bounds : 64 * (AE - 1) < width <= 64 * AE.
Proof.
  unfold ARRAY_ELEMENTS, BITS_PER_ELEMENT, wrap. simpl Z.pow in *.
  rewrite Z.mod_small by (rewrite Z.mod_small; lia). rewrite Z.mod_small by lia. dlia.
Qed.

Local Ltac ae := pose proof elements_bounds; unfold BITS_PER_ELEMENT in *.

Lemma get_range m i : words m -> 0 <= i -> urange 64 (get m i).
Proof.
  intros [Hl Hr] Hi. destruct (Z.lt_ge_cases i AE); [by apply Hr|].
  rewrite aget_beyond by lia. split; simpl Z.pow; lia.
Qed.

Lemma bit_index_ok n : 0 <= n < width -> bit_index width n = Some (n / 64).
Proof. intros Hn. unfold bit_index. ae. zcases; try lia; f_equal; dlia. Qed.

Lemma bit_mask_ok n : 0 <= n < width -> bit_mask width n = Some (2 ^ (n mod 64)).
Proof.
  intros Hn. unfold bit_mask. ae. assert (0 <= n mod 64 < 64) as Hm by dlia.
  assert (wrap 64 (Z.shiftl 1 (n mod 64)) = 2 ^ (n mod 64)) as E.
  { rewrite Z.shiftl_1_l. apply wrap_small. split; [lia|]. apply Z.pow_lt_mono_r; lia. }
  zcases; try lia; f_equal; [|done]. by replace n with (n mod 64) at 1 by dlia.
Qed.

(** The two assertions of [last_element_mask]. *)
Lemma last_element_mask_ok n :
  0 <= n -> n mod 64 <> 0 ->
  last_element_mask width n = if n <? width then Some (Z.ones (n mod 64)) else None.
Proof.
  intros Hn H0. unfold last_element_mask, BITS_PER_ELEMENT. zcases; try done.
  - rewrite bit_mask_ok by lia. cbn [mbind option_bind]. f_equal.
    assert (0 <= n mod 64 < 64) by dlia. rewrite Z.ones_equiv. apply wrap_small.
    pose proof (Z.pow_lt_mono_r 2 (n mod 64) 64). split; lia.
  - unfold bit_mask. zcases; done || lia.
Qed.

Lemma bit_fails n : width <= n -> bit_index width n = None.
Proof. intros. unfold bit_index. zcases; done || lia. Qed.

Lemma all_bits_testbit i : 0 <= i < 64 -> Z.testbit ALL_BITS_SET i = true.
Proof. intros. change ALL_BITS_SET with (Z.ones 64). apply Z.ones_spec_low. lia. Qed.

(** The word of index [i] of the prefix of length [p]. *)
Definition prefix_word (p i : Z) : Z := Z.ones (Z.max 0 (Z.min 64 (p - 64 * i))).

Lemma prefix_word_full p i : 64 * (i + 1) <= p -> prefix_word p i = ALL_BITS_SET.
Proof. intros. unfold prefix_word. by replace (Z.max _ _) with 64 by lia. Qed.

Lemma prefix_word_empty p i : p <= 64 * i -> prefix_word p i = 0.
Proof. intros. unfold prefix_word. by replace (Z.max _ _) with 0 by lia. Qed.

Lemma prefix_word_part p : p mod 64 <> 0 -> prefix_word p (p / 64) = Z.ones (p mod 64).
Proof. intros. unfold prefix_word. f_equal. dlia. Qed.

Lemma prefix_word_range p i : urange 64 (prefix_word p i).
Proof.
  unfold prefix_word. rewrite Z.ones_equiv.
  pose proof (Z.pow_le_mono_r 2 (Z.max 0 (Z.min 64 (p - 64 * i))) 64 ltac:(lia) ltac:(lia)).
  split; lia.
Qed.

Lemma prefix_word_member p n :
  0 <= n -> Z.testbit (prefix_word p (n / 64)) (n mod 64) = (n <? p).
Proof.
  intros Hn. unfold prefix_word. rewrite testbit_ones by lia. zcases; simpl; try done; dlia.
Qed.

(** A loop that stores a constant in a range. *)
Lemma for_fill lo hi v m :
  0 <= lo -> hi <= Z.of_nat (length m) ->
  let m' := for_ lo hi (fun i b => aput b i v) m in
  length m' = length m /\
  forall j, 0 <= j -> get m' j = if (lo <=? j) && (j <? hi) then v else get m j.
Proof. apply (for_update 0 lo hi (fun _ _ => v)). Qed.

(** [set_prefix] asks for the mask of a partial last word, and the assertion
    there fails, when the prefix is the whole of a width that is no multiple of
    64. *)
Definition masks_width (p : Z) : bool := (width <=? p) && truth (width mod 64).

Lemma set_prefix_get m p :
  Z.of_nat (length m) = AE -> 0 <= p ->
  if masks_width p then set_prefix width m p = None
  else exists m', set_prefix width m p = Some m' /\ length m' = length m /\
    forall i, 0 <= i < AE -> get m' i = prefix_word (Z.min p width) i.
Proof.
  intros Hl Hp. unfold set_prefix, masks_width. ae.
  replace (if width <? p then width else p) with (Z.min p width) by (zcases; lia).
  set (q := Z.min p width). assert (0 <= q <= width) by lia.
  destruct (for_fill 0 (q / 64) ALL_BITS_SET m) as [L1 G1]; [lia|dlia|].
  set (m1 := for_ 0 _ _ m) in *. destruct (truth (q mod 64)) eqn:E.
  - apply truth_true in E. rewrite last_element_mask_ok by lia.
    destruct (Z.leb_spec width p).
    { replace q with width in * by lia. apply truth_true in E. rewrite E, Z.ltb_irrefl. done. }
    simpl. destruct (Z.ltb_spec q width); [|lia]. cbn [mbind option_bind].
    destruct (for_fill (q / 64 + 1) AE 0 (aput m1 (q / 64) (Z.ones (q mod 64))))
      as [L2 G2]; [dlia|rewrite aput_length; lia|].
    rewrite aput_length in L2. eexists; split; [done|]. split; [lia|]. intros i Hi. rewrite G2 by lia.
    rewrite aget_aput by dlia. rewrite G1 by dlia.
    zcases; simpl; rewrite ?prefix_word_full, ?prefix_word_empty by dlia; try done; try dlia.
    subst i. symmetry. by apply prefix_word_part.
  - replace ((width <=? p) && truth (width mod 64)) with false.
    2: { destruct (Z.leb_spec width p); [|done]. by replace q with width in E by lia. }
    apply truth_false in E.
    destruct (for_fill (q / 64) AE 0 m1) as [L2 G2]; [dlia|lia|].
    eexists; split; [done|]. split; [lia|]. intros i Hi. rewrite G2, G1 by lia.
    zcases; simpl; rewrite ?prefix_word_full, ?prefix_word_empty by dlia; done || dlia.
Qed.

(** [denotes m s]: the well-formed bitmap [m] contains exactly the numbers of [s]. *)
Definition denotes (m : list Z) (s : Z -> bool) : Prop :=
  wf m /\ forall n, 0 <= n -> member m n = s n.

Lemma denotes_intro m s :
  words m -> (forall n, 0 <= n < 64 * AE -> member m n = s n) ->
  (forall n, width <= n -> s n = false) -> denotes m s.
Proof.
  intros Hw Hm Hs. ae.
  assert (forall n, 0 <= n -> member m n = s n) as H'.
  { intros n Hn. destruct (Z.lt_ge_cases n (64 * AE)); [apply Hm; lia|].
    rewrite Hs by lia. unfold member. destruct Hw as [Hl _].
    rewrite aget_beyond by dlia. apply Z.testbit_0_l. }
  split; [|done]. split; [done|]. intros n Hn. rewrite H' by lia. by apply Hs.
Qed.

Lemma wf_denotes m : wf m -> denotes m (member m).
Proof. by split. Qed.

(** An operation that computes each word from the old one. *)
Lemma denotes_words m' (g : Z -> Z) s :
  Z.of_nat (length m') = AE -> (forall i, 0 <= i < AE -> get m' i = g i) ->
  (forall i, 0 <= i < AE -> urange 64 (g i)) ->
  (forall n, 0 <= n < 64 * AE -> Z.testbit (g (n / 64)) (n mod 64) = s n) ->
  (forall n, width <= n -> s n = false) -> denotes m' s.
Proof.
  intros Hl Hg Hr Hs Ht. apply denotes_intro; [|intros n Hn|done].
  - split; [done|]. intros i Hi. rewrite Hg by done. by apply Hr.
  - unfold member. rewrite Hg by dlia. by apply Hs.
Qed.

Lemma denotes_loop m (f : Z -> Z -> Z) s :
  words m ->
  (forall i, 0 <= i < AE -> urange 64 (f i (get m i))) ->
  (forall n, 0 <= n < 64 * AE -> Z.testbit (f (n / 64) (get m (n / 64))) (n mod 64) = s n) ->
  (forall n, width <= n -> s n = false) ->
  denotes (for_ 0 AE (fun i b => aput b i (f i (get b i))) m) s.
Proof.
  intros [Hl Hr] Hf Hs Ht. destruct (for_update 0 0 AE f m) as [L G]; [lia|lia|].
  apply (denotes_words _ (fun i => f i (get m i))); [lia| |done|done|done].
  intros i Hi. rewrite G by lia. zcases; simpl; done || lia.
Qed.

(** The outcome of an operation: a failed assertion or a bitmap that denotes
    the set [s]. *)
Definition outcome (r : option (list Z)) (refused : bool) (s : Z -> bool) : Prop :=
  if refused then r = None else exists m', r = Some m' /\ denotes m' s.

Lemma set_prefix_denotes m p :
  Z.of_nat (length m) = AE -> 0 <= p ->
  outcome (set_prefix width m p) (masks_width p) (fun n => n <? Z.min p width).
Proof.
  intros Hl Hp. pose proof (set_prefix_get m p Hl Hp) as H. unfold outcome.
  destruct (masks_width p); [done|]. destruct H as (m' & E & L & G). exists m'. split; [done|].
  apply (denotes_words _ (prefix_word (Z.min p width))); [lia|done| | |].
  - intros. apply prefix_word_range.
  - intros n Hn. apply prefix_word_member. lia.
  - intros n Hn. zcases; lia.
Qed.

Lemma set_bit_denotes m s n :
  denotes m s -> 0 <= n -> outcome (set_bit width m n) (width <=? n) (fun k => (k =? n) || s k).
Proof.
  intros [[[Hl Hr] Ht] Hm] Hn0. ae. unfold set_bit, outcome.
  destruct (Z.leb_spec width n) as [|Hn1]; [by rewrite bit_fails|].
  assert (0 <= n < width) as Hn by lia. rewrite bit_index_ok, bit_mask_ok by lia.
  eexists; split; [done|].
  apply (denotes_words _ (fun i => if n / 64 =? i then Z.lor (get m (n / 64)) (2 ^ (n mod 64)) else get m i)).
  - rewrite aput_length. lia.
  - intros i Hi. apply aget_aput; dlia.
  - intros i Hi. zcases; [|by apply Hr]. apply urange_lor; [lia|apply Hr; dlia|].
    split; [lia|]. apply Z.pow_lt_mono_r; dlia.
  - intros k Hk. rewrite <- Hm by lia. unfold member. destruct (Z.eqb_spec (n / 64) (k / 64)) as [E|].
    + rewrite E. autorewrite with bits. rewrite pow2_testbit by dlia.
      destruct (Z.eqb_spec (k mod 64) (n mod 64)), (Z.eqb_spec k n); try dlia; btauto.
    + destruct (Z.eqb_spec k n); [dlia|done].
  - intros k Hk. rewrite <- Hm, Ht by lia. zcases; lia || done.
Qed.

Lemma clear_bit_denotes m s n :
  denotes m s -> 0 <= n ->
  outcome (clear_bit width m n) (width <=? n) (fun k => negb (k =? n) && s k).
Proof.
  intros [[[Hl Hr] Ht] Hm] Hn0. ae. unfold clear_bit, outcome.
  destruct (Z.leb_spec width n) as [|Hn1]; [by rewrite bit_fails|].
  assert (0 <= n < width) as Hn by lia. rewrite bit_index_ok, bit_mask_ok by lia.
  eexists; split; [done|].
  apply (denotes_words _ (fun i => if n / 64 =? i
    then Z.land (get m (n / 64)) (u64 (Z.lnot (2 ^ (n mod 64)))) else get m i)).
  - rewrite aput_length. lia.
  - intros i Hi. apply aget_aput; dlia.
  - intros i Hi. zcases; [|by apply Hr]. apply urange_land; [lia|apply Hr; dlia|].
    apply wrap_range. lia.
  - intros k Hk. rewrite <- Hm by lia. unfold member. destruct (Z.eqb_spec (n / 64) (k / 64)) as [E|].
    + rewrite E. assert (0 <= k mod 64 < 64) by dlia. autorewrite with bits.
      rewrite pow2_testbit by dlia.
      destruct (Z.ltb_spec (k mod 64) 64); [|lia].
      destruct (Z.eqb_spec (k mod 64) (n mod 64)), (Z.eqb_spec k n); try dlia; btauto.
    + destruct (Z.eqb_spec k n); [dlia|done].
  - intros k Hk. rewrite <- Hm, Ht by lia. apply andb_false_r.
Qed.

Lemma aput0_denotes m v s :
  Z.of_nat (length m) = AE -> AE = 1 -> urange 64 v ->
  (forall n, 0 <= n < 64 -> Z.testbit v n = s n) -> (forall n, width <= n -> s n = false) ->
  denotes (aput m 0 v) s.
Proof.
  intros Hl H1 Hv Hs Ht. apply (denotes_words _ (fun _ => v)); [by rewrite aput_length| |done| |done].
  - intros i Hi. rewrite aget_aput by lia. zcases; done || lia.
  - intros n Hn. rewrite <- Hs by lia. f_equal. dlia.
Qed.

Lemma map_const_denotes m v s :
  Z.of_nat (length m) = AE -> urange 64 v ->
  (forall n, 0 <= n < 64 * AE -> Z.testbit v (n mod 64) = s n) ->
  (forall n, width <= n -> s n = false) -> denotes (map (fun _ : Z => v) m) s.
Proof.
  intros Hl Hv Hs Ht. apply (denotes_words _ (fun _ => v)); [by rewrite length_map| |done|done|done].
  intros i Hi. unfold aget. rewrite (nth_indep _ 0 v) by (rewrite length_map; lia).
  apply (map_nth (fun _ => v) m 0).
Qed.

Lemma set_all_denotes m :
  Z.of_nat (length m) = AE ->
  outcome (set_all width m) (truth (width mod 64)) (fun n => n <? width).
Proof.
  intros Hl. ae. unfold set_all, BITS_PER_ELEMENT. destruct (truth (width mod 64)) eqn:E.
  - pose proof (set_prefix_get m width Hl ltac:(lia)) as H0.
    unfold masks_width in H0. by rewrite E, Z.leb_refl in H0.
  - apply truth_false in E.
    assert (urange 64 ALL_BITS_SET) by (split; vm_compute; congruence).
    destruct (Z.ltb_spec 1 AE); (eexists; split; [done|]).
    + apply map_const_denotes; [done|done| |intros n Hn; zcases; lia].
      intros n Hn. rewrite all_bits_testbit by dlia. zcases; [done|dlia].
    + apply aput0_denotes; [done|lia|done| |intros n Hn; zcases; lia].
      intros n Hn. rewrite all_bits_testbit by lia. zcases; [done|dlia].
Qed.

Lemma clear_all_denotes m :
  Z.of_nat (length m) = AE -> denotes (clear_all width m) (fun _ => false).
Proof.
  intros Hl. ae. unfold clear_all. assert (urange 64 0) by (split; simpl Z.pow; lia).
  destruct (Z.ltb_spec 1 AE).
  - apply map_const_denotes; try done. intros. apply Z.testbit_0_l.
  - apply aput0_denotes; try done; [lia|]. intros. apply Z.testbit_0_l.
Qed.

Lemma intersect_denotes m s m2 s2 :
  denotes m s -> denotes m2 s2 -> denotes (intersect width m m2) (fun n => s n && s2 n).
Proof.
  intros [[Hw Ht] Hm] [[Hw2 Ht2] Hm2]. ae.
  apply (denotes_loop m (fun i w => Z.land w (get m2 i))); [done| | |].
  - intros i Hi. apply urange_land; [lia|apply get_range; done||lia|]. by apply get_range; [|lia].
  - intros n Hn. rewrite Z.land_spec, <- Hm, <- Hm2 by lia. done.
  - intros n Hn. by rewrite <- Hm, Ht by lia.
Qed.

Lemma subtract_denotes m s m2 s2 :
  denotes m s -> denotes m2 s2 -> denotes (subtract width m m2) (fun n => s n && negb (s2 n)).
Proof.
  intros [[Hw Ht] Hm] [[Hw2 Ht2] Hm2]. ae.
  apply (denotes_loop m (fun i w => Z.land w (u64 (Z.lnot (get m2 i))))); [done| | |].
  - intros i Hi. apply urange_land; [lia|apply get_range; done||lia|]. apply wrap_range. lia.
  - intros n Hn. assert (0 <= n mod 64 < 64) by dlia.
    rewrite Z.land_spec, wrap_testbit, Z.lnot_spec, <- Hm, <- Hm2 by lia.
    unfold member. destruct (Z.ltb_spec (n mod 64) 64); [done|lia].
  - intros n Hn. by rewrite <- Hm, Ht by lia.
Qed.

Lemma merge_denotes m s m2 s2 :
  denotes m s -> denotes m2 s2 -> denotes (merge width m m2) (fun n => s n || s2 n).
Proof.
  intros [[Hw Ht] Hm] [[Hw2 Ht2] Hm2]. ae.
  apply (denotes_loop m (fun i w => Z.lor w (get m2 i))); [done| | |].
  - intros i Hi. apply urange_lor; [lia|apply get_range; done||lia|apply get_range; done||lia].
  - intros n Hn. rewrite Z.lor_spec, <- Hm, <- Hm2 by lia. done.
  - intros n Hn. by rewrite <- Hm, <- Hm2, Ht, Ht2 by lia.
Qed.

Lemma intersect_and_pad_denotes m s z (b : bool) :
  denotes m s -> urange 64 z ->
  outcome (intersect_and_pad width m z b) ((64 <? width) && truth (width mod 64) && b)
    (fun n => if n <? 64 then s n && Z.testbit z n else (n <? width) && b).
Proof.
  intros [[Hw Ht] Hm] Hz. ae. pose proof Hw as [Hl Hr]. unfold intersect_and_pad, BITS_PER_ELEMENT.
  destruct (for_fill 1 AE (if b then ALL_BITS_SET else 0) (aput m 0 (Z.land (get m 0) z)))
    as [L G]; [lia|rewrite aput_length; lia|]. rewrite aput_length in L.
  set (m1 := for_ 1 _ _ _) in *.
  replace (1 <? AE) with (64 <? width) by (zcases; done || lia).
  unfold outcome. destruct ((64 <? width) && truth (width mod 64) && b) eqn:El.
  { apply andb_prop in El as [[_ E]%andb_prop _]. apply truth_true in E.
    rewrite last_element_mask_ok by lia. by rewrite Z.ltb_irrefl. }
  eexists; split; [done|].
  apply (denotes_words _ (fun i => if i =? 0 then Z.land (get m 0) z
    else if b then prefix_word width i else 0)).
  - lia.
  - intros i Hi. rewrite G by lia. rewrite aget_aput by lia. zcases; simpl; try done; try lia.
    destruct b; [|done]. rewrite andb_true_r in El.
    destruct (Z.ltb_spec 64 width); [|lia]. apply truth_false in El.
    by rewrite prefix_word_full by dlia.
  - intros i Hi. zcases.
    + apply urange_land; [lia|apply Hr; lia|apply Hz].
    + destruct b; [apply prefix_word_range|split; simpl Z.pow; lia].
  - intros n Hn. destruct (Z.ltb_spec n 64).
    + replace (n / 64) with 0 by dlia. simpl. rewrite Z.land_spec, <- Hm by lia. unfold member.
      replace (n / 64) with 0 by dlia. by replace (n mod 64) with n by dlia.
    + destruct (Z.eqb_spec (n / 64) 0); [dlia|]. destruct b; rewrite ?andb_true_r, ?andb_false_r.
      * apply prefix_word_member. lia.
      * apply Z.testbit_0_l.
  - intros n Hn. destruct (Z.ltb_spec n 64); [by rewrite <- Hm, Ht by lia|]. zcases; lia || done.
Qed.

Lemma bit63 z : truth (Z.land z (u64 (Z.shiftl 1 63))) = Z.testbit z 63.
Proof.
  change (u64 (Z.shiftl 1 63)) with (2 ^ 63).
  destruct (Z.testbit z 63) eqn:E.
  - apply truth_true. intros H. apply (f_equal (fun x => Z.testbit x 63)) in H.
    rewrite Z.land_spec, E, Z.testbit_0_l in H. done.
  - apply truth_false. bits. destruct (Z.eqb_spec i 63) as [->|]; [by rewrite E|].
    apply andb_false_r.
Qed.

(** ** Queries *)

(** A word is zero when it has no bit. *)
Lemma word_zero z : urange 64 z -> z = 0 <-> forall i, 0 <= i < 64 -> Z.testbit z i = false.
Proof.
  intros Hz. split; [intros ->; intros; apply Z.testbit_0_l|].
  intros H. apply (bits_eq 64); [done|split; simpl Z.pow; lia|].
  intros i Hi. by rewrite H, Z.testbit_0_l.
Qed.

(** A test of all words is a test of all bit numbers. *)
Lemma all_words (f : Z -> Z) (s : Z -> bool) :
  (forall i, 0 <= i < AE -> urange 64 (f i)) ->
  (forall n, 0 <= n < 64 * AE -> Z.testbit (f (n / 64)) (n mod 64) = s n) ->
  all_ 0 AE (fun i => negb (truth (f i))) = true <-> forall n, 0 <= n < 64 * AE -> s n = false.
Proof.
  intros Hf Hs. rewrite all_spec. split; intros H.
  - intros n Hn. rewrite <- Hs by done. specialize (H (n / 64) ltac:(dlia)).
    apply negb_true_iff, truth_false in H. rewrite H. apply Z.testbit_0_l.
  - intros i Hi. apply negb_true_iff, truth_false, word_zero; [by apply Hf|].
    intros j Hj. rewrite <- (H (64 * i + j)) by lia. rewrite <- Hs by lia. f_equal; [f_equal|]; dlia.
Qed.

Lemma is_set_ok m s n : denotes m s -> 0 <= n < width -> is_set width m n = Some (s n).
Proof.
  intros [[Hw Ht] Hm] Hn. ae. unfold is_set. rewrite bit_index_ok, bit_mask_ok by lia.
  cbn [mbind option_bind]. f_equal.
  rewrite <- Hm by lia. unfold member. set (w := get m (n / 64)).
  assert (0 <= n mod 64 < 64) by dlia.
  destruct (Z.testbit w (n mod 64)) eqn:E.
  - apply truth_true. intros H'. apply (f_equal (fun x => Z.testbit x (n mod 64))) in H'.
    rewrite Z.land_spec, E, Z.testbit_0_l, Z.pow2_bits_true in H' by lia. done.
  - apply truth_false. bits. destruct (Z.eqb_spec i (n mod 64)) as [->|]; [by rewrite E|].
    apply andb_false_r.
Qed.

Lemma is_clear_all_ok m s :
  denotes m s -> is_clear_all width m = true <-> forall n, 0 <= n < width -> s n = false.
Proof.
  intros [[Hw Ht] Hm]. ae. unfold is_clear_all. rewrite (all_words _ s).
  - split; intros H' n Hn; [apply H'; lia|]. destruct (Z.lt_ge_cases n width); [apply H'; lia|].
    by rewrite <- Hm, Ht by lia.
  - apply Hw.
  - intros n Hn. apply Hm. lia.
Qed.

Lemma is_subset_ok m s m2 s2 :
  denotes m s -> denotes m2 s2 ->
  is_subset width m m2 = true <-> forall n, 0 <= n < width -> s n = true -> s2 n = true.
Proof.
  intros [[Hw Ht] Hm] [[Hw2 Ht2] Hm2]. ae. unfold is_subset.
  rewrite (all_words _ (fun n => s n && negb (s2 n))).
  - split; intros H' n Hn.
    + specialize (H' n ltac:(lia)). destruct (s n), (s2 n); done.
    + destruct (Z.lt_ge_cases n width).
      * specialize (H' n ltac:(lia)). destruct (s n), (s2 n); naive_solver.
      * by rewrite <- Hm, Ht by lia.
  - intros i Hi. apply urange_land; [lia|by apply get_range; [|lia]|apply wrap_range; lia].
  - intros n Hn. assert (0 <= n mod 64 < 64) by dlia.
    rewrite Z.land_spec, wrap_testbit, Z.lnot_spec, <- Hm, <- Hm2 by lia.
    unfold member. destruct (Z.ltb_spec (n mod 64) 64); [done|lia].
Qed.

Lemma is_overlapping_ok m s m2 s2 :
  denotes m s -> denotes m2 s2 ->
  is_overlapping width m m2 = false <-> forall n, 0 <= n < width -> s n && s2 n = false.
Proof.
  intros [[Hw Ht] Hm] [[Hw2 Ht2] Hm2]. ae. unfold is_overlapping.
  rewrite negb_false_iff, (all_words _ (fun n => s n && s2 n)).
  - split; intros H' n Hn; [apply H'; lia|]. destruct (Z.lt_ge_cases n width); [apply H'; lia|].
    by rewrite <- Hm, Ht by lia.
  - intros i Hi. apply urange_land; [lia|by apply get_range; [|lia]|].
    by apply get_range; [|lia].
  - intros n Hn. by rewrite Z.land_spec, <- Hm, <- Hm2 by lia.
Qed.

(** Bitmaps with the same members are the same arrays. *)
Lemma denotes_inj m s m2 s2 :
  denotes m s -> denotes m2 s2 -> m = m2 <-> forall n, 0 <= n < width -> s n = s2 n.
Proof.
  intros [[[Hl Hr] Ht] Hm] [[[Hl2 Hr2] Ht2] Hm2]. split.
  - intros <- n Hn. rewrite <- Hm, <- Hm2 by lia. done.
  - intros H. apply (aget_ext 0); [lia|]. intros i Hi. apply (bits_eq 64); [apply Hr; lia|apply Hr2; lia|].
    intros j Hj.
    assert (member m (64 * i + j) = member m2 (64 * i + j)) as E.
    { destruct (Z.lt_ge_cases (64 * i + j) width).
      - rewrite Hm, Hm2 by lia. apply H. lia.
      - by rewrite Ht, Ht2. }
    unfold member in E. replace ((64 * i + j) / 64) with i in E by dlia.
    by replace ((64 * i + j) mod 64) with j in E by dlia.
Qed.

Lemma eqb_ok m s m2 s2 :
  denotes m s -> denotes m2 s2 ->
  eqb width m m2 = true <-> forall n, 0 <= n < width -> s n = s2 n.
Proof.
  intros H1 H2. rewrite <- (denotes_inj m s m2 s2 H1 H2). ae. unfold eqb.
  destruct (Z.ltb_spec 1 AE); [apply bool_decide_eq_true|].
  destruct H1 as [[[Hl _] _] _], H2 as [[[Hl2 _] _] _]. rewrite Z.eqb_eq.
  split; [|by intros ->]. intros E. apply (aget_ext 0); [lia|]. intros i Hi.
  by replace i with 0 by lia.
Qed.

Lemma is_prefix_words m p :
  words m -> 0 <= p <= width -> masks_width p = false ->
  exists b, is_prefix width m p = Some b /\
    (b = true <-> forall i, 0 <= i < AE -> get m i = prefix_word p i).
Proof.
  intros [Hl Hr] Hp Hmw. ae. unfold is_prefix, BITS_PER_ELEMENT.
  destruct (Z.ltb_spec width p); [lia|].
  assert (forall lo, p <= 64 * lo -> 0 <= lo ->
    all_ lo AE (fun i => get m i =? 0) = true <->
    forall i, lo <= i < AE -> get m i = prefix_word p i) as Hz.
  { intros lo Hlo Hlo0. rewrite all_spec. setoid_rewrite Z.eqb_eq.
    split; intros H' i Hi; rewrite H' by done; [symmetry|]; apply prefix_word_empty; lia. }
  destruct (all_ 0 (p / 64) _) eqn:A; simpl.
  - rewrite all_spec in A. setoid_rewrite Z.eqb_eq in A.
    assert (forall i, 0 <= i < p / 64 -> get m i = prefix_word p i) as A'.
    { intros i Hi. rewrite A by done. symmetry. apply prefix_word_full. dlia. }
    destruct (truth (p mod 64)) eqn:E.
    + assert (p < width).
      { unfold masks_width in Hmw. destruct (Z.leb_spec width p); [|lia].
        replace p with width in E by lia. by rewrite E in Hmw. }
      apply truth_true in E. rewrite last_element_mask_ok by lia.
      destruct (Z.ltb_spec p width); [|lia]. cbn [mbind option_bind].
      rewrite <- prefix_word_part by done.
      destruct (Z.eqb_spec (get m (p / 64)) (prefix_word p (p / 64))) as [Ep|Ep]; simpl;
        (eexists; split; [done|]).
      * rewrite Hz by dlia. split; intros H' i Hi; [|apply H'; dlia].
        destruct (Z.lt_ge_cases i (p / 64)); [apply A'; lia|].
        destruct (Z.eq_dec i (p / 64)) as [->|]; [done|]. apply H'. lia.
      * split; [done|]. intros H'. exfalso. apply Ep, H'. dlia.
    + apply truth_false in E. eexists; split; [done|]. rewrite Hz by dlia.
      split; intros H' i Hi; [|apply H'; dlia].
      destruct (Z.lt_ge_cases i (p / 64)); [apply A'; lia|]. apply H'. lia.
  - eexists; split; [done|]. split; [done|]. intros H'. exfalso. apply not_true_iff_false in A. apply A, all_spec.
    intros i Hi. apply Z.eqb_eq. rewrite H' by dlia. apply prefix_word_full. dlia.
Qed.

Lemma is_prefix_ok m s p :
  denotes m s -> 0 <= p <= width -> masks_width p = false ->
  exists b, is_prefix width m p = Some b /\
    (b = true <-> forall n, 0 <= n < width -> s n = (n <? p)).
Proof.
  intros Hd Hp Hmw. pose proof Hd as [[Hw _] _].
  destruct (is_prefix_words m p Hw Hp Hmw) as (b & E & Hb). exists b. split; [done|]. rewrite Hb.
  pose proof (set_prefix_denotes m p (proj1 Hw) ltac:(lia)) as Hq.
  pose proof (set_prefix_get m p (proj1 Hw) ltac:(lia)) as Hg. unfold outcome in Hq.
  rewrite Hmw in Hq, Hg. destruct Hg as (m' & E' & Lq & Gq), Hq as (m'' & E'' & Hq).
  rewrite E' in E''. injection E'' as <-. rewrite Z.min_l in Hq, Gq by lia.
  rewrite <- (denotes_inj m s m' (fun n => n <? p) Hd Hq). split.
  - intros H. apply (aget_ext 0); [done|]. intros i Hi. destruct Hw as [Hl _].
    rewrite Gq by lia. apply H. lia.
  - intros -> i Hi. by apply Gq.
Qed.

(** ** Enumeration of the members *)

Definition members (m : list Z) : list Z := List.filter (member m) (seqZ 0 width).

(** The members that belong to the words from index [k] on. *)
Definition members_from (m : list Z) (k : Z) : list Z :=
  List.filter (member m) (seqZ (64 * k) (64 * (AE - k))).

(** The set bits of a word that starts at number [off]. *)
Definition word_members (off w : Z) : list Z :=
  Z.add off <$> List.filter (Z.testbit w) (seqZ 0 64).

Lemma filter_false {A} (f : A -> bool) l : (forall x, x ∈ l -> f x = false) -> List.filter f l = [].
Proof.
  induction l as [|x l IH]; intros H; [done|]. simpl. rewrite H by left. apply IH.
  intros y Hy. apply H. by right.
Qed.

Lemma filter_fmap {A B} (f : B -> bool) (g : A -> B) l :
  List.filter f (g <$> l) = g <$> List.filter (fun x => f (g x)) l.
Proof. induction l as [|x l IH]; [done|]. cbn. rewrite IH. by destruct (f (g x)). Qed.

Lemma filter_seqZ_ext (f g : Z -> bool) a n :
  (forall x, a <= x < a + n -> f x = g x) -> List.filter f (seqZ a n) = List.filter g (seqZ a n).
Proof. intros H. apply filter_ext_in. intros x Hx. apply H, elem_of_seqZ, list_elem_of_In, Hx. Qed.

Lemma members_from_step m k :
  0 <= k < AE -> members_from m k = word_members (64 * k) (get m k) ++ members_from m (k + 1).
Proof.
  intros Hk. unfold members_from, word_members.
  replace (64 * (AE - k)) with (64 + 64 * (AE - (k + 1))) by lia.
  rewrite seqZ_app, List.filter_app by lia. replace (64 * k + 64) with (64 * (k + 1)) by lia.
  f_equal. replace (64 * k) with (64 * k + 0) at 1 by lia. rewrite <- fmap_add_seqZ, filter_fmap.
  f_equal. apply filter_seqZ_ext. intros x Hx. unfold member. f_equal; [f_equal|]; dlia.
Qed.

Lemma members_from_end m : members_from m AE = [].
Proof. unfold members_from. by rewrite seqZ_nil by lia. Qed.

Lemma members_from_0 m : wf m -> members_from m 0 = members m.
Proof.
  intros [_ Ht]. ae. unfold members_from, members. rewrite Z.sub_0_r, Z.mul_0_r.
  replace (64 * AE) with (width + (64 * AE - width)) by lia.
  rewrite seqZ_app, List.filter_app, (filter_false _ (seqZ (0 + width) _)) by
    (try lia; intros x Hx%elem_of_seqZ; apply Ht; lia).
  apply app_nil_r.
Qed.

Lemma word_members_nil off : word_members off 0 = [].
Proof. unfold word_members. by rewrite filter_false by (intros; apply Z.testbit_0_l). Qed.

(** Taking the lowest bit of a word takes the first of its members. *)
Lemma next_bit_ok off w :
  urange 64 w ->
  (w = 0 /\ next_bit w = Some (64, w)) \/
  exists b w', next_bit w = Some (b, w') /\ 0 <= b < 64 /\ urange 64 w' /\
    word_members off w = off + b :: word_members off w'.
Proof.
  intros Hw. unfold next_bit. destruct (Z.eqb_spec w 0) as [->|Hne]; [by left|right].
  destruct (my_find_first_bit_ok w Hw) as [[??]|(b & E & Hb & Hset & Hlow)]; [done|].
  rewrite E. cbn. eexists _, _. split; [done|]. split; [done|].
  rewrite Z.shiftl_1_l, (wrap_small 64 (2 ^ b)) by (split; [lia|apply Z.pow_lt_mono_r; lia]).
  set (w' := Z.land w _).
  assert (forall i, 0 <= i < 64 -> Z.testbit w' i = negb (i =? b) && Z.testbit w i) as Hw'.
  { intros i Hi. subst w'. autorewrite with bits. destruct (Z.ltb_spec i 64); [|lia]. btauto. }
  split; [apply urange_land; [lia|done|apply wrap_range; lia]|].
  unfold word_members. replace 64 with (b + (1 + (63 - b))) by lia.
  rewrite !(seqZ_app 0 b), !(seqZ_app (0 + b) 1), !List.filter_app by lia.
  rewrite !(filter_false _ (seqZ 0 b)).
  2,3: intros x Hx%elem_of_seqZ; rewrite ?Hw', Hlow by lia; by rewrite ?andb_false_r.
  replace (seqZ (0 + b) 1) with [b] by (rewrite seqZ_cons, seqZ_nil by lia; f_equal; lia).
  cbn. rewrite Hset, (Hw' b), Z.eqb_refl by lia. cbn. do 2 f_equal. apply filter_seqZ_ext.
  intros x Hx. rewrite Hw' by lia. destruct (Z.eqb_spec x b); [lia|done].
Qed.

(** The members an iterator has still to deliver. *)
Definition it_rest (m : list Z) (it : Iterator) : list Z :=
  word_members (offset it) (tmi it) ++ members_from m (offset it / 64 + 1).

Definition it_wf (it : Iterator) : Prop :=
  exists k, 0 <= k < AE /\ offset it = 64 * k /\ urange 64 (tmi it).

Lemma it_loop_end fuel m off w w' :
  next_bit w = Some (64, w') ->
  it_loop width (S fuel) m (mk_it off w) =
    if width <=? u32 (off + 64) then Some (width, mk_it off w')
    else it_loop width fuel m (mk_it (u32 (off + 64)) (get m (u32 (off + 64) / 64))).
Proof. intros E. cbn [it_loop tmi offset]. by rewrite E. Qed.

Lemma it_loop_hit fuel m off w b w' :
  next_bit w = Some (b, w') -> b <> 64 ->
  it_loop width (S fuel) m (mk_it off w) = Some (u32 (off + b), mk_it off w').
Proof.
  intros E Hb. cbn [it_loop tmi offset]. rewrite E. cbn [mbind option_bind].
  unfold TABLE_MAP_END. by rewrite (proj2 (Z.eqb_neq b 64) Hb).
Qed.

Lemma hd_app_cons {A} (d x : A) l l' : List.hd d ((x :: l) ++ l') = x.
Proof. done. Qed.

Lemma tl_app_cons {A} (x : A) l l' : List.tl ((x :: l) ++ l') = l ++ l'.
Proof. done. Qed.

Lemma it_loop_ok fuel m it :
  wf m -> it_wf it -> AE - offset it / 64 <= Z.of_nat fuel ->
  exists it', it_wf it' /\ it_loop width fuel m it = Some (List.hd width (it_rest m it), it') /\
    it_rest m it' = List.tl (it_rest m it).
Proof.
  intros Hm. revert it. induction fuel as [|fuel IH]; intros [off w] (k & Hk & Ek & Hw) Hf;
    cbn [offset tmi] in Ek, Hw, Hf; subst off; replace (64 * k / 64) with k in Hf by dlia; [lia|].
  ae.
  assert (it_rest m (mk_it (64 * k) w) = word_members (64 * k) w ++ members_from m (k + 1)) as ->.
  { unfold it_rest. cbn [offset tmi]. by replace (64 * k / 64) with k by dlia. }
  destruct (next_bit_ok (64 * k) w Hw) as [[-> E]|(b & w' & E & Hb & Hw' & Ew)].
  - rewrite word_members_nil, (it_loop_end _ _ _ _ _ E), app_nil_l.
    rewrite u32_small by lia.
    destruct (Z.leb_spec width (64 * k + 64)).
    + replace (k + 1) with AE by lia. rewrite members_from_end.
      exists (mk_it (64 * k) 0). split; [|split; [done|]].
      * exists k. split; [lia|]. split; [done|]. split; simpl; lia.
      * unfold it_rest. cbn [offset tmi]. rewrite word_members_nil.
        replace (64 * k / 64 + 1) with AE by dlia. apply members_from_end.
    + replace ((64 * k + 64) / 64) with (k + 1) by dlia.
      assert (it_rest m (mk_it (64 * k + 64) (get m (k + 1))) = members_from m (k + 1)) as <-.
      { rewrite members_from_step by lia. unfold it_rest. cbn [offset tmi].
        replace ((64 * k + 64) / 64) with (k + 1) by dlia.
        by replace (64 * (k + 1)) with (64 * k + 64) by lia. }
      apply IH; [|cbn [offset]; dlia]. exists (k + 1). cbn [offset tmi].
      split; [lia|]. split; [lia|]. apply get_range; [apply Hm|lia].
  - rewrite Ew, (it_loop_hit _ _ _ _ _ _ E) by lia. rewrite hd_app_cons, tl_app_cons.
    rewrite u32_small by lia.
    exists (mk_it (64 * k) w'). split; [|split; [done|]].
    + by exists k.
    + unfold it_rest. cbn [offset tmi]. by replace (64 * k / 64) with k by dlia.
Qed.

Lemma it_begin_ok m : wf m -> it_wf (it_begin m) /\ it_rest m (it_begin m) = members m.
Proof.
  intros Hm. ae. split.
  - exists 0. simpl. split; [lia|]. split; [done|]. apply get_range; [apply Hm|lia].
  - by rewrite <- members_from_0, (members_from_step m 0) by (done || lia).
Qed.

(** Calling [operator++] [n] times. *)
Fixpoint it_take (n : nat) (m : list Z) (it : Iterator) : option (list Z) :=
  match n with
  | O => Some []
  | S n => '(x, it') ← it_next width m it; xs ← it_take n m it'; Some (x :: xs)
  end.

Lemma it_take_ok m n it :
  wf m -> it_wf it ->
  it_take n m it = Some (take n (it_rest m it) ++ repeat width (n - length (it_rest m it))).
Proof.
  intros Hm. revert it. induction n as [|n IH]; intros it Hit; [done|].
  destruct (it_loop_ok (Z.to_nat AE) m it Hm Hit) as (it' & Hit' & H').
  { destruct Hit as (k & Hk & -> & _). dlia. }
  destruct H' as [Eit E].
  cbn [it_take]. unfold it_next. rewrite Eit. destruct (it_rest m it) as [|x xs]; simpl in E.
  - cbn. rewrite IH by done. rewrite E. cbn. by rewrite take_nil, Nat.sub_0_r.
  - cbn. rewrite IH by done. by rewrite E.
Qed.

(** ** Counting *)

Lemma popcount_filter w z :
  popcount w z = Z.of_nat (length (List.filter (Z.testbit z) (seqZ 0 (Z.of_nat w)))).
Proof.
  induction w as [|w IH]; [done|]. cbn [popcount]. rewrite IH, seqZ_S, List.filter_app, length_app.
  cbn [List.filter]. rewrite Z.add_0_l. destruct (Z.testbit z (Z.of_nat w)); cbn [length Z.b2z]; lia.
Qed.

Lemma word_members_count off w : Z.of_nat (length (word_members off w)) = popcount 64 w.
Proof. unfold word_members. by rewrite length_fmap, popcount_filter. Qed.

Lemma bits_set_loop m n k res :
  words m -> 0 <= k -> k + Z.of_nat n = AE -> 0 <= res <= 64 * k ->
  for_n n k (fun i res => u32 (res + my_count_bits (get m i))) res
  = res + Z.of_nat (length (members_from m k)).
Proof.
  intros Hw. revert k res. induction n as [|n IH]; intros k res Hk Hn Hres; cbn [for_n].
  - replace k with AE by lia. rewrite members_from_end. simpl. lia.
  - ae. rewrite members_from_step, length_app, Nat2Z.inj_add, word_members_count by lia.
    rewrite my_count_bits_spec by (apply get_range; done || lia).
    pose proof (popcount_range 64 (get m k)).
    rewrite u32_small by lia. rewrite IH by lia. lia.
Qed.

Lemma bits_set_ok m : wf m -> bits_set width m = Z.of_nat (length (members m)).
Proof.
  intros Hm. ae. rewrite <- members_from_0 by done. unfold bits_set, for_.
  rewrite bits_set_loop; [lia|apply Hm|lia..].
Qed.

(** ** [print] *)

Lemma print_last_ok n m :
  Z.of_nat n < Z.of_nat (length m) ->
  let last := print_last n m in
  0 <= last <= Z.of_nat n /\
  (last = 0 <-> forall i, 0 < i <= Z.of_nat n -> get m i = 0).
Proof.
  induction n as [|n IH]; intros Hn; cbn [print_last]; [split; [lia|naive_solver lia]|].
  destruct (truth _) eqn:E.
  - apply truth_true in E. split; [lia|]. split; [lia|]. intros H. exfalso. apply E, H. lia.
  - apply truth_false in E. destruct IH as [IH1 IH2]; [lia|]. split; [lia|]. rewrite IH2.
    split; intros H i Hi; [|apply H; lia]. destruct (Z.eq_dec i (Z.of_nat (S n))) as [->|]; [done|].
    apply H. lia.
Qed.

Lemma print_digits_undefined num pos dig buf : print_digits 16 num 60 pos dig buf = None.
Proof. done. Qed.

(** ** Operations as commands *)

Inductive cmd :=
  | CSet (n : Z) | CClear (n : Z) | CPrefix (p : Z) | CSetAll | CClearAll
  | CIntersect (m2 : list Z) | CIntersectUll (z : Z) | CIntersectExtended (z : Z)
  | CSubtract (m2 : list Z) | CMerge (m2 : list Z).

Definition exec (m : list Z) (c : cmd) : option (list Z) :=
  match c with
  | CSet n => set_bit width m n
  | CClear n => clear_bit width m n
  | CPrefix p => set_prefix width m p
  | CSetAll => set_all width m
  | CClearAll => Some (clear_all width m)
  | CIntersect m2 => Some (intersect width m m2)
  | CIntersectUll z => intersect_ulonglong width m z
  | CIntersectExtended z => intersect_extended width m z
  | CSubtract m2 => Some (subtract width m m2)
  | CMerge m2 => Some (merge width m m2)
  end.

Fixpoint run (m : list Z) (cs : list cmd) : option (list Z) :=
  match cs with
  | [] => Some m
  | c :: cs => m ← exec m c; run m cs
  end.

(** The effect of a command on the set of bit numbers. *)
Definition set_exec (s : Z -> bool) (c : cmd) : Z -> bool :=
  match c with
  | CSet n => fun k => (k =? n) || s k
  | CClear n => fun k => negb (k =? n) && s k
  | CPrefix p => fun k => k <? Z.min p width
  | CSetAll => fun k => k <? width
  | CClearAll => fun _ => false
  | CIntersect m2 => fun k => s k && member m2 k
  | CIntersectUll z => fun k => if k <? 64 then s k && Z.testbit z k else false
  | CIntersectExtended z =>
      fun k => if k <? 64 then s k && Z.testbit z k else (k <? width) && Z.testbit z 63
  | CSubtract m2 => fun k => s k && negb (member m2 k)
  | CMerge m2 => fun k => s k || member m2 k
  end.

(** The types of the arguments. *)
Definition allowed (c : cmd) : Prop :=
  match c with
  | CSet n | CClear n => 0 <= n
  | CPrefix p => 0 <= p
  | CSetAll | CClearAll => True
  | CIntersect m2 | CSubtract m2 | CMerge m2 => wf m2
  | CIntersectUll z | CIntersectExtended z => urange 64 z
  end.

(** The commands that run into a failing assertion: a bit number out of range,
    and the mask of the last word when the width is no multiple of 64. *)
Definition refused (c : cmd) : bool :=
  match c with
  | CSet n | CClear n => width <=? n
  | CPrefix p => masks_width p
  | CSetAll => truth (width mod 64)
  | CIntersectExtended z => (64 <? width) && truth (width mod 64) && Z.testbit z 63
  | _ => false
  end.

Lemma exec_outcome m s c :
  denotes m s -> allowed c -> outcome (exec m c) (refused c) (set_exec s c).
Proof.
  intros Hm Hc. pose proof Hm as [[[Hl _] _] _]. destruct c; cbn [exec set_exec allowed refused] in *.
  - by apply set_bit_denotes.
  - by apply clear_bit_denotes.
  - by apply set_prefix_denotes.
  - by apply set_all_denotes.
  - eexists; split; [done|]. by apply clear_all_denotes.
  - eexists; split; [done|]. by apply intersect_denotes; [|apply wf_denotes].
  - pose proof (intersect_and_pad_denotes m s z false Hm Hc) as H'.
    rewrite andb_false_r in H'. destruct H' as (m' & E & Hw & H'). exists m'. split; [done|].
    split; [done|]. intros n Hn. rewrite H' by done. by rewrite andb_false_r.
  - unfold intersect_extended. rewrite bit63. by apply intersect_and_pad_denotes.
  - eexists; split; [done|]. by apply subtract_denotes; [|apply wf_denotes].
  - eexists; split; [done|]. by apply merge_denotes; [|apply wf_denotes].
Qed.

(** ** Properties *)

(** C24: A [Bitmap<width>] refines the set of its bit numbers: a sequence of
    operations (set, clear, prefix, all, intersections, padding, difference,
    union) from any well-formed bitmap runs into a failing assertion exactly
    when one of them has a bit number not below [width], or asks for the mask
    of the last word ([set_all], a prefix of the whole width, an extended
    intersection whose highest bit is set) while the width is no multiple of
    64; otherwise it ends with words in range, no bit at [width] or above, and
    the members of the same sequence on sets. *)
Theorem bitmap_commands_refine m cs :
  wf m -> Forall allowed cs ->
  if existsb refused cs then run m cs = None
  else exists m', run m cs = Some m' /\ wf m' /\
    forall n, 0 <= n -> member m' n = fold_left set_exec cs (member m) n.
Proof.
  intros Hm Hcs. change (outcome (run m cs) (existsb refused cs) (fold_left set_exec cs (member m))).
  generalize (wf_denotes m Hm). generalize (member m) as s. clear Hm. revert m.
  induction Hcs as [|c cs Hc Hcs IH]; intros m s Hd; [by exists m|].
  cbn [fold_left run existsb]. pose proof (exec_outcome m s c Hd Hc) as Ho. unfold outcome in Ho.
  destruct (refused c); [by rewrite Ho|]. destruct Ho as (m' & -> & Hd'). by apply IH.
Qed.

(** The queries of a [Bitmap] decide the corresponding facts about sets:
    [is_set] is membership, [is_clear_all] emptiness, [is_subset] inclusion,
    [is_overlapping] a common member, [operator==] equality of the sets and
    [is_prefix] that the members are the numbers below the prefix size, unless
    that is the whole of a width that is no multiple of 64. *)
Theorem bitmap_queries m m2 p :
  wf m -> wf m2 -> 0 <= p <= width -> masks_width p = false ->
  (forall n, 0 <= n < width -> is_set width m n = Some (member m n)) /\
  (is_clear_all width m = true <-> forall n, 0 <= n < width -> member m n = false) /\
  (is_subset width m m2 = true <->
    forall n, 0 <= n < width -> member m n = true -> member m2 n = true) /\
  (is_overlapping width m m2 = false <->
    forall n, 0 <= n < width -> member m n && member m2 n = false) /\
  (eqb width m m2 = true <-> forall n, 0 <= n < width -> member m n = member m2 n) /\
  (exists b, is_prefix width m p = Some b /\
    (b = true <-> forall n, 0 <= n < width -> member m n = (n <? p))).
Proof.
  intros Hm%wf_denotes Hm2%wf_denotes Hp Hmw.
  split; [intros; by apply is_set_ok|]. split; [by apply is_clear_all_ok|].
  split; [by apply is_subset_ok|]. split; [by apply is_overlapping_ok|].
  split; [by apply eqb_ok|by apply is_prefix_ok].
Qed.

(** Calling [Iterator::operator++] [k] times delivers the members of the
    bitmap in increasing order and then [BITMAP_END] forever; no call runs out
    of words; [bits_set] is the number of members. *)
Theorem bitmap_iteration m k :
  wf m ->
  it_take k m (it_begin m) = Some (take k (members m) ++ repeat width (k - length (members m))) /\
  bits_set width m = Z.of_nat (length (members m)).
Proof.
  intros Hm. destruct (it_begin_ok m Hm) as [Hi E]. split; [|by apply bits_set_ok].
  rewrite it_take_ok by done. by rewrite E.
Qed.

(** [print] is defined only for a bitmap whose words above the first are
    all zero: otherwise it shifts a 64-bit word by 64, since the shift is
    increased from 60 instead of decreased.  When it is defined the output is
    that of the first word alone. *)
Theorem print_undefined m dig longlong2str buf :
  wf m ->
  ((forall n, 64 <= n < width -> member m n = false) ->
    print width dig longlong2str m buf = Some (longlong2str (to_ulonglong m) buf)) /\
  ((exists n, 64 <= n < width /\ member m n = true) ->
    print width dig longlong2str m buf = None).
Proof.
  intros [[Hl Hr] Ht]. ae. unfold print.
  destruct (print_last_ok (Z.to_nat (AE - 1)) m) as [Hb H0]; [lia|].
  rewrite Z2Nat.id in Hb, H0 by lia. set (last := print_last _ m) in *. split.
  - intros Hn. assert (last = 0) as ->; [|done]. apply H0. intros i Hi.
    apply word_zero; [apply Hr; lia|]. intros j Hj.
    assert (member m (64 * i + j) = false) as E.
    { destruct (Z.lt_ge_cases (64 * i + j) width); [apply Hn; lia|apply Ht; lia]. }
    unfold member in E. replace ((64 * i + j) / 64) with i in E by dlia.
    by replace ((64 * i + j) mod 64) with j in E by dlia.
  - intros (n & Hn & Hs). destruct (Z.to_nat last) as [|k] eqn:E; [|done]. exfalso.
    assert (get m (n / 64) = 0) as E0 by (apply H0; dlia).
    unfold member in Hs. by rewrite E0, Z.testbit_0_l in Hs.
Qed.

End proofs.

(** ** Witnesses *)

Definition sample : list Z := [5; 2 ^ 63 + 1; 0x3F].

Lemma sample_wf : wf 134 sample.
Proof.
  split; [split; [reflexivity|]|].
  - intros i Hi. change (ARRAY_ELEMENTS 134) with 3 in Hi.
    assert (i = 0 \/ i = 1 \/ i = 2) as [->|[->| ->]] by lia; split; vm_compute; congruence.
  - intros n Hn. destruct (Z.lt_ge_cases n 192).
    + assert (n / 64 = 2) as E by dlia. unfold member. rewrite E.
      apply (testbit_ltb_high 6); [split; vm_compute; congruence|dlia].
    + unfold member. rewrite aget_beyond by (cbn; dlia). apply Z.testbit_0_l.
Qed.

Definition sample2 : list Z := [5; 2 ^ 63 + 1].

Lemma sample2_wf : wf 128 sample2.
Proof.
  split; [split; [reflexivity|]|].
  - intros i Hi. change (ARRAY_ELEMENTS 128) with 2 in Hi.
    assert (i = 0 \/ i = 1) as [->| ->] by lia; split; vm_compute; congruence.
  - intros n Hn. unfold member. rewrite aget_beyond by (cbn; dlia). apply Z.testbit_0_l.
Qed.

(** A width of two full words, where nothing asserts, and a width of 134, where
    setting all bits does. *)
Lemma bitmap_commands_refine_witness :
  let cs := [CSet 70; CClear 0; CIntersectExtended (2 ^ 63 + 4); CMerge sample2; CSubtract sample2] in
  (exists m', run 128 sample2 cs = Some m' /\ wf 128 m' /\
    forall n, 0 <= n -> member m' n = fold_left (set_exec 128) cs (member sample2) n) /\
  option_map (members 128) (run 128 sample2 cs) = Some (seqZ 65 62) /\
  run 134 sample [CSet 70; CSetAll] = None.
Proof.
  split; [|split; [vm_compute; reflexivity|]].
  - apply (bitmap_commands_refine 128 ltac:(lia) sample2 [CSet 70; CClear 0;
      CIntersectExtended (2 ^ 63 + 4); CMerge sample2; CSubtract sample2]); [apply sample2_wf|].
    apply Forall_cons; split; [cbn [allowed]; lia|]. apply Forall_cons; split; [cbn [allowed]; lia|].
    apply Forall_cons; split; [split; vm_compute; congruence|].
    apply Forall_cons; split; [apply sample2_wf|]. apply Forall_cons; split; [apply sample2_wf|].
    apply Forall_nil_2.
  - apply (bitmap_commands_refine 134 ltac:(lia) sample [CSet 70; CSetAll]); [apply sample_wf|].
    apply Forall_cons; split; [cbn [allowed]; lia|]. apply Forall_cons; split; [done|].
    apply Forall_nil_2.
Defined.

Lemma bitmap_queries_witness :
  is_set 134 sample 70 = Some (member sample 70) /\
  is_subset 134 sample sample = true /\ is_prefix 134 sample 3 = Some false /\
  is_set 134 sample 2 = Some true.
Proof.
  destruct (bitmap_queries 134 ltac:(lia) sample sample 3 sample_wf sample_wf ltac:(lia) eq_refl)
    as (H1 & H2 & H3 & H4 & H5 & H6).
  split; [apply H1; lia|]. split; [apply H3; tauto|]. split; vm_compute; reflexivity.
Defined.

Lemma bitmap_iteration_witness :
  (it_take 134 4 sample (it_begin sample) =
    Some (take 4 (members 134 sample) ++ repeat 134 (4 - length (members 134 sample))) /\
   bits_set 134 sample = Z.of_nat (length (members 134 sample))) /\
  it_take 134 11 sample (it_begin sample) = Some [0; 2; 64; 127; 128; 129; 130; 131; 132; 133; 134].
Proof.
  split; [apply bitmap_iteration; [lia|apply sample_wf]|]. vm_compute; reflexivity.
Defined.

Lemma print_undefined_witness :
  print 134 (fun d => 48 + d) (fun z b => aput b 0 z) sample (repeat 0 40) = None.
Proof.
  apply (proj2 (print_undefined 134 ltac:(lia) sample (fun d => 48 + d) (fun z b => aput b 0 z)
    (repeat 0 40) sample_wf)).
  exists 64. split; [lia|reflexivity].
Defined.

End Bitmap.
