(* ===== verification/Mem.v ===== *)
(** * Byte memory

    An address space of bytes for the components that work on raw memory:
    [memcpy] and [memset] of the C library, and [bytes m a n], the [n] bytes
    from address [a].  Two memories are compared on the bytes read from them. *)

From Stdlib Require Import ZArith Lia.
From stdpp Require Import prelude list_numbers.
From S2P Require Import Prelude.
Local Open Scope Z_scope.

Definition mem := Z -> Z.

Definition memcpy (m : mem) (dst src n : Z) : mem :=
  fun a => if (dst <=? a) && (a <? dst + n) then m (src + (a - dst)) else m a.

Definition memset (m : mem) (dst c n : Z) : mem :=
  fun a => if (dst <=? a) && (a <? dst + n) then c else m a.

Definition bytes (m : mem) (a n : Z) : list Z := m <$> seqZ a n.

(** The bytes [l] written at an address. *)
Definition write_bytes (m : mem) (a : Z) (l : list Z) : mem :=
  fun x => if (a <=? x) && (x <? a + Z.of_nat (length l)) then default 0 (l !! Z.to_nat (x - a)) else m x.

(** Include/mysql/server/my_valgrind.h: [trash] tells whether the build fills
    fresh memory ([TRASH_FREED_MEMORY]). *)
Definition TRASH_ALLOC (trash : bool) (m : mem) (a n : Z) : mem :=
  if trash then memset m a 0xA5 n else m.

(** [agree m m' a n]: the memories hold the same [n] bytes from [a]. *)
Definition agree (m m' : mem) (a n : Z) : Prop := forall x, a <= x < a + n -> m x = m' x.

Lemma bytes_length m a n : length (bytes m a n) = Z.to_nat n.
Proof. unfold bytes. by rewrite length_fmap, length_seqZ. Qed.

Lemma bytes_nil m a n : n <= 0 -> bytes m a n = [].
Proof. intros. unfold bytes. by rewrite seqZ_nil. Qed.

Lemma bytes_agree m m' a n : agree m m' a n -> bytes m a n = bytes m' a n.
Proof.
  intros H. apply list_fmap_ext. intros i x Hx. apply lookup_seqZ in Hx as [-> Hi].
  apply H. lia.
Qed.

Lemma bytes_shift m m' a b n :
  (forall i, 0 <= i < n -> m (a + i) = m' (b + i)) -> bytes m a n = bytes m' b n.
Proof.
  intros H. unfold bytes. rewrite <- (Z.add_0_r a), <- (Z.add_0_r b) at 1.
  rewrite <- !fmap_add_seqZ, <- !list_fmap_compose. apply list_fmap_ext.
  intros i x Hx. apply lookup_seqZ in Hx as [-> Hi]. simpl. apply H. lia.
Qed.

Lemma bytes_app m a n1 n2 :
  0 <= n1 -> 0 <= n2 -> bytes m a (n1 + n2) = bytes m a n1 ++ bytes m (a + n1) n2.
Proof. intros. unfold bytes. by rewrite seqZ_app, fmap_app. Qed.

Lemma bytes_one m a : bytes m a 1 = [m a].
Proof. unfold bytes. by rewrite seqZ_cons by lia. Qed.

(** What [memcpy] stores, and what it leaves alone. *)
Lemma memcpy_dst m dst src n k :
  0 <= k <= n -> bytes (memcpy m dst src n) dst k = bytes m src k.
Proof.
  intros Hk. apply bytes_shift. intros i Hi. unfold memcpy. zcases; simpl; try lia.
  f_equal. lia.
Qed.

Lemma memcpy_frame m dst src n a k :
  a + k <= dst \/ dst + n <= a -> agree (memcpy m dst src n) m a k.
Proof. intros H x Hx. unfold memcpy. zcases; simpl; done || lia. Qed.

Lemma memset_frame m dst c n a k :
  a + k <= dst \/ dst + n <= a -> agree (memset m dst c n) m a k.
Proof. intros H x Hx. unfold memset. zcases; simpl; done || lia. Qed.

Lemma write_bytes_frame m a l b k :
  b + k <= a \/ a + Z.of_nat (length l) <= b -> agree (write_bytes m a l) m b k.
Proof. intros H x Hx. unfold write_bytes. zcases; simpl; done || lia. Qed.

Lemma bytes_write m a l : bytes (write_bytes m a l) a (Z.of_nat (length l)) = l.
Proof.
  apply list_eq. intros i. unfold bytes. rewrite list_lookup_fmap.
  destruct (lt_dec i (length l)) as [Hi|Hi].
  - rewrite lookup_seqZ_lt by lia. simpl. unfold write_bytes. zcases; simpl; try lia.
    replace (Z.to_nat (a + Z.of_nat i - a)) with i by lia.
    by destruct (lookup_lt_is_Some_2 l i Hi) as [x ->].
  - rewrite lookup_seqZ_ge by lia. by rewrite lookup_ge_None_2 by lia.
Qed.

Lemma trash_frame trash m dst n a k :
  a + k <= dst \/ dst + n <= a -> agree (TRASH_ALLOC trash m dst n) m a k.
Proof. destruct trash; [apply memset_frame|done]. Qed.

Lemma agree_trans m1 m2 m3 a n : agree m1 m2 a n -> agree m2 m3 a n -> agree m1 m3 a n.
Proof. intros H1 H2 x Hx. by rewrite H1, H2. Qed.

Lemma agree_sym m1 m2 a n : agree m1 m2 a n -> agree m2 m1 a n.
Proof. intros H x Hx. by rewrite H. Qed.

Lemma agree_sub m m' a n b k : agree m m' a n -> a <= b -> b + k <= a + n -> agree m m' b k.
Proof. intros H ? ? x Hx. apply H. lia. Qed.

Create HintDb mem.
#[export] Hint Resolve memcpy_frame memset_frame write_bytes_frame trash_frame agree_sym : mem.
