(* ===== verification/MyIsamPack.v ===== *)
(** * [myisampack.h]: integers, floats and row counts stored high byte first

    The macros store a value through a pointer to bytes and read it back.  A
    store is a memory transformer and a read a function of memory and address;
    [ulong_bits] is the width of [ulong] (32 or 64), and the macros with
    several definitions have one model per configuration.  The theorems show
    that each store and its read are inverse at the stored width, that a store
    touches only its bytes, that comparing stored keys byte by byte compares
    the integers, and that the float macros only permute bytes. *)

From Stdlib Require Import ZArith Lia.
From stdpp Require Import prelude list_numbers.
From S2P Require Import Prelude Mem.

Local Open Scope Z_scope.
Local Open Scope cint_scope.

Module MyIsamPack.

Definition poke (m : mem) (a v : Z) : mem := fun x => if x =? a then v else m x.

(** ** Reads *)

Definition mi_sint1korr (m : mem) (A : Z) : Z := sgn 8 (m A).
Definition mi_uint1korr (m : mem) (A : Z) : Z := u8 (m A).

Definition mi_sint2korr (m : mem) (A : Z) : Z :=
  sgn 16 (Z.lor (m (A + 1)) (Z.shiftl (m (A + 0)) 8)).

Definition mi_sint3korr (m : mem) (A : Z) : Z :=
  sgn 32
    (if truth (Z.land (m (A + 0)) 128)
     then Z.lor (Z.lor (Z.lor (u32 (Z.shiftl 255 24))
                              (u32 (Z.shiftl (m (A + 0)) 16)))
                       (u32 (Z.shiftl (m (A + 1)) 8)))
                (m (A + 2))
     else Z.lor (Z.lor (u32 (Z.shiftl (m (A + 0)) 16))
                       (u32 (Z.shiftl (m (A + 1)) 8)))
                (m (A + 2))).

Definition mi_sint4korr (m : mem) (A : Z) : Z :=
  sgn 32 (Z.lor (Z.lor (Z.lor (m (A + 3)) (u32 (Z.shiftl (m (A + 2)) 8)))
                       (u32 (Z.shiftl (m (A + 1)) 16)))
                (u32 (Z.shiftl (m (A + 0)) 24))).

Definition mi_uint2korr (m : mem) (A : Z) : Z :=
  u16 (Z.lor (m (A + 1)) (Z.shiftl (m (A + 0)) 8)).

Definition mi_uint3korr (m : mem) (A : Z) : Z :=
  u32 (Z.lor (Z.lor (m (A + 2)) (u32 (Z.shiftl (m (A + 1)) 8)))
             (u32 (Z.shiftl (m (A + 0)) 16))).

Definition mi_uint4korr (m : mem) (A : Z) : Z :=
  u32 (Z.lor (Z.lor (Z.lor (m (A + 3)) (u32 (Z.shiftl (m (A + 2)) 8)))
                    (u32 (Z.shiftl (m (A + 1)) 16)))
             (u32 (Z.shiftl (m (A + 0)) 24))).

Definition mi_uint5korr (m : mem) (A : Z) : Z :=
  Z.lor
    (u64 (Z.lor (Z.lor (Z.lor (m (A + 4)) (u32 (Z.shiftl (m (A + 3)) 8)))
                       (u32 (Z.shiftl (m (A + 2)) 16)))
                (u32 (Z.shiftl (m (A + 1)) 24))))
    (u64 (Z.shiftl (m (A + 0)) 32)).

Definition mi_uint6korr (m : mem) (A : Z) : Z :=
  Z.lor
    (u64 (Z.lor (Z.lor (Z.lor (m (A + 5)) (u32 (Z.shiftl (m (A + 4)) 8)))
                       (u32 (Z.shiftl (m (A + 3)) 16)))
                (u32 (Z.shiftl (m (A + 2)) 24))))
    (u64 (Z.shiftl (Z.lor (m (A + 1)) (u32 (Z.shiftl (m (A + 0)) 8))) 32)).

Definition mi_uint7korr (m : mem) (A : Z) : Z :=
  Z.lor
    (u64 (Z.lor (Z.lor (Z.lor (m (A + 6)) (u32 (Z.shiftl (m (A + 5)) 8)))
                       (u32 (Z.shiftl (m (A + 4)) 16)))
                (u32 (Z.shiftl (m (A + 3)) 24))))
    (u64 (Z.shiftl (Z.lor (Z.lor (m (A + 2)) (u32 (Z.shiftl (m (A + 1)) 8)))
                          (u32 (Z.shiftl (m (A + 0)) 16))) 32)).

Definition mi_uint8korr (m : mem) (A : Z) : Z :=
  Z.lor
    (u64 (Z.lor (Z.lor (Z.lor (m (A + 7)) (u32 (Z.shiftl (m (A + 6)) 8)))
                       (u32 (Z.shiftl (m (A + 5)) 16)))
                (u32 (Z.shiftl (m (A + 4)) 24))))
    (u64 (Z.shiftl (Z.lor (Z.lor (Z.lor (m (A + 3)) (u32 (Z.shiftl (m (A + 2)) 8)))
                                 (u32 (Z.shiftl (m (A + 1)) 16)))
                          (u32 (Z.shiftl (m (A + 0)) 24))) 32)).

Definition mi_sint8korr (m : mem) (A : Z) : Z := s64 (mi_uint8korr m A).

(** ** Stores *)

Definition mi_int1store (m : mem) (T A : Z) : mem := poke m T (u8 A).

Definition mi_int2store (m : mem) (T A : Z) : mem :=
  let def_temp := u32 A in
  let m := poke m (T + 1) (u8 def_temp) in
  poke m (T + 0) (u8 (Z.shiftr def_temp 8)).

Section Ulong.

Variable ulong_bits : Z.
Local Notation ulong z := (wrap ulong_bits z).

Definition mi_int3store (m : mem) (T A : Z) : mem :=
  let def_temp := ulong A in
  let m := poke m (T + 2) (u8 def_temp) in
  let m := poke m (T + 1) (u8 (Z.shiftr def_temp 8)) in
  poke m (T + 0) (u8 (Z.shiftr def_temp 16)).

Definition mi_int4store (m : mem) (T A : Z) : mem :=
  let def_temp := ulong A in
  let m := poke m (T + 3) (u8 def_temp) in
  let m := poke m (T + 2) (u8 (Z.shiftr def_temp 8)) in
  let m := poke m (T + 1) (u8 (Z.shiftr def_temp 16)) in
  poke m (T + 0) (u8 (Z.shiftr def_temp 24)).

Definition mi_int5store (m : mem) (T A : Z) : mem :=
  let def_temp := ulong A in
  let def_temp2 := ulong (Z.shiftr A 32) in
  let m := poke m (T + 4) (u8 def_temp) in
  let m := poke m (T + 3) (u8 (Z.shiftr def_temp 8)) in
  let m := poke m (T + 2) (u8 (Z.shiftr def_temp 16)) in
  let m := poke m (T + 1) (u8 (Z.shiftr def_temp 24)) in
  poke m (T + 0) (u8 def_temp2).

Definition mi_int6store (m : mem) (T A : Z) : mem :=
  let def_temp := ulong A in
  let def_temp2 := ulong (Z.shiftr A 32) in
  let m := poke m (T + 5) (u8 def_temp) in
  let m := poke m (T + 4) (u8 (Z.shiftr def_temp 8)) in
  let m := poke m (T + 3) (u8 (Z.shiftr def_temp 16)) in
  let m := poke m (T + 2) (u8 (Z.shiftr def_temp 24)) in
  let m := poke m (T + 1) (u8 def_temp2) in
  poke m (T + 0) (u8 (Z.shiftr def_temp2 8)).

Definition mi_int7store (m : mem) (T A : Z) : mem :=
  let def_temp := ulong A in
  let def_temp2 := ulong (Z.shiftr A 32) in
  let m := poke m (T + 6) (u8 def_temp) in
  let m := poke m (T + 5) (u8 (Z.shiftr def_temp 8)) in
  let m := poke m (T + 4) (u8 (Z.shiftr def_temp 16)) in
  let m := poke m (T + 3) (u8 (Z.shiftr def_temp 24)) in
  let m := poke m (T + 2) (u8 def_temp2) in
  let m := poke m (T + 1) (u8 (Z.shiftr def_temp2 8)) in
  poke m (T + 0) (u8 (Z.shiftr def_temp2 16)).

Definition mi_int8store (m : mem) (T A : Z) : mem :=
  let def_temp3 := ulong A in
  let def_temp4 := ulong (Z.shiftr A 32) in
  let m := mi_int4store m (T + 0) def_temp4 in
  mi_int4store m (T + 4) def_temp3.

(** Row counts with [BIG_TABLES] and without; file sizes with an [off_t] of
    more than four bytes and without, where [HA_OFFSET_ERROR] is the largest
    32-bit value. *)

Definition mi_rowstore_big (m : mem) (T A : Z) : mem := mi_int8store m T A.
Definition mi_rowkorr_big (m : mem) (T : Z) : Z := mi_uint8korr m T.

Definition mi_rowstore_small (m : mem) (T A : Z) : mem :=
  let m := mi_int4store m T 0 in mi_int4store m (T + 4) A.
Definition mi_rowkorr_small (m : mem) (T : Z) : Z := mi_uint4korr m (T + 4).

Definition mi_sizestore_wide (m : mem) (T A : Z) : mem := mi_int8store m T A.
Definition mi_sizekorr_wide (m : mem) (T : Z) : Z := mi_uint8korr m T.

Definition HA_OFFSET_ERROR : Z := u32 (Z.lnot 0).

Definition mi_sizestore_narrow (m : mem) (T A : Z) : mem :=
  if A =? HA_OFFSET_ERROR then memset m T 255 8
  else let m := mi_int4store m T 0 in mi_int4store m (T + 4) A.
Definition mi_sizekorr_narrow (m : mem) (T : Z) : Z := mi_uint4korr m (T + 4).

End Ulong.

(** ** Floating point

    The operands are addresses of the objects; [d] is the address of the
    macro's local [def_temp], and the final assignment copies that object. *)

Definition mi_float4store_be (m : mem) (T A : Z) : mem :=
  let m := poke m (T + 0) (m (A + 0)) in
  let m := poke m (T + 1) (m (A + 1)) in
  let m := poke m (T + 2) (m (A + 2)) in
  poke m (T + 3) (m (A + 3)).

Definition mi_float4get_be (d : Z) (m : mem) (V M : Z) : mem :=
  let m := poke m (d + 0) (m (M + 0)) in
  let m := poke m (d + 1) (m (M + 1)) in
  let m := poke m (d + 2) (m (M + 2)) in
  let m := poke m (d + 3) (m (M + 3)) in
  memcpy m V d 4.

Definition mi_float8store_be (m : mem) (T V : Z) : mem :=
  let m := poke m (T + 0) (m (V + 0)) in
  let m := poke m (T + 1) (m (V + 1)) in
  let m := poke m (T + 2) (m (V + 2)) in
  let m := poke m (T + 3) (m (V + 3)) in
  let m := poke m (T + 4) (m (V + 4)) in
  let m := poke m (T + 5) (m (V + 5)) in
  let m := poke m (T + 6) (m (V + 6)) in
  poke m (T + 7) (m (V + 7)).

Definition mi_float8get_be (d : Z) (m : mem) (V M : Z) : mem :=
  let m := poke m (d + 0) (m (M + 0)) in
  let m := poke m (d + 1) (m (M + 1)) in
  let m := poke m (d + 2) (m (M + 2)) in
  let m := poke m (d + 3) (m (M + 3)) in
  let m := poke m (d + 4) (m (M + 4)) in
  let m := poke m (d + 5) (m (M + 5)) in
  let m := poke m (d + 6) (m (M + 6)) in
  let m := poke m (d + 7) (m (M + 7)) in
  memcpy m V d 8.

Definition mi_float4store_le (m : mem) (T A : Z) : mem :=
  let m := poke m (T + 0) (m (A + 3)) in
  let m := poke m (T + 1) (m (A + 2)) in
  let m := poke m (T + 2) (m (A + 1)) in
  poke m (T + 3) (m (A + 0)).

Definition mi_float4get_le (d : Z) (m : mem) (V M : Z) : mem :=
  let m := poke m (d + 0) (m (M + 3)) in
  let m := poke m (d + 1) (m (M + 2)) in
  let m := poke m (d + 2) (m (M + 1)) in
  let m := poke m (d + 3) (m (M + 0)) in
  memcpy m V d 4.

Definition mi_float8store_mixed (m : mem) (T V : Z) : mem :=
  let m := poke m (T + 0) (m (V + 3)) in
  let m := poke m (T + 1) (m (V + 2)) in
  let m := poke m (T + 2) (m (V + 1)) in
  let m := poke m (T + 3) (m (V + 0)) in
  let m := poke m (T + 4) (m (V + 7)) in
  let m := poke m (T + 5) (m (V + 6)) in
  let m := poke m (T + 6) (m (V + 5)) in
  poke m (T + 7) (m (V + 4)).

Definition mi_float8get_mixed (d : Z) (m : mem) (V M : Z) : mem :=
  let m := poke m (d + 0) (m (M + 3)) in
  let m := poke m (d + 1) (m (M + 2)) in
  let m := poke m (d + 2) (m (M + 1)) in
  let m := poke m (d + 3) (m (M + 0)) in
  let m := poke m (d + 4) (m (M + 7)) in
  let m := poke m (d + 5) (m (M + 6)) in
  let m := poke m (d + 6) (m (M + 5)) in
  let m := poke m (d + 7) (m (M + 4)) in
  memcpy m V d 8.

Definition mi_float8store_le (m : mem) (T V : Z) : mem :=
  let m := poke m (T + 0) (m (V + 7)) in
  let m := poke m (T + 1) (m (V + 6)) in
  let m := poke m (T + 2) (m (V + 5)) in
  let m := poke m (T + 3) (m (V + 4)) in
  let m := poke m (T + 4) (m (V + 3)) in
  let m := poke m (T + 5) (m (V + 2)) in
  let m := poke m (T + 6) (m (V + 1)) in
  poke m (T + 7) (m (V + 0)).

Definition mi_float8get_le (d : Z) (m : mem) (V M : Z) : mem :=
  let m := poke m (d + 0) (m (M + 7)) in
  let m := poke m (d + 1) (m (M + 6)) in
  let m := poke m (d + 2) (m (M + 5)) in
  let m := poke m (d + 3) (m (M + 4)) in
  let m := poke m (d + 4) (m (M + 3)) in
  let m := poke m (d + 5) (m (M + 2)) in
  let m := poke m (d + 6) (m (M + 1)) in
  let m := poke m (d + 7) (m (M + 0)) in
  memcpy m V d 8.

(** ** Specification: big-endian bytes *)

Fixpoint be_bytes (n : nat) (a : Z) : list Z :=
  match n with
  | O => []
  | S k => u8 (Z.shiftr a (8 * Z.of_nat k)) :: be_bytes k a
  end.

Fixpoint be_value (l : list Z) : Z :=
  match l with
  | [] => 0
  | b :: l => b * 2 ^ (8 * Z.of_nat (length l)) + be_value l
  end.

(** [memcmp]'s comparison of two byte strings of one length. *)
Fixpoint memcmp (l1 l2 : list Z) : comparison :=
  match l1, l2 with
  | b1 :: l1, b2 :: l2 => match b1 ?= b2 with Eq => memcmp l1 l2 | c => c end
  | _, _ => Eq
  end.

Definition byte_list : list Z -> Prop := Forall (fun b => 0 <= b < 256).

Lemma be_bytes_length n a : length (be_bytes n a) = n.
Proof. induction n; cbn; congruence. Qed.

Lemma be_bytes_byte n a : byte_list (be_bytes n a).
Proof. induction n; constructor; [by apply (wrap_range 8)|done]. Qed.

Lemma be_value_range l : byte_list l -> 0 <= be_value l < 2 ^ (8 * Z.of_nat (length l)).
Proof.
  induction 1 as [|b l Hb _ IH]; [cbn; lia|]. cbn [be_value length].
  replace (8 * Z.of_nat (S (length l))) with (8 + 8 * Z.of_nat (length l)) by lia.
  rewrite Z.pow_add_r by lia. change (2 ^ 8) with 256.
  set (P := 2 ^ _) in *. nia.
Qed.

Lemma be_value_bytes n a : be_value (be_bytes n a) = wrap (8 * Z.of_nat n) a.
Proof.
  induction n as [|n IH]; [cbn; symmetry; apply Z.mod_1_r|].
  cbn [be_bytes be_value]. rewrite be_bytes_length, IH. unfold wrap.
  replace (8 * Z.of_nat (S n)) with (8 * Z.of_nat n + 8) by lia.
  rewrite Z.pow_add_r, Z.shiftr_div_pow2 by lia.
  rewrite (Z.rem_mul_r a) by lia. lia.
Qed.

Lemma memcmp_value l1 l2 :
  byte_list l1 -> byte_list l2 -> length l1 = length l2 ->
  memcmp l1 l2 = (be_value l1 ?= be_value l2).
Proof.
  intros H1. revert l2. induction H1 as [|b1 l1 Hb1 Hl1 IH]; intros l2 H2 Hlen.
  - by destruct l2.
  - destruct H2 as [|b2 l2 Hb2 Hl2]; [done|]. injection Hlen as Hlen.
    cbn [memcmp be_value]. rewrite (IH l2 Hl2 Hlen), Hlen.
    pose proof (be_value_range l1 Hl1) as R1. pose proof (be_value_range l2 Hl2) as R2.
    rewrite Hlen in R1. set (P := 2 ^ _) in *.
    destruct (Z.compare_spec b1 b2); symmetry.
    + subst. destruct (Z.compare_spec (be_value l1) (be_value l2));
        [apply Z.compare_eq_iff|apply Z.compare_lt_iff|apply Z.compare_gt_iff]; lia.
    + apply Z.compare_lt_iff. nia.
    + apply Z.compare_gt_iff. nia.
Qed.

(** ** Reading memory cell by cell *)

Lemma bytes_cells m a (n : nat) :
  bytes m a (Z.of_nat n) = map (fun i => m (a + Z.of_nat i)) (seq 0 n).
Proof.
  unfold bytes, seqZ. rewrite Nat2Z.id, <- list_fmap_compose.
  apply list_fmap_ext. intros i x _. cbn. f_equal. lia.
Qed.

Lemma poke_off m a i j v : poke m (a + i) v (a + j) = if j =? i then v else m (a + j).
Proof. unfold poke. zcases; done || lia. Qed.

Lemma poke_ne m a v x : x <> a -> poke m a v x = m x.
Proof. unfold poke. zcases; done. Qed.

Lemma poke_zero m a v : poke m a v = poke m (a + 0) v.
Proof. by rewrite Z.add_0_r. Qed.

(** Two adjacent fields joined by [|], the low one first or last. *)
Lemma lor_low k K a b :
  2 ^ k = K -> 0 <= k -> 0 <= a < K -> Z.lor a (Z.shiftl b k) = a + b * K.
Proof.
  intros <- Hk Ha. rewrite Z.shiftl_mul_pow2 by done. rewrite <- Z.add_nocarry_lor; [done|].
  apply Z.bits_inj'. intros n Hn. rewrite Z.land_spec, Z.testbit_0_l.
  destruct (Z.lt_ge_cases n k).
  - rewrite Z.mul_pow2_bits_low by done. apply andb_false_r.
  - rewrite (testbit_ltb_high k a) by done. done.
Qed.

Lemma lor_wrap w k K a b :
  2 ^ k = K -> 0 <= k -> 0 <= a < K -> 0 <= b * K < 2 ^ w ->
  Z.lor a (wrap w (Z.shiftl b k)) = a + b * K.
Proof.
  intros HK Hk Ha Hb. rewrite wrap_small; [by apply lor_low|].
  rewrite Z.shiftl_mul_pow2, HK by done. done.
Qed.

Lemma lor32 a b :
  0 <= a < 2 ^ 32 -> 0 <= b < 2 ^ 32 -> Z.lor (u64 a) (u64 (Z.shiftl b 32)) = a + b * 2 ^ 32.
Proof.
  intros Ha Hb. rewrite (u64_small a) by lia. apply lor_wrap; done || lia.
Qed.

Ltac fields :=
  rewrite ?(lor_wrap 32 8 256), ?(lor_wrap 32 16 65536), ?(lor_wrap 32 24 16777216)
    by lia.

Lemma or2 b1 b0 :
  0 <= b1 < 256 -> 0 <= b0 < 256 -> Z.lor b1 (u32 (Z.shiftl b0 8)) = b1 + b0 * 256.
Proof. intros. by fields. Qed.

Lemma or3 b2 b1 b0 :
  0 <= b2 < 256 -> 0 <= b1 < 256 -> 0 <= b0 < 256 ->
  Z.lor (Z.lor b2 (u32 (Z.shiftl b1 8))) (u32 (Z.shiftl b0 16)) =
  b2 + b1 * 256 + b0 * 65536.
Proof. intros. by fields. Qed.

Lemma or4 b3 b2 b1 b0 :
  0 <= b3 < 256 -> 0 <= b2 < 256 -> 0 <= b1 < 256 -> 0 <= b0 < 256 ->
  Z.lor (Z.lor (Z.lor b3 (u32 (Z.shiftl b2 8))) (u32 (Z.shiftl b1 16)))
    (u32 (Z.shiftl b0 24)) =
  b3 + b2 * 256 + b1 * 65536 + b0 * 16777216.
Proof. intros. by fields. Qed.

(** Each read is the big-endian value of the bytes it reads. *)
Definition reads (n : nat) (korr : mem -> Z -> Z) : Prop :=
  forall m A, byte_list (bytes m A (Z.of_nat n)) ->
    korr m A = be_value (bytes m A (Z.of_nat n)).

Ltac numerals :=
  repeat match goal with
  | |- context [Z.of_nat ?n] =>
      let z := eval vm_compute in (Z.of_nat n) in change (Z.of_nat n) with z in *
  end;
  repeat match goal with
  | |- context [2 ^ ?n] => let z := eval vm_compute in (2 ^ n) in change (2 ^ n) with z
  end.

Ltac read_cells :=
  intros m A; rewrite bytes_cells; cbn [map seq be_value length];
  unfold byte_list; rewrite ?Forall_cons; numerals; intros Hb; destruct_and? Hb.

Lemma uint1_reads : reads 1 mi_uint1korr.
Proof.
  read_cells. unfold mi_uint1korr. rewrite !Z.add_0_r in *. rewrite wrap_small; [lia|done].
Qed.

Lemma uint2_reads : reads 2 mi_uint2korr.
Proof.
  read_cells. unfold mi_uint2korr. rewrite (lor_low 8 256) by lia.
  rewrite wrap_small; [lia|]. unfold urange. lia.
Qed.

Lemma uint3_reads : reads 3 mi_uint3korr.
Proof. read_cells. unfold mi_uint3korr. rewrite or3, u32_small by lia. lia. Qed.

Lemma uint4_reads : reads 4 mi_uint4korr.
Proof. read_cells. unfold mi_uint4korr. rewrite or4, u32_small by lia. lia. Qed.

Lemma uint5_reads : reads 5 mi_uint5korr.
Proof. read_cells. unfold mi_uint5korr. rewrite or4, lor32 by lia. lia. Qed.

Lemma uint6_reads : reads 6 mi_uint6korr.
Proof. read_cells. unfold mi_uint6korr. rewrite or4, or2, lor32 by lia. lia. Qed.

Lemma uint7_reads : reads 7 mi_uint7korr.
Proof. read_cells. unfold mi_uint7korr. rewrite or4, or3, lor32 by lia. lia. Qed.

Lemma uint8_reads : reads 8 mi_uint8korr.
Proof. read_cells. unfold mi_uint8korr. rewrite !or4, lor32 by lia. lia. Qed.

(** ** What the stores write *)

Lemma byte_of w A k :
  0 <= k -> k + 8 <= w -> u8 (Z.shiftr (wrap w A) k) = u8 (Z.shiftr A k).
Proof.
  intros Hk Hw. apply Z.bits_inj'. intros n Hn.
  rewrite !wrap_testbit by lia. destruct (Z.ltb_spec n 8); [|done]. cbn [andb].
  rewrite !Z.shiftr_spec, wrap_testbit by lia. by destruct (Z.ltb_spec (n + k) w); [|lia].
Qed.

Lemma byte_of_low w A : 8 <= w -> u8 (wrap w A) = u8 (Z.shiftr A 0).
Proof. intros Hw. by rewrite <- (byte_of w A 0), Z.shiftr_0_r by lia. Qed.

Lemma byte_of_high w A k :
  0 <= k -> k + 8 <= w -> u8 (Z.shiftr (wrap w (Z.shiftr A 32)) k) = u8 (Z.shiftr A (32 + k)).
Proof. intros Hk Hw. by rewrite byte_of, Z.shiftr_shiftr by lia. Qed.

Definition writes (n : nat) (store : mem -> Z -> Z -> mem) : Prop :=
  forall m T A,
    bytes (store m T A) T (Z.of_nat n) = be_bytes n A /\
    forall x, x < T \/ T + Z.of_nat n <= x -> store m T A x = m x.

Ltac write_cells :=
  intros m T A; split;
  [ rewrite bytes_cells; cbn [map seq be_bytes]; numerals; cbv zeta;
    rewrite !poke_off; cbn [Z.eqb Pos.eqb]
  | intros x Hx; cbv zeta; rewrite !poke_ne by lia; reflexivity ].

Lemma int1_writes : writes 1 mi_int1store.
Proof.
  unfold writes, mi_int1store. intros m T A. rewrite (poke_zero m T).
  revert m T A. write_cells. by rewrite Z.shiftr_0_r.
Qed.

Lemma int2_writes : writes 2 mi_int2store.
Proof.
  unfold writes, mi_int2store. write_cells.
  by rewrite byte_of_low, byte_of by lia.
Qed.

Section Writes.

Context (ulong_bits : Z) (Hul : 32 <= ulong_bits).

Lemma int3_writes : writes 3 (mi_int3store ulong_bits).
Proof.
  unfold writes, mi_int3store. write_cells.
  by rewrite byte_of_low, !byte_of by lia.
Qed.

Lemma int4_writes : writes 4 (mi_int4store ulong_bits).
Proof.
  unfold writes, mi_int4store. write_cells.
  by rewrite byte_of_low, !byte_of by lia.
Qed.

Lemma int5_writes : writes 5 (mi_int5store ulong_bits).
Proof.
  unfold writes, mi_int5store. write_cells.
  by rewrite !byte_of_low, !byte_of, !Z.shiftr_shiftr by lia.
Qed.

Lemma int6_writes : writes 6 (mi_int6store ulong_bits).
Proof.
  unfold writes, mi_int6store. write_cells.
  by rewrite !byte_of_low, !byte_of, !Z.shiftr_shiftr by lia.
Qed.

Lemma int7_writes : writes 7 (mi_int7store ulong_bits).
Proof.
  unfold writes, mi_int7store. write_cells.
  by rewrite !byte_of_low, !byte_of, !Z.shiftr_shiftr by lia.
Qed.

(** Two four-byte stores side by side. *)
Lemma int4_pair m T lo hi :
  bytes (mi_int4store ulong_bits (mi_int4store ulong_bits m T hi) (T + 4) lo) T 8 =
    be_bytes 4 hi ++ be_bytes 4 lo /\
  forall x, x < T \/ T + 8 <= x ->
    mi_int4store ulong_bits (mi_int4store ulong_bits m T hi) (T + 4) lo x = m x.
Proof.
  destruct (int4_writes m T hi) as [Hhi Fhi].
  destruct (int4_writes (mi_int4store ulong_bits m T hi) (T + 4) lo) as [Hlo Flo].
  change (Z.of_nat 4) with 4 in *. split.
  - change 8 with (4 + 4). rewrite bytes_app, Hlo, <- Hhi by lia. f_equal.
    apply bytes_agree. intros x Hx. apply Flo. lia.
  - intros x Hx. rewrite Flo by lia. apply Fhi. lia.
Qed.

Lemma int8_writes : writes 8 (mi_int8store ulong_bits).
Proof.
  intros m T A. unfold mi_int8store. cbv zeta. rewrite Z.add_0_r.
  destruct (int4_pair m T (wrap ulong_bits A) (wrap ulong_bits (Z.shiftr A 32)))
    as [Hb Hf].
  split; [|exact Hf]. change (Z.of_nat 8) with 8. rewrite Hb. cbn [be_bytes app].
  numerals. cbn [Z.mul Pos.mul Pos.add].
  by rewrite !byte_of, !Z.shiftr_shiftr by lia.
Qed.

End Writes.

(** ** The stores with their reads *)

Definition codecs (ulong_bits : Z)
    : list (nat * (mem -> Z -> Z -> mem) * (mem -> Z -> Z)) :=
  [(1%nat, mi_int1store, mi_uint1korr); (2%nat, mi_int2store, mi_uint2korr);
   (3%nat, mi_int3store ulong_bits, mi_uint3korr);
   (4%nat, mi_int4store ulong_bits, mi_uint4korr);
   (5%nat, mi_int5store ulong_bits, mi_uint5korr);
   (6%nat, mi_int6store ulong_bits, mi_uint6korr);
   (7%nat, mi_int7store ulong_bits, mi_uint7korr);
   (8%nat, mi_int8store ulong_bits, mi_uint8korr);
   (8%nat, mi_rowstore_big ulong_bits, mi_rowkorr_big);
   (8%nat, mi_sizestore_wide ulong_bits, mi_sizekorr_wide)].

Lemma codecs_ok ulong_bits n store korr :
  32 <= ulong_bits -> In (n, store, korr) (codecs ulong_bits) ->
  writes n store /\ reads n korr.
Proof.
  intros Hul H. unfold codecs in H.
  repeat (destruct H as [[= <- <- <-]|H]); try done;
    eauto using int1_writes, int2_writes, int3_writes, int4_writes, int5_writes,
      int6_writes, int7_writes, int8_writes, uint1_reads, uint2_reads, uint3_reads,
      uint4_reads, uint5_reads, uint6_reads, uint7_reads, uint8_reads.
Qed.

Lemma read_written n store korr m T A :
  writes n store -> reads n korr -> korr (store m T A) T = wrap (8 * Z.of_nat n) A.
Proof.
  intros Hw Hr. destruct (Hw m T A) as [Hb _].
  rewrite Hr, Hb; [apply be_value_bytes|]. rewrite Hb. apply be_bytes_byte.
Qed.

(** Signed reads sign-extend from the stored width. *)
Definition sreads (n : nat) (korr : mem -> Z -> Z) : Prop :=
  forall m A, byte_list (bytes m A (Z.of_nat n)) ->
    korr m A = sgn (8 * Z.of_nat n) (be_value (bytes m A (Z.of_nat n))).

Lemma sint1_reads : sreads 1 mi_sint1korr.
Proof.
  intros m A Hb. rewrite <- (uint1_reads m A Hb). unfold mi_sint1korr, mi_uint1korr.
  symmetry. apply sgn_wrap.
Qed.

Lemma sint2_reads : sreads 2 mi_sint2korr.
Proof.
  intros m A Hb. rewrite <- (uint2_reads m A Hb). unfold mi_sint2korr, mi_uint2korr.
  symmetry. apply sgn_wrap.
Qed.

Lemma sint4_reads : sreads 4 mi_sint4korr.
Proof.
  intros m A Hb. rewrite <- (uint4_reads m A Hb). unfold mi_sint4korr, mi_uint4korr.
  symmetry. apply sgn_wrap.
Qed.

Lemma sint8_reads : sreads 8 mi_sint8korr.
Proof. intros m A Hb. unfold mi_sint8korr. by rewrite (uint8_reads m A Hb). Qed.

Lemma high_bit_byte b : 0 <= b < 256 -> truth (Z.land b 128) = (128 <=? b).
Proof.
  intros Hb. assert (forallb (fun b => eqb (truth (Z.land b 128)) (128 <=? b))
    (seqZ 0 256) = true) as Hall by (by vm_compute).
  rewrite forallb_forall in Hall. apply eqb_prop, Hall.
  apply list_elem_of_In, elem_of_seqZ. lia.
Qed.

Lemma lor_descending b2 b1 b0 :
  0 <= b0 < 256 -> 0 <= b1 < 256 -> 0 <= b2 < 256 ->
  Z.lor (Z.lor (u32 (Z.shiftl b0 16)) (u32 (Z.shiftl b1 8))) b2 =
  b2 + b1 * 256 + b0 * 65536.
Proof.
  intros. rewrite (Z.lor_comm _ b2), (Z.lor_comm (u32 (Z.shiftl b0 16))), Z.lor_assoc.
  by apply or3.
Qed.

Lemma sgn_cases w z :
  urange w z -> 0 < w -> sgn w z = if z <? 2 ^ (w - 1) then z else z - 2 ^ w.
Proof. intros Hz Hw. unfold sgn. by rewrite wrap_small. Qed.

Lemma sint3_reads : sreads 3 mi_sint3korr.
Proof.
  intros m A. rewrite bytes_cells. cbn [map seq be_value length]. unfold byte_list.
  rewrite !Forall_cons. numerals. intros Hb. destruct_and? Hb.
  unfold mi_sint3korr. rewrite high_bit_byte by lia.
  set (b0 := m (A + 0)) in *. set (b1 := m (A + 1)) in *. set (b2 := m (A + 2)) in *.
  rewrite !(sgn_cases (8 * 3)) by (unfold urange; lia). change (2 ^ (8 * 3 - 1)) with 0x800000.
  destruct (Z.leb_spec 128 b0).
  - rewrite <- !Z.lor_assoc, Z.lor_comm, (Z.lor_assoc (u32 (Z.shiftl b0 16))),
      lor_descending by lia.
    rewrite (lor_wrap 32 24 16777216) by lia.
    rewrite (sgn_cases 32) by (unfold urange; lia). zcases; lia.
  - rewrite lor_descending, (sgn_cases 32) by (unfold urange; lia). zcases; lia.
Qed.

Definition signed_codecs (ulong_bits : Z)
    : list (nat * (mem -> Z -> Z -> mem) * (mem -> Z -> Z)) :=
  [(1%nat, mi_int1store, mi_sint1korr); (2%nat, mi_int2store, mi_sint2korr);
   (3%nat, mi_int3store ulong_bits, mi_sint3korr);
   (4%nat, mi_int4store ulong_bits, mi_sint4korr);
   (8%nat, mi_int8store ulong_bits, mi_sint8korr)].

Lemma signed_codecs_ok ulong_bits n store korr :
  32 <= ulong_bits -> In (n, store, korr) (signed_codecs ulong_bits) ->
  writes n store /\ sreads n korr.
Proof.
  intros Hul H. unfold signed_codecs in H.
  repeat (destruct H as [[= <- <- <-]|H]); try done;
    eauto using int1_writes, int2_writes, int3_writes, int4_writes, int8_writes,
      sint1_reads, sint2_reads, sint3_reads, sint4_reads, sint8_reads.
Qed.

(** Every integer store followed by the unsigned read of its width returns
    the value at that width, with a 32-bit or a 64-bit [ulong]; followed by the
    signed read, where the header has one, the value as a two's complement
    number of that width (so the three-byte read extends the sign by hand
    correctly); and no byte outside the field changes. *)
Theorem mi_int_roundtrip (ulong_bits : Z) (n : nat) store korr :
  32 <= ulong_bits ->
  (In (n, store, korr) (codecs ulong_bits) -> forall m T A,
     korr (store m T A) T = wrap (8 * Z.of_nat n) A /\
     (forall x, x < T \/ T + Z.of_nat n <= x -> store m T A x = m x)) /\
  (In (n, store, korr) (signed_codecs ulong_bits) -> forall m T A,
     korr (store m T A) T = sgn (8 * Z.of_nat n) A).
Proof.
  intros Hul. split; intros Hin m T A.
  - destruct (codecs_ok _ _ _ _ Hul Hin) as [Hw Hr].
    split; [by apply read_written|]. apply (Hw m T A).
  - destruct (signed_codecs_ok _ _ _ _ Hul Hin) as [Hw Hr].
    destruct (Hw m T A) as [Hb _].
    rewrite Hr, Hb, be_value_bytes by (rewrite Hb; apply be_bytes_byte).
    apply sgn_wrap.
Qed.

Lemma mi_int_roundtrip_witness :
  mi_sint3korr (mi_int3store 64 (fun _ => 7) 100 (-5)) 100 = sgn 24 (-5).
Proof.
  apply (mi_int_roundtrip 64 3 (mi_int3store 64) mi_sint3korr); [lia|].
  right; right; left; reflexivity.
Defined.

(** Stored integers compare as byte strings the way the numbers compare:
    [memcmp] of two fields of one width gives the order of the unsigned values,
    which is what an index over stored keys relies on. *)
Theorem mi_int_order (ulong_bits : Z) (n : nat) store korr m1 m2 T1 T2 A B :
  32 <= ulong_bits -> In (n, store, korr) (codecs ulong_bits) ->
  memcmp (bytes (store m1 T1 A) T1 (Z.of_nat n)) (bytes (store m2 T2 B) T2 (Z.of_nat n)) =
  (wrap (8 * Z.of_nat n) A ?= wrap (8 * Z.of_nat n) B).
Proof.
  intros Hul Hin. destruct (codecs_ok _ _ _ _ Hul Hin) as [Hw _].
  destruct (Hw m1 T1 A) as [-> _], (Hw m2 T2 B) as [-> _].
  rewrite memcmp_value by (by rewrite ?be_bytes_length || apply be_bytes_byte).
  by rewrite !be_value_bytes.
Qed.

Lemma mi_int_order_witness :
  memcmp (bytes (mi_int4store 32 (fun _ => 0) 8 255) 8 4)
         (bytes (mi_int4store 32 (fun _ => 9) 8 256) 8 4) = Lt.
Proof.
  apply (mi_int_order 32 4 (mi_int4store 32) mi_uint4korr); [lia|].
  do 3 right; left; reflexivity.
Defined.

(** ** Narrow formats *)

Lemma be_value_high_zero l : be_value (be_bytes 4 0 ++ l) = be_value l.
Proof. cbn [be_bytes app be_value]. change (u8 (Z.shiftr 0 _)) with 0. lia. Qed.

Lemma narrow_pair ulong_bits m T A :
  32 <= ulong_bits -> urange 32 A ->
  let m' := mi_int4store ulong_bits (mi_int4store ulong_bits m T 0) (T + 4) A in
  mi_uint4korr m' (T + 4) = A /\ mi_uint8korr m' T = A.
Proof.
  intros Hul HA m'. split.
  - subst m'. rewrite (read_written 4) by eauto using int4_writes, uint4_reads.
    by apply (wrap_small 32).
  - destruct (int4_pair ulong_bits Hul m T A 0) as [Hb _]. fold m' in Hb.
    change 8 with (Z.of_nat 8) in Hb.
    rewrite uint8_reads; rewrite Hb;
      [|apply Forall_app; split; apply be_bytes_byte].
    rewrite be_value_high_zero, be_value_bytes. by apply (wrap_small 32).
Qed.

Lemma offset_error_bytes m T :
  mi_uint4korr (memset m T 255 8) (T + 4) = HA_OFFSET_ERROR /\
  mi_uint8korr (memset m T 255 8) T = u64 (Z.lnot 0).
Proof.
  assert (forall i, 0 <= i < 8 -> memset m T 255 8 (T + i) = 255) as Hm.
  { intros i Hi. unfold memset. zcases; done || lia. }
  unfold mi_uint4korr, mi_uint8korr. rewrite <- !Z.add_assoc, !Hm by lia. done.
Qed.

(** The narrow row-count and file-size formats read back what they store at
    32 bits, with [HA_OFFSET_ERROR] kept, and the eight bytes they write are
    readable by the wide formats: the same count, the same size, and the
    all-ones marker for [HA_OFFSET_ERROR]. *)
Theorem mi_narrow_formats (ulong_bits : Z) (m : mem) (T A : Z) :
  32 <= ulong_bits -> urange 32 A ->
  mi_rowkorr_small (mi_rowstore_small ulong_bits m T A) T = A /\
  mi_rowkorr_big (mi_rowstore_small ulong_bits m T A) T = A /\
  mi_sizekorr_narrow (mi_sizestore_narrow ulong_bits m T A) T = A /\
  mi_sizekorr_wide (mi_sizestore_narrow ulong_bits m T A) T =
    (if A =? HA_OFFSET_ERROR then u64 (Z.lnot 0) else A).
Proof.
  intros Hul HA. destruct (narrow_pair ulong_bits m T A Hul HA) as [H4 H8].
  destruct (offset_error_bytes m T) as [E4 E8].
  unfold mi_rowkorr_small, mi_rowkorr_big, mi_rowstore_small, mi_sizekorr_narrow,
    mi_sizekorr_wide, mi_sizestore_narrow.
  destruct (Z.eqb_spec A HA_OFFSET_ERROR) as [->|]; repeat split; assumption.
Qed.

Lemma mi_narrow_formats_witness :
  mi_rowkorr_big (mi_rowstore_small 64 (fun _ => 0xFF) 16 123456) 16 = 123456.
Proof.
  apply (mi_narrow_formats 64 (fun _ => 0xFF) 16 123456); [lia|by split; vm_compute].
Defined.

(** ** Floats: permuting bytes *)

Definition apart (n a b : Z) : Prop := a + n <= b \/ b + n <= a.

Fixpoint copy_cells (m : mem) (T A : Z) (ps : list (Z * Z)) : mem :=
  match ps with
  | [] => m
  | (i, j) :: ps => copy_cells (poke m (T + i) (m (A + j))) T A ps
  end.

Fixpoint assoc (i : Z) (ps : list (Z * Z)) : option Z :=
  match ps with
  | [] => None
  | (k, j) :: ps => if i =? k then Some j else assoc i ps
  end.

Lemma assoc_fresh i ps : i ∉ ps.*1 -> assoc i ps = None.
Proof.
  induction ps as [|[k j] ps IH]; [done|]. cbn. rewrite not_elem_of_cons.
  intros [Hk Hi]. destruct (Z.eqb_spec i k); [done|]. by apply IH.
Qed.

Lemma assoc_in i ps j : assoc i ps = Some j -> (i, j) ∈ ps.
Proof.
  induction ps as [|[k l] ps IH]; [done|]. cbn. rewrite elem_of_cons.
  destruct (Z.eqb_spec i k); [intros [= ->]; left; congruence|auto].
Qed.

Lemma copy_cells_off n T A ps m i :
  apart n T A -> Forall (fun p : Z * Z => 0 <= p.1 < n /\ 0 <= p.2 < n) ps ->
  NoDup ps.*1 -> 0 <= i < n ->
  copy_cells m T A ps (T + i) =
  match assoc i ps with Some j => m (A + j) | None => m (T + i) end.
Proof.
  intros Hap Hps. revert m. induction Hps as [|[k l] ps [Hk Hl] Hps IH]; intros m Hnd Hi;
    [done|].
  cbn [copy_cells assoc fmap list_fmap fst snd] in *.
  apply NoDup_cons in Hnd as [Hfresh Hnd]. rewrite IH by done.
  destruct (assoc i ps) as [j|] eqn:E.
  - assert (i <> k) by (intros ->; by rewrite assoc_fresh in E).
    destruct (Z.eqb_spec i k); [done|]. apply poke_ne.
    apply assoc_in in E. rewrite Forall_forall in Hps.
    destruct (Hps _ E) as [_ Hj]. unfold apart in Hap. cbn in *. lia.
  - rewrite poke_off. by destruct (Z.eqb_spec i k).
Qed.

Lemma assoc_zip o a (i : nat) :
  assoc (a + Z.of_nat i) (zip (seqZ a (Z.of_nat (length o))) o) = o !! i.
Proof.
  revert a i. induction o as [|j o IH]; intros a i; [by destruct (seqZ _ _)|].
  rewrite seqZ_cons by (cbn; lia). cbn [zip zip_with assoc length].
  destruct i as [|i].
  - by destruct (Z.eqb_spec (a + Z.of_nat 0) a); [|lia].
  - destruct (Z.eqb_spec (a + Z.of_nat (S i)) a); [lia|].
    change ((j :: o) !! S i) with (o !! i).
    rewrite <- (IH (Z.succ a) i). f_equal; [lia|]. do 2 f_equal. lia.
Qed.

(** A byte order [o] of an [n]-byte object, as the pairs a macro copies. *)
Definition pairs (o : list Z) : list (Z * Z) := zip (seqZ 0 (Z.of_nat (length o))) o.

Definition order_ok (o : list Z) : bool :=
  let n := Z.of_nat (length o) in
  forallb (fun p => (0 <=? p.1) && (p.1 <? n) && ((0 <=? p.2) && (p.2 <? n))) (pairs o) &&
  bool_decide (NoDup (pairs o).*1) &&
  forallb (fun i => match assoc i (pairs o) with
                    | Some j => bool_decide (assoc j (pairs o) = Some i)
                    | None => false end) (seqZ 0 n).

Section Order.

Context (o : list Z) (Ho : order_ok o = true).
Let n := Z.of_nat (length o).

Lemma order_cells m T A i :
  apart n T A -> 0 <= i < n ->
  exists j, assoc i (pairs o) = Some j /\ assoc j (pairs o) = Some i /\ 0 <= j < n /\
    copy_cells m T A (pairs o) (T + i) = m (A + j).
Proof.
  intros Hap Hi. unfold order_ok in Ho. rewrite !andb_true_iff in Ho.
  destruct Ho as [[Hr Hnd] Hinv]. rewrite !forallb_forall in *.
  apply bool_decide_eq_true in Hnd.
  specialize (Hinv i ltac:(apply list_elem_of_In, elem_of_seqZ; lia)).
  destruct (assoc i (pairs o)) as [j|] eqn:E; [|done].
  apply bool_decide_eq_true in Hinv. exists j. do 2 (split; [done|]).
  assert (Forall (fun p : Z * Z => 0 <= p.1 < n /\ 0 <= p.2 < n) (pairs o)) as Hps.
  { apply Forall_forall. intros p Hp. apply list_elem_of_In, Hr in Hp. fold n in Hp. lia. }
  split.
  - rewrite Forall_forall in Hps. apply assoc_in, Hps in E. apply E.
  - rewrite (copy_cells_off n) by done. by rewrite E.
Qed.

(** Copying an object out in the order and back restores its bytes. *)
Lemma order_roundtrip m T A d V :
  apart n T A -> apart n d T ->
  bytes (memcpy (copy_cells (copy_cells m T A (pairs o)) d T (pairs o)) V d n) V n =
  bytes m A n.
Proof.
  intros HTA HdT. rewrite memcpy_dst by lia. apply bytes_shift. intros i Hi.
  destruct (order_cells (copy_cells m T A (pairs o)) d T i HdT Hi) as (j & Eij & Eji & Hj & ->).
  destruct (order_cells m T A j HTA Hj) as (k & Ejk & _ & _ & ->). congruence.
Qed.

End Order.

Definition float_formats
    : list (list Z * (mem -> Z -> Z -> mem) * (Z -> mem -> Z -> Z -> mem)) :=
  [([0; 1; 2; 3], mi_float4store_be, mi_float4get_be);
   ([0; 1; 2; 3; 4; 5; 6; 7], mi_float8store_be, mi_float8get_be);
   ([3; 2; 1; 0], mi_float4store_le, mi_float4get_le);
   ([3; 2; 1; 0; 7; 6; 5; 4], mi_float8store_mixed, mi_float8get_mixed);
   ([7; 6; 5; 4; 3; 2; 1; 0], mi_float8store_le, mi_float8get_le)].

Lemma float_formats_ok o store get :
  In (o, store, get) float_formats ->
  order_ok o = true /\
  (forall m T A, store m T A = copy_cells m T A (pairs o)) /\
  (forall d m V M, get d m V M = memcpy (copy_cells m d M (pairs o)) V d (Z.of_nat (length o))).
Proof.
  intros H. unfold float_formats in H.
  repeat (destruct H as [[= <- <- <-]|H]); try done;
    (split; [by vm_compute|split; reflexivity]).
Qed.

(** For every byte order the header handles, the float macros store the
    object's bytes in that order (all reversed on a little-endian machine, the
    two words each reversed in the mixed order), and reading the field back
    through the macro's temporary gives the object's bytes again, as long as
    the field overlaps neither the object nor the temporary. *)
Theorem mi_float_roundtrip (o : list Z) store get (m : mem) (T A d V : Z) :
  In (o, store, get) float_formats ->
  let n := Z.of_nat (length o) in
  apart n T A -> apart n d T ->
  (forall i j, o !! i = Some j -> store m T A (T + Z.of_nat i) = m (A + j)) /\
  bytes (get d (store m T A) V T) V n = bytes m A n.
Proof.
  intros Hin n HTA HdT. destruct (float_formats_ok _ _ _ Hin) as (Ho & Hs & Hg).
  split.
  - intros i j Hij. rewrite Hs.
    assert (0 <= Z.of_nat i < n) as Hi by (apply lookup_lt_Some in Hij; lia).
    destruct (order_cells o Ho m T A (Z.of_nat i) HTA Hi) as (k & Ek & _ & _ & ->).
    unfold pairs in Ek. rewrite <- (Z.add_0_l (Z.of_nat i)), assoc_zip in Ek. congruence.
  - rewrite Hg, Hs. by apply order_roundtrip.
Qed.

Lemma mi_float_roundtrip_witness :
  bytes (mi_float4get_le 300 (mi_float4store_le (fun a => a mod 256) 200 100) 400 200) 400 4
  = [100; 101; 102; 103].
Proof.
  refine (proj2 (mi_float_roundtrip [3; 2; 1; 0] mi_float4store_le mi_float4get_le
    (fun a => a mod 256) 200 100 300 400 _ _ _)).
  - right; right; left; reflexivity.
  - right. vm_compute. discriminate.
  - right. vm_compute. discriminate.
Defined.

End MyIsamPack.
