(* ===== verification/ByteOrder.v ===== *)
(** * The byte-order headers: integers stored low byte first

    [my_byteorder.h] chooses one of three sets of macros: the portable ones of
    [byte_order_generic.h], and those of [byte_order_generic_x86.h] and
    [byte_order_generic_x86_64.h], which use unaligned loads and stores of the
    little-endian machine (and, with gcc, its byte-swap instruction for the
    high-byte-first reads).  The machine's accesses are [load] and [store]; a
    macro is modelled as in [MyIsamPack].  The theorems show that the portable
    macros store and read back every width, and that the optimised ones read
    the same values and leave the same memory. *)

From Stdlib Require Import ZArith Lia.
From stdpp Require Import prelude list_numbers.
From S2P Require Import Prelude Mem MyIsamPack.

Local Open Scope Z_scope.
Local Open Scope cint_scope.

Module ByteOrder.
Import MyIsamPack.

(** ** Little-endian machine accesses *)

Fixpoint le_value (l : list Z) : Z :=
  match l with
  | [] => 0
  | b :: l => b + 256 * le_value l
  end.

Fixpoint le_bytes (n : nat) (a : Z) : list Z :=
  match n with
  | O => []
  | S n => u8 a :: le_bytes n (Z.shiftr a 8)
  end.

Definition load (n : Z) (m : mem) (p : Z) : Z := le_value (bytes m p n).

Definition store (n : Z) (m : mem) (p v : Z) : mem :=
  fun x => if (p <=? x) && (x <? p + n) then u8 (Z.shiftr v (8 * (x - p))) else m x.

Definition bswapq (v : Z) : Z := be_value (le_bytes 8 v).

(** ** [byte_order_generic.h] *)

Module Generic.

Definition sint2korr (m : mem) (A : Z) : Z :=
  sgn 16 (Z.lor (m (A + 0)) (Z.shiftl (m (A + 1)) 8)).

Definition sint3korr (m : mem) (A : Z) : Z :=
  sgn 32
    (if truth (Z.land (m (A + 2)) 128)
     then Z.lor (Z.lor (Z.lor (u32 (Z.shiftl 255 24))
                              (u32 (Z.shiftl (m (A + 2)) 16)))
                       (u32 (Z.shiftl (m (A + 1)) 8)))
                (m (A + 0))
     else Z.lor (Z.lor (u32 (Z.shiftl (m (A + 2)) 16))
                       (u32 (Z.shiftl (m (A + 1)) 8)))
                (m (A + 0))).

Definition sint4korr (m : mem) (A : Z) : Z :=
  sgn 32 (Z.lor (Z.lor (Z.lor (m (A + 0)) (u32 (Z.shiftl (m (A + 1)) 8)))
                       (u32 (Z.shiftl (m (A + 2)) 16)))
                (u32 (Z.shiftl (m (A + 3)) 24))).

Definition uint2korr (m : mem) (A : Z) : Z :=
  u16 (Z.lor (m (A + 0)) (Z.shiftl (m (A + 1)) 8)).

Definition uint3korr (m : mem) (A : Z) : Z :=
  u32 (Z.lor (Z.lor (m (A + 0)) (u32 (Z.shiftl (m (A + 1)) 8)))
             (u32 (Z.shiftl (m (A + 2)) 16))).

Definition uint4korr (m : mem) (A : Z) : Z :=
  u32 (Z.lor (Z.lor (Z.lor (m (A + 0)) (u32 (Z.shiftl (m (A + 1)) 8)))
                    (u32 (Z.shiftl (m (A + 2)) 16)))
             (u32 (Z.shiftl (m (A + 3)) 24))).

Definition uint5korr (m : mem) (A : Z) : Z :=
  Z.lor
    (u64 (Z.lor (Z.lor (Z.lor (m (A + 0)) (u32 (Z.shiftl (m (A + 1)) 8)))
                       (u32 (Z.shiftl (m (A + 2)) 16)))
                (u32 (Z.shiftl (m (A + 3)) 24))))
    (u64 (Z.shiftl (m (A + 4)) 32)).

Definition uint6korr (m : mem) (A : Z) : Z :=
  Z.lor
    (Z.lor
       (u64 (Z.lor (Z.lor (Z.lor (m (A + 0)) (u32 (Z.shiftl (m (A + 1)) 8)))
                          (u32 (Z.shiftl (m (A + 2)) 16)))
                   (u32 (Z.shiftl (m (A + 3)) 24))))
       (u64 (Z.shiftl (m (A + 4)) 32)))
    (u64 (Z.shiftl (m (A + 5)) 40)).

Definition uint8korr (m : mem) (A : Z) : Z :=
  Z.lor
    (u64 (Z.lor (Z.lor (Z.lor (m (A + 0)) (u32 (Z.shiftl (m (A + 1)) 8)))
                       (u32 (Z.shiftl (m (A + 2)) 16)))
                (u32 (Z.shiftl (m (A + 3)) 24))))
    (u64 (Z.shiftl (Z.lor (Z.lor (Z.lor (m (A + 4)) (u32 (Z.shiftl (m (A + 5)) 8)))
                                 (u32 (Z.shiftl (m (A + 6)) 16)))
                          (u32 (Z.shiftl (m (A + 7)) 24))) 32)).

Definition sint8korr (m : mem) (A : Z) : Z := s64 (uint8korr m A).

Definition int2store (m : mem) (T A : Z) : mem :=
  let def_temp := u32 A in
  let m := poke m (T + 0) (u8 def_temp) in
  poke m (T + 1) (u8 (Z.shiftr def_temp 8)).

Definition int3store (m : mem) (T A : Z) : mem :=
  let m := poke m (T + 0) (u8 A) in
  let m := poke m (T + 1) (u8 (Z.shiftr A 8)) in
  poke m (T + 2) (u8 (Z.shiftr A 16)).

Definition int4store (m : mem) (T A : Z) : mem :=
  let m := poke m (T + 0) (u8 A) in
  let m := poke m (T + 1) (u8 (Z.shiftr A 8)) in
  let m := poke m (T + 2) (u8 (Z.shiftr A 16)) in
  poke m (T + 3) (u8 (Z.shiftr A 24)).

Definition int5store (m : mem) (T A : Z) : mem :=
  let m := poke m (T + 0) (u8 A) in
  let m := poke m (T + 1) (u8 (Z.shiftr A 8)) in
  let m := poke m (T + 2) (u8 (Z.shiftr A 16)) in
  let m := poke m (T + 3) (u8 (Z.shiftr A 24)) in
  poke m (T + 4) (u8 (Z.shiftr A 32)).

Definition int6store (m : mem) (T A : Z) : mem :=
  let m := poke m (T + 0) (u8 A) in
  let m := poke m (T + 1) (u8 (Z.shiftr A 8)) in
  let m := poke m (T + 2) (u8 (Z.shiftr A 16)) in
  let m := poke m (T + 3) (u8 (Z.shiftr A 24)) in
  let m := poke m (T + 4) (u8 (Z.shiftr A 32)) in
  poke m (T + 5) (u8 (Z.shiftr A 40)).

Definition int8store (m : mem) (T A : Z) : mem :=
  let def_temp := u32 A in
  let def_temp2 := u32 (Z.shiftr A 32) in
  let m := int4store m T def_temp in
  int4store m (T + 4) def_temp2.

End Generic.

(** ** [byte_order_generic_x86.h], where [long] has 32 bits *)

Module X86.

Definition sint2korr (m : mem) (A : Z) : Z := sgn 16 (load 2 m A).

Definition sint3korr (m : mem) (A : Z) : Z :=
  sgn 32
    (if truth (Z.land (m (A + 2)) 128)
     then Z.lor (Z.lor (Z.lor (u32 (Z.shiftl 255 24))
                              (u32 (Z.shiftl (m (A + 2)) 16)))
                       (u32 (Z.shiftl (m (A + 1)) 8)))
                (m (A + 0))
     else Z.lor (Z.lor (u32 (Z.shiftl (m (A + 2)) 16))
                       (u32 (Z.shiftl (m (A + 1)) 8)))
                (m (A + 0))).

Definition sint4korr (m : mem) (A : Z) : Z := sgn 32 (load 4 m A).
Definition uint2korr (m : mem) (A : Z) : Z := load 2 m A.

Definition uint3korr (m : mem) (A : Z) : Z :=
  u32 (Z.lor (Z.lor (m (A + 0)) (u32 (Z.shiftl (m (A + 1)) 8)))
             (u32 (Z.shiftl (m (A + 2)) 16))).

Definition uint4korr (m : mem) (A : Z) : Z := load 4 m A.

Definition uint5korr (m : mem) (A : Z) : Z :=
  Z.lor
    (u64 (Z.lor (Z.lor (Z.lor (m (A + 0)) (u32 (Z.shiftl (m (A + 1)) 8)))
                       (u32 (Z.shiftl (m (A + 2)) 16)))
                (u32 (Z.shiftl (m (A + 3)) 24))))
    (u64 (Z.shiftl (m (A + 4)) 32)).

Definition uint6korr (m : mem) (A : Z) : Z :=
  Z.lor
    (Z.lor
       (u64 (Z.lor (Z.lor (Z.lor (m (A + 0)) (u32 (Z.shiftl (m (A + 1)) 8)))
                          (u32 (Z.shiftl (m (A + 2)) 16)))
                   (u32 (Z.shiftl (m (A + 3)) 24))))
       (u64 (Z.shiftl (m (A + 4)) 32)))
    (u64 (Z.shiftl (m (A + 5)) 40)).

Definition uint8korr (m : mem) (A : Z) : Z := load 8 m A.
Definition sint8korr (m : mem) (A : Z) : Z := sgn 64 (load 8 m A).

Definition int2store (m : mem) (T A : Z) : mem := store 2 m T (u16 A).

Definition int3store (m : mem) (T A : Z) : mem :=
  let m := poke m (T + 0) (u8 A) in
  let m := poke m (T + 1) (u8 (Z.shiftr (u32 A) 8)) in
  poke m (T + 2) (u8 (Z.shiftr A 16)).

Definition int4store (m : mem) (T A : Z) : mem := store 4 m T (sgn 32 A).

Definition int5store (m : mem) (T A : Z) : mem :=
  let m := poke m (T + 0) (u8 A) in
  let m := poke m (T + 1) (u8 (Z.shiftr A 8)) in
  let m := poke m (T + 2) (u8 (Z.shiftr A 16)) in
  let m := poke m (T + 3) (u8 (Z.shiftr A 24)) in
  poke m (T + 4) (u8 (Z.shiftr A 32)).

Definition int6store (m : mem) (T A : Z) : mem :=
  let m := poke m (T + 0) (u8 A) in
  let m := poke m (T + 1) (u8 (Z.shiftr A 8)) in
  let m := poke m (T + 2) (u8 (Z.shiftr A 16)) in
  let m := poke m (T + 3) (u8 (Z.shiftr A 24)) in
  let m := poke m (T + 4) (u8 (Z.shiftr A 32)) in
  poke m (T + 5) (u8 (Z.shiftr A 40)).

Definition int8store (m : mem) (T A : Z) : mem := store 8 m T (u64 A).

(** A [double] as the two words of [doubleget_union]; [d] is the address of
    the macro's [_tmp], and the final assignment copies that object. *)
Definition doubleget (d : Z) (m : mem) (V M : Z) : mem :=
  let m := store 4 m (d + 0) (sgn 32 (load 4 m M)) in
  let m := store 4 m (d + 4) (sgn 32 (load 4 m (M + 4))) in
  memcpy m V d 8.

Definition doublestore (m : mem) (T V : Z) : mem :=
  let m := store 4 m T (sgn 32 (load 4 m (V + 0))) in
  store 4 m (T + 4) (sgn 32 (load 4 m (V + 4))).

End X86.

(** ** [byte_order_generic_x86_64.h] *)

Module X86_64.

Definition sint2korr (m : mem) (A : Z) : Z := sgn 16 (load 2 m A).

Definition sint3korr (m : mem) (A : Z) : Z :=
  sgn 32
    (if truth (Z.land (m (A + 2)) 128)
     then Z.lor (Z.lor (Z.lor (u32 (Z.shiftl 255 24))
                              (u32 (Z.shiftl (m (A + 2)) 16)))
                       (u32 (Z.shiftl (m (A + 1)) 8)))
                (m (A + 0))
     else Z.lor (Z.lor (u32 (Z.shiftl (m (A + 2)) 16))
                       (u32 (Z.shiftl (m (A + 1)) 8)))
                (m (A + 0))).

Definition sint4korr (m : mem) (A : Z) : Z := sgn 32 (load 4 m A).
Definition uint2korr (m : mem) (A : Z) : Z := u16 (load 2 m A).

Definition uint3korr (m : mem) (A : Z) : Z :=
  u32 (Z.lor (Z.lor (m (A + 0)) (u32 (Z.shiftl (m (A + 1)) 8)))
             (u32 (Z.shiftl (m (A + 2)) 16))).

Definition uint4korr (m : mem) (A : Z) : Z := u32 (load 4 m A).

Definition uint5korr (m : mem) (p : Z) : Z :=
  let a := load 4 m p in
  let b := m (4 + p) in
  Z.lor a (u64 (Z.shiftl b 32)).

Definition uint6korr (m : mem) (p : Z) : Z :=
  let a := load 4 m p in
  let b := load 2 m (4 + p) in
  Z.lor a (u64 (Z.shiftl b 32)).

Definition uint8korr (m : mem) (A : Z) : Z := u64 (load 8 m A).
Definition sint8korr (m : mem) (A : Z) : Z := sgn 64 (load 8 m A).

Definition int2store (m : mem) (T A : Z) : mem := store 2 m T (u16 A).

Definition int3store (m : mem) (T A : Z) : mem :=
  let m := poke m (T + 0) (u8 A) in
  let m := poke m (T + 1) (u8 (Z.shiftr (u32 A) 8)) in
  poke m (T + 2) (u8 (Z.shiftr A 16)).

Definition int4store (m : mem) (T A : Z) : mem := store 4 m T (u32 A).

Definition int5store (m : mem) (T A : Z) : mem :=
  let m := store 4 m T (u32 A) in
  poke m (T + 4) (u8 (Z.shiftr A 32)).

Definition int6store (m : mem) (T A : Z) : mem :=
  let m := store 4 m T (u32 A) in
  store 2 m (T + 4) (u16 (Z.shiftr A 32)).

Definition int8store (m : mem) (T A : Z) : mem := store 8 m T (u64 A).

Definition mi_uint5korr (m : mem) (p : Z) : Z :=
  let a := load 4 m p in
  let b := m (4 + p) in
  let v := u64 (Z.shiftl (Z.lor a (u64 (Z.shiftl b 32))) 24) in
  bswapq v.

Definition mi_uint6korr (m : mem) (p : Z) : Z :=
  let a := load 4 m p in
  let b := load 2 m (4 + p) in
  let v := u64 (Z.shiftl (Z.lor a (u64 (Z.shiftl b 32))) 16) in
  bswapq v.

Definition mi_uint7korr (m : mem) (p : Z) : Z :=
  let a := load 4 m p in
  let b := load 2 m (4 + p) in
  let c := m (6 + p) in
  let v := u64 (Z.shiftl (Z.lor (Z.lor a (u64 (Z.shiftl b 32))) (u64 (Z.shiftl c 48))) 8) in
  bswapq v.

Definition mi_uint8korr (m : mem) (p : Z) : Z :=
  let v := load 8 m p in
  bswapq v.

End X86_64.

(** ** [my_byteorder.h] *)

Definition int4net (m : mem) (A : Z) : Z :=
  sgn 32 (Z.lor (Z.lor (Z.lor (m (A + 3)) (u32 (Z.shiftl (m (A + 2)) 8)))
                       (u32 (Z.shiftl (m (A + 1)) 16)))
                (u32 (Z.shiftl (m (A + 0)) 24))).

(** ** [little_endian.h] and [big_endian.h]

    Floats in machine format, and 16- and 32-bit integers on a big-endian
    machine; [d] is the address of a macro's temporary. *)

Module LittleEndian.

Definition float4get (m : mem) (V M : Z) : mem := memcpy m V M 4.
Definition float4store (m : mem) (T A : Z) : mem := memcpy m T A 4.

Definition doublestore_words (m : mem) (T V : Z) : mem :=
  let m := poke m (T + 0) (m (V + 4)) in
  let m := poke m (T + 1) (m (V + 5)) in
  let m := poke m (T + 2) (m (V + 6)) in
  let m := poke m (T + 3) (m (V + 7)) in
  let m := poke m (T + 4) (m (V + 0)) in
  let m := poke m (T + 5) (m (V + 1)) in
  let m := poke m (T + 6) (m (V + 2)) in
  poke m (T + 7) (m (V + 3)).

Definition doubleget_words (d : Z) (m : mem) (V M : Z) : mem :=
  let m := poke m (d + 0) (m (M + 4)) in
  let m := poke m (d + 1) (m (M + 5)) in
  let m := poke m (d + 2) (m (M + 6)) in
  let m := poke m (d + 3) (m (M + 7)) in
  let m := poke m (d + 4) (m (M + 0)) in
  let m := poke m (d + 5) (m (M + 1)) in
  let m := poke m (d + 6) (m (M + 2)) in
  let m := poke m (d + 7) (m (M + 3)) in
  memcpy m V d 8.

Definition doublestore (m : mem) (T V : Z) : mem := memcpy m T V 8.
Definition doubleget (m : mem) (V M : Z) : mem := memcpy m V M 8.

End LittleEndian.

Module BigEndian.

Definition float4store (m : mem) (T A : Z) : mem :=
  let m := poke m (T + 0) (m (A + 3)) in
  let m := poke m (T + 1) (m (A + 2)) in
  let m := poke m (T + 2) (m (A + 1)) in
  poke m (T + 3) (m (A + 0)).

Definition float4get (d : Z) (m : mem) (V M : Z) : mem :=
  let m := poke m (d + 0) (m (M + 3)) in
  let m := poke m (d + 1) (m (M + 2)) in
  let m := poke m (d + 2) (m (M + 1)) in
  let m := poke m (d + 3) (m (M + 0)) in
  memcpy m V d 4.

Definition float8store (m : mem) (T V : Z) : mem :=
  let m := poke m (T + 0) (m (V + 7)) in
  let m := poke m (T + 1) (m (V + 6)) in
  let m := poke m (T + 2) (m (V + 5)) in
  let m := poke m (T + 3) (m (V + 4)) in
  let m := poke m (T + 4) (m (V + 3)) in
  let m := poke m (T + 5) (m (V + 2)) in
  let m := poke m (T + 6) (m (V + 1)) in
  poke m (T + 7) (m (V + 0)).

Definition float8get (d : Z) (m : mem) (V M : Z) : mem :=
  let m := poke m (d + 0) (m (M + 7)) in
  let m := poke m (d + 1) (m (M + 6)) in
  let m := poke m (d + 2) (m (M + 5)) in
  let m := poke m (d + 3) (m (M + 4)) in
  let m := poke m (d + 4) (m (M + 3)) in
  let m := poke m (d + 5) (m (M + 2)) in
  let m := poke m (d + 6) (m (M + 1)) in
  let m := poke m (d + 7) (m (M + 0)) in
  memcpy m V d 8.

Definition ushortget (m : mem) (M : Z) : Z :=
  u16 (m (M + 1) + Z.shiftl (m (M + 0)) 8).
Definition shortget (m : mem) (M : Z) : Z :=
  sgn 16 (m (M + 1) + Z.shiftl (m (M + 0)) 8).

(** The big-endian machine reads the temporary high byte first. *)
Definition long_temp (d : Z) (m : mem) (M : Z) : mem :=
  let m := poke m (d + 0) (m (M + 0)) in
  let m := poke m (d + 1) (m (M + 1)) in
  let m := poke m (d + 2) (m (M + 2)) in
  poke m (d + 3) (m (M + 3)).

Definition longget (d : Z) (m : mem) (M : Z) : Z :=
  sgn 32 (be_value (bytes (long_temp d m M) d 4)).
Definition ulongget (d : Z) (m : mem) (M : Z) : Z :=
  be_value (bytes (long_temp d m M) d 4).

Definition shortstore (m : mem) (T A : Z) : mem :=
  let def_temp := u32 A in
  let m := poke m (T + 1) (u8 def_temp) in
  poke m (T + 0) (u8 (Z.shiftr def_temp 8)).

Definition longstore (m : mem) (T A : Z) : mem :=
  let m := poke m (T + 3) (u8 A) in
  let m := poke m (T + 2) (u8 (Z.shiftr A 8)) in
  let m := poke m (T + 1) (u8 (Z.shiftr A 16)) in
  poke m (T + 0) (u8 (Z.shiftr A 24)).

End BigEndian.

(** ** Little-endian byte lists *)

Lemma le_bytes_byte n a : byte_list (le_bytes n a).
Proof. revert a. induction n; intros a; constructor; [by apply (wrap_range 8)|apply IHn]. Qed.

Lemma le_value_range l : byte_list l -> 0 <= le_value l < 2 ^ (8 * Z.of_nat (length l)).
Proof.
  induction 1 as [|b l Hb _ IH]; [cbn; lia|]. cbn [le_value length].
  replace (8 * Z.of_nat (S (length l))) with (8 + 8 * Z.of_nat (length l)) by lia.
  rewrite Z.pow_add_r by lia. change (2 ^ 8) with 256. lia.
Qed.

Lemma le_value_bytes n a : le_value (le_bytes n a) = wrap (8 * Z.of_nat n) a.
Proof.
  revert a. induction n as [|n IH]; intros a; [symmetry; apply Z.mod_1_r|].
  cbn [le_bytes le_value]. rewrite IH. unfold wrap. rewrite Z.shiftr_div_pow2 by lia.
  replace (8 * Z.of_nat (S n)) with (8 + 8 * Z.of_nat n) by lia.
  rewrite Z.pow_add_r by lia. change (2 ^ 8) with 256.
  by rewrite (Z.rem_mul_r a) by lia.
Qed.

Lemma le_bytes_value l : byte_list l -> le_bytes (length l) (le_value l) = l.
Proof.
  induction 1 as [|b l Hb _ IH]; [done|]. cbn [le_bytes le_value length].
  replace (u8 (b + 256 * le_value l)) with b.
  - rewrite Z.shiftr_div_pow2 by lia. change (2 ^ 8) with 256.
    replace ((b + 256 * le_value l) / 256) with (le_value l); [by rewrite IH|].
    apply (Z.div_unique_pos _ _ _ b); lia.
  - unfold wrap. apply (Z.mod_unique_pos _ _ (le_value l)); lia.
Qed.

Lemma le_bytes_lookup n a i :
  (i < n)%nat -> le_bytes n a !! i = Some (u8 (Z.shiftr a (8 * Z.of_nat i))).
Proof.
  revert a i. induction n as [|n IH]; intros a i Hi; [lia|].
  destruct i as [|i]; cbn [le_bytes lookup list_lookup].
  - by rewrite Z.shiftr_0_r.
  - change (le_bytes n (Z.shiftr a 8) !! i = Some (u8 (Z.shiftr a (8 * Z.of_nat (S i))))).
    rewrite IH, Z.shiftr_shiftr by lia. do 3 f_equal. lia.
Qed.

Lemma le_bytes_length n a : length (le_bytes n a) = n.
Proof. revert a. induction n; intros a; cbn; f_equal; auto. Qed.

(** ** What the stores write and the reads return *)

Definition lwrites (n : nat) (st : mem -> Z -> Z -> mem) : Prop :=
  forall m T A,
    bytes (st m T A) T (Z.of_nat n) = le_bytes n A /\
    forall x, x < T \/ T + Z.of_nat n <= x -> st m T A x = m x.

Definition lreads (n : nat) (korr : mem -> Z -> Z) : Prop :=
  forall m A, byte_list (bytes m A (Z.of_nat n)) ->
    korr m A = le_value (bytes m A (Z.of_nat n)).

Definition slreads (n : nat) (korr : mem -> Z -> Z) : Prop :=
  forall m A, byte_list (bytes m A (Z.of_nat n)) ->
    korr m A = sgn (8 * Z.of_nat n) (le_value (bytes m A (Z.of_nat n))).

Lemma store_lwrites n : lwrites n (fun m T A => store (Z.of_nat n) m T A).
Proof.
  intros m T A. split.
  - apply list_eq. intros i. rewrite bytes_cells, list_lookup_fmap.
    destruct (decide (i < n)%nat) as [Hi|Hi].
    + rewrite le_bytes_lookup, lookup_seq_lt by done. cbn. unfold store.
      destruct (Z.leb_spec T (T + Z.of_nat i)), (Z.ltb_spec (T + Z.of_nat i) (T + Z.of_nat n));
        try lia. cbn. do 3 f_equal. lia.
    + rewrite !lookup_ge_None_2; rewrite ?le_bytes_length, ?length_seq; done || lia.
  - intros x Hx. unfold store.
    destruct (Z.leb_spec T x), (Z.ltb_spec x (T + Z.of_nat n)); done || lia.
Qed.

(** A store of [n] bytes depends only on the low [8 * n] bits of the value. *)
Lemma le_bytes_ext n a b :
  wrap (8 * Z.of_nat n) a = wrap (8 * Z.of_nat n) b -> le_bytes n a = le_bytes n b.
Proof.
  rewrite <- !le_value_bytes. intros H.
  rewrite <- (le_bytes_value (le_bytes n a)), <- (le_bytes_value (le_bytes n b))
    by apply le_bytes_byte.
  by rewrite !le_bytes_length, H.
Qed.

Lemma lwrites_conv n st f :
  (forall A, wrap (8 * Z.of_nat n) (f A) = wrap (8 * Z.of_nat n) A) ->
  lwrites n st -> lwrites n (fun m T A => st m T (f A)).
Proof.
  intros Hf Hst m T A. destruct (Hst m T (f A)) as [Hb Hx]. split; [|exact Hx].
  rewrite Hb. apply le_bytes_ext, Hf.
Qed.

Lemma wrap_idem w z : 0 <= w -> wrap w (wrap w z) = wrap w z.
Proof. intros Hw. by apply wrap_small, wrap_range. Qed.

Lemma lwrites_agree n st1 st2 m T A x :
  lwrites n st1 -> lwrites n st2 -> st1 m T A x = st2 m T A x.
Proof.
  intros H1 H2. destruct (H1 m T A) as [B1 F1], (H2 m T A) as [B2 F2].
  destruct (decide (x < T \/ T + Z.of_nat n <= x)) as [Hx|Hx]; [by rewrite F1, F2|].
  rewrite <- B2, !bytes_cells in B1.
  apply (f_equal (lookup (Z.to_nat (x - T)))) in B1.
  rewrite !list_lookup_fmap, lookup_seq_lt in B1 by lia. cbn in B1.
  replace (T + Z.of_nat (Z.to_nat (x - T))) with x in B1 by lia. by injection B1.
Qed.

Lemma read_stored n st korr m T A :
  lwrites n st -> lreads n korr -> korr (st m T A) T = wrap (8 * Z.of_nat n) A.
Proof.
  intros Hw Hr. destruct (Hw m T A) as [Hb _].
  rewrite Hr, Hb; [apply le_value_bytes|]. rewrite Hb. apply le_bytes_byte.
Qed.

Lemma sread_stored n st korr m T A :
  lwrites n st -> slreads n korr -> korr (st m T A) T = sgn (8 * Z.of_nat n) A.
Proof.
  intros Hw Hr. destruct (Hw m T A) as [Hb _].
  rewrite Hr, Hb by (rewrite Hb; apply le_bytes_byte).
  rewrite le_value_bytes. apply sgn_wrap.
Qed.

(** ** The portable macros *)

Ltac lread_cells :=
  intros m A; rewrite bytes_cells; cbn [map seq le_value];
  unfold byte_list; rewrite ?Forall_cons; numerals; intros Hb; destruct_and? Hb.

Ltac lwrite_cells :=
  intros m T A; split;
  [ rewrite bytes_cells; cbn [map seq le_bytes]; numerals; cbv zeta;
    rewrite !poke_off; cbn [Z.eqb Pos.eqb]; rewrite ?Z.shiftr_shiftr by lia; cbn [Z.add Pos.add]
  | intros x Hx; cbv zeta; rewrite !poke_ne by lia; reflexivity ].

Lemma g_uint2 : lreads 2 Generic.uint2korr.
Proof.
  lread_cells. unfold Generic.uint2korr. rewrite (lor_low 8 256) by lia.
  rewrite wrap_small; [lia|]. unfold urange. lia.
Qed.

Lemma g_uint3 : lreads 3 Generic.uint3korr.
Proof. lread_cells. unfold Generic.uint3korr. rewrite or3, u32_small by lia. lia. Qed.

Lemma g_uint4 : lreads 4 Generic.uint4korr.
Proof. lread_cells. unfold Generic.uint4korr. rewrite or4, u32_small by lia. lia. Qed.

Lemma g_uint5 : lreads 5 Generic.uint5korr.
Proof. lread_cells. unfold Generic.uint5korr. rewrite or4, lor32 by lia. lia. Qed.

Lemma g_uint6 : lreads 6 Generic.uint6korr.
Proof.
  lread_cells. unfold Generic.uint6korr. rewrite or4, lor32 by lia.
  rewrite (lor_wrap 64 40 0x10000000000) by lia. lia.
Qed.

Lemma g_uint8 : lreads 8 Generic.uint8korr.
Proof. lread_cells. unfold Generic.uint8korr. rewrite !or4, lor32 by lia. lia. Qed.

Lemma g_sint2 : slreads 2 Generic.sint2korr.
Proof.
  intros m A Hb. rewrite <- (g_uint2 m A Hb). unfold Generic.sint2korr, Generic.uint2korr.
  symmetry. apply sgn_wrap.
Qed.

Lemma g_sint4 : slreads 4 Generic.sint4korr.
Proof.
  intros m A Hb. rewrite <- (g_uint4 m A Hb). unfold Generic.sint4korr, Generic.uint4korr.
  symmetry. apply sgn_wrap.
Qed.

Lemma g_sint8 : slreads 8 Generic.sint8korr.
Proof. intros m A Hb. unfold Generic.sint8korr. by rewrite (g_uint8 m A Hb). Qed.

(** The three-byte signed read is the high-byte-first one on reversed bytes. *)
Lemma g_sint3 : slreads 3 Generic.sint3korr.
Proof.
  intros m A Hb. pose (m' := fun x => m (A + 2 - x)).
  replace (Generic.sint3korr m A) with (mi_sint3korr m' 0).
  - rewrite sint3_reads.
    + f_equal. revert Hb. rewrite !bytes_cells. cbn [map seq be_value le_value length].
      numerals. unfold m'. rewrite !Z.add_0_l. intros _.
      replace (A + 2 - 0) with (A + 2) by lia. replace (A + 2 - 1) with (A + 1) by lia.
      replace (A + 2 - 2) with (A + 0) by lia. lia.
    + revert Hb. rewrite !bytes_cells. cbn [map seq]. unfold byte_list. rewrite !Forall_cons.
      numerals. unfold m'. rewrite !Z.add_0_l.
      replace (A + 2 - 0) with (A + 2) by lia. replace (A + 2 - 1) with (A + 1) by lia.
      replace (A + 2 - 2) with (A + 0) by lia. naive_solver.
  - unfold mi_sint3korr, Generic.sint3korr, m'. rewrite !Z.add_0_l.
    replace (A + 2 - 0) with (A + 2) by lia. replace (A + 2 - 1) with (A + 1) by lia.
    by replace (A + 2 - 2) with (A + 0) by lia.
Qed.

Lemma g_int2 : lwrites 2 Generic.int2store.
Proof.
  unfold lwrites, Generic.int2store. lwrite_cells.
  by rewrite byte_of_low, byte_of, Z.shiftr_0_r by lia.
Qed.

Lemma g_int3 : lwrites 3 Generic.int3store.
Proof. unfold lwrites, Generic.int3store. lwrite_cells. done. Qed.

Lemma g_int4 : lwrites 4 Generic.int4store.
Proof. unfold lwrites, Generic.int4store. lwrite_cells. done. Qed.

Lemma g_int5 : lwrites 5 Generic.int5store.
Proof. unfold lwrites, Generic.int5store. lwrite_cells. done. Qed.

Lemma g_int6 : lwrites 6 Generic.int6store.
Proof. unfold lwrites, Generic.int6store. lwrite_cells. done. Qed.

(** Two adjacent stores make one. *)
Lemma lwrites_pair n1 n2 st1 st2 (k : Z) :
  k = Z.of_nat n1 -> lwrites n1 st1 -> lwrites n2 st2 ->
  lwrites (n1 + n2) (fun m T A => st2 (st1 m T A) (T + k) (Z.shiftr A (8 * k))).
Proof.
  intros -> H1 H2 m T A. destruct (H1 m T A) as [B1 F1].
  destruct (H2 (st1 m T A) (T + Z.of_nat n1) (Z.shiftr A (8 * Z.of_nat n1))) as [B2 F2].
  rewrite Nat2Z.inj_add. split.
  - rewrite bytes_app, B2 by lia.
    rewrite (bytes_agree _ (st1 m T A)) by (intros x Hx; apply F2; lia). rewrite B1.
    apply list_eq. intros i. destruct (decide (i < n1 + n2)%nat) as [Hi|Hi].
    + rewrite le_bytes_lookup by done. destruct (decide (i < n1)%nat).
      * rewrite lookup_app_l, le_bytes_lookup by (rewrite ?le_bytes_length; lia). done.
      * rewrite lookup_app_r, le_bytes_length, le_bytes_lookup, Z.shiftr_shiftr
          by (rewrite ?le_bytes_length; lia). do 3 f_equal. lia.
    + rewrite !lookup_ge_None_2; rewrite ?length_app, ?le_bytes_length; done || lia.
  - intros x Hx. rewrite F2 by lia. apply F1. lia.
Qed.

Lemma g_int8 : lwrites 8 Generic.int8store.
Proof.
  pose proof (lwrites_conv 4 _ (wrap 32) (fun A => wrap_idem 32 A ltac:(lia)) g_int4) as H4.
  exact (lwrites_pair 4 4 _ _ 4 eq_refl H4 H4).
Qed.

Definition le_codecs : list (nat * (mem -> Z -> Z -> mem) * (mem -> Z -> Z)) :=
  [(2%nat, Generic.int2store, Generic.uint2korr);
   (3%nat, Generic.int3store, Generic.uint3korr);
   (4%nat, Generic.int4store, Generic.uint4korr);
   (5%nat, Generic.int5store, Generic.uint5korr);
   (6%nat, Generic.int6store, Generic.uint6korr);
   (8%nat, Generic.int8store, Generic.uint8korr)].

Definition le_signed_codecs : list (nat * (mem -> Z -> Z -> mem) * (mem -> Z -> Z)) :=
  [(2%nat, Generic.int2store, Generic.sint2korr);
   (3%nat, Generic.int3store, Generic.sint3korr);
   (4%nat, Generic.int4store, Generic.sint4korr);
   (8%nat, Generic.int8store, Generic.sint8korr)].

Create HintDb korr.
#[local] Hint Resolve g_uint2 g_uint3 g_uint4 g_uint5 g_uint6 g_uint8 g_sint2 g_sint3
  g_sint4 g_sint8 g_int2 g_int3 g_int4 g_int5 g_int6 g_int8 : korr.

Ltac in_table H := repeat (destruct H as [[= <- <- <-]|H]); try done.

Lemma le_codecs_ok n st korr : In (n, st, korr) le_codecs -> lwrites n st /\ lreads n korr.
Proof. intros H. unfold le_codecs in H. in_table H; auto with korr. Qed.

Lemma le_signed_codecs_ok n st korr :
  In (n, st, korr) le_signed_codecs -> lwrites n st /\ slreads n korr.
Proof. intros H. unfold le_signed_codecs in H. in_table H; auto with korr. Qed.

(** Every portable store followed by the unsigned read of its width returns
    the value at that width, followed by the signed read its two's complement
    value, and changes no byte outside the field. *)
Theorem korr_roundtrip (n : nat) st korr :
  (In (n, st, korr) le_codecs -> forall m T A,
     korr (st m T A) T = wrap (8 * Z.of_nat n) A /\
     (forall x, x < T \/ T + Z.of_nat n <= x -> st m T A x = m x)) /\
  (In (n, st, korr) le_signed_codecs -> forall m T A,
     korr (st m T A) T = sgn (8 * Z.of_nat n) A).
Proof.
  split; intros Hin m T A.
  - destruct (le_codecs_ok _ _ _ Hin) as [Hw Hr]. split; [by apply read_stored|].
    apply (Hw m T A).
  - destruct (le_signed_codecs_ok _ _ _ Hin) as [Hw Hr]. by apply sread_stored.
Qed.

Lemma korr_roundtrip_witness :
  Generic.sint3korr (Generic.int3store (fun _ => 0) 40 (-2)) 40 = sgn 24 (-2).
Proof.
  apply (korr_roundtrip 3 Generic.int3store Generic.sint3korr). right; left; reflexivity.
Defined.

(** ** The optimised macros *)

Lemma load_reads n : lreads n (fun m A => load (Z.of_nat n) m A).
Proof. done. Qed.

Lemma load_sreads n : slreads n (fun m A => sgn (8 * Z.of_nat n) (load (Z.of_nat n) m A)).
Proof. done. Qed.

Lemma load_wrap_reads n :
  lreads n (fun m A => wrap (8 * Z.of_nat n) (load (Z.of_nat n) m A)).
Proof.
  intros m A Hb. unfold load. apply wrap_small.
  pose proof (le_value_range _ Hb) as Hr. by rewrite bytes_length, Nat2Z.id in Hr.
Qed.

Lemma y_uint5 : lreads 5 X86_64.uint5korr.
Proof.
  lread_cells. unfold X86_64.uint5korr, load. change (bytes m A 4) with (bytes m A (Z.of_nat 4)).
  rewrite bytes_cells. cbn [map seq le_value]. numerals. rewrite (Z.add_comm 4 A).
  rewrite (lor_wrap 64 32 0x100000000) by lia. lia.
Qed.

Lemma y_uint6 : lreads 6 X86_64.uint6korr.
Proof.
  lread_cells. unfold X86_64.uint6korr, load. rewrite (Z.add_comm 4 A).
  change (bytes m A 4) with (bytes m A (Z.of_nat 4)).
  change (bytes m (A + 4) 2) with (bytes m (A + 4) (Z.of_nat 2)).
  rewrite !bytes_cells. cbn [map seq le_value]. numerals. rewrite <- !Z.add_assoc.
  change (4 + 0) with 4. change (4 + 1) with 5.
  rewrite (lor_wrap 64 32 0x100000000) by lia. lia.
Qed.

Lemma x_int3 : lwrites 3 X86.int3store.
Proof. unfold lwrites, X86.int3store. lwrite_cells. by rewrite byte_of by lia. Qed.

Lemma store_conv n f :
  (forall A, wrap (8 * Z.of_nat n) (f A) = wrap (8 * Z.of_nat n) A) ->
  lwrites n (fun m T A => store (Z.of_nat n) m T (f A)).
Proof. intros Hf. exact (lwrites_conv n _ f Hf (store_lwrites n)). Qed.

Lemma poke_lwrites : lwrites 1 (fun m T A => poke m T (u8 A)).
Proof.
  intros m T A. rewrite (poke_zero m T). revert m T A. lwrite_cells. done.
Qed.

Lemma y_int5 : lwrites 5 X86_64.int5store.
Proof.
  exact (lwrites_pair 4 1 _ _ 4 eq_refl
    (store_conv 4 (wrap 32) (fun A => wrap_idem 32 A ltac:(lia))) poke_lwrites).
Qed.

Lemma y_int6 : lwrites 6 X86_64.int6store.
Proof.
  exact (lwrites_pair 4 2 _ _ 4 eq_refl
    (store_conv 4 (wrap 32) (fun A => wrap_idem 32 A ltac:(lia)))
    (store_conv 2 (wrap 16) (fun A => wrap_idem 16 A ltac:(lia)))).
Qed.

Lemma st_int2 : lwrites 2 X86.int2store.
Proof. exact (store_conv 2 (wrap 16) (fun A => wrap_idem 16 A ltac:(lia))). Qed.

Lemma x_int4 : lwrites 4 X86.int4store.
Proof. exact (store_conv 4 (sgn 32) (fun A => wrap_sgn 32 A ltac:(lia))). Qed.

Lemma y_int4 : lwrites 4 X86_64.int4store.
Proof. exact (store_conv 4 (wrap 32) (fun A => wrap_idem 32 A ltac:(lia))). Qed.

Lemma st_int8 : lwrites 8 X86.int8store.
Proof. exact (store_conv 8 (wrap 64) (fun A => wrap_idem 64 A ltac:(lia))). Qed.

(** The byte swap of a word whose low bytes are zero reads the others high
    byte first. *)
Lemma le_value_zeros k l :
  le_value (replicate k 0 ++ l) = le_value l * 2 ^ (8 * Z.of_nat k).
Proof.
  induction k as [|k IH]; [cbn; lia|]. cbn [replicate app le_value]. rewrite IH.
  replace (8 * Z.of_nat (S k)) with (8 + 8 * Z.of_nat k) by lia.
  rewrite Z.pow_add_r by lia. change (2 ^ 8) with 256. lia.
Qed.

Lemma be_value_zeros k l : be_value (replicate k 0 ++ l) = be_value l.
Proof. induction k as [|k IH]; [done|]. cbn [replicate app be_value]. lia. Qed.

Lemma bswap_reads k (n : nat) v m A :
  (k + n)%nat = 8%nat -> byte_list (bytes m A (Z.of_nat n)) ->
  v = le_value (bytes m A (Z.of_nat n)) ->
  bswapq (u64 (Z.shiftl v (8 * Z.of_nat k))) = be_value (bytes m A (Z.of_nat n)).
Proof.
  intros Hk Hb ->. set (l := bytes m A (Z.of_nat n)) in *.
  assert (length l = n) as Hl by (unfold l; by rewrite bytes_length, Nat2Z.id).
  assert (byte_list (replicate k 0 ++ l)) as Hz.
  { apply Forall_app. split; [|done]. apply Forall_replicate. lia. }
  assert (length (replicate k 0 ++ l) = 8%nat) as H8
    by (rewrite length_app, length_replicate; lia).
  rewrite Z.shiftl_mul_pow2, <- le_value_zeros by lia.
  rewrite wrap_small.
  - unfold bswapq. rewrite <- H8, le_bytes_value by done. apply be_value_zeros.
  - pose proof (le_value_range _ Hz) as Hr. by rewrite H8 in Hr.
Qed.

Lemma y_mi5 : reads 5 X86_64.mi_uint5korr.
Proof. intros m A Hb. exact (bswap_reads 3 5 _ m A eq_refl Hb (y_uint5 m A Hb)). Qed.

Lemma y_mi6 : reads 6 X86_64.mi_uint6korr.
Proof. intros m A Hb. exact (bswap_reads 2 6 _ m A eq_refl Hb (y_uint6 m A Hb)). Qed.

Lemma y_low7 : lreads 7 (fun m p =>
  Z.lor (Z.lor (load 4 m p) (u64 (Z.shiftl (load 2 m (4 + p)) 32)))
        (u64 (Z.shiftl (m (6 + p)) 48))).
Proof.
  lread_cells. unfold load. rewrite (Z.add_comm 4 A), (Z.add_comm 6 A).
  change (bytes m A 4) with (bytes m A (Z.of_nat 4)).
  change (bytes m (A + 4) 2) with (bytes m (A + 4) (Z.of_nat 2)).
  rewrite !bytes_cells. cbn [map seq le_value]. numerals. rewrite <- !Z.add_assoc.
  change (4 + 0) with 4. change (4 + 1) with 5.
  rewrite (lor_wrap 64 32 0x100000000), (lor_wrap 64 48 0x1000000000000) by lia. lia.
Qed.

Lemma y_mi7 : reads 7 X86_64.mi_uint7korr.
Proof. intros m A Hb. exact (bswap_reads 1 7 _ m A eq_refl Hb (y_low7 m A Hb)). Qed.

Lemma y_mi8 : reads 8 X86_64.mi_uint8korr.
Proof.
  intros m A Hb. unfold X86_64.mi_uint8korr.
  rewrite <- (bswap_reads 0 8 (load 8 m A) m A eq_refl Hb eq_refl).
  rewrite Z.shiftl_0_r. f_equal. symmetry. exact (load_wrap_reads 8 m A Hb).
Qed.

(** ** The three sets side by side: portable, x86, x86-64 *)

Definition readers : list (nat * (mem -> Z -> Z) * (mem -> Z -> Z) * (mem -> Z -> Z)) :=
  [(2%nat, Generic.uint2korr, X86.uint2korr, X86_64.uint2korr);
   (3%nat, Generic.uint3korr, X86.uint3korr, X86_64.uint3korr);
   (4%nat, Generic.uint4korr, X86.uint4korr, X86_64.uint4korr);
   (5%nat, Generic.uint5korr, X86.uint5korr, X86_64.uint5korr);
   (6%nat, Generic.uint6korr, X86.uint6korr, X86_64.uint6korr);
   (8%nat, Generic.uint8korr, X86.uint8korr, X86_64.uint8korr)].

Definition signed_readers
    : list (nat * (mem -> Z -> Z) * (mem -> Z -> Z) * (mem -> Z -> Z)) :=
  [(2%nat, Generic.sint2korr, X86.sint2korr, X86_64.sint2korr);
   (3%nat, Generic.sint3korr, X86.sint3korr, X86_64.sint3korr);
   (4%nat, Generic.sint4korr, X86.sint4korr, X86_64.sint4korr);
   (8%nat, Generic.sint8korr, X86.sint8korr, X86_64.sint8korr)].

Definition writers : list (nat * (mem -> Z -> Z -> mem) * (mem -> Z -> Z -> mem) *
                           (mem -> Z -> Z -> mem)) :=
  [(2%nat, Generic.int2store, X86.int2store, X86_64.int2store);
   (3%nat, Generic.int3store, X86.int3store, X86_64.int3store);
   (4%nat, Generic.int4store, X86.int4store, X86_64.int4store);
   (5%nat, Generic.int5store, X86.int5store, X86_64.int5store);
   (6%nat, Generic.int6store, X86.int6store, X86_64.int6store);
   (8%nat, Generic.int8store, X86.int8store, X86_64.int8store)].

Definition mi_readers : list (nat * (mem -> Z -> Z) * (mem -> Z -> Z)) :=
  [(5%nat, mi_uint5korr, X86_64.mi_uint5korr); (6%nat, mi_uint6korr, X86_64.mi_uint6korr);
   (7%nat, mi_uint7korr, X86_64.mi_uint7korr); (8%nat, mi_uint8korr, X86_64.mi_uint8korr)].

Ltac in_table4 H := repeat (destruct H as [[= <- <- <- <-]|H]); try done.

Lemma readers_ok n g x y :
  In (n, g, x, y) readers -> lreads n g /\ lreads n x /\ lreads n y.
Proof.
  intros H. unfold readers in H. in_table4 H;
    (split; [auto with korr|]; split);
    first [exact (load_reads _) | exact (load_wrap_reads _)
          | exact y_uint5 | exact y_uint6 | auto with korr].
Qed.

Lemma signed_readers_ok n g x y :
  In (n, g, x, y) signed_readers -> slreads n g /\ slreads n x /\ slreads n y.
Proof.
  intros H. unfold signed_readers in H. in_table4 H;
    (split; [auto with korr|]; split); first [exact (load_sreads _) | exact g_sint3].
Qed.

Lemma writers_ok n g x y :
  In (n, g, x, y) writers -> lwrites n g /\ lwrites n x /\ lwrites n y.
Proof.
  intros H. unfold writers in H. in_table4 H;
    (split; [auto with korr|]; split);
    first [exact st_int2 | exact x_int3 | exact x_int4 | exact y_int4 | exact y_int5
          | exact y_int6 | exact st_int8 | auto with korr].
Qed.

Lemma mi_readers_ok n g y : In (n, g, y) mi_readers -> reads n g /\ reads n y.
Proof.
  intros H. unfold mi_readers in H. in_table H;
    auto using uint5_reads, uint6_reads, uint7_reads, uint8_reads, y_mi5, y_mi6, y_mi7, y_mi8.
Qed.

(** The macros of the x86 and the x86-64 header read the same values as the
    portable ones from any bytes, unsigned and signed, and their stores leave
    the same memory; and the byte-swapping reads of high-byte-first integers in
    the x86-64 header agree with the portable ones of [myisampack.h]. *)
Theorem x86_macros_equivalent (m : mem) (a : Z) :
  (forall n g x y, In (n, g, x, y) (readers ++ signed_readers) ->
     byte_list (bytes m a (Z.of_nat n)) -> x m a = g m a /\ y m a = g m a) /\
  (forall n g x y, In (n, g, x, y) writers ->
     forall v p, x m a v p = g m a v p /\ y m a v p = g m a v p) /\
  (forall n g y, In (n, g, y) mi_readers ->
     byte_list (bytes m a (Z.of_nat n)) -> y m a = g m a).
Proof.
  split; [|split].
  - intros n g x y Hin Hb. apply in_app_or in Hin as [Hin|Hin].
    + destruct (readers_ok _ _ _ _ Hin) as (Hg & Hx & Hy). by rewrite Hg, Hx, Hy.
    + destruct (signed_readers_ok _ _ _ _ Hin) as (Hg & Hx & Hy). by rewrite Hg, Hx, Hy.
  - intros n g x y Hin v p. destruct (writers_ok _ _ _ _ Hin) as (Hg & Hx & Hy).
    split; by apply (lwrites_agree n).
  - intros n g y Hin Hb. destruct (mi_readers_ok _ _ _ Hin) as (Hg & Hy). by rewrite Hg, Hy.
Qed.

Lemma x86_macros_equivalent_witness :
  X86_64.mi_uint5korr (fun x => x mod 256) 3 = mi_uint5korr (fun x => x mod 256) 3.
Proof.
  apply (x86_macros_equivalent (fun x => x mod 256) 3) with (n := 5%nat).
  - left. reflexivity.
  - vm_compute. repeat constructor; discriminate.
Defined.

(** ** Floats in machine format *)

Definition float_orders
    : list (list Z * (mem -> Z -> Z -> mem) * (Z -> mem -> Z -> Z -> mem)) :=
  [([4; 5; 6; 7; 0; 1; 2; 3], LittleEndian.doublestore_words, LittleEndian.doubleget_words);
   ([3; 2; 1; 0], BigEndian.float4store, BigEndian.float4get);
   ([7; 6; 5; 4; 3; 2; 1; 0], BigEndian.float8store, BigEndian.float8get)].

Lemma float_orders_ok o st get :
  In (o, st, get) float_orders ->
  order_ok o = true /\
  (forall m T A, st m T A = copy_cells m T A (pairs o)) /\
  (forall d m V M, get d m V M = memcpy (copy_cells m d M (pairs o)) V d (Z.of_nat (length o))).
Proof.
  intros H. unfold float_orders in H. in_table H;
    (split; [by vm_compute|split; reflexivity]).
Qed.

(** Storing a float in the low-byte-first format and reading it back restores
    the bytes of the object, on a machine with swapped words or a big-endian
    machine; the plain copies of a little-endian machine do the same. *)
Theorem float_store_get (o : list Z) st get (m : mem) (T A d V : Z) :
  In (o, st, get) float_orders ->
  let n := Z.of_nat (length o) in
  apart n T A -> apart n d T ->
  bytes (get d (st m T A) V T) V n = bytes m A n.
Proof.
  intros Hin n HTA HdT. destruct (float_orders_ok _ _ _ Hin) as (Ho & Hs & Hg).
  rewrite Hg, Hs. by apply order_roundtrip.
Qed.

Lemma float_copies (m : mem) (T A V : Z) :
  bytes (LittleEndian.float4get (LittleEndian.float4store m T A) V T) V 4 = bytes m A 4 /\
  bytes (LittleEndian.doubleget (LittleEndian.doublestore m T A) V T) V 8 = bytes m A 8.
Proof.
  unfold LittleEndian.float4get, LittleEndian.float4store, LittleEndian.doubleget,
    LittleEndian.doublestore. by rewrite !memcpy_dst by lia.
Qed.

(** The word-wise copies of a [double] on x86 copy its bytes. *)
Lemma word_copy m T V :
  byte_list (bytes m V 4) ->
  bytes (store 4 m T (sgn 32 (load 4 m V))) T 4 = bytes m V 4 /\
  forall x, x < T \/ T + 4 <= x -> store 4 m T (sgn 32 (load 4 m V)) x = m x.
Proof.
  intros Hb. destruct (x_int4 m T (load 4 m V)) as [H1 H2]. split; [|exact H2].
  etransitivity; [exact H1|]. unfold load.
  rewrite <- (le_bytes_value (bytes m V 4)) at 2 by done. by rewrite bytes_length.
Qed.

Lemma doublestore_bytes m T V :
  apart 8 T V -> byte_list (bytes m V 8) ->
  bytes (X86.doublestore m T V) T 8 = bytes m V 8 /\
  forall x, x < T \/ T + 8 <= x -> X86.doublestore m T V x = m x.
Proof.
  intros Hap Hb. unfold apart in Hap. unfold X86.doublestore. cbv zeta.
  rewrite Z.add_0_r. change 8 with (4 + 4) in Hb. rewrite bytes_app in Hb by lia.
  apply Forall_app in Hb as [Hb1 Hb2].
  destruct (word_copy m T V Hb1) as [B1 F1].
  set (m1 := store 4 m T (sgn 32 (load 4 m V))) in *.
  assert (bytes m1 (V + 4) 4 = bytes m (V + 4) 4) as E
    by (apply bytes_agree; intros x Hx; apply F1; lia).
  destruct (word_copy m1 (T + 4) (V + 4)) as [B2 F2]; [by rewrite E|]. split.
  - change 8 with (4 + 4). rewrite !bytes_app, B2, E, <- B1 by lia. f_equal.
    apply bytes_agree. intros x Hx. apply F2. lia.
  - intros x Hx. rewrite F2 by lia. apply F1. lia.
Qed.

Theorem x86_double_roundtrip (m : mem) (T V d W : Z) :
  apart 8 T V -> apart 8 d T -> byte_list (bytes m V 8) ->
  bytes (X86.doubleget d (X86.doublestore m T V) W T) W 8 = bytes m V 8.
Proof.
  intros HTV HdT Hb. destruct (doublestore_bytes m T V HTV Hb) as [B1 _].
  assert (X86.doubleget d (X86.doublestore m T V) W T =
    memcpy (X86.doublestore (X86.doublestore m T V) d T) W d 8) as ->.
  { unfold X86.doubleget, X86.doublestore. by rewrite !Z.add_0_r. }
  rewrite memcpy_dst by lia.
  destruct (doublestore_bytes (X86.doublestore m T V) d T HdT) as [B2 _]; [by rewrite B1|].
  by rewrite B2.
Qed.

(** ** Integers in machine format on a big-endian machine *)

Lemma be_shortstore : writes 2 BigEndian.shortstore.
Proof. exact int2_writes. Qed.

Lemma be_longstore : writes 4 BigEndian.longstore.
Proof.
  unfold writes, BigEndian.longstore. write_cells. by rewrite Z.shiftr_0_r.
Qed.

Lemma be_ushortget : reads 2 BigEndian.ushortget.
Proof.
  read_cells. unfold BigEndian.ushortget. rewrite Z.shiftl_mul_pow2 by lia.
  rewrite wrap_small; [lia|]. unfold urange. lia.
Qed.

Lemma long_temp_bytes d m M :
  apart 4 d M -> bytes (BigEndian.long_temp d m M) d 4 = bytes m M 4.
Proof.
  intros Hap.
  assert (order_ok [0; 1; 2; 3] = true) as Ho by (by vm_compute).
  apply bytes_shift. intros i Hi.
  destruct (order_cells [0; 1; 2; 3] Ho m d M i Hap Hi) as (j & Ej & _ & _ & E).
  replace j with i in E; [exact E|].
  assert (i = 0 \/ i = 1 \/ i = 2 \/ i = 3) as Hc by lia.
  destruct Hc as [-> | [-> | [-> | ->]]]; vm_compute in Ej; by injection Ej.
Qed.

Theorem be_machine_roundtrip (m : mem) (T A d : Z) :
  apart 4 d T ->
  BigEndian.ushortget (BigEndian.shortstore m T A) T = wrap 16 A /\
  BigEndian.shortget (BigEndian.shortstore m T A) T = sgn 16 A /\
  BigEndian.ulongget d (BigEndian.longstore m T A) T = wrap 32 A /\
  BigEndian.longget d (BigEndian.longstore m T A) T = sgn 32 A /\
  int4net (BigEndian.longstore m T A) T = sgn 32 A.
Proof.
  intros Hap.
  assert (BigEndian.ushortget (BigEndian.shortstore m T A) T = wrap 16 A) as H16
    by exact (read_written 2 _ _ m T A be_shortstore be_ushortget).
  destruct (be_longstore m T A) as [Hb _].
  split; [done|]. split.
  { rewrite <- (sgn_wrap 16 A), <- H16. unfold BigEndian.ushortget. by rewrite sgn_wrap. }
  unfold BigEndian.ulongget, BigEndian.longget. rewrite long_temp_bytes by done.
  change 4 with (Z.of_nat 4) at 1 2. rewrite Hb, be_value_bytes, sgn_wrap.
  split; [done|]. split; [done|].
  change (int4net (BigEndian.longstore m T A) T) with (mi_sint4korr (BigEndian.longstore m T A) T).
  rewrite sint4_reads, Hb, be_value_bytes by (rewrite Hb; apply be_bytes_byte).
  apply sgn_wrap.
Qed.

End ByteOrder.
