(* ===== verification/BinaryString.v ===== *)
(** * [Binary_string] of [sql_string.h]: growing byte strings

    A string object points to a buffer it may or may not own ([alloced]).  The
    world holds the bytes of memory, the areas that belong to some live
    object, and the heap blocks that [my_malloc] handed out.  An operation
    takes the object and the world and returns the new ones; [None] is an
    undefined step: a failed assertion, a write outside the buffer, a [my_free]
    of an address that is not a live block.  A returned [true] is the error
    result of the source (out of memory).

    [realloc_raw] and [real_alloc] are implemented outside the header: they are
    parameters here, and [realloc_law] states what the header's functions rely
    on.  [bump] at the end of the file is an allocator that satisfies it. *)

From Stdlib Require Import ZArith Lia.
From stdpp Require Import prelude list_numbers sorting.
From S2P Require Import Prelude Mem.

Local Open Scope Z_scope.
Local Open Scope cint_scope.

Module BinaryString.

Record bstr : Type := Bstr {
  Ptr : Z;
  str_length : Z;
  Alloced_length : Z;
  extra_alloc : Z;
  alloced : bool;
  thread_specific : bool;
}.

Record world : Type := World {
  cells : mem;
  areas : list (Z * Z);
  live : list Z;
}.

(** [x] lies in one of the areas (address and size) some object occupies. *)
Definition used (w : world) (x : Z) : bool :=
  existsb (fun r => (r.1 <=? x) && (x <? r.1 + r.2)) (areas w).

Definition set_cells (w : world) (m : mem) : world := World m (areas w) (live w).

(** [Ptr[i] = c]: defined inside the buffer only. *)
Definition put (s : bstr) (w : world) (i c : Z) : option world :=
  if (0 <=? i) && (i <? Alloced_length s)
  then Some (set_cells w (fun x => if x =? Ptr s + i then c else cells w x))
  else None.

Definition my_free (w : world) (p : Z) : option world :=
  if p =? 0 then Some w
  else if bool_decide (p ∈ live w)
  then Some (World (cells w) (areas w) (filter (fun q => q <> p) (live w)))
  else None.

Definition ASSERT_LENGTH (s : bstr) (A : Z) : bool :=
  u32 (str_length s + u32 A) <=? Alloced_length s.

(** ** Construction and simple members *)

Definition init_private_data : bstr := Bstr 0 0 0 0 false false.

Definition free_buffer (s : bstr) (w : world) : option (bstr * world) :=
  if alloced s
  then w ← my_free w (Ptr s);
       Some (Bstr (Ptr s) (str_length s) (Alloced_length s) (extra_alloc s) false
                  (thread_specific s), w)
  else Some (s, w).

Definition construct : bstr := init_private_data.

Definition construct_const (str len : Z) : bstr := Bstr str (u32 len) 0 0 false false.

Definition construct_buffer (str len : Z) : bstr :=
  Bstr str (u32 len) (u32 len) 0 false false.

Definition construct_copy (str : bstr) : bstr :=
  Bstr (Ptr str) (str_length str) (Alloced_length str) 0 false false.

Definition length_ (s : bstr) : Z := str_length s.

Definition set_length (s : bstr) (len : Z) : bstr :=
  Bstr (Ptr s) (u32 len) (Alloced_length s) (extra_alloc s) (alloced s) (thread_specific s).

Definition is_empty (s : bstr) : bool := str_length s =? 0.
Definition ptr (s : bstr) : Z := Ptr s.
Definition end_ (s : bstr) : Z := Ptr s + str_length s.

Definition my_isascii (c : Z) : bool := negb (truth (Z.land c (Z.lnot 127))).

Fixpoint has_8bit_loop (n : nat) (m : mem) (c c_end : Z) : bool :=
  match n with
  | O => false
  | S n => if c <? c_end
           then if negb (my_isascii (m c)) then true else has_8bit_loop n m (c + 1) c_end
           else false
  end.

Definition has_8bit_bytes (s : bstr) (w : world) : bool :=
  has_8bit_loop (Z.to_nat (str_length s)) (cells w) (ptr s) (end_ s).

Definition bin_eq (s other : bstr) (w : world) : bool :=
  (length_ s =? length_ other) &&
  bool_decide (bytes (cells w) (ptr s) (length_ s) = bytes (cells w) (ptr other) (length_ s)).

(** [strlen]: the distance to the first zero byte, looking [n] bytes far. *)
Fixpoint strlen (n : nat) (m : mem) (p : Z) : option Z :=
  match n with
  | O => None
  | S n => if m p =? 0 then Some 0 else z ← strlen n m (p + 1); Some (z + 1)
  end.

Definition chop (s : bstr) (w : world) : option (bstr * world) :=
  if truth (str_length s)
  then
    let s := set_length s (str_length s - 1) in
    w ← put s w (str_length s) 0;
    if bool_decide (strlen (S (Z.to_nat (str_length s))) (cells w) (Ptr s) = Some (str_length s))
    then Some (s, w) else None
  else Some (s, w).

(** ** Appending inside the buffer *)

Definition q_append_char (s : bstr) (w : world) (c : Z) : option (bstr * world) :=
  if ASSERT_LENGTH s 1
  then w ← put s w (str_length s) c;
       Some (set_length s (str_length s + 1), w)
  else None.

Definition memcpy_in (s : bstr) (w : world) (off src n : Z) : option world :=
  if (0 <=? off) && (off + n <=? Alloced_length s)
  then Some (set_cells w (memcpy (cells w) (Ptr s + off) src n))
  else None.

Definition q_append (s : bstr) (w : world) (data data_len : Z) : option (bstr * world) :=
  if ASSERT_LENGTH s data_len
  then w ← (if truth data_len then memcpy_in s w (str_length s) data data_len else Some w);
       if str_length s <=? 0xFFFFFFFF - data_len
       then Some (set_length s (str_length s + u32 data_len), w)
       else None
  else None.

Definition qs_append_char (s : bstr) (w : world) (c : Z) : option (bstr * world) :=
  if ASSERT_LENGTH s 1
  then w ← put s w (str_length s) c;
       Some (set_length s (str_length s + 1), w)
  else None.

(** ** Buffer management *)

Definition set_thread_specific (s : bstr) : bstr :=
  if negb (alloced s)
  then Bstr (Ptr s) (str_length s) (Alloced_length s) (extra_alloc s) (alloced s) true
  else s.

Definition is_alloced (s : bstr) : bool := alloced s.
Definition alloced_length (s : bstr) : Z := Alloced_length s.
Definition extra_allocation (s : bstr) : Z := extra_alloc s.

Definition set_extra_allocation (s : bstr) (len : Z) : bstr :=
  Bstr (Ptr s) (str_length s) (Alloced_length s) (u32 len) (alloced s) (thread_specific s).

Definition mark_as_const (s : bstr) : bstr :=
  Bstr (Ptr s) (str_length s) 0 (extra_alloc s) (alloced s) (thread_specific s).

Definition uses_buffer_owned_by (this s : bstr) : bool :=
  alloced s && (Ptr s <=? Ptr this) && (Ptr this <? Ptr s + Alloced_length s).

(** [swap] leaves [extra_alloc] and [thread_specific] where they are. *)
Definition swap (this s : bstr) : bstr * bstr :=
  (Bstr (Ptr s) (str_length s) (Alloced_length s) (extra_alloc this) (alloced s)
        (thread_specific this),
   Bstr (Ptr this) (str_length this) (Alloced_length this) (extra_alloc s) (alloced this)
        (thread_specific s)).

Definition set_alloced (s : bstr) (w : world) (str length alloced_length : Z)
    : option (bstr * world) :=
  '(s, w) ← free_buffer s w;
  if alloced_length <? 0xFFFFFFFF
  then Some (Bstr str (u32 length) (u32 alloced_length) (extra_alloc s) (alloced s)
                  (thread_specific s), w)
  else None.

Definition set_buffer (s : bstr) (w : world) (str arg_length : Z) : option (bstr * world) :=
  set_alloced s w str arg_length arg_length.

Definition set_const (s : bstr) (w : world) (str length : Z) : option (bstr * world) :=
  '(s, w) ← free_buffer s w;
  Some (Bstr str (u32 length) 0 (extra_alloc s) (alloced s) (thread_specific s), w).

(** [set] of a part of another string; the two objects are distinct. *)
Definition set_part (s : bstr) (w : world) (str : bstr) (offset length : Z)
    : option (bstr * world) :=
  '(s, w) ← free_buffer s w;
  Some (Bstr (Ptr str + offset) (u32 length)
             (if truth (Alloced_length str) then u32 (Alloced_length str - offset) else 0)
             (extra_alloc s) (alloced s) (thread_specific s), w).

Definition to_lex_cstring (s : bstr) : Z * Z := (Ptr s, str_length s).

Definition reset (s : bstr) (w : world) (ptr_arg length_arg alloced_length_arg : Z)
    : option (bstr * world) :=
  '(s, w) ← set_alloced s w ptr_arg length_arg alloced_length_arg;
  Some (Bstr (Ptr s) (str_length s) (Alloced_length s) (extra_alloc s)
             (negb (ptr_arg =? 0)) (thread_specific s), w).

Definition release (s : bstr) : Z * bstr := (Ptr s, init_private_data).

(** The length is left undefined: [undef] is the value it then has. *)
Definition set_buffer_if_not_allocated (undef : Z) (s : bstr) (str arg_length : Z) : bstr :=
  if negb (alloced s)
  then Bstr str undef (u32 arg_length) (extra_alloc s) (alloced s) (thread_specific s)
  else Bstr (Ptr s) undef (Alloced_length s) (extra_alloc s) (alloced s) (thread_specific s).

(** Assignment from a distinct object. *)
Definition assign (this : bstr) (w : world) (s : bstr) : option (bstr * world) :=
  if uses_buffer_owned_by s this then None
  else set_alloced this w (Ptr s) (str_length s) (Alloced_length s).

Definition free (s : bstr) (w : world) : option (bstr * world) :=
  '(s, w) ← free_buffer s w;
  Some (Bstr 0 0 0 0 (alloced s) (thread_specific s), w).

Definition destruct_ (s : bstr) (w : world) : option (bstr * world) := free s w.

(** [move] from a distinct object; both objects change. *)
Definition move (this : bstr) (w : world) (s : bstr) : option (bstr * bstr * world) :=
  '(this, w) ← set_alloced this w (Ptr s) (str_length s) (Alloced_length s);
  Some (Bstr (Ptr this) (str_length this) (Alloced_length this) (extra_alloc s) (alloced s)
             (thread_specific s),
        Bstr (Ptr s) (str_length s) (Alloced_length s) (extra_alloc s) false
             (thread_specific s), w).

(** ** Growing *)

Section Grow.

Variable realloc_raw : bstr -> world -> Z -> bool * bstr * world.
Variable real_alloc : bstr -> world -> Z -> bool * bstr * world.
Variable dig_vec_lower : Z -> Z.

Definition construct_alloc (w : world) (length_arg : Z) : bstr * world :=
  let '(_, s, w) := real_alloc init_private_data w length_arg in (s, w).

Definition alloc (s : bstr) (w : world) (arg_length : Z) : bool * bstr * world :=
  if (arg_length <=? Alloced_length s) && truth (Alloced_length s)
  then (false, s, w)
  else real_alloc s w arg_length.

Definition realloc (s : bstr) (w : world) (arg_length : Z) : option (bool * bstr * world) :=
  let '(failed, s, w) := realloc_raw s w (u64 (arg_length + 1)) in
  if failed then Some (true, s, w)
  else w ← put s w arg_length 0; Some (false, s, w).

Definition realloc_with_extra (s : bstr) (w : world) (arg_length : Z)
    : option (bool * bstr * world) :=
  let s := if extra_alloc s <? 4096
           then Bstr (Ptr s) (str_length s) (Alloced_length s) (u32 (extra_alloc s * 2 + 128))
                     (alloced s) (thread_specific s)
           else s in
  let '(failed, s, w) := realloc_raw s w (u64 (arg_length + extra_alloc s)) in
  if failed then Some (true, s, w)
  else w ← put s w arg_length 0; Some (false, s, w).

Definition realloc_with_extra_if_needed (s : bstr) (w : world) (arg_length : Z)
    : option (bool * bstr * world) :=
  if arg_length <? Alloced_length s
  then w ← put s w arg_length 0; Some (false, s, w)
  else realloc_with_extra s w arg_length.

Definition append (s : bstr) (w : world) (src size : Z) : option (bool * bstr * world) :=
  if negb (truth size) then Some (false, s, w)
  else
    '(failed, s, w) ← realloc_with_extra_if_needed s w (u64 (str_length s + size));
    if (failed : bool) then Some (true, s, w)
    else '(s, w) ← q_append s w src size; Some (false, s, w).

Definition append_string (s : bstr) (w : world) (other : bstr) : option (bool * bstr * world) :=
  append s w (ptr other) (length_ other).

Definition append_char (s : bstr) (w : world) (chr : Z) : option (bool * bstr * world) :=
  if str_length s <? Alloced_length s
  then w ← put s w (str_length s) chr;
       Some (false, set_length s (str_length s + 1), w)
  else
    '(failed, s, w) ← realloc_with_extra s w (u32 (str_length s + 1));
    if (failed : bool) then Some (true, s, w)
    else w ← put s w (str_length s) chr;
         Some (false, set_length s (str_length s + 1), w).

Fixpoint append_hex_loop (n : nat) (s : bstr) (w : world) (src : Z)
    : option (bool * bstr * world) :=
  match n with
  | O => Some (false, s, w)
  | S n =>
      let c := u8 (cells w src) in
      '(failed, s, w) ← append_char s w (dig_vec_lower (Z.shiftr c 4));
      if (failed : bool) then Some (true, s, w)
      else
        let c := u8 (cells w src) in
        '(failed, s, w) ← append_char s w (dig_vec_lower (Z.land c 15));
        if (failed : bool) then Some (true, s, w)
        else append_hex_loop n s w (src + 1)
  end.

Definition append_hex (s : bstr) (w : world) (src srclen : Z) : option (bool * bstr * world) :=
  append_hex_loop (Z.to_nat srclen) s w src.

Definition append_with_step (s : bstr) (w : world) (src arg_length step_alloc : Z)
    : option (bool * bstr * world) :=
  let new_length := u32 (arg_length + str_length s) in
  '(failed, s, w) ← (if Alloced_length s <? new_length
                     then realloc s w (u32 (new_length + step_alloc))
                     else Some (false, s, w));
  if (failed : bool) then Some (true, s, w)
  else '(s, w) ← q_append s w src arg_length; Some (false, s, w).

(** [c_ptr] returns the address of the constant [empty_str] for a null buffer;
    reading the byte after the string needs it to be in use. *)
Definition c_ptr (empty_str : Z) (s : bstr) (w : world) : option (Z * bstr * world) :=
  if Ptr s =? 0 then Some (empty_str, s, w)
  else if negb (alloced s) && negb (used w (Ptr s + str_length s)) then None
  else if negb (alloced s) && (cells w (Ptr s + str_length s) =? 0) then Some (Ptr s, s, w)
  else if str_length s <? Alloced_length s
  then w ← put s w (str_length s) 0; Some (Ptr s, s, w)
  else '(_, s, w) ← realloc s w (str_length s); Some (Ptr s, s, w).

Definition c_ptr_safe (s : bstr) (w : world) : option (Z * bstr * world) :=
  if negb (Ptr s =? 0) && (str_length s <? Alloced_length s)
  then w ← put s w (str_length s) 0; Some (Ptr s, s, w)
  else '(_, s, w) ← realloc s w (str_length s); Some (Ptr s, s, w).

Definition c_ptr_quick (s : bstr) (w : world) : option (Z * bstr * world) := c_ptr_safe s w.

Definition reserve (s : bstr) (w : world) (space_needed : Z) : option (bool * bstr * world) :=
  if str_length s + space_needed <? 0xFFFFFFFF
  then realloc s w (u64 (str_length s + space_needed))
  else None.

Definition prep_append (s : bstr) (w : world) (arg_length step_alloc : Z)
    : option (Z * bstr * world) :=
  let new_length := u32 (arg_length + str_length s) in
  '(failed, s, w) ← (if Alloced_length s <? new_length
                     then realloc s w (u32 (new_length + step_alloc))
                     else Some (false, s, w));
  if (failed : bool) then Some (0, s, w)
  else
    let old_length := str_length s in
    Some (Ptr s + old_length, set_length s (str_length s + arg_length), w).

End Grow.

(** ** What the header relies on

    [in_buf] is the writable buffer; the contents of a string that does not
    own a writable buffer ([Alloced_length] 0) lie elsewhere. *)

Definition in_buf (s : bstr) (x : Z) : Prop := Ptr s <= x < Ptr s + Alloced_length s.

Definition contents (s : bstr) (w : world) : list Z := bytes (cells w) (Ptr s) (str_length s).

Record obj_ok (s : bstr) (w : world) : Prop := {
  ok_length : urange 32 (str_length s);
  ok_alloced : urange 32 (Alloced_length s);
  ok_extra : urange 32 (extra_alloc s);
  ok_fits : Alloced_length s = 0 \/ str_length s <= Alloced_length s;
  ok_used : forall x, in_buf s x -> used w x = true;
  ok_null : Ptr s = 0 -> Alloced_length s = 0;
}.

(** The block a string owns, as a list of at most one address. *)
Definition own (s : bstr) : list Z := if alloced s then [Ptr s] else [].

(** [realloc_raw s w n] makes room for [n] bytes and keeps the string, or fails
    and changes nothing; a grown buffer is heap memory nobody else uses, and a
    buffer the string owned goes back to the heap. *)
Definition realloc_law (realloc_raw : bstr -> world -> Z -> bool * bstr * world) : Prop :=
  forall s w n failed s' w',
    obj_ok s w -> str_length s < n ->
    realloc_raw s w n = (failed, s', w') ->
    if failed : bool then s' = s /\ w' = w
    else
      n <= Alloced_length s' /\ urange 32 (Alloced_length s') /\
      str_length s' = str_length s /\ extra_alloc s' = extra_alloc s /\
      contents s' w' = contents s w /\ Ptr s' <> 0 /\
      (forall x, in_buf s' x -> used w' x = true) /\
      (forall x, used w x = true -> ~ in_buf s x ->
         used w' x = true /\ cells w' x = cells w x /\ ~ in_buf s' x).

(** ** Appending *)

Section Append.

Context (realloc_raw : bstr -> world -> Z -> bool * bstr * world).
Context (Hlaw : realloc_law realloc_raw).
Context (dig_vec_lower : Z -> Z).

(** Addresses of other objects, with the bytes they hold. *)
Context (F : Z -> Prop) (m0 : mem).

Record inv (s : bstr) (w : world) (l : list Z) : Prop := {
  inv_ok : obj_ok s w;
  inv_contents : contents s w = l;
  inv_foreign : forall x, F x -> used w x = true /\ cells w x = m0 x /\ ~ in_buf s x;
}.

Lemma inv_length s w l : inv s w l -> str_length s = Z.of_nat (length l).
Proof.
  intros [[[H _] _ _ _ _ _] <- _]. unfold contents. rewrite bytes_length. lia.
Qed.

Lemma put_keeps s w l i c :
  inv s w l -> str_length s <= i < Alloced_length s ->
  exists w', put s w i c = Some w' /\ inv s w' l /\ cells w' (Ptr s + i) = c.
Proof.
  intros [Hok Hc HF] Hi. pose proof (ok_length _ _ Hok) as [Hl _].
  unfold put. destruct (Z.leb_spec 0 i), (Z.ltb_spec i (Alloced_length s)); try lia.
  eexists. split; [reflexivity|]. split; [|cbn; by rewrite Z.eqb_refl].
  split; [by destruct Hok| |].
  - rewrite <- Hc. apply bytes_agree. intros x Hx. cbn. zcases; done || lia.
  - intros x Hx. destruct (HF x Hx) as (Hu & Hm & Hb). split; [done|]. split; [|done].
    cbn. destruct (Z.eqb_spec x (Ptr s + i)) as [->|]; [|done].
    destruct Hb. unfold in_buf. lia.
Qed.

Lemma put_push s w l c :
  inv s w l -> str_length s < Alloced_length s ->
  exists w', put s w (str_length s) c = Some w' /\
    inv (set_length s (str_length s + 1)) w' (l ++ [c]).
Proof.
  intros Hinv Hlt. destruct (put_keeps s w l (str_length s) c Hinv) as (w' & Hp & Hinv' & Hcell);
    [lia|].
  exists w'. split; [done|]. destruct Hinv' as [Hok Hc HF].
  pose proof Hok as [[Hl1 Hl2] [Ha1 Ha2] ? ? ? ?].
  assert (u32 (str_length s + 1) = str_length s + 1) as E by (apply u32_small; lia).
  split; cbn.
  - split; cbn; rewrite ?E; unfold urange in *; done || lia.
  - unfold contents. cbn. rewrite E, bytes_app by lia. f_equal; [done|].
    by rewrite bytes_one, Hcell.
  - exact HF.
Qed.

(** What a successful or failed call of [realloc_raw] leaves. *)
Lemma raw_inv s w l n failed s' w' :
  inv s w l -> str_length s < n -> realloc_raw s w n = (failed, s', w') ->
  inv s' w' l /\ str_length s' = str_length s /\ extra_alloc s' = extra_alloc s /\
  (failed = false -> n <= Alloced_length s').
Proof.
  intros [Hok Hc HF] Hn Hr. pose proof (Hlaw _ _ _ _ _ _ Hok Hn Hr) as H.
  destruct failed.
  - destruct H as [-> ->]. by split.
  - destruct H as (Hle & Ha & Hl & He & Hcc & Hp & Hu & Hfr).
    split; [|by repeat split]. destruct Hok as [? _ ? _ _ _]. split.
    + split; rewrite ?Hl, ?He; try done. right. lia.
    + congruence.
    + intros x Hx. destruct (HF x Hx) as (Hux & Hm & Hb).
      destruct (Hfr x Hux Hb) as (? & ? & ?). split; [done|]. split; [congruence|done].
Qed.

Definition grown (n : Z) (r : option (bool * bstr * world)) (s : bstr) (l : list Z) : Prop :=
  exists failed s' w', r = Some (failed, s', w') /\ inv s' w' l /\
    str_length s' = str_length s /\ (failed = false -> n < Alloced_length s').

Lemma realloc_grows s w l n :
  inv s w l -> str_length s <= n < 2 ^ 63 -> grown n (realloc realloc_raw s w n) s l.
Proof.
  intros Hinv Hn. pose proof (inv_length _ _ _ Hinv). unfold realloc, grown.
  rewrite u64_small by lia.
  destruct (realloc_raw s w (n + 1)) as [[failed s'] w'] eqn:Hr.
  assert (str_length s < n + 1) as Hn1 by lia.
  destruct (raw_inv s w l _ _ _ _ Hinv Hn1 Hr) as (Hinv' & Hl & He & Hf).
  destruct failed; [by exists true, s', w'|]. specialize (Hf eq_refl).
  destruct (put_keeps s' w' l n 0 Hinv') as (w2 & -> & Hinv2 & _); [lia|].
  exists false, s', w2. repeat (split; [done|]). lia.
Qed.

Definition bump_extra (s : bstr) : bstr :=
  if extra_alloc s <? 4096
  then Bstr (Ptr s) (str_length s) (Alloced_length s) (u32 (extra_alloc s * 2 + 128))
            (alloced s) (thread_specific s)
  else s.

Lemma bump_extra_inv s w l :
  inv s w l -> inv (bump_extra s) w l /\ str_length (bump_extra s) = str_length s /\
  0 < extra_alloc (bump_extra s) < 2 ^ 32.
Proof.
  intros [Hok Hc HF]. destruct Hok as [? ? [He1 He2] ? ? ?]. unfold bump_extra.
  destruct (Z.ltb_spec (extra_alloc s) 4096); cbn.
  - rewrite u32_small by lia. split; [|split; [done|lia]].
    split; [|done|done]. split; try done. cbn. unfold urange. lia.
  - by split; [|split; [|lia]].
Qed.

Lemma realloc_with_extra_grows s w l n :
  inv s w l -> str_length s <= n < 2 ^ 63 ->
  grown n (realloc_with_extra realloc_raw s w n) s l.
Proof.
  intros Hinv Hn. unfold realloc_with_extra, grown. fold (bump_extra s).
  destruct (bump_extra_inv s w l Hinv) as (Hinv1 & Hl1 & He1).
  pose proof (inv_length _ _ _ Hinv1). rewrite u64_small by lia.
  destruct (realloc_raw (bump_extra s) w _) as [[failed s'] w'] eqn:Hr.
  assert (str_length (bump_extra s) < n + extra_alloc (bump_extra s)) as Hn1 by lia.
  destruct (raw_inv _ w l _ _ _ _ Hinv1 Hn1 Hr) as (Hinv' & Hl & He & Hf).
  destruct failed; [exists true, s', w'; repeat (split; [done|]); split; [congruence|done]|].
  specialize (Hf eq_refl).
  destruct (put_keeps s' w' l n 0 Hinv') as (w2 & -> & Hinv2 & _); [lia|].
  exists false, s', w2. split; [done|]. split; [done|]. split; [congruence|lia].
Qed.

Definition foreign (src n : Z) : Prop := forall x, src <= x < src + n -> F x.

Lemma q_append_inv s w l src n :
  inv s w l -> foreign src n -> 0 <= n -> str_length s + n <= Alloced_length s ->
  exists s' w', q_append s w src n = Some (s', w') /\ inv s' w' (l ++ bytes m0 src n).
Proof.
  intros [Hok Hc HF] Hsrc Hn Hle. pose proof Hok as [[Hl1 Hl2] [Ha1 Ha2] ? ? ? ?].
  unfold q_append, ASSERT_LENGTH. rewrite (u32_small n), u32_small by lia.
  destruct (Z.leb_spec (str_length s + n) (Alloced_length s)); [|lia].
  assert (exists w', (if truth n then memcpy_in s w (str_length s) src n else Some w) = Some w' /\
    used w' = used w /\ contents s w' ++ bytes (cells w') (Ptr s + str_length s) n =
      l ++ bytes m0 src n /\ (forall x, ~ in_buf s x -> cells w' x = cells w x))
    as (w' & -> & Hu & Hcont & Hfr).
  { unfold truth. destruct (Z.eqb_spec n 0) as [->|]; cbn [negb].
    - exists w. by rewrite !bytes_nil, !app_nil_r by lia.
    - unfold memcpy_in. destruct (Z.leb_spec 0 (str_length s)); [|lia]. cbn [andb].
      destruct (Z.leb_spec (str_length s + n) (Alloced_length s)); [|lia].
      eexists. split; [reflexivity|]. split; [done|]. split.
      + cbn. rewrite memcpy_dst by lia. f_equal.
        * rewrite <- Hc. apply bytes_agree, memcpy_frame. lia.
        * apply bytes_agree. intros x Hx. apply HF, Hsrc, Hx.
      + intros x Hx. cbn. unfold memcpy. unfold in_buf in Hx.
        destruct (Z.leb_spec (Ptr s + str_length s) x),
          (Z.ltb_spec x (Ptr s + str_length s + n)); done || lia. }
  cbn [mbind option_bind]. destruct (Z.leb_spec (str_length s) (0xFFFFFFFF - n)); [|lia].
  eexists _, _. split; [reflexivity|].
  assert (u32 (str_length s + n) = str_length s + n) as E by (apply u32_small; lia).
  split.
  - split; cbn; rewrite ?E, ?Hu; unfold urange in *; done || lia.
  - rewrite <- Hcont. unfold contents. cbn. by rewrite E, bytes_app by lia.
  - intros x Hx. destruct (HF x Hx) as (? & ? & Hb). rewrite Hu. split; [done|].
    split; [by rewrite Hfr|done].
Qed.

(** The result of an append operation: the string it leaves, or on failure the
    string it had. *)
Definition appended (r : option (bool * bstr * world)) (l l' : list Z) : Prop :=
  exists failed s' w', r = Some (failed, s', w') /\ inv s' w' (if failed then l else l').

Lemma append_inv s w l src n :
  inv s w l -> foreign src n -> 0 <= n < 2 ^ 62 ->
  appended (append realloc_raw s w src n) l (l ++ bytes m0 src n).
Proof.
  intros Hinv Hsrc Hn. pose proof (inv_ok _ _ _ Hinv) as [[Hl1 Hl2] [Ha1 Ha2] ? ? ? ?].
  unfold append, truth. destruct (Z.eqb_spec n 0) as [->|]; cbn [negb].
  { exists false, s, w. split; [done|]. by rewrite bytes_nil, app_nil_r by lia. }
  rewrite u64_small by lia.
  assert (grown (str_length s + n) (realloc_with_extra_if_needed realloc_raw s w
    (str_length s + n)) s l) as (failed & s' & w' & -> & Hinv' & Hl' & Hf).
  { unfold realloc_with_extra_if_needed.
    destruct (Z.ltb_spec (str_length s + n) (Alloced_length s)).
    - destruct (put_keeps s w l (str_length s + n) 0 Hinv) as (w2 & -> & Hinv2 & _); [lia|].
      by exists false, s, w2.
    - apply realloc_with_extra_grows; [done|lia]. }
  cbn [mbind option_bind]. destruct failed; [by exists true, s', w'|].
  specialize (Hf eq_refl).
  destruct (q_append_inv s' w' l src n Hinv' Hsrc) as (s2 & w2 & -> & Hinv2); [lia|lia|].
  by exists false, s2, w2.
Qed.

Lemma append_char_inv s w l c :
  inv s w l -> Z.of_nat (length l) < 2 ^ 32 - 1 ->
  appended (append_char realloc_raw s w c) l (l ++ [c]).
Proof.
  intros Hinv Hlen. pose proof (inv_length _ _ _ Hinv) as Hl. unfold append_char.
  destruct (Z.ltb_spec (str_length s) (Alloced_length s)).
  - destruct (put_push s w l c Hinv) as (w' & -> & Hinv'); [done|].
    by exists false, (set_length s (str_length s + 1)), w'.
  - rewrite u32_small by lia.
    destruct (realloc_with_extra_grows s w l (str_length s + 1) Hinv)
      as (failed & s' & w' & -> & Hinv' & Hl' & Hf); [lia|].
    cbn [mbind option_bind]. destruct failed; [by exists true, s', w'|].
    specialize (Hf eq_refl).
    destruct (put_push s' w' l c Hinv') as (w2 & -> & Hinv2); [lia|].
    by exists false, (set_length s' (str_length s' + 1)), w2.
Qed.

Definition hex (l : list Z) : list Z :=
  concat (map (fun b => [dig_vec_lower (Z.shiftr (u8 b) 4); dig_vec_lower (Z.land (u8 b) 15)]) l).

(** On failure the hexadecimal form is cut at the digit that did not fit. *)
Lemma append_hex_inv n s w l src :
  inv s w l -> foreign src (Z.of_nat n) -> Z.of_nat (length l) + 2 * Z.of_nat n < 2 ^ 32 - 1 ->
  exists failed s' w' k, append_hex_loop realloc_raw dig_vec_lower n s w src =
      Some (failed, s', w') /\
    inv s' w' (l ++ take k (hex (bytes m0 src (Z.of_nat n)))) /\
    (failed = false -> k = (2 * n)%nat).
Proof.
  revert s w l src. induction n as [|n IH]; intros s w l src Hinv Hsrc Hlen.
  { exists false, s, w, O. by rewrite app_nil_r. }
  assert (bytes m0 src (Z.of_nat (S n)) = m0 src :: bytes m0 (src + 1) (Z.of_nat n)) as ->.
  { replace (Z.of_nat (S n)) with (1 + Z.of_nat n) by lia.
    by rewrite bytes_app, bytes_one by lia. }
  assert (forall w', (exists s' l', inv s' w' l') -> cells w' src = m0 src) as Hcell.
  { intros w' (s' & l' & [_ _ HF]). apply HF, Hsrc. lia. }
  cbn [append_hex_loop]. rewrite Hcell by eauto.
  set (h := dig_vec_lower (Z.shiftr (u8 (m0 src)) 4)).
  set (d := dig_vec_lower (Z.land (u8 (m0 src)) 15)).
  set (rest := hex (bytes m0 (src + 1) (Z.of_nat n))).
  change (hex (m0 src :: bytes m0 (src + 1) (Z.of_nat n))) with (h :: d :: rest).
  destruct (append_char_inv s w l h Hinv) as (f1 & s1 & w1 & -> & Hinv1); [lia|].
  cbn [mbind option_bind]. destruct f1.
  { exists true, s1, w1, O. by rewrite app_nil_r. }
  rewrite Hcell by eauto. fold d.
  destruct (append_char_inv s1 w1 _ d Hinv1) as (f2 & s2 & w2 & -> & Hinv2);
    [rewrite length_app; cbn; lia|].
  cbn [mbind option_bind]. destruct f2.
  { by exists true, s2, w2, 1%nat. }
  destruct (IH s2 w2 _ (src + 1) Hinv2) as (f3 & s3 & w3 & k & -> & Hinv3 & Hk).
  { intros x Hx. apply Hsrc. lia. }
  { rewrite !length_app. cbn. lia. }
  exists f3, s3, w3, (S (S k)). split; [done|].
  split; [|intros E; specialize (Hk E); lia].
  cbn [take]. by rewrite <- !app_assoc in Hinv3.
Qed.

Lemma append_with_step_inv s w l src n step :
  inv s w l -> foreign src n -> 0 <= n -> 0 <= step ->
  Z.of_nat (length l) + n + step < 2 ^ 32 - 1 ->
  appended (append_with_step realloc_raw s w src n step) l (l ++ bytes m0 src n).
Proof.
  intros Hinv Hsrc Hn Hs Hlen. pose proof (inv_length _ _ _ Hinv) as Hl.
  unfold append_with_step. rewrite (u32_small (n + str_length s)), u32_small by lia.
  assert (exists failed s' w',
    (if Alloced_length s <? n + str_length s
     then realloc realloc_raw s w (n + str_length s + step) else Some (false, s, w)) =
      Some (failed, s', w') /\ inv s' w' l /\
    (failed = false -> str_length s' + n <= Alloced_length s'))
    as (failed & s' & w' & -> & Hinv' & Hf).
  { destruct (Z.ltb_spec (Alloced_length s) (n + str_length s)).
    - destruct (realloc_grows s w l (n + str_length s + step) Hinv)
        as (failed & s' & w' & -> & Hinv' & Hl' & Hf); [lia|].
      exists failed, s', w'. split; [done|]. split; [done|]. intros E. specialize (Hf E). lia.
    - exists false, s, w. split; [done|]. split; [done|]. lia. }
  cbn [mbind option_bind]. destruct failed; [by exists true, s', w'|].
  destruct (q_append_inv s' w' l src n Hinv' Hsrc Hn) as (s2 & w2 & -> & Hinv2);
    [by apply Hf|].
  by exists false, s2, w2.
Qed.

(** [c_ptr_safe] keeps the string, and ends it with a zero unless the buffer had
    to grow and could not. *)
Lemma c_ptr_safe_inv s w l :
  inv s w l ->
  exists s' w', c_ptr_safe realloc_raw s w = Some (Ptr s', s', w') /\ inv s' w' l /\
    (str_length s' < Alloced_length s' -> cells w' (Ptr s' + str_length s') = 0).
Proof.
  intros Hinv. pose proof (inv_length _ _ _ Hinv) as Hl.
  pose proof (inv_ok _ _ _ Hinv) as [[Hl1 Hl2] ? ? ? ? Hnull]. unfold c_ptr_safe.
  destruct (Z.eqb_spec (Ptr s) 0), (Z.ltb_spec (str_length s) (Alloced_length s));
    cbn [negb andb]; try (exfalso; lia).
  2: { destruct (put_keeps s w l (str_length s) 0 Hinv) as (w' & -> & Hinv' & Hc); [lia|].
       by exists s, w'. }
  all: unfold realloc; rewrite u64_small by lia;
    destruct (realloc_raw s w (str_length s + 1)) as [[failed s'] w'] eqn:Hr;
    assert (str_length s < str_length s + 1) as Hn by lia;
    pose proof (Hlaw _ _ _ _ _ _ (inv_ok _ _ _ Hinv) Hn Hr) as Hlaw';
    destruct (raw_inv s w l _ _ _ _ Hinv Hn Hr) as (Hinv' & Hl' & _ & Hf);
    destruct failed;
    [ destruct Hlaw' as [-> ->]; exists s, w; split; [done|]; split; [done|]; lia
    | specialize (Hf eq_refl); rewrite <- Hl';
      destruct (put_keeps s' w' l (str_length s') 0 Hinv') as (w2 & -> & Hinv2 & Hc); [lia|];
      by exists s', w2 ].
Qed.

Lemma reserve_inv s w l n :
  inv s w l -> 0 <= n -> Z.of_nat (length l) + n < 2 ^ 32 - 1 ->
  appended (reserve realloc_raw s w n) l l.
Proof.
  intros Hinv Hn Hlen. pose proof (inv_length _ _ _ Hinv) as Hl. unfold reserve.
  destruct (Z.ltb_spec (str_length s + n) 0xFFFFFFFF); [|lia].
  rewrite u64_small by lia.
  destruct (realloc_grows s w l (str_length s + n) Hinv)
    as (failed & s' & w' & -> & Hinv' & _); [lia|].
  exists failed, s', w'. split; [done|]. by destruct failed.
Qed.

Lemma clear_inv s w l : inv s w l -> inv (set_length s 0) w [].
Proof.
  intros [Hok Hc HF]. destruct Hok as [? [? ?] ? ? ? ?]. split; [|done|done].
  split; change (str_length (set_length s 0)) with 0; try done; right; done.
Qed.

(** ** Command sequences *)

Inductive command : Type :=
| Append (src n : Z)
| AppendChar (c : Z)
| AppendHex (src n : Z)
| AppendStep (src n step : Z)
| Reserve (n : Z)
| Clear
| CPtrSafe.

Definition exec (s : bstr) (w : world) (c : command) : option (bool * bstr * world) :=
  match c with
  | Append src n => append realloc_raw s w src n
  | AppendChar c => append_char realloc_raw s w c
  | AppendHex src n => append_hex realloc_raw dig_vec_lower s w src n
  | AppendStep src n step => append_with_step realloc_raw s w src n step
  | Reserve n => reserve realloc_raw s w n
  | Clear => Some (false, set_length s 0, w)
  | CPtrSafe => '(_, s, w) ← c_ptr_safe realloc_raw s w; Some (false, s, w)
  end.

Fixpoint run (s : bstr) (w : world) (cs : list command) : option (list bool * bstr * world) :=
  match cs with
  | [] => Some ([], s, w)
  | c :: cs => '(failed, s, w) ← exec s w c;
               '(fs, s, w) ← run s w cs;
               Some (failed :: fs, s, w)
  end.

(** A bound on what a command may add to the string or ask of the allocator. *)
Definition cost (c : command) : Z :=
  match c with
  | Append _ n | Reserve n => n
  | AppendChar _ => 1
  | AppendHex _ n => 2 * n
  | AppendStep _ n step => n + step
  | Clear | CPtrSafe => 0
  end.

Definition command_ok (c : command) : Prop :=
  match c with
  | Append src n | AppendHex src n => 0 <= n /\ foreign src n
  | AppendStep src n step => 0 <= n /\ 0 <= step /\ foreign src n
  | Reserve n => 0 <= n
  | AppendChar _ | Clear | CPtrSafe => True
  end.

(** The string a command leaves, given the string before and the result. *)
Inductive effect (l : list Z) : command -> bool -> list Z -> Prop :=
| eff_append src n : effect l (Append src n) false (l ++ bytes m0 src n)
| eff_append_fail src n : effect l (Append src n) true l
| eff_char c : effect l (AppendChar c) false (l ++ [c])
| eff_char_fail c : effect l (AppendChar c) true l
| eff_hex src n : effect l (AppendHex src n) false (l ++ hex (bytes m0 src n))
| eff_hex_fail src n k : effect l (AppendHex src n) true (l ++ take k (hex (bytes m0 src n)))
| eff_step src n step : effect l (AppendStep src n step) false (l ++ bytes m0 src n)
| eff_step_fail src n step : effect l (AppendStep src n step) true l
| eff_reserve n failed : effect l (Reserve n) failed l
| eff_clear : effect l Clear false []
| eff_c_ptr : effect l CPtrSafe false l.

Inductive effects : list Z -> list command -> list bool -> list Z -> Prop :=
| effs_nil l : effects l [] [] l
| effs_cons l c failed l1 cs fs l2 :
    effect l c failed l1 -> effects l1 cs fs l2 ->
    effects l (c :: cs) (failed :: fs) l2.

#[local] Hint Constructors effect effects : bstr.

Lemma hex_length l : length (hex l) = (2 * length l)%nat.
Proof. unfold hex. induction l; cbn; lia. Qed.

Lemma effect_length l c failed l' :
  effect l c failed l' -> command_ok c ->
  Z.of_nat (length l') <= Z.of_nat (length l) + cost c.
Proof.
  destruct 1; cbn [command_ok cost]; intros Hok;
    rewrite ?length_app, ?length_take, ?hex_length, ?bytes_length; cbn [length]; lia.
Qed.

Lemma exec_inv s w l c :
  inv s w l -> command_ok c -> Z.of_nat (length l) + cost c < 2 ^ 32 - 1 ->
  exists failed s' w' l', exec s w c = Some (failed, s', w') /\ inv s' w' l' /\
    effect l c failed l'.
Proof.
  intros Hinv Hok Hlen. destruct c as [src n|c|src n|src n step|n| |]; cbn [exec cost command_ok] in *.
  - destruct Hok as [Hn Hf].
    destruct (append_inv s w l src n Hinv Hf) as ([] & s' & w' & E & Hi); [lia| |];
      eauto 8 with bstr.
  - destruct (append_char_inv s w l c Hinv) as ([] & s' & w' & E & Hi); [lia| |];
      eauto 8 with bstr.
  - destruct Hok as [Hn Hf]. unfold append_hex.
    rewrite <- (Z2Nat.id n) in Hf, Hlen |- * by done. rewrite Nat2Z.id.
    destruct (append_hex_inv (Z.to_nat n) s w l src Hinv Hf) as (f & s' & w' & k & E & Hi & Hk);
      [lia|].
    destruct f; [eauto 8 with bstr|].
    rewrite take_ge in Hi by (rewrite hex_length, bytes_length, (Hk eq_refl); lia).
    eauto 8 with bstr.
  - destruct Hok as (Hn & Hs & Hf).
    destruct (append_with_step_inv s w l src n step Hinv Hf Hn Hs) as ([] & s' & w' & E & Hi);
      [lia| |]; eauto 8 with bstr.
  - destruct (reserve_inv s w l n Hinv Hok Hlen) as (f & s' & w' & E & Hi).
    exists f, s', w', l. destruct f; auto with bstr.
  - pose proof (clear_inv _ _ _ Hinv). eauto 8 with bstr.
  - destruct (c_ptr_safe_inv s w l Hinv) as (s' & w' & -> & Hi & _).
    cbn [mbind option_bind]. eauto 8 with bstr.
Qed.

Lemma run_inv cs : forall s w l,
  inv s w l -> Forall command_ok cs ->
  Z.of_nat (length l) + foldr Z.add 0 (map cost cs) < 2 ^ 32 - 1 ->
  exists fs s' w' l', run s w cs = Some (fs, s', w') /\ inv s' w' l' /\ effects l cs fs l'.
Proof.
  induction cs as [|c cs IH]; intros s w l Hinv Hok Hlen.
  { exists [], s, w, l. auto with bstr. }
  apply Forall_cons in Hok as [Hc Hcs]. cbn [map foldr] in Hlen.
  assert (0 <= foldr Z.add 0 (map cost cs)) as Hpos.
  { clear -Hcs. induction Hcs as [|c' cs' H _ IH]; [done|]. cbn [map foldr].
    destruct c'; cbn [command_ok cost] in *; lia. }
  destruct (exec_inv s w l c Hinv Hc) as (failed & s1 & w1 & l1 & E & Hinv1 & Heff); [lia|].
  pose proof (effect_length _ _ _ _ Heff Hc).
  destruct (IH s1 w1 l1 Hinv1 Hcs) as (fs & s' & w' & l' & E' & Hinv' & Heffs); [lia|].
  exists (failed :: fs), s', w', l'. cbn [run]. rewrite E. cbn [mbind option_bind].
  rewrite E'. cbn [mbind option_bind]. eauto with bstr.
Qed.

End Append.

(** ** An allocator

    [bump] places a new buffer above every area and every live block, up to the
    address [limit]. *)

Definition top (w : world) : Z :=
  foldr Z.max (foldr Z.max 0 (live w)) (map (fun r => r.1 + r.2) (areas w)).

Definition bump (limit : Z) (s : bstr) (w : world) (n : Z) : bool * bstr * world :=
  if n <=? Alloced_length s then (false, s, w)
  else
    let p := top w + 1 in
    if (n <? 2 ^ 32) && (p + n <=? limit)
    then (false,
          Bstr p (str_length s) n (extra_alloc s) true (thread_specific s),
          World (memcpy (cells w) p (Ptr s) (str_length s)) ((p, n) :: areas w)
                (p :: filter (fun q => q ∉ own s) (live w)))
    else (true, s, w).

Lemma foldr_max_ge l a x : x ∈ l \/ x <= a -> x <= foldr Z.max a l.
Proof.
  induction l as [|y l IH]; cbn [foldr]; [intros [H|H]; [by apply elem_of_nil in H|done]|].
  rewrite elem_of_cons. intros [[->|H]|H]; [lia| |];
    (assert (x <= foldr Z.max a l) by (apply IH; auto); lia).
Qed.

Lemma used_below w x : used w x = true -> x <= top w.
Proof.
  unfold used, top. rewrite existsb_exists. intros ([a n] & Hin & Hx). cbn in Hx.
  assert (a + n <= foldr Z.max (foldr Z.max 0 (live w)) (map (fun r => r.1 + r.2) (areas w))).
  { apply foldr_max_ge. left. apply list_elem_of_In, in_map_iff. by exists (a, n). }
  lia.
Qed.

Lemma live_below w p : p ∈ live w -> p <= top w.
Proof.
  intros Hp. apply foldr_max_ge. right. apply foldr_max_ge. by left.
Qed.

Lemma top_nonneg w : 0 <= top w.
Proof. apply foldr_max_ge. right. apply foldr_max_ge. by right. Qed.

Lemma bump_realloc_law limit : realloc_law (bump limit).
Proof.
  intros s w n failed s' w' Hok Hn. pose proof Hok as [[Hl1 Hl2] ? ? ? Hu Hnull].
  unfold bump. destruct (Z.leb_spec n (Alloced_length s)).
  - intros [= <- <- <-]. repeat (split; [done|]). split.
    { intros E. specialize (Hnull E). lia. }
    split; [done|]. intros x Hx Hb. by repeat split.
  - pose proof (top_nonneg w).
    destruct (Z.ltb_spec n (2 ^ 32)), (Z.leb_spec (top w + 1 + n) limit); cbn [andb];
      intros [= <- <- <-]; try done.
    cbn. split; [lia|]. split; [split; lia|]. do 2 (split; [done|]). split.
    { unfold contents. cbn. by apply memcpy_dst. }
    split; [lia|]. split.
    + intros x Hx. unfold in_buf in Hx. cbn in Hx. unfold used. cbn.
      apply orb_true_iff. left. lia.
    + intros x Hx _. pose proof (used_below w x Hx). split.
      { unfold used in *. cbn. rewrite Hx. apply orb_true_r. }
      split; [|unfold in_buf; cbn; lia].
      unfold memcpy. destruct (Z.leb_spec (top w + 1) x); [lia|done].
Qed.

(** C7: Whatever the allocator answers, any sequence of appends (of bytes, of a
    character, of a hexadecimal form, with a step), reservations, clearings and
    [c_ptr_safe] calls on a string stays inside its buffers and asserts
    nothing, as long as the total stays below 2^32 - 1 bytes; each call leaves
    the string extended by exactly the bytes given, or unchanged when it reports
    failure (cut after some digits for a hexadecimal form); memory of other
    objects is not touched; and a final [c_ptr_safe] gives the string with a
    zero byte after it whenever its buffer has room. *)
Theorem bstr_appends_refine realloc_raw dig_vec_lower (F : Z -> Prop) s w cs :
  realloc_law realloc_raw -> obj_ok s w ->
  (forall x, F x -> used w x = true /\ ~ in_buf s x) ->
  Forall (command_ok F) cs ->
  Z.of_nat (length (contents s w)) + foldr Z.add 0 (map cost cs) < 2 ^ 32 - 1 ->
  exists fs s' w',
    run realloc_raw dig_vec_lower s w cs = Some (fs, s', w') /\
    effects dig_vec_lower (cells w) (contents s w) cs fs (contents s' w') /\
    obj_ok s' w' /\
    (forall x, F x -> cells w' x = cells w x) /\
    exists s2 w2, c_ptr_safe realloc_raw s' w' = Some (Ptr s2, s2, w2) /\
      contents s2 w2 = contents s' w' /\
      (str_length s2 < Alloced_length s2 -> cells w2 (Ptr s2 + str_length s2) = 0).
Proof.
  intros Hlaw Hok HF Hcs Hlen.
  assert (inv F (cells w) s w (contents s w)) as Hinv.
  { split; [done|done|]. intros x Hx. destruct (HF x Hx). by repeat split. }
  destruct (run_inv _ Hlaw dig_vec_lower F (cells w) cs s w _ Hinv Hcs Hlen)
    as (fs & s' & w' & l' & E & Hinv' & Heff).
  destruct (c_ptr_safe_inv _ Hlaw F (cells w) s' w' l' Hinv')
    as (s2 & w2 & E2 & Hinv2 & Hz).
  destruct Hinv' as [Hok' <- HF']. destruct Hinv2 as [_ Hc2 _].
  exists fs, s', w'. split; [done|]. split; [done|]. split; [done|].
  split; [intros x Hx; by apply HF'|]. by exists s2, w2.
Qed.

Lemma bstr_appends_refine_witness :
  exists fs s' w',
    run (bump 10000) (fun d => d + 48) construct (World (fun a => a mod 256) [(200, 10)] [])
      [Append 200 3; AppendChar 7; AppendHex 205 1; CPtrSafe] = Some (fs, s', w') /\
    effects (fun d => d + 48) (fun a => a mod 256) []
      [Append 200 3; AppendChar 7; AppendHex 205 1; CPtrSafe] fs (contents s' w') /\
    fs = [false; false; false; false] /\ contents s' w' = [200; 201; 202; 7; 60; 61].
Proof.
  destruct (bstr_appends_refine (bump 10000) (fun d => d + 48) (fun x => 200 <= x < 210)
    construct (World (fun a => a mod 256) [(200, 10)] [])
    [Append 200 3; AppendChar 7; AppendHex 205 1; CPtrSafe])
    as (fs & s' & w' & E & Heff & _).
  - apply bump_realloc_law.
  - split; try (by vm_compute); [by left|]. intros x Hx. unfold in_buf in Hx. cbn in Hx. lia.
  - intros x Hx. unfold used, in_buf. cbn. split; lia.
  - repeat (apply Forall_cons_2; [cbn; unfold foreign; lia || (split; [lia|]; intros x Hx; lia)|]).
    apply Forall_nil_2.
  - vm_compute. reflexivity.
  - exists fs, s', w'. split; [exact E|]. split; [exact Heff|].
    vm_compute in E. injection E as <- <- <-. split; reflexivity.
Defined.

End BinaryString.
