(* ===== verification/StringOwner.v ===== *)
(** * Who frees a [Binary_string]'s buffer

    A state machine over several string objects, the blocks other code holds
    and the heap: every function of [Binary_string] that takes over, gives
    away, replaces or frees a buffer is a command.  The invariant says that the
    live heap blocks are exactly those some string owns and those other code
    holds, each once; from it follows that no command frees a block twice or
    frees a foreign address, that nothing leaks, and that destroying the
    strings leaves the blocks of the other code. *)

From Stdlib Require Import ZArith Lia.
From stdpp Require Import prelude sorting.
From S2P Require Import Prelude Mem BinaryString.

Local Open Scope Z_scope.
Local Open Scope cint_scope.

Module StringOwner.
Import BinaryString.

Record state : Type := State {
  objs : list bstr;
  held : list Z;
  heap : world;
}.

(** What the header relies on for [realloc_raw] and [real_alloc]: they replace
    the block the string owns, if any, by the block it owns afterwards, and
    touch no other block. *)
Definition owner_law (f : bstr -> world -> Z -> bool * bstr * world) : Prop :=
  forall s w n failed s' w' R,
    live w ≡ₚ own s ++ R -> NoDup (live w) -> 0 ∉ live w ->
    f s w n = (failed, s', w') ->
    live w' ≡ₚ own s' ++ R /\ NoDup (live w') /\ 0 ∉ live w'.

Inductive command : Type :=
| New
| NewConst (str len : Z)
| NewBuffer (str len : Z)
| NewCopy (i : nat)
| NewAlloc (n : Z)
| SetAlloced (i : nat) (str len alen : Z)
| SetConst (i : nat) (str len : Z)
| SetPart (i j : nat) (offset len : Z)
| Reset (i : nat) (ptr len alen : Z)
| Release (i : nat)
| SetBufferIfNotAllocated (i : nat) (undef str len : Z)
| Assign (i j : nat)
| Move (i j : nat)
| Swap (i j : nat)
| Free (i : nat)
| Alloc (i : nat) (n : Z)
| Realloc (i : nat) (n : Z)
| MarkAsConst (i : nat).

Section Machine.

Context (realloc_raw real_alloc : bstr -> world -> Z -> bool * bstr * world).

(** Update object [i] with the result of an operation on it. *)
Definition update (st : state) (i : nat) (r : option (bstr * world)) : option state :=
  '(s, w) ← r; Some (State (<[i := s]> (objs st)) (held st) w).

Definition step (st : state) (c : command) : option state :=
  let add s w := Some (State (objs st ++ [s]) (held st) w) in
  match c with
  | New => add construct (heap st)
  | NewConst str len => add (construct_const str len) (heap st)
  | NewBuffer str len => add (construct_buffer str len) (heap st)
  | NewCopy i => s ← objs st !! i; add (construct_copy s) (heap st)
  | NewAlloc n => let '(s, w) := construct_alloc real_alloc (heap st) n in add s w
  | SetAlloced i str len alen =>
      s ← objs st !! i; update st i (set_alloced s (heap st) str len alen)
  | SetConst i str len => s ← objs st !! i; update st i (set_const s (heap st) str len)
  | SetPart i j offset len =>
      s ← objs st !! i; t ← objs st !! j;
      update st i (set_part s (heap st) t offset len)
  | Reset i ptr len alen =>
      s ← objs st !! i;
      '(s, w) ← reset s (heap st) ptr len alen;
      Some (State (<[i := s]> (objs st)) (filter (fun q => q <> ptr) (held st)) w)
  | Release i =>
      s ← objs st !! i;
      let '(p, s') := release s in
      Some (State (<[i := s']> (objs st))
                  (if alloced s then p :: held st else held st) (heap st))
  | SetBufferIfNotAllocated i undef str len =>
      s ← objs st !! i;
      update st i (Some (set_buffer_if_not_allocated undef s str len, heap st))
  | Assign i j =>
      s ← objs st !! i; t ← objs st !! j; update st i (assign s (heap st) t)
  | Move i j =>
      s ← objs st !! i; t ← objs st !! j;
      '(s, t, w) ← move s (heap st) t;
      Some (State (<[j := t]> (<[i := s]> (objs st))) (held st) w)
  | Swap i j =>
      s ← objs st !! i; t ← objs st !! j;
      let '(s, t) := swap s t in
      Some (State (<[j := t]> (<[i := s]> (objs st))) (held st) (heap st))
  | Free i => s ← objs st !! i; update st i (free s (heap st))
  | Alloc i n =>
      s ← objs st !! i;
      let '(_, s, w) := alloc real_alloc s (heap st) n in update st i (Some (s, w))
  | Realloc i n =>
      s ← objs st !! i;
      let '(_, s, w) := realloc_raw s (heap st) n in update st i (Some (s, w))
  | MarkAsConst i => s ← objs st !! i; update st i (Some (mark_as_const s, heap st))
  end.

(** Destroying all strings, in order. *)
Fixpoint destroy (l : list bstr) (w : world) : option world :=
  match l with
  | [] => Some w
  | s :: l => '(_, w) ← destruct_ s w; destroy l w
  end.

(** When the caller may issue a command: objects exist and are distinct where
    the source demands it, the assertions hold, and a block given to [reset] is
    one the caller holds (or null). *)
Definition allowed (st : state) (c : command) : Prop :=
  match c with
  | New | NewConst _ _ | NewBuffer _ _ | NewAlloc _ => True
  | NewCopy i | SetConst i _ _ | Release i | Free i | Alloc i _ | Realloc i _
  | SetBufferIfNotAllocated i _ _ _ | MarkAsConst i => is_Some (objs st !! i)
  | SetAlloced i _ _ alen => is_Some (objs st !! i) /\ alen < 0xFFFFFFFF
  | SetPart i j _ _ | Swap i j => is_Some (objs st !! i) /\ is_Some (objs st !! j) /\ i <> j
  | Reset i ptr _ alen =>
      is_Some (objs st !! i) /\ alen < 0xFFFFFFFF /\ (ptr = 0 \/ ptr ∈ held st)
  | Assign i j =>
      exists s t, objs st !! i = Some s /\ objs st !! j = Some t /\ i <> j /\
        uses_buffer_owned_by t s = false /\ Alloced_length t < 0xFFFFFFFF
  | Move i j =>
      exists t, is_Some (objs st !! i) /\ objs st !! j = Some t /\ i <> j /\
        Alloced_length t < 0xFFFFFFFF
  end.

Definition owned (l : list bstr) : list Z := concat (map own l).

Record inv (st : state) : Prop := {
  inv_live : live (heap st) ≡ₚ owned (objs st) ++ held st;
  inv_nodup : NoDup (live (heap st));
  inv_null : 0 ∉ live (heap st);
}.

(** ** Lists of owned blocks *)

Lemma owned_app l1 l2 : owned (l1 ++ l2) = owned l1 ++ owned l2.
Proof. unfold owned. by rewrite map_app, concat_app. Qed.

Lemma owned_split l i s :
  l !! i = Some s -> exists R, owned l ≡ₚ own s ++ R /\
    forall s', owned (<[i := s']> l) ≡ₚ own s' ++ R.
Proof.
  intros Hi. pose proof (lookup_lt_Some _ _ _ Hi) as Hlt.
  exists (owned (take i l) ++ owned (drop (S i) l)). split.
  - rewrite <- (take_drop_middle l i s Hi) at 1. rewrite owned_app.
    change (owned (s :: drop (S i) l)) with (own s ++ owned (drop (S i) l)).
    by rewrite !app_assoc, (Permutation_app_comm (owned (take i l))).
  - intros s'. rewrite insert_take_drop by done. rewrite owned_app.
    change (owned (s' :: drop (S i) l)) with (own s' ++ owned (drop (S i) l)).
    by rewrite !app_assoc, (Permutation_app_comm (owned (take i l))).
Qed.

(** ** One string and the rest of the heap *)

Definition owns (R : list Z) (s : bstr) (w : world) : Prop :=
  live w ≡ₚ own s ++ R /\ NoDup (live w) /\ 0 ∉ live w.

Lemma filter_not_self (p : Z) (l : list Z) : p ∉ l -> filter (fun q => q <> p) l = l.
Proof.
  intros Hp. induction l as [|q l IH]; [done|]. apply not_elem_of_cons in Hp as [Hq Hp].
  rewrite filter_cons_True by congruence. by rewrite IH.
Qed.

Lemma filter_perm_head (p : Z) (l R : list Z) :
  l ≡ₚ p :: R -> NoDup l -> filter (fun q => q <> p) l ≡ₚ R.
Proof.
  intros HP Hnd. rewrite HP in Hnd. apply NoDup_cons in Hnd as [Hp _].
  rewrite HP, filter_cons_False by (intros H; by apply H). by rewrite filter_not_self.
Qed.

(** [free_buffer] gives the owned block back and leaves the rest. *)
Lemma free_buffer_owns R s w :
  owns R s w -> exists s1 w1, free_buffer s w = Some (s1, w1) /\
    s1 = Bstr (Ptr s) (str_length s) (Alloced_length s) (extra_alloc s) false
              (thread_specific s) /\
    live w1 ≡ₚ R /\ NoDup (live w1) /\ 0 ∉ live w1.
Proof.
  intros (HP & Hnd & H0). unfold free_buffer, own in *.
  destruct s as [p l a e al t]; cbn [alloced Ptr] in *. destruct al; cbn [app] in HP.
  - assert (p ∈ live w) as Hp by (rewrite HP; left).
    unfold my_free. destruct (Z.eqb_spec p 0) as [->|]; [done|].
    rewrite bool_decide_eq_true_2 by done. cbn [mbind option_bind].
    eexists _, _. split; [reflexivity|]. split; [reflexivity|]. cbn. split.
    + by apply filter_perm_head.
    + split; [by apply NoDup_filter|]. rewrite list_elem_of_filter. tauto.
  - eexists _, _. split; [reflexivity|]. by repeat split.
Qed.

Definition good (R : list Z) (r : option (bstr * world)) : Prop :=
  exists s' w', r = Some (s', w') /\ owns R s' w'.

Lemma set_alloced_owns R s w str len alen :
  owns R s w -> alen < 0xFFFFFFFF ->
  exists s' w', set_alloced s w str len alen = Some (s', w') /\
    Ptr s' = str /\ alloced s' = false /\ owns R s' w'.
Proof.
  intros Ho Ha. destruct (free_buffer_owns R s w Ho) as (s1 & w1 & E & -> & Hlive).
  unfold set_alloced. rewrite E. cbn [mbind option_bind].
  destruct (Z.ltb_spec alen 0xFFFFFFFF); [|lia].
  eexists _, _. split; [reflexivity|]. cbn. repeat (split; [done|]). exact Hlive.
Qed.

Lemma set_const_owns R s w str len : owns R s w -> good R (set_const s w str len).
Proof.
  intros Ho. destruct (free_buffer_owns R s w Ho) as (s1 & w1 & E & -> & Hlive).
  unfold set_const. rewrite E. eexists _, _. split; [reflexivity|]. exact Hlive.
Qed.

Lemma set_part_owns R s w t offset len : owns R s w -> good R (set_part s w t offset len).
Proof.
  intros Ho. destruct (free_buffer_owns R s w Ho) as (s1 & w1 & E & -> & Hlive).
  unfold set_part. rewrite E. eexists _, _. split; [reflexivity|]. exact Hlive.
Qed.

Lemma free_owns R s w :
  owns R s w -> exists s' w', free s w = Some (s', w') /\ alloced s' = false /\
    live w' ≡ₚ R /\ NoDup (live w') /\ 0 ∉ live w'.
Proof.
  intros Ho. destruct (free_buffer_owns R s w Ho) as (s1 & w1 & E & -> & Hlive).
  unfold free. rewrite E. eexists _, _. split; [reflexivity|]. split; [done|]. exact Hlive.
Qed.

(** ** Every command keeps the invariant *)

Lemma inv_owns st i s :
  inv st -> objs st !! i = Some s ->
  exists R, owns (R ++ held st) s (heap st) /\
    forall s', owned (<[i := s']> (objs st)) ≡ₚ own s' ++ R.
Proof.
  intros [HP Hnd H0] Hi. destruct (owned_split _ _ _ Hi) as (R & HR & Hins).
  exists R. split; [|done]. split; [|done]. by rewrite HP, HR, app_assoc.
Qed.

Lemma update_inv st i s r :
  inv st -> objs st !! i = Some s ->
  (forall R, owns R s (heap st) -> good R r) ->
  exists st', update st i r = Some st' /\ inv st'.
Proof.
  intros Hinv Hi Hr. destruct (inv_owns st i s Hinv Hi) as (R & Ho & Hins).
  destruct (Hr _ Ho) as (s' & w' & -> & (HP & Hnd & H0)).
  eexists. split; [reflexivity|]. split; cbn [objs held heap]; [|done|done].
  by rewrite HP, Hins, app_assoc.
Qed.

Lemma add_inv st s w :
  inv st -> live w ≡ₚ own s ++ live (heap st) -> NoDup (live w) -> 0 ∉ live w ->
  inv (State (objs st ++ [s]) (held st) w).
Proof.
  intros [HP Hnd H0] Hw Hnd' H0'. split; cbn [objs held heap]; [|done|done].
  rewrite Hw, HP, owned_app. unfold owned at 3. cbn. rewrite app_nil_r, !app_assoc.
  by rewrite (Permutation_app_comm (own s)).
Qed.

Lemma add_plain st s : inv st -> alloced s = false -> inv (State (objs st ++ [s]) (held st) (heap st)).
Proof.
  intros Hinv Hs. apply add_inv; try apply Hinv. unfold own. by rewrite Hs.
Qed.

Lemma owned_split2 l i j s t :
  l !! i = Some s -> l !! j = Some t -> i <> j ->
  exists R, owned l ≡ₚ own s ++ own t ++ R /\
    forall s' t', owned (<[j := t']> (<[i := s']> l)) ≡ₚ own s' ++ own t' ++ R.
Proof.
  intros Hi Hj Hij. destruct (owned_split l i s Hi) as (R1 & H1 & Hins1).
  set (l0 := <[i := construct]> l).
  assert (l0 !! j = Some t) as Hj0 by (unfold l0; by rewrite list_lookup_insert_ne).
  destruct (owned_split l0 j t Hj0) as (R2 & H2 & Hins2).
  assert (owned l0 ≡ₚ R1) as H0 by apply (Hins1 construct).
  exists R2. split; [by rewrite H1, <- H0, H2|]. intros s' t'.
  assert ((<[j := t']> l0) !! i = Some construct) as Hi1.
  { rewrite list_lookup_insert_ne by done. unfold l0.
    apply list_lookup_insert_eq. by apply lookup_lt_Some in Hi. }
  destruct (owned_split (<[j := t']> l0) i construct Hi1) as (R3 & H3 & Hins3).
  specialize (Hins3 s'). unfold l0 in Hins3. rewrite (list_insert_insert_ne _ i j) in Hins3 by done.
  rewrite list_insert_insert_eq in Hins3. rewrite Hins3.
  cbn [own construct init_private_data alloced app] in H3.
  by rewrite <- H3, (Hins2 t').
Qed.

Lemma step_reset st i ptr len alen :
  inv st -> allowed st (Reset i ptr len alen) ->
  exists st', step st (Reset i ptr len alen) = Some st' /\ inv st'.
Proof.
  intros Hinv ([s Hi] & Ha & Hp). cbn [step]. rewrite Hi. cbn [mbind option_bind].
  destruct (inv_owns st i s Hinv Hi) as (R & Ho & Hins).
  assert (NoDup (held st) /\ 0 ∉ held st) as [Hndh H0h].
  { destruct Hinv as [HP Hnd H0]. rewrite HP in Hnd, H0. apply NoDup_app in Hnd.
    rewrite elem_of_app in H0. tauto. }
  destruct (set_alloced_owns _ s (heap st) ptr len alen Ho Ha)
    as (s1 & w1 & E & <- & Hal & (HP1 & Hnd1 & H01)).
  unfold reset. rewrite E. cbn [mbind option_bind].
  eexists. split; [reflexivity|]. split; cbn [objs held heap]; [|done|done].
  rewrite HP1, Hins. unfold own at 1. rewrite Hal. unfold own. cbn [alloced Ptr app].
  destruct (Z.eqb_spec (Ptr s1) 0) as [E0|E0]; cbn [negb app].
  - rewrite E0, filter_not_self by done. done.
  - destruct Hp as [?|Hp]; [done|]. apply elem_of_Permutation in Hp as [H' HH].
    rewrite (filter_perm_head _ _ _ HH Hndh), HH. by rewrite Permutation_middle.
Qed.

Lemma step_release st i :
  inv st -> allowed st (Release i) -> exists st', step st (Release i) = Some st' /\ inv st'.
Proof.
  intros Hinv [s Hi]. cbn [step]. rewrite Hi. cbn [mbind option_bind release].
  destruct (inv_owns st i s Hinv Hi) as (R & (HP & Hnd & H0) & Hins).
  eexists. split; [reflexivity|]. split; cbn [objs held heap]; [|done|done].
  rewrite HP, Hins. unfold own. cbn [alloced init_private_data app].
  destruct (alloced s); cbn [app]; [by rewrite Permutation_middle|done].
Qed.

Lemma step_move st i j :
  inv st -> allowed st (Move i j) -> exists st', step st (Move i j) = Some st' /\ inv st'.
Proof.
  intros [HP Hnd H0] (t & [s Hi] & Hj & Hij & Ha). cbn [step]. rewrite Hi, Hj.
  cbn [mbind option_bind]. destruct (owned_split2 _ _ _ _ _ Hi Hj Hij) as (R & HR & Hins).
  assert (owns (own t ++ R ++ held st) s (heap st)) as Ho.
  { split; [|done]. by rewrite HP, HR, <- !app_assoc. }
  destruct (set_alloced_owns _ s (heap st) (Ptr t) (str_length t) (Alloced_length t) Ho Ha)
    as (s1 & w1 & E & Hp1 & Hal & (HP1 & Hnd1 & H01)).
  unfold move. rewrite E. cbn [mbind option_bind].
  eexists. split; [reflexivity|]. split; cbn [objs held heap]; [|done|done].
  rewrite HP1, Hins, Hp1. unfold own at 1. rewrite Hal. unfold own. cbn [alloced Ptr app].
  by rewrite <- app_assoc.
Qed.

Lemma step_swap st i j :
  inv st -> allowed st (Swap i j) -> exists st', step st (Swap i j) = Some st' /\ inv st'.
Proof.
  intros [HP Hnd H0] ([s Hi] & [t Hj] & Hij). cbn [step]. rewrite Hi, Hj.
  cbn [mbind option_bind swap]. destruct (owned_split2 _ _ _ _ _ Hi Hj Hij) as (R & HR & Hins).
  eexists. split; [reflexivity|]. split; cbn [objs held heap]; [|done|done].
  rewrite HP, HR, Hins. unfold own. cbn [alloced Ptr].
  by rewrite !app_assoc, (Permutation_app_comm (if alloced t then _ else _)).
Qed.

Context (Hrealloc : owner_law realloc_raw) (Hreal : owner_law real_alloc).

Lemma law_good f R s w n :
  owner_law f -> owns R s w -> let '(_, s', w') := f s w n in good R (Some (s', w')).
Proof.
  intros Hf (HP & Hnd & H0). destruct (f s w n) as [[b s'] w'] eqn:E.
  exists s', w'. split; [done|]. by apply (Hf s w n b s' w' R).
Qed.

Lemma step_new_alloc st n :
  inv st -> exists st', step st (NewAlloc n) = Some st' /\ inv st'.
Proof.
  intros Hinv. cbn [step]. unfold construct_alloc.
  destruct (real_alloc init_private_data (heap st) n) as [[b s'] w'] eqn:E.
  eexists. split; [reflexivity|].
  destruct (Hreal init_private_data (heap st) n b s' w' (live (heap st)) (Permutation_refl _)
    (inv_nodup _ Hinv) (inv_null _ Hinv) E) as (? & ? & ?).
  by apply add_inv.
Qed.

Lemma step_inv st c : inv st -> allowed st c -> exists st', step st c = Some st' /\ inv st'.
Proof.
  intros Hinv Hc. destruct c; try (by apply step_new_alloc || by apply step_reset ||
    by apply step_release || by apply step_move || by apply step_swap).
  all: cbn [step allowed] in *.
  - eexists. split; [reflexivity|]. by apply add_plain.
  - eexists. split; [reflexivity|]. by apply add_plain.
  - eexists. split; [reflexivity|]. by apply add_plain.
  - destruct Hc as [s ->]. eexists. split; [reflexivity|]. by apply add_plain.
  - destruct Hc as [[s Hi] Ha]. rewrite Hi. apply (update_inv st i s); [done|done|].
    intros R Ho. destruct (set_alloced_owns R s (heap st) str len alen Ho Ha)
      as (s' & w' & ? & _ & _ & ?). by exists s', w'.
  - destruct Hc as [s Hi]. rewrite Hi. apply (update_inv st i s); [done|done|].
    intros R. apply set_const_owns.
  - destruct Hc as ([s Hi] & [t ->] & _). rewrite Hi. apply (update_inv st i s); [done|done|].
    intros R. apply set_part_owns.
  - destruct Hc as [s Hi]. rewrite Hi. apply (update_inv st i s); [done|done|].
    intros R (HP & Hnd & H0). eexists _, _. split; [reflexivity|]. split; [|done].
    rewrite HP. unfold own, set_buffer_if_not_allocated. by destruct (alloced s) eqn:E; cbn; rewrite ?E.
  - destruct Hc as (s & t & Hi & Hj & _ & Hu & Ha). rewrite Hi, Hj. cbn [mbind option_bind].
    apply (update_inv st i s); [done|done|].
    intros R Ho. unfold assign. rewrite Hu.
    destruct (set_alloced_owns R s (heap st) (Ptr t) (str_length t) (Alloced_length t) Ho Ha)
      as (s' & w' & ? & _ & _ & ?). by exists s', w'.
  - destruct Hc as [s Hi]. rewrite Hi. apply (update_inv st i s); [done|done|].
    intros R Ho. destruct (free_owns R s (heap st) Ho) as (s' & w' & E & Hal & Hlive).
    exists s', w'. split; [done|]. split; [|apply Hlive]. unfold own. rewrite Hal. apply Hlive.
  - destruct Hc as [s Hi]. rewrite Hi. cbn [mbind option_bind]. unfold alloc.
    destruct ((n <=? Alloced_length s) && truth (Alloced_length s)).
    + apply (update_inv st i s); [done|done|]. intros R Ho. by exists s, (heap st).
    + destruct (real_alloc s (heap st) n) as [[b s'] w'] eqn:E.
      apply (update_inv st i s); [done|done|]. intros R Ho.
      pose proof (law_good real_alloc R s (heap st) n Hreal Ho) as Hg. by rewrite E in Hg.
  - destruct Hc as [s Hi]. rewrite Hi. cbn [mbind option_bind].
    destruct (realloc_raw s (heap st) n) as [[b s'] w'] eqn:E.
    apply (update_inv st i s); [done|done|]. intros R Ho.
    pose proof (law_good realloc_raw R s (heap st) n Hrealloc Ho) as Hg. by rewrite E in Hg.
  - destruct Hc as [s Hi]. rewrite Hi. apply (update_inv st i s); [done|done|].
    intros R Ho. by exists (mark_as_const s), (heap st).
Qed.

(** Destroying strings frees their blocks, each once. *)
Lemma destroy_owned l w R :
  live w ≡ₚ owned l ++ R -> NoDup (live w) -> 0 ∉ live w ->
  exists w', destroy l w = Some w' /\ live w' ≡ₚ R.
Proof.
  revert w. induction l as [|s l IH]; intros w HP Hnd H0; [by exists w|].
  destruct (free_owns (owned l ++ R) s w) as (s' & w' & E & _ & HP' & Hnd' & H0').
  { split; [|done]. by rewrite HP, app_assoc. }
  destruct (IH w' HP' Hnd' H0') as (w2 & E2 & HP2).
  exists w2. split; [|done]. cbn [destroy]. unfold destruct_. by rewrite E.
Qed.

(** The states an allowed command sequence reaches from an empty program that
    holds the blocks [bs]. *)
Inductive reachable : state -> Prop :=
| reach_init bs w : live w = bs -> NoDup bs -> 0 ∉ bs -> reachable (State [] bs w)
| reach_step st c st' : reachable st -> allowed st c -> step st c = Some st' -> reachable st'.

(** The guard and a guarded run as functions. *)
Definition has (st : state) (i : nat) : bool := (i <? length (objs st))%nat.

Definition allowedb (st : state) (c : command) : bool :=
  match c with
  | New | NewConst _ _ | NewBuffer _ _ | NewAlloc _ => true
  | NewCopy i | SetConst i _ _ | Release i | Free i | Alloc i _ | Realloc i _
  | SetBufferIfNotAllocated i _ _ _ | MarkAsConst i => has st i
  | SetAlloced i _ _ alen => has st i && (alen <? 0xFFFFFFFF)
  | SetPart i j _ _ | Swap i j => has st i && has st j && bool_decide (i <> j)
  | Reset i ptr _ alen =>
      has st i && (alen <? 0xFFFFFFFF) && ((ptr =? 0) || bool_decide (ptr ∈ held st))
  | Assign i j =>
      match objs st !! i, objs st !! j with
      | Some s, Some t => bool_decide (i <> j) && negb (uses_buffer_owned_by t s) &&
                          (Alloced_length t <? 0xFFFFFFFF)
      | _, _ => false
      end
  | Move i j =>
      match objs st !! j with
      | Some t => has st i && bool_decide (i <> j) && (Alloced_length t <? 0xFFFFFFFF)
      | None => false
      end
  end.

Lemma has_spec st i : has st i = true -> is_Some (objs st !! i).
Proof. unfold has. rewrite Nat.ltb_lt. apply lookup_lt_is_Some. Qed.

Lemma allowedb_spec st c : allowedb st c = true -> allowed st c.
Proof.
  destruct c; cbn [allowedb allowed]; repeat case_match; rewrite ?andb_true_iff, ?orb_true_iff,
    ?bool_decide_eq_true, ?negb_true_iff, ?Z.ltb_lt, ?Z.eqb_eq; naive_solver (auto using has_spec).
Qed.

Fixpoint guarded_run (st : state) (cs : list command) : option state :=
  match cs with
  | [] => Some st
  | c :: cs => if allowedb st c then st ← step st c; guarded_run st cs else None
  end.

Lemma reachable_run cs : forall st st',
  reachable st -> guarded_run st cs = Some st' -> reachable st'.
Proof.
  induction cs as [|c cs IH]; intros st st' Hr; cbn [guarded_run].
  - by intros [= <-].
  - destruct (allowedb st c) eqn:Hc; [|done]. destruct (step st c) as [st1|] eqn:E; [|done].
    cbn [mbind option_bind]. apply IH. apply (reach_step st c); [done| |done].
    by apply allowedb_spec.
Qed.

Lemma reachable_inv st : reachable st -> inv st.
Proof.
  induction 1 as [bs w <- Hnd H0|st c st' _ IH Hc Hst]; [by split|].
  destruct (step_inv st c IH Hc) as (st2 & E & Hinv). congruence.
Qed.

End Machine.

(** C26: Whatever the allocator answers, in every reachable state of a program
    with several strings each heap block is owned by exactly one string or held
    by other code; every allowed command (construction, set, reset, release,
    assignment, move, swap, free, reallocation) is defined there, so no block is
    freed twice or while somebody else holds it; and destroying all strings is
    defined and leaves live exactly the blocks other code holds. *)
Theorem bstr_ownership_safe realloc_raw real_alloc (st : state) :
  owner_law realloc_raw -> owner_law real_alloc ->
  reachable realloc_raw real_alloc st ->
  NoDup (owned (objs st) ++ held st) /\
  live (heap st) ≡ₚ owned (objs st) ++ held st /\
  (forall c, allowed st c -> exists st', step realloc_raw real_alloc st c = Some st') /\
  exists w', destroy (objs st) (heap st) = Some w' /\ live w' ≡ₚ held st.
Proof.
  intros H1 H2 Hr. pose proof (reachable_inv _ _ H1 H2 st Hr) as [HP Hnd H0].
  split; [by rewrite <- HP|]. split; [done|]. split.
  - intros c Hc. destruct (step_inv _ _ H1 H2 st c ltac:(by split) Hc) as (st' & E & _).
    by exists st'.
  - by apply destroy_owned.
Qed.

(** ** The example allocator *)

Lemma bump_owner_law limit : owner_law (bump limit).
Proof.
  intros s w n failed s' w' R HP Hnd H0. unfold bump.
  destruct (n <=? Alloced_length s); [by intros [= <- <- <-]|].
  destruct ((n <? 2 ^ 32) && (top w + 1 + n <=? limit)); [|by intros [= <- <- <-]].
  intros [= <- <- <-]. unfold own at 1. cbn [live alloced Ptr app].
  assert (filter (fun q => q ∉ own s) (live w) ≡ₚ R) as HR.
  { unfold own in *. destruct (alloced s); cbn [app] in HP.
    - rewrite (list_filter_iff _ (fun q => q <> Ptr s))
        by (intros x; by rewrite list_elem_of_singleton).
      by apply filter_perm_head.
    - rewrite <- HP. clear. induction (live w) as [|q l IH]; [done|].
      rewrite filter_cons_True by apply not_elem_of_nil. by rewrite IH. }
  split; [by rewrite HR|]. split.
  - apply NoDup_cons. split; [|by apply NoDup_filter].
    rewrite list_elem_of_filter. intros [_ Hin]. apply live_below in Hin. lia.
  - rewrite not_elem_of_cons, list_elem_of_filter. pose proof (top_nonneg w). split; [lia|tauto].
Qed.

Definition ownership_example : list command :=
  [New; NewConst 700 4; Realloc 0 16; Move 1 0; Reset 0 600 3 8; Swap 0 1; Release 0].

Definition example_start : state := State [] [600] (World (fun _ => 0) [(600, 8)] [600]).

Definition example_end : state :=
  default example_start (guarded_run (bump 10000) (bump 10000) example_start ownership_example).

Lemma bstr_ownership_safe_witness :
  length (objs example_end) = 2%nat /\ held example_end = [609] /\
  exists w', destroy (objs example_end) (heap example_end) = Some w' /\
    live w' ≡ₚ held example_end.
Proof.
  split; [by vm_compute|]. split; [by vm_compute|].
  apply (bstr_ownership_safe (bump 10000) (bump 10000) example_end);
    [apply bump_owner_law|apply bump_owner_law|].
  apply (reachable_run _ _ ownership_example example_start).
  - apply reach_init; [done|by apply NoDup_singleton|].
    intros H. apply list_elem_of_singleton in H. discriminate.
  - unfold example_end. destruct (guarded_run _ _ example_start ownership_example) eqn:E;
      [reflexivity|]. vm_compute in E. discriminate.
Defined.

End StringOwner.
