(* ===== verification/SortBuffer.v ===== *)
(** * The sort buffer of include/mysql/server/private/filesort_utils.h

    [Filesort_buffer] is one piece of memory: the records to be sorted fill it
    from the left, the pointers to them from the right.  The object's members
    are 64-bit addresses and counters of their C widths; the memory is shared
    and passed explicitly; a pointer takes eight bytes of it.

    [alloc_sort_buffer] is implemented outside the header; [allocated] is what
    its documentation says about the buffer it leaves. *)

From Stdlib Require Import ZArith Lia.
From stdpp Require Import prelude list_numbers.
From S2P Require Import Prelude Mem MyIsamPack ByteOrder Views.
Local Open Scope Z_scope.
Local Open Scope cint_scope.

Module SortBuffer.

Record Filesort_buffer := mk_fb {
  m_next_rec_ptr : Z;
  m_rawmem : Z;
  m_record_pointers : Z;
  m_sort_keys : Z;
  m_num_records : Z;
  m_record_length : Z;
  m_sort_length : Z;
  m_size_in_bytes : Z;
  m_idx : Z
}.

Definition sizeof_ptr : Z := 8.

(** [a[i]] for an array of pointers. *)
Definition get_ptr (m : mem) (a i : Z) : Z := ByteOrder.load 8 m (a + i * sizeof_ptr).
Definition set_ptr (m : mem) (a i v : Z) : mem := ByteOrder.store 8 m (a + i * sizeof_ptr) v.

Definition set_next_rec (this : Filesort_buffer) (p : Z) : Filesort_buffer :=
  mk_fb p (m_rawmem this) (m_record_pointers this) (m_sort_keys this) (m_num_records this)
    (m_record_length this) (m_sort_length this) (m_size_in_bytes this) (m_idx this).
Definition set_idx (this : Filesort_buffer) (i : Z) : Filesort_buffer :=
  mk_fb (m_next_rec_ptr this) (m_rawmem this) (m_record_pointers this) (m_sort_keys this)
    (m_num_records this) (m_record_length this) (m_sort_length this) (m_size_in_bytes this) i.
Definition set_keys (this : Filesort_buffer) (p : Z) : Filesort_buffer :=
  mk_fb (m_next_rec_ptr this) (m_rawmem this) (m_record_pointers this) p (m_num_records this)
    (m_record_length this) (m_sort_length this) (m_size_in_bytes this) (m_idx this).
Definition set_rawmem (this : Filesort_buffer) (p : Z) : Filesort_buffer :=
  mk_fb (m_next_rec_ptr this) p (m_record_pointers this) (m_sort_keys this) (m_num_records this)
    (m_record_length this) (m_sort_length this) (m_size_in_bytes this) (m_idx this).

Definition construct : Filesort_buffer := mk_fb 0 0 0 0 0 0 0 0 0.

Definition get_sort_keys (this : Filesort_buffer) : Z :=
  if m_idx this =? 0 then 0 else m_record_pointers this + (1 - m_idx this) * sizeof_ptr.

(** The loop runs while [ix <= count / 2]. *)
Definition reverse_record_pointers (m : mem) (this : Filesort_buffer) : mem :=
  if m_idx this <? 2 then m else
  let keys := get_sort_keys this in
  let count := m_idx this - 1 in
  for_ 0 (count / 2 + 1) (fun ix m =>
    let tmp := get_ptr m keys (count - ix) in
    let m := set_ptr m keys (count - ix) (get_ptr m keys ix) in
    set_ptr m keys ix tmp) m.

Definition init_next_record_pointer (this : Filesort_buffer) : Filesort_buffer :=
  let this := set_idx this 0 in
  let this := set_next_rec this (m_rawmem this) in
  set_keys this 0.

Definition space_used_for_data (this : Filesort_buffer) : Z :=
  if truth (m_next_rec_ptr this) then u64 (m_next_rec_ptr this - m_rawmem this) else 0.

Definition spaceleft (this : Filesort_buffer) : option Z :=
  if m_rawmem this <=? m_next_rec_ptr this then
    let spaceused := u64 (u64 (m_next_rec_ptr this - m_rawmem this) + u64 (u64 (m_idx this) * sizeof_ptr)) in
    Some (u64 (m_size_in_bytes this - spaceused))
  else None.

Definition isfull (this : Filesort_buffer) : option bool :=
  if m_idx this <? m_num_records this then Some false else
  left ← spaceleft this;
  Some (left <? u64 (m_record_length this + sizeof_ptr)).

Definition get_next_record_pointer (m : mem) (this : Filesort_buffer) : Z * mem * Filesort_buffer :=
  let retval := m_next_rec_ptr this in
  let m := set_ptr m (m_record_pointers this) (- m_idx this) (m_next_rec_ptr this) in
  let this := set_idx this (m_idx this + 1) in
  let this := set_next_rec this (u64 (m_next_rec_ptr this + m_record_length this)) in
  (retval, m, this).

Definition adjust_next_record_pointer (this : Filesort_buffer) (val : Z) : Filesort_buffer :=
  set_next_rec this (u64 (m_next_rec_ptr this - u32 (m_record_length this - val))).

(** The loop of [init_record_pointers]; each round adds one pointer. *)
Fixpoint init_loop (fuel : nat) (m : mem) (this : Filesort_buffer) : option (mem * Filesort_buffer) :=
  if m_idx this <? m_num_records this then
    match fuel with
    | O => None
    | S fuel => let '(_, m, this) := get_next_record_pointer m this in init_loop fuel m this
    end
  else Some (m, this).

Definition init_record_pointers (fuel : nat) (m : mem) (this : Filesort_buffer)
    : option (mem * Filesort_buffer) :=
  let this := init_next_record_pointer this in
  '(m, this) ← init_loop fuel m this;
  Some (reverse_record_pointers m this, this).

Definition sort_buffer_size (this : Filesort_buffer) : Z := m_size_in_bytes this.
Definition is_allocated (this : Filesort_buffer) : bool := truth (m_rawmem this).
Definition reset (this : Filesort_buffer) : Filesort_buffer := set_rawmem this 0.
Definition get_sorted_record (m : mem) (this : Filesort_buffer) (ix : Z) : Z := get_ptr m (m_sort_keys this) ix.
Definition get_raw_buf (this : Filesort_buffer) : Views.bca :=
  Views.Bc.construct_el (m_rawmem this) (m_size_in_bytes this).

Definition assign (this rhs : Filesort_buffer) : Filesort_buffer :=
  mk_fb (m_next_rec_ptr rhs) (m_rawmem rhs) (m_record_pointers rhs) (m_sort_keys rhs)
    (m_num_records rhs) (m_record_length rhs) (m_sort_length rhs) (m_size_in_bytes rhs) (m_idx rhs).

Definition get_sort_length (this : Filesort_buffer) : Z := m_sort_length this.
Definition set_sort_length (this : Filesort_buffer) (val : Z) : Filesort_buffer :=
  mk_fb (m_next_rec_ptr this) (m_rawmem this) (m_record_pointers this) (m_sort_keys this)
    (m_num_records this) (m_record_length this) val (m_size_in_bytes this) (m_idx this).

(** ** A buffer as alloc_sort_buffer leaves it

    "Total size = (num_records * record_length) + (num_records * sizeof(pointer))",
    with the pointer to the first record at the end of the buffer. *)
Record allocated (this : Filesort_buffer) : Prop := {
  al_base : 0 < m_rawmem this;
  al_end : m_rawmem this + m_size_in_bytes this < 2 ^ 64;
  al_length : urange 32 (m_record_length this);
  al_number : urange 32 (m_num_records this);
  al_size : m_num_records this * (m_record_length this + sizeof_ptr) <= m_size_in_bytes this;
  al_pointers : m_record_pointers this + sizeof_ptr = m_rawmem this + m_size_in_bytes this
}.

(** ** Pointers in memory *)

Lemma get_set_ptr m a i v : urange 64 v -> get_ptr (set_ptr m a i v) a i = v.
Proof.
  intros Hv. unfold get_ptr, set_ptr.
  rewrite (ByteOrder.read_stored 8 _ _ m _ v (ByteOrder.store_lwrites 8) (ByteOrder.load_reads 8)).
  by apply wrap_small.
Qed.

Lemma set_ptr_frame m a i v b n :
  b + n <= a + i * 8 \/ a + i * 8 + 8 <= b -> agree (set_ptr m a i v) m b n.
Proof. intros H x Hx. apply (ByteOrder.store_lwrites 8). change (Z.of_nat 8) with 8. unfold sizeof_ptr. lia. Qed.

Lemma get_ptr_agree m m' a i : agree m m' (a + i * 8) 8 -> get_ptr m a i = get_ptr m' a i.
Proof. intros H. unfold get_ptr, ByteOrder.load. by rewrite (bytes_agree m m'). Qed.

Lemma get_set_ptr_ne m a i j v : i <> j -> get_ptr (set_ptr m a i v) a j = get_ptr m a j.
Proof. intros H. apply get_ptr_agree, set_ptr_frame. lia. Qed.

(** ** Records *)

(** Where records that follow each other from [base] begin. *)
Fixpoint places (base : Z) (recs : list (list Z)) : list Z :=
  match recs with
  | [] => []
  | r :: recs => base :: places (base + Z.of_nat (length r)) recs
  end.

Lemma places_length base recs : length (places base recs) = length recs.
Proof. revert base. induction recs; intros base; simpl; [done|]. by f_equal. Qed.

Lemma places_app base l1 l2 :
  places base (l1 ++ l2) = places base l1 ++ places (base + Z.of_nat (length (concat l1))) l2.
Proof.
  revert base. induction l1 as [|r l1 IH]; intros base; simpl; [by rewrite Z.add_0_r|].
  rewrite IH, length_app. do 3 f_equal. lia.
Qed.

Lemma concat_app_single (recs : list (list Z)) r : concat (recs ++ [r]) = concat recs ++ r.
Proof. rewrite concat_app. simpl. by rewrite app_nil_r. Qed.

(** The bytes at the place of a record are the record. *)
Lemma places_bytes m base recs i a r :
  bytes m base (Z.of_nat (length (concat recs))) = concat recs ->
  places base recs !! i = Some a -> recs !! i = Some r -> bytes m a (Z.of_nat (length r)) = r.
Proof.
  revert base i. induction recs as [|s recs IH]; intros base i Hb Ha Hr; [done|].
  simpl in Hb. rewrite length_app, Nat2Z.inj_add, bytes_app in Hb by lia.
  apply app_inj_1 in Hb as [Hb1 Hb2]; [|by rewrite bytes_length, Nat2Z.id].
  destruct i as [|i]; simpl in Ha, Hr; [by injection Ha as <-; injection Hr as <-|]. by eapply IH.
Qed.

Lemma places_range base recs i a :
  places base recs !! i = Some a -> base <= a <= base + Z.of_nat (length (concat recs)).
Proof.
  revert base i. induction recs as [|r recs IH]; intros base i Ha; [done|]. simpl. rewrite length_app.
  destruct i as [|i]; simpl in Ha; [injection Ha as <-; lia|]. apply IH in Ha. lia.
Qed.

Lemma places_end base recs i a r :
  places base recs !! i = Some a -> recs !! i = Some r ->
  a + Z.of_nat (length r) <= base + Z.of_nat (length (concat recs)).
Proof.
  revert base i. induction recs as [|s recs IH]; intros base i Ha Hr; [done|]. simpl. rewrite length_app.
  destruct i as [|i]; simpl in Ha, Hr; [injection Ha as <-; injection Hr as <-; lia|].
  pose proof (IH _ _ Ha Hr). lia.
Qed.

(** ** Filling the buffer

    The caller asks whether the buffer is full, fetches the place of the next
    record, writes the record there and reports its actual length. *)
Definition put (m : mem) (this : Filesort_buffer) (r : list Z) : option (bool * mem * Filesort_buffer) :=
  full ← isfull this;
  if (full : bool) then Some (false, m, this) else
  let '(p, m, this) := get_next_record_pointer m this in
  let m := write_bytes m p r in
  Some (true, m, adjust_next_record_pointer this (Z.of_nat (length r))).

Definition total (recs : list (list Z)) : Z := Z.of_nat (length (concat recs)).

Record rep (m : mem) (this : Filesort_buffer) (recs : list (list Z)) : Prop := mk_rep {
  rep_allocated : allocated this;
  rep_idx : m_idx this = Z.of_nat (length recs);
  rep_next : m_next_rec_ptr this = m_rawmem this + total recs;
  rep_data : bytes m (m_rawmem this) (total recs) = concat recs;
  rep_pointers i a : places (m_rawmem this) recs !! i = Some a ->
    get_ptr m (m_record_pointers this) (- Z.of_nat i) = a;
  rep_lengths : Forall (fun r => Z.of_nat (length r) <= m_record_length this) recs;
  rep_room : total recs + 8 * Z.of_nat (length recs) <= m_size_in_bytes this
}.

(** Room for one more record of the maximal length. *)
Definition accepts (this : Filesort_buffer) (recs : list (list Z)) : bool :=
  (Z.of_nat (length recs) <? m_num_records this) ||
  (total recs + m_record_length this + 8 * (Z.of_nat (length recs) + 1) <=? m_size_in_bytes this).

Lemma total_bound recs len :
  Forall (fun r => Z.of_nat (length r) <= len) recs -> total recs <= Z.of_nat (length recs) * len.
Proof.
  unfold total. induction 1 as [|r recs Hr _ IH]; simpl; [lia|]. rewrite length_app. lia.
Qed.

Lemma accepts_room m this recs : rep m this recs -> accepts this recs = true ->
  total recs + m_record_length this + 8 * (Z.of_nat (length recs) + 1) <= m_size_in_bytes this.
Proof.
  intros Hrep. unfold accepts. destruct (Z.leb_spec (total recs + m_record_length this +
    8 * (Z.of_nat (length recs) + 1)) (m_size_in_bytes this)) as [|Hgt]; [done|].
  rewrite orb_false_r. intros Hlt%Z.ltb_lt. destruct Hrep as [Hal _ _ _ _ Hl _].
  apply total_bound in Hl. destruct Hal as [_ _ [H0 _] _ Hs _]. unfold sizeof_ptr in Hs. nia.
Qed.

Lemma isfull_ok m this recs : rep m this recs -> isfull this = Some (negb (accepts this recs)).
Proof.
  intros Hrep. pose proof Hrep as [Hal Hi Hn _ _ _ Hr]. destruct Hal as [Hb He [Hl0 Hl] _ _ _].
  unfold isfull, accepts. rewrite Hi. destruct (Z.ltb_spec (Z.of_nat (length recs)) (m_num_records this)); [done|].
  unfold spaceleft. rewrite Hn, Hi. assert (0 <= total recs) by (unfold total; lia).
  rewrite (proj2 (Z.leb_le _ _)) by lia. cbn [mbind option_bind orb]. unfold sizeof_ptr in *.
  replace (m_rawmem this + total recs - m_rawmem this) with (total recs) by lia.
  rewrite (u64_small (total recs)), (u64_small (Z.of_nat (length recs))) by lia.
  rewrite (u64_small (Z.of_nat (length recs) * 8)) by lia.
  rewrite (u64_small (total recs + _)), (u64_small (m_record_length this + 8)) by lia.
  rewrite u64_small by lia. f_equal.
  zcases; simpl; lia || done.
Qed.

(** Nothing outside the buffer changes. *)
Definition outside (this : Filesort_buffer) (m m' : mem) : Prop :=
  forall x, x < m_rawmem this \/ m_rawmem this + m_size_in_bytes this <= x -> m' x = m x.

(** A pointer added for a record that is about to be written. *)
Lemma next_pointer_ok m this recs p m' this' :
  rep m this recs -> accepts this recs = true -> get_next_record_pointer m this = (p, m', this') ->
  p = m_rawmem this + total recs /\ bytes m' (m_rawmem this) (total recs) = concat recs /\
  this' = set_next_rec (set_idx this (Z.of_nat (length recs) + 1)) (p + m_record_length this) /\
  outside this m m' /\
  forall i a, (places (m_rawmem this) recs ++ [p]) !! i = Some a ->
    get_ptr m' (m_record_pointers this) (- Z.of_nat i) = a.
Proof.
  intros Hrep Hacc. pose proof (accepts_room _ _ _ Hrep Hacc) as Hroom.
  destruct Hrep as [Hal Hi Hn Hd Hp _ _]. destruct Hal as [Hb He [Hl0 Hl] _ _ Hrp]. unfold sizeof_ptr in Hrp.
  assert (0 <= total recs) as Ht by (unfold total; lia).
  unfold get_next_record_pointer. rewrite Hn, Hi. cbn [m_next_rec_ptr set_idx m_record_length].
  rewrite Hn, u64_small by lia. intros [= <- <- <-]. split; [done|]. split; [|split; [done|split]].
  - rewrite <- Hd. apply bytes_agree, set_ptr_frame. left. lia.
  - intros x Hx. apply (set_ptr_frame m _ _ _ x 1); lia.
  - intros i a Ha. destruct (decide (i = length recs)) as [->|Hne].
    + rewrite list_lookup_middle in Ha by (by rewrite places_length). injection Ha as <-.
      apply get_set_ptr. unfold urange. lia.
    + rewrite get_set_ptr_ne by lia. apply Hp. rewrite lookup_app_l in Ha; [done|].
      apply lookup_lt_Some in Ha. rewrite length_app, places_length in Ha. rewrite places_length. simpl in Ha. lia.
Qed.

Lemma put_ok m this recs r :
  rep m this recs -> Z.of_nat (length r) <= m_record_length this ->
  exists m' this', put m this r = Some (accepts this recs, m', this') /\
    rep m' this' (if accepts this recs then recs ++ [r] else recs) /\
    outside this m m' /\ (exists i p, this' = set_next_rec (set_idx this i) p).
Proof.
  intros Hrep Hr. unfold put. rewrite (isfull_ok _ _ _ Hrep). cbn [mbind option_bind].
  destruct (accepts this recs) eqn:Hacc; cbn [negb].
  2:{ exists m, this. split; [done|]. split; [done|]. split; [done|]. exists (m_idx this), (m_next_rec_ptr this). by destruct this. }
  destruct (get_next_record_pointer m this) as [[p m1] this1] eqn:E.
  pose proof (next_pointer_ok _ _ _ _ _ _ Hrep Hacc E) as (-> & Hd & -> & Hout & Hp).
  pose proof (accepts_room _ _ _ Hrep Hacc) as Hroom.
  destruct Hrep as [Hal Hi Hn _ _ Hls _]. pose proof Hal as [Hb He [Hl0 Hl] _ _ Hrp]. unfold sizeof_ptr in Hrp.
  assert (0 <= total recs) as Ht by (unfold total; lia).
  assert (total (recs ++ [r]) = total recs + Z.of_nat (length r)) as Htot
    by (unfold total; rewrite concat_app_single, length_app; lia).
  unfold adjust_next_record_pointer. cbn [m_next_rec_ptr set_next_rec set_idx m_record_length].
  rewrite (u32_small (m_record_length this - _)) by lia. rewrite u64_small by lia.
  eexists _, _. split; [reflexivity|]. split.
  2:{ split; [|by eexists _, _]. intros x Hx. rewrite <- (Hout x Hx). apply (write_bytes_frame _ _ _ x 1); lia. }
  split; cbn [m_rawmem m_idx m_next_rec_ptr m_record_pointers m_record_length m_size_in_bytes set_next_rec set_idx].
  - destruct Hal. by split.
  - rewrite length_app. simpl. lia.
  - lia.
  - rewrite Htot, bytes_app, concat_app_single by lia. f_equal; [|apply bytes_write].
    rewrite <- Hd. apply bytes_agree, write_bytes_frame. lia.
  - intros i a Ha. rewrite places_app in Ha. simpl in Ha.
    rewrite <- (Hp i a Ha). apply get_ptr_agree, write_bytes_frame.
    apply lookup_lt_Some in Ha. rewrite length_app, places_length in Ha. simpl in Ha. lia.
  - by apply Forall_app_2, Forall_singleton.
  - rewrite Htot, length_app. simpl. lia.
Qed.

Lemma init_rep m this : allocated this -> rep m (init_next_record_pointer this) [].
Proof.
  intros Hal. pose proof Hal as [Hb He [Hl0 Hl] [Hn0 Hn] Hs Hrp]. unfold sizeof_ptr in Hs.
  split; simpl; try done.
  - unfold total. simpl. lia.
  - unfold total. simpl. nia.
Qed.

(** *** Sequences of calls *)

Inductive command := Put (r : list Z) | Restart.

Definition exec (m : mem) (this : Filesort_buffer) (c : command) : option (bool * mem * Filesort_buffer) :=
  match c with
  | Put r => put m this r
  | Restart => Some (true, m, init_next_record_pointer this)
  end.

Fixpoint run (m : mem) (this : Filesort_buffer) (cs : list command)
    : option (list bool * mem * Filesort_buffer) :=
  match cs with
  | [] => Some ([], m, this)
  | c :: cs =>
      '(b, m, this) ← exec m this c;
      '(bs, m, this) ← run m this cs;
      Some (b :: bs, m, this)
  end.

(** The batch of records these calls leave and their results; [this] gives the
    sizes. *)
Fixpoint spec (this : Filesort_buffer) (recs : list (list Z)) (cs : list command)
    : list bool * list (list Z) :=
  match cs with
  | [] => ([], recs)
  | Put r :: cs =>
      let b := accepts this recs in
      let '(bs, recs) := spec this (if b then recs ++ [r] else recs) cs in (b :: bs, recs)
  | Restart :: cs => let '(bs, recs) := spec this [] cs in (true :: bs, recs)
  end.

Definition fits (this : Filesort_buffer) (c : command) : Prop :=
  match c with Put r => Z.of_nat (length r) <= m_record_length this | Restart => True end.

(** The members a filled buffer shares with the allocated one. *)
Definition same_buffer (this this' : Filesort_buffer) : Prop :=
  m_rawmem this' = m_rawmem this /\ m_record_pointers this' = m_record_pointers this /\
  m_num_records this' = m_num_records this /\ m_record_length this' = m_record_length this /\
  m_size_in_bytes this' = m_size_in_bytes this.

Lemma spec_same this this' recs cs : same_buffer this this' -> spec this' recs cs = spec this recs cs.
Proof.
  intros (_ & _ & Hn & Hl & Hs). revert recs. induction cs as [|[r|] cs IH]; intros recs; simpl; [done| |by rewrite IH].
  unfold accepts. rewrite Hn, Hl, Hs. by rewrite IH.
Qed.

Lemma buffer_run_ok cs : forall m this recs,
  rep m this recs -> Forall (fits this) cs ->
  exists m' this', run m this cs = Some (fst (spec this recs cs), m', this') /\
    rep m' this' (snd (spec this recs cs)) /\ same_buffer this this' /\ outside this m m'.
Proof.
  induction cs as [|c cs IH]; intros m this recs Hrep Hf; [by exists m, this|].
  apply Forall_cons in Hf as [Hc Hf].
  assert (exists b m1 this1 recs1, exec m this c = Some (b, m1, this1) /\ rep m1 this1 recs1 /\
    same_buffer this this1 /\ outside this m m1 /\
    spec this recs (c :: cs) = let '(bs, l) := spec this recs1 cs in (b :: bs, l))
    as (b & m1 & this1 & recs1 & E & Hrep1 & Hsame & Hout & Hspec).
  { destruct c as [r|]; cbn [exec].
    - destruct (put_ok _ _ _ r Hrep Hc) as (m1 & this1 & -> & Hrep1 & Hout & (i & p & ->)).
      eexists _, _, _, _. split; [reflexivity|]. split; [exact Hrep1|]. by split.
    - eexists _, _, _, []. split; [reflexivity|]. split; [apply init_rep, (rep_allocated _ _ _ Hrep)|]. by split. }
  destruct (IH m1 this1 recs1) as (m2 & this2 & E2 & Hrep2 & Hsame2 & Hout2); [done| |].
  { eapply Forall_impl; [exact Hf|]. intros [r|]; [|done]. simpl. by destruct Hsame as (_ & _ & _ & -> & _). }
  cbn [run]. rewrite E. cbn [mbind option_bind]. rewrite E2. cbn [mbind option_bind].
  rewrite (spec_same this this1) in * by done. rewrite Hspec. destruct (spec this recs1 cs) as [bs l].
  eexists _, _. split; [reflexivity|]. split; [done|].
  destruct Hsame as (Hr & ? & ? & ? & Hs), Hsame2 as (? & ? & ? & ? & ?). split; [repeat split; congruence|].
  intros x Hx. rewrite <- (Hout x Hx). apply Hout2. by rewrite Hr, Hs.
Qed.

(** ** The record pointers as an array *)

(** The first [n] rounds of the loop of [reverse_record_pointers]. *)
Lemma reverse_rounds m keys count n :
  (forall i, 0 <= i <= count -> urange 64 (get_ptr m keys i)) -> Z.of_nat n <= count / 2 + 1 -> 0 <= count ->
  let m' := for_n n 0 (fun ix m =>
    let tmp := get_ptr m keys (count - ix) in
    let m := set_ptr m keys (count - ix) (get_ptr m keys ix) in
    set_ptr m keys ix tmp) m in
  (forall i, 0 <= i <= count -> get_ptr m' keys i =
     if (i <? Z.of_nat n) || (count - Z.of_nat n <? i) then get_ptr m keys (count - i) else get_ptr m keys i) /\
  forall x, x < keys \/ keys + 8 * (count + 1) <= x -> m' x = m x.
Proof.
  intros Hrange Hn Hc. induction n as [|n IH].
  - split; [|done]. intros i Hi. simpl. zcases; simpl; done || lia.
  - destruct IH as [IH Hout]; [lia|]. rewrite for_n_snoc, Z.add_0_l.
    set (m1 := for_n n 0 _ m) in *. cbn zeta. set (k := Z.of_nat n) in *.
    assert (k <= count - k) as Hk by (unfold k; dlia).
    assert (get_ptr m1 keys k = get_ptr m keys k /\ get_ptr m1 keys (count - k) = get_ptr m keys (count - k)) as [E1 E2].
    { rewrite !IH by lia. split; zcases; simpl; try lia; done. }
    rewrite E1, E2. replace (Z.of_nat (S n)) with (k + 1) by lia. split.
    + intros i Hi. destruct (Z.eq_dec k i) as [<-|].
      { rewrite get_set_ptr by (apply Hrange; lia). zcases; simpl; done || lia. }
      rewrite get_set_ptr_ne by done. destruct (Z.eq_dec (count - k) i) as [<-|].
      { rewrite get_set_ptr by (apply Hrange; lia). replace (count - (count - k)) with k by lia.
        zcases; simpl; done || lia. }
      rewrite get_set_ptr_ne, IH by lia. zcases; simpl; done || lia.
    + intros x Hx. rewrite <- Hout by done.
      rewrite (set_ptr_frame _ keys k _ x 1) by lia. apply (set_ptr_frame _ keys _ _ x 1); lia.
Qed.

Lemma reverse_ok m this :
  1 <= m_idx this -> let keys := get_sort_keys this in
  (forall i, 0 <= i < m_idx this -> urange 64 (get_ptr m keys i)) ->
  let m' := reverse_record_pointers m this in
  (forall i, 0 <= i < m_idx this -> get_ptr m' keys i = get_ptr m keys (m_idx this - 1 - i)) /\
  forall x, x < keys \/ keys + 8 * m_idx this <= x -> m' x = m x.
Proof.
  intros Hi keys Hrange. unfold reverse_record_pointers. destruct (Z.ltb_spec (m_idx this) 2) as [|H2].
  - split; [|done]. intros i Hi2. by replace (m_idx this - 1 - i) with i by lia.
  - fold keys. unfold for_. destruct (reverse_rounds m keys (m_idx this - 1)
      (Z.to_nat ((m_idx this - 1) / 2 + 1 - 0))) as [Hr Hout]; [intros i Hi2; apply Hrange; lia|dlia|lia|].
    split; [|intros x Hx; apply Hout; lia]. intros i Hi2. rewrite Hr by lia.
    rewrite Z2Nat.id by dlia.
    zcases; simpl; try done. exfalso. dlia.
Qed.

(** The array [get_sort_keys] returns begins at the last pointer stored. *)
Lemma sort_keys_pointers m this k :
  m_idx this <> 0 ->
  get_ptr m (get_sort_keys this) (m_idx this - 1 - k) = get_ptr m (m_record_pointers this) (- k).
Proof.
  intros H. unfold get_ptr, get_sort_keys. rewrite (proj2 (Z.eqb_neq _ _)) by done. f_equal. unfold sizeof_ptr. lia.
Qed.

(** Pointers reversed in a filled buffer: the array is in the order of the
    records, and the rest of the memory is as before. *)
Lemma reverse_filled m this ps :
  allocated this -> 0 < m_idx this -> length ps = Z.to_nat (m_idx this) ->
  8 * m_idx this <= m_size_in_bytes this ->
  (forall i a, ps !! i = Some a -> urange 64 a /\ get_ptr m (m_record_pointers this) (- Z.of_nat i) = a) ->
  let m' := reverse_record_pointers m this in
  (forall i a, ps !! i = Some a -> get_ptr m' (get_sort_keys this) (Z.of_nat i) = a) /\
  agree m' m (m_rawmem this) (m_size_in_bytes this - 8 * m_idx this) /\ outside this m m'.
Proof.
  intros Hal Hi Hlen Hroom Hps. destruct Hal as [_ _ _ _ _ Hrp]. unfold sizeof_ptr in Hrp.
  assert (get_sort_keys this = m_rawmem this + m_size_in_bytes this - 8 * m_idx this) as Hk
    by (unfold get_sort_keys, sizeof_ptr; rewrite (proj2 (Z.eqb_neq _ _)); lia).
  destruct (reverse_ok m this) as [Hr Hout]; [lia| |].
  { intros i Hi2. replace i with (m_idx this - 1 - (m_idx this - 1 - i)) by lia.
    rewrite sort_keys_pointers by lia.
    destruct (lookup_lt_is_Some_2 ps (Z.to_nat (m_idx this - 1 - i))) as [a Ha]; [lia|].
    destruct (Hps _ _ Ha) as [Hu <-]. rewrite Z2Nat.id in Hu by lia. done. }
  split; [|split].
  - intros i a Ha. pose proof (lookup_lt_Some _ _ _ Ha). rewrite Hr by lia.
    rewrite sort_keys_pointers by lia. by apply Hps.
  - intros x Hx. apply Hout. lia.
  - intros x Hx. apply Hout. lia.
Qed.

(** C31: the sort buffer keeps a batch of records of any lengths.  After
    alloc_sort_buffer, any sequence of "if it is not full, fetch the place of
    the next record, write it and adjust for its length" and of restarts gives
    the answers and the batch of the reference [spec]: a record is taken when
    there is room for one of the maximal length and its pointer, and at least
    num_records of them always are.  The records then stand one after the
    other; the array of sort keys points to them in reverse order, and after
    reverse_record_pointers in their order, every record unharmed; no byte
    outside the buffer changes. *)
Theorem sort_buffer_batch (m : mem) (this : Filesort_buffer) (cs : list command) :
  allocated this -> Forall (fits this) cs ->
  let '(bs, recs) := spec this [] cs in
  exists m' this',
    run m (init_next_record_pointer this) cs = Some (bs, m', this') /\
    m_idx this' = Z.of_nat (length recs) /\ space_used_for_data this' = total recs /\
    let keys := get_sort_keys this' in
    (forall k r, recs !! k = Some r ->
       bytes m' (get_ptr m' keys (m_idx this' - 1 - Z.of_nat k)) (Z.of_nat (length r)) = r) /\
    let m'' := reverse_record_pointers m' this' in
    (forall k r, recs !! k = Some r ->
       bytes m'' (get_ptr m'' keys (Z.of_nat k)) (Z.of_nat (length r)) = r) /\
    outside this m m''.
Proof.
  intros Hal Hf. destruct (buffer_run_ok cs m (init_next_record_pointer this) []) as (m' & this' & E & Hrep & Hsame & Hout);
    [by apply init_rep|done|].
  rewrite (spec_same this (init_next_record_pointer this)) in * by done.
  destruct (spec this [] cs) as [bs recs]. cbn [fst snd] in *. exists m', this'. split; [done|].
  pose proof Hrep as [Hal' Hi Hn Hd Hp _ Hroom]. split; [done|]. split.
  { unfold space_used_for_data. rewrite Hn. destruct Hal' as [? ? ? ? ? ?].
    assert (0 <= total recs) by (unfold total; lia). rewrite (proj2 (truth_true _)) by lia.
    rewrite u64_small; lia. }
  assert (forall k r, recs !! k = Some r -> exists a, places (m_rawmem this') recs !! k = Some a /\
    bytes m' a (Z.of_nat (length r)) = r) as Hrec.
  { intros k r Hk. destruct (lookup_lt_is_Some_2 (places (m_rawmem this') recs) k) as [a Ha].
    { rewrite places_length. by eapply lookup_lt_Some. }
    exists a. split; [done|]. by eapply places_bytes. }
  split.
  - intros k r Hk. destruct (Hrec _ _ Hk) as (a & Ha & Hb). pose proof (lookup_lt_Some _ _ _ Hk).
    rewrite sort_keys_pointers by lia. by rewrite (Hp _ _ Ha).
  - destruct (decide (recs = [])) as [->|Hne].
    { split; [done|]. unfold reverse_record_pointers. simpl in Hi. rewrite Hi. intros x Hx. by apply Hout. }
    destruct (reverse_filled m' this' (places (m_rawmem this') recs)) as (Hr & Ha & Ho).
    { done. } { destruct recs; [done|]. simpl in Hi. lia. } { rewrite places_length. lia. } { unfold total in Hroom. lia. }
    { intros i a Ha. split; [|by apply Hp]. apply places_range in Ha. destruct Hal' as [? ? ? ? ? ?].
      unfold urange, total in *. lia. }
    split.
    + intros k r Hk. destruct (Hrec _ _ Hk) as (a & Hpl & Hb). rewrite (Hr _ _ Hpl).
      rewrite <- Hb at 2. apply bytes_agree. eapply agree_sub; [exact Ha|apply places_range in Hpl; lia|].
      pose proof (places_end _ _ _ _ _ Hpl Hk). unfold total in *. lia.
    + destruct Hsame as (Hs1 & _ & _ & _ & Hs5). intros x Hx. rewrite Ho; [by apply Hout|].
      rewrite Hs1, Hs5. done.
Qed.

(** *** [init_record_pointers] *)

Lemma init_loop_ok fuel : forall m this k,
  allocated this -> m_idx this = Z.of_nat k -> m_idx this <= m_num_records this ->
  m_next_rec_ptr this = m_rawmem this + m_idx this * m_record_length this ->
  (Z.to_nat (m_num_records this) <= k + fuel)%nat ->
  (forall i, (i < k)%nat -> get_ptr m (m_record_pointers this) (- Z.of_nat i) =
     m_rawmem this + Z.of_nat i * m_record_length this) ->
  exists m' this', init_loop fuel m this = Some (m', this') /\ same_buffer this this' /\
    m_idx this' = m_num_records this /\ outside this m m' /\
    agree m' m (m_rawmem this) (m_num_records this * m_record_length this) /\
    forall i, (i < Z.to_nat (m_num_records this))%nat ->
      get_ptr m' (m_record_pointers this) (- Z.of_nat i) = m_rawmem this + Z.of_nat i * m_record_length this.
Proof.
  induction fuel as [|fuel IH]; intros m this k Hal Hk Hle Hn Hfuel Hp;
    pose proof Hal as [Hb He [Hl0 Hl] [Hm0 Hm] Hs Hrp]; unfold sizeof_ptr in *; cbn [init_loop];
    destruct (Z.ltb_spec (m_idx this) (m_num_records this)) as [Hlt|Hge]; try lia.
  1,3: exists m, this; split; [done|]; split; [done|]; split; [lia|]; split; [done|]; split; [done|];
    intros i Hi; apply Hp; lia.
  unfold get_next_record_pointer. cbn [m_next_rec_ptr set_idx m_record_length].
  assert (m_idx this * m_record_length this + m_record_length this + 8 * (m_idx this + 1) <= m_size_in_bytes this) as Hroom by nia.
  rewrite u64_small by lia.
  set (m1 := set_ptr m (m_record_pointers this) (- m_idx this) (m_next_rec_ptr this)).
  destruct (IH m1 (set_next_rec (set_idx this (m_idx this + 1)) (m_next_rec_ptr this + m_record_length this)) (S k))
    as (m' & this' & E & Hsame & Hidx & Hout & Hag & Hptr); simpl; try lia.
  - destruct Hal. by split.
  - intros i Hi. destruct (decide (i = k)) as [->|].
    + rewrite <- Hk. unfold m1. rewrite get_set_ptr by (unfold urange; nia). lia.
    + unfold m1. rewrite get_set_ptr_ne by lia. apply Hp. lia.
  - exists m', this'. split; [done|]. split; [done|]. split; [done|]. simpl in *.
    assert (forall x, x < m_record_pointers this - 8 * m_idx this \/ m_record_pointers this + 8 <= x -> m1 x = m x) as Hm1.
    { intros x Hx. apply (set_ptr_frame m _ _ _ x 1); lia. }
    split; [|split; [|done]].
    + intros x Hx. rewrite Hout by done. apply Hm1. simpl in *. nia.
    + intros x Hx. rewrite Hag by done. apply Hm1. nia.
Qed.

(** Initialising all pointers at once: the loop ends, and the array of sort keys
    points to consecutive places of the record length from the start of the
    buffer; the record area and the memory outside are untouched. *)
Theorem init_record_pointers_spec (m : mem) (this : Filesort_buffer) (fuel : nat) :
  allocated this -> 0 < m_num_records this -> (Z.to_nat (m_num_records this) <= fuel)%nat ->
  exists m' this', init_record_pointers fuel m this = Some (m', this') /\
    m_idx this' = m_num_records this /\
    (forall i, 0 <= i < m_num_records this ->
       get_ptr m' (get_sort_keys this') i = m_rawmem this + i * m_record_length this) /\
    agree m' m (m_rawmem this) (m_num_records this * m_record_length this) /\ outside this m m'.
Proof.
  intros Hal Hpos Hfuel. unfold init_record_pointers.
  destruct (init_loop_ok fuel m (init_next_record_pointer this) 0) as (m1 & this1 & -> & Hsame & Hidx & Hout & Hag & Hptr);
    simpl; try lia.
  { destruct Hal. by split. }
  cbn [mbind option_bind]. simpl in Hidx, Hag, Hptr. exists (reverse_record_pointers m1 this1), this1.
  split; [done|]. split; [done|]. destruct Hsame as (Hr & Hrp & Hnr & Hrl & Hsz). simpl in Hr, Hrp, Hnr, Hrl, Hsz.
  pose proof Hal as [Hb He [Hl0 Hl] [Hm0 Hm] Hs Hrpe]. unfold sizeof_ptr in *.
  destruct (reverse_filled m1 this1
    ((fun i => m_rawmem this + i * m_record_length this) <$> seqZ 0 (m_num_records this))) as (Hk & Ha & Ho).
  - split; rewrite ?Hr, ?Hrp, ?Hnr, ?Hrl, ?Hsz; by destruct Hal.
  - lia.
  - rewrite length_fmap, length_seqZ. by rewrite Hidx.
  - rewrite Hidx, Hsz. nia.
  - intros i a Hi. rewrite list_lookup_fmap in Hi. apply fmap_Some in Hi as (z & [-> Hz]%lookup_seqZ & ->).
    rewrite Hrp, Hptr by lia. split; [unfold urange; nia|lia].
  - split; [|split].
    + intros i Hi. specialize (Hk (Z.to_nat i) (m_rawmem this + i * m_record_length this)).
      rewrite Z2Nat.id in Hk by lia. apply Hk. rewrite list_lookup_fmap, lookup_seqZ_lt by lia. simpl. do 2 f_equal. lia.
    + rewrite Hr, Hsz, Hidx in Ha. eapply agree_trans; [|exact Hag]. eapply agree_sub; [exact Ha|lia|nia].
    + intros x Hx. rewrite Ho by (by rewrite Hr, Hsz). by apply Hout.
Qed.

(** A buffer of 48 bytes allocated for two records of at most four. *)
Definition sample : Filesort_buffer := mk_fb 0 1000 1040 0 2 4 0 48 0.

Lemma sample_allocated : allocated sample.
Proof. split; unfold urange, sizeof_ptr; simpl; lia. Qed.

Definition sample_calls : list command :=
  [Put [9]; Restart; Put [1; 2]; Put [3; 4; 5; 6]; Put []; Put [7]; Put [8]].

Lemma sort_buffer_batch_witness :
  let '(bs, recs) := spec sample [] sample_calls in
  exists m' this',
    run (fun _ => 0) (init_next_record_pointer sample) sample_calls = Some (bs, m', this') /\
    m_idx this' = Z.of_nat (length recs) /\ space_used_for_data this' = total recs /\
    let keys := get_sort_keys this' in
    (forall k r, recs !! k = Some r ->
       bytes m' (get_ptr m' keys (m_idx this' - 1 - Z.of_nat k)) (Z.of_nat (length r)) = r) /\
    let m'' := reverse_record_pointers m' this' in
    (forall k r, recs !! k = Some r ->
       bytes m'' (get_ptr m'' keys (Z.of_nat k)) (Z.of_nat (length r)) = r) /\
    outside sample (fun _ => 0) m''.
Proof.
  apply (sort_buffer_batch (fun _ => 0) sample sample_calls).
  - exact sample_allocated.
  - repeat constructor; simpl; lia.
Defined.

(** The last record is refused, for one of maximal length would not fit. *)
Example sample_batch :
  spec sample [] sample_calls =
    ([true; true; true; true; true; true; false], [[1; 2]; [3; 4; 5; 6]; []; [7]]).
Proof. vm_compute. reflexivity. Qed.

End SortBuffer.
