(* ===== verification/SortParam.v ===== *)
(** * Sort records and merge chunks: include/mysql/server/private/sql_sort.h

    [Merge_chunk] describes a sorted run during the merge; [Addon_fields],
    [Sort_keys] and [Sort_param] know the format of the records that are sorted
    and compute the length of a record from the lengths stored in it.  The
    stored lengths are read and written with the byte-order macros of the
    x86-64 build. *)

From Stdlib Require Import ZArith Lia.
From stdpp Require Import prelude list_numbers.
From S2P Require Import Prelude Mem MyIsamPack ByteOrder Views.
Local Open Scope Z_scope.
Local Open Scope cint_scope.

Module SortParam.

(** ** [Merge_chunk] *)

Record Merge_chunk := mk_chunk {
  m_current_key : Z;
  m_file_position : Z;
  m_buffer_start : Z;
  m_buffer_end : Z;
  m_rowcount : Z;
  m_mem_count : Z;
  m_max_keys : Z
}.

Definition new_chunk : Merge_chunk := mk_chunk 0 0 0 0 0 0 0.

Definition file_position (c : Merge_chunk) : Z := m_file_position c.
Definition set_file_position (c : Merge_chunk) (val : Z) : Merge_chunk :=
  mk_chunk (m_current_key c) val (m_buffer_start c) (m_buffer_end c) (m_rowcount c) (m_mem_count c) (m_max_keys c).
Definition advance_file_position (c : Merge_chunk) (val : Z) : Merge_chunk :=
  set_file_position c (u64 (m_file_position c + val)).

Definition buffer_start (c : Merge_chunk) : Z := m_buffer_start c.
Definition buffer_end (c : Merge_chunk) : Z := m_buffer_end c.
Definition set_buffer (c : Merge_chunk) (start end_ : Z) : Merge_chunk :=
  mk_chunk (m_current_key c) (m_file_position c) start end_ (m_rowcount c) (m_mem_count c) (m_max_keys c).
Definition set_buffer_start (c : Merge_chunk) (start : Z) : Merge_chunk := set_buffer c start (m_buffer_end c).
Definition set_buffer_end (c : Merge_chunk) (end_ : Z) : option Merge_chunk :=
  if (m_buffer_end c =? 0) || (end_ <=? m_buffer_end c)
  then Some (set_buffer c (m_buffer_start c) end_) else None.

Definition set_current_key (c : Merge_chunk) (k : Z) : Merge_chunk :=
  mk_chunk k (m_file_position c) (m_buffer_start c) (m_buffer_end c) (m_rowcount c) (m_mem_count c) (m_max_keys c).
Definition init_current_key (c : Merge_chunk) : Merge_chunk := set_current_key c (m_buffer_start c).
Definition current_key (c : Merge_chunk) : Z := m_current_key c.
Definition advance_current_key (c : Merge_chunk) (val : Z) : Merge_chunk :=
  set_current_key c (u64 (m_current_key c + val)).

Definition set_rowcount (c : Merge_chunk) (val : Z) : Merge_chunk :=
  mk_chunk (m_current_key c) (m_file_position c) (m_buffer_start c) (m_buffer_end c) val (m_mem_count c) (m_max_keys c).
Definition decrement_rowcount (c : Merge_chunk) (val : Z) : Merge_chunk := set_rowcount c (u64 (m_rowcount c - val)).
Definition rowcount (c : Merge_chunk) : Z := m_rowcount c.

Definition mem_count (c : Merge_chunk) : Z := m_mem_count c.
Definition set_mem_count (c : Merge_chunk) (val : Z) : Merge_chunk :=
  mk_chunk (m_current_key c) (m_file_position c) (m_buffer_start c) (m_buffer_end c) (m_rowcount c) val (m_max_keys c).
Definition decrement_mem_count (c : Merge_chunk) : Z * Merge_chunk :=
  let c := set_mem_count c (u64 (m_mem_count c - 1)) in (m_mem_count c, c).

Definition max_keys (c : Merge_chunk) : Z := m_max_keys c.
Definition set_max_keys (c : Merge_chunk) (val : Z) : Merge_chunk :=
  mk_chunk (m_current_key c) (m_file_position c) (m_buffer_start c) (m_buffer_end c) (m_rowcount c) (m_mem_count c) val.

Definition buffer_size (c : Merge_chunk) : Z := u64 (m_buffer_end c - m_buffer_start c).

Definition merge_freed_buff (this mc : Merge_chunk) : bool * Merge_chunk :=
  if m_buffer_end mc =? m_buffer_start this then
    let mc := set_buffer mc (m_buffer_start mc) (m_buffer_end this) in
    (true, set_max_keys mc (u64 (m_max_keys mc + m_max_keys this)))
  else if m_buffer_start mc =? m_buffer_end this then
    let mc := set_buffer_start mc (m_buffer_start this) in
    (true, set_max_keys mc (u64 (m_max_keys mc + m_max_keys this)))
  else (false, mc).

(** ** [Addon_fields]

    The field descriptors are only pointed to. *)
Record Addon_fields := mk_addon {
  m_field_descriptors : Views.bca;
  m_addon_buf : Z;
  m_addon_buf_length : Z;
  m_using_packed_addons : bool
}.

Module Addon.
Definition construct (arr : Views.bca) : option Addon_fields :=
  if Views.Bc.is_null arr then None else Some (mk_addon arr 0 0 false).
Definition begin (this : Addon_fields) : Z := Views.Bc.begin (m_field_descriptors this).
Definition end_ (this : Addon_fields) : Z := Views.Bc.end_ (m_field_descriptors this).
(** [buf] is what my_malloc returned, 0 when there is no memory. *)
Definition allocate_addon_buf (buf : Z) (this : Addon_fields) (sz : Z) : Z * Addon_fields :=
  let len := if truth buf then sz else m_addon_buf_length this in
  (buf, mk_addon (m_field_descriptors this) buf len (m_using_packed_addons this)).
(** The buffer itself goes back to the heap, which is not modelled. *)
Definition free_addon_buff (this : Addon_fields) : Addon_fields :=
  mk_addon (m_field_descriptors this) 0 0 (m_using_packed_addons this).
Definition get_addon_buf (this : Addon_fields) : Z := m_addon_buf this.
Definition get_addon_buf_length (this : Addon_fields) : Z := m_addon_buf_length this.
Definition set_using_packed_addons (this : Addon_fields) (val : bool) : Addon_fields :=
  mk_addon (m_field_descriptors this) (m_addon_buf this) (m_addon_buf_length this) val.
Definition using_packed_addons (this : Addon_fields) : bool := m_using_packed_addons this.
Definition can_pack_addon_fields (record_length : Z) : bool := record_length <=? 0xFFFF.
Definition size_of_length_field : Z := 2.
Definition read_addon_length (m : mem) (p : Z) : Z :=
  u32 (size_of_length_field + ByteOrder.X86_64.uint2korr m p).
Definition store_addon_length (m : mem) (p sz : Z) : mem :=
  ByteOrder.X86_64.int2store m p (u32 (sz - size_of_length_field)).
End Addon.

(** ** [Sort_keys] *)
Record Sort_keys := mk_keys {
  keys_array : Views.bca;
  m_using_packed_sortkeys : bool;
  size_of_packable_fields : Z;
  sort_length_with_original_values : Z;
  sort_length_with_memcmp_values : Z;
  parameters_computed : bool
}.

Module Keys.
Definition construct (arr count : Z) : option Sort_keys :=
  let a := Views.Bc.construct_el arr count in
  if Views.Bc.is_null a then None else Some (mk_keys a false 0 0 0 false).
Definition using_packed_sortkeys (this : Sort_keys) : bool := m_using_packed_sortkeys this.
Definition set_using_packed_sortkeys (this : Sort_keys) (val : bool) : Sort_keys :=
  mk_keys (keys_array this) val (size_of_packable_fields this) (sort_length_with_original_values this)
    (sort_length_with_memcmp_values this) (parameters_computed this).
Definition set_size_of_packable_fields (this : Sort_keys) (len : Z) : Sort_keys :=
  mk_keys (keys_array this) (m_using_packed_sortkeys this) len (sort_length_with_original_values this)
    (sort_length_with_memcmp_values this) (parameters_computed this).
Definition get_size_of_packable_fields (this : Sort_keys) : Z := size_of_packable_fields this.
Definition set_sort_length_with_original_values (this : Sort_keys) (len : Z) : Sort_keys :=
  mk_keys (keys_array this) (m_using_packed_sortkeys this) (size_of_packable_fields this) len
    (sort_length_with_memcmp_values this) (parameters_computed this).
Definition get_sort_length_with_original_values (this : Sort_keys) : Z := sort_length_with_original_values this.
Definition set_sort_length_with_memcmp_values (this : Sort_keys) (len : Z) : Sort_keys :=
  mk_keys (keys_array this) (m_using_packed_sortkeys this) (size_of_packable_fields this)
    (sort_length_with_original_values this) len (parameters_computed this).
Definition get_sort_length_with_memcmp_values (this : Sort_keys) : Z := sort_length_with_memcmp_values this.
Definition size_of_length_field : Z := 4.
Definition store_sortkey_length (m : mem) (p sz : Z) : mem :=
  ByteOrder.X86_64.int4store m p (u32 (sz - size_of_length_field)).
Definition read_sortkey_length (m : mem) (p : Z) : Z :=
  u32 (size_of_length_field + ByteOrder.X86_64.uint4korr m p).
Definition increment_size_of_packable_fields (this : Sort_keys) (len : Z) : Sort_keys :=
  set_size_of_packable_fields this (u32 (size_of_packable_fields this + len)).
Definition increment_original_sort_length (this : Sort_keys) (len : Z) : Sort_keys :=
  set_sort_length_with_original_values this (u32 (sort_length_with_original_values this + len)).
Definition is_parameters_computed (this : Sort_keys) : bool := parameters_computed this.
Definition set_parameters_computed (this : Sort_keys) (val : bool) : Sort_keys :=
  mk_keys (keys_array this) (m_using_packed_sortkeys this) (size_of_packable_fields this)
    (sort_length_with_original_values this) (sort_length_with_memcmp_values this) val.
End Keys.

(** ** [Sort_param]

    The members that say how long a record is; [addon_fields] and [sort_keys]
    are null or the objects pointed to. *)
Record Sort_param := mk_param {
  rec_length : Z;
  sort_length : Z;
  addon_length : Z;
  res_length : Z;
  addon_fields : option Addon_fields;
  sort_keys : option Sort_keys;
  cached_packed_addons : bool;
  cached_packed_sortkeys : bool;
  m_packed_format : bool
}.

Definition using_packed_addons (this : Sort_param) : option bool :=
  if Bool.eqb (cached_packed_addons this)
       match addon_fields this with Some a => Addon.using_packed_addons a | None => false end
  then Some (cached_packed_addons this) else None.

Definition using_packed_sortkeys (this : Sort_param) : option bool :=
  if Bool.eqb (cached_packed_sortkeys this)
       match sort_keys this with Some k => Keys.using_packed_sortkeys k | None => false end
  then Some (cached_packed_sortkeys this) else None.

Definition using_addon_fields (this : Sort_param) : bool :=
  match addon_fields this with Some _ => true | None => false end.

Definition get_result_length (m : mem) (this : Sort_param) (plen : Z) : Z :=
  if negb (cached_packed_addons this) then res_length this else Addon.read_addon_length m plen.

Definition get_addon_length (m : mem) (this : Sort_param) (plen : Z) : option Z :=
  packed ← using_packed_addons this;
  Some (if (packed : bool) then Addon.read_addon_length m plen else addon_length this).

Definition get_sort_length (m : mem) (this : Sort_param) (plen : Z) : option Z :=
  packed ← using_packed_sortkeys this;
  Some (if (packed : bool)
        then u32 (Keys.read_sortkey_length m plen + (if using_addon_fields this then 0 else res_length this))
        else sort_length this).

Definition get_record_length (m : mem) (this : Sort_param) (plen : Z) : option Z :=
  if m_packed_format this then
    sort_len ← get_sort_length m this plen;
    addon_len ← get_addon_length m this (plen + sort_len);
    Some (u32 (sort_len + addon_len))
  else Some (rec_length this).

Definition get_rec_and_res_len (m : mem) (this : Sort_param) (record_start : Z) : option (Z * Z) :=
  if m_packed_format this then
    sort_len ← get_sort_length m this record_start;
    addon_len ← get_addon_length m this (record_start + sort_len);
    Some (u32 (sort_len + addon_len), if using_addon_fields this then addon_len else res_length this)
  else Some (rec_length this, res_length this).

Definition is_packed_format (this : Sort_param) : bool := m_packed_format this.

(** The comparison functions are implemented outside the header; [packed_cmp]
    and [ptr_cmp] stand for get_packed_keys_compare_ptr and get_ptr_compare. *)
Definition get_compare_function {F} (packed_cmp : F) (ptr_cmp : Z -> F) (this : Sort_param) : option F :=
  packed ← using_packed_sortkeys this;
  Some (if (packed : bool) then packed_cmp else ptr_cmp (sort_length this)).

(** The comparison function's argument: the object or the length's address. *)
Definition get_compare_argument (this : Sort_param) (sort_len : Z) : option (Sort_param + Z) :=
  packed ← using_packed_sortkeys this;
  Some (if (packed : bool) then inl this else inr sort_len).

(** ** Lengths in packed records *)

Lemma addon_length_roundtrip m p x :
  0 <= x <= 0xFFFF -> Addon.read_addon_length (Addon.store_addon_length m p (2 + x)) p = 2 + x.
Proof.
  intros Hx. unfold Addon.read_addon_length, Addon.store_addon_length, Addon.size_of_length_field.
  rewrite (ByteOrder.read_stored 2 ByteOrder.X86_64.int2store ByteOrder.X86_64.uint2korr m p _
    ByteOrder.st_int2 (ByteOrder.load_wrap_reads 2)).
  replace (2 + x - 2) with x by lia. rewrite (u32_small x) by lia.
  rewrite (wrap_small _ x) by (unfold urange; simpl; lia). apply u32_small. lia.
Qed.

Lemma sortkey_length_roundtrip m p n :
  0 <= n < 2 ^ 32 - 4 -> Keys.read_sortkey_length (Keys.store_sortkey_length m p (4 + n)) p = 4 + n.
Proof.
  intros Hn. unfold Keys.read_sortkey_length, Keys.store_sortkey_length, Keys.size_of_length_field.
  rewrite (ByteOrder.read_stored 4 ByteOrder.X86_64.int4store ByteOrder.X86_64.uint4korr m p _
    ByteOrder.y_int4 (ByteOrder.load_wrap_reads 4)).
  replace (4 + n - 4) with n by lia. rewrite (u32_small n) by lia.
  rewrite (wrap_small _ n) by (unfold urange; simpl; lia). apply u32_small. lia.
Qed.

(** Storing the length of the addon fields behind the key leaves the key's. *)
Lemma addon_store_frame m p q v : p + 4 <= q ->
  Keys.read_sortkey_length (Addon.store_addon_length m q v) p = Keys.read_sortkey_length m p.
Proof.
  intros H. unfold Keys.read_sortkey_length, ByteOrder.X86_64.uint4korr, ByteOrder.load.
  rewrite (bytes_agree (Addon.store_addon_length m q v) m); [done|].
  intros x Hx. apply ByteOrder.st_int2. change (Z.of_nat 2) with 2. lia.
Qed.

(** The flags kept in the object are those of the descriptors. *)
Definition consistent (this : Sort_param) : Prop :=
  cached_packed_addons this =
    match addon_fields this with Some a => Addon.using_packed_addons a | None => false end /\
  cached_packed_sortkeys this =
    match sort_keys this with Some k => Keys.using_packed_sortkeys k | None => false end.

Lemma consistent_flags this : consistent this ->
  using_packed_addons this = Some (cached_packed_addons this) /\
  using_packed_sortkeys this = Some (cached_packed_sortkeys this).
Proof.
  intros [Ha Hk]. unfold using_packed_addons, using_packed_sortkeys. rewrite <- Ha, <- Hk.
  by rewrite !Bool.eqb_reflx.
Qed.

(** The key and the addon part of a record with [n] bytes of key values and [x]
    bytes of addon values. *)
Definition key_part (this : Sort_param) (n : Z) : Z :=
  if cached_packed_sortkeys this then 4 + n + (if using_addon_fields this then 0 else res_length this)
  else sort_length this.

Definition addon_part (this : Sort_param) (x : Z) : Z :=
  if cached_packed_addons this then 2 + x else addon_length this.

(** The lengths written into a record at [p]. *)
Definition store_lengths (m : mem) (this : Sort_param) (p n x : Z) : mem :=
  let m := if cached_packed_sortkeys this then Keys.store_sortkey_length m p (4 + n) else m in
  if cached_packed_addons this then Addon.store_addon_length m (p + key_part this n) (2 + x) else m.

(** the length of a packed record is read back from the record.  Whatever
    combination of packed keys and packed addon fields is in use, after the two
    lengths were stored where the format puts them get_rec_and_res_len and
    get_record_length return the size of the whole record, get_rec_and_res_len
    the size of its result part, and get_sort_length and get_addon_length those
    of its parts, as long as the record is smaller than 2^32 bytes and its
    addon values than 2^16; with an unpacked format the fixed lengths are
    returned. *)
Theorem packed_record_lengths (m : mem) (this : Sort_param) (p n x : Z) :
  consistent this -> 0 <= n -> 0 <= x <= 0xFFFF -> 0 <= res_length this -> 0 <= addon_length this ->
  0 <= sort_length this -> key_part this n + addon_part this x < 2 ^ 32 ->
  let m := store_lengths m this p n x in
  get_sort_length m this p = Some (key_part this n) /\
  get_addon_length m this (p + key_part this n) = Some (addon_part this x) /\
  get_rec_and_res_len m this p =
    Some (if m_packed_format this
          then (key_part this n + addon_part this x,
                if using_addon_fields this then addon_part this x else res_length this)
          else (rec_length this, res_length this)) /\
  get_record_length m this p = fst <$> get_rec_and_res_len m this p.
Proof.
  intros Hc Hn Hx Hr Ha Hs Hsum. destruct (consistent_flags _ Hc) as [Fa Fk]. intros m'.
  assert (0 <= addon_part this x) as Hap by (unfold addon_part; destruct (cached_packed_addons this); lia).
  assert (0 <= key_part this n) as Hkp
    by (unfold key_part; destruct (cached_packed_sortkeys this), (using_addon_fields this); lia).
  assert (get_sort_length m' this p = Some (key_part this n)) as E1.
  { unfold get_sort_length. rewrite Fk. cbn [mbind option_bind]. f_equal. unfold m', store_lengths, key_part in *.
    destruct (cached_packed_sortkeys this); [|done].
    assert (Keys.read_sortkey_length (if cached_packed_addons this then Addon.store_addon_length
      (Keys.store_sortkey_length m p (4 + n)) (p + (4 + n + (if using_addon_fields this then 0 else res_length this))) (2 + x)
      else Keys.store_sortkey_length m p (4 + n)) p = 4 + n) as ->.
    { destruct (cached_packed_addons this); [rewrite addon_store_frame by (destruct (using_addon_fields this); lia)|];
        apply sortkey_length_roundtrip; destruct (using_addon_fields this); lia. }
    apply u32_small. destruct (using_addon_fields this); lia. }
  assert (get_addon_length m' this (p + key_part this n) = Some (addon_part this x)) as E2.
  { unfold get_addon_length. rewrite Fa. cbn [mbind option_bind]. f_equal. unfold m', store_lengths, addon_part.
    destruct (cached_packed_addons this); [|done]. by apply addon_length_roundtrip. }
  split; [done|]. split; [done|]. unfold get_rec_and_res_len, get_record_length.
  destruct (m_packed_format this); [|done]. rewrite E1. cbn [mbind option_bind]. rewrite E2.
  cbn [mbind option_bind]. rewrite u32_small by lia. done.
Qed.

(** Packed keys of 10 bytes and packed addon fields of 300. *)
Definition sample_param : Sort_param :=
  mk_param 500 80 400 400 (Some (mk_addon (Views.Bca 64 2) 0 0 true))
    (Some (mk_keys (Views.Bca 128 1) true 0 0 0 true)) true true true.

Lemma packed_record_lengths_witness :
  let m := store_lengths (fun _ => 0) sample_param 1000 10 300 in
  get_sort_length m sample_param 1000 = Some 14 /\
  get_addon_length m sample_param (1000 + 14) = Some 302 /\
  get_rec_and_res_len m sample_param 1000 = Some (316, 302) /\
  get_record_length m sample_param 1000 = fst <$> get_rec_and_res_len m sample_param 1000.
Proof.
  apply (packed_record_lengths (fun _ => 0) sample_param 1000 10 300); try (cbn; lia).
  split; reflexivity.
Defined.

(** ** Merging freed buffers *)

Definition in_buffer (c : Merge_chunk) (a : Z) : Prop := m_buffer_start c <= a < m_buffer_end c.

(** A chunk whose buffer is no longer used hands it over to a neighbour: exactly
    when the two buffers touch, the neighbour's becomes the union of both, with
    room for the keys of both, and otherwise nothing changes; what the
    neighbour reads from the file stays the same. *)
Theorem merge_freed_buff_spec (this mc : Merge_chunk) :
  m_buffer_start this <= m_buffer_end this -> m_buffer_start mc <= m_buffer_end mc ->
  let '(merged, mc') := merge_freed_buff this mc in
  merged = bool_decide (m_buffer_end mc = m_buffer_start this \/ m_buffer_start mc = m_buffer_end this) /\
  file_position mc' = file_position mc /\ rowcount mc' = rowcount mc /\ mem_count mc' = mem_count mc /\
  if merged
  then (forall a, in_buffer mc' a <-> in_buffer mc a \/ in_buffer this a) /\
       buffer_size mc' = u64 (buffer_size mc + buffer_size this) /\ max_keys mc' = u64 (max_keys mc + max_keys this)
  else mc' = mc.
Proof.
  intros H1 H2. unfold merge_freed_buff, buffer_size, wrap, in_buffer.
  destruct (Z.eqb_spec (m_buffer_end mc) (m_buffer_start this)) as [E|E].
  - rewrite bool_decide_eq_true_2 by lia. repeat split; try done; simpl in *; try lia.
    rewrite <- Zplus_mod. f_equal. lia.
  - destruct (Z.eqb_spec (m_buffer_start mc) (m_buffer_end this)) as [E'|E'].
    + rewrite bool_decide_eq_true_2 by lia. repeat split; try done; simpl in *; try lia.
      rewrite <- Zplus_mod. f_equal. lia.
    + by rewrite bool_decide_eq_false_2 by lia.
Qed.

End SortParam.
