(* ===== verification/CDouble.v ===== *)
(** * C doubles

    The type [double] is IEEE binary64: values of Stdlib's [spec_float] with 53
    bits of precision and exponents below 1024.  Operations are the correctly
    rounded ones of [SpecFloat], so a definition over doubles evaluates to the
    bits the compiled code computes.  Conversions to integers truncate, and
    have no result outside the target type, where C leaves them undefined. *)

From Stdlib Require Import ZArith Lia SpecFloat.
From S2P Require Import Prelude.
From stdpp Require Import prelude.
Local Open Scope Z_scope.

Definition double := spec_float.

(** Integers are converted with one rounding (exact below 2^53). *)
Definition of_int (n : Z) : double := binary_normalize 53 1024 n 0 false.

Definition dmul : double -> double -> double := SFmul 53 1024.
Definition ddiv : double -> double -> double := SFdiv 53 1024.
Definition dadd : double -> double -> double := SFadd 53 1024.
Definition dsub : double -> double -> double := SFsub 53 1024.

Definition dlt (a b : double) : bool := SFltb a b.
Definition dle (a b : double) : bool := SFleb a b.
Definition deq (a b : double) : bool := SFeqb a b.

(** The integer a finite double is truncated to. *)
Definition dtrunc (d : double) : option Z :=
  match d with
  | S754_zero _ => Some 0
  | S754_finite s m e =>
      let a := if 0 <=? e then Zpos m * 2 ^ e else Zpos m / 2 ^ (- e) in
      Some (if s : bool then - a else a)
  | _ => None
  end.

(** A cast to an unsigned type of [w] bits. *)
Definition to_uint (w : Z) (d : double) : option Z :=
  n ← dtrunc d; if (0 <=? n) && (n <? 2 ^ w) then Some n else None.

(** [floor] and [ceil]: the integers next to a finite double.  A finite value
    with a negative exponent has fewer than 53 integer bits, so that the
    conversion back is exact; the sign of a zero result is kept. *)
Definition dround (up : bool) (d : double) : double :=
  match d with
  | S754_finite s m e =>
      if 0 <=? e then d
      else
        let q := (if s then Zneg m else Zpos m) / 2 ^ (- e) in
        let exact := (Zpos m mod 2 ^ (- e) =? 0) in
        let n := if up && negb exact then q + 1 else q in
        if n =? 0 then S754_zero s else of_int n
  | _ => d
  end.

Definition dfloor : double -> double := dround false.
Definition dceil : double -> double := dround true.

Lemma to_uint_range w d n : to_uint w d = Some n -> urange w n.
Proof.
  unfold to_uint. intros (k&_&H)%bind_Some. case_match eqn:E; simplify_eq.
  apply andb_true_iff in E as [?%Z.leb_le ?%Z.ltb_lt]. done.
Qed.

#[export] Hint Resolve to_uint_range : cint.
