(* ===== verification/DoubleOrder.v ===== *)
(** * The order of C doubles

    Every double that is not a NaN denotes an integral number of units of
    2^-1074 (the infinities a number beyond all others), and C's comparisons
    are the comparisons of these numbers. *)

From Stdlib Require Import ZArith Lia SpecFloat.
From S2P Require Import Prelude CDouble.
From stdpp Require Import prelude.
Local Open Scope Z_scope.

(** The value in units of 2^-1074. *)
Definition dval (d : double) : Z :=
  match d with
  | S754_zero _ | S754_nan => 0
  | S754_infinity s => if s then - 2 ^ 2200 else 2 ^ 2200
  | S754_finite s m e => (if s then -1 else 1) * (Zpos m * 2 ^ (e + 1074))
  end.

(** A binary64 value that is not a NaN. *)
Definition num (d : double) : Prop := valid_binary 53 1024 d = true /\ d <> S754_nan.

Lemma digits2_pos_bounds m :
  2 ^ (Zpos (digits2_pos m) - 1) <= Zpos m < 2 ^ Zpos (digits2_pos m).
Proof.
  assert (forall p, 2 ^ Zpos (Pos.succ p) = 2 * 2 ^ Zpos p) as Hs.
  { intros p. rewrite Pos2Z.inj_succ, Z.pow_succ_r by lia. done. }
  assert (forall p, 2 ^ (Zpos (Pos.succ p) - 1) = 2 * 2 ^ (Zpos p - 1)) as Hp.
  { intros p. rewrite Pos2Z.inj_succ, <- Z.pow_succ_r by lia. f_equal. lia. }
  induction m as [m IH|m IH|]; cbn [digits2_pos]; [rewrite Hs, Hp; lia..|done].
Qed.

(** What a canonical mantissa says: 53 bits, or the least exponent. *)
Lemma bounded_inv m e :
  bounded 53 1024 m e = true ->
  -1074 <= e <= 971 /\ Zpos m < 2 ^ 53 /\ (-1074 < e -> 2 ^ 52 <= Zpos m).
Proof.
  unfold bounded, canonical_mantissa, fexp, emin.
  intros [H1%Z.eqb_eq H2%Z.leb_le]%andb_true_iff. pose proof (digits2_pos_bounds m) as [Hl Hu].
  split; [lia|]. assert (Zpos (digits2_pos m) <= 53) as Hd by lia. split.
  - eapply Z.lt_le_trans; [exact Hu|]. apply Z.pow_le_mono_r; lia.
  - intros He. assert (Zpos (digits2_pos m) = 53) as E by lia. rewrite E in Hl. exact Hl.
Qed.

Lemma pos_compare_cont m1 m2 : Pos.compare_cont Eq m1 m2 = (Zpos m1 ?= Zpos m2).
Proof. done. Qed.

(** The magnitude of finite doubles is ordered by exponent, then mantissa. *)
Lemma magnitude_compare m1 e1 m2 e2 :
  bounded 53 1024 m1 e1 = true -> bounded 53 1024 m2 e2 = true ->
  match e1 ?= e2 with Lt => Lt | Gt => Gt | Eq => Pos.compare_cont Eq m1 m2 end =
  (Zpos m1 * 2 ^ (e1 + 1074) ?= Zpos m2 * 2 ^ (e2 + 1074)).
Proof.
  intros (B1&U1&L1)%bounded_inv (B2&U2&L2)%bounded_inv.
  assert (forall m e m' e', Zpos m < 2 ^ 53 -> 2 ^ 52 <= Zpos m' -> -1074 <= e -> e < e' ->
    Zpos m * 2 ^ (e + 1074) < Zpos m' * 2 ^ (e' + 1074)) as Hlt.
  { intros m e m' e' Hm Hm' He Hee. assert (2 ^ (e' + 1074) = 2 * 2 ^ (e + 1074) * 2 ^ (e' - e - 1)) as ->.
    { rewrite <- (Z.pow_1_r 2) at 2. rewrite <- !Z.pow_add_r by lia. f_equal. lia. }
    assert (0 < 2 ^ (e + 1074)) by (apply Z.pow_pos_nonneg; lia).
    assert (1 <= 2 ^ (e' - e - 1)) by (pose proof (Z.pow_pos_nonneg 2 (e' - e - 1)); lia).
    change (2 ^ 53) with (2 * 2 ^ 52) in Hm. set (P := 2 ^ (e + 1074)) in *.
    apply Z.lt_le_trans with (2 * Zpos m' * P); [apply Z.mul_lt_mono_pos_r; lia|nia]. }
  destruct (Z.compare_spec e1 e2) as [->|He|He]; symmetry.
  - rewrite pos_compare_cont. symmetry. apply Zmult_compare_compat_r. apply Z.lt_gt, Z.pow_pos_nonneg; lia.
  - apply Z.compare_lt_iff, Hlt; [done|apply L2; lia|lia|done].
  - apply Z.compare_gt_iff, Hlt; [done|apply L1; lia|lia|done].
Qed.

Lemma magnitude_range m e :
  bounded 53 1024 m e = true -> 0 < Zpos m * 2 ^ (e + 1074) < 2 ^ 2200.
Proof.
  intros (B&U&_)%bounded_inv.
  assert (0 < 2 ^ (e + 1074)) by (apply Z.pow_pos_nonneg; lia). split; [lia|].
  apply Z.lt_le_trans with (2 ^ 53 * 2 ^ (e + 1074)); [nia|].
  rewrite <- Z.pow_add_r by lia. apply Z.pow_le_mono_r; lia.
Qed.

Lemma SFcompare_val a b : num a -> num b -> SFcompare a b = Some (dval a ?= dval b).
Proof.
  intros [Va Na] [Vb Nb].
  assert (0 < 2 ^ 2200) as Hbig by (apply Z.pow_pos_nonneg; lia).
  destruct a as [sa|sa| |sa ma ea], b as [sb|sb| |sb mb eb]; try done;
    cbn [SFcompare dval valid_binary] in *;
    try pose proof (magnitude_range _ _ Va) as Ra; try pose proof (magnitude_range _ _ Vb) as Rb;
    try pose proof (magnitude_compare _ _ _ _ Va Vb) as Hc;
    set (big := 2 ^ 2200) in *; clearbody big; f_equal.
  - destruct sb; symmetry; [apply Z.compare_gt_iff|apply Z.compare_lt_iff]; lia.
  - destruct sb; symmetry; [apply Z.compare_gt_iff|apply Z.compare_lt_iff]; lia.
  - destruct sa; symmetry; [apply Z.compare_lt_iff|apply Z.compare_gt_iff]; lia.
  - destruct sa, sb; symmetry; first [apply Z.compare_eq_iff; lia|apply Z.compare_lt_iff; lia|
      apply Z.compare_gt_iff; lia].
  - destruct sa, sb; symmetry; first [apply Z.compare_lt_iff; lia|apply Z.compare_gt_iff; lia].
  - destruct sa; symmetry; [apply Z.compare_lt_iff|apply Z.compare_gt_iff]; lia.
  - destruct sa, sb; symmetry; first [apply Z.compare_lt_iff; lia|apply Z.compare_gt_iff; lia].
  - destruct sa, sb; rewrite ?Z.mul_1_l.
    + replace (-1 * (Zpos ma * 2 ^ (ea + 1074))) with (- (Zpos ma * 2 ^ (ea + 1074))) by lia.
      replace (-1 * (Zpos mb * 2 ^ (eb + 1074))) with (- (Zpos mb * 2 ^ (eb + 1074))) by lia.
      rewrite Z.compare_opp, (Z.compare_antisym (Zpos ma * _)), <- Hc. by destruct (ea ?= eb).
    + symmetry. apply Z.compare_lt_iff. lia.
    + symmetry. apply Z.compare_gt_iff. lia.
    + exact Hc.
Qed.

(** C's operators as comparisons of values. *)
Lemma dlt_val a b : num a -> num b -> dlt a b = (dval a <? dval b).
Proof. intros Ha Hb. unfold dlt, SFltb, Z.ltb. rewrite SFcompare_val by done. by destruct (_ ?= _). Qed.

Lemma dle_val a b : num a -> num b -> dle a b = (dval a <=? dval b).
Proof. intros Ha Hb. unfold dle, SFleb, Z.leb. rewrite SFcompare_val by done. by destruct (_ ?= _). Qed.

Lemma deq_val a b : num a -> num b -> deq a b = (dval a =? dval b).
Proof.
  intros Ha Hb. unfold deq, SFeqb. rewrite SFcompare_val by done.
  destruct (Z.compare_spec (dval a) (dval b)) as [E|E|E]; symmetry;
    [apply Z.eqb_eq|apply Z.eqb_neq|apply Z.eqb_neq]; lia.
Qed.
