(* ===== verification/Mbr.v ===== *)
(** * Bounding rectangles (struct MBR of private/spatial.h)

    A minimal bounding rectangle has four doubles.  The theorems read it as a
    set of points of the plane, with coordinates in the units of
    [DoubleOrder.dval]: predicates and operations of the struct are compared
    with the relations of these sets.  [within] is declared in the header only
    and a parameter. *)

From Stdlib Require Import ZArith Lia QArith Lqa SpecFloat.
From S2P Require Import Prelude CDouble DoubleOrder.
From stdpp Require Import prelude list.
Local Open Scope Z_scope.

Module Mbr.

Record st_point_2d := mk_point { x : double; y : double }.

Record MBR := mk { xmin : double; ymin : double; xmax : double; ymax : double }.

Definition DBL_MAX : double := S754_finite false 9007199254740991 971.
Definition minus_DBL_MAX : double := S754_finite true 9007199254740991 971.

(** ** Constructors *)

Definition construct : MBR := mk DBL_MAX DBL_MAX minus_DBL_MAX minus_DBL_MAX.
Definition of_corners (min max : st_point_2d) : MBR := mk (x min) (y min) (x max) (y max).

Definition add_xy (b : MBR) (px py : double) : MBR :=
  let b := if dlt px (xmin b) then mk px (ymin b) (xmax b) (ymax b) else b in
  let b := if dlt (xmax b) px then mk (xmin b) (ymin b) px (ymax b) else b in
  let b := if dlt py (ymin b) then mk (xmin b) py (xmax b) (ymax b) else b in
  if dlt (ymax b) py then mk (xmin b) (ymin b) (xmax b) py else b.

Definition add_mbr (b mbr : MBR) : MBR :=
  let b := if dlt (xmin mbr) (xmin b) then mk (xmin mbr) (ymin b) (xmax b) (ymax b) else b in
  let b := if dlt (xmax b) (xmax mbr) then mk (xmin b) (ymin b) (xmax mbr) (ymax b) else b in
  let b := if dlt (ymin mbr) (ymin b) then mk (xmin b) (ymin mbr) (xmax b) (ymax b) else b in
  if dlt (ymax b) (ymax mbr) then mk (xmin b) (ymin b) (xmax b) (ymax mbr) else b.

(** [MBR(mbr1, mbr2)]. *)
Definition of_two (mbr1 mbr2 : MBR) : MBR :=
  add_mbr (mk (xmin mbr1) (ymin mbr1) (xmax mbr1) (ymax mbr1)) mbr2.

Definition buffer (b : MBR) (d : double) : MBR :=
  mk (dsub (xmin b) d) (dsub (ymin b) d) (dadd (xmax b) d) (dadd (ymax b) d).

(** ** Predicates: [this], then the argument *)

Definition equals (b mbr : MBR) : bool :=
  deq (xmin mbr) (xmin b) && deq (ymin mbr) (ymin b) &&
  deq (xmax mbr) (xmax b) && deq (ymax mbr) (ymax b).

Definition disjoint (b mbr : MBR) : bool :=
  dlt (xmax b) (xmin mbr) || dlt (ymax b) (ymin mbr) ||
  dlt (xmax mbr) (xmin b) || dlt (ymax mbr) (ymin b).

Definition intersects (b mbr : MBR) : bool := negb (disjoint b mbr).

Definition touches (b mbr : MBR) : bool :=
  ((deq (xmin mbr) (xmax b) || deq (xmax mbr) (xmin b)) &&
   ((dle (ymin b) (ymin mbr) && dle (ymin mbr) (ymax b)) ||
    (dle (ymin b) (ymax mbr) && dle (ymax mbr) (ymax b)))) ||
  ((deq (ymin mbr) (ymax b) || deq (ymax mbr) (ymin b)) &&
   ((dle (xmin b) (xmin mbr) && dle (xmin mbr) (xmax b)) ||
    (dle (xmin b) (xmax mbr) && dle (xmax mbr) (xmax b)))).

Definition contains (b mbr : MBR) : bool :=
  dle (xmin b) (xmin mbr) && dle (ymin b) (ymin mbr) &&
  dle (xmax mbr) (xmax b) && dle (ymax mbr) (ymax b).

Definition inner_point (b : MBR) (px py : double) : bool :=
  dlt (xmin b) px && dlt px (xmax b) && dlt (ymin b) py && dlt py (ymax b).

Definition dimension (b : MBR) : Z :=
  let d := 0 in
  if dlt (xmax b) (xmin b) then -1
  else
    let d := if dlt (xmin b) (xmax b) then d + 1 else d in
    if dlt (ymax b) (ymin b) then -1
    else if dlt (ymin b) (ymax b) then d + 1 else d.

Definition MY_MAX (a b : double) : double := if dlt b a then a else b.
Definition MY_MIN (a b : double) : double := if dlt a b then a else b.

Definition intersection (b mbr : MBR) : MBR :=
  mk (MY_MAX (xmin b) (xmin mbr)) (MY_MAX (ymin b) (ymin mbr))
     (MY_MIN (xmax b) (xmax mbr)) (MY_MIN (ymax b) (ymax mbr)).

Definition overlaps (within : MBR -> MBR -> bool) (b mbr : MBR) : bool :=
  let d := dimension b in
  if negb (d =? dimension mbr) || (d <=? 0) || contains b mbr || within b mbr then false
  else d =? dimension (intersection b mbr).

Definition valid (b : MBR) : bool := dle (xmin b) (xmax b) && dle (ymin b) (ymax b).

(** ** Intervals of the line *)

Definition closed (lo hi : Z) (q : Q) : Prop := (inject_Z lo <= q /\ q <= inject_Z hi)%Q.
Definition open (lo hi : Z) (q : Q) : Prop := (inject_Z lo < q /\ q < inject_Z hi)%Q.

Lemma closed_meet l1 h1 l2 h2 :
  (exists q, closed l1 h1 q /\ closed l2 h2 q) <-> l1 <= h1 /\ l2 <= h2 /\ l1 <= h2 /\ l2 <= h1.
Proof.
  split.
  - intros (q&[A B]&[C D]). rewrite !Zle_Qle. repeat split; eauto using Qle_trans.
  - intros (A&B&C&D). exists (inject_Z (Z.max l1 l2)). unfold closed. rewrite <- !Zle_Qle. lia.
Qed.

Lemma closed_subset l1 h1 l2 h2 :
  l2 <= h2 -> (forall q, closed l2 h2 q -> closed l1 h1 q) <-> l1 <= l2 /\ h2 <= h1.
Proof.
  intros H. split.
  - intros Hs. destruct (Hs (inject_Z l2)) as [A _]; [split; rewrite <- !Zle_Qle; lia|].
    destruct (Hs (inject_Z h2)) as [_ B]; [split; rewrite <- !Zle_Qle; lia|].
    rewrite <- !Zle_Qle in A, B. done.
  - intros [A B] q [C D]. rewrite !Zle_Qle in A, B. split; eauto using Qle_trans.
Qed.

Lemma open_meet l1 h1 l2 h2 :
  (exists q, open l1 h1 q /\ open l2 h2 q) <-> l1 < h1 /\ l2 < h2 /\ l1 < h2 /\ l2 < h1.
Proof.
  split.
  - intros (q&[A B]&[C D]). rewrite !Zlt_Qlt. repeat split; eauto using Qlt_trans.
  - intros (A&B&C&D). exists (inject_Z (Z.max l1 l2) + (1 # 2))%Q. unfold open.
    assert (forall l, l <= Z.max l1 l2 -> (inject_Z l < inject_Z (Z.max l1 l2) + (1 # 2))%Q) as Hl.
    { intros l Hl. rewrite Zle_Qle in Hl. lra. }
    assert (forall h, Z.max l1 l2 + 1 <= h -> (inject_Z (Z.max l1 l2) + (1 # 2) < inject_Z h)%Q) as Hh.
    { intros h Hh. rewrite Zle_Qle in Hh. rewrite inject_Z_plus in Hh. change (inject_Z 1) with 1%Q in Hh. lra. }
    split; split; first [apply Hl; lia|apply Hh; lia].
Qed.

(** ** Rectangles of the plane *)

Definition plane : Type := Q * Q.

(** The points of a rectangle, and of its interior. *)
Definition inside (b : MBR) (p : plane) : Prop :=
  closed (dval (xmin b)) (dval (xmax b)) (fst p) /\ closed (dval (ymin b)) (dval (ymax b)) (snd p).
Definition interior (b : MBR) (p : plane) : Prop :=
  open (dval (xmin b)) (dval (xmax b)) (fst p) /\ open (dval (ymin b)) (dval (ymax b)) (snd p).

(** No coordinate is a NaN. *)
Record nums (b : MBR) : Prop := {
  num_xmin : num (xmin b); num_ymin : num (ymin b);
  num_xmax : num (xmax b); num_ymax : num (ymax b)
}.

(** [compare_values] turns the comparisons of doubles in the goal into
    comparisons of their values. *)
Ltac compare_values :=
  repeat match goal with
  | H : nums _ |- _ => destruct H as [? ? ? ?]
  end;
  repeat first [rewrite dlt_val by done | rewrite dle_val by done | rewrite deq_val by done].
Ltac reflect_values :=
  repeat first [rewrite negb_true_iff | rewrite andb_true_iff | rewrite orb_true_iff |
    rewrite orb_false_iff | rewrite Z.ltb_lt | rewrite Z.leb_le | rewrite Z.eqb_eq |
    rewrite Z.ltb_ge].

Lemma valid_values b :
  nums b -> valid b = true <-> dval (xmin b) <= dval (xmax b) /\ dval (ymin b) <= dval (ymax b).
Proof. intros Hb. unfold valid. compare_values. reflect_values. done. Qed.

Lemma dimension_two b :
  nums b -> dimension b = 2 <-> dval (xmin b) < dval (xmax b) /\ dval (ymin b) < dval (ymax b).
Proof.
  intros Hb. unfold dimension. compare_values.
  repeat case_match; rewrite ?Z.ltb_lt, ?Z.ltb_ge in *; lia.
Qed.

Lemma planes_meet (P1 P2 Q1 Q2 : Q -> Prop) :
  (exists p : plane, (P1 (fst p) /\ P2 (snd p)) /\ (Q1 (fst p) /\ Q2 (snd p))) <->
  (exists q, P1 q /\ Q1 q) /\ (exists q, P2 q /\ Q2 q).
Proof.
  split.
  - intros ([a c]&[? ?]&[? ?]). split; [by exists a|by exists c].
  - intros [(a&?&?) (c&?&?)]. by exists (a, c).
Qed.

Lemma inside_meet a b :
  (exists p, inside a p /\ inside b p) <->
  (dval (xmin a) <= dval (xmax a) /\ dval (xmin b) <= dval (xmax b) /\
   dval (xmin a) <= dval (xmax b) /\ dval (xmin b) <= dval (xmax a)) /\
  (dval (ymin a) <= dval (ymax a) /\ dval (ymin b) <= dval (ymax b) /\
   dval (ymin a) <= dval (ymax b) /\ dval (ymin b) <= dval (ymax a)).
Proof. unfold inside. rewrite planes_meet, !closed_meet. done. Qed.

Lemma interiors_meet a b :
  (exists p, interior a p /\ interior b p) <->
  (dval (xmin a) < dval (xmax a) /\ dval (xmin b) < dval (xmax b) /\
   dval (xmin a) < dval (xmax b) /\ dval (xmin b) < dval (xmax a)) /\
  (dval (ymin a) < dval (ymax a) /\ dval (ymin b) < dval (ymax b) /\
   dval (ymin a) < dval (ymax b) /\ dval (ymin b) < dval (ymax a)).
Proof. unfold interior. rewrite planes_meet, !open_meet. done. Qed.

(** A valid rectangle has a point, so that inclusion compares the bounds. *)
Lemma inside_subset a b :
  dval (xmin b) <= dval (xmax b) -> dval (ymin b) <= dval (ymax b) ->
  (forall p, inside b p -> inside a p) <->
  (dval (xmin a) <= dval (xmin b) /\ dval (xmax b) <= dval (xmax a)) /\
  (dval (ymin a) <= dval (ymin b) /\ dval (ymax b) <= dval (ymax a)).
Proof.
  intros Hx Hy. rewrite <- !closed_subset by done. unfold inside. split.
  - intros H. split; intros q Hq.
    + apply (H (q, inject_Z (dval (ymin b)))). split; [done|]. split; cbn [fst snd]; rewrite <- Zle_Qle; lia.
    + apply (H (inject_Z (dval (xmin b)), q)). split; [|done]. split; cbn [fst snd]; rewrite <- Zle_Qle; lia.
  - intros [H1 H2] p [? ?]. auto.
Qed.

(** The predicates of a rectangle are the relations of the point sets:
    for valid rectangles without NaN, [disjoint] and [intersects] say whether
    they share a point, [contains] whether one includes the other, [equals]
    whether they are the same set; [valid] says whether there is a point at
    all, dimension 2 whether there is an interior, and [inner_point] whether a
    point is in it. *)
Theorem mbr_relations a b px py :
  nums a -> nums b -> valid a = true -> valid b = true -> num px -> num py ->
  (disjoint a b = true <-> ~ exists p, inside a p /\ inside b p) /\
  (intersects a b = true <-> exists p, inside a p /\ inside b p) /\
  (contains a b = true <-> forall p, inside b p -> inside a p) /\
  (equals a b = true <-> forall p, inside a p <-> inside b p) /\
  (dimension a = 2 <-> exists p, interior a p) /\
  (inner_point a px py = true <-> interior a (inject_Z (dval px), inject_Z (dval py))).
Proof.
  intros Ha Hb Va Vb Hpx Hpy. apply valid_values in Va as [Xa Ya], Vb as [Xb Yb]; [|done..].
  assert (forall b, (exists p, interior b p) <-> exists p, interior b p /\ interior b p) as Hdup.
  { intros c. split; intros [p ?]; exists p; tauto. }
  split; [|split; [|split; [|split; [|split]]]].
  - rewrite inside_meet. unfold disjoint. compare_values. reflect_values. lia.
  - rewrite inside_meet. unfold intersects, disjoint. compare_values. reflect_values. lia.
  - rewrite inside_subset by done. unfold contains. compare_values. reflect_values. lia.
  - transitivity ((forall p, inside a p -> inside b p) /\ (forall p, inside b p -> inside a p)); [|firstorder].
    rewrite !inside_subset by done. unfold equals. compare_values. reflect_values. lia.
  - rewrite dimension_two, Hdup, interiors_meet by done. lia.
  - unfold inner_point, interior, open. compare_values. cbn [fst snd]. rewrite <- !Zlt_Qlt. reflect_values. tauto.
Qed.

Lemma touches_values a b :
  nums a -> nums b ->
  let xa := dval (xmin a) in let Xa := dval (xmax a) in
  let ya := dval (ymin a) in let Ya := dval (ymax a) in
  let xb := dval (xmin b) in let Xb := dval (xmax b) in
  let yb := dval (ymin b) in let Yb := dval (ymax b) in
  touches a b = true <->
  ((xb = Xa \/ Xb = xa) /\ ((ya <= yb /\ yb <= Ya) \/ (ya <= Yb /\ Yb <= Ya))) \/
  ((yb = Ya \/ Yb = ya) /\ ((xa <= xb /\ xb <= Xa) \/ (xa <= Xb /\ Xb <= Xa))).
Proof. intros Ha Hb. unfold touches. cbn zeta. compare_values. reflect_values. tauto. Qed.

(** [touches], asked in both directions, says whether two rectangles with
    an interior share a point of their borders but none of their interiors; one
    direction alone never claims more. *)
Theorem touches_either_way a b :
  nums a -> nums b -> dimension a = 2 -> dimension b = 2 ->
  ((touches a b = true \/ touches b a = true) <->
   (exists p, inside a p /\ inside b p) /\ ~ exists p, interior a p /\ interior b p).
Proof.
  intros Ha Hb Da Db. apply dimension_two in Da as [? ?], Db as [? ?]; [|done..].
  rewrite !touches_values, inside_meet, interiors_meet by done. cbn zeta. lia.
Qed.

(** The rectangle [0, 1] x [1, 2] and a taller one at its right side. *)
Definition low : MBR := mk (of_int 0) (of_int 1) (of_int 1) (of_int 2).
Definition tall : MBR := mk (of_int 1) (of_int 0) (of_int 2) (of_int 3).

(** [touches] is not symmetric: for a rectangle and a taller one that
    borders on it, the taller one says that they touch and the other that they
    do not, although they share a border. *)
Theorem touches_asymmetric :
  touches tall low = true /\ touches low tall = false /\ intersects low tall = true /\
  (exists p, inside low p /\ inside tall p) /\ ~ exists p, interior low p /\ interior tall p.
Proof.
  split; [done|]. split; [done|]. split; [done|].
  rewrite inside_meet, interiors_meet. vm_compute. split; [repeat split; discriminate|].
  intros ((_&_&_&H)&_). discriminate.
Qed.

(** ** Overlapping *)

Section overlapping.
Context (within : MBR -> MBR -> bool).

(** MBRWithin of two areas: the first lies in the second. *)
Hypothesis within_areas : forall a b,
  nums a -> nums b -> dimension a = 2 -> dimension b = 2 ->
  within a b = true <-> forall p, inside a p -> inside b p.

Lemma max_value a b : num a -> num b -> num (MY_MAX a b) /\ dval (MY_MAX a b) = Z.max (dval a) (dval b).
Proof.
  intros Ha Hb. unfold MY_MAX. rewrite dlt_val by done.
  destruct (Z.ltb_spec (dval b) (dval a)); (split; [done|lia]).
Qed.

Lemma min_value a b : num a -> num b -> num (MY_MIN a b) /\ dval (MY_MIN a b) = Z.min (dval a) (dval b).
Proof.
  intros Ha Hb. unfold MY_MIN. rewrite dlt_val by done.
  destruct (Z.ltb_spec (dval a) (dval b)); (split; [done|lia]).
Qed.

(** Two areas overlap exactly when their interiors meet and neither
    includes the other. *)
Theorem overlaps_areas a b :
  nums a -> nums b -> dimension a = 2 -> dimension b = 2 ->
  (overlaps within a b = true <->
   (exists p, interior a p /\ interior b p) /\
   ~ (forall p, inside b p -> inside a p) /\ ~ (forall p, inside a p -> inside b p)).
Proof.
  intros Ha Hb Da Db. pose proof Da as [Xa Ya]%dimension_two; [|done].
  pose proof Db as [Xb Yb]%dimension_two; [|done].
  unfold overlaps. rewrite Da, Db. cbn [negb orb Z.eqb Z.leb Pos.eqb Z.compare].
  rewrite <- (within_areas a b), inside_subset by (done || lia).
  assert (contains a b = true <-> (dval (xmin a) <= dval (xmin b) /\ dval (xmax b) <= dval (xmax a)) /\
    (dval (ymin a) <= dval (ymin b) /\ dval (ymax b) <= dval (ymax a))) as <-.
  { unfold contains. compare_values. reflect_values. tauto. }
  rewrite interiors_meet.
  assert (2 =? dimension (intersection a b) = true <->
    (Z.max (dval (xmin a)) (dval (xmin b)) < Z.min (dval (xmax a)) (dval (xmax b)) /\
     Z.max (dval (ymin a)) (dval (ymin b)) < Z.min (dval (ymax a)) (dval (ymax b)))) as Hint.
  { destruct Ha, Hb. rewrite Z.eqb_eq, (Z.eq_sym_iff 2).
    assert (nums (intersection a b)) as Hn by (constructor; (apply max_value || apply min_value); done).
    rewrite (dimension_two _ Hn). unfold intersection. cbn [xmin xmax ymin ymax].
    rewrite (proj2 (max_value (xmin a) (xmin b) ltac:(done) ltac:(done))),
      (proj2 (max_value (ymin a) (ymin b) ltac:(done) ltac:(done))),
      (proj2 (min_value (xmax a) (xmax b) ltac:(done) ltac:(done))),
      (proj2 (min_value (ymax a) (ymax b) ltac:(done) ltac:(done))). done. }
  destruct (contains a b), (within a b); cbn [orb].
  - split; [done|tauto].
  - split; [done|]. intros (_&H&_). by destruct H.
  - split; [done|]. intros (_&_&H). by destruct H.
  - rewrite Hint. split; [|lia]. intros [? ?]. split; [lia|done].
Qed.
End overlapping.

(** ** Growing rectangles *)

(** A coordinate that can be stored in a geometry: neither NaN nor infinite. *)
Definition finite (d : double) : Prop := num d /\ forall s, d <> S754_infinity s.

Lemma finite_range d : finite d -> dval minus_DBL_MAX <= dval d <= dval DBL_MAX.
Proof.
  intros [[Hv Hn] Hi]. assert (0 < dval DBL_MAX /\ dval minus_DBL_MAX = - dval DBL_MAX) as [Hp ->] by done.
  destruct d as [s|s| |s m e]; [change (dval (S754_zero s)) with 0; lia|by destruct (Hi s)|done|].
  cbn [valid_binary] in Hv. apply bounded_inv in Hv as (He&Hm&_).
  assert (Zpos m * 2 ^ (e + 1074) <= dval DBL_MAX) as Hle.
  { change (dval DBL_MAX) with (1 * (9007199254740991 * 2 ^ (971 + 1074))). rewrite Z.mul_1_l.
    assert (2 ^ (e + 1074) <= 2 ^ (971 + 1074)) by (apply Z.pow_le_mono_r; lia).
    assert (0 < 2 ^ (e + 1074)) by (apply Z.pow_pos_nonneg; lia).
    change (2 ^ 53) with 9007199254740992 in Hm.
    apply Z.mul_le_mono_nonneg; lia. }
  assert (0 < Zpos m * 2 ^ (e + 1074)) by (apply Z.mul_pos_pos; [lia|apply Z.pow_pos_nonneg; lia]).
  change (dval (S754_finite s m e)) with ((if s then -1 else 1) * (Zpos m * 2 ^ (e + 1074))).
  destruct s; lia.
Qed.

(** One coordinate of [add_xy]: the bounds [lo] and [hi] of the values [vs]. *)
Definition widen (lo hi v : double) : double * double :=
  (if dlt v lo then v else lo, if dlt hi v then v else hi).

Lemma add_xy_widen b px py :
  add_xy b px py =
    mk (fst (widen (xmin b) (xmax b) px)) (fst (widen (ymin b) (ymax b) py))
       (snd (widen (xmin b) (xmax b) px)) (snd (widen (ymin b) (ymax b) py)).
Proof. unfold add_xy, widen. cbn [fst snd]. destruct b. cbn [xmin xmax ymin ymax].
  repeat (case_match; cbn [xmin xmax ymin ymax] in * ); congruence. Qed.

(** The bounds are the least and the greatest of the values; of no values they
    are the bounds of the empty rectangle. *)
Record bounds (lo hi : double) (vs : list double) : Prop := {
  bounds_num : num lo /\ num hi;
  bounds_le : Forall (fun v => dval lo <= dval v <= dval hi) vs;
  bounds_tight : match vs with
    | [] => lo = DBL_MAX /\ hi = minus_DBL_MAX
    | _ => Exists (fun v => dval v = dval lo) vs /\ Exists (fun v => dval v = dval hi) vs
    end
}.

Lemma bounds_widen lo hi vs v :
  bounds lo hi vs -> finite v ->
  bounds (fst (widen lo hi v)) (snd (widen lo hi v)) (v :: vs).
Proof.
  intros [[Hl Hh] Hle Ht] Hf. pose proof (finite_range v Hf) as Hr. destruct Hf as [Hv _].
  unfold widen. rewrite !dlt_val by done. cbn [fst snd]. constructor.
  - split; by destruct (_ <? _).
  - apply Forall_cons. split.
    + destruct (Z.ltb_spec (dval v) (dval lo)), (Z.ltb_spec (dval hi) (dval v)); lia.
    + eapply Forall_impl; [exact Hle|]. intros u Hu. cbn in Hu.
      destruct (Z.ltb_spec (dval v) (dval lo)), (Z.ltb_spec (dval hi) (dval v)); lia.
  - destruct vs as [|u vs].
    + destruct Ht as [-> ->]. split; apply Exists_cons; left;
        destruct (Z.ltb_spec (dval v) (dval DBL_MAX)), (Z.ltb_spec (dval minus_DBL_MAX) (dval v)); lia.
    + destruct Ht as [T1 T2]. split; destruct (_ <? _); apply Exists_cons; first [by left|by right].
Qed.

(** The rectangle that [add_xy] makes of points, one after the other, from the
    empty one. *)
Definition of_points (ps : list st_point_2d) : MBR :=
  foldl (fun b p => add_xy b (x p) (y p)) construct ps.

Definition at_point (p : st_point_2d) : plane := (inject_Z (dval (x p)), inject_Z (dval (y p))).

Definition finite_point (p : st_point_2d) : Prop := finite (x p) /\ finite (y p).

Lemma of_points_bounds ps :
  Forall finite_point ps ->
  bounds (xmin (of_points ps)) (xmax (of_points ps)) (x <$> reverse ps) /\
  bounds (ymin (of_points ps)) (ymax (of_points ps)) (y <$> reverse ps).
Proof.
  induction ps as [|p ps IH] using rev_ind.
  - intros _. split; (constructor; [by repeat split|constructor|done]).
  - intros [Hf [[Hx Hy] _]%Forall_cons]%Forall_app. destruct (IH Hf) as [IH1 IH2].
    unfold of_points. rewrite foldl_app. cbn [foldl]. fold (of_points ps).
    rewrite add_xy_widen, reverse_app. cbn [xmin xmax ymin ymax].
    split; by apply bounds_widen.
Qed.

Lemma bounds_minimal lo hi vs l h :
  vs <> [] -> bounds lo hi vs -> Forall (fun u => l <= dval u <= h) vs ->
  l <= dval lo /\ dval hi <= h /\ dval lo <= dval hi.
Proof.
  intros Hne [_ Hle Ht] H. destruct vs as [|v vs]; [done|]. destruct Ht as [T1 T2].
  rewrite Forall_forall in H, Hle.
  apply Exists_exists in T1 as (u1&Hu1&E1), T2 as (u2&Hu2&E2).
  pose proof (H u1 Hu1). pose proof (H u2 Hu2). pose proof (Hle v ltac:(by left)). lia.
Qed.

(** Points in a rectangle, one coordinate at a time. *)
Lemma points_inside c ps :
  Forall (fun q => inside c (at_point q)) ps <->
  Forall (fun u => dval (xmin c) <= dval u <= dval (xmax c)) (x <$> reverse ps) /\
  Forall (fun u => dval (ymin c) <= dval u <= dval (ymax c)) (y <$> reverse ps).
Proof.
  rewrite !Forall_fmap, <- Forall_and, reverse_Permutation. apply Forall_iff. intros q.
  unfold inside, closed, at_point. cbn. by rewrite <- !Zle_Qle.
Qed.

(** C32: Adding points to an empty rectangle gives their bounding rectangle: it
    is valid, every point lies in it, and it is contained in every rectangle
    that contains the points. *)
Theorem mbr_of_points_is_hull ps :
  ps <> [] -> Forall finite_point ps ->
  let b := of_points ps in
  nums b /\ valid b = true /\ Forall (fun q => inside b (at_point q)) ps /\
  forall c, nums c -> Forall (fun q => inside c (at_point q)) ps ->
    contains c b = true /\ forall z, inside b z -> inside c z.
Proof.
  intros Hne Hf b. destruct (of_points_bounds _ Hf) as [Bx By]. fold b in Bx, By.
  assert (x <$> reverse ps <> [] /\ y <$> reverse ps <> []) as [Nx Ny].
  { split; intros E%fmap_nil_inv; by rewrite <- (reverse_involutive ps), E in Hne. }
  assert (nums b) as Hb.
  { destruct Bx as [[? ?] _ _], By as [[? ?] _ _]. by constructor. }
  destruct (bounds_minimal _ _ _ _ _ Nx Bx (bounds_le _ _ _ Bx)) as (_&_&Vx).
  destruct (bounds_minimal _ _ _ _ _ Ny By (bounds_le _ _ _ By)) as (_&_&Vy).
  split; [done|]. split; [by apply valid_values|].
  split; [apply points_inside; split; [apply (bounds_le _ _ _ Bx)|apply (bounds_le _ _ _ By)]|].
  intros c Hc [Cx Cy]%points_inside.
  destruct (bounds_minimal _ _ _ _ _ Nx Bx Cx) as (X1&X2&_).
  destruct (bounds_minimal _ _ _ _ _ Ny By Cy) as (Y1&Y2&_). split.
  - unfold contains. compare_values. reflect_values. lia.
  - apply inside_subset; lia.
Qed.

Ltac split_ltb :=
  repeat match goal with |- context [?u <? ?v] => destruct (Z.ltb_spec u v) end.

(** The rectangle of two rectangles is the least one that contains both. *)
Theorem of_two_is_hull a b :
  nums a -> nums b ->
  nums (of_two a b) /\ contains (of_two a b) a = true /\ contains (of_two a b) b = true /\
  forall c, nums c -> contains c a = true -> contains c b = true -> contains c (of_two a b) = true.
Proof.
  intros Ha Hb. assert (of_two a b = mk (if dlt (xmin b) (xmin a) then xmin b else xmin a)
    (if dlt (ymin b) (ymin a) then ymin b else ymin a)
    (if dlt (xmax a) (xmax b) then xmax b else xmax a)
    (if dlt (ymax a) (ymax b) then ymax b else ymax a)) as ->.
  { unfold of_two, add_mbr. cbn [xmin xmax ymin ymax].
    repeat (case_match; cbn [xmin xmax ymin ymax] in * ); congruence. }
  destruct Ha as [A1 A2 A3 A4], Hb as [B1 B2 B3 B4].
  assert (forall c p q, num p -> num q -> num (if (c : bool) then p else q)) as Hif by (by intros []).
  split; [constructor; by apply Hif|]. unfold contains. cbn [xmin xmax ymin ymax].
  rewrite !dlt_val by done. repeat split.
  - repeat (rewrite dle_val by first [done|by apply Hif]). reflect_values.
    split_ltb; lia.
  - repeat (rewrite dle_val by first [done|by apply Hif]). reflect_values.
    split_ltb; lia.
  - intros c [C1 C2 C3 C4].
    repeat (rewrite dle_val by first [done|by apply Hif]). reflect_values.
    split_ltb; lia.
Qed.

(** ** Witnesses *)

Lemma num_of_bool d : valid_binary 53 1024 d && negb (match d with S754_nan => true | _ => false end) = true -> num d.
Proof. intros [H1 H2]%andb_true_iff. split; [done|]. by intros ->. Qed.

Ltac solve_num := apply num_of_bool; vm_compute; reflexivity.

Lemma low_nums : nums low.
Proof. constructor; solve_num. Qed.
Lemma tall_nums : nums tall.
Proof. constructor; solve_num. Qed.

Lemma mbr_relations_witness :
  (exists p, inside low p /\ inside tall p) /\ contains low tall = false /\
  interior tall (inject_Z (dval (ddiv (of_int 3) (of_int 2))), inject_Z (dval (of_int 1))).
Proof.
  destruct (mbr_relations low tall (of_int 0) (of_int 0)) as (_&H&_);
    [exact low_nums|exact tall_nums|done|done|solve_num|solve_num|].
  destruct (mbr_relations tall low (ddiv (of_int 3) (of_int 2)) (of_int 1)) as (_&_&_&_&_&H2);
    [exact tall_nums|exact low_nums|done|done|solve_num|solve_num|].
  split; [by apply H|]. split; [done|by apply H2].
Defined.

Lemma touches_either_way_witness :
  (exists p, inside low p /\ inside tall p) /\ ~ exists p, interior low p /\ interior tall p.
Proof.
  apply (proj1 (touches_either_way low tall low_nums tall_nums eq_refl eq_refl)). by right.
Defined.

(** [within] as the converse of [contains], and two squares one of which is
    moved by half its side. *)
Definition sample_within (a b : MBR) : bool := contains b a.
Definition square : MBR := mk (of_int 0) (of_int 0) (of_int 2) (of_int 2).
Definition moved : MBR := mk (of_int 1) (of_int 1) (of_int 3) (of_int 3).

Lemma sample_within_areas a b :
  nums a -> nums b -> dimension a = 2 -> dimension b = 2 ->
  sample_within a b = true <-> forall p, inside a p -> inside b p.
Proof.
  intros Ha Hb [X Y]%dimension_two _; [|done]. rewrite inside_subset by lia.
  unfold sample_within, contains. compare_values. reflect_values. tauto.
Qed.

Lemma overlaps_areas_witness :
  (exists p, interior square p /\ interior moved p) /\ ~ (forall p, inside moved p -> inside square p).
Proof.
  assert (nums square) as Hs by (constructor; solve_num).
  assert (nums moved) as Hm by (constructor; solve_num).
  destruct (proj1 (overlaps_areas sample_within sample_within_areas square moved Hs Hm eq_refl eq_refl)) as (H1&H2&_);
    [done|]. done.
Defined.

Definition sample_points : list st_point_2d :=
  [mk_point (of_int 3) (of_int 1); mk_point (ddiv (of_int 1) (of_int 2)) (of_int 7);
   mk_point (of_int (-2)) (of_int 2)].

Lemma mbr_of_points_is_hull_witness :
  valid (of_points sample_points) = true /\
  of_points sample_points = mk (of_int (-2)) (of_int 1) (of_int 3) (of_int 7).
Proof.
  destruct (mbr_of_points_is_hull sample_points) as (_&H&_).
  - done.
  - repeat constructor; first [solve_num|vm_compute; reflexivity|by intros []].
  - split; [exact H|]. vm_compute. reflexivity.
Defined.

End Mbr.
