(* ===== verification/LooseScan.v ===== *)
(** * Loose index scans for semi-joins (class Loose_scan_opt of private/opt_subselect.h)

    For (oe1, .. oeN) IN (SELECT ie1, .. ieN ...) the optimizer considers the
    indexes of the first inner table: an index can enumerate the groups of
    duplicates if every equality is bound by the tables before or handled by
    the index, without gaps in its key parts.  What the class reads of the join,
    the table, its handler and the quick select are arguments; costs are
    doubles.  A shift by the width of its type or more is undefined and has no
    result ([key_part_map] is a 32-bit ulong in this build). *)

From Stdlib Require Import ZArith Lia SpecFloat.
From S2P Require Import Prelude Flags CDouble DoubleOrder.
From stdpp Require Import prelude list.
Local Open Scope Z_scope.
Local Open Scope cint_scope.

Module LooseScan.

Definition UINT_MAX : Z := 2 ^ 32 - 1.
(** The largest finite double. *)
Definition DBL_MAX : double := S754_finite false 9007199254740991 971.

(** [(type) 1 << n] for a type of [w] bits. *)
Definition one_shl (w n : Z) : option Z := if (0 <=? n) && (n <? w) then Some (Z.shiftl 1 n) else None.
Definition PREV_BITS (w a : Z) : option Z := b ← one_shl w a; Some (wrap w (b - 1)).

Record TABLE_LIST := mk_nest {
  sj_in_exprs : Z;
  sj_inner_tables : Z;
  sj_corr_tables : Z;
  sj_depends_on : Z
}.

Record JOIN := mk_join {
  emb_sjm_nest : bool;            (* the pointer is not null *)
  cur_sj_inner_tables : Z;
  loose_scan_switch : bool;       (* optimizer_flag(thd, OPTIMIZER_SWITCH_LOOSE_SCAN) *)
  const_tables : Z
}.

Record KEYUSE := mk_keyuse {
  sj_pred_no : Z;
  used_tables : Z;
  keypart : Z;
  read_order : bool               (* index_flags(key, 0, 1) & HA_READ_ORDER *)
}.

(** What is read of the table for one key. *)
Record key_facts := mk_key {
  partial_cols : bool;            (* key_uses_partial_cols(share, key) *)
  covering : bool;                (* covering_keys.is_set(key) *)
  stats_records : Z;              (* file->stats.records, ulonglong *)
  keyread_time : Z -> double;     (* file->keyread_time(key, 1, rows) *)
  rec_per_key : Z -> Z            (* key_info[key].rec_per_key[part], ulong *)
}.

Record quick_select := mk_quick { q_index : Z; q_is_range : bool; q_read_time : double; q_records : Z }.

Record Loose_scan_opt := mk_opt {
  try_loosescan : bool;
  bound_sj_equalities : Z;
  handled_sj_equalities : Z;
  loose_scan_keyparts : Z;
  max_loose_keypart : Z;
  part1_conds_met : bool;
  quick_uses_applicable_index : bool;
  quick_max_loose_keypart : Z;
  best_loose_scan_key : Z;
  best_loose_scan_cost : double;
  best_loose_scan_records : double;
  best_loose_scan_start_key : option N;
  best_max_loose_keypart : Z;
  best_ref_depend_map : Z
}.

(** The constructor; the members of the current key are left unset. *)
Definition new_opt (handled parts max : Z) (met : bool) : Loose_scan_opt :=
  mk_opt false 0 handled parts max met false 0 0 (of_int 0) (of_int 0) None 0 0.

(** Changes of groups of members. *)
Definition set_try (o : Loose_scan_opt) (t : bool) (bound : Z) (cost : double) : Loose_scan_opt :=
  mk_opt t bound (handled_sj_equalities o) (loose_scan_keyparts o) (max_loose_keypart o)
    (part1_conds_met o) (quick_uses_applicable_index o) (quick_max_loose_keypart o)
    (best_loose_scan_key o) cost (best_loose_scan_records o) (best_loose_scan_start_key o)
    (best_max_loose_keypart o) (best_ref_depend_map o).
Definition set_ref (o : Loose_scan_opt) (bound handled parts max : Z) (met : bool) : Loose_scan_opt :=
  mk_opt (try_loosescan o) bound handled parts max met
    (quick_uses_applicable_index o) (quick_max_loose_keypart o) (best_loose_scan_key o)
    (best_loose_scan_cost o) (best_loose_scan_records o) (best_loose_scan_start_key o)
    (best_max_loose_keypart o) (best_ref_depend_map o).
Definition set_quick (o : Loose_scan_opt) (max : Z) : Loose_scan_opt :=
  mk_opt (try_loosescan o) (bound_sj_equalities o) (handled_sj_equalities o) (loose_scan_keyparts o)
    (max_loose_keypart o) (part1_conds_met o) true max (best_loose_scan_key o)
    (best_loose_scan_cost o) (best_loose_scan_records o) (best_loose_scan_start_key o)
    (best_max_loose_keypart o) (best_ref_depend_map o).

(** A plan: key, cost, records, last key part, start key, dependencies. *)
Record plan := mk_plan {
  p_key : Z; p_cost : double; p_records : double; p_max : Z; p_start : option N; p_depend : Z
}.
(** The assignments to the six members of the best plan. *)
Definition set_best (o : Loose_scan_opt) (p : plan) : Loose_scan_opt :=
  mk_opt (try_loosescan o) (bound_sj_equalities o) (handled_sj_equalities o) (loose_scan_keyparts o)
    (max_loose_keypart o) (part1_conds_met o) (quick_uses_applicable_index o) (quick_max_loose_keypart o)
    (p_key p) (p_cost p) (p_records p) (p_start p) (p_max p) (p_depend p).

(** [get_bound_sj_equalities] is declared only. *)
Definition init (get_bound_sj_equalities : TABLE_LIST -> Z -> Z) (join : JOIN) (emb_sj_nest : option TABLE_LIST)
    (remaining_tables : Z) (o : Loose_scan_opt) : Loose_scan_opt :=
  match emb_sj_nest with
  | Some nest =>
      if negb (emb_sjm_nest join) && (sj_in_exprs nest <? 64) &&
         (Z.land remaining_tables (sj_inner_tables nest) =? sj_inner_tables nest) &&
         (cur_sj_inner_tables join =? 0) &&
         negb (truth (Z.land remaining_tables (sj_corr_tables nest))) &&
         truth (Z.land remaining_tables (sj_depends_on nest)) && loose_scan_switch join
      then set_try o true (get_bound_sj_equalities nest remaining_tables) DBL_MAX
      else set_try o (try_loosescan o) (bound_sj_equalities o) DBL_MAX
  | None => set_try o (try_loosescan o) (bound_sj_equalities o) DBL_MAX
  end.

Definition next_ref_key (o : Loose_scan_opt) : Loose_scan_opt :=
  set_ref o (bound_sj_equalities o) 0 0 0 false.

Definition add_keyuse (o : Loose_scan_opt) (remaining_tables : Z) (keyuse : KEYUSE) : option Loose_scan_opt :=
  if try_loosescan o && negb (sj_pred_no keyuse =? UINT_MAX) && read_order keyuse then
    pred ← one_shl 64 (sj_pred_no keyuse);
    if negb (truth (Z.land remaining_tables (used_tables keyuse))) then
      Some (set_ref o (Z.lor (bound_sj_equalities o) pred) (handled_sj_equalities o)
              (loose_scan_keyparts o) (max_loose_keypart o) (part1_conds_met o))
    else
      part ← one_shl 32 (keypart keyuse);
      Some (set_ref o (bound_sj_equalities o) (Z.lor (handled_sj_equalities o) pred)
              (Z.lor (loose_scan_keyparts o) part)
              (if max_loose_keypart o <? keypart keyuse then keypart keyuse else max_loose_keypart o)
              (part1_conds_met o))
  else Some o.

Definition have_a_case (o : Loose_scan_opt) : bool := truth (handled_sj_equalities o).

(** Conditions (2) and (3) of [check_ref_access_part1]. *)
Definition applicable (o : Loose_scan_opt) (nest : TABLE_LIST) (found_part : Z) : option bool :=
  if try_loosescan o then
    all ← PREV_BITS 64 (sj_in_exprs nest);
    if Z.lor (handled_sj_equalities o) (bound_sj_equalities o) =? all then
      mask ← PREV_BITS 32 (max_loose_keypart o + 1);
      Some (Z.land mask (Z.lor found_part (loose_scan_keyparts o)) =? mask)
    else Some false
  else Some false.

Definition improve (o : Loose_scan_opt) (p : plan) : Loose_scan_opt :=
  if dlt (p_cost p) (best_loose_scan_cost o) then set_best o p else o.

Definition check_ref_access_part1 (o : Loose_scan_opt) (nest : TABLE_LIST) (t : key_facts)
    (quick : option quick_select) (key : Z) (start_key : option N) (found_part : Z) : option Loose_scan_opt :=
  ok ← applicable o nest found_part;
  if (ok : bool) && negb (partial_cols t) then
    let o := match quick with
             | Some q => if (q_index q =? key) && q_is_range q then set_quick o (max_loose_keypart o) else o
             | None => o
             end in
    let met := set_ref o (bound_sj_equalities o) (handled_sj_equalities o) (loose_scan_keyparts o)
                 (max_loose_keypart o) true in
    let first_found := truth (Z.land found_part 1) in
    let o := if first_found then met else o in
    if negb first_found && covering t then
      let o := met in
      let records := of_int (stats_records t) in
      rows ← to_uint 64 records;
      let read_time := keyread_time t rows in
      let rpc := rec_per_key t (max_loose_keypart o) in
      let records := if truth rpc then ddiv records (of_int rpc) else records in
      Some (improve o (mk_plan key read_time records (max_loose_keypart o) start_key 0))
    else Some o
  else Some o.

Definition check_ref_access_part2 (o : Loose_scan_opt) (key : Z) (start_key : option N)
    (records read_time : double) (ref_depend_map_arg : Z) : Loose_scan_opt :=
  if part1_conds_met o
  then improve o (mk_plan key read_time records (max_loose_keypart o) start_key ref_depend_map_arg) else o.

Definition check_range_access (o : Loose_scan_opt) (join : JOIN) (idx : Z) (quick : quick_select) : Loose_scan_opt :=
  if quick_uses_applicable_index o && (idx =? const_tables join)
  then improve o (mk_plan (q_index quick) (q_read_time quick) (of_int (q_records quick))
                    (quick_max_loose_keypart o) None 0)
  else o.

(** The members of a POSITION that are set. *)
Record POSITION := mk_pos {
  read_time : double;
  records_read : double;
  pos_key : option N;
  cond_selectivity : double;
  loosescan_key : Z;
  loosescan_parts : Z;
  use_join_buffer : bool;
  ref_depend_map : Z
}.

Definition save_to_position (o : Loose_scan_opt) (pos : POSITION) : POSITION :=
  if negb (deq (best_loose_scan_cost o) DBL_MAX) then
    mk_pos (best_loose_scan_cost o) (best_loose_scan_records o) (best_loose_scan_start_key o) (of_int 1)
      (best_loose_scan_key o) (best_max_loose_keypart o + 1) false (best_ref_depend_map o)
  else
    mk_pos (best_loose_scan_cost o) (records_read pos) (pos_key pos) (cond_selectivity pos)
      (loosescan_key pos) (loosescan_parts pos) (use_join_buffer pos) (ref_depend_map pos).

(** ** When a loose scan applies *)

Definition usable (ku : KEYUSE) : bool := negb (sj_pred_no ku =? UINT_MAX) && read_order ku.
(** The equality of a usable keyuse is bound by the tables before. *)
Definition binds (remaining : Z) (ku : KEYUSE) : bool :=
  usable ku && negb (truth (Z.land remaining (used_tables ku))).
(** The index handles it. *)
Definition handles (remaining : Z) (ku : KEYUSE) : bool :=
  usable ku && truth (Z.land remaining (used_tables ku)).

Definition keyuse_ok (n : Z) (ku : KEYUSE) : Prop :=
  usable ku = true -> 0 <= sj_pred_no ku < n /\ 0 <= keypart ku < 32.

Fixpoint add_keyuses (o : Loose_scan_opt) (remaining : Z) (kus : list KEYUSE) : option Loose_scan_opt :=
  match kus with
  | [] => Some o
  | ku :: kus => o ← add_keyuse o remaining ku; add_keyuses o remaining kus
  end.

(** What the accumulated members say after the keyuses [kus] from [o]. *)
Record accumulates (o o' : Loose_scan_opt) (remaining : Z) (kus : list KEYUSE) : Prop := {
  acc_try : try_loosescan o' = try_loosescan o;
  acc_bound i : 0 <= i -> Z.testbit (bound_sj_equalities o') i =
    Z.testbit (bound_sj_equalities o) i || existsb (fun ku => binds remaining ku && (sj_pred_no ku =? i)) kus;
  acc_handled i : 0 <= i -> Z.testbit (handled_sj_equalities o') i =
    Z.testbit (handled_sj_equalities o) i || existsb (fun ku => handles remaining ku && (sj_pred_no ku =? i)) kus;
  acc_parts p : 0 <= p -> Z.testbit (loose_scan_keyparts o') p =
    Z.testbit (loose_scan_keyparts o) p || existsb (fun ku => handles remaining ku && (keypart ku =? p)) kus;
  acc_max : max_loose_keypart o' =
    foldl (fun m ku => if handles remaining ku then Z.max m (keypart ku) else m) (max_loose_keypart o) kus
}.

Lemma one_shl_some w n : 0 <= n < w -> one_shl w n = Some (2 ^ n).
Proof.
  intros H. unfold one_shl. rewrite (proj2 (Z.leb_le _ _)), (proj2 (Z.ltb_lt _ _)), Z.shiftl_1_l by lia. done.
Qed.

Lemma PREV_BITS_none w n : w <= n -> PREV_BITS w n = None.
Proof. intros H. unfold PREV_BITS, one_shl. by rewrite (proj2 (Z.ltb_ge n w)), andb_false_r by lia. Qed.

Lemma PREV_BITS_some w n : 0 <= n < w -> PREV_BITS w n = Some (Z.ones n).
Proof.
  intros H. unfold PREV_BITS. rewrite one_shl_some by done. cbn. f_equal.
  rewrite Z.ones_equiv, <- Z.sub_1_r. apply wrap_small.
  pose proof (Z.pow_lt_mono_r 2 n w ltac:(lia) ltac:(lia) ltac:(lia)).
  pose proof (Z.pow_pos_nonneg 2 n ltac:(lia) ltac:(lia)). split; lia.
Qed.

Lemma add_keyuse_acc o remaining ku :
  try_loosescan o = true -> keyuse_ok 64 ku ->
  exists o', add_keyuse o remaining ku = Some o' /\ accumulates o o' remaining [ku].
Proof.
  intros Ht Hk. unfold add_keyuse. rewrite Ht, andb_true_l. fold (usable ku).
  assert (binds remaining ku = usable ku && negb (truth (Z.land remaining (used_tables ku)))) as Eb by done.
  assert (handles remaining ku = usable ku && truth (Z.land remaining (used_tables ku))) as Eh by done.
  destruct (usable ku) eqn:Hu; cbn in Eb, Eh.
  - destruct (Hk Hu) as [Hp Hkp]. rewrite (one_shl_some 64 (sj_pred_no ku)) by done. cbn [mbind option_bind].
    destruct (truth _) eqn:Htr; cbn [negb] in *.
    + rewrite (one_shl_some 32) by done. cbn. eexists. split; [done|].
      split; cbn; rewrite ?Eb, ?Eh; try done; intros; rewrite ?Z.lor_spec, ?pow2_testbit, ?orb_false_r by lia; cbn;
        rewrite ?orb_false_r; try done; try (f_equal; apply Z.eqb_sym).
      destruct (Z.ltb_spec (max_loose_keypart o) (keypart ku)); lia.
    + cbn. eexists. split; [done|].
      split; cbn; rewrite ?Eb, ?Eh; try done; intros; rewrite ?Z.lor_spec, ?pow2_testbit, ?orb_false_r by lia; cbn;
        rewrite ?orb_false_r; try done; f_equal; apply Z.eqb_sym.
  - eexists. split; [done|]. split; cbn; rewrite ?Eb, ?Eh; try done; intros; cbn; by rewrite ?orb_false_r.
Qed.

Lemma accumulates_trans o1 o2 o3 remaining kus1 kus2 :
  accumulates o1 o2 remaining kus1 -> accumulates o2 o3 remaining kus2 -> accumulates o1 o3 remaining (kus1 ++ kus2).
Proof.
  intros [A1 A2 A3 A4 A5] [B1 B2 B3 B4 B5]. split.
  - congruence.
  - intros i Hi. rewrite B2, A2, existsb_app by done. by rewrite orb_assoc.
  - intros i Hi. rewrite B3, A3, existsb_app by done. by rewrite orb_assoc.
  - intros i Hi. rewrite B4, A4, existsb_app by done. by rewrite orb_assoc.
  - by rewrite B5, A5, foldl_app.
Qed.

Lemma add_keyuses_acc o remaining kus :
  try_loosescan o = true -> Forall (keyuse_ok 64) kus ->
  exists o', add_keyuses o remaining kus = Some o' /\ accumulates o o' remaining kus.
Proof.
  intros Ht Hk. revert o Ht. induction Hk as [|ku kus Hku Hkus IH]; intros o Ht; cbn.
  - exists o. split; [done|]. split; try done; intros; by rewrite orb_false_r.
  - destruct (add_keyuse_acc o remaining ku Ht Hku) as (o1&E1&A1). rewrite E1. cbn.
    destruct (IH o1) as (o2&E2&A2); [by rewrite (acc_try _ _ _ _ A1)|]. exists o2. split; [done|].
    by apply (accumulates_trans o o1 o2 remaining [ku] kus).
Qed.

(** The last key part that the index handles. *)
Definition last_part (remaining : Z) (kus : list KEYUSE) : Z :=
  foldl (fun m ku => if handles remaining ku then Z.max m (keypart ku) else m) 0 kus.

Lemma ones_covered n z :
  0 <= n -> urange n z -> (z =? Z.ones n) = true <-> forall i, 0 <= i < n -> Z.testbit z i = true.
Proof.
  intros Hn Hz. rewrite Z.eqb_eq. split.
  - intros -> i Hi. rewrite testbit_ones by lia. zcases; try done; lia.
  - intros H. apply (bits_eq n); [done| |].
    + rewrite Z.ones_equiv, <- Z.sub_1_r. pose proof (Z.pow_pos_nonneg 2 n ltac:(lia) ltac:(lia)). split; lia.
    + intros i Hi. rewrite H, testbit_ones by lia. zcases; try done; lia.
Qed.

Lemma land_ones_covered n z :
  0 <= n -> (Z.land (Z.ones n) z =? Z.ones n) = true <-> forall i, 0 <= i < n -> Z.testbit z i = true.
Proof.
  intros Hn. rewrite Z.eqb_eq. split.
  - intros E i Hi. apply (f_equal (fun x => Z.testbit x i)) in E.
    rewrite Z.land_spec, testbit_ones in E by lia. revert E. zcases; try lia; done.
  - intros H. bits. destruct (Z.leb_spec 0 i), (Z.ltb_spec i n); cbn; try done. by apply H.
Qed.

Lemma usable_split remaining ku : usable ku = binds remaining ku || handles remaining ku.
Proof. unfold binds, handles. destruct (usable ku), (truth _); done. Qed.

Lemma existsb_keyuse (f : KEYUSE -> bool) (g : KEYUSE -> Z) kus i :
  existsb (fun ku => f ku && (g ku =? i)) kus = true <-> exists ku, ku ∈ kus /\ f ku = true /\ g ku = i.
Proof.
  rewrite existsb_exists. split.
  - intros (ku&Hin&[Hf Hg%Z.eqb_eq]%andb_true_iff). exists ku. by rewrite list_elem_of_In.
  - intros (ku&Hin&Hf&Hg). exists ku. rewrite <- list_elem_of_In. split; [done|].
    rewrite Hf. by apply Z.eqb_eq.
Qed.

(** The equalities that are bound or handled are those asked for. *)
Lemma equalities_spec o o' remaining kus n :
  0 <= n <= 64 -> urange n (bound_sj_equalities o) -> handled_sj_equalities o = 0 ->
  Forall (keyuse_ok n) kus -> accumulates o o' remaining kus ->
  (Z.lor (handled_sj_equalities o') (bound_sj_equalities o') =? Z.ones n) = true <->
  forall i, 0 <= i < n -> Z.testbit (bound_sj_equalities o) i = true \/
    exists ku, ku ∈ kus /\ usable ku = true /\ sj_pred_no ku = i.
Proof.
  intros Hn Hb Hh Hk A.
  assert (forall i, 0 <= i -> Z.testbit (Z.lor (handled_sj_equalities o') (bound_sj_equalities o')) i =
    Z.testbit (bound_sj_equalities o) i || existsb (fun ku => usable ku && (sj_pred_no ku =? i)) kus) as Ht.
  { intros i Hi. rewrite Z.lor_spec, (acc_bound _ _ _ _ A), (acc_handled _ _ _ _ A), Hh, Z.testbit_0_l by done.
    cbn. rewrite orb_comm, <- orb_assoc. f_equal. clear. induction kus as [|ku kus IH]; [done|]. cbn.
    rewrite <- IH, (usable_split remaining ku).
    destruct (binds remaining ku), (handles remaining ku), (sj_pred_no ku =? i); cbn; rewrite ?orb_true_r; try done. }
  rewrite ones_covered; [|lia|].
  - split; intros H i Hi; specialize (H i Hi); rewrite ?Ht in * by lia.
    + apply orb_true_iff in H as [H|H]; [by left|right]. by apply (existsb_keyuse usable).
    + apply orb_true_iff. destruct H as [H|H]; [by left|right]. by apply (existsb_keyuse usable).
  - apply urange_testbit; [lia| |].
    + apply Z.lor_nonneg. split; apply Z.bits_iff_nonneg_ex.
      * exists 64. intros m Hm. rewrite (acc_handled _ _ _ _ A), Hh, Z.testbit_0_l by lia. cbn.
        apply not_true_iff_false. rewrite existsb_keyuse. intros (ku&Hin&Hu&<-).
        rewrite Forall_forall in Hk. unfold handles in Hu. apply andb_true_iff in Hu as [Hu _].
        destruct (Hk ku Hin Hu). lia.
      * exists 64. intros m Hm. rewrite (acc_bound _ _ _ _ A), (testbit_ltb_high n) by (done || lia). cbn.
        apply not_true_iff_false. rewrite existsb_keyuse. intros (ku&Hin&Hu&<-).
        rewrite Forall_forall in Hk. unfold binds in Hu. apply andb_true_iff in Hu as [Hu _].
        destruct (Hk ku Hin Hu). lia.
    + intros i Hi. rewrite Ht, (testbit_ltb_high n) by (done || lia). cbn.
      apply not_true_iff_false. rewrite existsb_keyuse. intros (ku&Hin&Hu&<-).
      rewrite Forall_forall in Hk. destruct (Hk ku Hin Hu). lia.
Qed.

Lemma last_part_nonneg remaining kus : 0 <= last_part remaining kus.
Proof.
  unfold last_part. assert (0 <= 0) as H by lia. revert H. generalize 0 at 2 4 as m.
  induction kus as [|ku kus IH]; intros m Hm; [done|]. cbn. apply IH. destruct (handles remaining ku); lia.
Qed.

(** C15: for the keyuses of an index, the conditions computed from the
    accumulated bit maps are the ones documented, as long as the last key part
    handled is one of the first 31: every equality of the semi-join is bound by
    the tables before, or by a keyuse of this index, or handled by the index; and
    every key part up to the last handled one is found or handled, so that the
    index order enumerates the groups.  When the 32nd key part is handled and
    the equalities are covered, the test has no defined result: it shifts a
    32-bit map by 32. *)
Theorem loose_scan_applies o remaining kus nest found :
  try_loosescan o = true -> 0 <= sj_in_exprs nest < 64 ->
  urange (sj_in_exprs nest) (bound_sj_equalities o) -> Forall (keyuse_ok (sj_in_exprs nest)) kus ->
  let covered := forall i, 0 <= i < sj_in_exprs nest -> Z.testbit (bound_sj_equalities o) i = true \/
                   exists ku, ku ∈ kus /\ usable ku = true /\ sj_pred_no ku = i in
  let enumerable := forall p, 0 <= p <= last_part remaining kus -> Z.testbit found p = true \/
                      exists ku, ku ∈ kus /\ handles remaining ku = true /\ keypart ku = p in
  exists o', add_keyuses (next_ref_key o) remaining kus = Some o' /\
    (last_part remaining kus < 31 ->
       exists ok, applicable o' nest found = Some ok /\ (ok = true <-> covered /\ enumerable)) /\
    (31 <= last_part remaining kus -> covered -> applicable o' nest found = None).
Proof.
  intros Ht Hn Hb Hk covered enumerable.
  assert (Forall (keyuse_ok 64) kus) as Hk64.
  { eapply Forall_impl; [exact Hk|]. intros ku H Hu. destruct (H Hu). lia. }
  destruct (add_keyuses_acc (next_ref_key o) remaining kus Ht Hk64) as (o'&E&A).
  assert (max_loose_keypart o' = last_part remaining kus) as Em by apply (acc_max _ _ _ _ A).
  pose proof (last_part_nonneg remaining kus) as Hl0.
  pose proof (equalities_spec (next_ref_key o) o' remaining kus (sj_in_exprs nest) ltac:(lia) Hb eq_refl Hk A) as Heq.
  cbn [bound_sj_equalities next_ref_key set_ref] in Heq. fold covered in Heq.
  assert (applicable o' nest found =
    if Z.lor (handled_sj_equalities o') (bound_sj_equalities o') =? Z.ones (sj_in_exprs nest) then
      mask ← PREV_BITS 32 (last_part remaining kus + 1);
      Some (Z.land mask (Z.lor found (loose_scan_keyparts o')) =? mask)
    else Some false) as Ea.
  { unfold applicable. rewrite (acc_try _ _ _ _ A : try_loosescan o' = try_loosescan o), Ht, (PREV_BITS_some 64), Em by lia.
    done. }
  exists o'. split; [exact E|]. rewrite Ea. split.
  - intros Hl. rewrite PREV_BITS_some by lia. cbn [mbind option_bind].
    destruct (Z.lor _ _ =? _) eqn:E2.
    + eexists. split; [done|]. rewrite land_ones_covered by lia. destruct Heq as [Heq _]. specialize (Heq eq_refl).
      split; [intros H; split; [done|]|intros [_ H]]; intros p Hp; specialize (H p ltac:(lia)).
      * rewrite Z.lor_spec, (acc_parts _ _ _ _ A) in H by lia. apply orb_true_iff in H as [H|H]; [by left|right].
        cbn in H. rewrite Z.testbit_0_l in H. by apply (existsb_keyuse (handles remaining) keypart) in H.
      * rewrite Z.lor_spec, (acc_parts _ _ _ _ A) by lia. apply orb_true_iff. destruct H as [H|H]; [by left|right].
        cbn. rewrite Z.testbit_0_l. by apply (existsb_keyuse (handles remaining) keypart).
    + exists false. split; [done|]. split; [done|]. intros [H _]. by apply Heq in H.
  - intros Hl Hc. apply Heq in Hc. rewrite Hc. by rewrite PREV_BITS_none by lia.
Qed.

Definition opt0 : Loose_scan_opt := mk_opt true 0 0 0 0 false false 0 0 DBL_MAX (of_int 0) None 0 0.

(** a IN (SELECT key1 FROM ...): the only equality is handled by the first part. *)
Lemma loose_scan_applies_witness :
  exists o', add_keyuses (next_ref_key opt0) 1 [mk_keyuse 0 1 0 true] = Some o' /\
    applicable o' (mk_nest 1 2 0 1) 0 = Some true.
Proof.
  destruct (loose_scan_applies opt0 1 [mk_keyuse 0 1 0 true] (mk_nest 1 2 0 1) 0) as (o'&E&H&_).
  - reflexivity.
  - cbn. lia.
  - split; cbn; lia.
  - repeat constructor; cbn; lia.
  - destruct H as (ok&Eok&H); [vm_compute; reflexivity|]. exists o'. split; [exact E|]. rewrite Eok. f_equal. apply H. split.
    + intros i Hi. right. exists (mk_keyuse 0 1 0 true). split; [by left|]. split; [reflexivity|]. cbn in *. lia.
    + intros p Hp. right. exists (mk_keyuse 0 1 0 true). split; [by left|]. split; [reflexivity|].
      change (last_part 1 [mk_keyuse 0 1 0 true]) with 0 in Hp. cbn. lia.
Defined.

(** with a 32nd key part (MAX_REF_PARTS allows it) the test of condition (3)
    shifts a 32-bit key_part_map by 32, which is undefined in this build. *)
Theorem loose_scan_32_parts_undefined :
  exists o', add_keyuses (next_ref_key opt0) 1 [mk_keyuse 0 1 31 true] = Some o' /\
    have_a_case o' = true /\ applicable o' (mk_nest 1 2 0 1) (Z.ones 31) = None.
Proof. eexists. split; [vm_compute; reflexivity|]. split; vm_compute; reflexivity. Qed.

(** ** The plan that is chosen *)

Lemma improve_best o p q : improve (set_best o p) q = if dlt (p_cost q) (p_cost p) then set_best o q else set_best o p.
Proof. unfold improve. cbn. by destruct (dlt _ _). Qed.

(** Offers after the plan [p]: the first cheapest wins. *)
Lemma improve_fold o p plans :
  num (p_cost p) -> Forall (fun p => num (p_cost p)) plans ->
  exists i b, (p :: plans) !! i = Some b /\ foldl improve (set_best o p) plans = set_best o b /\
    (forall j q, (p :: plans) !! j = Some q -> dval (p_cost b) <= dval (p_cost q)) /\
    (forall j q, (p :: plans) !! j = Some q -> (j < i)%nat -> dval (p_cost b) < dval (p_cost q)).
Proof.
  intros Hp Hps. revert p Hp. induction Hps as [|q plans Hq Hps IH]; intros p Hp.
  - exists 0%nat, p. split; [done|]. split; [done|]. split; [|lia].
    intros [|j] r Hr; cbn in Hr; simplify_eq; lia.
  - cbn [foldl]. rewrite improve_best, dlt_val by done.
    destruct (Z.ltb_spec (dval (p_cost q)) (dval (p_cost p))) as [Hlt|Hge].
    + destruct (IH q Hq) as (i&b&Hi&E&Hmin&Hfirst). exists (S i), b. split; [done|]. split; [done|].
      pose proof (Hmin 0%nat q eq_refl). split; intros [|j] r Hr; cbn in Hr; simplify_eq.
      * lia.
      * by apply (Hmin j).
      * lia.
      * intros Hj. apply (Hfirst j); [done|lia].
    + destruct (IH p Hp) as (i&b&Hi&E&Hmin&Hfirst).
      pose proof (Hmin 0%nat p eq_refl) as Hbp.
      exists (match i with O => O | S i => S (S i) end), b. split; [by destruct i|]. split; [done|]. split.
      * intros [|[|j]] r Hr; cbn in Hr; simplify_eq; [done|lia|by apply (Hmin (S j))].
      * intros [|[|j]] r Hr Hj; cbn in Hr; simplify_eq; destruct i as [|i]; try lia.
        -- apply (Hfirst 0%nat); [done|lia].
        -- specialize (Hfirst 0%nat p eq_refl ltac:(lia)). lia.
        -- apply (Hfirst (S j)); [done|lia].
Qed.

(** Offers to an object without a plan. *)
Lemma improve_fold_none o plans :
  best_loose_scan_cost o = DBL_MAX -> Forall (fun p => num (p_cost p)) plans ->
  (exists i b, plans !! i = Some b /\ foldl improve o plans = set_best o b /\
     dval (p_cost b) < dval DBL_MAX /\
     (forall j q, plans !! j = Some q -> dval (p_cost b) <= dval (p_cost q)) /\
     (forall j q, plans !! j = Some q -> (j < i)%nat -> dval (p_cost b) < dval (p_cost q))) \/
  (foldl improve o plans = o /\ forall j q, plans !! j = Some q -> dval DBL_MAX <= dval (p_cost q)).
Proof.
  intros Ho Hps. assert (num DBL_MAX) as Hmax by (by split).
  induction Hps as [|p plans Hp Hps IH]; [right; split; [done|]; intros j q Hq; by rewrite lookup_nil in Hq|].
  cbn [foldl]. unfold improve at 2 4. rewrite Ho, dlt_val by done.
  destruct (Z.ltb_spec (dval (p_cost p)) (dval DBL_MAX)) as [Hlt|Hge].
  - left. destruct (improve_fold o p plans Hp Hps) as (i&b&Hi&E&Hmin&Hfirst).
    exists i, b. pose proof (Hmin 0%nat p eq_refl). split; [done|]. split; [done|]. split; [lia|done].
  - destruct IH as [(i&b&Hi&E&Hb&Hmin&Hfirst)|[E Hall]].
    + left. exists (S i), b. split; [done|]. split; [done|]. split; [done|].
      split; intros [|j] q Hq; cbn in Hq; simplify_eq; [lia|by apply (Hmin j)|lia|].
      intros Hj. apply (Hfirst j); [done|lia].
    + right. split; [done|]. intros [|j] q Hq; cbn in Hq; simplify_eq; [done|by apply (Hall j)].
Qed.

(** whatever plans the checks offer, the cheapest is remembered with its
    key, records, key parts, start key and dependencies together, the earliest
    of several of that cost, and none costing DBL_MAX or more; the position
    saved is of that plan, and is left alone when none was offered. *)
Theorem cheapest_loose_scan_kept o plans pos :
  best_loose_scan_cost o = DBL_MAX -> Forall (fun p => num (p_cost p)) plans ->
  let o' := foldl improve o plans in
  let pos' := save_to_position o' pos in
  (exists i p, plans !! i = Some p /\ o' = set_best o p /\ dval (p_cost p) < dval DBL_MAX /\
     (forall j q, plans !! j = Some q -> dval (p_cost p) <= dval (p_cost q)) /\
     (forall j q, plans !! j = Some q -> (j < i)%nat -> dval (p_cost p) < dval (p_cost q)) /\
     read_time pos' = p_cost p /\ records_read pos' = p_records p /\ loosescan_key pos' = p_key p /\
     loosescan_parts pos' = p_max p + 1 /\ pos_key pos' = p_start p) \/
  (o' = o /\ (forall j q, plans !! j = Some q -> dval DBL_MAX <= dval (p_cost q)) /\
   records_read pos' = records_read pos /\ pos_key pos' = pos_key pos /\ loosescan_key pos' = loosescan_key pos).
Proof.
  intros Ho Hps. cbv zeta. destruct (improve_fold_none o plans Ho Hps) as [(i&b&Hi&E&Hb&Hmin&Hfirst)|[E Hall]].
  - left. exists i, b. assert (num (p_cost b)) as Hnb by (rewrite Forall_forall in Hps; apply Hps; by eapply list_elem_of_lookup_2).
    rewrite E. unfold save_to_position. cbn [best_loose_scan_cost set_best].
    rewrite deq_val, (proj2 (Z.eqb_neq _ _)) by (done || lia). cbn. done.
  - right. rewrite E. unfold save_to_position. rewrite Ho. done.
Qed.

Definition plan_of (key : Z) (cost : Z) : plan := mk_plan key (of_int cost) (of_int 1) 0 None 0.

Lemma cheapest_loose_scan_kept_witness :
  let o' := foldl improve opt0 [plan_of 1 30; plan_of 2 10; plan_of 3 10] in
  best_loose_scan_key o' = 2 /\
  (exists i p, [plan_of 1 30; plan_of 2 10; plan_of 3 10] !! i = Some p /\ o' = set_best opt0 p).
Proof.
  destruct (cheapest_loose_scan_kept opt0 [plan_of 1 30; plan_of 2 10; plan_of 3 10]
    (mk_pos DBL_MAX (of_int 0) None (of_int 1) 0 0 false 0)) as [(i&p&Hi&E&_)|(E&_)].
  - reflexivity.
  - repeat constructor; discriminate.
  - split; [vm_compute; reflexivity|]. exists i, p. split; [exact Hi|exact E].
  - vm_compute in E. discriminate E.
Defined.
End LooseScan.
