(* ===== verification/CostEstimate.v ===== *)
(** * Costs of access plans (class Cost_estimate of private/handler.h)

    The class computes with doubles.  Its methods are written over an arithmetic
    ([Arith]) with two instances: [arith_double], the binary64 operations the
    code executes, and [arith_exact], rational numbers, in which the sums the
    formulas stand for can be stated without rounding errors. *)

From Stdlib Require Import ZArith Lia SpecFloat QArith Lqa.
From S2P Require Import Prelude CDouble.
From stdpp Require Import prelude list.

Module Cost.

Class Arith (F : Type) := {
  fadd : F -> F -> F;
  fmul : F -> F -> F;
  fdiv : F -> F -> F;
  feq : F -> F -> bool;
  flt : F -> F -> bool;
  fconst : Z -> F
}.

#[export] Instance arith_double : Arith double :=
  {| fadd := dadd; fmul := dmul; fdiv := ddiv; feq := deq; flt := dlt; fconst := of_int |}.

#[export] Instance arith_exact : Arith Q :=
  {| fadd := Qplus; fmul := Qmult; fdiv := Qdiv; feq := Qeq_bool;
     flt := fun a b => negb (Qle_bool b a); fconst := inject_Z |}.

Record Cost_estimate (F : Type) := mk_cost {
  io_count : F;
  avg_io_cost : F;
  idx_io_count : F;
  idx_avg_io_cost : F;
  cpu_cost : F;
  idx_cpu_cost : F;
  import_cost : F;
  mem_cost : F
}.
Arguments mk_cost {F} _ _ _ _ _ _ _ _.
Arguments io_count {F} _.
Arguments avg_io_cost {F} _.
Arguments idx_io_count {F} _.
Arguments idx_avg_io_cost {F} _.
Arguments cpu_cost {F} _.
Arguments idx_cpu_cost {F} _.
Arguments import_cost {F} _.
Arguments mem_cost {F} _.

Section cost.
Context {F : Type} `{Arith F}.
Local Infix "+" := fadd.
Local Infix "*" := fmul.
Local Infix "/" := fdiv.

Definition IO_COEFF : F := fconst 1.
Definition CPU_COEFF : F := fconst 1.
Definition MEM_COEFF : F := fconst 1.
Definition IMPORT_COEFF : F := fconst 1.

Definition total_cost (c : Cost_estimate F) : F :=
  IO_COEFF * io_count c * avg_io_cost c +
  IO_COEFF * idx_io_count c * idx_avg_io_cost c +
  CPU_COEFF * (cpu_cost c + idx_cpu_cost c) +
  MEM_COEFF * mem_cost c + IMPORT_COEFF * import_cost c.

Definition index_only_cost (c : Cost_estimate F) : F :=
  IO_COEFF * idx_io_count c * idx_avg_io_cost c + CPU_COEFF * idx_cpu_cost c.

Definition is_zero (c : Cost_estimate F) : bool :=
  feq (io_count c) (fconst 0) && feq (idx_io_count c) (fconst 0) && feq (cpu_cost c) (fconst 0) &&
  feq (import_cost c) (fconst 0) && feq (mem_cost c) (fconst 0).

(** [reset], and the constructor. *)
Definition reset : Cost_estimate F :=
  mk_cost (fconst 0) (fconst 1) (fconst 0) (fconst 1) (fconst 0) (fconst 0) (fconst 0) (fconst 0).

Definition multiply (c : Cost_estimate F) (m : F) : Cost_estimate F :=
  mk_cost (io_count c * m) (avg_io_cost c) (idx_io_count c * m) (idx_avg_io_cost c)
    (cpu_cost c * m) (idx_cpu_cost c * m) (import_cost c * m) (mem_cost c).

(** Count and average after adding [n] operations of average cost [avg]. *)
Definition add_avg (count avg_cost n avg : F) : F * F :=
  let sum := count + n in (sum, (count * avg_cost + n * avg) / sum).

Definition add (c cost : Cost_estimate F) : Cost_estimate F :=
  let (io, avg) :=
    if negb (feq (io_count cost) (fconst 0))
    then add_avg (io_count c) (avg_io_cost c) (io_count cost) (avg_io_cost cost)
    else (io_count c, avg_io_cost c) in
  let (idx_io, idx_avg) :=
    if negb (feq (idx_io_count cost) (fconst 0))
    then add_avg (idx_io_count c) (idx_avg_io_cost c) (idx_io_count cost) (idx_avg_io_cost cost)
    else (idx_io_count c, idx_avg_io_cost c) in
  mk_cost io avg idx_io idx_avg (cpu_cost c + cpu_cost cost) (idx_cpu_cost c + idx_cpu_cost cost)
    (import_cost c + import_cost cost) (mem_cost c).

Definition add_io (c : Cost_estimate F) (add_io_cnt add_avg_cost : F) : Cost_estimate F :=
  let (io, avg) :=
    if flt (fconst 0) add_io_cnt then add_avg (io_count c) (avg_io_cost c) add_io_cnt add_avg_cost
    else (io_count c, avg_io_cost c) in
  mk_cost io avg (idx_io_count c) (idx_avg_io_cost c) (cpu_cost c) (idx_cpu_cost c) (import_cost c)
    (mem_cost c).

Definition add_cpu (c : Cost_estimate F) (x : F) : Cost_estimate F :=
  mk_cost (io_count c) (avg_io_cost c) (idx_io_count c) (idx_avg_io_cost c) (cpu_cost c + x)
    (idx_cpu_cost c) (import_cost c) (mem_cost c).
Definition add_import (c : Cost_estimate F) (x : F) : Cost_estimate F :=
  mk_cost (io_count c) (avg_io_cost c) (idx_io_count c) (idx_avg_io_cost c) (cpu_cost c)
    (idx_cpu_cost c) (import_cost c + x) (mem_cost c).
Definition add_mem (c : Cost_estimate F) (x : F) : Cost_estimate F :=
  mk_cost (io_count c) (avg_io_cost c) (idx_io_count c) (idx_avg_io_cost c) (cpu_cost c)
    (idx_cpu_cost c) (import_cost c) (mem_cost c + x).

Definition convert_from_cost (cost : F) : Cost_estimate F :=
  mk_cost cost (avg_io_cost reset) (idx_io_count reset) (idx_avg_io_cost reset) (cpu_cost reset)
    (idx_cpu_cost reset) (import_cost reset) (mem_cost reset).

(** ** Plans: sequences of changes to a cost *)

Inductive change : Type :=
  | Add (cost : Cost_estimate F) | AddIo (n avg : F) | AddCpu (x : F) | AddImport (x : F)
  | AddMem (x : F) | Multiply (m : F).

Definition apply_change (c : Cost_estimate F) (ch : change) : Cost_estimate F :=
  match ch with
  | Add cost => add c cost
  | AddIo n avg => add_io c n avg
  | AddCpu x => add_cpu c x
  | AddImport x => add_import c x
  | AddMem x => add_mem c x
  | Multiply m => multiply c m
  end.
End cost.

(** ** Exact arithmetic *)

Local Open Scope Q_scope.

(** Counts of operations are not negative. *)
Definition counts_ok (c : Cost_estimate Q) : Prop := 0 <= io_count c /\ 0 <= idx_io_count c.

Definition change_ok (ch : change (F:=Q)) : Prop :=
  match ch with
  | Add cost => counts_ok cost
  | Multiply m => 0 <= m
  | _ => True
  end.

(** The specification: what is spent on operations, and on memory apart. *)
Definition work (c : Cost_estimate Q) : Q := total_cost c - mem_cost c.

Definition account (s : Q * Q) (ch : change (F:=Q)) : Q * Q :=
  match ch with
  | Add cost => (fst s + work cost, snd s)
  | AddIo n avg => (if flt 0 n then fst s + n * avg else fst s, snd s)
  | AddCpu x | AddImport x => (fst s + x, snd s)
  | AddMem x => (fst s, snd s + x)
  | Multiply m => (fst s * m, snd s)
  end.

Definition books (c : Cost_estimate Q) (s : Q * Q) : Prop :=
  work c == fst s /\ mem_cost c == snd s /\ counts_ok c.

Lemma flt_spec a b : flt a b = true <-> a < b.
Proof.
  cbn. rewrite negb_true_iff. split.
  - intros H. apply Qnot_le_lt. intros Hle. apply Qle_bool_iff in Hle. congruence.
  - intros H. apply not_true_iff_false. rewrite Qle_bool_iff. lra.
Qed.

(** Total of counted operations after [add_avg]. *)
Lemma add_avg_exact count avg n avg' :
  0 <= count -> 0 < n ->
  let (sum, a) := add_avg count avg n avg' in sum * a == count * avg + n * avg' /\ 0 <= sum.
Proof. intros Hc Hn. cbn. split; [field; lra|lra]. Qed.

Lemma work_eq c :
  work c == io_count c * avg_io_cost c + idx_io_count c * idx_avg_io_cost c +
            (cpu_cost c + idx_cpu_cost c) + import_cost c.
Proof. unfold work, total_cost, IO_COEFF, CPU_COEFF, MEM_COEFF, IMPORT_COEFF. cbn. ring. Qed.

Lemma add_part count avg n avg' :
  0 <= count -> 0 <= n ->
  let (sum, a) := if negb (feq n (fconst 0)) then add_avg count avg n avg' else (count, avg) in
  sum * a == count * avg + n * avg' /\ 0 <= sum.
Proof.
  intros Hc Hn. destruct (feq n (fconst 0)) eqn:E; cbn [negb].
  - apply Qeq_bool_iff in E. change (n == 0) in E. rewrite E. split; [ring|done].
  - apply add_avg_exact; [done|]. apply Qeq_bool_neq in E. change (~ n == 0) in E.
    destruct (Qlt_le_dec 0 n); [done|]. destruct E. lra.
Qed.

Lemma add_books c cost :
  counts_ok c -> counts_ok cost ->
  work (add c cost) == work c + work cost /\ mem_cost (add c cost) = mem_cost c /\ counts_ok (add c cost).
Proof.
  intros [Hc1 Hc2] [Hd1 Hd2]. unfold add.
  pose proof (add_part (io_count c) (avg_io_cost c) (io_count cost) (avg_io_cost cost) Hc1 Hd1) as H1.
  pose proof (add_part (idx_io_count c) (idx_avg_io_cost c) (idx_io_count cost) (idx_avg_io_cost cost) Hc2 Hd2) as H2.
  destruct (if negb (feq (io_count cost) _) then _ else _) as [s1 a1].
  destruct (if negb (feq (idx_io_count cost) _) then _ else _) as [s2 a2].
  destruct H1 as [E1 P1], H2 as [E2 P2].
  split; [|by split; [|split]]. rewrite !work_eq. cbn. rewrite E1, E2. ring.
Qed.

Lemma add_io_books c n avg :
  counts_ok c ->
  work (add_io c n avg) == (if flt 0 n then work c + n * avg else work c) /\
  mem_cost (add_io c n avg) = mem_cost c /\ counts_ok (add_io c n avg).
Proof.
  intros [Hc1 Hc2]. unfold add_io. change (fconst 0) with (0 : Q). destruct (flt 0 n) eqn:E.
  - apply flt_spec in E.
    pose proof (add_avg_exact (io_count c) (avg_io_cost c) n avg Hc1 E) as H1.
    destruct (add_avg _ _ _ _) as [s1 a1]. destruct H1 as [E1 P1].
    split; [|by split; [|split]]. rewrite !work_eq. cbn. rewrite E1. ring.
  - split; [|by split; [|split]]. rewrite !work_eq. reflexivity.
Qed.

Lemma apply_change_books c s ch :
  change_ok ch -> books c s -> books (apply_change c ch) (account s ch).
Proof.
  intros Hch (Hw&Hm&Hc). destruct ch as [cost|n avg|x|x|x|m]; cbn [apply_change account fst snd].
  - destruct (add_books c cost Hc Hch) as (E1&E2&E3). split; [by rewrite E1, Hw|]. split; [by rewrite E2|done].
  - destruct (add_io_books c n avg Hc) as (E1&E2&E3). split; [rewrite E1|split; [by rewrite E2|done]].
    cbn [fst]. destruct (flt 0 n); by rewrite Hw.
  - split; [cbn [fst]; rewrite <- Hw, !work_eq; cbn; ring|done].
  - split; [cbn [fst]; rewrite <- Hw, !work_eq; cbn; ring|done].
  - split; [cbn [fst]; rewrite <- Hw, !work_eq; done|]. split; [cbn; by rewrite Hm|done].
  - split; [cbn [fst]; rewrite <- Hw, !work_eq; cbn; ring|]. split; [done|].
    destruct Hc as [H1 H2]. split; cbn; apply Qmult_le_0_compat; done.
Qed.

(** up to rounding, costs add up.  In exact arithmetic, after any sequence
    of additions of plans and of I/O, CPU, remote and memory costs and of
    multiplications by repetition counts, the total cost is the sum of the
    costs added, each multiplied by the later repetitions, plus the memory,
    which is not multiplied and which adding a plan does not include; the
    averages the class keeps lose nothing. *)
Theorem costs_add_up (chs : list (change (F:=Q))) :
  Forall change_ok chs ->
  let c := foldl apply_change reset chs in
  let s := foldl account (0, 0) chs in
  total_cost c == fst s + snd s /\ counts_ok c.
Proof.
  intros Hchs. cbv zeta. assert (books (foldl apply_change reset chs) (foldl account (0, 0) chs)) as Hb.
  { assert (books reset (0, 0)) as H0 by (split; [rewrite work_eq; reflexivity|split; [reflexivity|split; apply Qle_refl]]).
    revert H0. generalize (0, 0) as s. generalize (reset (F:=Q)) as c.
    induction Hchs as [|ch chs Hch Hchs IH]; intros c s H; [done|]. cbn. apply IH. by apply apply_change_books. }
  destruct Hb as (Hw&Hm&Hc). split; [|done]. rewrite <- Hw, <- Hm. unfold work. ring.
Qed.

(** A range read of 10 + 30 blocks repeated 3 times with a buffer of 5. *)
Lemma costs_add_up_witness :
  Forall change_ok [AddIo 10 1; AddIo 30 2; AddMem 5; Multiply 3] /\
  total_cost (foldl apply_change reset [AddIo 10 1; AddIo 30 2; AddMem 5; Multiply 3]) == 215.
Proof.
  assert (Forall change_ok [AddIo 10 1; AddIo 30 2; AddMem 5; Multiply 3]) as Hok
    by (repeat constructor; unfold change_ok; lra).
  split; [exact Hok|].
  rewrite (proj1 (costs_add_up [AddIo 10 1; AddIo 30 2; AddMem 5; Multiply 3] Hok)). reflexivity.
Defined.

(** ** Doubles *)

(** is_zero does not tell whether all costs are zero: a cost whose only
    part is the CPU cost of an index has a total of 1 and counts as zero; and
    adding a plan leaves out its memory. *)
Theorem zero_cost_with_total :
  (exists c : Cost_estimate double, is_zero c = true /\ total_cost c = of_int 1) /\
  (exists d : Cost_estimate double, total_cost d = of_int 1 /\ total_cost (add reset d) = of_int 0).
Proof.
  split.
  - exists (mk_cost (of_int 0) (of_int 1) (of_int 0) (of_int 1) (of_int 0) (of_int 1) (of_int 0) (of_int 0)).
    split; vm_compute; reflexivity.
  - exists (add_mem reset (of_int 1)). split; vm_compute; reflexivity.
Qed.
End Cost.
