(* ===== verification/Statistics.v ===== *)
(** * Engine-independent statistics (private/sql_statistics.h)

    [Histogram] models [Histogram_binary], a height-balanced histogram whose
    bucket bounds are fractions stored in one or two bytes, and the binary
    search of [find_bucket] in it.  [Column] models the bitmap and the scaled
    ratios of [Column_statistics] and [Index_statistics], [Collector] the
    counters of [Basic_stats_collector]. *)

From Stdlib Require Import ZArith Lia.
From S2P Require Import Prelude Mem MyIsamPack ByteOrder CDouble.
From stdpp Require Import prelude list.
Local Open Scope Z_scope.
Local Open Scope cint_scope.

Inductive Use_stat_tables_mode :=
  NEVER | COMPLEMENTARY | PREFERABLY | COMPLEMENTARY_FOR_QUERIES | PREFERABLY_FOR_QUERIES.

Inductive Histogram_type := SINGLE_PREC_HB | DOUBLE_PREC_HB | JSON_HB | INVALID_HISTOGRAM.

#[export] Instance use_stat_tables_mode_eq_dec : EqDecision Use_stat_tables_mode.
Proof. solve_decision. Defined.

(** The session variables that the checks read. *)
Record variables := mk_variables {
  use_stat_tables : Use_stat_tables_mode;
  optimizer_use_condition_selectivity : Z
}.

Definition get_use_stat_tables_mode (thd : variables) : Use_stat_tables_mode :=
  use_stat_tables thd.

Definition check_eits_collection_allowed (thd : variables) : bool :=
  bool_decide (get_use_stat_tables_mode thd = COMPLEMENTARY) ||
  bool_decide (get_use_stat_tables_mode thd = PREFERABLY).

Definition check_eits_preferred (thd : variables) : bool :=
  bool_decide (get_use_stat_tables_mode thd = PREFERABLY) ||
  bool_decide (get_use_stat_tables_mode thd = PREFERABLY_FOR_QUERIES).

Definition is_usable (thd : variables) : bool := 3 <? optimizer_use_condition_selectivity thd.

(** ** Histograms *)

Module Histogram.
Import MyIsamPack ByteOrder.

(** The values array lies in byte memory. *)
Record Histogram_binary := mk {
  type : Histogram_type;
  size : Z;               (* uint8, in bytes *)
  values : Z              (* address *)
}.

Definition prec_factor (h : Histogram_binary) : option Z :=
  match type h with
  | SINGLE_PREC_HB => Some (u32 (Z.shiftl 1 8) - 1)
  | DOUBLE_PREC_HB => Some (u32 (Z.shiftl 1 16) - 1)
  | _ => None
  end.

Definition get_width (h : Histogram_binary) : option Z :=
  match type h with
  | SINGLE_PREC_HB => Some (size h)
  | DOUBLE_PREC_HB => Some (size h / 2)
  | _ => None
  end.

Definition get_size (h : Histogram_binary) : Z := size h.
Definition get_type (h : Histogram_binary) : Histogram_type := type h.

(** The assertion makes a read outside the buckets undefined. *)
Definition get_value (m : mem) (h : Histogram_binary) (i : Z) : option Z :=
  w ← get_width h;
  if i <? w then
    match type h with
    | SINGLE_PREC_HB => Some (m (values h + i))
    | DOUBLE_PREC_HB => Some (X86_64.uint2korr m (values h + i * 2))
    | _ => None
    end
  else None.

(** The binary search of [find_bucket]; [v] is [get_value]. *)
Fixpoint search (fuel : nat) (v : Z -> option Z) (val lp rp d i : Z) : option Z :=
  match fuel with
  | O => None
  | S fuel =>
      if negb (truth d) then Some i else
      vi ← v i;
      if val =? vi then Some i else
      if val <? vi then
        let rp := i in
        let d := (rp - lp) ÷ 2 in
        search fuel v val lp rp d (lp + d)
      else
        vi1 ← v (i + 1);
        if vi1 <? val then
          let lp := i + 1 in
          let d := (rp - lp) ÷ 2 in
          search fuel v val lp rp d (lp + d)
        else Some i
  end.

(** [while (i && val == get_value(i - 1)) i--;] *)
Fixpoint first_equal (fuel : nat) (v : Z -> option Z) (val i : Z) : option Z :=
  match fuel with
  | O => None
  | S fuel =>
      if negb (truth i) then Some i else
      p ← v (i - 1); if val =? p then first_equal fuel v val (i - 1) else Some i
  end.

(** [while (i + 1 < get_width() && val == get_value(i + 1)) i++;] *)
Fixpoint last_equal (fuel : nat) (v : Z -> option Z) (w val i : Z) : option Z :=
  match fuel with
  | O => None
  | S fuel =>
      if i + 1 <? w then
        p ← v (i + 1); if val =? p then last_equal fuel v w val (i + 1) else Some i
      else Some i
  end.

(** [find_bucket] from the scaled value on. *)
Definition find_val (fuel : nat) (v : Z -> option Z) (w val : Z) (first : bool) : option Z :=
  let lp := 0 in
  let rp := sgn 32 (w - 1) in
  let d := w / 2 in
  i ← search fuel v val lp rp d (lp + d);
  vi ← v i;
  let i := if (vi <? val) && (i <? u32 (w - 1)) then i + 1 else i in
  vi ← v i;
  if val =? vi
  then if first then first_equal fuel v val i else last_equal fuel v w val i
  else Some i.

Definition find_bucket (fuel : nat) (m : mem) (h : Histogram_binary) (pos : double) (first : bool)
  : option Z :=
  f ← prec_factor h;
  val ← to_uint 32 (dmul pos (of_int f));
  w ← get_width h;
  find_val fuel (get_value m h) w val first.

(** A bucket outside the array is a write outside the object. *)
Definition set_value (m : mem) (h : Histogram_binary) (i : Z) (val : double) : option mem :=
  f ← prec_factor h;
  w ← get_width h;
  if i <? w then
    match type h with
    | SINGLE_PREC_HB =>
        x ← to_uint 8 (dmul val (of_int f)); Some (poke m (values h + i) x)
    | DOUBLE_PREC_HB =>
        x ← to_uint 16 (dmul val (of_int f)); Some (X86_64.int2store m (values h + i * 2) x)
    | _ => None
    end
  else None.

Definition set_prev_value (m : mem) (h : Histogram_binary) (i : Z) : option mem :=
  w ← get_width h;
  if (1 <=? i) && (i <? w) then
    match type h with
    | SINGLE_PREC_HB => Some (poke m (values h + i) (m (values h + i - 1)))
    | DOUBLE_PREC_HB =>
        Some (X86_64.int2store m (values h + i * 2) (X86_64.uint2korr m (values h + i * 2 - 2)))
    | _ => None
    end
  else None.

(** ** The binary search finds the bucket *)

(** What [find_bucket] promises: the first or the last bucket with the value
    when there is one, else the first bucket above it, or the last bucket. *)
Definition is_bucket (a : Z -> Z) (w val : Z) (first : bool) (i : Z) : Prop :=
  0 <= i < w /\
  ((a i = val /\
    (if first then forall j, 0 <= j < i -> a j < val else forall j, i < j < w -> val < a j)) \/
   ((forall j, 0 <= j < w -> a j <> val) /\ (forall j, 0 <= j < i -> a j < val) /\
    (val < a i \/ i = w - 1))).

Section search.
Context (v : Z -> option Z) (a : Z -> Z) (w val : Z).
Hypothesis Hv : forall i, 0 <= i < w -> v i = Some (a i).

(** Where the loop of [find_bucket] stops. *)
Definition stops (i : Z) : Prop :=
  0 <= i < w /\
  (a i = val \/ (val < a i /\ i = 0) \/
   (a i < val /\ (i < w - 1 -> val <= a (i + 1) \/ i + 1 = w - 1))).

Lemma search_stops fuel lp rp d :
  0 <= lp <= rp -> rp < w -> (lp = 0 \/ a lp < val) -> (rp = w - 1 \/ val < a rp) ->
  0 <= d -> (d = 0 -> rp - lp <= 1) -> (d <> 0 -> lp + d < rp) ->
  rp - lp < Z.of_nat fuel ->
  exists i, search fuel v val lp rp d (lp + d) = Some i /\ stops i.
Proof.
  revert lp rp d. induction fuel as [|fuel IH]; intros lp rp d H1 H2 Hl Hr Hd H0 Hi Hf; [lia|].
  cbn [search]. destruct (truth d) eqn:Ed; cbn [negb].
  2:{ apply truth_false in Ed as ->. exists (lp + 0). split; [done|].
      rewrite Z.add_0_r. split; [lia|]. specialize (H0 eq_refl).
      destruct (Z.lt_trichotomy (a lp) val) as [|[|]]; [|tauto|right; left; lia].
      right; right. split; [done|]. intros Hlt. destruct Hr as [->|Hr]; [right; lia|].
      left. destruct (Z.eq_dec rp lp) as [->|]; [lia|].
      replace (lp + 1) with rp by lia. lia. }
  apply truth_true in Ed. specialize (Hi Ed).
  rewrite (Hv (lp + d)), (Hv (lp + d + 1)) by lia. cbn [mbind option_bind].
  destruct (Z.eqb_spec val (a (lp + d))); [exists (lp + d); split; [done|split; [lia|left; lia]]|].
  assert (forall x, 0 <= x -> 0 <= x ÷ 2 <= x /\ (x ÷ 2 = 0 -> x <= 1) /\ (x ÷ 2 <> 0 -> x ÷ 2 < x)) as Q.
  { intros x Hx. rewrite Z.quot_div_nonneg by lia. dlia. }
  destruct (Z.ltb_spec val (a (lp + d))) as [Hlt|Hge].
  - destruct (Q (lp + d - lp)) as (?&?&?); [lia|]. apply IH; lia.
  - destruct (Z.ltb_spec (a (lp + d + 1)) val) as [Hlt|Hge'].
    + destruct (Q (rp - (lp + d + 1))) as (?&?&?); [lia|]. apply IH; lia.
    + exists (lp + d). split; [done|]. split; [lia|]. right; right. split; [lia|].
      intros. by left.
Qed.

Hypothesis Hmono : forall i j, 0 <= i <= j -> j < w -> a i <= a j.

Lemma first_equal_spec fuel i :
  0 <= i < w -> a i = val -> i < Z.of_nat fuel ->
  exists r, first_equal fuel v val i = Some r /\ 0 <= r <= i /\ a r = val /\
    forall j, 0 <= j < r -> a j < val.
Proof.
  revert i. induction fuel as [|fuel IH]; intros i Hi Ha Hf; [lia|].
  cbn [first_equal]. destruct (truth i) eqn:Ei; cbn [negb].
  2:{ apply truth_false in Ei as ->. exists 0. repeat split; done || lia. }
  apply truth_true in Ei. rewrite Hv by lia. cbn [mbind option_bind].
  destruct (Z.eqb_spec val (a (i - 1))).
  - destruct (IH (i - 1)) as (r&E&?&?&?); [lia..|]. exists r. repeat split; done || lia.
  - exists i. repeat split; try done; try lia. intros j Hj.
    pose proof (Hmono j (i - 1)). pose proof (Hmono (i - 1) i). lia.
Qed.

Lemma last_equal_spec fuel i :
  0 <= i < w -> a i = val -> w - i < Z.of_nat fuel ->
  exists r, last_equal fuel v w val i = Some r /\ i <= r < w /\ a r = val /\
    forall j, r < j < w -> val < a j.
Proof.
  revert i. induction fuel as [|fuel IH]; intros i Hi Ha Hf; [lia|].
  cbn [last_equal]. destruct (Z.ltb_spec (i + 1) w).
  2:{ exists i. repeat split; done || lia. }
  rewrite Hv by lia. cbn [mbind option_bind]. destruct (Z.eqb_spec val (a (i + 1))).
  - destruct (IH (i + 1)) as (r&E&?&?&?); [lia..|]. exists r. repeat split; done || lia.
  - exists i. repeat split; try done; try lia. intros j Hj.
    pose proof (Hmono (i + 1) j). pose proof (Hmono i (i + 1)). lia.
Qed.

(** The first test of the loop starts at the middle of the whole array, which
    for two buckets is the last one: there the bucket after it is read when
    the value is above both. *)
Lemma search_start fuel :
  0 < w < 256 -> (w = 2 -> val <= a 1) -> w < Z.of_nat fuel ->
  exists i, search fuel v val 0 (w - 1) (w / 2) (0 + w / 2) = Some i /\ stops i.
Proof.
  intros Hw H2 Hf. destruct (Z.eq_dec w 2) as [E|Hne]; [|apply search_stops; dlia].
  replace (w / 2) with 1 by (by rewrite E). destruct fuel as [|fuel]; [lia|]. cbn [search].
  change (0 + 1) with 1. change (negb (truth 1)) with false. cbn iota. rewrite (Hv 1) by lia.
  cbn [mbind option_bind]. destruct (Z.eqb_spec val (a 1)).
  { exists 1. split; [done|]. split; [lia|]. by left. }
  destruct (Z.ltb_spec val (a 1)); [|lia].
  change ((1 - 0) ÷ 2) with 0. apply (search_stops fuel 0 1 0); lia.
Qed.

Lemma find_val_spec fuel first :
  0 < w < 256 -> (w = 2 -> val <= a 1) -> w < Z.of_nat fuel ->
  exists i, find_val fuel v w val first = Some i /\ is_bucket a w val first i.
Proof.
  intros Hw H2 Hf. destruct (search_start fuel Hw H2 Hf) as (i0&E0&Hi0&Hst).
  unfold find_val. rewrite (sgn_small 32), u32_small by (unfold srange; simpl; lia). cbn zeta.
  rewrite E0. cbn [mbind option_bind]. rewrite Hv by lia. cbn [mbind option_bind].
  set (i := if (a i0 <? val) && (i0 <? w - 1) then i0 + 1 else i0).
  assert (0 <= i < w /\ (a i = val \/ (val < a i \/ i = w - 1) /\ forall j, 0 <= j < i -> a j < val))
    as [Hi Hcase].
  { subst i. destruct (Z.ltb_spec (a i0) val), (Z.ltb_spec i0 (w - 1)); cbn [andb];
      (split; [lia|]).
    - destruct (Z.eq_dec (a (i0 + 1)) val); [by left|right]. split; [lia|].
      intros j Hj. pose proof (Hmono j i0). lia.
    - right. split; [lia|]. intros j Hj. pose proof (Hmono j i0). lia.
    - destruct (Z.eq_dec (a i0) val); [by left|right]. split; lia.
    - destruct (Z.eq_dec (a i0) val); [by left|right]. split; lia. }
  rewrite (Hv i) by lia. cbn [mbind option_bind]. destruct (Z.eqb_spec val (a i)) as [Ev|Hne].
  - destruct first.
    + destruct (first_equal_spec fuel i) as (r&Er&?&?&?); [lia..|].
      exists r. split; [done|]. split; [lia|]. by left.
    + destruct (last_equal_spec fuel i) as (r&Er&?&?&?); [lia..|].
      exists r. split; [done|]. split; [lia|]. by left.
  - exists i. split; [done|]. split; [lia|]. destruct Hcase as [|[Hab Hbelow]]; [lia|]. right.
    split; [|done]. intros j Hj. destruct (Z.lt_ge_cases j i); [specialize (Hbelow j); lia|].
    pose proof (Hmono i j). pose proof (Hmono j (w - 1)).
    destruct Hab as [|Hl]; [lia|]. assert (j = i) as -> by lia. lia.
Qed.

End search.

(** ** Buckets in memory *)

Definition bits_of (h : Histogram_binary) : Z :=
  match type h with SINGLE_PREC_HB => 8 | _ => 16 end.

Definition binary (h : Histogram_binary) : Prop :=
  type h = SINGLE_PREC_HB \/ type h = DOUBLE_PREC_HB.

(** The bound of bucket [i]. *)
Definition bucket (m : mem) (h : Histogram_binary) (i : Z) : Z := default 0 (get_value m h i).

Definition width (h : Histogram_binary) : Z := default 0 (get_width h).

Lemma get_value_bucket m h i :
  binary h -> i < width h -> get_value m h i = Some (bucket m h i).
Proof.
  unfold bucket, get_value, width, get_width. intros [->| ->] Hi; cbn in *;
    by rewrite (proj2 (Z.ltb_lt i _)).
Qed.

Lemma width_range h : binary h -> 0 <= size h < 256 -> 0 <= width h < 256.
Proof. unfold width, get_width. intros [->| ->] ?; cbn; dlia. Qed.

Lemma load_store2 m p x : X86_64.uint2korr (X86_64.int2store m p x) p = u16 x.
Proof.
  apply (read_stored 2 X86_64.int2store X86_64.uint2korr); [apply st_int2|].
  apply (load_wrap_reads 2).
Qed.

Lemma load_frame2 m p q x : q + 2 <= p \/ p + 2 <= q ->
  X86_64.uint2korr (X86_64.int2store m p x) q = X86_64.uint2korr m q.
Proof.
  intros H. unfold X86_64.uint2korr, load. do 2 f_equal. apply bytes_agree. intros y Hy.
  apply st_int2. simpl. lia.
Qed.

(** Storing the number [x] in bucket [i]. *)
Definition put (m : mem) (h : Histogram_binary) (i x : Z) : mem :=
  match type h with
  | SINGLE_PREC_HB => poke m (values h + i) x
  | _ => X86_64.int2store m (values h + i * 2) x
  end.

Lemma bucket_put m h i j x :
  binary h -> urange (bits_of h) x -> 0 <= i < width h -> 0 <= j < width h ->
  bucket (put m h i x) h j = if j =? i then x else bucket m h j.
Proof.
  intros Hb Hx Hi Hj. unfold bucket, get_value, put, width, get_width, bits_of in *.
  destruct Hb as [E|E]; rewrite E in *; cbn in *; rewrite (proj2 (Z.ltb_lt j _)) by lia; cbn.
  - unfold poke. destruct (Z.eqb_spec j i) as [->|]; [by rewrite Z.eqb_refl|].
    by rewrite (proj2 (Z.eqb_neq _ _)) by lia.
  - destruct (Z.eqb_spec j i) as [->|].
    + rewrite load_store2. by apply wrap_small.
    + apply load_frame2. lia.
Qed.

Definition sorted_buckets (m : mem) (h : Histogram_binary) : Prop :=
  forall i j, 0 <= i <= j -> j < width h -> bucket m h i <= bucket m h j.

(** With two buckets, the search for a value above both bounds reads
    bucket 2, which does not exist: the assertion of [get_value] fails. *)
Theorem find_bucket_reads_past_two m h pos first f val fuel :
  binary h -> width h = 2 -> prec_factor h = Some f ->
  to_uint 32 (dmul pos (of_int f)) = Some val -> bucket m h 1 < val ->
  find_bucket fuel m h pos first = None /\ get_value m h 2 = None.
Proof.
  intros Hb Hw Hf Hval Hgt.
  assert (get_width h = Some 2) as Ew.
  { unfold width, get_width in *. by destruct Hb as [E|E]; rewrite E in *; cbn in *; rewrite Hw. }
  assert (get_value m h 2 = None) as E2.
  { unfold get_value. by rewrite Ew. }
  split; [|done]. unfold find_bucket. rewrite Hf. cbn [mbind option_bind].
  rewrite Hval, Ew. cbn [mbind option_bind]. unfold find_val. cbn zeta.
  change (0 + 2 / 2) with 1. change (2 / 2) with 1. destruct fuel as [|fuel]; [done|].
  cbn [search]. change (negb (truth 1)) with false. cbn iota.
  rewrite (get_value_bucket m h 1) by (done || lia). cbn [mbind option_bind].
  rewrite (proj2 (Z.eqb_neq val _)), (proj2 (Z.ltb_ge val _)) by lia.
  change (1 + 1) with 2. by rewrite E2.
Qed.

(** C18: In a histogram with sorted bounds, for a position whose scaled value is
    an unsigned 32-bit number, [find_bucket] terminates, reads no value outside
    the array and returns the first (or last) bucket whose bound is the value,
    else the first bucket above it, else the last bucket -- except that a
    histogram of exactly two buckets is read behind its end, whatever the fuel,
    when the value is above the second bound. *)
Theorem find_bucket_spec m h pos first f val :
  binary h -> size h < 256 -> 0 < width h -> sorted_buckets m h ->
  prec_factor h = Some f -> to_uint 32 (dmul pos (of_int f)) = Some val ->
  if bool_decide (width h = 2 /\ bucket m h 1 < val)
  then get_value m h 2 = None /\ forall fuel, find_bucket fuel m h pos first = None
  else exists i, find_bucket (Z.to_nat (width h) + 1) m h pos first = Some i /\
         is_bucket (bucket m h) (width h) val first i.
Proof.
  intros Hb Hs Hw Hm Hf Hval. case_bool_decide as H2.
  { destruct H2 as [H2 Hgt].
    pose proof (fun fuel => find_bucket_reads_past_two m h pos first f val fuel Hb H2 Hf Hval Hgt) as Hp.
    split; [apply (Hp O)|]. intros fuel. apply Hp. }
  unfold find_bucket. rewrite Hf. cbn [mbind option_bind].
  rewrite Hval. cbn [mbind option_bind].
  assert (get_width h = Some (width h)) as ->.
  { unfold width, get_width. by destruct Hb as [->| ->]. }
  cbn [mbind option_bind]. apply find_val_spec; try done; [| | |lia].
  - intros i Hi. apply get_value_bucket; [done|lia].
  - split; [done|]. apply width_range; [done|]. split; [|done].
    unfold width, get_width in Hw. destruct Hb as [E|E]; rewrite E in Hw; cbn in Hw; dlia.
  - lia.
Qed.

(** Four buckets with bounds 10, 60, 60 and 200 of 255. *)
Definition sample : Histogram_binary := mk SINGLE_PREC_HB 4 1000.
Definition sample_memory : mem :=
  put (put (put (put (fun _ => 0) sample 0 10) sample 1 60) sample 2 60) sample 3 200.

Lemma find_bucket_spec_witness :
  exists i, find_bucket 5 sample_memory sample (ddiv (of_int 120) (of_int 510)) false = Some i /\
    is_bucket (bucket sample_memory sample) 4 60 false i.
Proof.
  apply (find_bucket_spec sample_memory sample _ false 255 60);
    [by left|done|done| |reflexivity|vm_compute; reflexivity].
  intros i j Hi Hj. change (width sample) with 4 in Hj.
  assert (i = 0 \/ i = 1 \/ i = 2 \/ i = 3) as Ci by lia.
  assert (j = 0 \/ j = 1 \/ j = 2 \/ j = 3) as Cj by lia.
  destruct Ci as [-> | [-> | [-> | ->]]], Cj as [-> | [-> | [-> | ->]]]; try lia;
    vm_compute; discriminate.
Defined.

Lemma find_bucket_reads_past_two_witness :
  find_bucket 9 (fun _ => 7) (mk SINGLE_PREC_HB 2 0) (of_int 1) true = None /\
  get_value (fun _ => 7) (mk SINGLE_PREC_HB 2 0) 2 = None.
Proof.
  apply (find_bucket_reads_past_two _ _ _ _ 255 255); [by left|done|done|done|done].
Defined.

(** The bucket written last is the one read: [set_value] stores the
    truncated product and leaves every other bucket as it was, and
    [set_prev_value] copies the bound of the bucket before. *)
Theorem set_value_spec m h i x val f :
  binary h -> 0 <= i < width h -> prec_factor h = Some f ->
  to_uint (bits_of h) (dmul val (of_int f)) = Some x ->
  exists m', set_value m h i val = Some m' /\
    (forall j, 0 <= j < width h -> bucket m' h j = if j =? i then x else bucket m h j) /\
    (i + 1 < width h -> exists m'', set_prev_value m' h (i + 1) = Some m'' /\
       forall j, 0 <= j < width h ->
         bucket m'' h j = if (j =? i) || (j =? i + 1) then x else bucket m h j).
Proof.
  intros Hb Hi Hf Hx. pose proof (to_uint_range _ _ _ Hx) as Hr.
  assert (set_value m h i val = Some (put m h i x)) as Es.
  { unfold set_value, put, width, get_width, bits_of in *. rewrite Hf. cbn [mbind option_bind].
    destruct Hb as [E|E]; rewrite E in *; cbn in Hi; cbn [mbind option_bind];
      rewrite (proj2 (Z.ltb_lt i _)) by lia; by rewrite Hx. }
  exists (put m h i x). split; [done|]. split; [intros; by apply bucket_put|].
  intros Hn. exists (put (put m h i x) h (i + 1) x).
  assert (bucket (put m h i x) h i = x) as Ei.
  { rewrite bucket_put by (done || lia). by rewrite Z.eqb_refl. }
  split.
  - unfold set_prev_value. unfold bucket, get_value, width, get_width in *.
    assert (1 <=? i + 1 = true) as -> by (apply Z.leb_le; lia).
    destruct Hb as [E|E]; unfold put in *; rewrite E in *; cbn in Hi, Hn; cbn [mbind option_bind] in *;
      rewrite (proj2 (Z.ltb_lt (i + 1) _)) by lia; rewrite (proj2 (Z.ltb_lt i _)) in Ei by lia;
      cbn [andb default id] in *; do 2 f_equal; (etrans; [|exact Ei]); unfold id; f_equal; lia.
  - intros j Hj. rewrite !bucket_put by (done || lia).
    destruct (Z.eqb_spec j i), (Z.eqb_spec j (i + 1)); done.
Qed.

Lemma set_value_spec_witness :
  exists m', set_value (fun _ => 3) sample 1 (ddiv (of_int 1) (of_int 2)) = Some m' /\
    (forall j, 0 <= j < width sample ->
       bucket m' sample j = if j =? 1 then 127 else bucket (fun _ => 3) sample j) /\
    (1 + 1 < width sample -> exists m'', set_prev_value m' sample (1 + 1) = Some m'' /\
       forall j, 0 <= j < width sample ->
         bucket m'' sample j = if (j =? 1) || (j =? 1 + 1) then 127 else bucket (fun _ => 3) sample j).
Proof.
  apply (set_value_spec _ _ _ _ _ 255); [by left|done|done|vm_compute; reflexivity].
Defined.

End Histogram.

(** ** Columns and indexes *)

Module Column.

Inductive enum_column_stat_col :=
| COLUMN_STAT_DB_NAME | COLUMN_STAT_TABLE_NAME | COLUMN_STAT_COLUMN_NAME
| COLUMN_STAT_MIN_VALUE | COLUMN_STAT_MAX_VALUE | COLUMN_STAT_NULLS_RATIO
| COLUMN_STAT_AVG_LENGTH | COLUMN_STAT_AVG_FREQUENCY | COLUMN_STAT_HIST_SIZE
| COLUMN_STAT_HIST_TYPE | COLUMN_STAT_HISTOGRAM.

#[export] Instance column_stat_col_eq_dec : EqDecision enum_column_stat_col.
Proof. solve_decision. Defined.

(** The numbers of the enumerators. *)
Definition col (c : enum_column_stat_col) : Z :=
  match c with
  | COLUMN_STAT_DB_NAME => 0 | COLUMN_STAT_TABLE_NAME => 1 | COLUMN_STAT_COLUMN_NAME => 2
  | COLUMN_STAT_MIN_VALUE => 3 | COLUMN_STAT_MAX_VALUE => 4 | COLUMN_STAT_NULLS_RATIO => 5
  | COLUMN_STAT_AVG_LENGTH => 6 | COLUMN_STAT_AVG_FREQUENCY => 7 | COLUMN_STAT_HIST_SIZE => 8
  | COLUMN_STAT_HIST_TYPE => 9 | COLUMN_STAT_HISTOGRAM => 10
  end.

Definition Scale_factor_nulls_ratio : Z := 100000.
Definition Scale_factor_avg_length : Z := 100000.
Definition Scale_factor_avg_frequency : Z := 100000.

Record Column_statistics := mk {
  column_stat_nulls : Z;     (* uint32 *)
  nulls_ratio : Z;           (* ulong *)
  avg_length : Z;            (* ulonglong *)
  avg_frequency : Z          (* ulonglong *)
}.

Definition no_values_provided_bitmap : Z :=
  u32 (Z.shiftl (Z.shiftl 1 (col COLUMN_STAT_HISTOGRAM - col COLUMN_STAT_COLUMN_NAME) - 1)
                (col COLUMN_STAT_COLUMN_NAME + 1)).

Definition with_nulls (s : Column_statistics) (b : Z) : Column_statistics :=
  mk b (nulls_ratio s) (avg_length s) (avg_frequency s).

Definition set_all_nulls (s : Column_statistics) : Column_statistics :=
  with_nulls s no_values_provided_bitmap.

Definition set_not_null (c : enum_column_stat_col) (s : Column_statistics) : Column_statistics :=
  with_nulls s (Z.land (column_stat_nulls s) (u32 (Z.lnot (Z.shiftl 1 (col c))))).

Definition is_null (c : enum_column_stat_col) (s : Column_statistics) : bool :=
  truth (Z.land (column_stat_nulls s) (Z.shiftl 1 (col c))).

Definition get_nulls_ratio (s : Column_statistics) : double :=
  ddiv (of_int (nulls_ratio s)) (of_int Scale_factor_nulls_ratio).
Definition get_avg_length (s : Column_statistics) : double :=
  ddiv (of_int (avg_length s)) (of_int Scale_factor_avg_length).
Definition get_avg_frequency (s : Column_statistics) : double :=
  ddiv (of_int (avg_frequency s)) (of_int Scale_factor_avg_frequency).

Definition set_nulls_ratio (val : double) (s : Column_statistics) : option Column_statistics :=
  n ← to_uint 32 (dmul val (of_int Scale_factor_nulls_ratio));
  Some (mk (column_stat_nulls s) n (avg_length s) (avg_frequency s)).
Definition set_avg_length (val : double) (s : Column_statistics) : option Column_statistics :=
  n ← to_uint 64 (dmul val (of_int Scale_factor_avg_length));
  Some (mk (column_stat_nulls s) (nulls_ratio s) n (avg_frequency s)).
Definition set_avg_frequency (val : double) (s : Column_statistics) : option Column_statistics :=
  n ← to_uint 64 (dmul val (of_int Scale_factor_avg_frequency));
  Some (mk (column_stat_nulls s) (nulls_ratio s) (avg_length s) n).

Definition min_max_values_are_provided (s : Column_statistics) : bool :=
  negb (is_null COLUMN_STAT_MIN_VALUE s) && negb (is_null COLUMN_STAT_MAX_VALUE s).

Definition no_stat_values_provided (s : Column_statistics) : bool :=
  column_stat_nulls s =? no_values_provided_bitmap.

(** The columns of the statistics table that hold values, not names. *)
Definition is_value (c : enum_column_stat_col) : bool := 3 <=? col c.

Lemma col_range c : 0 <= col c <= 10.
Proof. destruct c; simpl; lia. Qed.

Lemma col_inj c d : col c = col d -> c = d.
Proof. destruct c, d; simpl; congruence || lia. Qed.

Lemma shiftl1_testbit c i : 0 <= i -> Z.testbit (Z.shiftl 1 (col c)) i = (i =? col c).
Proof.
  intros. pose proof (col_range c). rewrite Z.shiftl_1_l. apply pow2_testbit. lia.
Qed.

Lemma is_null_testbit c s : is_null c s = Z.testbit (column_stat_nulls s) (col c).
Proof.
  pose proof (col_range c). unfold is_null, truth. destruct (Z.testbit _ _) eqn:E.
  - apply negb_true_iff, Z.eqb_neq. intros H0.
    apply (f_equal (fun z => Z.testbit z (col c))) in H0.
    by rewrite Z.land_spec, shiftl1_testbit, Z.eqb_refl, E, Z.testbit_0_l in H0 by lia.
  - apply negb_false_iff, Z.eqb_eq. apply Z.bits_inj'. intros i Hi.
    rewrite Z.land_spec, shiftl1_testbit, Z.testbit_0_l by lia.
    destruct (Z.eqb_spec i (col c)) as [->|]; [by rewrite E|by rewrite andb_false_r].
Qed.

Lemma bitmap_testbit i : 0 <= i ->
  Z.testbit no_values_provided_bitmap i = (3 <=? i) && (i <=? 10).
Proof.
  intros. change no_values_provided_bitmap with (Z.shiftl (Z.ones 8) 3). autorewrite with bits.
  destruct (Z.leb_spec 3 i), (Z.leb_spec i 10); simpl;
    rewrite ?(proj2 (Z.leb_le 0 (i - 3))) by lia; rewrite ?(proj2 (Z.leb_gt 0 (i - 3))) by lia;
    simpl; try done; (apply Z.ltb_lt; lia) || (apply Z.ltb_ge; lia).
Qed.

(** The bitmap after [set_all_nulls] and any number of [set_not_null]. *)
Lemma provided_testbit s cs i : 0 <= i ->
  Z.testbit (column_stat_nulls (foldr set_not_null (set_all_nulls s) cs)) i =
  (3 <=? i) && (i <=? 10) && negb (existsb (fun c => i =? col c) cs).
Proof.
  intros Hi. induction cs as [|c cs IH]; simpl.
  - by rewrite bitmap_testbit, andb_true_r by lia.
  - pose proof (col_range c). rewrite Z.land_spec, wrap_testbit, Z.lnot_spec, IH, shiftl1_testbit by lia.
    destruct (Z.leb_spec 3 i), (Z.leb_spec i 10), (Z.eqb_spec i (col c)); simpl;
      rewrite ?andb_false_r, ?andb_true_r; try done.
    rewrite (proj2 (Z.ltb_lt i 32)) by lia. by rewrite andb_true_r.
Qed.

Lemma provided_is_null s cs c :
  is_null c (foldr set_not_null (set_all_nulls s) cs) = is_value c && bool_decide (c ∉ cs).
Proof.
  pose proof (col_range c). rewrite is_null_testbit, provided_testbit by lia.
  rewrite (proj2 (Z.leb_le (col c) 10)) by lia. rewrite andb_true_r. unfold is_value. f_equal.
  apply eq_true_iff_eq. rewrite negb_true_iff, bool_decide_eq_true, <- not_true_iff_false.
  rewrite existsb_exists. apply not_iff_compat. split.
  - intros (d&Hd&E%Z.eqb_eq%col_inj). subst. by apply list_elem_of_In.
  - intros Hc. exists c. split; [by apply list_elem_of_In|apply Z.eqb_refl].
Qed.

(** The bitmap of missing statistics is exact: after [set_all_nulls] and
    [set_not_null] of any columns, a column is null when it holds a value and
    was not set; minimum and maximum are provided when both were set; and no
    statistics are reported exactly when no value column was set. *)
Theorem column_nulls_exact s cs :
  let s' := foldr set_not_null (set_all_nulls s) cs in
  (forall c, is_null c s' = is_value c && bool_decide (c ∉ cs)) /\
  min_max_values_are_provided s' =
    bool_decide (COLUMN_STAT_MIN_VALUE ∈ cs /\ COLUMN_STAT_MAX_VALUE ∈ cs) /\
  no_stat_values_provided s' = bool_decide (Forall (fun c => is_value c = false) cs).
Proof.
  intros s'. split; [intros c; apply provided_is_null|]. split.
  - unfold min_max_values_are_provided, s'. rewrite !provided_is_null. simpl.
    repeat case_bool_decide; simpl; tauto.
  - unfold no_stat_values_provided, s'. apply eq_true_iff_eq.
    rewrite bool_decide_eq_true, Z.eqb_eq, Forall_forall. split.
    + intros E c Hc. apply (f_equal (fun z => Z.testbit z (col c))) in E.
      pose proof (provided_is_null s cs c) as P. rewrite is_null_testbit in P. rewrite P in E.
      pose proof (col_range c). rewrite bitmap_testbit in E by lia. unfold is_value in *.
      rewrite bool_decide_eq_false_2, andb_false_r in E by tauto.
      destruct (3 <=? col c); [|done]. by rewrite (proj2 (Z.leb_le (col c) 10)) in E by lia.
    + intros Hn. bits. rewrite provided_testbit, bitmap_testbit by lia.
      destruct (Z.leb_spec 3 i); [simpl|done].
      destruct (existsb _ cs) eqn:Ex; [|by rewrite andb_true_r].
      apply existsb_exists in Ex as (c&Hc&E%Z.eqb_eq). apply list_elem_of_In in Hc.
      specialize (Hn c Hc). unfold is_value in Hn. apply Z.leb_gt in Hn. lia.
Qed.

(** Ratios are truncated, not rounded, so writing a value with four
    decimals -- the precision of the statistics table -- and reading it back
    loses a unit: 0.0003 is kept as 29 hundred-thousandths. *)
Theorem nulls_ratio_loses_a_unit s :
  let d := ddiv (of_int 3) (of_int 10000) in
  exists s', set_nulls_ratio d s = Some s' /\ nulls_ratio s' = 29 /\
    deq (get_nulls_ratio s') d = false /\
    deq (get_nulls_ratio s') (ddiv (of_int 29) (of_int 100000)) = true.
Proof. eexists. split; [vm_compute; reflexivity|]. by vm_compute. Qed.

End Column.

Module Index.

Definition Scale_factor_avg_frequency : Z := 100000.

(** The array is owned by the caller; [None] is a null pointer. *)
Definition Index_statistics := option (list Z).

Definition init_avg_frequency (ptr : option (list Z)) : Index_statistics := ptr.
Definition avg_frequency_is_inited (s : Index_statistics) : bool := bool_decide (is_Some s).

Definition get_avg_frequency (s : Index_statistics) (i : nat) : option double :=
  l ← s; n ← l !! i; Some (ddiv (of_int n) (of_int Scale_factor_avg_frequency)).

Definition set_avg_frequency (s : Index_statistics) (i : nat) (val : double)
  : option Index_statistics :=
  l ← s; _ ← l !! i;
  n ← to_uint 64 (dmul val (of_int Scale_factor_avg_frequency));
  Some (Some (<[i := n]> l)).

End Index.

(** ** Counters *)

Module Collector.

Record Basic_stats_collector := mk {
  count : Z; count_distinct : Z; count_distinct_single_occurence : Z   (* ulonglong *)
}.

Definition construct : Basic_stats_collector := mk 0 0 0.
Definition get_count_distinct (c : Basic_stats_collector) : Z := count_distinct c.
Definition get_count_single_occurence (c : Basic_stats_collector) : Z :=
  count_distinct_single_occurence c.
Definition get_count (c : Basic_stats_collector) : Z := count c.

Definition next (elem_cnt : Z) (c : Basic_stats_collector) : Basic_stats_collector :=
  let cd := u64 (count_distinct c + 1) in
  let cs := if elem_cnt =? 1 then u64 (count_distinct_single_occurence c + 1)
            else count_distinct_single_occurence c in
  mk (u64 (count c + elem_cnt)) cd cs.

(** Fed with the multiplicities of the distinct values of a column, the
    collector counts the values, the distinct ones and those that occur once,
    modulo 2^64. *)
Theorem collector_counts cnts :
  let c := foldl (fun c n => next n c) construct cnts in
  get_count c = u64 (foldr Z.add 0 cnts) /\
  get_count_distinct c = u64 (Z.of_nat (length cnts)) /\
  get_count_single_occurence c = u64 (Z.of_nat (length (filter (fun n => n = 1) cnts))).
Proof.
  cbn zeta. unfold get_count, get_count_distinct, get_count_single_occurence.
  induction cnts as [|n cnts IH] using rev_ind; [done|].
  rewrite foldl_snoc, foldr_snoc, length_app, filter_app. cbn [next count count_distinct
    count_distinct_single_occurence]. destruct IH as (->&->&->).
  assert (foldr Z.add (n + 0) cnts = foldr Z.add 0 cnts + n) as ->.
  { clear. induction cnts; simpl; lia. }
  unfold wrap. repeat split.
  - apply Zplus_mod_idemp_l.
  - rewrite Zplus_mod_idemp_l. f_equal. simpl. lia.
  - rewrite length_app. destruct (Z.eqb_spec n 1) as [->|].
    + rewrite filter_cons_True, Zplus_mod_idemp_l by done. f_equal. simpl. lia.
    + rewrite filter_cons_False by done. simpl. by rewrite Nat.add_0_r.
Qed.

End Collector.
