(* ===== verification/WindowFunc.v ===== *)
(** * Window functions (private/item_windowfunc.h)

    The classes of item_windowfunc.h compute ROW_NUMBER, NTILE, CUME_DIST,
    PERCENT_RANK and the percentiles while the executor passes over the rows of
    a partition: [clear] at its start, [set_partition_row_count] where the size
    is needed, [add] for every row, then [val_int] or [val_real].  Every class
    is a module with its fields as a record.  What the current row gives to an
    item (its argument, the value of the ORDER BY expression) is an argument of
    [add]; NULL is [None].  An error that is reported to the client is the
    second component of the result of [add], and of [val_int] of NTILE.

    The bodies of [add] of the ranks are not in the header; of those classes
    the other methods are modelled.  The comparison of cached group fields
    ([test_if_group_changed], [Cached_item]) is the class [GroupCache]. *)

From Stdlib Require Import ZArith Lia SpecFloat.
From S2P Require Import Prelude CDouble.
From stdpp Require Import prelude list.
Local Open Scope Z_scope.
Local Open Scope cint_scope.

Inductive window_error :=
  ER_INVALID_NTILE_ARGUMENT | ER_ARGUMENT_OUT_OF_RANGE | ER_ARGUMENT_NOT_CONSTANT.

(** ** Group_bound_tracker *)

(** A list of cached fields, the rows of the current scan, and the functions
    on them that other files implement. *)
Class GroupCache := {
  row : Type;
  cache : Type;
  test_if_group_changed : cache -> row -> Z * cache;
  field : Type;
  fields : cache -> list field;
  cmp_read_only : field -> row -> Z
}.

(** The documented behaviour: the result is above -1 when the row differs from
    the cached one in a group field, and the row becomes the cached one;
    [cmp_read_only] compares and leaves the cache. *)
Class GroupCacheLaws (G : GroupCache) := {
  key : Type;
  key_of : row -> key;
  cached : cache -> option key;
  test_updates : forall c r, cached (snd (test_if_group_changed c r)) = Some (key_of r);
  test_changed : forall c r k, cached c = Some k ->
    (fst (test_if_group_changed c r) > -1 <-> key_of r <> k);
  compare_equal : forall c r k, cached c = Some k ->
    (Forall (fun f => cmp_read_only f r = 0) (fields c) <-> key_of r = k)
}.

Module Tracker.
Section tracker.
Context `{GroupCache}.

Record Group_bound_tracker := mk { group_fields : cache; first_check : bool }.

Definition init (t : Group_bound_tracker) : Group_bound_tracker := mk (group_fields t) true.

(** The test runs first, so that the cache is updated in any case. *)
Definition check_if_next_group (t : Group_bound_tracker) (r : row) : Group_bound_tracker * bool :=
  let q := test_if_group_changed (group_fields t) r in
  if (-1 <? fst q) || first_check t
  then (mk (snd q) false, true)
  else (mk (snd q) (first_check t), false).

Fixpoint compare_fields (l : list field) (r : row) : Z :=
  match l with
  | [] => 0
  | f :: l => let res := cmp_read_only f r in if truth res then res else compare_fields l r
  end.

Definition compare_with_cache (t : Group_bound_tracker) (r : row) : Z :=
  compare_fields (fields (group_fields t)) r.

(** The answers for the rows of a scan. *)
Fixpoint scan (t : Group_bound_tracker) (rows : list row) : Group_bound_tracker * list bool :=
  match rows with
  | [] => (t, [])
  | r :: rows =>
      let q := check_if_next_group t r in
      let p := scan (fst q) rows in (fst p, snd q :: snd p)
  end.

Context {L : GroupCacheLaws _} `{EqDecision key}.

(** Rows at which a group starts: those with another key than the row before. *)
Fixpoint starts (prev : option key) (rows : list row) : list bool :=
  match rows with
  | [] => []
  | r :: rows => bool_decide (prev <> Some (key_of r)) :: starts (Some (key_of r)) rows
  end.

Lemma check_spec t r k :
  cached (group_fields t) = Some k -> first_check t = false ->
  check_if_next_group t r =
    (mk (snd (test_if_group_changed (group_fields t) r)) false, bool_decide (key_of r <> k)).
Proof.
  intros Hk Hf. unfold check_if_next_group. rewrite Hf, orb_false_r.
  pose proof (test_changed (group_fields t) r k Hk) as T.
  destruct (Z.ltb_spec (-1) (fst (test_if_group_changed (group_fields t) r))); f_equal;
    symmetry; [apply bool_decide_eq_true|apply bool_decide_eq_false]; [apply T; lia|].
  intros Hne%T. lia.
Qed.

Lemma scan_next t rows k :
  cached (group_fields t) = Some k -> first_check t = false ->
  snd (scan t rows) = starts (Some k) rows.
Proof.
  revert t k. induction rows as [|r rows IH]; intros t k Hk Hf; [done|].
  cbn [scan starts]. rewrite (check_spec t r k) by done. cbn [fst snd].
  rewrite (IH _ (key_of r)) by (done || apply test_updates). f_equal.
  apply bool_decide_ext. split; congruence.
Qed.

(** Between checks [compare_with_cache] tells whether a row belongs to the
    group of the row checked last. *)
Lemma compare_fields_zero l r : compare_fields l r = 0 <-> Forall (fun f => cmp_read_only f r = 0) l.
Proof.
  induction l as [|f l IH]; simpl; [split; constructor|]. rewrite Forall_cons.
  unfold truth. destruct (Z.eqb_spec (cmp_read_only f r) 0); simpl; naive_solver.
Qed.

Lemma scan_cached t rows r : cached (group_fields (fst (scan t (rows ++ [r])))) = Some (key_of r).
Proof.
  revert t. induction rows as [|r0 rows IH]; intros t; cbn [scan app fst snd]; [|apply IH].
  unfold check_if_next_group. case_match; apply test_updates.
Qed.

(** After [init] the tracker reports exactly the starts of groups, whatever
    was cached before: the first row and every row whose key differs from the
    row before it; and [compare_with_cache] is 0 exactly for rows of the group
    of the row checked last. *)
Theorem group_tracker_spec t rows :
  snd (scan (init t) rows) = starts None rows /\
  (forall rows0 r r', rows = rows0 ++ [r] ->
     compare_with_cache (fst (scan (init t) rows)) r' = 0 <-> key_of r' = key_of r).
Proof.
  split.
  - destruct rows as [|r rows]; [done|]. cbn [scan starts snd]. unfold check_if_next_group.
    cbn [init first_check]. rewrite orb_true_r. cbn [fst snd].
    rewrite (scan_next _ _ (key_of r)); [done|apply test_updates|done].
  - intros rows0 r r' ->. unfold compare_with_cache. rewrite compare_fields_zero.
    apply compare_equal. apply scan_cached.
Qed.

End tracker.

(** Rows are their key values; the cache starts with no value. *)
#[local] Instance sample_group : GroupCache := {|
  row := list Z; cache := option (list Z);
  test_if_group_changed c r := (if bool_decide (c = Some r) then -1 else 0, Some r);
  field := option (list Z); fields c := [c];
  cmp_read_only f r := if bool_decide (f = Some r) then 0 else 1
|}.

#[local] Instance sample_group_laws : GroupCacheLaws sample_group.
Proof.
  refine {| key := list Z; key_of r := r; cached c := c |}.
  - done.
  - intros c r k ->. simpl. case_bool_decide; simplify_eq; naive_solver lia.
  - intros c r k ->. simpl. rewrite Forall_singleton. case_bool_decide; naive_solver lia.
Defined.

Definition sample_tracker : @Group_bound_tracker sample_group := @mk sample_group (Some [5]) false.
Definition sample_rows : list (@row sample_group) := [[5]; [5]; [6]; [5]].

Lemma group_tracker_spec_witness :
  snd (scan (init sample_tracker) sample_rows) = [true; false; true; true].
Proof.
  pose proof (proj1 (group_tracker_spec (L := sample_group_laws) sample_tracker sample_rows)) as E.
  exact E.
Defined.

End Tracker.

(** ** Row numbers and ranks *)

Module RowNumber.

(** [longlong count] *)
Definition Item_sum_row_number := Z.

Definition construct : Item_sum_row_number := 0.
Definition clear (this : Item_sum_row_number) : Item_sum_row_number := 0.
Definition add (this : Item_sum_row_number) : Item_sum_row_number * bool :=
  (s64 (this + 1), false).
Definition val_int (this : Item_sum_row_number) : Z := this.

(** ROW_NUMBER numbers the rows of every partition from one, whatever was
    counted before, as long as their number fits a longlong. *)
Theorem row_number_spec this n :
  Z.of_nat n < 2 ^ 63 ->
  val_int (Nat.iter n (fun c => fst (add c)) (clear this)) = Z.of_nat n.
Proof.
  unfold val_int, clear. induction n as [|n IH]; intros Hn; [done|].
  rewrite Nat.iter_succ, IH by lia. unfold add. cbn [fst].
  rewrite sgn_small; [lia|done|]. unfold srange. change (2 ^ (64 - 1)) with (2 ^ 63). lia.
Qed.

Lemma row_number_spec_witness :
  val_int (Nat.iter 3 (fun c => fst (add c)) (clear 41)) = 3.
Proof. apply (row_number_spec 41 3). done. Defined.

End RowNumber.

Module Rank.

(** [peer_tracker] is a heap object the item owns. *)
Record Item_sum_rank := mk { row_number : Z; cur_rank : Z; peer_tracker : option Z }.

Definition clear (this : Item_sum_rank) : Item_sum_rank := mk 0 1 (peer_tracker this).
Definition val_int (this : Item_sum_rank) : Z := cur_rank this.

(** The tracker to delete, if any. *)
Definition cleanup (this : Item_sum_rank) : Item_sum_rank * option Z :=
  (mk (row_number this) (cur_rank this) None, peer_tracker this).

End Rank.

Module DenseRank.

Record Item_sum_dense_rank := mk { dense_rank : Z; first_add : bool; peer_tracker : option Z }.

Definition construct : Item_sum_dense_rank := mk 0 true None.
Definition clear (this : Item_sum_dense_rank) : Item_sum_dense_rank :=
  mk 0 true (peer_tracker this).
Definition val_int (this : Item_sum_dense_rank) : Z := dense_rank this.
Definition cleanup (this : Item_sum_dense_rank) : Item_sum_dense_rank * option Z :=
  (mk (dense_rank this) (first_add this) None, peer_tracker this).

End DenseRank.

(** ** Sizes of partitions *)

(** [Partition_row_count::calc_val_real]: the value and [*null_value]. *)
Definition calc_val_real (partition_row_count_ current_row_count : Z) : double * bool :=
  if partition_row_count_ =? 0 then (of_int 0, true)
  else (ddiv (of_int current_row_count) (of_int partition_row_count_), false).

Definition get_row_count (partition_row_count_ : Z) : Z := s64 partition_row_count_.

Module PercentRank.

Record Item_sum_percent_rank := mk {
  partition_row_count_ : Z;    (* ulonglong *)
  cur_rank : Z; row_number : Z;  (* longlong *)
  null_value : bool;
  peer_tracker : option Z
}.

Definition set_partition_row_count (count : Z) (this : Item_sum_percent_rank) :=
  mk count (cur_rank this) (row_number this) (null_value this) (peer_tracker this).

Definition clear (this : Item_sum_percent_rank) : Item_sum_percent_rank :=
  mk (partition_row_count_ this) 1 0 (null_value this) (peer_tracker this).

Definition val_real (this : Item_sum_percent_rank) : Item_sum_percent_rank * double :=
  let partition_rows := u64 (get_row_count (partition_row_count_ this)) in
  let this := mk (partition_row_count_ this) (cur_rank this) (row_number this)
                 (if 0 <? partition_rows then false else true) (peer_tracker this) in
  (this,
   if 1 <? partition_rows
   then ddiv (of_int (s64 (cur_rank this - 1))) (of_int (u64 (partition_rows - 1)))
   else of_int 0).

Definition cleanup (this : Item_sum_percent_rank) : Item_sum_percent_rank * option Z :=
  (mk (partition_row_count_ this) (cur_rank this) (row_number this) (null_value this) None,
   peer_tracker this).

End PercentRank.

Module CumeDist.

Record Item_sum_cume_dist := mk {
  partition_row_count_ : Z; current_row_count_ : Z;   (* ulonglong *)
  null_value : bool
}.

Definition val_real (this : Item_sum_cume_dist) : Item_sum_cume_dist * double :=
  let r := calc_val_real (partition_row_count_ this) (current_row_count_ this) in
  (mk (partition_row_count_ this) (current_row_count_ this) (snd r), fst r).

Definition add (this : Item_sum_cume_dist) : Item_sum_cume_dist * bool :=
  (mk (partition_row_count_ this) (u64 (current_row_count_ this + 1)) (null_value this), false).

Definition clear (this : Item_sum_cume_dist) : Item_sum_cume_dist := mk 0 0 (null_value this).

Definition set_partition_row_count (count : Z) (this : Item_sum_cume_dist) : Item_sum_cume_dist :=
  mk count (current_row_count_ this) (null_value this).

End CumeDist.

(** ** NTILE *)

Module Ntile.

Record Item_sum_ntile := mk {
  partition_row_count_ : Z; current_row_count_ : Z; n_old_val_ : Z;   (* ulonglong *)
  null_value : bool
}.

Definition construct : Item_sum_ntile := mk 0 0 0 false.

(** [num_quantiles] is [get_num_quantiles()], the argument on the current row.
    [return true] of the error branch is the number 1. *)
Definition val_int (num_quantiles : Z) (this : Item_sum_ntile)
  : Item_sum_ntile * Z * option window_error :=
  if get_row_count (partition_row_count_ this) =? 0 then
    (mk (partition_row_count_ this) (current_row_count_ this) (n_old_val_ this) true, 0, None)
  else if (num_quantiles <=? 0) ||
          (negb (u64 num_quantiles =? n_old_val_ this) && (0 <? n_old_val_ this)) then
    (this, 1, Some ER_INVALID_NTILE_ARGUMENT)
  else
    let this := mk (partition_row_count_ this) (current_row_count_ this) (u64 num_quantiles) false in
    let quantile_size := u64 (get_row_count (partition_row_count_ this) ÷ num_quantiles) in
    let extra_rows :=
      u64 (get_row_count (partition_row_count_ this) - u64 (quantile_size * num_quantiles)) in
    if current_row_count_ this <=? u64 (extra_rows * u64 (quantile_size + 1)) then
      (this, s64 (u64 (u64 (current_row_count_ this - 1) / u64 (quantile_size + 1) + 1)), None)
    else
      (this, s64 (u64 (u64 (current_row_count_ this - 1 - extra_rows) / quantile_size + 1)), None).

Definition add (this : Item_sum_ntile) : Item_sum_ntile * bool :=
  (mk (partition_row_count_ this) (u64 (current_row_count_ this + 1)) (n_old_val_ this)
      (null_value this), false).

Definition clear (this : Item_sum_ntile) : Item_sum_ntile := mk 0 0 0 (null_value this).

Definition set_partition_row_count (count : Z) (this : Item_sum_ntile) : Item_sum_ntile :=
  mk count (current_row_count_ this) (n_old_val_ this) (null_value this).

(** A partition of [rows] rows, the [i]-th row of it. *)
Definition at_row (rows : Z) (i : nat) (this : Item_sum_ntile) : Item_sum_ntile :=
  Nat.iter i (fun c => fst (add c)) (set_partition_row_count rows (clear this)).

(** The rows before tile [t], when the first [rows mod n] of the [n] tiles take
    one row more than the others. *)
Definition before_tile (rows n t : Z) : Z :=
  (t - 1) * (rows / n) + Z.min (t - 1) (rows mod n).

Lemma at_row_state rows i this :
  Z.of_nat i < 2 ^ 63 ->
  at_row rows i this = mk rows (Z.of_nat i) 0 (null_value this).
Proof.
  unfold at_row. induction i as [|i IH]; intros Hi; [done|].
  rewrite Nat.iter_succ, IH by lia. unfold add. cbn [fst partition_row_count_ current_row_count_
    n_old_val_ null_value]. rewrite u64_small by lia. f_equal. lia.
Qed.

(** Dividing the rows into [n] tiles: which tile a row is in. *)
Lemma tile_of rows n i :
  0 < n -> 0 < i <= rows ->
  let q := rows / n in let e := rows mod n in
  let t := if i <=? e * (q + 1) then (i - 1) / (q + 1) + 1 else (i - 1 - e) / q + 1 in
  0 < t <= n /\ before_tile rows n t < i <= before_tile rows n (t + 1).
Proof.
  intros Hn Hi q e t. pose proof (Z.div_mod rows n ltac:(lia)) as Hdm.
  pose proof (Z.mod_pos_bound rows n Hn) as He. fold q e in Hdm, He.
  assert (0 <= q) by (apply Z.div_pos; lia).
  unfold before_tile. fold q e. subst t. destruct (Z.leb_spec i (e * (q + 1))) as [Hle|Hgt].
  - pose proof (Z.div_mod (i - 1) (q + 1) ltac:(lia)) as D.
    pose proof (Z.mod_pos_bound (i - 1) (q + 1) ltac:(lia)) as M.
    set (x := (i - 1) / (q + 1)) in *. assert (0 <= x) by (apply Z.div_pos; lia).
    assert (x < e) by nia. rewrite !Z.min_l by lia. split; nia.
  - assert (0 < q) by nia.
    pose proof (Z.div_mod (i - 1 - e) q ltac:(lia)) as D.
    pose proof (Z.mod_pos_bound (i - 1 - e) q ltac:(lia)) as M.
    set (x := (i - 1 - e) / q) in *. assert (e <= x) by nia.
    assert (x < n) by nia. rewrite !Z.min_r by lia. split; nia.
Qed.

Lemma before_tile_mono rows n t t' :
  0 < n -> 0 <= rows -> 0 < t <= t' -> before_tile rows n t <= before_tile rows n t'.
Proof.
  intros Hn Hr Ht. unfold before_tile. assert (0 <= rows / n) by (apply Z.div_pos; lia). nia.
Qed.

(** C19: NTILE(n) cuts a partition into [n] runs of consecutive rows: row [i] is
    in tile [t] exactly when it lies between the bounds of [t], the bounds
    leave no gap from 0 to the number of rows, and the sizes are the quotient,
    one more in the first [rows mod n] tiles.  No intermediate value wraps
    around, for any 63-bit number of rows and of tiles. *)
Theorem ntile_partitions rows n this i :
  0 < rows < 2 ^ 63 -> 0 < n < 2 ^ 63 -> (0 < i)%nat -> Z.of_nat i <= rows ->
  (exists t this', val_int n (at_row rows i this) = (this', t, None) /\
    null_value this' = false /\ 0 < t <= n /\
    forall t', 0 < t' <= n -> (t = t' <->
      before_tile rows n t' < Z.of_nat i <= before_tile rows n (t' + 1))) /\
  before_tile rows n 1 = 0 /\ before_tile rows n (n + 1) = rows /\
  (forall t, 0 < t <= n -> before_tile rows n (t + 1) - before_tile rows n t =
     rows / n + (if t <=? rows mod n then 1 else 0)).
Proof.
  intros Hr Hn Hi Hir. change (2 ^ 63) with 0x8000000000000000 in *.
  pose proof (Z.div_mod rows n ltac:(lia)) as Hdm.
  pose proof (Z.mod_pos_bound rows n ltac:(lia)) as He.
  assert (0 <= rows / n <= rows) as Hq by (split; [apply Z.div_pos; lia|nia]).
  split; [|split; [|split]].
  2:{ unfold before_tile. lia. }
  2:{ unfold before_tile. rewrite Z.min_r by lia. lia. }
  2:{ intros t Ht. unfold before_tile. destruct (Z.leb_spec t (rows mod n)); lia. }
  rewrite at_row_state by (change (2 ^ 63) with 0x8000000000000000; lia).
  unfold val_int, get_row_count. cbn [partition_row_count_ current_row_count_ n_old_val_].
  rewrite (sgn_small 64 rows) by (unfold srange; cbn; lia).
  rewrite (proj2 (Z.eqb_neq rows 0)), (proj2 (Z.leb_gt n 0)) by lia.
  rewrite (proj2 (Z.ltb_ge 0 0)), andb_false_r by lia. cbn [orb].
  rewrite Z.quot_div_nonneg by lia. rewrite (u64_small (rows / n)) by lia.
  rewrite (u64_small (rows / n * n)) by nia.
  replace (rows - rows / n * n) with (rows mod n) by lia.
  rewrite (u64_small (rows mod n)), (u64_small (rows / n + 1)) by lia.
  rewrite (u64_small (rows mod n * (rows / n + 1))) by nia.
  destruct (tile_of rows n (Z.of_nat i) ltac:(lia) ltac:(lia)) as [Ht Hb].
  set (t := if Z.of_nat i <=? rows mod n * (rows / n + 1)
            then (Z.of_nat i - 1) / (rows / n + 1) + 1
            else (Z.of_nat i - 1 - rows mod n) / (rows / n) + 1) in *.
  assert (forall t', 0 < t' <= n -> (t = t' <->
      before_tile rows n t' < Z.of_nat i <= before_tile rows n (t' + 1))) as U.
  { intros t' Ht'. split; [by intros <-|]. intros Hb'.
    destruct (Z.lt_trichotomy t t') as [Hlt|[|Hlt]]; [|done|]; exfalso.
    - pose proof (before_tile_mono rows n (t + 1) t'). lia.
    - pose proof (before_tile_mono rows n (t' + 1) t). lia. }
  destruct (Z.leb_spec (Z.of_nat i) (rows mod n * (rows / n + 1))); subst t.
  - rewrite (u64_small (Z.of_nat i - 1)), (u64_small (_ / _ + 1)) by lia.
    rewrite sgn_small by (unfold srange; cbn; lia). eauto 10.
  - rewrite (u64_small (Z.of_nat i - 1 - rows mod n)) by nia.
    rewrite (u64_small (_ / _ + 1)) by lia.
    rewrite sgn_small by (unfold srange; cbn; lia). eauto 10.
Qed.

(** Seven rows in three tiles: sizes 3, 2, 2. *)
Lemma ntile_partitions_witness :
  (exists t this', val_int 3 (at_row 7 4 construct) = (this', t, None) /\
    null_value this' = false /\ 0 < t <= 3 /\
    forall t', 0 < t' <= 3 -> (t = t' <->
      before_tile 7 3 t' < Z.of_nat 4 <= before_tile 7 3 (t' + 1))) /\
  before_tile 7 3 1 = 0 /\ before_tile 7 3 (3 + 1) = 7 /\
  (forall t, 0 < t <= 3 -> before_tile 7 3 (t + 1) - before_tile 7 3 t =
     7 / 3 + (if t <=? 7 mod 3 then 1 else 0)).
Proof. apply (ntile_partitions 7 3 construct 4); [done|done|lia|done]. Defined.

(** The rows of a partition, with the argument of each: [add], then [val_int]. *)
Fixpoint rows_of (ns : list Z) (this : Item_sum_ntile)
  : list (Item_sum_ntile * Z * option window_error) :=
  match ns with
  | [] => []
  | n :: ns => let r := val_int n (fst (add this)) in r :: rows_of ns (fst (fst r))
  end.

(** The first positive argument, 0 when there is none. *)
Fixpoint first_positive (ns : list Z) : Z :=
  match ns with
  | [] => 0
  | n :: ns => if 0 <? n then n else first_positive ns
  end.

Lemma first_positive_snoc ns n :
  first_positive (ns ++ [n]) =
    if 0 <? first_positive ns then first_positive ns else if 0 <? n then n else 0.
Proof.
  induction ns as [|m ns IH]; cbn; [done|]. destruct (Z.ltb_spec 0 m); [|done].
  destruct (Z.ltb_spec 0 m); [done|lia].
Qed.

Lemma first_positive_range ns : Forall (fun n => n < 2 ^ 63) ns -> 0 <= first_positive ns < 2 ^ 63.
Proof. induction 1 as [|n ns Hn _ IH]; cbn; [lia|]. destruct (Z.ltb_spec 0 n); lia. Qed.

Definition refused (old n : Z) : bool := (n <=? 0) || ((0 <? old) && negb (n =? old)).

(** One row, by the first positive argument so far. *)
Lemma val_int_row rows i old n b :
  0 < rows < 2 ^ 63 -> 0 <= old < 2 ^ 63 -> n < 2 ^ 63 ->
  let r := val_int n (mk rows i old b) in
  if refused old n then r = (mk rows i old b, 1, Some ER_INVALID_NTILE_ARGUMENT)
  else r = (mk rows i n false, snd (fst (val_int n (mk rows i 0 b))), None).
Proof.
  intros Hr Ho Hn. change (2 ^ 63) with 0x8000000000000000 in *.
  unfold val_int, get_row_count, refused. cbn [partition_row_count_ n_old_val_ current_row_count_].
  rewrite (sgn_small 64) by (unfold srange; cbn; lia).
  rewrite (proj2 (Z.eqb_neq rows 0)) by lia. destruct (Z.leb_spec n 0); cbn [orb]; [done|].
  rewrite (u64_small n) by lia. rewrite (andb_comm (negb (n =? old))), andb_false_r.
  destruct ((0 <? old) && negb (n =? old)); [done|]. by destruct (i <=? _).
Qed.

Lemma val_int_no_rows n i old b :
  val_int n (mk 0 i old b) = (mk 0 i old true, 0, None).
Proof. done. Qed.

Lemma rows_of_lookup rows ns : forall prev i b k n,
  0 < rows < 2 ^ 63 -> Forall (fun n => n < 2 ^ 63) (prev ++ ns) ->
  0 <= i -> i + Z.of_nat (length ns) < 2 ^ 63 -> ns !! k = Some n ->
  exists b' b'' this', let j := i + Z.of_nat (S k) in
    let old := first_positive (prev ++ take k ns) in
    rows_of ns (mk rows i (first_positive prev) b) !! k = Some
      (if refused old n then (mk rows j old b', 1, Some ER_INVALID_NTILE_ARGUMENT)
       else (this', snd (fst (val_int n (mk rows j 0 b''))), None)) /\
    (refused old n = false -> null_value this' = false).
Proof.
  induction ns as [|m ns IH]; intros prev i b k n Hr Hf Hi Hl Hk; [done|].
  pose proof Hf as [Hd Hns]%Forall_app. apply Forall_cons in Hns as [Hm Hns].
  cbn [length] in Hl. cbn [rows_of]. unfold add.
  cbn [fst partition_row_count_ current_row_count_ n_old_val_ null_value].
  rewrite u64_small by (change (2 ^ 63) with 0x8000000000000000 in *; lia).
  pose proof (val_int_row rows (i + 1) (first_positive prev) m b Hr (first_positive_range prev Hd) Hm) as Hv.
  destruct k as [|k].
  - injection Hk as ->. cbn [lookup list_lookup take]. rewrite app_nil_r.
    change (Z.of_nat 1) with 1. exists b, b, (mk rows (i + 1) n false).
    destruct (refused (first_positive prev) n); cbn zeta in Hv |- *; rewrite Hv; done.
  - assert (exists b1, fst (fst (val_int m (mk rows (i + 1) (first_positive prev) b))) =
      mk rows (i + 1) (first_positive (prev ++ [m])) b1) as [b1 ->].
    { rewrite first_positive_snoc. pose proof (first_positive_range prev Hd). unfold refused in Hv.
      destruct (Z.leb_spec m 0), (Z.ltb_spec 0 (first_positive prev)), (Z.ltb_spec 0 m);
        try lia; cbn [orb andb] in Hv.
      - rewrite Hv. by eexists.
      - rewrite Hv. exists b. cbn. f_equal. lia.
      - destruct (Z.eqb_spec m (first_positive prev)); cbn [negb] in Hv; rewrite Hv; cbn;
          [exists false; by f_equal|by eexists].
      - rewrite Hv. by eexists. }
    destruct (IH (prev ++ [m]) (i + 1) b1 k n) as (b'&b''&this'&E&Hn); [done| |lia|lia|done|].
    { by rewrite <- app_assoc. }
    exists b', b'', this'. rewrite <- app_assoc in E, Hn. cbn [app take lookup list_lookup] in *.
    replace (i + Z.of_nat (S (S k))) with (i + 1 + Z.of_nat (S k)) by lia. done.
Qed.

(** C40: The errors of NTILE over a partition, whatever the item was used for
    before.  Without rows every call gives NULL.  Otherwise a row is refused
    exactly when its argument is not positive or differs from the first positive
    argument of the partition, with ER_INVALID_NTILE_ARGUMENT and the value 1;
    a row that is not refused has the value that a partition with this argument
    throughout would give it, and is not NULL. *)
Theorem ntile_errors rows ns this k n :
  0 <= rows < 2 ^ 63 -> Forall (fun n => n < 2 ^ 63) ns -> Z.of_nat (length ns) < 2 ^ 63 ->
  ns !! k = Some n ->
  exists this' v e,
    rows_of ns (set_partition_row_count rows (clear this)) !! k = Some (this', v, e) /\
    (rows = 0 -> v = 0 /\ e = None /\ null_value this' = true) /\
    (rows <> 0 ->
       if (n <=? 0) || negb (n =? first_positive (take (S k) ns))
       then v = 1 /\ e = Some ER_INVALID_NTILE_ARGUMENT
       else v = snd (fst (val_int n (at_row rows (S k) this))) /\ e = None /\ null_value this' = false).
Proof.
  intros Hr Hf Hl Hk. unfold set_partition_row_count, clear.
  cbn [current_row_count_ n_old_val_ null_value]. destruct (Z.eq_dec rows 0) as [->|Hne].
  - assert (forall i b, exists this', rows_of ns (mk 0 i 0 b) !! k = Some (this', 0, None) /\
      null_value this' = true) as H.
    { clear -Hk. revert k Hk. induction ns as [|m ns IH]; intros k Hk i b; [done|].
      cbn [rows_of add fst]. rewrite val_int_no_rows. destruct k; [by eexists|].
      cbn [lookup list_lookup fst]. by apply IH. }
    destruct (H 0 (null_value this)) as (this'&E&Hn). exists this', 0, None. by split_and!.
  - destruct (rows_of_lookup rows ns [] 0 (null_value this) k n) as (b'&b''&this'&E&Hn);
      [lia|done|lia|done|done|].
    cbn [app first_positive] in E, Hn. cbn zeta in E. rewrite Z.add_0_l in E.
    assert (Z.of_nat (S k) < 2 ^ 63) as Hk'.
    { apply lookup_lt_Some in Hk. lia. }
    rewrite at_row_state by done. rewrite (take_S_r _ _ _ Hk), first_positive_snoc.
    assert (0 <= first_positive (take k ns)) as Hp by apply first_positive_range, Forall_take, Hf.
    assert ((n <=? 0) || negb (n =? (if 0 <? first_positive (take k ns) then first_positive (take k ns)
      else if 0 <? n then n else 0)) = refused (first_positive (take k ns)) n) as ->.
    { unfold refused. destruct (Z.leb_spec n 0), (Z.ltb_spec 0 n), (Z.ltb_spec 0 (first_positive (take k ns)));
        try lia; cbn [orb andb]; rewrite ?Z.eqb_refl; done. }
    destruct (refused (first_positive (take k ns)) n).
    + eexists _, _, _. split; [exact E|]. done.
    + eexists _, _, _. split; [exact E|]. split; [done|]. intros _. split; [|by split; [|apply Hn]].
      unfold val_int. cbn [partition_row_count_ current_row_count_ n_old_val_].
      by repeat case_match.
Qed.

(** Seven rows with the argument 3 on the first two, then 4, then 3 again. *)
Lemma ntile_errors_witness :
  (exists this' v, rows_of [3; 3; 4; 3] (set_partition_row_count 7 (clear construct)) !! 2%nat =
    Some (this', v, Some ER_INVALID_NTILE_ARGUMENT)) /\
  (exists this' v, rows_of [3; 3; 4; 3] (set_partition_row_count 7 (clear construct)) !! 3%nat =
    Some (this', v, None)).
Proof.
  assert (Forall (fun n => n < 2 ^ 63) [3; 3; 4; 3]) as Hf by (repeat constructor).
  split.
  - destruct (ntile_errors 7 [3; 3; 4; 3] construct 2 4) as (this'&v&e&E&_&H); try done.
    destruct H as [-> ->]; [done|]. by exists this', 1.
  - destruct (ntile_errors 7 [3; 3; 4; 3] construct 3 3) as (this'&v&e&E&_&H); try done.
    destruct H as (_&->&_); [done|]. by exists this', v.
Defined.

End Ntile.

(** ** Percentiles

    The current row gives [add] the argument of the function and the value of
    the ORDER BY expression, each possibly NULL.  [Item_cache] keeps the value
    stored last. *)

Module PercentileDisc.
Section disc.
Context {V : Type}.

Record Item_sum_percentile_disc := mk {
  partition_row_count_ : Z; current_row_count_ : Z;   (* ulonglong *)
  value : option V;
  val_calculated : bool;
  first_call : bool;
  prev_value : double;
  null_value : bool
}.

Definition construct : Item_sum_percentile_disc :=
  mk 0 0 None false true (of_int 0) false.

Definition clear (this : Item_sum_percentile_disc) : Item_sum_percentile_disc :=
  mk 0 0 None false true (prev_value this) (null_value this).

Definition set_partition_row_count (count : Z) (this : Item_sum_percentile_disc) :=
  mk count (current_row_count_ this) (value this) (val_calculated this) (first_call this)
     (prev_value this) (null_value this).

(** [val_real], [val_int], [val_str], [val_decimal], [get_date] and
    [val_native] differ only in the conversion of the cached value. *)
Definition val (arg : option double) (this : Item_sum_percentile_disc)
  : Item_sum_percentile_disc * option V :=
  let null := (get_row_count (partition_row_count_ this) =? 0) || bool_decide (arg = None) in
  (mk (partition_row_count_ this) (current_row_count_ this) (value this) (val_calculated this)
      (first_call this) (prev_value this) null,
   if null then None else value this).

Definition add (arg : option double) (order_item : option V) (this : Item_sum_percentile_disc)
  : Item_sum_percentile_disc * option window_error :=
  match arg with
  | None => (this, None)
  | Some arg_val =>
      let bad := first_call this && (dlt (of_int 1) arg_val || dlt arg_val (of_int 0)) in
      let prev := if first_call this then arg_val else prev_value this in
      if bad then
        (mk (partition_row_count_ this) (current_row_count_ this) (value this)
            (val_calculated this) (first_call this) prev (null_value this),
         Some ER_ARGUMENT_OUT_OF_RANGE)
      else
        let this := mk (partition_row_count_ this) (current_row_count_ this) (value this)
                       (val_calculated this) false prev (null_value this) in
        if negb (deq prev arg_val) then (this, Some ER_ARGUMENT_NOT_CONSTANT)
        else if val_calculated this then (this, None)
        else match order_item with
             | None =>
                 (mk (partition_row_count_ this) (current_row_count_ this) None
                     (val_calculated this) false prev (null_value this), None)
             | Some v =>
                 let cur := u64 (current_row_count_ this + 1) in
                 let r := calc_val_real (partition_row_count_ this) cur in
                 (mk (partition_row_count_ this) cur (Some v)
                     (if dle prev (fst r) then true else val_calculated this)
                     false prev (snd r), None)
             end
  end.

(** The rows of a partition; the first error stops the scan. *)
Fixpoint add_all (rows : list (option double * option V)) (this : Item_sum_percentile_disc)
  : Item_sum_percentile_disc * option window_error :=
  match rows with
  | [] => (this, None)
  | (arg, v) :: rows =>
      let r := add arg v this in
      match snd r with Some e => (fst r, Some e) | None => add_all rows (fst r) end
  end.

(** The cumulative distribution of the [k]-th of [n] rows reaches [p]. *)
Definition reaches_p (p : double) (n : Z) (k : nat) : bool :=
  dle p (ddiv (of_int (Z.of_nat k)) (of_int n)).

(** The first of the values, numbered from [k], at which [p] is reached. *)
Fixpoint disc (p : double) (n : Z) (k : nat) (vs : list V) : option V :=
  match vs with
  | [] => None
  | v :: vs => if reaches_p p n k then Some v else disc p n (S k) vs
  end.

(** A fraction that can be the argument: not NaN and between 0 and 1. *)
Definition fraction (p : double) : Prop :=
  deq p p = true /\ dlt (of_int 1) p = false /\ dlt p (of_int 0) = false.

(** Once the value is found the item keeps it. *)
Lemma add_all_found p rows this :
  deq p p = true -> first_call this = false -> prev_value this = p -> val_calculated this = true ->
  add_all ((fun v => (Some p, v)) <$> rows) this = (this, None).
Proof.
  intros Hp H1 H2 H3. induction rows as [|v rows IH]; [done|].
  rewrite fmap_cons. cbn [add_all]. unfold add. rewrite H1, H2, H3. cbn [andb].
  rewrite Hp. cbn [negb fst snd val_calculated].
  destruct this; cbn in *. subst. exact IH.
Qed.

(** A row before the value is found. *)
Lemma add_step p n k c fst_call pv nv o :
  fraction p -> (fst_call = false -> pv = p) ->
  add (Some p) o (mk n k c false fst_call pv nv) =
  match o with
  | None => (mk n k None false false p nv, None)
  | Some v =>
      let r := calc_val_real n (u64 (k + 1)) in
      (mk n (u64 (k + 1)) (Some v) (dle p (fst r)) false p (snd r), None)
  end.
Proof.
  intros (Hp&H1&H0) Hpv. unfold add. cbn [first_call prev_value]. rewrite H1, H0. cbn [orb].
  rewrite andb_false_r.
  assert ((if fst_call then p else pv) = p) as -> by (destruct fst_call; [done|by apply Hpv]).
  rewrite Hp. cbn [negb val_calculated partition_row_count_ current_row_count_ null_value].
  destruct o; [|done]. cbn zeta. do 2 f_equal. by destruct (dle _ _).
Qed.

(** The scan of rows from the [k]-th non-NULL value on. *)
Lemma add_all_spec p n rows k c pv fst_call nv :
  fraction p -> 0 < n -> Z.of_nat (k + length rows) < 2 ^ 63 ->
  (fst_call = false -> pv = p) ->
  forall v, disc p n (S k) (omap id rows) = Some v ->
  exists this', add_all ((fun v => (Some p, v)) <$> rows)
      (mk n (Z.of_nat k) c false fst_call pv nv) = (this', None) /\
    value this' = Some v /\ partition_row_count_ this' = n.
Proof.
  intros Hp Hn. revert k c pv fst_call nv.
  induction rows as [|o rows IH]; intros k c pv fst_call nv Hk Hpv v; [done|].
  rewrite fmap_cons. cbn [add_all length] in *. rewrite (add_step p n _ c) by done.
  destruct o as [x|]; cbn [omap list_omap id fst snd]; [|intros Hd; apply (IH k); [lia|done|done]].
  rewrite u64_small by lia. unfold calc_val_real. rewrite (proj2 (Z.eqb_neq n 0)) by lia.
  cbn [fst snd disc]. replace (Z.of_nat k + 1) with (Z.of_nat (S k)) by lia.
  change (dle p (ddiv (of_int (Z.of_nat (S k))) (of_int n))) with (reaches_p p n (S k)).
  destruct (reaches_p p n (S k)) eqn:E; [|intros Hd; apply (IH (S k)); [lia|done|done]].
  intros [= <-]. rewrite add_all_found by (done || apply Hp). eauto.
Qed.

Lemma omap_id_length (rows : list (option V)) : (length (omap id rows) <= length rows)%nat.
Proof. induction rows as [|[] rows IH]; cbn in *; lia. Qed.

(** PERCENTILE_DISC(p) over a partition returns the first value of the
    ordered, non-NULL values whose cumulative distribution, computed in double
    arithmetic, is at least [p]; rows with a NULL value do not count, and no
    error is raised for a constant argument between 0 and 1. *)
Theorem percentile_disc_spec p rows this v :
  fraction p -> 0 < Z.of_nat (length (omap id rows)) -> Z.of_nat (length rows) < 2 ^ 63 ->
  let n := Z.of_nat (length (omap id rows)) in
  disc p n 1 (omap id rows) = Some v ->
  exists this',
    add_all ((fun x => (Some p, x)) <$> rows) (set_partition_row_count n (clear this)) = (this', None) /\
    snd (val (Some p) this') = Some v /\ null_value (fst (val (Some p) this')) = false.
Proof.
  intros Hp Hn Hl n Hd. unfold set_partition_row_count, clear. cbn [current_row_count_ value
    val_calculated first_call prev_value null_value].
  destruct (add_all_spec p n rows 0 None (prev_value this) true (null_value this)
    Hp Hn Hl ltac:(done) v Hd) as (this'&E&Hv&Hpc).
  exists this'. split; [exact E|]. unfold val, get_row_count. rewrite Hpc.
  assert (n < 2 ^ 63) as Hn2.
  { unfold n. pose proof (omap_id_length rows). lia. }
  rewrite sgn_small by (done || unfold srange; change (2 ^ (64 - 1)) with (2 ^ 63); lia).
  rewrite (proj2 (Z.eqb_neq n 0)) by lia. cbn. by rewrite Hv.
Qed.

End disc.

(** The median of 10, 20, 30, 40 with a NULL in front is 20. *)
Lemma percentile_disc_spec_witness :
  exists this',
    add_all ((fun x => (Some (ddiv (of_int 1) (of_int 2)), x)) <$> [None; Some 10; Some 20; Some 30; Some 40])
      (set_partition_row_count 4 (clear construct)) = (this', None) /\
    snd (val (Some (ddiv (of_int 1) (of_int 2))) this') = Some 20 /\
    null_value (fst (val (Some (ddiv (of_int 1) (of_int 2))) this')) = false.
Proof.
  apply (percentile_disc_spec _ [None; Some 10; Some 20; Some 30; Some 40]);
    [done|done|done|vm_compute; reflexivity].
Defined.

End PercentileDisc.

Module PercentileCont.

Record Item_sum_percentile_cont := mk {
  partition_row_count_ : Z; current_row_count_ : Z;   (* ulonglong *)
  floor_value : option double; ceil_value : option double;
  first_call : bool;
  prev_value : double;
  ceil_val_calculated : bool; floor_val_calculated : bool;
  null_value : bool
}.

Definition construct : Item_sum_percentile_cont :=
  mk 0 0 None None true (of_int 0) false false false.

Definition clear (this : Item_sum_percentile_cont) : Item_sum_percentile_cont :=
  mk 0 0 None None true (prev_value this) false false (null_value this).

Definition set_partition_row_count (count : Z) (this : Item_sum_percentile_cont) :=
  mk count (current_row_count_ this) (floor_value this) (ceil_value this) (first_call this)
     (prev_value this) (ceil_val_calculated this) (floor_val_calculated this) (null_value this).

(** [1 + prev_value * (get_row_count() - 1)]: the row number of the percentile. *)
Definition row_of (p : double) (partition_row_count_ : Z) : double :=
  dadd (of_int 1) (dmul p (of_int (s64 (get_row_count partition_row_count_ - 1)))).

(** [val_real] of a cache; [null_real] is what it returns for NULL. *)
Definition cached_real (null_real : double) (v : option double) : double := default null_real v.

Definition val_real (null_real : double) (arg : option double) (this : Item_sum_percentile_cont)
  : Item_sum_percentile_cont * double :=
  let null := (get_row_count (partition_row_count_ this) =? 0) || bool_decide (arg = None) in
  let val := row_of (prev_value this) (partition_row_count_ this) in
  (mk (partition_row_count_ this) (current_row_count_ this) (floor_value this) (ceil_value this)
      (first_call this) (prev_value this) (ceil_val_calculated this) (floor_val_calculated this) null,
   if null then of_int 0
   else if deq (dceil val) (dfloor val) then cached_real null_real (floor_value this)
   else dadd (dmul (dsub val (dfloor val)) (cached_real null_real (ceil_value this)))
             (dmul (dsub (dceil val) val) (cached_real null_real (floor_value this)))).

(** The row is stored in the caches that are still open; a NULL ends the call. *)
Definition store_row (order_item : option double) (this : Item_sum_percentile_cont)
  : Item_sum_percentile_cont * bool :=
  let fl := if negb (floor_val_calculated this) then order_item else floor_value this in
  let this1 := mk (partition_row_count_ this) (current_row_count_ this) fl (ceil_value this)
                  (first_call this) (prev_value this) (ceil_val_calculated this)
                  (floor_val_calculated this) (null_value this) in
  if negb (floor_val_calculated this) && bool_decide (fl = None) then (this1, true)
  else
    let open := floor_val_calculated this && negb (ceil_val_calculated this) in
    let ce := if open then order_item else ceil_value this in
    (mk (partition_row_count_ this) (current_row_count_ this) fl ce
        (first_call this) (prev_value this) (ceil_val_calculated this)
        (floor_val_calculated this) (null_value this),
     open && bool_decide (ce = None)).

(** The row is counted and compared with the row number looked for. *)
Definition count_row (this : Item_sum_percentile_cont) : Item_sum_percentile_cont :=
  let cur := u64 (current_row_count_ this + 1) in
  let val := row_of (prev_value this) (partition_row_count_ this) in
  mk (partition_row_count_ this) cur (floor_value this) (ceil_value this)
     (first_call this) (prev_value this)
     (if negb (ceil_val_calculated this) && deq (of_int cur) (dceil val) then true
      else ceil_val_calculated this)
     (if negb (floor_val_calculated this) && deq (of_int cur) (dfloor val) then true
      else floor_val_calculated this)
     (null_value this).

Definition add (arg order_item : option double) (this : Item_sum_percentile_cont)
  : Item_sum_percentile_cont * option window_error :=
  match arg with
  | None => (this, None)
  | Some arg_val =>
      let bad := first_call this && (dlt (of_int 1) arg_val || dlt arg_val (of_int 0)) in
      let this := mk (partition_row_count_ this) (current_row_count_ this) (floor_value this)
                     (ceil_value this) false
                     (if first_call this then arg_val else prev_value this)
                     (ceil_val_calculated this) (floor_val_calculated this) (null_value this) in
      if bad then (this, Some ER_ARGUMENT_OUT_OF_RANGE)
      else if negb (deq (prev_value this) arg_val) then (this, Some ER_ARGUMENT_NOT_CONSTANT)
      else let r := store_row order_item this in
           if snd r then (fst r, None) else (count_row (fst r), None)
  end.

Fixpoint add_all (rows : list (option double * option double)) (this : Item_sum_percentile_cont)
  : Item_sum_percentile_cont * option window_error :=
  match rows with
  | [] => (this, None)
  | (arg, v) :: rows =>
      let r := add arg v this in
      match snd r with Some e => (fst r, Some e) | None => add_all rows (fst r) end
  end.

(** Row [k] is the first one, from 1, whose number is the double [d]. *)
Definition first_row (d : double) (k : nat) : Prop :=
  (1 <= k)%nat /\ deq (of_int (Z.of_nat k)) d = true /\
  forall j, (1 <= j < k)%nat -> deq (of_int (Z.of_nat j)) d = false.

Section scan.
Context (p : double) (xs : list double) (F C : nat).
Let n := Z.of_nat (length xs).
Let rn := row_of p n.
Hypothesis Hp : PercentileDisc.fraction p.
Hypothesis Hlen : Z.of_nat (length xs) < 2 ^ 63.
Hypothesis HF : first_row (dfloor rn) F.
Hypothesis HC : first_row (dceil rn) C.
Hypothesis HFC : (F <= C)%nat.

(** After [k] of the non-NULL values [xs], before the row [C]. *)
Record scanning (k : nat) (this : Item_sum_percentile_cont) : Prop := {
  sc_k : (k < C)%nat;
  sc_rows : partition_row_count_ this = n;
  sc_cur : current_row_count_ this = Z.of_nat k;
  sc_prev : first_call this = false -> prev_value this = p;
  sc_floor : floor_val_calculated this = bool_decide (F <= k)%nat;
  sc_ceil : ceil_val_calculated this = false;
  sc_value : (F <= k)%nat -> floor_value this = xs !! (F - 1)%nat
}.

(** Both rows are known. *)
Record finished (this : Item_sum_percentile_cont) : Prop := {
  fi_rows : partition_row_count_ this = n;
  fi_first : first_call this = false;
  fi_prev : prev_value this = p;
  fi_closed : floor_val_calculated this = true /\ ceil_val_calculated this = true;
  fi_floor : floor_value this = xs !! (F - 1)%nat;
  fi_ceil : (F < C)%nat -> ceil_value this = xs !! (C - 1)%nat
}.

(** A call that passes the checks of the argument. *)
Lemma add_checked this o :
  (first_call this = false -> prev_value this = p) ->
  let this1 := mk (partition_row_count_ this) (current_row_count_ this) (floor_value this)
                  (ceil_value this) false p (ceil_val_calculated this)
                  (floor_val_calculated this) (null_value this) in
  add (Some p) o this =
    (if snd (store_row o this1) then fst (store_row o this1) else count_row (fst (store_row o this1)),
     None).
Proof.
  intros Hpv this1. destruct Hp as (Heq&H1&H0). unfold add. rewrite H1, H0, andb_false_r.
  assert ((if first_call this then p else prev_value this) = p) as ->.
  { destruct (first_call this); [done|by apply Hpv]. }
  cbn [prev_value]. rewrite Heq. cbn [negb]. fold this1. by destruct (snd _).
Qed.

Lemma add_finished this o :
  finished this -> exists this', add (Some p) o this = (this', None) /\ finished this'.
Proof.
  intros [R1 R2 R3 [R4 R5] R6 R7]. rewrite add_checked by done. unfold store_row.
  cbn [floor_val_calculated ceil_val_calculated]. rewrite R4, R5. cbn [negb andb fst snd].
  eexists. split; [done|]. split; cbn; rewrite ?R4, ?R5; auto.
Qed.

Lemma row_matches (d : double) (K k : nat) :
  first_row d K -> (k < K)%nat -> deq (of_int (Z.of_nat (S k))) d = bool_decide (K <= S k)%nat.
Proof.
  intros (H1&H2&H3) Hk. destruct (decide (S k = K)) as [<-|].
  - by rewrite H2, bool_decide_eq_true_2.
  - rewrite H3, bool_decide_eq_false_2 by lia. done.
Qed.

Lemma closed_next (d : double) (K k : nat) :
  first_row d K ->
  (if negb (bool_decide (K <= k)%nat) && deq (of_int (Z.of_nat (S k))) d then true
   else bool_decide (K <= k)%nat) = bool_decide (K <= S k)%nat.
Proof.
  intros HK. case_bool_decide; cbn [negb andb].
  - by rewrite bool_decide_eq_true_2 by lia.
  - rewrite (row_matches d K k) by (done || lia). by destruct (bool_decide _).
Qed.

Lemma add_null this k :
  scanning k this -> exists this', add (Some p) None this = (this', None) /\ scanning k this'.
Proof.
  intros [R1 R2 R3 R4 R5 R6 R7]. rewrite add_checked by done. unfold store_row.
  cbn [floor_val_calculated ceil_val_calculated floor_value]. rewrite R5, R6.
  destruct (decide (F <= k)%nat) as [Hk|Hk].
  - rewrite bool_decide_eq_true_2 by done. eexists. split; [reflexivity|].
    split; cbn; rewrite ?bool_decide_eq_true_2 by done; auto.
  - rewrite (bool_decide_eq_false_2 (F <= k)%nat) by done. eexists. split; [reflexivity|].
    split; cbn; rewrite ?(bool_decide_eq_false_2 (F <= k)%nat) by done; auto. intros. lia.
Qed.

Lemma add_value this k x :
  scanning k this -> xs !! k = Some x ->
  exists this', add (Some p) (Some x) this = (this', None) /\
    (scanning (S k) this' \/ S k = C /\ finished this').
Proof.
  intros [R1 R2 R3 R4 R5 R6 R7] Hx. rewrite add_checked by done. unfold store_row.
  cbn [floor_val_calculated ceil_val_calculated floor_value]. rewrite R5, R6.
  pose proof (lookup_lt_Some _ _ _ Hx) as Hkl.
  assert (u64 (current_row_count_ this + 1) = Z.of_nat (S k)) as Hcur.
  { rewrite R3, u64_small by lia. lia. }
  pose proof (closed_next _ _ k HF) as CF. pose proof (row_matches _ _ _ HC R1) as CC.
  assert (F <= k \/ (k < F)%nat)%nat as [Hk|Hk] by lia.
  - rewrite bool_decide_eq_true_2 in * by done. cbn [negb andb fst snd].
    rewrite bool_decide_eq_false_2 by done. unfold count_row.
    cbn [current_row_count_ prev_value partition_row_count_ ceil_val_calculated floor_val_calculated].
    rewrite Hcur, R2. fold rn. rewrite CC. cbn [negb andb].
    eexists. split; [reflexivity|]. destruct (decide (S k = C)) as [E|E].
    + right. split; [done|]. rewrite bool_decide_eq_true_2 by lia.
      split; cbn; auto. intros _. replace (C - 1)%nat with k by lia. by rewrite Hx.
    + left. rewrite bool_decide_eq_false_2 by lia.
      split; cbn; auto; lia.
  - rewrite (bool_decide_eq_false_2 (F <= k)%nat) in * by lia. cbn [negb andb fst snd].
    rewrite bool_decide_eq_false_2 by done. cbn [fst snd]. unfold count_row.
    cbn [current_row_count_ prev_value partition_row_count_ ceil_val_calculated floor_val_calculated].
    rewrite Hcur, R2. fold rn. rewrite CC. cbn [negb andb] in *. rewrite CF.
    eexists. split; [reflexivity|]. destruct (decide (S k = C)) as [E|E].
    + right. split; [done|]. rewrite !bool_decide_eq_true_2 by lia.
      split; cbn; auto; try lia. by replace (F - 1)%nat with k by lia.
    + left. rewrite (bool_decide_eq_false_2 (C <= S k)%nat) by lia.
      split; cbn; auto; try lia. intros. by replace (F - 1)%nat with k by lia.
Qed.

Lemma add_all_finished rows this :
  finished this ->
  exists this', add_all ((fun v => (Some p, v)) <$> rows) this = (this', None) /\ finished this'.
Proof.
  revert this. induction rows as [|o rows IH]; intros this Hf; [by exists this|].
  destruct (add_finished this o Hf) as (this1&E&Hf1). rewrite fmap_cons. cbn [add_all].
  rewrite E. by apply IH.
Qed.

Lemma add_all_scanning rows k this :
  scanning k this -> (C <= length xs)%nat -> drop k xs = omap id rows ->
  exists this', add_all ((fun v => (Some p, v)) <$> rows) this = (this', None) /\ finished this'.
Proof.
  revert k this. induction rows as [|[x|] rows IH]; intros k this Hs HC' Hd; rewrite ?fmap_cons;
    cbn [add_all].
  - apply (f_equal length) in Hd. rewrite length_drop in Hd. cbn in Hd.
    pose proof (sc_k _ _ Hs). lia.
  - assert (xs !! k = Some x) as Hx.
    { rewrite <- (Nat.add_0_r k), <- lookup_drop, Hd. done. }
    destruct (add_value this k x Hs Hx) as (this1&E&[Hs1|[_ Hf]]); rewrite E; cbn [fst snd].
    + apply (IH (S k)); [done|done|]. rewrite (drop_S _ _ _ Hx) in Hd. by injection Hd.
    + by apply add_all_finished.
  - destruct (add_null this k Hs) as (this1&E&Hs1). rewrite E. by apply (IH k).
Qed.

End scan.
(** PERCENTILE_CONT(p) interpolates: with [rn] the row number
    [1 + p * (n - 1)] in double arithmetic, [F] and [C] the rows with the
    numbers [floor(rn)] and [ceil(rn)] among the ordered, non-NULL values, the
    result is the value of row [F] when they coincide, else the mean of the two
    weighted by the distances; NULL values do not count, and a constant
    argument between 0 and 1 raises no error. *)
Theorem percentile_cont_spec null_real p rows this F C xF xC :
  let xs := omap id rows in
  let n := Z.of_nat (length xs) in
  let rn := row_of p n in
  PercentileDisc.fraction p -> n < 2 ^ 63 ->
  first_row (dfloor rn) F -> first_row (dceil rn) C -> (F <= C)%nat ->
  (deq (dceil rn) (dfloor rn) = false -> (F < C)%nat) ->
  xs !! (F - 1)%nat = Some xF -> xs !! (C - 1)%nat = Some xC ->
  exists this',
    add_all ((fun x => (Some p, x)) <$> rows) (set_partition_row_count n (clear this)) = (this', None) /\
    snd (val_real null_real (Some p) this') =
      (if deq (dceil rn) (dfloor rn) then xF
       else dadd (dmul (dsub rn (dfloor rn)) xC) (dmul (dsub (dceil rn) rn) xF)) /\
    null_value (fst (val_real null_real (Some p) this')) = false.
Proof.
  intros xs n rn Hp Hn HF HC HFC Hne HxF HxC.
  destruct HF as (HF1&HF2). destruct HC as (HC1&HC2).
  pose proof (lookup_lt_Some _ _ _ HxC) as HlC.
  destruct (add_all_scanning p xs F C Hp Hn (conj HF1 HF2) (conj HC1 HC2) HFC rows 0
    (set_partition_row_count n (clear this))) as (this'&E&[R1 R2 R3 R4 R5 R6]).
  { split; cbn; try done; try lia. by rewrite bool_decide_eq_false_2 by lia. }
  { lia. }
  { done. }
  exists this'. split; [done|]. unfold val_real, get_row_count. rewrite R1, R3, R5, HxF.
  fold n. fold rn. cbn [fst snd null_value].
  rewrite (sgn_small 64 n) by (done || unfold srange; change (2 ^ (64 - 1)) with (2 ^ 63); lia).
  rewrite (proj2 (Z.eqb_neq n 0)) by (unfold n; lia).
  rewrite bool_decide_eq_false_2 by done. cbn [orb cached_real default].
  split; [|done]. unfold id. destruct (deq (dceil rn) (dfloor rn)) eqn:Ed; [reflexivity|].
  rewrite (R6 (Hne eq_refl)), HxC. done.
Qed.

(** The median of 10, 20, 30, 40: row number 2.5, between rows 2 and 3. *)
Lemma percentile_cont_spec_witness :
  let p := ddiv (of_int 1) (of_int 2) in
  let null_real := of_int 0 in
  let rows := [None; Some (of_int 10); Some (of_int 20); Some (of_int 30); Some (of_int 40)] in
  exists this',
    add_all ((fun x => (Some p, x)) <$> rows) (set_partition_row_count 4 (clear construct)) = (this', None) /\
    snd (val_real null_real (Some p) this') =
      (if deq (dceil (row_of p 4)) (dfloor (row_of p 4)) then of_int 20
       else dadd (dmul (dsub (row_of p 4) (dfloor (row_of p 4))) (of_int 30))
                 (dmul (dsub (dceil (row_of p 4)) (row_of p 4)) (of_int 20))) /\
    null_value (fst (val_real null_real (Some p) this')) = false.
Proof.
  assert (forall d K, K = 2%nat \/ K = 3%nat -> deq (of_int (Z.of_nat K)) d = true ->
    deq (of_int 1) d = false -> (K = 3%nat -> deq (of_int 2) d = false) -> first_row d K) as H.
  { intros d K HK H1 H2 H3. split; [lia|]. split; [done|]. intros j Hj.
    assert (j = 1%nat \/ K = 3%nat /\ j = 2%nat) as [-> |[? ->]] by lia; [done|by apply H3]. }
  apply (percentile_cont_spec (of_int 0) _ [None; Some (of_int 10); Some (of_int 20); Some (of_int 30); Some (of_int 40)]
    construct 2 3); [done|done|apply H..|lia|lia|done|done]; vm_compute; auto; discriminate.
Defined.

(** The argument of a percentile is checked on the first row where it is
    not NULL, and must not change after it. *)
Theorem percentile_argument_errors (a b : double) (v w : option double)
    (d : PercentileDisc.Item_sum_percentile_disc) (c : Item_sum_percentile_cont) :
  let bad := dlt (of_int 1) a || dlt a (of_int 0) in
  let add1 := PercentileDisc.add (Some a) v (PercentileDisc.clear d) in
  let add1' := add (Some a) v (clear c) in
  deq a a = true ->
  (bad = true -> snd add1 = Some ER_ARGUMENT_OUT_OF_RANGE /\ snd add1' = Some ER_ARGUMENT_OUT_OF_RANGE) /\
  (bad = false -> snd add1 = None /\ snd add1' = None /\
     (deq a b = false ->
        snd (PercentileDisc.add (Some b) w (fst add1)) = Some ER_ARGUMENT_NOT_CONSTANT /\
        snd (add (Some b) w (fst add1')) = Some ER_ARGUMENT_NOT_CONSTANT)) /\
  PercentileDisc.add None v d = (d, None) /\ add None v c = (c, None).
Proof.
  intros bad add1 add1' Ha. split; [|split; [|done]].
  - intros Hb. unfold add1, add1', PercentileDisc.add, add, PercentileDisc.clear, clear.
    cbn [PercentileDisc.first_call first_call andb]. fold bad. by rewrite Hb.
  - intros Hb. unfold add1, add1', PercentileDisc.add, add, PercentileDisc.clear, clear.
    cbn [PercentileDisc.first_call first_call andb]. fold bad. rewrite Hb.
    cbn [prev_value]. rewrite Ha. cbn [negb PercentileDisc.val_calculated fst snd].
    destruct v as [v|]; cbn; (split; [done|split; [done|]]); intros ->; done.
Qed.

Lemma percentile_argument_errors_witness :
  snd (add (Some (of_int 2)) None (clear construct)) = Some ER_ARGUMENT_OUT_OF_RANGE.
Proof.
  destruct (percentile_argument_errors (of_int 2) (of_int 0) None None PercentileDisc.construct construct
    eq_refl) as [H _].
  by apply H.
Defined.

End PercentileCont.

(** ** Item_window_func *)

Module WindowItem.

(** Item_sum::Sumfunctype *)
Inductive Sumfunctype :=
| COUNT_FUNC | COUNT_DISTINCT_FUNC | SUM_FUNC | SUM_DISTINCT_FUNC | AVG_FUNC
| AVG_DISTINCT_FUNC | MIN_FUNC | MAX_FUNC | STD_FUNC
| VARIANCE_FUNC | SUM_BIT_FUNC | UDF_SUM_FUNC | GROUP_CONCAT_FUNC
| ROW_NUMBER_FUNC | RANK_FUNC | DENSE_RANK_FUNC | PERCENT_RANK_FUNC
| CUME_DIST_FUNC | NTILE_FUNC | FIRST_VALUE_FUNC | LAST_VALUE_FUNC
| NTH_VALUE_FUNC | LEAD_FUNC | LAG_FUNC | PERCENTILE_CONT_FUNC
| PERCENTILE_DISC_FUNC | SP_AGGREGATE_FUNC | JSON_ARRAYAGG_FUNC
| JSON_OBJECTAGG_FUNC.

Definition is_aggr_sum_func (f : Sumfunctype) : bool :=
  match f with
  | COUNT_FUNC | COUNT_DISTINCT_FUNC | SUM_FUNC | SUM_DISTINCT_FUNC | AVG_FUNC
  | AVG_DISTINCT_FUNC | MIN_FUNC | MAX_FUNC | STD_FUNC | VARIANCE_FUNC | SUM_BIT_FUNC
  | UDF_SUM_FUNC | GROUP_CONCAT_FUNC | JSON_ARRAYAGG_FUNC => true
  | _ => false
  end.

Definition is_frame_prohibited (f : Sumfunctype) : bool :=
  match f with
  | ROW_NUMBER_FUNC | RANK_FUNC | DENSE_RANK_FUNC | PERCENT_RANK_FUNC | CUME_DIST_FUNC
  | NTILE_FUNC | PERCENTILE_CONT_FUNC | PERCENTILE_DISC_FUNC => true
  | _ => false
  end.

Definition requires_special_cursors (f : Sumfunctype) : bool :=
  match f with
  | FIRST_VALUE_FUNC | LAST_VALUE_FUNC | NTH_VALUE_FUNC | LAG_FUNC | LEAD_FUNC => true
  | _ => false
  end.

Definition requires_partition_size (f : Sumfunctype) : bool :=
  match f with
  | PERCENT_RANK_FUNC | CUME_DIST_FUNC | NTILE_FUNC | PERCENTILE_CONT_FUNC
  | PERCENTILE_DISC_FUNC => true
  | _ => false
  end.

Definition requires_peer_size (f : Sumfunctype) : bool :=
  match f with CUME_DIST_FUNC => true | _ => false end.

Definition is_order_list_mandatory (f : Sumfunctype) : bool :=
  match f with
  | RANK_FUNC | DENSE_RANK_FUNC | PERCENT_RANK_FUNC | CUME_DIST_FUNC | LAG_FUNC | LEAD_FUNC
  | PERCENTILE_CONT_FUNC | PERCENTILE_DISC_FUNC => true
  | _ => false
  end.

Definition only_single_element_order_list (f : Sumfunctype) : bool :=
  match f with PERCENTILE_CONT_FUNC | PERCENTILE_DISC_FUNC => true | _ => false end.

(** Aggregates take any frame and any order; the functions that need the size
    of the partition or of the peers exclude a frame of their own; cursors of
    their own are only used where a frame is allowed. *)
Lemma window_classes f :
  (is_aggr_sum_func f = true ->
     is_frame_prohibited f = false /\ requires_special_cursors f = false /\
     requires_partition_size f = false /\ is_order_list_mandatory f = false) /\
  (requires_peer_size f = true -> requires_partition_size f = true) /\
  (requires_partition_size f = true -> is_frame_prohibited f = true) /\
  (requires_special_cursors f = true -> is_frame_prohibited f = false) /\
  (only_single_element_order_list f = true -> is_order_list_mandatory f = true).
Proof. by destruct f. Qed.

Record Item_window_func := mk {
  force_return_blank : bool; read_value_from_result_field : bool; null_value : bool
}.

Definition construct : Item_window_func := mk true false false.

Definition set_phase_to_initial (this : Item_window_func) : Item_window_func :=
  mk true false (null_value this).
Definition set_phase_to_computation (this : Item_window_func) : Item_window_func :=
  mk false false (null_value this).
Definition set_phase_to_retrieval (this : Item_window_func) : Item_window_func :=
  mk false true (null_value this).

(** What the window function and the result field give: a value and whether
    it is NULL. *)
Record source (V : Type) := mk_source { source_value : V; source_null : bool }.
#[global] Arguments mk_source {V} _ _.
#[global] Arguments source_value {V} _.
#[global] Arguments source_null {V} _.

Definition is_null {V} (window_func result_field : source V) (this : Item_window_func) : bool :=
  if force_return_blank this then true
  else if read_value_from_result_field this then source_null result_field
  else source_null window_func.

(** [val_real] and [val_int]; [zero] is the 0 of the type. *)
Definition val_num {V} (zero : V) (window_func result_field : source V) (this : Item_window_func)
  : Item_window_func * V :=
  let set n := mk (force_return_blank this) (read_value_from_result_field this) n in
  if force_return_blank this then (set true, zero)
  else if read_value_from_result_field this
       then (set (source_null result_field), source_value result_field)
       else (set (source_null window_func), source_value window_func).

(** [val_str] and [val_decimal]; [None] is a null pointer.  The pointer of the
    window function is passed on as it is. *)
Definition val_ptr {V} (window_func : source (option V)) (result_field : source V)
    (this : Item_window_func) : Item_window_func * option V :=
  let set n := mk (force_return_blank this) (read_value_from_result_field this) n in
  if force_return_blank this then (set true, None)
  else if read_value_from_result_field this then
    (set (source_null result_field),
     if source_null result_field then None else Some (source_value result_field))
  else (set (source_null window_func), source_value window_func).

(** [get_date]; the result is the error flag, and the date is written through
    the pointer only by the source. *)
Definition get_date (window_func result_field : source bool) (this : Item_window_func)
  : Item_window_func * bool :=
  let set n := mk (force_return_blank this) (read_value_from_result_field this) n in
  if force_return_blank this then (set true, true)
  else if read_value_from_result_field this then
    (set (source_null result_field),
     if source_null result_field then true else source_value result_field)
  else (set (source_null window_func), source_value window_func).

(** The three phases of a window function: before its computation it is
    NULL; while it is computed it shows the function; and what was computed and
    saved in the result field is read back unchanged in the last phase,
    whatever the function does then. *)
Theorem window_phases {V} (zero v : V) (null : bool) (wf' : source V) (this : Item_window_func) :
  let wf := mk_source v null in
  let initial := val_num zero wf wf' (set_phase_to_initial this) in
  let computed := val_num zero wf wf' (set_phase_to_computation this) in
  let saved := mk_source (snd computed) (null_value (fst computed)) in
  let retrieved := val_num zero wf' saved (set_phase_to_retrieval (fst computed)) in
  null_value (fst initial) = true /\ is_null wf wf' (set_phase_to_initial this) = true /\
  snd retrieved = v /\ null_value (fst retrieved) = null /\
  is_null wf' saved (set_phase_to_retrieval this) = null /\
  is_null wf wf' (set_phase_to_computation this) = null.
Proof. done. Qed.

End WindowItem.
