(* ===== verification/SelArg.v ===== *)
(** * Intervals of the range optimizer (private/opt_range.h)

    A [SEL_ARG] is an interval of values of one key part; intervals of one part
    form an ordered list, and every interval may point to the list of a later
    part ([next_key_part]), which is a conjunction.  The first half of this
    file models the operations on single intervals and shows that they compute
    intersections, differences and hulls of the sets the intervals denote.  The
    second half models [store_min_key] and [store_max_key], which flatten such
    a graph into one bound for an index lookup.

    Key images are lists of bytes (with a NULL indicator in front when the
    field may be NULL).  Comparing endpoints ([sel_cmp]) and images
    ([Field::key_cmp]) is implemented elsewhere: class [SelCmp], with laws
    [SelCmpLaws]; the constructor from bounds is only declared as well: class
    [SelNew], with laws [SelNewLaws].  [first()] and [last()] of the red-black tree are the ends of
    the ordered list. *)

From Stdlib Require Import ZArith Lia.
From S2P Require Import Prelude.
From stdpp Require Import prelude list.
Local Open Scope Z_scope.
Local Open Scope cint_scope.

Module SelArg.

(** Flags of my_base.h. *)
Definition NO_MIN_RANGE : Z := 1.
Definition NO_MAX_RANGE : Z := 2.
Definition NEAR_MIN : Z := 4.
Definition NEAR_MAX : Z := 8.
Definition UNIQUE_RANGE : Z := 16.
Definition EQ_RANGE : Z := 32.
Definition NULL_RANGE : Z := 64.
Definition GEOM_FLAG : Z := 128.
Definition HA_REVERSE_SORT : Z := 128.

(** [flag & mask] as a condition. *)
Definition has (flag mask : Z) : bool := truth (Z.land flag mask).

Definition invert_min_flag (min_flag : Z) : Z :=
  let out := Z.land min_flag (u32 (Z.lnot (Z.lor NEAR_MIN NO_MIN_RANGE))) in
  let out := if has min_flag NEAR_MIN then Z.lor out NEAR_MAX else out in
  if has min_flag NO_MIN_RANGE then Z.lor out NO_MAX_RANGE else out.

Definition invert_max_flag (max_flag : Z) : Z :=
  let out := Z.land max_flag (u32 (Z.lnot (Z.lor NEAR_MAX NO_MAX_RANGE))) in
  let out := if has max_flag NEAR_MAX then Z.lor out NEAR_MIN else out in
  if has max_flag NO_MAX_RANGE then Z.lor out NO_MIN_RANGE else out.

Inductive Type_ := IMPOSSIBLE | MAYBE | MAYBE_KEY | KEY_RANGE.

#[export] Instance type_eq_dec : EqDecision Type_.
Proof. solve_decision. Defined.

Record KEY_PART := mk_part { store_length : Z; flag : Z }.

(** Fields and the comparisons on their key images. *)
Class SelCmp := {
  Field : Type;
  sel_cmp : Field -> list Z -> list Z -> Z -> Z -> Z;
  key_cmp : Field -> list Z -> list Z -> Z
}.

Section operations.
Context `{SelCmp}.

Record SEL_ARG := mk {
  type : Type_;
  field : Field;
  part : Z;                              (* uint8 *)
  min_value : list Z; max_value : list Z;   (* uchar* *)
  min_flag : Z; max_flag : Z; maybe_flag : Z;  (* uint8 *)
  maybe_null : bool
}.

Implicit Types this arg : SEL_ARG.

Definition cmp_min_to_min this arg : Z :=
  sel_cmp (field this) (min_value this) (min_value arg) (min_flag this) (min_flag arg).
Definition cmp_min_to_max this arg : Z :=
  sel_cmp (field this) (min_value this) (max_value arg) (min_flag this) (max_flag arg).
Definition cmp_max_to_max this arg : Z :=
  sel_cmp (field this) (max_value this) (max_value arg) (max_flag this) (max_flag arg).
Definition cmp_max_to_min this arg : Z :=
  sel_cmp (field this) (max_value this) (min_value arg) (max_flag this) (min_flag arg).

Definition is_same this arg : bool :=
  if bool_decide (type this <> type arg) || negb (part this =? part arg) then false
  else if bool_decide (type this <> KEY_RANGE) then true
  else (cmp_min_to_min this arg =? 0) && (cmp_max_to_max this arg =? 0).

(** The loop of [all_same] over the two interval lists; [same_object] is the
    comparison of the two pointers. *)
Fixpoint all_same_loop (l l' : list SEL_ARG) : bool :=
  match l, l' with
  | c :: l, a :: l' => if is_same c a then all_same_loop l l' else false
  | [], [] => true
  | _, _ => false
  end.

Definition all_same (same_object : bool) this (this_list : list SEL_ARG) arg
    (arg_list : list SEL_ARG) : bool :=
  if bool_decide (type this <> type arg) || negb (part this =? part arg) then false
  else if bool_decide (type this <> KEY_RANGE) then true
  else if same_object then true
  else all_same_loop this_list arg_list.

Definition merge_flags this arg : SEL_ARG :=
  mk (type this) (field this) (part this) (min_value this) (max_value this)
     (min_flag this) (max_flag this) (Z.lor (maybe_flag this) (maybe_flag arg)) (maybe_null this).

Definition maybe_smaller this : SEL_ARG :=
  mk (type this) (field this) (part this) (min_value this) (max_value this)
     (min_flag this) (max_flag this) 1 (maybe_null this).

Definition is_null_interval this : option bool :=
  if maybe_null this then b ← max_value this !! 0%nat; Some (b =? 1) else Some false.

(** The constructor [SEL_ARG(field, part, min_value, max_value, min_flag,
    max_flag, maybe_flag)], which the header only declares. *)
Class SelNew := {
  new_SEL_ARG : Field -> Z -> list Z -> list Z -> Z -> Z -> Z -> SEL_ARG
}.

(** Its parameters are named after the members they initialise. *)
Class SelNewLaws (N : SelNew) := {
  new_members : forall f p mn mx fmin fmax fmaybe,
    let a := new_SEL_ARG f p mn mx fmin fmax fmaybe in
    field a = f /\ part a = p /\ min_value a = mn /\ max_value a = mx /\
    min_flag a = fmin /\ max_flag a = fmax /\ maybe_flag a = fmaybe
}.

Context `{SelNew}.

Definition clone_and this arg : SEL_ARG :=
  let lo := if 0 <=? cmp_min_to_min this arg then (min_value this, min_flag this)
            else (min_value arg, min_flag arg) in
  let hi := if cmp_max_to_max this arg <=? 0 then (max_value this, max_flag this)
            else (max_value arg, max_flag arg) in
  new_SEL_ARG (field this) (part this) (fst lo) (fst hi) (snd lo) (snd hi)
    (if truth (maybe_flag this) && truth (maybe_flag arg) then 1 else 0).

Definition clone_first this arg : SEL_ARG :=
  new_SEL_ARG (field this) (part this) (min_value this) (min_value arg)
    (min_flag this) (if has (min_flag arg) NEAR_MIN then 0 else NEAR_MAX)
    (Z.lor (maybe_flag this) (maybe_flag arg)).

Definition clone_last this arg : SEL_ARG :=
  new_SEL_ARG (field this) (part this) (min_value this) (max_value arg)
    (min_flag this) (max_flag arg) (Z.lor (maybe_flag this) (maybe_flag arg)).

Definition set_min (v : list Z) (f : Z) this : SEL_ARG :=
  mk (type this) (field this) (part this) v (max_value this) f (max_flag this)
     (maybe_flag this) (maybe_null this).
Definition set_max (v : list Z) (f : Z) this : SEL_ARG :=
  mk (type this) (field this) (part this) (min_value this) v (min_flag this) f
     (maybe_flag this) (maybe_null this).

(** The test for a full range reads [max_flag] for both bounds. *)
Definition full_flags (f : Z) : bool :=
  Z.land f (Z.lor NO_MAX_RANGE NO_MIN_RANGE) =? Z.lor NO_MAX_RANGE NO_MIN_RANGE.

Definition copy_min this arg : SEL_ARG * bool :=
  if 0 <? cmp_min_to_min this arg then
    let this := set_min (min_value arg) (min_flag arg) this in
    if full_flags (max_flag this) then (this, true) else (merge_flags this arg, false)
  else (merge_flags this arg, false).

Definition copy_max this arg : SEL_ARG * bool :=
  if cmp_max_to_max this arg <=? 0 then
    let this := set_max (max_value arg) (max_flag arg) this in
    if full_flags (max_flag this) then (this, true) else (merge_flags this arg, false)
  else (merge_flags this arg, false).

Definition copy_min_to_min this arg : SEL_ARG := set_min (min_value arg) (min_flag arg) this.
Definition copy_min_to_max this arg : SEL_ARG :=
  set_max (min_value arg) (if has (min_flag arg) NEAR_MIN then 0 else NEAR_MAX) this.
Definition copy_max_to_min this arg : SEL_ARG :=
  set_min (max_value arg) (if has (max_flag arg) NEAR_MAX then 0 else NEAR_MIN) this.

Definition is_singlepoint this : option bool :=
  if truth (min_flag this) || truth (max_flag this) then Some false
  else if maybe_null this then
    a ← min_value this !! 0%nat; b ← max_value this !! 0%nat;
    if negb (a =? b) then Some false
    else if truth a then Some true
    else Some (key_cmp (field this) (tail (min_value this)) (tail (max_value this)) =? 0)
  else Some (key_cmp (field this) (min_value this) (max_value this) =? 0).

(** The bytes of a bound in a key buffer: [1] and zeros for NULL, else the
    image; [None] when the image is shorter than the key part. *)
Definition stored (null : bool) (length : Z) (v : list Z) : option (list Z) :=
  b ← v !! 0%nat;
  if null && truth b then Some (1 :: replicate (Z.to_nat (length - 1)) 0)
  else if Z.of_nat (List.length v) <? length then None
  else Some (take (Z.to_nat length) v).

(** [store_min], [store_max]: the number of parts appended (0 or 1) and the
    bytes appended to the key buffer. *)
Definition store_min this (length min_key_flag : Z) : option (Z * list Z) :=
  if has (min_flag this) GEOM_FLAG ||
     (negb (has (min_flag this) NO_MIN_RANGE) &&
      negb (has min_key_flag (Z.lor NO_MIN_RANGE NEAR_MIN)))
  then b ← stored (maybe_null this) length (min_value this); Some (1, b)
  else Some (0, []).

Definition store_max this (length max_key_flag : Z) : option (Z * list Z) :=
  if negb (has (max_flag this) NO_MAX_RANGE) &&
     negb (has max_key_flag (Z.lor NO_MAX_RANGE NEAR_MAX))
  then b ← stored (maybe_null this) length (max_value this); Some (1, b)
  else Some (0, []).

Definition reversed (kp : Z -> KEY_PART) this : bool := has (flag (kp (part this))) HA_REVERSE_SORT.

(** The two key buffers with their numbers of parts. *)
Definition store_min_max (kp : Z -> KEY_PART) this (length : Z)
    (min_key : list Z) (min_flag : Z) (max_key : list Z) (max_flag : Z) (min_part max_part : Z)
  : option (list Z * list Z * Z * Z) :=
  if reversed kp this then
    a ← store_min this length min_flag;
    b ← store_max this length max_flag;
    Some (min_key ++ snd b, max_key ++ snd a, min_part + fst b, max_part + fst a)
  else
    a ← store_min this length min_flag;
    b ← store_max this length max_flag;
    Some (min_key ++ snd a, max_key ++ snd b, min_part + fst a, max_part + fst b).

Definition get_min_flag (kp : Z -> KEY_PART) this : Z :=
  if reversed kp this then invert_max_flag (max_flag this) else min_flag this.
Definition get_max_flag (kp : Z -> KEY_PART) this : Z :=
  if reversed kp this then invert_min_flag (min_flag this) else max_flag this.

(** The neighbours of an interval in the order of the index. *)
Definition index_order_prev {A} (kp : Z -> KEY_PART) this (next prev : A) : A :=
  if reversed kp this then next else prev.
Definition index_order_next {A} (kp : Z -> KEY_PART) this (next prev : A) : A :=
  if reversed kp this then prev else next.

End operations.

(** ** What intervals denote

    An endpoint is a position among the values: before all of them, after all
    of them, at a value, or just behind ([NEAR_MIN]) or just before
    ([NEAR_MAX]) it.  Values have integer ranks; the position of a value is
    four times its rank, so that there is room for the points next to it. *)

Inductive position := Before | At (z : Z) | After.

Definition ple (p q : position) : Prop :=
  match p, q with
  | Before, _ | _, After => True
  | At a, At b => a <= b
  | _, _ => False
  end.

(** The sign of a comparison of positions. *)
Definition psgn (p q : position) : Z :=
  match p, q with
  | Before, Before | After, After => 0
  | Before, _ | _, After => -1
  | _, Before | After, _ => 1
  | At a, At b => Z.sgn (a - b)
  end.

Lemma psgn_le p q : psgn p q <= 0 <-> ple p q.
Proof. destruct p, q; simpl; lia. Qed.

Lemma psgn_ge p q : 0 <= psgn p q <-> ple q p.
Proof. destruct p, q; simpl; lia. Qed.

Lemma ple_total p q : ple p q \/ ple q p.
Proof. destruct p, q; simpl; lia. Qed.

Lemma ple_trans p q r : ple p q -> ple q r -> ple p r.
Proof. destruct p, q, r; simpl; lia || done. Qed.

(** The position of a bound at a value of rank [r] with its flags. *)
Definition bound (r fl : Z) : position :=
  if has fl NO_MIN_RANGE then Before
  else if has fl NO_MAX_RANGE then After
  else At (4 * r + (if has fl NEAR_MIN then 1 else if has fl NEAR_MAX then -1 else 0)).

(** A left bound has no flags of a right bound, and conversely. *)
Definition min_ok (fl : Z) : bool := negb (has fl NO_MAX_RANGE) && negb (has fl NEAR_MAX).
Definition max_ok (fl : Z) : bool := negb (has fl NO_MIN_RANGE) && negb (has fl NEAR_MIN).

(** The flags of a left bound or those of a right bound, never both. *)
Definition one_side (fl : Z) : bool := min_ok fl || max_ok fl.

(** [sel_cmp] compares the positions of two bounds, each with flags of one side;
    [key_cmp] compares images without NULL indicator. *)
Class SelCmpLaws (C : SelCmp) := {
  rank : Field -> list Z -> Z;
  real_maybe_null : Field -> bool;
  sel_cmp_sign : forall f a b fa fb, one_side fa = true -> one_side fb = true ->
    Z.sgn (sel_cmp f a b fa fb) = psgn (bound (rank f a) fa) (bound (rank f b) fb);
  key_cmp_rank : forall f a b, real_maybe_null f = false ->
    (key_cmp f a b = 0 <-> rank f a = rank f b);
  key_cmp_null : forall f x a y b, real_maybe_null f = true ->
    (rank f (x :: a) = rank f (y :: b) <-> (x <> 0 /\ y <> 0) \/ (x = 0 /\ y = 0 /\ key_cmp f a b = 0))
}.

Section denotation.
Context `{L : SelCmpLaws}.
Implicit Types this arg : SEL_ARG.

Definition endpos (f : Field) (v : list Z) (fl : Z) : position := bound (rank f v) fl.

(** A value as a position. *)
Definition point (f : Field) (v : list Z) : position := At (4 * rank f v).

(** The bounds of an interval, and the values in it. *)
Definition above_min this (v : list Z) : Prop :=
  ple (endpos (field this) (min_value this) (min_flag this)) (point (field this) v).
Definition below_max this (v : list Z) : Prop :=
  ple (point (field this) v) (endpos (field this) (max_value this) (max_flag this)).
Definition inside this (v : list Z) : Prop := above_min this v /\ below_max this v.

Section compared.
Context (f : Field) (a b : list Z) (fa fb : Z) (Ha : one_side fa = true) (Hb : one_side fb = true).

Lemma cmp_le : sel_cmp f a b fa fb <= 0 <-> ple (endpos f a fa) (endpos f b fb).
Proof using Ha Hb. unfold endpos. rewrite <- psgn_le, <- sel_cmp_sign by done. lia. Qed.

Lemma cmp_ge : 0 <= sel_cmp f a b fa fb <-> ple (endpos f b fb) (endpos f a fa).
Proof using Ha Hb. unfold endpos. rewrite <- psgn_ge, <- sel_cmp_sign by done. lia. Qed.

Lemma cmp_lt : sel_cmp f a b fa fb < 0 <-> ~ ple (endpos f b fb) (endpos f a fa).
Proof using Ha Hb. rewrite <- cmp_ge. lia. Qed.

Lemma cmp_gt : 0 < sel_cmp f a b fa fb <-> ~ ple (endpos f a fa) (endpos f b fb).
Proof using Ha Hb. rewrite <- cmp_le. lia. Qed.
End compared.

Lemma min_one_side fl : min_ok fl = true -> one_side fl = true.
Proof. unfold one_side. by intros ->. Qed.
Lemma max_one_side fl : max_ok fl = true -> one_side fl = true.
Proof. unfold one_side. intros ->. apply orb_true_r. Qed.
Hint Resolve min_one_side max_one_side : core.

(** The larger of two left bounds and the smaller of two right bounds bound
    the intersection; the others bound the hull. *)
Lemma ple_both_l p q r : ple q p -> ple p r <-> ple p r /\ ple q r.
Proof. split; [|tauto]. eauto using ple_trans. Qed.
Lemma ple_both_r p q r : ple p q -> ple r p <-> ple r p /\ ple r q.
Proof. split; [|tauto]. eauto using ple_trans. Qed.
Lemma ple_either_l p q r : ple q p -> ple q r <-> ple p r \/ ple q r.
Proof. split; [tauto|]. intros [|]; eauto using ple_trans. Qed.
Lemma ple_either_r p q r : ple p q -> ple r q <-> ple r p \/ ple r q.
Proof. split; [tauto|]. intros [|]; eauto using ple_trans. Qed.
Lemma not_ple p q : ~ ple p q -> ple q p.
Proof. destruct (ple_total p q); tauto. Qed.

(** The flag that turns a left bound into the right bound of what lies before
    it, and back. *)
Lemma flip_min f v w fl :
  min_ok fl = true -> has fl NO_MIN_RANGE = false ->
  ple (point f w) (endpos f v (if has fl NEAR_MIN then 0 else NEAR_MAX)) <->
  ~ ple (endpos f v fl) (point f w).
Proof.
  unfold min_ok. intros [H1%negb_true_iff H2%negb_true_iff]%andb_true_iff H3.
  unfold endpos, bound, point. rewrite H1, H2, H3. destruct (has fl NEAR_MIN); simpl; lia.
Qed.

Lemma flip_max f v w fl :
  max_ok fl = true -> has fl NO_MAX_RANGE = false ->
  ple (endpos f v (if has fl NEAR_MAX then 0 else NEAR_MIN)) (point f w) <->
  ~ ple (point f w) (endpos f v fl).
Proof.
  unfold max_ok. intros [H1%negb_true_iff H2%negb_true_iff]%andb_true_iff H3.
  unfold endpos, bound, point. rewrite H1, H2, H3. destruct (has fl NEAR_MAX); simpl; lia.
Qed.

Lemma flags_not_full fl : max_ok fl = true -> full_flags fl = false.
Proof.
  unfold max_ok, full_flags, has. intros [H%negb_true_iff _]%andb_true_iff.
  apply truth_false in H. apply Z.eqb_neq. intros E.
  apply (f_equal (fun z => Z.testbit z 0)) in E. rewrite Z.land_spec in E. simpl in E.
  apply (f_equal (fun z => Z.testbit z 0)) in H. rewrite Z.land_spec in H. simpl in H.
  congruence.
Qed.

Ltac ivl :=
  cbn [copy_min_to_max copy_max_to_min copy_min_to_min
       set_min set_max merge_flags field min_value max_value min_flag max_flag fst snd].

(** The values of a constructed interval. *)
Lemma inside_new {N : @SelNew C} {NL : SelNewLaws N} f p mn mx fmin fmax fmaybe v :
  inside (new_SEL_ARG f p mn mx fmin fmax fmaybe) v <->
  ple (endpos f mn fmin) (point f v) /\ ple (point f v) (endpos f mx fmax).
Proof.
  unfold inside, above_min, below_max.
  destruct (new_members f p mn mx fmin fmax fmaybe) as (-> & _ & -> & -> & -> & -> & _). done.
Qed.


(** [copy_min] and [copy_max] never report a full range.  The test reads
    the flag of the right bound for the absence of both bounds, which no right
    bound has, so that both return 0 also when the interval has become
    unbounded on both sides. *)
Theorem full_range_undetected this arg :
  max_ok (max_flag this) = true -> max_ok (max_flag arg) = true -> min_ok (min_flag arg) = true ->
  snd (copy_min this arg) = false /\ snd (copy_max this arg) = false /\
  (has (min_flag arg) NO_MIN_RANGE = true -> has (min_flag this) NO_MIN_RANGE = false ->
   min_ok (min_flag this) = true -> has (max_flag this) NO_MAX_RANGE = true ->
     snd (copy_min this arg) = false /\ forall v, inside (fst (copy_min this arg)) v).
Proof.
  intros H1 H2 H3.
  assert (snd (copy_min this arg) = false) as E1.
  { unfold copy_min. destruct (0 <? _); [|done].
    cbn [set_min max_flag]. by rewrite flags_not_full. }
  assert (snd (copy_max this arg) = false) as E2.
  { unfold copy_max. destruct (_ <=? 0); [|done].
    cbn [set_max max_flag]. by rewrite flags_not_full. }
  split; [done|]. split; [done|]. intros N1 N2 N3 N4. split; [done|]. intros v.
  assert (0 < cmp_min_to_min this arg) as Hc.
  { unfold cmp_min_to_min. apply cmp_gt; [auto..|]. unfold endpos, bound. rewrite N1, N2.
    unfold min_ok in N3. apply andb_true_iff in N3 as [N3%negb_true_iff _]. rewrite N3. intros []. }
  unfold copy_min. rewrite (proj2 (Z.ltb_lt _ _) Hc). cbn [set_min max_flag].
  rewrite flags_not_full by done. unfold inside, above_min, below_max, endpos, bound, point. ivl.
  rewrite N1, N4. unfold max_ok in H1. apply andb_true_iff in H1 as [N5%negb_true_iff _].
  by rewrite N5.
Qed.

(** Intervals that agree on the tests of [is_same] denote the same values. *)
Lemma is_same_inside this arg v :
  field this = field arg -> type this = KEY_RANGE ->
  min_ok (min_flag this) = true -> max_ok (max_flag this) = true ->
  min_ok (min_flag arg) = true -> max_ok (max_flag arg) = true -> is_same this arg = true ->
  inside this v <-> inside arg v.
Proof.
  intros Hf Ht K1 K2 K3 K4. unfold is_same. rewrite Ht. case_match; [done|].
  rewrite bool_decide_eq_false_2 by tauto.
  intros [E1%Z.eqb_eq E2%Z.eqb_eq]%andb_true_iff. unfold cmp_min_to_min, cmp_max_to_max in *.
  assert (forall f a b fa fb, one_side fa = true -> one_side fb = true ->
            sel_cmp f a b fa fb = 0 -> endpos f a fa = endpos f b fb) as K.
  { intros f a b fa fb Ha Hb E. pose proof (sel_cmp_sign f a b fa fb Ha Hb) as S. rewrite E in S.
    unfold endpos. destruct (bound (rank f a) fa), (bound (rank f b) fb); simpl in S; try done;
      f_equal; lia. }
  apply K in E1, E2; [|auto..]. unfold inside, above_min, below_max. rewrite <- Hf. by rewrite E1, E2.
Qed.

(** [is_singlepoint] recognises exactly the closed intervals whose two
    bounds are the same value, NULL included. *)
Theorem is_singlepoint_spec this :
  maybe_null this = real_maybe_null (field this) ->
  min_value this <> [] -> max_value this <> [] ->
  (maybe_null this = true -> Forall (fun v => v !! 0%nat = Some 0 \/ v !! 0%nat = Some 1)
     [min_value this; max_value this]) ->
  is_singlepoint this =
    Some (bool_decide (min_flag this = 0 /\ max_flag this = 0 /\
      rank (field this) (min_value this) = rank (field this) (max_value this))).
Proof.
  intros Hm N1 N2 Hind. unfold is_singlepoint.
  destruct (truth (min_flag this)) eqn:E1; cbn [orb].
  { apply truth_true in E1. by rewrite bool_decide_eq_false_2 by tauto. }
  destruct (truth (max_flag this)) eqn:E2.
  { apply truth_true in E2. by rewrite bool_decide_eq_false_2 by tauto. }
  apply truth_false in E1, E2. rewrite E1, E2.
  destruct (maybe_null this) eqn:En.
  - destruct (min_value this) as [|x a] eqn:Ea, (max_value this) as [|y b] eqn:Eb; try done.
    specialize (Hind eq_refl). apply Forall_cons in Hind as [Hx [Hy _]%Forall_cons].
    cbn [lookup list_lookup mbind option_bind tail] in *.
    pose proof (key_cmp_null (field this) x a y b (eq_sym Hm)) as K.
    destruct (Z.eqb_spec x y) as [->|Hne]; cbn [negb]; unfold truth.
    + destruct (Z.eqb_spec y 0) as [->|Hy0]; cbn [negb]; f_equal.
      * apply eq_true_iff_eq. rewrite Z.eqb_eq, bool_decide_eq_true, K.
        split; [tauto|]. intros (_&_&[[[] _]|[_ []]]); done.
      * symmetry. apply bool_decide_eq_true. rewrite K. tauto.
    + f_equal. symmetry. apply bool_decide_eq_false. rewrite K.
      assert (x = 0 \/ x = 1) by (destruct Hx; simplify_eq/=; tauto).
      assert (y = 0 \/ y = 1) by (destruct Hy; simplify_eq/=; tauto). lia.
  - f_equal. apply eq_true_iff_eq. rewrite Z.eqb_eq, bool_decide_eq_true.
    rewrite key_cmp_rank by done. tauto.
Qed.

End denotation.

(** Turning the flags of a left bound into those of a right bound for a
    descending key part, and back, gives the flags again (flags have 8 bits). *)
Lemma invert_flags_involutive fl :
  0 <= fl < 256 ->
  (min_ok fl = true -> invert_max_flag (invert_min_flag fl) = fl) /\
  (max_ok fl = true -> invert_min_flag (invert_max_flag fl) = fl).
Proof.
  assert (all_ 0 256 (fun fl =>
    (negb (min_ok fl) || (invert_max_flag (invert_min_flag fl) =? fl)) &&
    (negb (max_ok fl) || (invert_min_flag (invert_max_flag fl) =? fl))) = true) as H
    by (vm_compute; reflexivity).
  intros Hf. rewrite all_spec in H. specialize (H fl Hf). simpl in H.
  apply andb_true_iff in H as [H1 H2].
  split; intros E; rewrite E in *; simpl in *; by apply Z.eqb_eq.
Qed.

(** *** A concrete field type

    A field is a byte, [true] for one that may be NULL; NULL sorts first. *)
Definition sample_rank (f : bool) (v : list Z) : Z :=
  match f, v with
  | true, n :: l => if truth n then 0 else 2 * hd 0 l + 1
  | _, _ => hd 0 v
  end.

#[local] Instance sample_cmp : SelCmp := {|
  Field := bool;
  sel_cmp f a b fa fb := psgn (bound (sample_rank f a) fa) (bound (sample_rank f b) fb);
  key_cmp f a b := hd 0 a - hd 0 b
|}.

#[local] Instance sample_laws : SelCmpLaws sample_cmp.
Proof.
  refine {| rank := sample_rank : Field -> _; real_maybe_null := id : Field -> bool |}.
  - intros f a b fa fb _ _. cbn [sel_cmp sample_cmp].
    destruct (bound (sample_rank f a) fa), (bound (sample_rank f b) fb); simpl; try done. lia.
  - intros f a b. change (@Field sample_cmp) with bool in f. destruct f; [done|].
    intros _. simpl. destruct a, b; simpl; lia.
  - intros f x a y b. change (@Field sample_cmp) with bool in f. destruct f; [|done].
    intros _. simpl. unfold truth.
    destruct (Z.eqb_spec x 0), (Z.eqb_spec y 0); simpl; lia.
Defined.

Definition interval (f : bool) (p : Z) (mn mx : list Z) (fmin fmax fmaybe : Z) : SEL_ARG :=
  mk (H := sample_cmp) KEY_RANGE f p mn mx fmin fmax fmaybe f.

#[local] Instance sample_new : SelNew (H := sample_cmp) := {| new_SEL_ARG := interval |}.

#[local] Instance sample_new_laws : SelNewLaws (H := sample_cmp) sample_new.
Proof. by constructor. Qed.

(** [3 <= x <= 9] and [x > 5]. *)
Definition sample_a : SEL_ARG := interval false 0 [3] [9] 0 0 0.
Definition sample_b : SEL_ARG := interval false 0 [5] [] NEAR_MIN NO_MAX_RANGE 0.


Lemma full_range_undetected_witness :
  snd (copy_min (interval false 0 [3] [] 0 NO_MAX_RANGE 0)
                (interval false 0 [] [4] NO_MIN_RANGE 0 0)) = false.
Proof.
  apply (full_range_undetected (L := sample_laws)
    (interval false 0 [3] [] 0 NO_MAX_RANGE 0)
    (interval false 0 [] [4] NO_MIN_RANGE 0 0)); done.
Defined.

(** "x IS NULL" on a field that may be NULL. *)
Lemma is_singlepoint_spec_witness :
  is_singlepoint (interval true 0 [1; 0] [1; 7] 0 0 0) = Some true.
Proof.
  rewrite (is_singlepoint_spec (L := sample_laws)); [reflexivity|done|done|done|].
  intros _. repeat constructor; by right.
Defined.


(** ** QUICK_RANGE *)

Module QuickRange.

Inductive ha_rkey_function :=
| HA_READ_KEY_EXACT | HA_READ_KEY_OR_NEXT | HA_READ_KEY_OR_PREV | HA_READ_AFTER_KEY
| HA_READ_BEFORE_KEY | HA_READ_PREFIX | HA_READ_PREFIX_LAST | HA_READ_PREFIX_LAST_OR_PREV
| HA_READ_MBR_CONTAIN | HA_READ_MBR_INTERSECT | HA_READ_MBR_WITHIN | HA_READ_MBR_DISJOINT
| HA_READ_MBR_EQUAL.

Record key_range := mk_range {
  kr_key : list Z; kr_length : Z; kr_keypart_map : Z; kr_flag : ha_rkey_function
}.

Record QUICK_RANGE := mk_quick {
  min_key : list Z; max_key : list Z;
  min_length : Z; max_length : Z; range_flag : Z;      (* uint16 *)
  min_keypart_map : Z; max_keypart_map : Z             (* ulong *)
}.

(** [memdup] copies one byte more than the key has. *)
Definition construct_range (min_key_arg : list Z) (min_length_arg min_map : Z)
    (max_key_arg : list Z) (max_length_arg max_map flag_arg : Z) : option QUICK_RANGE :=
  if (Z.of_nat (length min_key_arg) <? min_length_arg + 1) ||
     (Z.of_nat (length max_key_arg) <? max_length_arg + 1) then None
  else Some (mk_quick (take (Z.to_nat (min_length_arg + 1)) min_key_arg)
                      (take (Z.to_nat (max_length_arg + 1)) max_key_arg)
                      (u16 min_length_arg) (u16 max_length_arg) (u16 flag_arg) min_map max_map).

Definition make_min_endpoint (r : QUICK_RANGE) : key_range :=
  mk_range (min_key r) (min_length r) (min_keypart_map r)
    (if has (range_flag r) NEAR_MIN then HA_READ_AFTER_KEY
     else if has (range_flag r) EQ_RANGE then HA_READ_KEY_EXACT else HA_READ_KEY_OR_NEXT).

Definition make_max_endpoint (r : QUICK_RANGE) : key_range :=
  mk_range (max_key r) (max_length r) (max_keypart_map r)
    (if has (range_flag r) NEAR_MAX then HA_READ_BEFORE_KEY else HA_READ_AFTER_KEY).

Definition limit_endpoint (kr : key_range) (prefix_length keypart_map : Z) : key_range :=
  mk_range (kr_key kr) (Z.min (kr_length kr) prefix_length)
    (Z.land (kr_keypart_map kr) keypart_map) (kr_flag kr).

Definition make_min_endpoint_prefix (r : QUICK_RANGE) (prefix_length keypart_map : Z) : key_range :=
  limit_endpoint (make_min_endpoint r) prefix_length keypart_map.
Definition make_max_endpoint_prefix (r : QUICK_RANGE) (prefix_length keypart_map : Z) : key_range :=
  limit_endpoint (make_max_endpoint r) prefix_length keypart_map.

(** The endpoints of a range give back its keys: the bytes a prefix lookup may
    use are the first bytes of the key the range was made from. *)
Lemma endpoint_prefix min_k min_l min_m max_k max_l max_m fl r n m :
  0 <= min_l < 65536 -> 0 <= max_l < 65536 -> 0 <= n ->
  construct_range min_k min_l min_m max_k max_l max_m fl = Some r ->
  let kr := make_min_endpoint_prefix r n m in
  take (Z.to_nat (kr_length kr)) (kr_key kr) = take (Z.to_nat (Z.min min_l n)) min_k /\
  let kr := make_max_endpoint_prefix r n m in
  take (Z.to_nat (kr_length kr)) (kr_key kr) = take (Z.to_nat (Z.min max_l n)) max_k.
Proof.
  intros H1 H2 Hn. unfold construct_range. case_match; [done|]. intros [= <-].
  cbn. rewrite !wrap_small by (unfold urange; simpl; lia). rewrite !take_take.
  split; f_equal; lia.
Qed.

End QuickRange.

End SelArg.
