(* ===== verification/SelArgKeys.v ===== *)
(** * Bounds of multi-part ranges (private/opt_range.h)

    [store_min_key] and [store_max_key] walk a SEL_ARG graph along the first
    (last) intervals of consecutive key parts and append their bounds to a key
    buffer.  The graph is an inductive type; a row is the list of the images of
    its key parts.  The theorems compare the stored bound with every row of the
    range in the order of the index, where a descending part counts backwards. *)

From Stdlib Require Import ZArith Lia.
From S2P Require Import Prelude SelArg.
From stdpp Require Import prelude list sorting.
Local Open Scope Z_scope.

Module SelArgKeys.
Import SelArg.

Section keys.
Context `{C : SelCmp}.

(** An interval list: type and part of its root, and its intervals in order,
    each with the list of the next part, if any. *)
Inductive graph :=
| Graph (root_type : Type_) (root_part : Z) (nodes : list node)
with node :=
| Node (arg : SEL_ARG) (next_key_part : option graph).

Definition nodes (g : graph) : list node := match g with Graph _ _ ns => ns end.
Definition root_type (g : graph) : Type_ := match g with Graph t _ _ => t end.
Definition root_part (g : graph) : Z := match g with Graph _ p _ => p end.
Definition arg (n : node) : SEL_ARG := match n with Node a _ => a end.
Definition next_key_part (n : node) : option graph := match n with Node _ g => g end.

Definition ascending (key : Z -> KEY_PART) (p : Z) : bool :=
  negb (has (flag (key p)) HA_REVERSE_SORT).

(** The result is the number of parts stored, the bytes appended and the new
    value of [*range_key_flag].  The recursion goes to the next key part; the
    fuel bounds their number. *)
Fixpoint store_min_key (fuel : nat) (key : Z -> KEY_PART) (this : graph) (range_key_flag last_part : Z)
    (start_key : bool) : option (Z * list Z * Z) :=
  match fuel with
  | O => None
  | S fuel =>
      key_tree ← head (nodes this);
      r ← store_min (arg key_tree) (store_length (key (part (arg key_tree)))) range_key_flag;
      if fst r =? 0 then Some (0, [], range_key_flag)
      else
        let range_key_flag := Z.lor range_key_flag (min_flag (arg key_tree)) in
        match next_key_part key_tree with
        | Some nkp =>
            if bool_decide (root_type nkp = KEY_RANGE) &&
               negb (part (arg key_tree) =? last_part) &&
               (root_part nkp =? part (arg key_tree) + 1) &&
               negb (has range_key_flag (Z.lor NO_MIN_RANGE NEAR_MIN))
            then
              if Bool.eqb start_key (ascending key (part (arg key_tree))) then
                q ← store_min_key fuel key nkp range_key_flag last_part start_key;
                Some (fst r + fst (fst q), snd r ++ snd (fst q), snd q)
              else
                q ← store_max_key fuel key nkp (invert_min_flag range_key_flag) last_part start_key;
                Some (fst r + fst (fst q), snd r ++ snd (fst q), invert_max_flag (snd q))
            else Some (fst r, snd r, range_key_flag)
        | None => Some (fst r, snd r, range_key_flag)
        end
  end
with store_max_key (fuel : nat) (key : Z -> KEY_PART) (this : graph) (range_key_flag last_part : Z)
    (start_key : bool) : option (Z * list Z * Z) :=
  match fuel with
  | O => None
  | S fuel =>
      key_tree ← last (nodes this);
      r ← store_max (arg key_tree) (store_length (key (part (arg key_tree)))) range_key_flag;
      if fst r =? 0 then Some (0, [], range_key_flag)
      else
        let range_key_flag := Z.lor range_key_flag (max_flag (arg key_tree)) in
        match next_key_part key_tree with
        | Some nkp =>
            if bool_decide (root_type nkp = KEY_RANGE) &&
               negb (part (arg key_tree) =? last_part) &&
               (root_part nkp =? part (arg key_tree) + 1) &&
               negb (has range_key_flag (Z.lor NO_MAX_RANGE NEAR_MAX))
            then
              let asc := ascending key (part (arg key_tree)) in
              if (negb start_key && asc) || (start_key && negb asc) then
                q ← store_max_key fuel key nkp range_key_flag last_part start_key;
                Some (fst r + fst (fst q), snd r ++ snd (fst q), snd q)
              else
                q ← store_min_key fuel key nkp (invert_max_flag range_key_flag) last_part start_key;
                Some (fst r + fst (fst q), snd r ++ snd (fst q), invert_min_flag (snd q))
            else Some (fst r, snd r, range_key_flag)
        | None => Some (fst r, snd r, range_key_flag)
        end
  end.

(** ** Flags *)

Lemma has_lor a b m : has (Z.lor a b) m = has a m || has b m.
Proof.
  unfold has, truth. rewrite Z.land_lor_distr_l.
  destruct (Z.eqb_spec (Z.land a m) 0) as [->|Ha], (Z.eqb_spec (Z.land b m) 0) as [->|Hb];
    simpl; rewrite ?Z.lor_0_r; try done.
  - by rewrite (proj2 (Z.eqb_neq _ _)).
  - by rewrite (proj2 (Z.eqb_neq _ _)).
  - rewrite (proj2 (Z.eqb_neq _ _)); [done|]. intros [? ?]%Z.lor_eq_0_iff. done.
Qed.

Lemma has_lor_mask a m m' : has a (Z.lor m m') = has a m || has a m'.
Proof.
  unfold has. rewrite !(Z.land_comm a). exact (has_lor m m' a).
Qed.

Context {L : SelCmpLaws C}.

(** ** Rows of a graph *)

Inductive sat (row : Z -> list Z) : graph -> Prop :=
| sat_last t p ns a :
    Node a None ∈ ns -> inside a (row (part a)) -> sat row (Graph t p ns)
| sat_next t p ns a g :
    Node a (Some g) ∈ ns -> inside a (row (part a)) -> sat row g -> sat row (Graph t p ns).

(** An interval of the list of part [p]: its bounds are in order and have the
    flags of their sides, and the images fill the key part. *)
Record node_ok (fields : Z -> Field) (key : Z -> KEY_PART) (p : Z) (n : node) : Prop := {
  ok_part : part (arg n) = p;
  ok_field : field (arg n) = fields p;
  ok_min : min_ok (min_flag (arg n)) = true /\ has (min_flag (arg n)) GEOM_FLAG = false;
  ok_max : max_ok (max_flag (arg n)) = true;
  ok_order : ple (endpos (fields p) (min_value (arg n)) (min_flag (arg n)))
                 (endpos (fields p) (max_value (arg n)) (max_flag (arg n)));
  ok_min_image : is_Some (stored (maybe_null (arg n)) (store_length (key p)) (min_value (arg n))) \/
                 has (min_flag (arg n)) NO_MIN_RANGE = true;
  ok_max_image : is_Some (stored (maybe_null (arg n)) (store_length (key p)) (max_value (arg n))) \/
                 has (max_flag (arg n)) NO_MAX_RANGE = true
}.

(** The intervals of a list are disjoint and ordered. *)
Definition before (fields : Z -> Field) (p : Z) (n m : node) : Prop :=
  ~ ple (endpos (fields p) (min_value (arg m)) (min_flag (arg m)))
        (endpos (fields p) (max_value (arg n)) (max_flag (arg n))).

Inductive wf (fields : Z -> Field) (key : Z -> KEY_PART) : graph -> Prop :=
| wf_intro t p ns :
    ns <> [] -> 0 <= p < 256 -> Forall (node_ok fields key p) ns ->
    StronglySorted (before fields p) ns ->
    (forall a g, Node a (Some g) ∈ ns -> wf fields key g) ->
    wf fields key (Graph t p ns).

(** A stored bound: part, field and image of every part. *)
Definition bounds := list (Z * Field * list Z).

(** A value lies strictly on the inner side of a bound of part [p], in the
    order of the index: after a start key, before an end key. *)
Definition inner (key : Z -> KEY_PART) (start_key : bool) (p : Z) (f : Field) (v x : list Z) : Prop :=
  if Bool.eqb start_key (ascending key p) then rank f v < rank f x else rank f x < rank f v.

(** The row is on the inner side of the bound, in lexicographic order; [strict]
    excludes rows that agree with all parts of the bound. *)
Fixpoint within (key : Z -> KEY_PART) (start_key strict : bool) (bs : bounds) (row : Z -> list Z) : Prop :=
  match bs with
  | [] => strict = false
  | (p, f, v) :: bs =>
      inner key start_key p f v (row p) \/
      (rank f v = rank f (row p) /\ within key start_key strict bs row)
  end.

(** The bytes of a bound in the key buffer. *)
Definition encodes (key : Z -> KEY_PART) (bs : bounds) (bytes : list Z) : Prop :=
  exists chunks, bytes = concat chunks /\
    Forall2 (fun b c => exists null, stored null (store_length (key (fst (fst b)))) (snd b) = Some c)
      bs chunks.

(** A row of a list lies in one of its intervals, and in the next part's list. *)
Lemma sat_inv row g :
  sat row g -> exists n, n ∈ nodes g /\ inside (arg n) (row (part (arg n))) /\
    forall g', next_key_part n = Some g' -> sat row g'.
Proof.
  intros [t p ns a Ha Hi|t p ns a g' Ha Hi Hg].
  - exists (Node a None). naive_solver.
  - exists (Node a (Some g')). split; [done|]. split; [done|]. intros ? [= <-]. done.
Qed.

Lemma elem_of_head_tail {A} (x y : A) l : head l = Some x -> y ∈ l -> y = x \/ y ∈ tail l.
Proof. destruct l; [done|]. intros [= ->] H. by apply elem_of_cons in H. Qed.

(** Values of later intervals lie strictly above the left bound of the first. *)
Lemma first_below fields key p ns n0 n v :
  Forall (node_ok fields key p) ns -> StronglySorted (before fields p) ns ->
  head ns = Some n0 -> n ∈ tail ns -> has (min_flag (arg n0)) NO_MIN_RANGE = false ->
  above_min (arg n) v -> rank (fields p) (min_value (arg n0)) < rank (fields p) v.
Proof.
  intros Hok Hs Hh Hn Hno Hv. destruct ns as [|m ns]; [done|]. injection Hh as ->.
  apply Forall_cons in Hok as [[K1 K2 [K3 _] K4 K5 _ _] Hok].
  apply StronglySorted_inv in Hs as [_ Hs]. rewrite Forall_forall in Hs, Hok.
  specialize (Hs n Hn). destruct (Hok n Hn) as [_ Hf _ _ _ _ _].
  assert (~ ple (point (fields p) v) (endpos (fields p) (min_value (arg n0)) (min_flag (arg n0)))) as Hn0.
  { intros H. apply Hs. unfold above_min in Hv. rewrite Hf in Hv. eauto using ple_trans. }
  unfold min_ok in K3. apply andb_true_iff in K3 as [K6%negb_true_iff K7%negb_true_iff].
  unfold point, endpos, bound in Hn0. rewrite Hno, K6, K7 in Hn0.
  destruct (has (min_flag (arg n0)) NEAR_MIN); simpl in Hn0; lia.
Qed.

(** A row compared with the left bound of the first interval. *)
Lemma first_bound fields key g n0 row :
  wf fields key g -> head (nodes g) = Some n0 -> has (min_flag (arg n0)) NO_MIN_RANGE = false ->
  sat row g ->
  let p := root_part g in
  rank (fields p) (min_value (arg n0)) < rank (fields p) (row p) \/
  (rank (fields p) (min_value (arg n0)) = rank (fields p) (row p) /\
   has (min_flag (arg n0)) NEAR_MIN = false /\
   forall g', next_key_part n0 = Some g' -> sat row g').
Proof.
  intros Hwf Hh Hno Hsat p. destruct (sat_inv _ _ Hsat) as (n&Hn&[Hi _]&Hnext).
  destruct Hwf as [t q ns Hne Hq Hok Hs _]. simpl in *. subst p.
  pose proof (proj1 (Forall_forall _ _) Hok n Hn) as Kn. rewrite (ok_part _ _ _ _ Kn) in Hi.
  destruct (elem_of_head_tail _ _ _ Hh Hn) as [->|Ht];
    [|left; by eapply first_below].
  destruct Kn as [_ K2 [K3 _] _ _ _ _].
  unfold min_ok in K3. apply andb_true_iff in K3 as [K6%negb_true_iff K7%negb_true_iff].
  unfold above_min, point, endpos, bound in Hi. rewrite K2, Hno, K6, K7 in Hi.
  destruct (has (min_flag (arg n0)) NEAR_MIN); simpl in Hi; [left; lia|].
  destruct (Z.eq_dec (rank (fields q) (min_value (arg n0))) (rank (fields q) (row q)));
    [right; auto|left; lia].
Qed.

Lemma head_some {A} (l : list A) : l <> [] -> exists x, head l = Some x /\ x ∈ l.
Proof. destruct l as [|x l]; [done|]. intros _. exists x. split; [done|left]. Qed.

(** What [store_min] does for an interval of a well-formed list when the flags
    collected so far allow it. *)
Lemma store_min_ok fields key p n fl :
  node_ok fields key p n -> has fl (Z.lor NO_MIN_RANGE NEAR_MIN) = false ->
  if has (min_flag (arg n)) NO_MIN_RANGE
  then store_min (arg n) (store_length (key p)) fl = Some (0, [])
  else exists c, store_min (arg n) (store_length (key p)) fl = Some (1, c) /\
         stored (maybe_null (arg n)) (store_length (key p)) (min_value (arg n)) = Some c.
Proof.
  intros [K1 K2 [_ K3] K4 K5 K6 K7] Hfl. unfold store_min. rewrite K3, Hfl. cbn [orb].
  destruct (has (min_flag (arg n)) NO_MIN_RANGE); [done|]. cbn [negb andb].
  destruct K6 as [[c E]|]; [|done]. exists c. by rewrite E.
Qed.

(** The bound of the first interval put in front of a bound of the next part. *)
Lemma within_cons fields key start_key g n0 c bs bytes strict :
  ascending key (root_part g) = start_key ->
  wf fields key g -> head (nodes g) = Some n0 -> has (min_flag (arg n0)) NO_MIN_RANGE = false ->
  stored (maybe_null (arg n0)) (store_length (key (root_part g))) (min_value (arg n0)) = Some c ->
  encodes key bs bytes ->
  (forall row, has (min_flag (arg n0)) NEAR_MIN = false ->
     (forall g', next_key_part n0 = Some g' -> sat row g') -> within key start_key strict bs row) ->
  let bs' := (root_part g, fields (root_part g), min_value (arg n0)) :: bs in
  encodes key bs' (c ++ bytes) /\ forall row, sat row g -> within key start_key strict bs' row.
Proof.
  intros Hasc Hwf Hh Eno Ec (chunks&->&Hch) Hin. split.
  - exists (c :: chunks). split; [done|]. constructor; [|done]. eauto.
  - intros row Hsat. cbn [within]. unfold inner. rewrite Hasc, Bool.eqb_reflx.
    destruct (first_bound _ _ _ _ _ Hwf Hh Eno Hsat) as [|(?&?&?)]; [by left|right]. auto.
Qed.

(** The parts a start key is made of: the first intervals of consecutive key
    parts, from the first part on, as long as they are bounded below, and no
    further than an open bound, the last part asked for, or a part that is not
    followed by a range on the next one. *)
Definition continues (last_part : Z) (n : node) (g : graph) : Prop :=
  root_type g = KEY_RANGE /\ part (arg n) <> last_part /\ root_part g = part (arg n) + 1 /\
  has (min_flag (arg n)) NEAR_MIN = false.

Inductive min_chain (last_part : Z) : graph -> list node -> Prop :=
| chain_unbounded t p ns n :
    head ns = Some n -> has (min_flag (arg n)) NO_MIN_RANGE = true ->
    min_chain last_part (Graph t p ns) []
| chain_stop t p ns n :
    head ns = Some n -> has (min_flag (arg n)) NO_MIN_RANGE = false ->
    (forall g, next_key_part n = Some g -> ~ continues last_part n g) ->
    min_chain last_part (Graph t p ns) [n]
| chain_next t p ns n g ch :
    head ns = Some n -> has (min_flag (arg n)) NO_MIN_RANGE = false ->
    next_key_part n = Some g -> continues last_part n g -> min_chain last_part g ch ->
    min_chain last_part (Graph t p ns) (n :: ch).

Lemma min_chain_unique last_part g ch ch' :
  min_chain last_part g ch -> min_chain last_part g ch' -> ch' = ch.
Proof.
  intros Hc. revert ch'. induction Hc; inversion 1; simplify_eq; try congruence.
  - exfalso. naive_solver.
  - exfalso. naive_solver.
  - f_equal. eauto.
Qed.

(** Bytes, flags and bounds of such parts. *)
Definition min_bytes (key : Z -> KEY_PART) (n : node) : option (list Z) :=
  stored (maybe_null (arg n)) (store_length (key (part (arg n)))) (min_value (arg n)).
Definition min_flags (fl : Z) (ch : list node) : Z :=
  fold_left (fun f n => Z.lor f (min_flag (arg n))) ch fl.
Definition min_bounds (fields : Z -> Field) (ch : list node) : bounds :=
  (fun n => (part (arg n), fields (part (arg n)), min_value (arg n))) <$> ch.

Lemma mapM_encodes fields key ch chunks :
  mapM (min_bytes key) ch = Some chunks -> encodes key (min_bounds fields ch) (concat chunks).
Proof.
  intros H%mapM_Some. exists chunks. split; [done|].
  unfold min_bounds. apply Forall2_fmap_l. eapply Forall2_impl; [exact H|]. intros n c E.
  exists (maybe_null (arg n)). exact E.
Qed.

Lemma within_chain fields key start_key g n0 c ch chunks strict :
  ascending key (root_part g) = start_key ->
  wf fields key g -> head (nodes g) = Some n0 -> has (min_flag (arg n0)) NO_MIN_RANGE = false ->
  stored (maybe_null (arg n0)) (store_length (key (root_part g))) (min_value (arg n0)) = Some c ->
  part (arg n0) = root_part g -> mapM (min_bytes key) ch = Some chunks ->
  (forall row, has (min_flag (arg n0)) NEAR_MIN = false ->
     (forall g', next_key_part n0 = Some g' -> sat row g') ->
     within key start_key strict (min_bounds fields ch) row) ->
  forall row, sat row g -> within key start_key strict (min_bounds fields (n0 :: ch)) row.
Proof.
  intros Hasc Hwf Hh Eno Ec Kp Em Hin. cbn [min_bounds fmap list_fmap]. rewrite Kp.
  eapply (within_cons fields key start_key g n0 c); eauto using mapM_encodes.
Qed.


(** *** The right bounds *)

Lemma last_split {A} (l : list A) x : last l = Some x -> exists l', l = l' ++ [x].
Proof. intros [l' ?]%last_Some. eauto. Qed.

(** Values of earlier intervals lie strictly below the right bound of the last. *)
Lemma last_above fields key p ns n0 n v :
  Forall (node_ok fields key p) (ns ++ [n0]) -> StronglySorted (before fields p) (ns ++ [n0]) ->
  n ∈ ns -> has (max_flag (arg n0)) NO_MAX_RANGE = false ->
  below_max (arg n) v -> rank (fields p) v < rank (fields p) (max_value (arg n0)).
Proof.
  intros Hok Hs Hn Hno Hv.
  apply Forall_app in Hok as [Hok [[K1 K2 _ K4 K5 _ _] _]%Forall_cons].
  pose proof (ok_field _ _ _ _ (proj1 (Forall_forall _ _) Hok n Hn)) as Hf.
  assert (before fields p n n0) as Hb.
  { clear -Hs Hn. induction ns as [|m ns IH]; [by apply not_elem_of_nil in Hn|].
    apply StronglySorted_inv in Hs as [Hs Hall]. apply elem_of_cons in Hn as [->|Hn]; [|auto].
    rewrite Forall_forall in Hall. apply Hall. apply elem_of_app. right. left. }
  assert (~ ple (endpos (fields p) (max_value (arg n0)) (max_flag (arg n0))) (point (fields p) v)) as Hn0.
  { intros H. apply Hb. unfold below_max in Hv. rewrite Hf in Hv. eauto using ple_trans. }
  unfold max_ok in K4. apply andb_true_iff in K4 as [K6%negb_true_iff K7%negb_true_iff].
  unfold point, endpos, bound in Hn0. rewrite Hno, K6, K7 in Hn0.
  destruct (has (max_flag (arg n0)) NEAR_MAX); simpl in Hn0; lia.
Qed.

Lemma last_bound fields key g n0 row :
  wf fields key g -> last (nodes g) = Some n0 -> has (max_flag (arg n0)) NO_MAX_RANGE = false ->
  sat row g ->
  let p := root_part g in
  rank (fields p) (row p) < rank (fields p) (max_value (arg n0)) \/
  (rank (fields p) (max_value (arg n0)) = rank (fields p) (row p) /\
   has (max_flag (arg n0)) NEAR_MAX = false /\
   forall g', next_key_part n0 = Some g' -> sat row g').
Proof.
  intros Hwf Hh Hno Hsat p. destruct (sat_inv _ _ Hsat) as (n&Hn&[_ Hi]&Hnext).
  destruct Hwf as [t q ns Hne Hq Hok Hs _]. simpl in *. subst p.
  pose proof (proj1 (Forall_forall _ _) Hok n Hn) as Kn. rewrite (ok_part _ _ _ _ Kn) in Hi.
  destruct (last_split _ _ Hh) as [ns' ->]. apply elem_of_app in Hn as [Ht|Hn];
    [left; by eapply last_above|]. apply list_elem_of_singleton in Hn as ->.
  destruct Kn as [_ K2 _ K3 _ _ _].
  unfold max_ok in K3. apply andb_true_iff in K3 as [K6%negb_true_iff K7%negb_true_iff].
  unfold below_max, point, endpos, bound in Hi. rewrite K2, Hno, K6, K7 in Hi.
  destruct (has (max_flag (arg n0)) NEAR_MAX); simpl in Hi; [left; lia|].
  destruct (Z.eq_dec (rank (fields q) (max_value (arg n0))) (rank (fields q) (row q)));
    [right; auto|left; lia].
Qed.

Lemma store_max_ok fields key p n fl :
  node_ok fields key p n -> has fl (Z.lor NO_MAX_RANGE NEAR_MAX) = false ->
  if has (max_flag (arg n)) NO_MAX_RANGE
  then store_max (arg n) (store_length (key p)) fl = Some (0, [])
  else exists c, store_max (arg n) (store_length (key p)) fl = Some (1, c) /\
         stored (maybe_null (arg n)) (store_length (key p)) (max_value (arg n)) = Some c.
Proof.
  intros [K1 K2 K3 K4 K5 K6 K7] Hfl. unfold store_max. rewrite Hfl.
  destruct (has (max_flag (arg n)) NO_MAX_RANGE); [done|]. cbn [negb andb].
  destruct K7 as [[c E]|]; [|done]. exists c. by rewrite E.
Qed.

Lemma within_cons_max fields key start_key g n0 c bs bytes strict :
  ascending key (root_part g) = negb start_key ->
  wf fields key g -> last (nodes g) = Some n0 -> has (max_flag (arg n0)) NO_MAX_RANGE = false ->
  stored (maybe_null (arg n0)) (store_length (key (root_part g))) (max_value (arg n0)) = Some c ->
  encodes key bs bytes ->
  (forall row, has (max_flag (arg n0)) NEAR_MAX = false ->
     (forall g', next_key_part n0 = Some g' -> sat row g') -> within key start_key strict bs row) ->
  let bs' := (root_part g, fields (root_part g), max_value (arg n0)) :: bs in
  encodes key bs' (c ++ bytes) /\ forall row, sat row g -> within key start_key strict bs' row.
Proof.
  intros Hasc Hwf Hh Eno Ec (chunks&->&Hch) Hin. split.
  - exists (c :: chunks). split; [done|]. constructor; [|done]. eauto.
  - intros row Hsat. cbn [within]. unfold inner. rewrite Hasc, Bool.eqb_negb2.
    destruct (last_bound _ _ _ _ _ Hwf Hh Eno Hsat) as [|(?&?&?)]; [by left|right]. auto.
Qed.

(** The same for [store_max_key], with the right bounds of the last
    intervals, in an index whose parts all have the other direction. *)
Theorem store_max_key_bounds fields key start_key last_part fuel g fl :
  (forall p, ascending key p = negb start_key) ->
  wf fields key g -> (Z.to_nat (256 - root_part g) < fuel)%nat ->
  has fl (Z.lor NO_MAX_RANGE NEAR_MAX) = false ->
  exists bs bytes fl',
    store_max_key fuel key g fl last_part start_key = Some (Z.of_nat (length bs), bytes, fl') /\
    encodes key bs bytes /\
    forall row, sat row g -> within key start_key (has fl' NEAR_MAX) bs row.
Proof.
  intros Huni. revert g fl. induction fuel as [|fuel IH]; intros g fl Hwf Hfuel Hfl; [lia|].
  assert (has fl NEAR_MAX = false) as Hnear.
  { rewrite has_lor_mask in Hfl. by apply orb_false_iff in Hfl as [_ ?]. }
  pose proof Hwf as Hwf'. destruct Hwf' as [t p ns Hne Hp Hok Hs Hnext].
  destruct (last ns) as [n0|] eqn:Hh; [|by apply last_None in Hh].
  assert (n0 ∈ ns) as Hn0 by (destruct (last_split _ _ Hh) as [? ->]; apply elem_of_app; right; left).
  pose proof (proj1 (Forall_forall _ _) Hok n0 Hn0) as K.
  pose proof (store_max_ok _ _ _ _ fl K Hfl) as Hst.
  cbn [store_max_key nodes root_part] in *. rewrite Hh. cbn [mbind option_bind].
  rewrite (ok_part _ _ _ _ K).
  destruct (has (max_flag (arg n0)) NO_MAX_RANGE) eqn:Eno.
  { rewrite Hst. exists [], [], fl. split; [done|]. split; [by exists []|done]. }
  destruct Hst as (c&Est&Ec). rewrite Est. cbn [mbind option_bind fst snd].
  change (1 =? 0) with false. cbn iota. set (fl1 := Z.lor fl (max_flag (arg n0))).
  pose proof (fun bs bytes strict =>
    within_cons_max _ _ _ (Graph t p ns) n0 c bs bytes strict (Huni p) Hwf Hh Eno Ec) as Hcons.
  assert (exists bs bytes fl', Some (1, c, fl1) = Some (Z.of_nat (length bs), bytes, fl') /\
    encodes key bs bytes /\
    forall row, sat row (Graph t p ns) -> within key start_key (has fl' NEAR_MAX) bs row) as Hstop.
  { destruct (Hcons [] [] (has fl1 NEAR_MAX)) as [H1 H2]; [by exists []|..].
    { intros row Hn _. unfold fl1. by rewrite has_lor, Hnear, Hn. }
    rewrite app_nil_r in H1. eexists [_], c, fl1. split; [done|]. split; [exact H1|exact H2]. }
  destruct (next_key_part n0) as [nkp|] eqn:En; [|exact Hstop].
  destruct (_ && _) eqn:Econd; [|exact Hstop]. clear Hstop.
  apply andb_true_iff in Econd as [[[Et El]%andb_true_iff Er%Z.eqb_eq]%andb_true_iff Ef%negb_true_iff].
  rewrite Huni.
  assert (negb start_key && negb start_key || start_key && negb (negb start_key) = true) as ->
    by (by destruct start_key).
  destruct (IH nkp fl1) as (bs&bytes&fl'&E&Henc&Hrow); [|rewrite Er; lia|exact Ef|].
  { apply (Hnext (arg n0)). destruct n0 as [a o]. simpl in *. by subst o. }
  rewrite E. cbn [mbind option_bind fst snd].
  destruct (Hcons bs bytes (has fl' NEAR_MAX) Henc) as [H1 H2]; [intros row _ Hg; by apply Hrow, Hg|].
  eexists (_ :: bs), _, fl'. split; [|split; [exact H1|exact H2]].
  do 2 f_equal. simpl length. f_equal. lia.
Qed.

End keys.

(** ** An index on two byte columns *)

Definition sample_part (asc : bool) : KEY_PART := mk_part 1 (if asc then 0 else HA_REVERSE_SORT).

(** [10 <= kp1 <= 20 AND 1 <= kp2 <= 9] *)
Definition sample_graph : @graph sample_cmp :=
  Graph KEY_RANGE 0 [Node (interval false 0 [10] [20] 0 0 0)
    (Some (Graph KEY_RANGE 1 [Node (interval false 1 [1] [9] 0 0 0) None]))].

Lemma sample_graph_wf (key : Z -> KEY_PART) :
  (forall p, store_length (key p) = 1) -> wf (L := sample_laws) (fun _ => false) key sample_graph.
Proof.
  intros Hk. constructor; [done|lia| |repeat constructor|].
  - apply Forall_singleton. constructor; rewrite ?Hk; try done; left; by eexists.
  - intros a g Hg. apply list_elem_of_singleton in Hg as [= -> ->].
    constructor; [done|lia| |repeat constructor|].
    + apply Forall_singleton. constructor; rewrite ?Hk; try done; left; by eexists.
    + intros a g Hg. by apply list_elem_of_singleton in Hg.
Qed.


Lemma store_max_key_bounds_witness :
  exists bs bytes fl',
    store_max_key 257 (fun _ => sample_part false) sample_graph 0 64 true
      = Some (Z.of_nat (length bs), bytes, fl') /\
    encodes (fun _ => sample_part false) bs bytes /\
    forall row, sat (L := sample_laws) row sample_graph ->
      within (L := sample_laws) (fun _ => sample_part false) true (has fl' NEAR_MAX) bs row.
Proof.
  apply (store_max_key_bounds (L := sample_laws) (fun _ => false)); [done| |simpl; lia|done].
  by apply sample_graph_wf.
Defined.

(** In an index with an ascending and a descending part the direction of
    the wrong part is consulted: the start key of
    [10 <= kp1 <= 20 AND 1 <= kp2 <= 9] on (kp1 ASC, kp2 DESC) is (10, 1), but
    the row (10, 9) is in the range and stands before it in the index. *)
Theorem mixed_order_start_key_too_late :
  let key := fun p => sample_part (p =? 0) in
  let row := fun p => if p =? 0 then [10] else [9] in
  let bs : @bounds sample_cmp := [(0, false, [10]); (1, false, [1])] in
  wf (L := sample_laws) (fun _ => false) key sample_graph /\
  store_min_key 257 key sample_graph 0 64 true = Some (2, [10; 1], 0) /\
  encodes key bs [10; 1] /\
  sat (L := sample_laws) row sample_graph /\ ~ within (L := sample_laws) key true false bs row.
Proof.
  split; [|split; [done|split; [|split]]].
  - by apply sample_graph_wf.
  - exists [[10]; [1]]. split; [done|]. repeat constructor; by exists false.
  - eapply sat_next; [left|by split|]. eapply sat_last; [left|by split].
  - intros [H|[_ [H|[H _]]]]; vm_compute in H; discriminate.
Qed.

End SelArgKeys.
