(* ===== verification/KeyPack.v ===== *)
(** * Packed keys and bit fields (private/my_compare.h, my_bitmap.h)

    [KeyLength] models the macros that store the length of a key segment in one
    or three bytes, [RecBits] the functions that read and write a few bits of a
    record at any bit offset, and [MyBitmap] the inline functions and macros on
    MY_BITMAP.  All work on byte memory.  The bit at position [i] from an
    address is [mbit m p i]; every operation is specified by the bits it reads
    and by all the bits after it. *)

From Stdlib Require Import ZArith Lia.
From S2P Require Import Prelude Mem MyIsamPack ByteOrder.
From stdpp Require Import prelude gmap sets.
Local Open Scope Z_scope.
Local Open Scope cint_scope.
Import MyIsamPack ByteOrder.

(** Memory holds bytes. *)
Definition byte_mem (m : mem) : Prop := forall x, 0 <= m x < 256.

Definition mbit (m : mem) (p i : Z) : bool := Z.testbit (m (p + i / 8)) (i mod 8).

(** ** Lengths of key segments *)

Module KeyLength.

(** The macros assign [length] and advance [key]: the results are the length
    and the new pointer. *)
Definition get_key_length (m : mem) (key : Z) : Z * Z :=
  if negb (m key =? 255) then (m key, key + 1)
  else (mi_uint2korr m (key + 1), key + 3).

Definition get_key_length_rdonly (m : mem) (key : Z) : Z :=
  if negb (m key =? 255) then m key else mi_uint2korr m (key + 1).

Definition get_key_pack_length (m : mem) (key : Z) : Z * Z * Z :=
  if negb (m key =? 255) then (m key, 1, key + 1)
  else (mi_uint2korr m (key + 1), 3, key + 3).

Definition store_key_length_inc (m : mem) (key length : Z) : mem * Z :=
  if length <? 255 then (poke m key (u8 length), key + 1)
  else (mi_int2store (poke m key 255) (key + 1) length, key + 3).

Definition size_to_store_key_length (length : Z) : Z := if length <? 255 then 1 else 3.

(** Storing a 16-bit key length and reading it gives the length back by
    all three macros, which agree on the number of bytes with
    [size_to_store_key_length]; no byte outside them changes. *)
Theorem key_length_roundtrip m key length :
  0 <= length < 65536 ->
  let r := store_key_length_inc m key length in
  let size := size_to_store_key_length length in
  get_key_length (fst r) key = (length, key + size) /\
  get_key_length_rdonly (fst r) key = length /\
  get_key_pack_length (fst r) key = (length, size, key + size) /\
  snd r = key + size /\
  forall x, x < key \/ key + size <= x -> fst r x = m x.
Proof.
  intros Hl. unfold store_key_length_inc, size_to_store_key_length.
  unfold get_key_length, get_key_length_rdonly, get_key_pack_length.
  destruct (Z.ltb_spec length 255); cbn [fst snd].
  - assert (poke m key (u8 length) key = length) as ->.
    { unfold poke. rewrite Z.eqb_refl. apply wrap_small. unfold urange. simpl. lia. }
    rewrite (proj2 (Z.eqb_neq length 255)) by lia. repeat split.
    intros x Hx. apply poke_ne. lia.
  - destruct (int2_writes (poke m key 255) (key + 1) length) as [_ Hframe].
    assert (mi_int2store (poke m key 255) (key + 1) length key = 255) as ->.
    { rewrite Hframe by lia. unfold poke. by rewrite Z.eqb_refl. }
    assert (mi_uint2korr (mi_int2store (poke m key 255) (key + 1) length) (key + 1) = length) as ->.
    { rewrite (read_written 2 _ _ _ _ _ int2_writes uint2_reads).
      apply wrap_small. unfold urange. simpl. lia. }
    repeat split. intros x Hx. rewrite Hframe by (simpl; lia). apply poke_ne. lia.
Qed.

Lemma key_length_roundtrip_witness :
  let r := store_key_length_inc (fun _ => 7) 100 300 in
  get_key_length (fst r) 100 = (300, 100 + 3) /\
  get_key_length_rdonly (fst r) 100 = 300 /\
  get_key_pack_length (fst r) 100 = (300, 3, 100 + 3) /\
  snd r = 100 + 3 /\ forall x, x < 100 \/ 100 + 3 <= x -> fst r x = 7.
Proof. apply (key_length_roundtrip (fun _ => 7) 100 300). lia. Defined.

End KeyLength.

(** ** Bits of a record *)

Module RecBits.

Definition get_rec_bits (m : mem) (ptr ofs len : Z) : Z :=
  let val := m (ptr + 0) in
  let val := if 8 <? ofs + len then Z.lor val (u16 (Z.shiftl (m (ptr + 1)) 8)) else val in
  u8 (Z.land (Z.shiftr val ofs) (Z.shiftl 1 len - 1)).

Definition set_rec_bits (m : mem) (bits ptr ofs len : Z) : mem :=
  let m := poke m (ptr + 0)
    (u8 (Z.lor (Z.land (m (ptr + 0)) (Z.lnot (Z.shiftl (Z.shiftl 1 len - 1) ofs))) (Z.shiftl bits ofs))) in
  if 8 <? ofs + len then
    poke m (ptr + 1)
      (u8 (Z.lor (Z.land (m (ptr + 1)) (Z.lnot (Z.shiftl 1 (len - 8 + ofs) - 1)))
                 (Z.shiftr bits (8 - ofs))))
  else m.

Definition clr_rec_bits (m : mem) (bit_ptr bit_ofs bit_len : Z) : mem :=
  set_rec_bits m 0 bit_ptr bit_ofs bit_len.

Lemma mask_testbit len i : 0 <= len -> 0 <= i -> Z.testbit (Z.shiftl 1 len - 1) i = (i <? len).
Proof.
  intros Hl Hi. rewrite Z.shiftl_1_l. replace (2 ^ len - 1) with (Z.ones len).
  - rewrite testbit_ones by lia. by rewrite (proj2 (Z.leb_le 0 i)).
  - rewrite Z.ones_equiv. lia.
Qed.

Lemma get_rec_bits_testbit m ptr ofs len i :
  byte_mem m -> 0 <= ofs < 8 -> 0 < len <= 8 -> 0 <= i ->
  Z.testbit (get_rec_bits m ptr ofs len) i = (i <? len) && mbit m ptr (ofs + i).
Proof.
  intros Hm Ho Hl Hi. unfold get_rec_bits. rewrite wrap_testbit, Z.land_spec, mask_testbit by lia.
  destruct (Z.ltb_spec i len); rewrite ?andb_false_r; [|done].
  rewrite (proj2 (Z.ltb_lt i 8)) by lia. cbn [andb]. rewrite andb_true_r, Z.shiftr_spec by lia.
  unfold mbit. replace (i + ofs) with (ofs + i) by lia.
  assert (ofs + i < 8 \/ 8 <= ofs + i < 16) as [Hlt|Hge] by lia.
  - replace ((ofs + i) / 8) with 0 by dlia. replace ((ofs + i) mod 8) with (ofs + i) by dlia.
    destruct (8 <? ofs + len); [|done]. rewrite Z.lor_spec, wrap_testbit, Z.shiftl_spec by lia.
    rewrite (Z.testbit_neg_r (m (ptr + 1))) by lia. by rewrite andb_false_r, orb_false_r.
  - replace ((ofs + i) / 8) with 1 by dlia. replace ((ofs + i) mod 8) with (ofs + i - 8) by dlia.
    rewrite (proj2 (Z.ltb_lt 8 (ofs + len))) by lia.
    rewrite Z.lor_spec, wrap_testbit, Z.shiftl_spec by lia.
    rewrite (testbit_ltb_high 8 (m (ptr + 0))) by (apply Hm || lia).
    by rewrite (proj2 (Z.ltb_lt (ofs + i) 16)) by lia.
Qed.

Lemma set_rec_bits_mbit m bits ptr ofs len j :
  byte_mem m -> urange len bits -> 0 <= ofs < 8 -> 0 < len <= 8 -> 0 <= j ->
  mbit (set_rec_bits m bits ptr ofs len) ptr j =
  if (ofs <=? j) && (j <? ofs + len) then Z.testbit bits (j - ofs) else mbit m ptr j.
Proof.
  intros Hm Hb Ho Hl Hj. unfold mbit, set_rec_bits.
  assert (forall k, len <= k -> Z.testbit bits k = false) as Hhigh
    by (intros; by apply (testbit_ltb_high len)).
  assert (j < 8 \/ 8 <= j < 16 \/ 16 <= j) as [Hlo|[Hmid|Hhi]] by lia.
  - replace (j / 8) with 0 by dlia. replace (j mod 8) with j by dlia.
    assert (forall m', (if 8 <? ofs + len then poke m' (ptr + 1)
        (u8 (Z.lor (Z.land (m' (ptr + 1)) (Z.lnot (Z.shiftl 1 (len - 8 + ofs) - 1)))
                   (Z.shiftr bits (8 - ofs)))) else m') (ptr + 0) = m' (ptr + 0)) as ->.
    { intros m'. destruct (8 <? ofs + len); [apply poke_ne; lia|done]. }
    unfold poke at 1. rewrite Z.eqb_refl.
    rewrite wrap_testbit, Z.lor_spec, Z.land_spec, Z.lnot_spec, !Z.shiftl_spec by lia.
    rewrite (proj2 (Z.ltb_lt j 8)) by lia. cbn [andb].
    destruct (Z.leb_spec ofs j).
    + rewrite mask_testbit by lia. destruct (Z.ltb_spec (j - ofs) len), (Z.ltb_spec j (ofs + len));
        try lia; cbn [andb negb]; rewrite ?andb_false_r, ?andb_true_r; [done|].
      rewrite Hhigh by lia. apply orb_false_r.
    + rewrite !(Z.testbit_neg_r _ (j - ofs)) by lia. cbn. by rewrite andb_true_r, orb_false_r.
  - replace (j / 8) with 1 by dlia. replace (j mod 8) with (j - 8) by dlia.
    rewrite (proj2 (Z.leb_le ofs j)) by lia. cbn [andb].
    destruct (Z.ltb_spec 8 (ofs + len)) as [Hc|Hc].
    + unfold poke at 1. rewrite Z.eqb_refl. rewrite poke_ne by lia.
      rewrite wrap_testbit, Z.lor_spec, Z.land_spec, Z.lnot_spec, Z.shiftr_spec by lia.
      rewrite mask_testbit by lia. rewrite (proj2 (Z.ltb_lt (j - 8) 8)) by lia. cbn [andb].
      replace (j - 8 + (8 - ofs)) with (j - ofs) by lia.
      destruct (Z.ltb_spec (j - 8) (len - 8 + ofs)), (Z.ltb_spec j (ofs + len)); try lia;
        cbn [negb]; rewrite ?andb_false_r, ?andb_true_r; [done|].
      rewrite Hhigh by lia. apply orb_false_r.
    + rewrite (proj2 (Z.ltb_ge j (ofs + len))) by lia. by rewrite poke_ne by lia.
  - rewrite (proj2 (Z.ltb_ge j (ofs + len))), andb_false_r by lia.
    assert (2 <= j / 8) by dlia. destruct (8 <? ofs + len); by rewrite !poke_ne by lia.
Qed.

(** A bit field of a record, at any bit offset and across a byte boundary:
    what [set_rec_bits] writes [get_rec_bits] reads, [clr_rec_bits] makes it 0,
    and no other bit of the record changes. *)
Theorem rec_bits_roundtrip m bits ptr ofs len :
  byte_mem m -> urange len bits -> 0 <= ofs < 8 -> 0 < len <= 8 ->
  get_rec_bits (set_rec_bits m bits ptr ofs len) ptr ofs len = bits /\
  get_rec_bits (clr_rec_bits m ptr ofs len) ptr ofs len = 0 /\
  (forall j, 0 <= j -> (j < ofs \/ ofs + len <= j) ->
     mbit (set_rec_bits m bits ptr ofs len) ptr j = mbit m ptr j) /\
  (forall x, x < ptr \/ ptr + 2 <= x -> set_rec_bits m bits ptr ofs len x = m x).
Proof.
  intros Hm Hb Ho Hl.
  assert (forall b, urange len b -> byte_mem (set_rec_bits m b ptr ofs len)) as Hm'.
  { intros b _ x. unfold set_rec_bits. destruct (8 <? ofs + len); unfold poke;
      repeat case_match; try apply Hm; by apply (wrap_range 8). }
  assert (forall b, urange len b -> get_rec_bits (set_rec_bits m b ptr ofs len) ptr ofs len = b) as Hrt.
  { intros b Hb'. apply Z.bits_inj'. intros i Hi.
    rewrite get_rec_bits_testbit, set_rec_bits_mbit by (auto; lia).
    rewrite (proj2 (Z.leb_le ofs (ofs + i))) by lia. cbn [andb].
    replace (ofs + i - ofs) with i by lia.
    destruct (Z.ltb_spec i len), (Z.ltb_spec (ofs + i) (ofs + len)); try lia; [done|].
    symmetry. by apply (testbit_ltb_high len). }
  assert (urange len 0) as H0 by (unfold urange; lia).
  split; [by apply Hrt|]. split; [by apply Hrt|]. split.
  - intros j Hj Hout. rewrite set_rec_bits_mbit by auto.
    destruct (Z.leb_spec ofs j), (Z.ltb_spec j (ofs + len)); try lia; done.
  - intros x Hx. unfold set_rec_bits. destruct (8 <? ofs + len); by rewrite !poke_ne by lia.
Qed.

(** Five bits from bit 6 on, over two bytes. *)
Lemma rec_bits_roundtrip_witness :
  get_rec_bits (set_rec_bits (fun _ => 255) 21 40 6 5) 40 6 5 = 21.
Proof.
  apply (rec_bits_roundtrip (fun _ => 255) 21 40 6 5); [|done|lia|lia]. intros x. lia.
Defined.

End RecBits.

(** ** MY_BITMAP *)

Module MyBitmap.

(** [bitmap] and [last_word_ptr] are addresses; words have 32 bits and are
    little-endian. *)
Record MY_BITMAP := mk {
  bitmap : Z; last_word_ptr : Z; last_word_mask : Z; n_bits : Z
}.

Definition my_bitmap_clear (map : MY_BITMAP) : MY_BITMAP :=
  mk 0 (last_word_ptr map) (last_word_mask map) (n_bits map).

Definition bitmap_buffer_size (bits : Z) : Z := u32 (bits + 31) / 32 * 4.
Definition no_bytes_in_map (map : MY_BITMAP) : Z := u32 (n_bits map + 7) / 8.
Definition no_words_in_map (map : MY_BITMAP) : Z := u32 (n_bits map + 31) / 32.
Definition bytes_word_aligned (bytes : Z) : Z := 4 * (u32 (bytes + 3) / 4).

(** The byte of a bit; a bit outside the map fails the assertion. *)
Definition update_bit (op : Z -> Z -> Z) (m : mem) (map : MY_BITMAP) (bit : Z) : option mem :=
  let b := bitmap map + bit / 8 in
  if bit <? n_bits map then Some (poke m b (u8 (op (m b) (u32 (Z.shiftl 1 (Z.land bit 7))))))
  else None.

Definition bitmap_set_bit : mem -> MY_BITMAP -> Z -> option mem := update_bit Z.lor.
Definition bitmap_flip_bit : mem -> MY_BITMAP -> Z -> option mem := update_bit Z.lxor.
Definition bitmap_clear_bit : mem -> MY_BITMAP -> Z -> option mem :=
  update_bit (fun b mask => Z.land b (u32 (Z.lnot mask))).

Definition bitmap_is_set (m : mem) (map : MY_BITMAP) (bit : Z) : option bool :=
  if bit <? n_bits map then
    Some (truth (Z.land (m (bitmap map + bit / 8)) (u32 (Z.shiftl 1 (Z.land bit 7)))))
  else None.

Definition bitmap_cmp (m : mem) (map1 map2 : MY_BITMAP) : bool :=
  let n := u32 (4 * u32 (no_words_in_map map1 - 1)) in
  if bool_decide (bytes m (bitmap map1) n = bytes m (bitmap map2) n) then
    Z.lor (load 4 m (last_word_ptr map1)) (last_word_mask map1) =?
    Z.lor (load 4 m (last_word_ptr map2)) (last_word_mask map2)
  else false.

Definition bitmap_clear_all (m : mem) (map : MY_BITMAP) : mem :=
  memset m (bitmap map) 0 (u32 (4 * no_words_in_map map)).
Definition bitmap_set_all (m : mem) (map : MY_BITMAP) : mem :=
  memset m (bitmap map) 0xFF (u32 (4 * no_words_in_map map)).

(** What my_bitmap_init and create_last_word_mask establish: the last word is
    the one with the highest bit, and the mask covers the bits behind it. *)
Record valid (map : MY_BITMAP) : Prop := {
  valid_bits : 0 < n_bits map < 2 ^ 31;
  valid_last : last_word_ptr map = bitmap map + 4 * ((n_bits map - 1) / 32);
  valid_mask : forall i, 0 <= i < 32 ->
    Z.testbit (last_word_mask map) i = (n_bits map <=? 32 * ((n_bits map - 1) / 32) + i);
  valid_mask_range : urange 32 (last_word_mask map)
}.

Lemma no_words map : valid map -> no_words_in_map map = (n_bits map - 1) / 32 + 1.
Proof.
  intros [[H1 H2] _ _ _]. change (2 ^ 31) with 0x80000000 in H2.
  unfold no_words_in_map. rewrite u32_small by lia. dlia.
Qed.

(** The bits of the map. *)
Definition mapbit (m : mem) (map : MY_BITMAP) (i : Z) : bool := mbit m (bitmap map) i.

(** The map holds the set [s]. *)
Definition holds (m : mem) (map : MY_BITMAP) (s : gset Z) : Prop :=
  (forall i, 0 <= i < n_bits map -> mapbit m map i = bool_decide (i ∈ s)) /\
  (forall i, i ∈ s -> 0 <= i < n_bits map).

Lemma bit_mask bit i :
  0 <= bit -> 0 <= i -> Z.testbit (u32 (Z.shiftl 1 (Z.land bit 7))) i = (i =? bit mod 8).
Proof.
  intros Hb Hi. change 7 with (Z.ones 3). rewrite Z.land_ones by lia. change (2 ^ 3) with 8.
  pose proof (Z.mod_pos_bound bit 8 ltac:(lia)).
  rewrite wrap_testbit, Z.shiftl_1_l, pow2_testbit by lia.
  destruct (Z.eqb_spec i (bit mod 8)); [|by rewrite andb_false_r].
  by rewrite (proj2 (Z.ltb_lt i 32)) by lia.
Qed.

(** What an update does to the bits of the map, when the operator works on
    single bits. *)
Lemma update_bit_spec op (opb : bool -> bool -> bool) m map bit :
  (forall b mask i, 0 <= i < 8 -> Z.testbit (op b mask) i = opb (Z.testbit b i) (Z.testbit mask i)) ->
  (forall b, opb b false = b) -> 0 <= bit < n_bits map ->
  exists m', update_bit op m map bit = Some m' /\
    (forall i, 0 <= i -> mapbit m' map i = opb (mapbit m map i) (i =? bit)) /\
    (forall x, x <> bitmap map + bit / 8 -> m' x = m x) /\
    (byte_mem m -> byte_mem m').
Proof.
  intros Hop Hid Hbit. unfold update_bit. rewrite (proj2 (Z.ltb_lt bit _)) by lia.
  eexists. split; [done|]. split; [|split].
  - intros i Hi. unfold mapbit, mbit, poke. pose proof (Z.mod_pos_bound i 8 ltac:(lia)).
    destruct (Z.eqb_spec (bitmap map + i / 8) (bitmap map + bit / 8)) as [E|E].
    + rewrite wrap_testbit, (proj2 (Z.ltb_lt (i mod 8) 8)), Hop, bit_mask by lia. cbn [andb].
      replace (bitmap map + bit / 8) with (bitmap map + i / 8) by lia. f_equal.
      destruct (Z.eqb_spec (i mod 8) (bit mod 8)), (Z.eqb_spec i bit); try done; subst; try done; dlia.
    + rewrite (proj2 (Z.eqb_neq i bit)) by (intros ->; done). by rewrite Hid.
  - intros x Hx. by apply poke_ne.
  - intros Hm x. unfold poke. case_match; [by apply (wrap_range 8)|apply Hm].
Qed.

(** ** Commands *)

Inductive command := SetBit (i : Z) | FlipBit (i : Z) | ClearBit (i : Z) | ClearAll | SetAll.

Definition exec (m : mem) (map : MY_BITMAP) (c : command) : option mem :=
  match c with
  | SetBit i => bitmap_set_bit m map i
  | FlipBit i => bitmap_flip_bit m map i
  | ClearBit i => bitmap_clear_bit m map i
  | ClearAll => Some (bitmap_clear_all m map)
  | SetAll => Some (bitmap_set_all m map)
  end.

Fixpoint exec_all (m : mem) (map : MY_BITMAP) (cs : list command) : option mem :=
  match cs with [] => Some m | c :: cs => m ← exec m map c; exec_all m map cs end.

(** The same on sets of numbers below [n]. *)
Definition spec (n : Z) (s : gset Z) (c : command) : gset Z :=
  match c with
  | SetBit i => {[ i ]} ∪ s
  | FlipBit i => if decide (i ∈ s) then s ∖ {[ i ]} else {[ i ]} ∪ s
  | ClearBit i => s ∖ {[ i ]}
  | ClearAll => ∅
  | SetAll => list_to_set (seqZ 0 n)
  end.

Definition in_map (map : MY_BITMAP) (c : command) : Prop :=
  match c with SetBit i | FlipBit i | ClearBit i => 0 <= i < n_bits map | _ => True end.

(** The bytes of the map's words. *)
Definition in_words (map : MY_BITMAP) (x : Z) : Prop :=
  bitmap map <= x < bitmap map + 4 * ((n_bits map - 1) / 32 + 1).

Lemma in_words_bit map i : 0 <= i < n_bits map -> in_words map (bitmap map + i / 8).
Proof. intros Hi. unfold in_words. dlia. Qed.

Lemma bitmap_all_words map x :
  valid map ->
  (bitmap map <=? x) && (x <? bitmap map + u32 (4 * no_words_in_map map)) = bool_decide (in_words map x).
Proof.
  intros Hv. rewrite no_words by done. destruct Hv as [[H1 H2] _ _ _].
  change (2 ^ 31) with 0x80000000 in H2. rewrite u32_small by dlia. unfold in_words.
  apply eq_true_iff_eq. rewrite andb_true_iff, Z.leb_le, Z.ltb_lt, bool_decide_eq_true. done.
Qed.

Lemma exec_spec m map s c :
  valid map -> byte_mem m -> holds m map s -> in_map map c ->
  exists m', exec m map c = Some m' /\ holds m' map (spec (n_bits map) s c) /\
    byte_mem m' /\ forall x, ~ in_words map x -> m' x = m x.
Proof.
  intros Hv Hm [Hs Hsub] Hc. pose proof (in_words_bit map) as Hw.
  assert (forall k (l : bool) (set : gset Z), (k = 0 /\ l = false \/ k = 255 /\ l = true) ->
    (forall i, i ∈ set <-> 0 <= i < n_bits map /\ l = true) ->
    let m' := memset m (bitmap map) k (u32 (4 * no_words_in_map map)) in
    holds m' map set /\ byte_mem m' /\ forall x, ~ in_words map x -> m' x = m x) as Hall.
  { intros k l set Hk Hset m'. subst m'. unfold holds, memset, mapbit, mbit. split; [split|split].
    - intros i Hi. rewrite bitmap_all_words, bool_decide_eq_true_2 by auto.
      pose proof (Z.mod_pos_bound i 8 ltac:(lia)). destruct Hk as [[-> ->]|[-> ->]].
      + rewrite Z.testbit_0_l. symmetry. apply bool_decide_eq_false. rewrite Hset. naive_solver.
      + change 255 with (Z.ones 8). rewrite testbit_ones by lia.
        rewrite (proj2 (Z.leb_le 0 _)), (proj2 (Z.ltb_lt _ 8)) by lia. symmetry.
        apply bool_decide_eq_true. by rewrite Hset.
    - intros i Hi%Hset. tauto.
    - intros x. rewrite bitmap_all_words by done. case_bool_decide; [lia|apply Hm].
    - intros x Hx. rewrite bitmap_all_words by done. by rewrite bool_decide_eq_false_2. }
  destruct c as [bit|bit|bit| |]; cbn [exec spec in_map] in *.
  - destruct (update_bit_spec Z.lor orb m map bit) as (m'&E&Hb&Hx&Hbm); [intros; apply Z.lor_spec|..];
      [by intros []|done|]. exists m'. split; [done|]. split; [|split; [auto|]].
    + split; [|set_solver]. intros i Hi. rewrite Hb, Hs by lia. apply eq_true_iff_eq.
      rewrite orb_true_iff, !bool_decide_eq_true, Z.eqb_eq. set_solver.
    + intros x Hx'. apply Hx. intros ->. by apply Hx', Hw.
  - destruct (update_bit_spec Z.lxor xorb m map bit) as (m'&E&Hb&Hx&Hbm); [intros; apply Z.lxor_spec|..];
      [by intros []|done|]. exists m'. split; [done|]. split; [|split; [auto|]].
    + split; [|destruct (decide (bit ∈ s)); set_solver]. intros i Hi. rewrite Hb, Hs by lia.
      destruct (Z.eqb_spec i bit) as [->|]; [rewrite xorb_true_r|rewrite xorb_false_r];
        destruct (decide (bit ∈ s)); repeat case_bool_decide; set_solver.
    + intros x Hx'. apply Hx. intros ->. by apply Hx', Hw.
  - destruct (update_bit_spec (fun b mask => Z.land b (u32 (Z.lnot mask))) (fun a b => a && negb b)
      m map bit) as (m'&E&Hb&Hx&Hbm).
    { intros b mask i Hi. rewrite Z.land_spec, wrap_testbit, Z.lnot_spec by lia.
      by rewrite (proj2 (Z.ltb_lt i 32)) by lia. }
    { by intros []. } { done. }
    exists m'. split; [done|]. split; [|split; [auto|]].
    + split; [|set_solver]. intros i Hi. rewrite Hb, Hs by lia. apply eq_true_iff_eq.
      rewrite andb_true_iff, !bool_decide_eq_true, negb_true_iff, Z.eqb_neq. set_solver.
    + intros x Hx'. apply Hx. intros ->. by apply Hx', Hw.
  - eexists. split; [done|]. apply (Hall 0 false); [tauto|]. set_solver.
  - eexists. split; [done|]. apply (Hall 255 true); [tauto|]. intros i.
    rewrite elem_of_list_to_set, elem_of_seqZ. lia.
Qed.

Lemma exec_all_spec m map s cs :
  valid map -> byte_mem m -> holds m map s -> Forall (in_map map) cs ->
  exists m', exec_all m map cs = Some m' /\ holds m' map (foldl (spec (n_bits map)) s cs) /\
    byte_mem m' /\ forall x, ~ in_words map x -> m' x = m x.
Proof.
  intros Hv Hm Hs Hcs. revert m s Hm Hs. induction Hcs as [|c cs Hc _ IH]; intros m s Hm Hs.
  { exists m. naive_solver. }
  destruct (exec_spec m map s c) as (m1&E&Hs1&Hm1&Hf1); [done..|].
  destruct (IH m1 _ Hm1 Hs1) as (m2&E2&Hs2&Hm2&Hf2). exists m2. cbn [exec_all foldl].
  rewrite E. split; [exact E2|]. split; [done|]. split; [done|].
  intros x Hx. by rewrite Hf2, Hf1.
Qed.

Lemma is_set_spec m map i :
  0 <= i < n_bits map -> bitmap_is_set m map i = Some (mapbit m map i).
Proof.
  intros Hi. unfold bitmap_is_set, mapbit, mbit. rewrite (proj2 (Z.ltb_lt i _)) by lia. f_equal.
  pose proof (Z.mod_pos_bound i 8 ltac:(lia)). set (b := m (bitmap map + i / 8)).
  destruct (Z.testbit b (i mod 8)) eqn:E.
  - apply truth_true. intros H0. apply (f_equal (fun z => Z.testbit z (i mod 8))) in H0.
    by rewrite Z.land_spec, bit_mask, Z.eqb_refl, E, Z.testbit_0_l in H0 by lia.
  - apply truth_false. apply Z.bits_inj'. intros k Hk. rewrite Z.land_spec, bit_mask, Z.testbit_0_l by lia.
    destruct (Z.eqb_spec k (i mod 8)) as [->|]; [by rewrite E|by rewrite andb_false_r].
Qed.

(** The bits of a word in memory. *)
Lemma load_testbit m p i :
  byte_mem m -> 0 <= i < 32 -> Z.testbit (load 4 m p) i = mbit m p i.
Proof.
  intros Hm Hi. unfold load, mbit.
  assert (byte_list (bytes m p 4)) as Hb.
  { apply Forall_forall. intros y Hy. apply list_elem_of_fmap in Hy as (x&->&_). apply Hm. }
  pose proof (le_bytes_value _ Hb) as E. rewrite bytes_length in E. change (Z.to_nat 4) with 4%nat in E.
  assert (bytes m p 4 !! Z.to_nat (i / 8) = Some (m (p + i / 8))) as Hl.
  { unfold bytes. rewrite list_lookup_fmap, lookup_seqZ_lt by dlia. simpl. do 2 f_equal. dlia. }
  rewrite <- E, le_bytes_lookup in Hl by dlia. injection Hl as Hl. rewrite <- Hl.
  pose proof (Z.mod_pos_bound i 8 ltac:(lia)).
  rewrite wrap_testbit, Z.shiftr_spec, (proj2 (Z.ltb_lt _ 8)) by lia. cbn [andb]. f_equal. dlia.
Qed.

Lemma load_range m p : byte_mem m -> urange 32 (load 4 m p).
Proof.
  intros Hm. unfold load. assert (byte_list (bytes m p 4)) as Hb.
  { apply Forall_forall. intros y Hy. apply list_elem_of_fmap in Hy as (x&->&_). apply Hm. }
  pose proof (le_value_range _ Hb) as H. by rewrite bytes_length in H.
Qed.

(** The words before the last are compared byte by byte: equal bytes are equal
    bits. *)
Lemma bytes_bits m p q n :
  byte_mem m -> 0 <= n ->
  bytes m p n = bytes m q n <-> forall i, 0 <= i < 8 * n -> mbit m p i = mbit m q i.
Proof.
  intros Hm Hn. split.
  - intros E i Hi. unfold mbit.
    assert (forall a, bytes m a n !! Z.to_nat (i / 8) = Some (m (a + i / 8))) as Hl.
    { intros a. unfold bytes. rewrite list_lookup_fmap, lookup_seqZ_lt by dlia. simpl. do 2 f_equal. dlia. }
    pose proof (Hl p) as Hp. rewrite E, Hl in Hp. injection Hp as Hp. by rewrite Hp.
  - intros H. apply bytes_shift. intros i Hi. apply (bits_eq 8); [apply Hm..|]. intros k Hk.
    specialize (H (8 * i + k) ltac:(lia)). unfold mbit in H.
    replace ((8 * i + k) / 8) with i in H by dlia. by replace ((8 * i + k) mod 8) with k in H by dlia.
Qed.

Lemma cmp_spec m map1 map2 :
  valid map1 -> valid map2 -> n_bits map1 = n_bits map2 -> byte_mem m ->
  bitmap_cmp m map1 map2 = true <->
  forall i, 0 <= i < n_bits map1 -> mapbit m map1 i = mapbit m map2 i.
Proof.
  intros Hv1 Hv2 Hn Hm. unfold bitmap_cmp. rewrite no_words by done.
  destruct Hv1 as [[B1 B2] L1 M1 R1], Hv2 as [_ L2 M2 R2]. change (2 ^ 31) with 0x80000000 in B2.
  rewrite <- Hn in *. set (w := (n_bits map1 - 1) / 32) in *. assert (0 <= w) by (unfold w; dlia).
  assert (32 * w < n_bits map1 <= 32 * w + 32) as Hw by (unfold w; dlia).
  replace (w + 1 - 1) with w by lia. rewrite (u32_small w), (u32_small (4 * w)) by lia.
  assert (forall mp i, 0 <= i < 32 -> mbit m (bitmap mp + 4 * w) i = mapbit m mp (32 * w + i)) as Hshift.
  { intros mp i Hi. unfold mapbit, mbit. f_equal; [f_equal|]; dlia. }
  assert (Z.lor (load 4 m (last_word_ptr map1)) (last_word_mask map1) =
          Z.lor (load 4 m (last_word_ptr map2)) (last_word_mask map2) <->
          forall i, 0 <= i < 32 -> 32 * w + i < n_bits map1 ->
            mapbit m map1 (32 * w + i) = mapbit m map2 (32 * w + i)) as Hlast.
  { rewrite L1, L2. split.
    - intros E i Hi Hlt. apply (f_equal (fun z => Z.testbit z i)) in E.
      rewrite !Z.lor_spec, !load_testbit, M1, M2, !Hshift in E by (done || lia).
      by rewrite (proj2 (Z.leb_gt _ _)), !orb_false_r in E by lia.
    - intros H0. apply (bits_eq 32).
      + apply urange_lor; [lia|by apply load_range|done].
      + apply urange_lor; [lia|by apply load_range|done].
      + intros i Hi. rewrite !Z.lor_spec, !load_testbit, M1, M2, !Hshift by (done || lia).
        destruct (Z.leb_spec (n_bits map1) (32 * w + i)); [by rewrite !orb_true_r|].
        by rewrite H0 by lia. }
  case_bool_decide as Hb; rewrite bytes_bits in Hb by (done || lia).
  - rewrite Z.eqb_eq, Hlast. split.
    + intros H0 i Hi. destruct (Z.lt_ge_cases i (32 * w)); [apply Hb; lia|].
      replace i with (32 * w + (i - 32 * w)) by lia. apply H0; lia.
    + intros H0 i Hi Hlt. apply H0. lia.
  - split; [done|]. intros H0. destruct Hb. intros i Hi. apply H0. lia.
Qed.

(** C20: Any sequence of bitmap operations within the map refines the same
    operations on a finite set of numbers: afterwards a bit is reported set
    exactly when it is in the set, nothing outside the words of the map has
    changed, and [bitmap_cmp] with any other map of the same size tells whether
    the two sets are equal, whatever the unused bits of the last words are. *)
Theorem my_bitmap_refines m map s cs :
  valid map -> byte_mem m -> holds m map s -> Forall (in_map map) cs ->
  exists m', exec_all m map cs = Some m' /\
    let s' := foldl (spec (n_bits map)) s cs in
    (forall i, 0 <= i < n_bits map -> bitmap_is_set m' map i = Some (bool_decide (i ∈ s'))) /\
    (forall i, n_bits map <= i -> bitmap_is_set m' map i = None) /\
    (forall x, ~ in_words map x -> m' x = m x) /\
    (forall map2 s2, valid map2 -> n_bits map2 = n_bits map -> holds m' map2 s2 ->
       (bitmap_cmp m' map map2 = true <-> s' = s2)).
Proof.
  intros Hv Hm Hs Hcs. destruct (exec_all_spec m map s cs) as (m'&E&[Hs' Hsub]&Hm'&Hf); [done..|].
  exists m'. split; [done|]. cbn zeta. split; [|split; [|split; [done|]]].
  - intros i Hi. rewrite is_set_spec by done. f_equal. auto.
  - intros i Hi. unfold bitmap_is_set. by rewrite (proj2 (Z.ltb_ge i _)).
  - intros map2 s2 Hv2 Hn2 [H2 Hsub2]. rewrite cmp_spec by done. rewrite Hn2 in *. split.
    + intros Heq. apply set_eq. intros i.
      assert (0 <= i < n_bits map \/ ~ 0 <= i < n_bits map) as [Hi|Hi] by lia.
      * specialize (Heq i Hi). rewrite Hs', H2 in Heq by done. by repeat case_bool_decide.
      * split; [intros ?%Hsub; done|intros ?%Hsub2; done].
    + intros <- i Hi. by rewrite Hs', H2.
Qed.

(** A map of 40 bits at address 96, all clear. *)
Definition sample_map : MY_BITMAP := mk 96 100 0xFFFFFF00 40.

Lemma sample_map_valid : valid sample_map.
Proof.
  constructor; [done|done| |done]. intros i Hi. cbn [last_word_mask n_bits sample_map].
  change 0xFFFFFF00 with (Z.shiftl (Z.ones 24) 8). rewrite Z.shiftl_spec, Z.testbit_ones by lia.
  change (32 * ((40 - 1) / 32) + i) with (32 + i).
  destruct (Z.leb_spec 0 (i - 8)), (Z.ltb_spec (i - 8) 24), (Z.leb_spec 40 (32 + i)); done || lia.
Qed.

Lemma my_bitmap_refines_witness :
  exists m', exec_all (fun _ => 0) sample_map [SetBit 3; SetAll; FlipBit 39] = Some m' /\
    bitmap_is_set m' sample_map 39 = Some false.
Proof.
  destruct (my_bitmap_refines (fun _ => 0) sample_map ∅ [SetBit 3; SetAll; FlipBit 39])
    as (m'&E&H&_).
  - exact sample_map_valid.
  - intros x. lia.
  - split; [|set_solver]. intros i Hi. unfold mapbit, mbit. by rewrite Z.testbit_0_l.
  - repeat constructor; simpl; lia.
  - exists m'. split; [exact E|]. rewrite H by (simpl; lia). by vm_compute.
Defined.

End MyBitmap.
