(* ===== verification/LexStream.v ===== *)
(** * The input stream of the lexer (class Lex_input_stream of private/sql_lex.h)

    The raw query text and the pre-processed copy of it lie in byte memory.
    Characters that the lexer accepts while the echo mode is on are copied;
    [marks] remembers for each accepted character whether it was, and the
    theorems show that the pre-processed buffer always holds exactly the marked
    characters.  Tokenizing itself is not in the header. *)

From Stdlib Require Import ZArith Lia.
From S2P Require Import Prelude Mem MyIsamPack.
From stdpp Require Import prelude list list_numbers.
Local Open Scope Z_scope.
Local Open Scope cint_scope.
Import MyIsamPack.

Module LexStream.

Record Lex_input_stream := mk {
  m_mem : mem;                       (* the memory both buffers lie in *)
  lookahead_token : Z;               (* int *)
  m_ptr : Z;
  m_tok_start : Z;
  m_tok_end : Z;
  m_end_of_query : Z;
  m_tok_start_prev : Z;
  m_buf : Z;
  m_buf_length : Z;
  m_echo : bool;
  m_echo_saved : bool;
  m_cpp_buf : Z;
  m_cpp_ptr : Z;
  m_cpp_tok_start : Z;
  m_cpp_tok_start_prev : Z;
  m_cpp_tok_end : Z;
  in_comment : Z;                    (* enum_comment_state *)
  in_comment_saved : Z
}.

Implicit Type s : Lex_input_stream.

(** The members that the stream operations assign. *)
Definition move s (m : mem) (p q : Z) : Lex_input_stream :=
  mk m (lookahead_token s) p (m_tok_start s) (m_tok_end s) (m_end_of_query s) (m_tok_start_prev s)
    (m_buf s) (m_buf_length s) (m_echo s) (m_echo_saved s) (m_cpp_buf s) q (m_cpp_tok_start s)
    (m_cpp_tok_start_prev s) (m_cpp_tok_end s) (in_comment s) (in_comment_saved s).

Definition set_modes s (echo saved : bool) (comment comment_saved : Z) : Lex_input_stream :=
  mk (m_mem s) (lookahead_token s) (m_ptr s) (m_tok_start s) (m_tok_end s) (m_end_of_query s)
    (m_tok_start_prev s) (m_buf s) (m_buf_length s) echo saved (m_cpp_buf s) (m_cpp_ptr s)
    (m_cpp_tok_start s) (m_cpp_tok_start_prev s) (m_cpp_tok_end s) comment comment_saved.

Definition set_tokens s (start_prev start end_ cpp_prev cpp_start cpp_end : Z) : Lex_input_stream :=
  mk (m_mem s) (lookahead_token s) (m_ptr s) start end_ (m_end_of_query s) start_prev
    (m_buf s) (m_buf_length s) (m_echo s) (m_echo_saved s) (m_cpp_buf s) (m_cpp_ptr s)
    cpp_start cpp_prev cpp_end (in_comment s) (in_comment_saved s).

Definition set_echo s (echo : bool) : Lex_input_stream :=
  set_modes s echo (m_echo_saved s) (in_comment s) (in_comment_saved s).
Definition save_in_comment_state s : Lex_input_stream :=
  set_modes s (m_echo s) (m_echo s) (in_comment s) (in_comment s).
Definition restore_in_comment_state s : Lex_input_stream :=
  set_modes s (m_echo_saved s) (m_echo_saved s) (in_comment_saved s) (in_comment_saved s).

Definition skip_binary s (n : Z) : Lex_input_stream :=
  let s := if m_echo s
           then move s (memcpy (m_mem s) (m_cpp_ptr s) (m_ptr s) n) (m_ptr s) (m_cpp_ptr s + n)
           else s in
  move s (m_mem s) (m_ptr s + n) (m_cpp_ptr s).

Definition yyGet s : Z * Lex_input_stream :=
  let c := m_mem s (m_ptr s) in
  let s := move s (m_mem s) (m_ptr s + 1) (m_cpp_ptr s) in
  let s := if m_echo s then move s (poke (m_mem s) (m_cpp_ptr s) c) (m_ptr s) (m_cpp_ptr s + 1)
           else s in
  (c, s).

Definition yyGetLast s : Z := m_mem s (m_ptr s - 1).
Definition yyPeek s : Z := m_mem s (m_ptr s + 0).
Definition yyPeekn s (n : Z) : Z := m_mem s (m_ptr s + n).

Definition yyUnget s : Lex_input_stream :=
  let s := move s (m_mem s) (m_ptr s - 1) (m_cpp_ptr s) in
  if m_echo s then move s (m_mem s) (m_ptr s) (m_cpp_ptr s - 1) else s.

Definition yySkip s : Lex_input_stream :=
  if m_echo s
  then move s (poke (m_mem s) (m_cpp_ptr s) (m_mem s (m_ptr s))) (m_ptr s + 1) (m_cpp_ptr s + 1)
  else move s (m_mem s) (m_ptr s + 1) (m_cpp_ptr s).

Definition yySkipn s (n : Z) : Lex_input_stream :=
  let s := if m_echo s
           then move s (memcpy (m_mem s) (m_cpp_ptr s) (m_ptr s) n) (m_ptr s) (m_cpp_ptr s + n)
           else s in
  move s (m_mem s) (m_ptr s + n) (m_cpp_ptr s).

Definition yyUnput s (ch : Z) : Lex_input_stream * Z :=
  let s := move s (poke (m_mem s) (m_ptr s - 1) ch) (m_ptr s - 1) (m_cpp_ptr s) in
  let s := if m_echo s then move s (m_mem s) (m_ptr s) (m_cpp_ptr s - 1) else s in
  (s, m_ptr s).

(** [eof(n)] and [eof()]. *)
Definition eof_n s (n : Z) : bool := m_end_of_query s <=? m_ptr s + n.
Definition eof s : bool := m_end_of_query s <=? m_ptr s.

Definition start_token s : Lex_input_stream :=
  set_tokens s (m_tok_start s) (m_ptr s) (m_ptr s) (m_cpp_tok_start s) (m_cpp_ptr s) (m_cpp_ptr s).
Definition restart_token s : Lex_input_stream :=
  set_tokens s (m_tok_start_prev s) (m_ptr s) (m_tok_end s) (m_cpp_tok_start_prev s) (m_cpp_ptr s)
    (m_cpp_tok_end s).
Definition set_cpp_tok_start s (pos : Z) : Lex_input_stream :=
  set_tokens s (m_tok_start_prev s) (m_tok_start s) (m_tok_end s) (m_cpp_tok_start_prev s) pos
    (m_cpp_tok_end s).

(** The assertion fails on an empty token. *)
Definition yyLength s : option Z :=
  if m_tok_start s <? m_ptr s then Some (u32 (m_ptr s - m_tok_start s - 1)) else None.

Definition has_lookahead s : bool := 0 <=? lookahead_token s.
Definition get_tok_start s : Z := if has_lookahead s then m_tok_start_prev s else m_tok_start s.
Definition get_cpp_tok_start s : Z :=
  if has_lookahead s then m_cpp_tok_start_prev s else m_cpp_tok_start s.
Definition get_tok_end s : Z := m_tok_end s.
Definition get_cpp_tok_end s : Z := m_cpp_tok_end s.
Definition get_ptr s : Z := m_ptr s.
Definition get_cpp_ptr s : Z := m_cpp_ptr s.
Definition get_buf s : Z := m_buf s.
Definition get_cpp_buf s : Z := m_cpp_buf s.
Definition get_end_of_query s : Z := m_end_of_query s.

Section trim.
(** [my_isspace] of the system character set. *)
Context (my_isspace : Z -> bool).

(** The loop of both functions, from [p]. *)
Fixpoint rtrim (fuel : nat) s (p : Z) : option Z :=
  match fuel with
  | O => None
  | S f => if (m_cpp_buf s <? p) && my_isspace (m_mem s (p - 1)) then rtrim f s (p - 1) else Some p
  end.
Definition get_cpp_tok_end_rtrim (fuel : nat) s : option Z := rtrim fuel s (m_cpp_tok_end s).
Definition get_cpp_ptr_rtrim (fuel : nat) s : option Z := rtrim fuel s (m_cpp_ptr s).

(** Trimming ends after at most one step per character, at the start of the
    buffer or behind the last character that is not a space. *)
Theorem rtrim_spec s p :
  m_cpp_buf s <= p ->
  exists q, rtrim (S (Z.to_nat (p - m_cpp_buf s))) s p = Some q /\ m_cpp_buf s <= q <= p /\
    (forall x, q <= x < p -> my_isspace (m_mem s x) = true) /\
    (q = m_cpp_buf s \/ my_isspace (m_mem s (q - 1)) = false).
Proof.
  intros Hp. remember (Z.to_nat (p - m_cpp_buf s)) as n eqn:En. revert p Hp En.
  induction n as [|n IH]; intros p Hp En; cbn [rtrim].
  - assert (p = m_cpp_buf s) as -> by lia. rewrite Z.ltb_irrefl. cbn.
    exists (m_cpp_buf s). split; [done|]. split; [lia|]. split; [lia|by left].
  - destruct (Z.ltb_spec (m_cpp_buf s) p) as [Hlt|]; [|lia]. cbn [andb].
    destruct (my_isspace (m_mem s (p - 1))) eqn:Esp.
    + destruct (IH (p - 1)) as (q&E&Hq&Hs&Ht); [lia|lia|]. exists q. split; [exact E|].
      split; [lia|]. split; [|done]. intros x Hx. destruct (decide (x = p - 1)) as [->|]; [done|].
      apply Hs. lia.
    + exists p. split; [done|]. split; [lia|]. split; [lia|by right].
Qed.
End trim.

(** ** What the pre-processed buffer holds *)

(** The characters whose mark is set. *)
Definition pick (marks : list bool) (text : list Z) : list Z :=
  snd <$> filter (fun x => fst x = true) (zip marks text).

Lemma pick_app b1 b2 l1 l2 :
  length b1 = length l1 -> pick (b1 ++ b2) (l1 ++ l2) = pick b1 l1 ++ pick b2 l2.
Proof. intros H. unfold pick. by rewrite zip_with_app, filter_app, fmap_app. Qed.

Lemma pick_replicate (b : bool) l : pick (replicate (length l) b) l = if b then l else [].
Proof.
  unfold pick. induction l as [|x l IH]; cbn [length replicate zip_with]; [by destruct b|].
  destruct b.
  - rewrite filter_cons_True by done. rewrite fmap_cons, IH. done.
  - rewrite filter_cons_False by done. exact IH.
Qed.

Lemma pick_one (b : bool) x : pick [b] [x] = if b then [x] else [].
Proof. exact (pick_replicate b [x]). Qed.

Lemma pick_length marks text : (length (pick marks text) <= length marks)%nat.
Proof.
  unfold pick. rewrite length_fmap. etransitivity; [apply length_filter|].
  rewrite length_zip_with. lia.
Qed.

(** The number of bytes of each buffer: the query and its terminator. *)
Definition cap s : Z := m_buf_length s + 1.

(** [marks] tells which of the accepted characters were echoed. *)
Record rel s (marks : list bool) : Prop := {
  rel_apart : m_buf s + cap s <= m_cpp_buf s \/ m_cpp_buf s + cap s <= m_buf s;
  rel_end : m_end_of_query s = m_buf s + m_buf_length s;
  rel_ptr : m_ptr s = m_buf s + Z.of_nat (length marks);
  rel_room : Z.of_nat (length marks) <= cap s;
  rel_cpp : m_cpp_ptr s =
    m_cpp_buf s + Z.of_nat (length (pick marks (bytes (m_mem s) (m_buf s) (Z.of_nat (length marks)))));
  rel_text : bytes (m_mem s) (m_cpp_buf s) (m_cpp_ptr s - m_cpp_buf s) =
    pick marks (bytes (m_mem s) (m_buf s) (Z.of_nat (length marks)))
}.

Inductive cmd :=
| CPeek | CPeekn (n : Z) | CGetLast
| CGet | CSkip | CSkipn (n : Z) | CSkipBinary (n : Z) | CUnget | CUnput (ch : Z)
| CEcho (b : bool) | CSave | CRestore | CStart | CRestart.

(** A command with what it returns, if anything: a character, or for [yyUnput]
    the position of the character put back. *)
Definition exec s (c : cmd) : option Z * Lex_input_stream :=
  match c with
  | CPeek => (Some (yyPeek s), s)
  | CPeekn n => (Some (yyPeekn s n), s)
  | CGetLast => (Some (yyGetLast s), s)
  | CGet => let '(ch, s) := yyGet s in (Some ch, s)
  | CSkip => (None, yySkip s)
  | CSkipn n => (None, yySkipn s n)
  | CSkipBinary n => (None, skip_binary s n)
  | CUnget => (None, yyUnget s)
  | CUnput ch => let '(s, p) := yyUnput s ch in (Some (p - m_buf s), s)
  | CEcho b => (None, set_echo s b)
  | CSave => (None, save_in_comment_state s)
  | CRestore => (None, restore_in_comment_state s)
  | CStart => (None, start_token s)
  | CRestart => (None, restart_token s)
  end.

(** How the marks follow, in the echo mode of the stream. *)
Definition amarks (echo : bool) (marks : list bool) (c : cmd) : list bool :=
  match c with
  | CGet | CSkip => marks ++ [echo]
  | CSkipn n | CSkipBinary n => marks ++ replicate (Z.to_nat n) echo
  | CUnget | CUnput _ => take (length marks - 1) marks
  | _ => marks
  end.

(** What the comments ask of the caller: not to look outside the text and its
    terminator, and to put a character back in the echo mode in which it was
    taken. *)
Definition allowed s (marks : list bool) (c : cmd) : Prop :=
  match c with
  | CPeek | CGet | CSkip => Z.of_nat (length marks) < cap s
  | CPeekn n => 0 <= Z.of_nat (length marks) + n < cap s
  | CGetLast => 0 < Z.of_nat (length marks)
  | CSkipn n | CSkipBinary n => 0 <= n /\ Z.of_nat (length marks) + n <= cap s
  | CUnget | CUnput _ => exists marks', marks = marks' ++ [m_echo s]
  | _ => True
  end.

(** Accepting [n] characters at once. *)
Lemma accept_rel s marks n :
  rel s marks -> 0 <= n -> Z.of_nat (length marks) + n <= cap s ->
  let m' := if m_echo s then memcpy (m_mem s) (m_cpp_ptr s) (m_ptr s) n else m_mem s in
  let q := if m_echo s then m_cpp_ptr s + n else m_cpp_ptr s in
  rel (move s m' (m_ptr s + n) q) (marks ++ replicate (Z.to_nat n) (m_echo s)) /\
  (forall x, x < m_cpp_buf s \/ m_cpp_buf s + cap s <= x -> m' x = m_mem s x).
Proof.
  intros [Ha He Hp Hr Hc Ht] Hn Hroom m' q.
  set (k := Z.of_nat (length marks)) in *. set (txt := bytes (m_mem s) (m_buf s) k) in *.
  pose proof (pick_length marks txt) as Hlen.
  set (e := Z.of_nat (length (pick marks txt))) in *.
  assert (0 <= e <= k) as Hek by lia.
  assert (forall x, x < m_cpp_buf s \/ m_cpp_buf s + cap s <= x -> m' x = m_mem s x) as Hframe.
  { intros x Hx. unfold m'. destruct (m_echo s); [|done]. apply (memcpy_frame _ _ _ _ x 1); lia. }
  assert (bytes m' (m_buf s) (k + n) = txt ++ bytes (m_mem s) (m_ptr s) n) as Hraw.
  { rewrite (bytes_agree m' (m_mem s)) by (intros x Hx; apply Hframe; lia).
    rewrite bytes_app by lia. by rewrite Hp. }
  assert (length txt = length marks) as Hltxt by (unfold txt; rewrite bytes_length; lia).
  assert (Z.of_nat (length (marks ++ replicate (Z.to_nat n) (m_echo s))) = k + n) as Hlen'.
  { rewrite length_app, length_replicate. lia. }
  assert (pick (marks ++ replicate (Z.to_nat n) (m_echo s)) (txt ++ bytes (m_mem s) (m_ptr s) n) =
    pick marks txt ++ if m_echo s then bytes (m_mem s) (m_ptr s) n else []) as Hpick.
  { rewrite pick_app by done. f_equal. rewrite <- (bytes_length (m_mem s) (m_ptr s) n). apply pick_replicate. }
  assert (bytes m' (m_cpp_buf s) e = pick marks txt) as Hold.
  { rewrite <- Ht, Hc. replace (m_cpp_buf s + e - m_cpp_buf s) with e by lia.
    apply bytes_agree. unfold m'. destruct (m_echo s); [|done]. apply memcpy_frame. lia. }
  split; [|done]. constructor; cbn [m_buf m_cpp_buf m_buf_length m_end_of_query m_ptr m_mem m_cpp_ptr move];
    try rewrite Hlen'; unfold cap in *; cbn [m_buf_length move] in *; try done; try lia.
  - rewrite Hraw, Hpick, length_app. unfold q. destruct (m_echo s); rewrite ?bytes_length; cbn [length]; lia.
  - rewrite Hraw, Hpick. unfold q, m' in *. destruct (m_echo s).
    + replace (m_cpp_ptr s + n - m_cpp_buf s) with (e + n) by lia. rewrite bytes_app by lia.
      rewrite Hold. f_equal. replace (m_cpp_buf s + e) with (m_cpp_ptr s) by lia. apply memcpy_dst. lia.
    + rewrite app_nil_r. by replace (m_cpp_ptr s - m_cpp_buf s) with e by lia.
Qed.

(** Putting the last character back, as [ch]. *)
Lemma putback_rel s marks ch :
  rel s (marks ++ [m_echo s]) ->
  let q := if m_echo s then m_cpp_ptr s - 1 else m_cpp_ptr s in
  rel (move s (poke (m_mem s) (m_ptr s - 1) ch) (m_ptr s - 1) q) marks.
Proof.
  intros [Ha He Hp Hr Hc Ht] q. rewrite length_app in *. cbn [length] in *.
  set (k := Z.of_nat (length marks)) in *.
  assert (Z.of_nat (length marks + 1) = k + 1) as Hk by lia. rewrite Hk in *.
  rewrite bytes_app, bytes_one in Hc, Ht by lia. set (txt := bytes (m_mem s) (m_buf s) k) in *.
  assert (length marks = length txt) as Hltxt by (unfold txt; rewrite bytes_length; lia).
  rewrite pick_app, pick_one in Hc, Ht by done. pose proof (pick_length marks txt) as Hlen.
  set (e := Z.of_nat (length (pick marks txt))) in *.
  assert (m_cpp_ptr s = m_cpp_buf s + e + (if m_echo s then 1 else 0)) as Hq.
  { rewrite Hc, length_app. destruct (m_echo s); cbn [length]; lia. }
  assert (bytes (poke (m_mem s) (m_ptr s - 1) ch) (m_buf s) k = txt) as Hraw.
  { apply bytes_agree. intros x Hx. apply poke_ne. lia. }
  assert (bytes (poke (m_mem s) (m_ptr s - 1) ch) (m_cpp_buf s) e = bytes (m_mem s) (m_cpp_buf s) e) as Hcpp.
  { apply bytes_agree. intros x Hx. apply poke_ne. unfold cap in *. lia. }
  constructor; cbn [m_buf m_cpp_buf m_buf_length m_end_of_query m_ptr m_mem m_cpp_ptr move];
    fold k; rewrite ?Hraw; unfold cap in *; cbn [m_buf_length move] in *; try done; try lia.
  - unfold q. destruct (m_echo s); lia.
  - replace (q - m_cpp_buf s) with e by (unfold q; destruct (m_echo s); lia). rewrite Hcpp.
    assert (m_cpp_ptr s - m_cpp_buf s = e + (if m_echo s then 1 else 0)) as El by lia.
    rewrite El, bytes_app in Ht by (destruct (m_echo s); lia).
    apply app_inj_1 in Ht as [Ht _]; [done|]. rewrite bytes_length. lia.
Qed.

Lemma rel_ext s m m' p q marks :
  rel (move s m p q) marks -> (forall x, m x = m' x) -> rel (move s m' p q) marks.
Proof.
  intros [Ha He Hp Hr Hc Ht] Hm. assert (forall a n, bytes m' a n = bytes m a n) as Hb.
  { intros a n. apply bytes_agree. intros x _. by rewrite Hm. }
  constructor; cbn [m_buf m_cpp_buf m_buf_length m_end_of_query m_ptr m_mem m_cpp_ptr move] in *;
    rewrite ?Hb; done.
Qed.

(** Operations that leave both pointers alone. *)
Definition same_stream s s' : Prop :=
  m_mem s' = m_mem s /\ m_ptr s' = m_ptr s /\ m_cpp_ptr s' = m_cpp_ptr s.
Definition same_buffers s s' : Prop :=
  m_buf s' = m_buf s /\ m_buf_length s' = m_buf_length s /\ m_cpp_buf s' = m_cpp_buf s /\
  m_end_of_query s' = m_end_of_query s.

Lemma rel_same s s' marks : same_stream s s' -> same_buffers s s' -> rel s marks -> rel s' marks.
Proof.
  intros (E1&E2&E3) (F1&F2&F3&F4) [Ha He Hp Hr Hc Ht].
  constructor; unfold cap in *; rewrite ?E1, ?E2, ?E3, ?F1, ?F2, ?F3, ?F4; done.
Qed.

(** The bytes a command may change: those of the pre-processed buffer, and the
    character put back. *)
Definition may_write s (c : cmd) (x : Z) : Prop :=
  (m_cpp_buf s <= x < m_cpp_buf s + cap s) \/ (exists ch, c = CUnput ch /\ x = m_ptr s - 1).

Lemma exec_rel s marks c :
  rel s marks -> allowed s marks c ->
  rel (snd (exec s c)) (amarks (m_echo s) marks c) /\ same_buffers s (snd (exec s c)) /\
  (forall x, ~ may_write s c x -> m_mem (snd (exec s c)) x = m_mem s x).
Proof.
  intros Hr Hc.
  assert (forall n m', 0 <= n -> Z.of_nat (length marks) + n <= cap s ->
    (forall x, m' x = (if m_echo s then memcpy (m_mem s) (m_cpp_ptr s) (m_ptr s) n else m_mem s) x) ->
    rel (move s m' (m_ptr s + n) (if m_echo s then m_cpp_ptr s + n else m_cpp_ptr s))
      (marks ++ replicate (Z.to_nat n) (m_echo s)) /\
    forall x, ~ may_write s c x -> m' x = m_mem s x) as Hacc.
  { intros n m' Hn Hroom Hm. destruct (accept_rel s marks n Hr Hn Hroom) as [H1 H2]. split.
    - eapply rel_ext; [exact H1|]. done.
    - intros x Hx. rewrite Hm. apply H2. unfold may_write in Hx. lia. }
  assert (forall x, poke (m_mem s) (m_cpp_ptr s) (m_mem s (m_ptr s)) x =
    memcpy (m_mem s) (m_cpp_ptr s) (m_ptr s) 1 x) as Hpoke.
  { intros x. unfold poke, memcpy. zcases; simpl; try lia; try done. f_equal. lia. }
  assert (forall ch, (exists marks', marks = marks' ++ [m_echo s]) ->
    rel (move s (poke (m_mem s) (m_ptr s - 1) ch) (m_ptr s - 1)
      (if m_echo s then m_cpp_ptr s - 1 else m_cpp_ptr s)) (take (length marks - 1) marks)) as Hput.
  { intros ch [marks' ->]. rewrite length_app. cbn [length]. rewrite Nat.add_sub, take_app_length.
    by apply putback_rel. }
  destruct c; cbn [exec amarks allowed fst snd] in *;
    try (split; [by apply (rel_same s)|done]).
  - destruct (Hacc 1 (m_mem (yySkip s))) as [H1 H2]; [lia|lia| |].
    { intros x. unfold yySkip. destruct (m_echo s); [apply Hpoke|done]. }
    unfold yyGet, yySkip in *. cbn [m_echo m_mem m_ptr m_cpp_ptr move] in *.
    destruct (m_echo s) eqn:Ee; cbn [m_mem m_ptr m_cpp_ptr move] in *;
      (split; [exact H1|]; split; [done|]; exact H2).
  - destruct (Hacc 1 (m_mem (yySkip s))) as [H1 H2]; [lia|lia| |].
    { intros x. unfold yySkip. destruct (m_echo s); [apply Hpoke|done]. }
    unfold yySkip in *. destruct (m_echo s); (split; [exact H1|split; [done|exact H2]]).
  - destruct Hc as [Hn Hc]. destruct (Hacc n (m_mem (yySkipn s n))) as [H1 H2]; [done|done| |].
    { intros x. unfold yySkipn. by destruct (m_echo s). }
    unfold yySkipn in *. destruct (m_echo s); (split; [exact H1|split; [done|exact H2]]).
  - destruct Hc as [Hn Hc]. destruct (Hacc n (m_mem (skip_binary s n))) as [H1 H2]; [done|done| |].
    { intros x. unfold skip_binary. by destruct (m_echo s). }
    unfold skip_binary in *. destruct (m_echo s); (split; [exact H1|split; [done|exact H2]]).
  - pose proof (Hput (m_mem s (m_ptr s - 1)) Hc) as H. unfold yyUnget. cbn [m_echo move].
    assert (forall x, poke (m_mem s) (m_ptr s - 1) (m_mem s (m_ptr s - 1)) x = m_mem s x) as Hid.
    { intros x. unfold poke. by destruct (Z.eqb_spec x (m_ptr s - 1)) as [->|]. }
    destruct (m_echo s); (split; [|by repeat split]); eapply rel_ext in H; try exact Hid; exact H.
  - pose proof (Hput ch Hc) as H. unfold yyUnput. cbn [m_echo move].
    destruct (m_echo s); cbn [snd]; (split; [exact H|]); (split; [done|]);
      intros x Hx; cbn; apply poke_ne; intros ->; apply Hx; right; by eexists.
Qed.

(** ** The abstract stream

    The text with its terminator, for each accepted character whether it was
    echoed, and the echo modes.  A character put back replaces the one taken. *)

Record astream := mk_a { a_text : list Z; a_marks : list bool; a_echo : bool; a_saved : bool }.

Definition a_pos (a : astream) : Z := Z.of_nat (length (a_marks a)).
Definition a_char (a : astream) (i : Z) : option Z := a_text a !! Z.to_nat i.

(** The characters echoed so far. *)
Definition a_echoed (a : astream) : list Z := pick (a_marks a) (take (length (a_marks a)) (a_text a)).

Definition a_accept (a : astream) (n : Z) : astream :=
  mk_a (a_text a) (a_marks a ++ replicate (Z.to_nat n) (a_echo a)) (a_echo a) (a_saved a).
Definition a_back (a : astream) (text : list Z) : astream :=
  mk_a text (take (length (a_marks a) - 1) (a_marks a)) (a_echo a) (a_saved a).

Definition aexec (a : astream) (c : cmd) : option Z * astream :=
  match c with
  | CPeek => (a_char a (a_pos a), a)
  | CPeekn n => (a_char a (a_pos a + n), a)
  | CGetLast => (a_char a (a_pos a - 1), a)
  | CGet => (a_char a (a_pos a), a_accept a 1)
  | CSkip => (None, a_accept a 1)
  | CSkipn n | CSkipBinary n => (None, a_accept a n)
  | CUnget => (None, a_back a (a_text a))
  | CUnput ch => (Some (a_pos a - 1), a_back a (<[length (a_marks a) - 1 := ch]> (a_text a))%nat)
  | CEcho b => (None, mk_a (a_text a) (a_marks a) b (a_saved a))
  | CSave => (None, mk_a (a_text a) (a_marks a) (a_echo a) (a_echo a))
  | CRestore => (None, mk_a (a_text a) (a_marks a) (a_saved a) (a_saved a))
  | CStart | CRestart => (None, a)
  end.

(** The commands a caller may issue. *)
Definition aallowed (a : astream) (c : cmd) : Prop :=
  let n := Z.of_nat (length (a_text a)) in
  match c with
  | CPeek | CGet | CSkip => a_pos a < n
  | CPeekn k => 0 <= a_pos a + k < n
  | CGetLast => 0 < a_pos a
  | CSkipn k | CSkipBinary k => 0 <= k /\ a_pos a + k <= n
  | CUnget | CUnput _ => exists marks, a_marks a = marks ++ [a_echo a]
  | _ => True
  end.

Record arel s (a : astream) : Prop := {
  arel_rel : rel s (a_marks a);
  arel_text : bytes (m_mem s) (m_buf s) (cap s) = a_text a;
  arel_cap : 0 < cap s;
  arel_echo : m_echo s = a_echo a;
  arel_saved : m_echo_saved s = a_saved a
}.

Lemma arel_length s a : arel s a -> Z.of_nat (length (a_text a)) = cap s.
Proof. intros [_ <- ? _ _]. rewrite bytes_length. lia. Qed.

Lemma bytes_lookup m a n i : 0 <= i < n -> bytes m a n !! Z.to_nat i = Some (m (a + i)).
Proof.
  intros Hi. replace n with (i + (1 + (n - i - 1))) by lia. rewrite !bytes_app by lia.
  rewrite lookup_app_r by (rewrite bytes_length; lia). rewrite bytes_length, Nat.sub_diag.
  by rewrite bytes_one.
Qed.

(** A look into the text. *)
Lemma arel_char s a i : arel s a -> 0 <= i < cap s -> a_char a i = Some (m_mem s (m_buf s + i)).
Proof. intros [_ Ht _ _ _] Hi. unfold a_char. rewrite <- Ht. by apply bytes_lookup. Qed.

Lemma arel_allowed s a c : arel s a -> aallowed a c -> allowed s (a_marks a) c.
Proof.
  intros Ha. pose proof (arel_length s a Ha) as Hl. unfold aallowed, a_pos. rewrite Hl.
  destruct c; cbn; rewrite ?(arel_echo s a Ha); done.
Qed.

Lemma amarks_aexec s a c : arel s a -> a_marks (aexec a c).2 = amarks (m_echo s) (a_marks a) c.
Proof. intros Ha. rewrite (arel_echo s a Ha). by destruct c. Qed.

(** The raw buffer after a command that puts nothing back. *)
Lemma exec_text s a c :
  arel s a -> aallowed a c ->
  bytes (m_mem (exec s c).2) (m_buf s) (cap s) = a_text (aexec a c).2.
Proof.
  intros Ha Hc. pose proof (arel_allowed s a c Ha Hc) as Hal.
  destruct (exec_rel s (a_marks a) c (arel_rel s a Ha) Hal) as (_ & _ & Hfr).
  destruct Ha as [[Hap He Hp Hr _ _] Ht Hcap Eecho _].
  assert ((forall ch, c <> CUnput ch) ->
    bytes (m_mem (exec s c).2) (m_buf s) (cap s) = a_text a) as Hkeep.
  { intros Hne. rewrite <- Ht. apply bytes_agree. intros x Hx. apply Hfr. unfold may_write.
    intros [|(ch & -> & _)]; [lia|by apply (Hne ch)]. }
  destruct c; try (by apply Hkeep).
  cbn in Hc. destruct Hc as [marks Em]. rewrite Em, length_app in Hp, Hr. cbn [length] in Hp, Hr.
  cbn [exec aexec a_back a_text snd]. rewrite <- Ht, Em, length_app, Nat.add_sub.
  assert (m_mem (let '(s0, p) := yyUnput s ch in (Some (p - m_buf s0), s0)).2 =
    poke (m_mem s) (m_ptr s - 1) ch) as -> by (unfold yyUnput; cbn; by destruct (m_echo s)).
  apply list_eq. intros j. destruct (decide (j < Z.to_nat (cap s)))%nat as [Hj|Hj].
  - rewrite <- (Nat2Z.id j). rewrite bytes_lookup by lia.
    destruct (decide (j = length marks)) as [->|Hne].
    + rewrite Nat2Z.id, list_lookup_insert_eq by (rewrite bytes_length; lia).
      replace (m_ptr s - 1) with (m_buf s + Z.of_nat (length marks)) by lia. unfold poke. by rewrite Z.eqb_refl.
    + rewrite list_lookup_insert_ne by lia. rewrite bytes_lookup by lia.
      by rewrite poke_ne by lia.
  - rewrite !lookup_ge_None_2; [done|rewrite length_insert, bytes_length; lia|rewrite bytes_length; lia].
Qed.

(** What a command returns. *)
Lemma exec_returns s a c : arel s a -> aallowed a c -> (exec s c).1 = (aexec a c).1.
Proof.
  intros Ha Hc. pose proof (arel_allowed s a c Ha Hc) as Hal.
  pose proof (rel_ptr _ _ (arel_rel s a Ha)) as Hp. pose proof (rel_room _ _ (arel_rel s a Ha)) as Hroom.
  assert (forall i, 0 <= a_pos a + i < cap s -> a_char a (a_pos a + i) = Some (m_mem s (m_ptr s + i))) as Hch.
  { intros i Hi. rewrite (arel_char s a) by done. do 2 f_equal. unfold a_pos. lia. }
  unfold allowed in Hal. fold (a_pos a) in Hal, Hp, Hroom.
  assert (0 <= a_pos a) by (unfold a_pos; lia).
  destruct c; cbn [exec aexec fst]; try done.
  - rewrite <- (Z.add_0_r (a_pos a)), Hch by lia. done.
  - by rewrite Hch by lia.
  - rewrite <- Z.add_opp_r, Hch by lia. done.
  - rewrite <- (Z.add_0_r (a_pos a)), Hch by lia. unfold yyGet. by rewrite Z.add_0_r.
  - unfold yyUnput. cbn. destruct (m_echo s); cbn; f_equal; lia.
Qed.

Lemma exec_echo s a c : arel s a ->
  m_echo (exec s c).2 = a_echo (aexec a c).2 /\ m_echo_saved (exec s c).2 = a_saved (aexec a c).2.
Proof.
  intros [_ _ _ E1 E2].
  destruct c; cbn; unfold yyGet, yySkip, yySkipn, skip_binary, yyUnget, yyUnput; cbn;
    destruct (m_echo s) eqn:Ee; cbn; rewrite ?Ee; split; congruence.
Qed.

Lemma lex_exec_refines s a c :
  arel s a -> aallowed a c ->
  (exec s c).1 = (aexec a c).1 /\ arel (exec s c).2 (aexec a c).2 /\ same_buffers s (exec s c).2 /\
  (forall x, ~ may_write s c x -> m_mem (exec s c).2 x = m_mem s x).
Proof.
  intros Ha Hc. split; [by apply exec_returns|].
  destruct (exec_rel s (a_marks a) c (arel_rel s a Ha) (arel_allowed s a c Ha Hc)) as (H1&H2&H3).
  split; [|done]. pose proof (exec_text s a c Ha Hc) as Ht. pose proof (exec_echo s a c Ha) as [E1 E2].
  destruct H2 as (B1&B2&B3&B4). split.
  - by rewrite (amarks_aexec s a c Ha).
  - unfold cap in *. by rewrite B1, B2.
  - unfold cap. rewrite B2. apply Ha.
  - done.
  - done.
Qed.

(** ** Sequences of commands *)

Fixpoint run s (cs : list cmd) : list (option Z) * Lex_input_stream :=
  match cs with
  | [] => ([], s)
  | c :: cs => let '(o, s) := exec s c in let '(os, s) := run s cs in (o :: os, s)
  end.

Fixpoint arun (a : astream) (cs : list cmd) : list (option Z) * astream :=
  match cs with
  | [] => ([], a)
  | c :: cs => let '(o, a) := aexec a c in let '(os, a) := arun a cs in (o :: os, a)
  end.

Fixpoint all_allowed (a : astream) (cs : list cmd) : Prop :=
  match cs with
  | [] => True
  | c :: cs => aallowed a c /\ all_allowed (aexec a c).2 cs
  end.

(** The bytes of the two buffers. *)
Definition in_buffers s (x : Z) : Prop :=
  m_buf s <= x < m_buf s + cap s \/ m_cpp_buf s <= x < m_cpp_buf s + cap s.

Lemma lex_run_refines cs : forall s a,
  arel s a -> all_allowed a cs ->
  (run s cs).1 = (arun a cs).1 /\ arel (run s cs).2 (arun a cs).2 /\ same_buffers s (run s cs).2 /\
  (forall x, ~ in_buffers s x -> m_mem (run s cs).2 x = m_mem s x).
Proof.
  induction cs as [|c cs IH]; intros s a Ha Hal; cbn [run arun]; [done|].
  destruct Hal as [Hc Hal]. destruct (lex_exec_refines s a c Ha Hc) as (H1&H2&H3&H4).
  pose proof (rel_ptr _ _ (arel_rel s a Ha)) as Hp. pose proof (rel_room _ _ (arel_rel s a Ha)) as Hroom.
  assert (forall x, may_write s c x -> in_buffers s x) as Hin.
  { intros x [|(ch & -> & ->)]; [by right|left]. destruct Hc as [marks Em].
    rewrite Em, length_app in *. cbn [length] in *. lia. }
  destruct (exec s c) as [o s1], (aexec a c) as [ao a1]. cbn [fst snd] in *.
  destruct (IH s1 a1 H2 Hal) as (R1&R2&R3&R4).
  destruct (run s1 cs) as [os s2], (arun a1 cs) as [aos a2]. cbn [fst snd] in *. subst.
  destruct H3 as (B1&B2&B3&B4), R3 as (C1&C2&C3&C4).
  split; [done|]. split; [done|]. split; [repeat split; congruence|].
  intros x Hx. rewrite R4, H4; [done|auto|].
  unfold in_buffers, cap in *. by rewrite B1, B2, B3.
Qed.

Definition keeps_text (c : cmd) : Prop := match c with CUnput _ => False | _ => True end.

Lemma arun_text cs : forall a, Forall keeps_text cs -> a_text (arun a cs).2 = a_text a.
Proof.
  induction cs as [|c cs IH]; intros a Hk; cbn [arun]; [done|]. apply Forall_cons in Hk as [Hkc Hk].
  assert (a_text (aexec a c).2 = a_text a) as E by (by destruct c).
  destruct (aexec a c) as [o a1]. specialize (IH a1 Hk). destruct (arun a1 cs). cbn in *. congruence.
Qed.

(** C12: Whatever characters are looked at, accepted, skipped, taken back or put
    back, with the echo mode switched, saved and restored in between, as long as
    the caller stays inside the text and takes a character back in the mode in
    which it was accepted: every command returns what the abstract stream
    returns, so that reads and looks give the characters of the text; the
    pre-processed buffer holds exactly the characters accepted with echo on, in
    order, and neither pointer leaves its buffer; the raw buffer holds the text,
    changed only where a character was put back; no other memory changes. *)
Theorem lex_stream_refines s a cs :
  arel s a -> all_allowed a cs ->
  let s' := (run s cs).2 in
  let a' := (arun a cs).2 in
  (run s cs).1 = (arun a cs).1 /\
  bytes (m_mem s') (m_cpp_buf s) (m_cpp_ptr s' - m_cpp_buf s) = a_echoed a' /\
  bytes (m_mem s') (m_buf s) (cap s) = a_text a' /\
  (Forall keeps_text cs -> a_text a' = a_text a) /\
  m_cpp_buf s <= m_cpp_ptr s' <= m_cpp_buf s + cap s /\
  m_ptr s' = m_buf s + a_pos a' /\ m_ptr s' <= m_buf s + cap s /\
  m_echo s' = a_echo a' /\
  (forall x, ~ in_buffers s x -> m_mem s' x = m_mem s x).
Proof.
  intros Ha Hal s' a'. destruct (lex_run_refines cs s a Ha Hal) as (R1&R2&(B1&B2&B3&B4)&R4).
  fold s' a' in R1, R2, B1, B2, B3, B4, R4. destruct R2 as [[_ _ Hp Hrm Hc Ht] Hx Hcap He _].
  unfold cap in *. rewrite B1, ?B2, ?B3 in *.
  assert (bytes (m_mem s') (m_buf s) (Z.of_nat (length (a_marks a'))) =
    take (length (a_marks a')) (a_text a')) as Epre.
  { rewrite <- Hx. replace (m_buf_length s + 1) with
      (Z.of_nat (length (a_marks a')) + (m_buf_length s + 1 - Z.of_nat (length (a_marks a')))) by lia.
    rewrite bytes_app, take_app_length' by (rewrite ?bytes_length; lia). done. }
  rewrite Epre in Hc, Ht. fold (a_echoed a') in Hc, Ht.
  pose proof (pick_length (a_marks a') (take (length (a_marks a')) (a_text a'))) as Hl. fold (a_echoed a') in Hl.
  split; [done|]. split; [done|]. split; [done|]. split; [apply arun_text|].
  unfold a_pos. split; [lia|]. split; [done|]. split; [lia|]. done.
Qed.

(** The comment on [eof(n)] says that it tells whether fewer than [n]
    characters are left; the code also answers yes when exactly [n] are left. *)
Theorem eof_n_counts_one_early s n :
  let left := m_end_of_query s - m_ptr s in
  (eof_n s n = true <-> left <= n) /\ (left = n -> eof_n s n = true) /\
  (eof s = true <-> left <= 0).
Proof. unfold eof_n, eof. cbn zeta. rewrite !Z.leb_le. lia. Qed.

(** ** Witnesses *)

(** The query "ab", its buffer at 100, the copy at 200. *)
Definition query : list Z := [97; 98; 0].
Definition stream0 : Lex_input_stream :=
  mk (write_bytes (fun _ => 0) 100 query) (-1) 100 100 100 102 100 100 2 true true 200 200 200 200 200 0 0.

Definition stream0_abs : astream := mk_a query [] true true.

Lemma stream0_rel : arel stream0 stream0_abs.
Proof.
  split; [|reflexivity|reflexivity|reflexivity|reflexivity].
  constructor; unfold cap; cbn; try lia; reflexivity.
Qed.

(** The first character is taken back; "x" is put in its place without echo and
    read again; the second is skipped with echo; then the terminator is read. *)
Definition sample_cmds : list cmd :=
  [CStart; CPeekn 1; CGet; CGetLast; CUnget; CEcho false; CGet; CUnput 120; CPeek; CGet; CSave; CEcho true;
   CSkip; CRestore; CGet].

Lemma lex_stream_refines_witness :
  all_allowed stream0_abs sample_cmds /\
  let s' := (run stream0 sample_cmds).2 in
  (run stream0 sample_cmds).1 =
    [None; Some 98; Some 97; Some 97; None; None; Some 97; Some 0; Some 120; Some 120; None; None; None;
     None; Some 0] /\
  bytes (m_mem s') 200 (m_cpp_ptr s' - 200) = [98].
Proof.
  assert (all_allowed stream0_abs sample_cmds) as Hal.
  { vm_compute. repeat split; try done; by exists []. }
  split; [exact Hal|]. cbn zeta.
  destruct (lex_stream_refines stream0 stream0_abs sample_cmds stream0_rel Hal) as (H1&H2&_).
  split; [refine (eq_trans H1 _); vm_compute; reflexivity|].
  refine (eq_trans H2 _). vm_compute. reflexivity.
Defined.
End LexStream.
