(* ===== verification/Xid.v ===== *)
(** * Transaction identifiers (struct xid_t of private/handler.h)

    An XID has a format, the lengths of its two parts and their bytes; the
    server's own transactions are encoded in it as a prefix, the server id and
    a number.  [long] and [ulong] have 32 bits on this platform.  Copies that
    would leave the 128 bytes of [data] or read behind a source have no
    result. *)

From Stdlib Require Import ZArith Lia.
From S2P Require Import Prelude Mem MyIsamPack ByteOrder.
From stdpp Require Import prelude list.
Local Open Scope Z_scope.
Local Open Scope cint_scope.
Import MyIsamPack ByteOrder.

Module Xid.

Definition sizeof_long : Z := 4.
Definition sizeof_server_id : Z := 4.
Definition sizeof_my_xid : Z := 8.

(** "MySQLXid" *)
Definition MYSQL_XID_PREFIX : list Z := [77; 121; 83; 81; 76; 88; 105; 100].
Definition MYSQL_XID_PREFIX_LEN : Z := 8.
Definition MYSQL_XID_OFFSET : Z := MYSQL_XID_PREFIX_LEN + sizeof_server_id.
Definition MYSQL_XID_GTRID_LEN : Z := MYSQL_XID_OFFSET + sizeof_my_xid.
Definition XIDDATASIZE : Z := 128.

Record xid_t := mk {
  formatID : Z; gtrid_length : Z; bqual_length : Z;     (* long *)
  data : mem                                            (* char[XIDDATASIZE], from 0 *)
}.

Definition is_null (x : xid_t) : bool := formatID x =? -1.
Definition null (x : xid_t) : xid_t := mk (-1) (gtrid_length x) (bqual_length x) (data x).

(** [memcpy] of [n] bytes of a source into [data] at [pos]. *)
Definition put (d : mem) (pos : Z) (src : list Z) (n : Z) : option mem :=
  if (0 <=? n) && (n <=? Z.of_nat (length src)) && (pos + n <=? XIDDATASIZE)
  then Some (write_bytes d pos (take (Z.to_nat n) src)) else None.

(** [eq(g, b, d)]; [d] are the bytes that can be read. *)
Definition eq_parts (x : xid_t) (g b : Z) (d : mem) : bool :=
  negb (is_null x) && (g =? gtrid_length x) && (b =? bqual_length x) &&
  bool_decide (memcmp (bytes d 0 (g + b)) (bytes (data x) 0 (g + b)) = Eq).
Definition eq (x y : xid_t) : bool :=
  negb (is_null y) && eq_parts x (gtrid_length y) (bqual_length y) (data y).

Definition key_length (x : xid_t) : Z :=
  u32 (sizeof_long + sizeof_long + gtrid_length x + bqual_length x).
Definition xid_length (x : xid_t) : Z := u32 (sizeof_long + key_length x).

(** [set] from another XID: the three numbers and the bytes of both parts. *)
Definition set_copy (this xid : xid_t) : option xid_t :=
  let n := xid_length xid - 3 * sizeof_long in
  if (0 <=? n) && (n <=? XIDDATASIZE)
  then Some (mk (formatID xid) (gtrid_length xid) (bqual_length xid)
               (write_bytes (data this) 0 (bytes (data xid) 0 n)))
  else None.

Definition set_parts (this : xid_t) (f : Z) (g : list Z) (gl : Z) (b : list Z) (bl : Z) : option xid_t :=
  d ← (if truth gl then put (data this) 0 g gl else Some (data this));
  d ← (if truth bl then put d (0 + gl) b bl else Some d);
  Some (mk f gl bl d).

Definition set_data (this : xid_t) (g b : Z) (d : list Z) : option xid_t :=
  dd ← put (data this) 0 d (g + b); Some (mk 1 g b dd).

(** [set(xid, trx_server_id)]. *)
Definition set_my (this : xid_t) (xid trx_server_id : Z) : option xid_t :=
  x ← set_data (mk 1 (gtrid_length this) (bqual_length this) (data this))
        MYSQL_XID_PREFIX_LEN 0 MYSQL_XID_PREFIX;
  let d := store sizeof_server_id (data x) MYSQL_XID_PREFIX_LEN trx_server_id in
  let d := store sizeof_my_xid d MYSQL_XID_OFFSET xid in
  Some (mk (formatID x) MYSQL_XID_GTRID_LEN (bqual_length x) d).

Definition quick_get_my_xid (x : xid_t) : Z := load sizeof_my_xid (data x) MYSQL_XID_OFFSET.
Definition get_my_xid (x : xid_t) : Z :=
  if (gtrid_length x =? MYSQL_XID_GTRID_LEN) && (bqual_length x =? 0) &&
     bool_decide (memcmp (bytes (data x) 0 MYSQL_XID_PREFIX_LEN) MYSQL_XID_PREFIX = Eq)
  then quick_get_my_xid x else 0.
Definition get_trx_server_id (x : xid_t) : Z := load sizeof_server_id (data x) MYSQL_XID_PREFIX_LEN.

(** ** Properties *)

Lemma memcmp_same (l l' : list Z) : length l = length l' -> memcmp l l' = Eq <-> l = l'.
Proof.
  revert l'. induction l as [|b1 l IH]; intros [|b2 l'] Hl; try done. injection Hl as Hl.
  cbn [memcmp]. destruct (Z.compare_spec b1 b2) as [->| |].
  - rewrite (IH l' Hl). split; congruence.
  - split; [done|]. intros [= -> _]. lia.
  - split; [done|]. intros [= -> _]. lia.
Qed.

(** The bytes of an own transaction. *)
Lemma set_my_bytes this xid sid :
  exists x, set_my this xid sid = Some x /\ formatID x = 1 /\
    gtrid_length x = MYSQL_XID_GTRID_LEN /\ bqual_length x = 0 /\
    bytes (data x) 0 MYSQL_XID_PREFIX_LEN = MYSQL_XID_PREFIX /\
    bytes (data x) MYSQL_XID_PREFIX_LEN 4 = le_bytes 4 sid /\
    bytes (data x) MYSQL_XID_OFFSET 8 = le_bytes 8 xid /\
    (forall a, a < 0 \/ MYSQL_XID_GTRID_LEN <= a -> data x a = data this a).
Proof.
  unfold set_my, set_data, put. cbn [MYSQL_XID_PREFIX_LEN MYSQL_XID_PREFIX length].
  change ((0 <=? 8 + 0) && (8 + 0 <=? Z.of_nat 8) && (0 + (8 + 0) <=? XIDDATASIZE)) with true.
  cbn [mbind option_bind data formatID bqual_length]. eexists. split; [done|].
  split; [done|]. split; [done|]. split; [done|]. cbn [data].
  set (d0 := write_bytes (data this) 0 (take (Z.to_nat (8 + 0)) MYSQL_XID_PREFIX)).
  destruct (store_lwrites 4 d0 8 sid) as [B4 F4]. destruct (store_lwrites 8 (store 4 d0 8 sid) 12 xid) as [B8 F8].
  change (Z.of_nat 4) with 4 in *. change (Z.of_nat 8) with 8 in *.
  change MYSQL_XID_OFFSET with 12. change MYSQL_XID_PREFIX_LEN with 8. change MYSQL_XID_GTRID_LEN with 20.
  change sizeof_server_id with 4. change sizeof_my_xid with 8.
  split; [|split; [|split]].
  - rewrite (bytes_agree _ d0); [exact (bytes_write (data this) 0 MYSQL_XID_PREFIX)|].
    intros a Ha. rewrite F8, F4 by lia. done.
  - rewrite (bytes_agree _ (store 4 d0 8 sid)); [done|]. intros a Ha. apply F8. lia.
  - done.
  - intros a Ha. rewrite F8, F4 by lia. unfold d0. apply (write_bytes_frame _ _ _ a 1).
    + change (Z.of_nat (length (take (Z.to_nat (8 + 0)) MYSQL_XID_PREFIX))) with 8. lia.
    + lia.
Qed.

(** C35: The server's transaction number and server id survive in an XID: what
    [set] stores, [get_my_xid] and [get_trx_server_id] return, whatever the
    object held before; the XID is not null and takes 20 bytes of the data; two
    of them are equal exactly when number and server id are; a copy is equal to
    its original and gives the same number. *)
Theorem xid_roundtrip this this' xid sid xid' sid' :
  urange 64 xid -> urange 32 sid -> urange 64 xid' -> urange 32 sid' ->
  exists x x' c, set_my this xid sid = Some x /\ set_my this' xid' sid' = Some x' /\
    set_copy x' x = Some c /\
    get_my_xid x = xid /\ get_trx_server_id x = sid /\ is_null x = false /\ xid_length x = 32 /\
    (eq x x' = true <-> xid = xid' /\ sid = sid') /\
    eq c x = true /\ get_my_xid c = xid.
Proof.
  intros Hx Hs Hx' Hs'.
  destruct (set_my_bytes this xid sid) as (x&E&F&G&Bq&P1&P2&P3&_).
  destruct (set_my_bytes this' xid' sid') as (x'&E'&F'&G'&Bq'&P1'&P2'&P3'&_).
  assert (forall y v s, bytes (data y) 0 8 = MYSQL_XID_PREFIX -> bytes (data y) 8 4 = le_bytes 4 s ->
    bytes (data y) 12 8 = le_bytes 8 v -> bytes (data y) 0 20 = MYSQL_XID_PREFIX ++ le_bytes 4 s ++ le_bytes 8 v) as Hall.
  { intros y v s0 <- <- <-. change 20 with (8 + (4 + 8)). by rewrite !bytes_app by lia. }
  pose proof (Hall x xid sid P1 P2 P3) as A. pose proof (Hall x' xid' sid' P1' P2' P3') as A'.
  assert (forall n v w, urange (8 * Z.of_nat n) v -> urange (8 * Z.of_nat n) w -> le_bytes n v = le_bytes n w -> v = w) as Hinj.
  { intros n v w Hv Hw El. apply (f_equal le_value) in El. rewrite !le_value_bytes, !wrap_small in El by done. done. }
  assert (forall y, formatID y = 1 -> gtrid_length y = 20 -> bqual_length y = 0 ->
    bytes (data y) 0 20 = bytes (data x) 0 20 -> get_my_xid y = xid) as Hget.
  { intros y Fy Gy By Dy. unfold get_my_xid, quick_get_my_xid. rewrite Gy, By. rewrite A in Dy.
    change 20 with (8 + (4 + 8)) in Dy. rewrite !bytes_app in Dy by lia.
    apply app_inj_1 in Dy as [D1 D2]; [|by rewrite bytes_length].
    apply app_inj_1 in D2 as [D2 D3]; [|by rewrite bytes_length, le_bytes_length].
    change MYSQL_XID_PREFIX_LEN with 8. rewrite D1. rewrite bool_decide_eq_true_2 by (by apply memcmp_same).
    change ((20 =? MYSQL_XID_GTRID_LEN) && (0 =? 0) && true) with true. cbn [negb].
    unfold load. change (0 + 8 + 4) with 12 in D3. change MYSQL_XID_OFFSET with 12.
    change sizeof_my_xid with 8. rewrite D3, le_value_bytes. by apply wrap_small. }
  assert (xid_length x = 32) as Hlen.
  { unfold xid_length, key_length. by rewrite G, Bq. }
  exists x, x', (mk 1 20 0 (write_bytes (data x') 0 (bytes (data x) 0 20))).
  assert (bytes (write_bytes (data x') 0 (bytes (data x) 0 20)) 0 20 = bytes (data x) 0 20) as Dc.
  { apply (bytes_write (data x') 0 (bytes (data x) 0 20)). }
  change MYSQL_XID_GTRID_LEN with 20 in *.
  split; [done|]. split; [done|]. split; [unfold set_copy; by rewrite Hlen, F, G, Bq|].
  split; [by apply Hget|]. split.
  { unfold get_trx_server_id, load. change (bytes (data x) MYSQL_XID_PREFIX_LEN sizeof_server_id) with (bytes (data x) 8 4).
    rewrite (P2 : bytes (data x) 8 4 = le_bytes 4 sid), le_value_bytes. by apply wrap_small. }
  split; [unfold is_null; by rewrite F|]. split; [done|]. split; [|split].
  - unfold eq, eq_parts, is_null. rewrite F, F', G, G', Bq, Bq'. cbn [negb andb Z.eqb Z.opp Pos.eqb]. change (20 + 0) with 20.
    rewrite bool_decide_eq_true, memcmp_same, A, A' by (by rewrite !bytes_length). split.
    + intros H. apply app_inv_head in H.
      apply app_inj_1 in H as [H1 H2]; [|by rewrite !le_bytes_length].
      split; symmetry; [by apply (Hinj 8%nat)|by apply (Hinj 4%nat)].
    + by intros [-> ->].
  - unfold eq, eq_parts, is_null. cbn [formatID gtrid_length bqual_length data].
    rewrite F, G, Bq. cbn [negb andb Z.eqb Z.opp Pos.eqb]. change (20 + 0) with 20.
    by rewrite bool_decide_eq_true, memcmp_same, Dc by (by rewrite !bytes_length).
  - by apply Hget.
Qed.

(** An XID of other origin has no number of this server, also when its bytes
    contain one. *)
Theorem foreign_xid this f g gl b bl x :
  set_parts this f g gl b bl = Some x -> gl <> MYSQL_XID_GTRID_LEN \/ bl <> 0 -> get_my_xid x = 0.
Proof.
  unfold set_parts. intros (d&_&(d'&_&[= <-])%bind_Some)%bind_Some Hne. unfold get_my_xid.
  cbn [gtrid_length bqual_length].
  destruct (Z.eqb_spec gl MYSQL_XID_GTRID_LEN), (Z.eqb_spec bl 0); cbn [andb]; try done. lia.
Qed.

Definition xid0 : xid_t := mk (-1) 0 0 (fun _ => 0).

Lemma xid_roundtrip_witness :
  exists x x', set_my xid0 7 1 = Some x /\ set_my xid0 7 2 = Some x' /\ get_my_xid x = 7 /\
    eq x x' <> true.
Proof.
  destruct (xid_roundtrip xid0 xid0 7 1 7 2) as (x&x'&c&E&E'&_&G&_&_&_&H&_);
    try (unfold urange; split; [lia|reflexivity]).
  exists x, x'. split; [done|]. split; [done|]. split; [done|]. rewrite H. lia.
Defined.

End Xid.
