(* ===== verification/HandlerScan.v ===== *)
(** * Scans of a table handler (class handler of private/handler.h)

    The wrappers around a storage engine's virtual methods that open and close
    index and table scans, switch key-only reading and set a rowid filter
    aside.  The engine is a parameter: one state and one answer to every
    virtual call ([Engine]); the calls it receives are recorded, so that the
    protocol the wrappers promise to engines can be stated. *)

From Stdlib Require Import ZArith Lia.
From S2P Require Import Prelude.
From stdpp Require Import prelude list.
Local Open Scope Z_scope.
Local Open Scope cint_scope.

Module Handler.

Definition MAX_KEY : Z := 64.

Inductive init_stat : Type := NONE | INDEX | RND.
#[global] Instance init_stat_eq_dec : EqDecision init_stat.
Proof. solve_decision. Defined.

(** The virtual methods that the wrappers call. *)
Inductive call : Type :=
  | index_init (idx : Z) (sorted : bool)
  | index_end
  | rnd_init (scan : bool)
  | rnd_end
  | pre_index_init (idx : Z) (sorted : bool)
  | pre_index_end
  | pre_rnd_init (scan : bool)
  | pre_rnd_end
  | extra_opt_keyread (idx : Z)
  | extra_no_keyread.

(** A storage engine: how its state changes with a call, and the int returned. *)
Class Engine (E : Type) := answer : E -> call -> E * Z.

Record handler (E : Type) := mk_handler {
  inited : init_stat;
  pre_inited : init_stat;
  active_index : Z;
  keyread : Z;
  end_range : option N;          (* None: the null pointer *)
  engine : E;
  calls : list (call * Z)        (* calls to the engine and their results *)
}.
Arguments mk_handler {E} _ _ _ _ _ _ _.
Arguments inited {E} _.
Arguments pre_inited {E} _.
Arguments active_index {E} _.
Arguments keyread {E} _.
Arguments end_range {E} _.
Arguments engine {E} _.
Arguments calls {E} _.

Section scans.
Context {E : Type} `{Engine E}.

(** The constructor. *)
Definition create (e : E) : handler E := mk_handler NONE NONE MAX_KEY MAX_KEY None e [].

Definition invoke (h : handler E) (c : call) : handler E * Z :=
  let (e, r) := answer (engine h) c in
  (mk_handler (inited h) (pre_inited h) (active_index h) (keyread h) (end_range h) e
     (calls h ++ [(c, r)]), r).

Definition set_scan (h : handler E) (i : init_stat) (idx : Z) : handler E :=
  mk_handler i (pre_inited h) idx (keyread h) None (engine h) (calls h).
Definition set_pre (h : handler E) (i : init_stat) : handler E :=
  mk_handler (inited h) i (active_index h) (keyread h) (end_range h) (engine h) (calls h).
Definition set_keyread (h : handler E) (idx : Z) : handler E :=
  mk_handler (inited h) (pre_inited h) (active_index h) idx (end_range h) (engine h) (calls h).

Definition stat_eq (a b : init_stat) : bool := bool_decide (a = b).

Definition ha_index_init (h : handler E) (idx : Z) (sorted : bool) : option (handler E * Z) :=
  if stat_eq (inited h) NONE then
    let (h, result) := invoke h (index_init idx sorted) in
    Some (if result =? 0 then set_scan h INDEX idx else h, result)
  else None.

Definition ha_index_end (h : handler E) : option (handler E * Z) :=
  if stat_eq (inited h) INDEX then Some (invoke (set_scan h NONE MAX_KEY) index_end) else None.

Definition ha_rnd_init (h : handler E) (scan : bool) : option (handler E * Z) :=
  if stat_eq (inited h) NONE || (stat_eq (inited h) RND && scan) then
    let (h, result) := invoke h (rnd_init scan) in
    Some (set_scan h (if truth result then NONE else RND) (active_index h), result)
  else None.

Definition ha_rnd_end (h : handler E) : option (handler E * Z) :=
  if stat_eq (inited h) RND then Some (invoke (set_scan h NONE (active_index h)) rnd_end) else None.

Definition ha_index_or_rnd_end (h : handler E) : option (handler E * Z) :=
  if stat_eq (inited h) INDEX then ha_index_end h
  else if stat_eq (inited h) RND then ha_rnd_end h else Some (h, 0).

Definition ha_pre_rnd_init (h : handler E) (scan : bool) : option (handler E * Z) :=
  if stat_eq (pre_inited h) NONE || (stat_eq (pre_inited h) RND && scan) then
    let (h, result) := invoke h (pre_rnd_init scan) in
    Some (set_pre h (if truth result then NONE else RND), result)
  else None.

Definition ha_pre_rnd_end (h : handler E) : option (handler E * Z) :=
  if stat_eq (pre_inited h) RND then Some (invoke (set_pre h NONE) pre_rnd_end) else None.

Definition ha_pre_index_init (h : handler E) (idx : Z) (sorted : bool) : option (handler E * Z) :=
  if stat_eq (pre_inited h) NONE then
    let (h, result) := invoke h (pre_index_init idx sorted) in
    Some (if result =? 0 then set_pre h INDEX else h, result)
  else None.

Definition ha_pre_index_end (h : handler E) : option (handler E * Z) :=
  if stat_eq (pre_inited h) INDEX then Some (invoke (set_pre h NONE) pre_index_end) else None.

Definition ha_pre_index_or_rnd_end (h : handler E) : option (handler E * Z) :=
  if stat_eq (pre_inited h) INDEX then ha_pre_index_end h
  else if stat_eq (pre_inited h) RND then ha_pre_rnd_end h else Some (h, 0).

Definition get_index (h : handler E) : Z :=
  if stat_eq (inited h) INDEX then active_index h else MAX_KEY.

Definition keyread_enabled (h : handler E) : bool := keyread h <? MAX_KEY.

Definition ha_start_keyread (h : handler E) (idx : Z) : handler E * Z :=
  let (h, res) := if keyread_enabled h then (h, 0) else invoke h (extra_opt_keyread idx) in
  (set_keyread h idx, res).

Definition ha_end_keyread (h : handler E) : handler E * Z :=
  if negb (keyread_enabled h) then (h, 0) else invoke (set_keyread h MAX_KEY) extra_no_keyread.

(** The assertion of the destructor about scans. *)
Definition destroyable (h : handler E) : bool := stat_eq (inited h) NONE.

(** ** Sequences of operations *)

Inductive op : Type :=
  | IndexInit (idx : Z) (sorted : bool) | IndexEnd | RndInit (scan : bool) | RndEnd | AnyEnd
  | PreIndexInit (idx : Z) (sorted : bool) | PreIndexEnd | PreRndInit (scan : bool) | PreRndEnd | PreAnyEnd
  | StartKeyread (idx : Z) | EndKeyread.

Definition exec (h : handler E) (o : op) : option (handler E * Z) :=
  match o with
  | IndexInit idx sorted => ha_index_init h idx sorted
  | IndexEnd => ha_index_end h
  | RndInit scan => ha_rnd_init h scan
  | RndEnd => ha_rnd_end h
  | AnyEnd => ha_index_or_rnd_end h
  | PreIndexInit idx sorted => ha_pre_index_init h idx sorted
  | PreIndexEnd => ha_pre_index_end h
  | PreRndInit scan => ha_pre_rnd_init h scan
  | PreRndEnd => ha_pre_rnd_end h
  | PreAnyEnd => ha_pre_index_or_rnd_end h
  | StartKeyread idx => Some (ha_start_keyread h idx)
  | EndKeyread => Some (ha_end_keyread h)
  end.

Fixpoint run (h : handler E) (os : list op) : option (handler E) :=
  match os with [] => Some h | o :: os => '(h, _) ← exec h o; run h os end.
End scans.

(** ** What an engine may rely on *)

(** Scans as the engine sees them: closed, on an index, or over the table. *)
Inductive scan : Type := Closed | OnIndex (idx : Z) | OnTable.

Record view := mk_view { v_scan : scan; v_pre : scan; v_keyread : bool }.

(** [None]: a call the engine need not expect in this state. *)
Definition receive (v : view) (c : call) (r : Z) : option view :=
  let ok := r =? 0 in
  match c, v_scan v, v_pre v, v_keyread v with
  | index_init idx _, Closed, _, _ =>
      Some (mk_view (if ok then OnIndex idx else Closed) (v_pre v) (v_keyread v))
  | index_end, OnIndex _, _, _ => Some (mk_view Closed (v_pre v) (v_keyread v))
  | rnd_init _, Closed, _, _ | rnd_init true, OnTable, _, _ =>
      Some (mk_view (if ok then OnTable else Closed) (v_pre v) (v_keyread v))
  | rnd_end, OnTable, _, _ => Some (mk_view Closed (v_pre v) (v_keyread v))
  | pre_index_init idx _, _, Closed, _ =>
      Some (mk_view (v_scan v) (if ok then OnIndex idx else Closed) (v_keyread v))
  | pre_index_end, _, OnIndex _, _ => Some (mk_view (v_scan v) Closed (v_keyread v))
  | pre_rnd_init _, _, Closed, _ | pre_rnd_init true, _, OnTable, _ =>
      Some (mk_view (v_scan v) (if ok then OnTable else Closed) (v_keyread v))
  | pre_rnd_end, _, OnTable, _ => Some (mk_view (v_scan v) Closed (v_keyread v))
  | extra_opt_keyread _, _, _, false => Some (mk_view (v_scan v) (v_pre v) true)
  | extra_no_keyread, _, _, true => Some (mk_view (v_scan v) (v_pre v) false)
  | _, _, _, _ => None
  end.

Fixpoint receives (v : view) (cs : list (call * Z)) : option view :=
  match cs with [] => Some v | (c, r) :: cs => v ← receive v c r; receives v cs end.

Definition closed : view := mk_view Closed Closed false.

Definition stat_of (s : scan) : init_stat :=
  match s with Closed => NONE | OnIndex _ => INDEX | OnTable => RND end.

(** Index numbers of key reads are those of keys. *)
Definition op_ok (o : op) : Prop :=
  match o with StartKeyread idx => idx < MAX_KEY | _ => True end.

Lemma receives_app v cs c r :
  receives v (cs ++ [(c, r)]) = (v ← receives v cs; receive v c r).
Proof.
  revert v. induction cs as [|[c' r'] cs IH]; intros v; cbn.
  - by destruct (receive v c r).
  - destruct (receive v c' r'); cbn; [apply IH|done].
Qed.

Section protocol.
Context {E : Type} `{Engine E}.

(** The handler agrees with the engine's view after the recorded calls. *)
Definition agrees (h : handler E) (v : view) : Prop :=
  receives closed (calls h) = Some v /\
  inited h = stat_of (v_scan v) /\ pre_inited h = stat_of (v_pre v) /\
  keyread_enabled h = v_keyread v /\
  (forall idx, v_scan v = OnIndex idx -> active_index h = idx).

Lemma create_agrees (e : E) : agrees (create e) closed.
Proof. by unfold agrees. Qed.

(** A call that the engine's view accepts, made with the handler's fields set
    for the view after it. *)
Lemma agrees_intro cs (h' : handler E) v v' c r :
  receives closed cs = Some v -> calls h' = cs ++ [(c, r)] -> receive v c r = Some v' ->
  inited h' = stat_of (v_scan v') -> pre_inited h' = stat_of (v_pre v') ->
  keyread_enabled h' = v_keyread v' ->
  (forall idx, v_scan v' = OnIndex idx -> active_index h' = idx) -> agrees h' v'.
Proof. intros Hr Hcs Hc. unfold agrees. rewrite Hcs, receives_app, Hr. cbn. done. Qed.

Lemma exec_agrees h v o h' r :
  op_ok o -> agrees h v -> exec h o = Some (h', r) -> exists v', agrees h' v'.
Proof.
  intros Ho Hagr Hx. pose proof Hagr as (Hr&Hi&Hp&Hk&Ha).
  destruct h as [i p ai k er e cs], v as [vs vp vk]. cbn in *. subst i p.
  destruct o; cbn in Hx;
    unfold ha_index_init, ha_rnd_init, ha_index_or_rnd_end, ha_pre_index_init,
      ha_pre_rnd_init, ha_pre_index_or_rnd_end, ha_start_keyread,
      ha_end_keyread, ha_index_end, ha_rnd_end, ha_pre_index_end, ha_pre_rnd_end, invoke, truth in Hx;
    cbn in Hx; rewrite ?Hk in Hx;
    repeat match goal with b : bool |- _ => destruct b end; destruct vs, vp; cbn in Hx.
  all: try discriminate Hx.
  all: repeat match type of Hx with context [let (_, _) := answer ?a ?c in _] =>
    destruct (answer a c); cbn in Hx end.
  all: try match type of Hx with context [?b =? 0] => destruct (b =? 0) eqn:Hz end.
  all: simplify_eq/=.
  all: try (eexists; exact Hagr).
  all: try (eexists; eapply (agrees_intro cs); [exact Hr|reflexivity|cbn; rewrite ?Hz; reflexivity|cbn; try done; apply Z.ltb_lt, Ho..|naive_solver]).
  all: eexists; split; [exact Hr|]; split; [done|]; split; [done|]; split; [apply Z.ltb_lt, Ho|exact Ha].
Qed.

Lemma run_agrees h v os h' :
  Forall op_ok os -> agrees h v -> run h os = Some h' -> exists v', agrees h' v'.
Proof.
  intros Hos. revert h v. induction Hos as [|o os Ho Hos IH]; intros h v Hv Hx; cbn in Hx.
  - simplify_eq. by exists v.
  - destruct (exec h o) as [[h1 r]|] eqn:Hex; [|done]. cbn in Hx.
    destruct (exec_agrees h v o h1 r Ho Hv Hex) as [v1 Hv1]. by apply (IH h1 v1).
Qed.

Lemma agrees_index h v :
  agrees h v -> get_index h = match v_scan v with OnIndex idx => idx | _ => MAX_KEY end.
Proof.
  intros (_&Hi&_&_&Ha). unfold get_index. rewrite Hi. destruct (v_scan v) eqn:Ev; cbn; try done.
  by apply Ha.
Qed.

(** Whatever scan is open, it can be ended. *)
Lemma any_end_closes (h : handler E) :
  exists h' r, ha_index_or_rnd_end h = Some (h', r) /\ destroyable h' = true.
Proof.
  unfold ha_index_or_rnd_end, ha_index_end, ha_rnd_end, invoke.
  destruct h as [[] p ai k er e cs]; cbn; [by eexists _, _|destruct (answer e index_end)|destruct (answer e rnd_end)];
    by eexists _, _.
Qed.

(** C14: whatever the engine answers, a handler driven through its wrappers
    (scans opened, reopened, ended, key reads switched on valid keys) makes no
    call an engine need not expect: scans on an index and on the table exclude
    each other, an end follows a successful start and no other, a table scan is
    restarted only as a scan, key reads are switched off only when on.  The
    handler's own fields tell the state the engine is in, get_index tells the
    index scanned, and the open scan can always be ended, as the destructor
    demands. *)
Theorem scan_protocol (e : E) (os : list op) (h : handler E) :
  Forall op_ok os -> run (create e) os = Some h ->
  exists v, receives closed (calls h) = Some v /\
    inited h = stat_of (v_scan v) /\ pre_inited h = stat_of (v_pre v) /\
    keyread_enabled h = v_keyread v /\
    get_index h = match v_scan v with OnIndex idx => idx | _ => MAX_KEY end /\
    exists h' r, ha_index_or_rnd_end h = Some (h', r) /\ destroyable h' = true.
Proof.
  intros Hos Hx. destruct (run_agrees _ _ _ _ Hos (create_agrees e) Hx) as [v Hv].
  exists v. pose proof (agrees_index h v Hv). pose proof (any_end_closes h).
  destruct Hv as (Hr&Hi&Hp&Hk&_). done.
Qed.
End protocol.

(** ** Pushed rowid filters *)

Record filters := mk_filters {
  pushed_rowid_filter : option N;
  rowid_filter_is_active : bool;
  save_pushed_rowid_filter : option N;
  save_rowid_filter_is_active : bool
}.

Definition no_filters : filters := mk_filters None false None false.

Definition cancel_pushed_rowid_filter (f : filters) : filters :=
  mk_filters None false (save_pushed_rowid_filter f) (save_rowid_filter_is_active f).

Definition disable_pushed_rowid_filter (f : filters) : option filters :=
  match pushed_rowid_filter f, save_pushed_rowid_filter f with
  | Some p, None =>
      Some (mk_filters None false (Some p)
              (if rowid_filter_is_active f then rowid_filter_is_active f
               else save_rowid_filter_is_active f))
  | _, _ => None
  end.

Definition enable_pushed_rowid_filter (f : filters) : option filters :=
  match save_pushed_rowid_filter f, pushed_rowid_filter f with
  | Some p, None =>
      Some (mk_filters (Some p) (if save_rowid_filter_is_active f then true else rowid_filter_is_active f)
              None (save_rowid_filter_is_active f))
  | _, _ => None
  end.

(** Setting a filter aside and back restores it; its activity is restored if no
    active filter was ever set aside before, or if it is active itself. *)
Lemma disable_enable_restores f f1 f2 :
  disable_pushed_rowid_filter f = Some f1 -> enable_pushed_rowid_filter f1 = Some f2 ->
  pushed_rowid_filter f2 = pushed_rowid_filter f /\ save_pushed_rowid_filter f2 = None /\
  rowid_filter_is_active f2 = rowid_filter_is_active f || save_rowid_filter_is_active f.
Proof.
  unfold disable_pushed_rowid_filter, enable_pushed_rowid_filter.
  destruct f as [[p|] [] [q|] []]; cbn; intros; simplify_eq/=; done.
Qed.

(** setting a filter aside and back does not always restore it: once an
    active filter was set aside, the remembered activity is never cleared, so a
    filter pushed later that is not active comes back active. *)
Theorem disabled_filter_comes_back_active :
  exists f f1 f2,
    (* an active filter is set aside and back, dropped, and 7 is pushed *)
    (f0 ← disable_pushed_rowid_filter (mk_filters (Some 5%N) true None false);
     f0 ← enable_pushed_rowid_filter f0;
     let f0 := cancel_pushed_rowid_filter f0 in
     Some (mk_filters (Some 7%N) (rowid_filter_is_active f0) (save_pushed_rowid_filter f0)
             (save_rowid_filter_is_active f0))) = Some f /\
    rowid_filter_is_active f = false /\
    disable_pushed_rowid_filter f = Some f1 /\ enable_pushed_rowid_filter f1 = Some f2 /\
    rowid_filter_is_active f2 = true.
Proof. eexists _, _, _. repeat split. Qed.

(** ** Auto-increment *)

Record insert_ids := mk_ids { next_insert_id : Z; insert_id_for_cur_row : Z }.

Definition set_next_insert_id (h : insert_ids) (id : Z) : insert_ids :=
  mk_ids id (insert_id_for_cur_row h).

Definition restore_auto_increment (h : insert_ids) (prev_insert_id : Z) : insert_ids :=
  mk_ids (if 0 <? prev_insert_id then prev_insert_id else insert_id_for_cur_row h)
    (insert_id_for_cur_row h).

(** ** An engine that fails every other time *)

#[local] Instance flaky : Engine Z := fun e _ => (e + 1, e mod 2).

Lemma scan_protocol_witness :
  exists h, run (create 1) [StartKeyread 3; RndInit true; RndInit true; IndexInit 4 false; EndKeyread]
            = Some h /\ get_index h = 4 /\
    exists v, receives closed (calls h) = Some v /\ keyread_enabled h = v_keyread v.
Proof.
  eexists. split; [vm_compute; reflexivity|]. split; [done|].
  edestruct (scan_protocol (E:=Z) 1
    [StartKeyread 3; RndInit true; RndInit true; IndexInit 4 false; EndKeyread]) as (v&Hr&_&_&Hk&_).
  - repeat constructor.
  - vm_compute. reflexivity.
  - exists v. split; [exact Hr|exact Hk].
Defined.
End Handler.
