(* ===== verification/ThreadCache.v ===== *)
(** * The thread cache (private/thread_cache.h)

    [Thread_cache] keeps idle threads of the "one thread per connection"
    scheduler parked on a condition variable and hands them new connections.
    Its methods run concurrently; they synchronise with one mutex and two
    condition variables.  Module [Thread_cache] translates the critical
    sections (the code between lock and unlock, or between two waits) as
    functions on the object.  Module [System] runs any number of threads
    through these sections: every thread has a program counter, a step of the
    system is one critical section, one signal sent after unlocking, one
    return from a wait (woken, spurious or timed out), or one half of the
    increment that final_flush makes without the lock.  The scheduler is the
    list of actions, so a theorem about all lists is about all interleavings.

    The queue of connections is the [I_List] of sql_list.h, taken as the list
    it refines (file BaseIList).  [ulong] has 32 bits in this build. *)

From Stdlib Require Import ZArith Lia.
From S2P Require Import Prelude.
From stdpp Require Import prelude list.

Local Open Scope Z_scope.

Module Thread_cache.

(** Pointers to CONNECT objects are names; only their order matters. *)
Definition CONNECT := Z.

Record Thread_cache := mk {
  list_ : list CONNECT;
  cached_thread_count : Z;      (* ulong *)
  kill_cached_threads : Z       (* uint32_t *)
}.

Definition init : Thread_cache := mk [] 0 0.

(** The two assertions of [destroy]. *)
Definition destroy (c : Thread_cache) : option unit :=
  if (cached_thread_count c =? 0) && bool_decide (list_ c = [])
  then Some tt else None.

(** What a thread does when a critical section ends in the middle of [flush]. *)
Inductive flush_next := flush_waits | flush_returns.

(** One test of the loop of [flush]: a broadcast and a wait, or the end. *)
Definition flush_loop (c : Thread_cache) : Thread_cache * flush_next :=
  if truth (cached_thread_count c) then (c, flush_waits)
  else (mk (list_ c) (cached_thread_count c) (wrap 32 (kill_cached_threads c - 1)),
        flush_returns).

Definition flush (c : Thread_cache) : Thread_cache * flush_next :=
  flush_loop (mk (list_ c) (cached_thread_count c) (wrap 32 (kill_cached_threads c + 1))).

(** [kill_cached_threads++] of [final_flush] runs without the lock: the value
    is loaded and stored in two steps. *)
Definition final_flush_load (c : Thread_cache) : Z := kill_cached_threads c.
Definition final_flush_store (v : Z) (c : Thread_cache) : Thread_cache :=
  mk (list_ c) (cached_thread_count c) (wrap 32 (v + 1)).

Definition enqueue (connect : CONNECT) (c : Thread_cache) : Thread_cache * bool :=
  if truth (cached_thread_count c) then
    (mk (list_ c ++ [connect]) (wrap 32 (cached_thread_count c - 1)) (kill_cached_threads c),
     true)
  else (c, false).

(** [mysql_cond_timedwait] returns 0 or one of the two time-out codes. *)
Inductive wait_error := no_error | ETIMEDOUT | ETIME.

Definition timed_out (e : wait_error) : bool :=
  match e with no_error => false | _ => true end.

(** How [park] continues after a critical section: it returns (with the
    connection, and whether it has to signal the flusher first), or it waits
    on COND_thread_cache. *)
Inductive park_next := park_waits | park_returns (connect : option CONNECT) (flushed : bool).

(** [park] up to its first wait. *)
Definition park (thread_cache_size : Z) (c : Thread_cache) : Thread_cache * park_next :=
  match list_ c with
  | connect :: l =>
      (mk l (wrap 32 (cached_thread_count c + 1)) (kill_cached_threads c),
       park_returns (Some connect) false)
  | [] =>
      if (cached_thread_count c <? thread_cache_size) && negb (truth (kill_cached_threads c))
      then (mk [] (wrap 32 (cached_thread_count c + 1)) (kill_cached_threads c), park_waits)
      else (c, park_returns None false)
  end.

(** The body of the loop of [park] after the wait returned [error]. *)
Definition park_awake (error : wait_error) (c : Thread_cache) : Thread_cache * park_next :=
  let flushed := truth (kill_cached_threads c) in
  match list_ c with
  | connect :: l =>
      (mk l (cached_thread_count c) (kill_cached_threads c),
       park_returns (Some connect) flushed)
  | [] =>
      if flushed || timed_out error
      then (mk [] (wrap 32 (cached_thread_count c - 1)) (kill_cached_threads c),
            park_returns None flushed)
      else (c, park_waits)
  end.

Definition size (c : Thread_cache) : Z := cached_thread_count c.

End Thread_cache.

(** ** Threads *)

Module System.
Import Thread_cache.

(** Where a thread is: outside the cache; blocked in or returned from
    [mysql_cond_timedwait] of [park]; about to signal COND_flush_thread_cache
    and return; blocked in or returned from the wait of [flush]; about to
    signal COND_thread_cache after [enqueue]; in the middle of the increment
    of [final_flush], or past it. *)
Inductive pc :=
| Outside
| ParkBlocked
| ParkAwake (error : wait_error)
| ParkSignals (connect : option CONNECT)
| FlushBlocked
| FlushAwake
| EnqueueSignals
| FinalLoaded (v : Z)
| FinalStored.

Record sys := mk_sys {
  cache : Thread_cache;
  thread_cache_size : Z;          (* global variable, ulong *)
  threads : list pc
}.

Definition start (n : nat) (size : Z) : sys := mk_sys init size (replicate n Outside).

Inductive action :=
| Enqueue (t : nat) (connect : CONNECT)
| EnqueueSignal (t : nat) (waiter : option nat)
| Park (t : nat)
| ParkReturns (t : nat) (error : wait_error)    (* time-out or spurious wake-up *)
| ParkResumes (t : nat)
| ParkSignal (t : nat) (waiter : option nat)
| Flush (t : nat)
| FlushReturns (t : nat)                        (* spurious wake-up *)
| FlushResumes (t : nat)
| FinalLoad (t : nat)
| FinalStore (t : nat)
| Size (t : nat)
| SetSize (size : Z).

(** What a step shows to the callers of the methods. *)
Inductive event :=
| Tau
| Accepted (connect : CONNECT)      (* enqueue returns true *)
| Rejected (connect : CONNECT)      (* enqueue returns false *)
| Served (connect : CONNECT)        (* park has taken the connection it returns *)
| Retired                           (* park returns NULL *)
| Flushed                           (* flush returns *)
| Counted (n : Z).                  (* size returns *)

Definition is_park_blocked (p : pc) : bool :=
  match p with ParkBlocked => true | _ => false end.
Definition is_flush_blocked (p : pc) : bool :=
  match p with FlushBlocked => true | _ => false end.

Definition set_pc (s : sys) (t : nat) (p : pc) : sys :=
  mk_sys (cache s) (thread_cache_size s) (<[t := p]> (threads s)).
Definition set_cache (s : sys) (c : Thread_cache) : sys :=
  mk_sys c (thread_cache_size s) (threads s).

(** [mysql_cond_signal]: wakes one of the threads blocked on the variable,
    the scheduler's choice, and does nothing when there is none. *)
Definition cond_signal (blocked : pc -> bool) (awake : pc) (waiter : option nat) (s : sys)
  : option sys :=
  match waiter with
  | Some w =>
      p ← threads s !! w; if blocked p then Some (set_pc s w awake) else None
  | None => if existsb blocked (threads s) then None else Some s
  end.

(** [mysql_cond_broadcast] on COND_thread_cache. *)
Definition wake_parked (p : pc) : pc :=
  match p with ParkBlocked => ParkAwake no_error | _ => p end.
Definition cond_broadcast (s : sys) : sys :=
  mk_sys (cache s) (thread_cache_size s) (wake_parked <$> threads s).

Definition park_event (connect : option CONNECT) : event :=
  match connect with Some c => Served c | None => Retired end.

(** Where [park] stands after a critical section with this outcome. *)
Definition park_continue (t : nat) (r : Thread_cache * park_next) (s : sys) : sys * event :=
  let s := set_cache s (fst r) in
  match snd r with
  | park_waits => (set_pc s t ParkBlocked, Tau)
  | park_returns connect flushed =>
      (set_pc s t (if flushed then ParkSignals connect else Outside), park_event connect)
  end.

Definition flush_continue (t : nat) (r : Thread_cache * flush_next) (s : sys) : sys * event :=
  let s := set_cache s (fst r) in
  match snd r with
  | flush_waits => (set_pc (cond_broadcast s) t FlushBlocked, Tau)
  | flush_returns => (set_pc s t Outside, Flushed)
  end.

Definition step (a : action) (s : sys) : option (sys * event) :=
  match a with
  | Enqueue t connect =>
      p ← threads s !! t;
      match p with
      | Outside =>
          let r := enqueue connect (cache s) in
          if snd r then Some (set_pc (set_cache s (fst r)) t EnqueueSignals, Accepted connect)
          else Some (set_cache s (fst r), Rejected connect)
      | _ => None
      end
  | EnqueueSignal t waiter =>
      p ← threads s !! t;
      match p with
      | EnqueueSignals =>
          s ← cond_signal is_park_blocked (ParkAwake no_error) waiter (set_pc s t Outside);
          Some (s, Tau)
      | _ => None
      end
  | Park t =>
      p ← threads s !! t;
      match p with
      | Outside => Some (park_continue t (park (thread_cache_size s) (cache s)) s)
      | _ => None
      end
  | ParkReturns t error =>
      p ← threads s !! t;
      match p with
      | ParkBlocked => Some (set_pc s t (ParkAwake error), Tau)
      | _ => None
      end
  | ParkResumes t =>
      p ← threads s !! t;
      match p with
      | ParkAwake error => Some (park_continue t (park_awake error (cache s)) s)
      | _ => None
      end
  | ParkSignal t waiter =>
      p ← threads s !! t;
      match p with
      | ParkSignals _ =>
          s ← cond_signal is_flush_blocked FlushAwake waiter (set_pc s t Outside);
          Some (s, Tau)
      | _ => None
      end
  | Flush t =>
      p ← threads s !! t;
      match p with
      | Outside | FinalStored => Some (flush_continue t (flush (cache s)) s)
      | _ => None
      end
  | FlushReturns t =>
      p ← threads s !! t;
      match p with
      | FlushBlocked => Some (set_pc s t FlushAwake, Tau)
      | _ => None
      end
  | FlushResumes t =>
      p ← threads s !! t;
      match p with
      | FlushAwake => Some (flush_continue t (flush_loop (cache s)) s)
      | _ => None
      end
  | FinalLoad t =>
      p ← threads s !! t;
      match p with
      | Outside => Some (set_pc s t (FinalLoaded (final_flush_load (cache s))), Tau)
      | _ => None
      end
  | FinalStore t =>
      p ← threads s !! t;
      match p with
      | FinalLoaded v =>
          Some (set_pc (set_cache s (final_flush_store v (cache s))) t FinalStored, Tau)
      | _ => None
      end
  | Size t =>
      p ← threads s !! t;
      match p with
      | Outside => Some (s, Counted (Thread_cache.size (cache s)))
      | _ => None
      end
  | SetSize size => Some (mk_sys (cache s) size (threads s), Tau)
  end.

Fixpoint run (acts : list action) (s : sys) : option (sys * list event) :=
  match acts with
  | [] => Some (s, [])
  | a :: acts =>
      r ← step a s;
      q ← run acts (fst r);
      Some (fst q, snd r :: snd q)
  end.

(** Numbers of threads at a place. *)
Fixpoint count (f : pc -> bool) (l : list pc) : Z :=
  match l with
  | [] => 0
  | p :: l => Z.b2z (f p) + count f l
  end.

Definition is_park_awake (p : pc) : bool :=
  match p with ParkAwake _ => true | _ => false end.
Definition is_park_signals (p : pc) : bool :=
  match p with ParkSignals _ => true | _ => false end.
Definition is_flush_awake (p : pc) : bool :=
  match p with FlushAwake => true | _ => false end.
Definition is_enqueue_signals (p : pc) : bool :=
  match p with EnqueueSignals => true | _ => false end.

Definition blocked (s : sys) : Z := count is_park_blocked (threads s).
Definition awake (s : sys) : Z := count is_park_awake (threads s).
Definition signalling (s : sys) : Z := count is_enqueue_signals (threads s).
Definition leaving (s : sys) : Z := count is_park_signals (threads s).
Definition flush_blocked (s : sys) : Z := count is_flush_blocked (threads s).
Definition flush_awake (s : sys) : Z := count is_flush_awake (threads s).

(** Threads that [park] keeps in the cache. *)
Definition parked (s : sys) : Z := blocked s + awake s.
Definition flushing (s : sys) : Z := flush_blocked s + flush_awake s.

Lemma count_nonneg f l : 0 <= count f l.
Proof. induction l as [|p l IH]; simpl; [lia|]. destruct (f p); simpl; lia. Qed.

Lemma count_le_length f l : count f l <= Z.of_nat (length l).
Proof. induction l as [|p l IH]; simpl; [lia|]. destruct (f p); simpl Z.b2z; lia. Qed.

Lemma count_insert f l t o n :
  l !! t = Some o -> count f (<[t := n]> l) = count f l - Z.b2z (f o) + Z.b2z (f n).
Proof.
  revert t. induction l as [|p l IH]; intros [|t] E; simplify_eq/=; [lia|].
  rewrite (IH _ E). lia.
Qed.

Lemma count_lookup f l t o : l !! t = Some o -> f o = true -> 1 <= count f l.
Proof.
  revert t. induction l as [|p l IH]; intros [|t] E Ho; simplify_eq/=.
  - rewrite Ho. pose proof (count_nonneg f l). simpl; lia.
  - specialize (IH _ E Ho). destruct (f p); simpl; lia.
Qed.

Lemma count_zero f l : count f l = 0 <-> existsb f l = false.
Proof.
  induction l as [|p l IH]; simpl; [done|]. rewrite orb_false_iff, <- IH.
  pose proof (count_nonneg f l). destruct (f p); simpl Z.b2z.
  - split; [lia|by intros []].
  - split; [intros; split; [done|lia]|intros []; lia].
Qed.

Lemma count_find f l : 0 < count f l -> exists t p, l !! t = Some p /\ f p = true.
Proof.
  induction l as [|p l IH]; simpl; [lia|]. destruct (f p) eqn:E.
  - intros _. by exists 0%nat, p.
  - simpl. intros H. destruct (IH ltac:(lia)) as (t&q&?&?). by exists (S t), q.
Qed.

Lemma count_wake f l :
  count f (wake_parked <$> l) =
  count f l + (Z.b2z (f (ParkAwake no_error)) - Z.b2z (f ParkBlocked)) * count is_park_blocked l.
Proof.
  induction l as [|p l IH]; [simpl; lia|]. rewrite fmap_cons. cbn [count]. rewrite IH.
  destruct p; cbn [wake_parked is_park_blocked Z.b2z]; lia.
Qed.

Lemma count_replicate f n p : count f (replicate n p) = Z.of_nat n * Z.b2z (f p).
Proof. induction n as [|n IH]; simpl replicate; simpl count; rewrite ?IH; lia. Qed.

(** Sums of the tallies are at most the number of threads. *)
Lemma tallies_bound s :
  blocked s + awake s + signalling s + leaving s + flush_blocked s + flush_awake s
  <= Z.of_nat (length (threads s)).
Proof.
  unfold blocked, awake, signalling, leaving, flush_blocked, flush_awake.
  induction (threads s) as [|[] l IH]; simpl count; simpl length; simpl Z.b2z; lia.
Qed.

Lemma tallies_nonneg s :
  0 <= blocked s /\ 0 <= awake s /\ 0 <= signalling s /\ 0 <= leaving s /\
  0 <= flush_blocked s /\ 0 <= flush_awake s.
Proof.
  unfold blocked, awake, signalling, leaving, flush_blocked, flush_awake.
  repeat split; apply count_nonneg.
Qed.

(** Facts about the threads of [s] and of [s'] that a step from [s] to [s']
    gives: the unfolded step, with the old places of the threads it moves. *)
Ltac tally :=
  unfold parked, flushing, blocked, awake, signalling, leaving, flush_blocked, flush_awake in *;
  cbn [threads cache set_pc set_cache cond_broadcast thread_cache_size
       list_ cached_thread_count kill_cached_threads] in *.

Ltac tally_moves :=
  repeat match goal with
  | H : ?l !! ?t = Some _ |- context [count _ (<[?t := _]> ?l)] =>
      rewrite !(count_insert _ l t _ _ H)
  | H : ?l !! ?t = Some _, Hc : context [count _ (<[?t := _]> ?l)] |- _ =>
      rewrite !(count_insert _ l t _ _ H) in Hc
  | H : ?l !! ?t = Some _ |- context [count _ (<[?t := _]> (wake_parked <$> ?l))] =>
      rewrite !(count_insert _ (wake_parked <$> l) t (wake_parked _) _)
        by (by rewrite list_lookup_fmap, H)
  end;
  rewrite ?count_wake; cbn [wake_parked] in *;
  cbn [is_park_blocked is_park_awake is_park_signals is_flush_blocked is_flush_awake
       is_enqueue_signals Z.b2z] in *.

(** Inversion of a step: one case for every branch of the code. *)
Ltac step_inv H :=
  unfold step, cond_signal, park_continue, flush_continue, enqueue, flush, park, park_awake,
    flush_loop, final_flush_store in H;
  repeat (case_match || simplify_eq/= ||
    match goal with H : _ ≫= _ = Some _ |- _ => apply bind_Some in H as (?&?&H) end);
  repeat match goal with
  | H : is_park_blocked ?p = true |- _ => destruct p; try done; clear H
  | H : is_flush_blocked ?p = true |- _ => destruct p; try done; clear H
  | H : existsb _ _ = false |- _ => apply count_zero in H
  | H : _ && _ = true |- _ => apply andb_true_iff in H as [? ?]
  | H : _ || _ = false |- _ => apply orb_false_iff in H as [? ?]
  | H : negb _ = true |- _ => apply negb_true_iff in H
  | H : (_ <? _) = true |- _ => apply Z.ltb_lt in H
  | H : truth _ = true |- _ => apply truth_true in H
  | H : truth _ = false |- _ => apply truth_false in H
  end.

(** Threads found at a place are counted there. *)
Ltac tally_place H :=
  match type of H with
  | ?l !! ?t = Some ?p =>
      let add f := (let Hn := fresh in
        assert (1 <= count f l) as Hn by (by apply (count_lookup f l t p H)); revert Hn) in
      (first [add is_park_blocked | add is_park_awake | add is_park_signals
             | add is_flush_blocked | add is_flush_awake | add is_enqueue_signals | idtac]);
      clear H
  end.

Ltac tally_places :=
  repeat match goal with H : <[_ := _]> _ !! _ = Some _ |- _ => tally_place H end;
  intros; tally_moves;
  repeat match goal with H : _ !! _ = Some _ |- _ => tally_place H end; intros.

Ltac cache_lia :=
  repeat match goal with H : list_ _ = _ |- _ => rewrite H in *; clear H end;
  rewrite ?length_app in *; cbn [length] in *;
  repeat match goal with |- context [wrap 32 ?x] => rewrite (u32_small x) by lia end;
  try done; try lia.

(** ** What always holds

    [fits B a]: the variable thread_cache_size is never set above [B]. *)
Definition fits (B : Z) (a : action) : Prop :=
  match a with SetSize n => n <= B | _ => True end.

(** The counter and the queue together account for the parked threads; every
    queued connection has a thread that will look for it (one that is awake,
    or one that a pending signal will wake); and the cache is never larger
    than its configured size. *)
Record inv (B : Z) (s : sys) : Prop := {
  inv_count : cached_thread_count (cache s) + Z.of_nat (length (list_ (cache s))) = parked s;
  inv_nonneg : 0 <= cached_thread_count (cache s);
  inv_queue : Z.of_nat (length (list_ (cache s))) <= signalling s + awake s;
  inv_bound : parked s <= B;
  inv_size : thread_cache_size s <= B
}.

Lemma step_inv_preserved B a s s' e :
  B < 0x100000000 -> inv B s -> fits B a -> step a s = Some (s', e) -> inv B s'.
Proof.
  intros HB [I1 I2 I3 I4 I5] Hf H. destruct (tallies_nonneg s) as (?&?&?&?&?&?).
  destruct a; step_inv H; constructor; tally; tally_moves; tally_places; cache_lia.
Qed.

(** ** Runs *)

(** [reaches ok s es s']: steps that each satisfy [ok] lead from [s] to [s']
    and show the events [es]. *)
Inductive reaches (ok : action -> sys -> Prop) : sys -> list event -> sys -> Prop :=
| reaches_nil s : reaches ok s [] s
| reaches_step s a s1 e es s2 :
    ok a s -> step a s = Some (s1, e) -> reaches ok s1 es s2 -> reaches ok s (e :: es) s2.

(** A property that the permitted steps preserve holds along every run. *)
Lemma reaches_preserves ok (P : sys -> Prop) s es s' :
  (forall a s s' e, P s -> ok a s -> step a s = Some (s', e) -> P s') ->
  P s -> reaches ok s es s' -> P s'.
Proof. intros Hstep HP H. induction H; eauto. Qed.

Lemma reaches_weaken (ok ok' : action -> sys -> Prop) s es s' :
  (forall a s, ok a s -> ok' a s) -> reaches ok s es s' -> reaches ok' s es s'.
Proof. intros Hok H. induction H; econstructor; eauto. Qed.

Lemma reaches_app ok s es s1 es' s2 :
  reaches ok s es s1 -> reaches ok s1 es' s2 -> reaches ok s (es ++ es') s2.
Proof. intros H. induction H; simpl; [done|econstructor; eauto]. Qed.

(** The executable scheduler makes runs. *)
Lemma run_reaches (ok : action -> sys -> Prop) acts s s' es :
  Forall (fun a => forall s, ok a s) acts -> run acts s = Some (s', es) -> reaches ok s es s'.
Proof.
  intros Hok. revert s es. induction Hok as [|a acts Ha Hok IH]; intros s es H; simplify_eq/=.
  - constructor.
  - apply bind_Some in H as ([s1 e]&E1&H). apply bind_Some in H as ([s2 es2]&E2&H).
    simplify_eq/=. econstructor; eauto.
Qed.

Lemma start_inv n B size : size <= B -> 0 <= B -> inv B (start n size).
Proof.
  intros. constructor; tally; unfold start; cbn [threads cache init list_ cached_thread_count
    thread_cache_size]; rewrite ?count_replicate; simpl; lia.
Qed.

Lemma reaches_inv B n size es s :
  0 <= B < 0x100000000 -> size <= B ->
  reaches (fun a _ => fits B a) (start n size) es s -> inv B s.
Proof.
  intros HB Hs. apply reaches_preserves; [|apply start_inv; lia].
  intros. eapply step_inv_preserved; eauto; lia.
Qed.

Lemma step_threads a s s' e : step a s = Some (s', e) -> length (threads s') = length (threads s).
Proof. intros H. destruct a; step_inv H; tally; by rewrite ?length_insert, ?length_fmap. Qed.

Lemma reaches_length ok s es s' : reaches ok s es s' -> length (threads s') = length (threads s).
Proof.
  apply (reaches_preserves ok (fun s' => length (threads s') = length (threads s))); [|done].
  intros a s1 s2 e <- _ H. by eapply step_threads.
Qed.

Lemma reaches_threads ok n size es s :
  reaches ok (start n size) es s -> length (threads s) = n.
Proof. intros ->%reaches_length. apply length_replicate. Qed.

(** *** Connections are served in order *)

Definition accepted (e : event) : list CONNECT :=
  match e with Accepted c => [c] | _ => [] end.
Definition served (e : event) : list CONNECT :=
  match e with Served c => [c] | _ => [] end.

Lemma step_fifo a s s' e :
  step a s = Some (s', e) ->
  list_ (cache s) ++ accepted e = served e ++ list_ (cache s').
Proof.
  intros H. destruct a; step_inv H; cbn [accepted served park_event]; rewrite ?app_nil_r;
    simplify_list_eq; try done; congruence.
Qed.

Lemma reaches_fifo ok s es s' :
  reaches ok s es s' ->
  list_ (cache s) ++ (es ≫= accepted) = (es ≫= served) ++ list_ (cache s').
Proof.
  intros H. induction H as [s|s a s1 e es s2 _ E _ IH]; [by rewrite app_nil_r|].
  rewrite !bind_cons, app_assoc, (step_fifo _ _ _ _ E), <- !app_assoc. by f_equal.
Qed.

(** *** Settling

    Steps that no caller and no clock has to start: pending signals are sent,
    threads that are awake run. *)
Definition internal (a : action) : Prop :=
  match a with
  | EnqueueSignal _ _ | ParkResumes _ | ParkSignal _ _ | FlushResumes _ => True
  | _ => False
  end.

Definition settled (s : sys) : Prop := forall a, internal a -> step a s = None.

Definition quiet (s : sys) : Prop :=
  signalling s = 0 /\ awake s = 0 /\ leaving s = 0 /\ flush_awake s = 0.

(** A signal can always be sent: to a blocked thread, or to nobody. *)
Lemma cond_signal_possible f q s : exists w, is_Some (cond_signal f q w s).
Proof.
  destruct (existsb f (threads s)) eqn:E.
  - destruct (count_find f (threads s)) as (t&p&Ht&Hp).
    { pose proof (count_nonneg f (threads s)).
      assert (count f (threads s) <> 0) by (rewrite count_zero; by rewrite E). lia. }
    exists (Some t). unfold cond_signal. rewrite Ht. cbn [mbind option_bind]. rewrite Hp. eauto.
  - exists None. unfold cond_signal. rewrite E. eauto.
Qed.

(** A thread at one of these places can take an internal step. *)
Lemma place_steps s t p :
  threads s !! t = Some p ->
  is_enqueue_signals p || is_park_awake p || is_park_signals p || is_flush_awake p = true ->
  exists a s' e, internal a /\ step a s = Some (s', e).
Proof.
  intros Ht Hp. destruct p; try done.
  - eexists (ParkResumes t), _, _. split; [done|]. unfold step. rewrite Ht.
    cbn [mbind option_bind]. rewrite (surjective_pairing (park_continue _ _ _)). done.
  - destruct (cond_signal_possible is_flush_blocked FlushAwake (set_pc s t Outside)) as [w [s' E]].
    exists (ParkSignal t w), s', Tau. split; [done|].
    unfold step. rewrite Ht. cbn [mbind option_bind]. by rewrite E.
  - eexists (FlushResumes t), _, _. split; [done|]. unfold step. rewrite Ht.
    cbn [mbind option_bind]. rewrite (surjective_pairing (flush_continue _ _ _)). done.
  - destruct (cond_signal_possible is_park_blocked (ParkAwake no_error) (set_pc s t Outside))
      as [w [s' E]].
    exists (EnqueueSignal t w), s', Tau. split; [done|].
    unfold step. rewrite Ht. cbn [mbind option_bind]. by rewrite E.
Qed.

Lemma quiet_or_steps s : quiet s \/ exists a s' e, internal a /\ step a s = Some (s', e).
Proof.
  assert (forall f,
    (forall p, f p = true ->
      is_enqueue_signals p || is_park_awake p || is_park_signals p || is_flush_awake p = true) ->
    count f (threads s) = 0 \/ exists a s' e, internal a /\ step a s = Some (s', e)) as K.
  { intros f Hf. pose proof (count_nonneg f (threads s)).
    destruct (Z.eq_dec (count f (threads s)) 0); [by left|right].
    destruct (count_find f (threads s)) as (t&p&Ht&Hp); [lia|]. eauto using place_steps. }
  destruct (K is_enqueue_signals) as [|]; [by intros []|..|by right].
  destruct (K is_park_awake) as [|]; [by intros []|..|by right].
  destruct (K is_park_signals) as [|]; [by intros []|..|by right].
  destruct (K is_flush_awake) as [|]; [by intros []|..|by right].
  by left.
Qed.

Lemma settled_quiet s : settled s -> quiet s.
Proof.
  intros Hs. destruct (quiet_or_steps s) as [|(a&s'&e&Ha&E)]; [done|].
  by rewrite (Hs a Ha) in E.
Qed.

Lemma quiet_settled s : quiet s -> settled s.
Proof.
  intros (Q1&Q2&Q3&Q4) a Ha. destruct (step a s) as [[s' e]|] eqn:H; [|done].
  destruct a; try done; step_inv H; tally; tally_places; lia.
Qed.

(** Every internal step decreases this measure: a parked thread that leaves
    signals a flusher, which wakes at most all the threads. *)
Definition work (s : sys) : Z :=
  let n := Z.of_nat (length (threads s)) in
  (n + 3) * parked s + (n + 2) * leaving s + (n + 1) * flush_awake s + 2 * signalling s + awake s.

Lemma step_work a s s' e : internal a -> step a s = Some (s', e) -> work s' < work s.
Proof.
  intros Hi H. unfold work. rewrite (step_threads _ _ _ _ H).
  pose proof (tallies_bound s) as Hn. destruct (tallies_nonneg s) as (?&?&?&?&?&?).
  generalize dependent (Z.of_nat (length (threads s))). intros n Hn.
  destruct a; try done; step_inv H; tally; tally_moves; tally_places; try nia.
Qed.

Lemma work_bound s :
  0 <= work s <= Z.of_nat (length (threads s)) * (Z.of_nat (length (threads s)) + 4).
Proof.
  unfold work, parked. pose proof (tallies_bound s). destruct (tallies_nonneg s) as (?&?&?&?&?&?).
  nia.
Qed.

Lemma reaches_work s es s' :
  reaches (fun a _ => internal a) s es s' -> work s' + Z.of_nat (length es) <= work s.
Proof.
  intros H. induction H as [|s a s1 e es s2 Ha E _ IH]; [simpl; lia|].
  pose proof (step_work _ _ _ _ Ha E). simpl length. lia.
Qed.

(** A run of internal steps that settles exists from every state. *)
Lemma settles_eventually s :
  exists es s', reaches (fun a _ => internal a) s es s' /\ settled s'.
Proof.
  remember (Z.to_nat (work s)) as w eqn:Ew. revert s Ew.
  induction (lt_wf w) as [w _ IH]. intros s ->.
  destruct (quiet_or_steps s) as [Hq|(a&s1&e&Ha&E)].
  { exists [], s. split; [constructor|by apply quiet_settled]. }
  pose proof (step_work _ _ _ _ Ha E). pose proof (work_bound s). pose proof (work_bound s1).
  destruct (IH (Z.to_nat (work s1)) ltac:(lia) s1 eq_refl) as (es&s'&Hr&Hs').
  exists (e :: es), s'. split; [by econstructor|done].
Qed.

(** *** Flushing *)

(** Steps of runs in which [flush] is never called while another flush is in
    progress, and [final_flush] not at all. *)
Definition serial (B : Z) (a : action) (s : sys) : Prop :=
  fits B a /\
  match a with
  | Flush _ => flushing s = 0
  | FinalLoad _ | FinalStore _ => False
  | _ => True
  end.

(** While a flusher is blocked nobody is blocked in [park], and some thread is
    on its way to wake the flusher. *)
Record flush_inv (s : sys) : Prop := {
  flush_kill : kill_cached_threads (cache s) = flushing s;
  flush_one : flushing s <= 1;
  flush_wakes : 0 < flush_blocked s -> blocked s = 0 /\ 1 <= awake s + leaving s
}.

Lemma step_flush_inv B a s s' e :
  B < 0x100000000 -> inv B s -> flush_inv s -> serial B a s -> step a s = Some (s', e) ->
  flush_inv s'.
Proof.
  intros HB [I1 I2 I3 I4 I5] [F1 F2 F3] [Hf Hser] H. destruct (tallies_nonneg s) as (?&?&?&?&?&?).
  destruct a; try done; step_inv H; constructor; tally; tally_moves; tally_places; cache_lia.
Qed.

Lemma reaches_flush_inv B n size es s :
  0 <= B < 0x100000000 -> size <= B ->
  reaches (serial B) (start n size) es s -> inv B s /\ flush_inv s.
Proof.
  intros HB Hs. apply (reaches_preserves _ (fun s => inv B s /\ flush_inv s)).
  - intros a s1 s2 e [HI HF] Ha E. split.
    + eapply step_inv_preserved; eauto; [lia|apply Ha].
    + eapply step_flush_inv; eauto; lia.
  - split; [apply start_inv; lia|]. constructor; tally; unfold start;
      cbn [threads cache init kill_cached_threads]; rewrite ?count_replicate; simpl; lia.
Qed.

(** [kill_cached_threads] counts the flushes in progress, and [b] more, as
    long as no [final_flush] stores a value it loaded earlier. *)
Definition locked (a : action) : Prop := match a with FinalStore _ => False | _ => True end.

Definition kill_inv (b : Z) (s : sys) : Prop :=
  kill_cached_threads (cache s) = wrap 32 (b + flushing s).

Lemma step_kill_inv b a s s' e :
  kill_inv b s -> locked a -> step a s = Some (s', e) -> kill_inv b s'.
Proof.
  unfold kill_inv. intros K Hl H. destruct a; try done; step_inv H; tally; tally_moves;
    rewrite K; unfold wrap; rewrite ?Zplus_mod_idemp_l, ?Zminus_mod_idemp_l;
    f_equal; lia.
Qed.

Lemma reaches_kill_inv (ok : action -> sys -> Prop) b s es s' :
  (forall a s, ok a s -> locked a) -> kill_inv b s -> reaches ok s es s' -> kill_inv b s'.
Proof. intros Hok. apply reaches_preserves. eauto using step_kill_inv. Qed.

Lemma start_kill_inv n size : kill_inv 0 (start n size).
Proof.
  unfold kill_inv, start. tally. rewrite !count_replicate. simpl. by rewrite Z.mul_0_r.
Qed.

(** When a flush is in progress or forbidden, [park] lets no thread in. *)
Lemma kill_inv_refuses b s :
  0 <= b -> 0 < b + flushing s < 0x100000000 -> kill_inv b s -> kill_cached_threads (cache s) <> 0.
Proof. unfold kill_inv. intros Hb Hf ->. rewrite u32_small; lia. Qed.

Lemma flushing_bound s : flushing s <= Z.of_nat (length (threads s)).
Proof.
  pose proof (tallies_bound s). destruct (tallies_nonneg s) as (?&?&?&?&?&?).
  unfold flushing. lia.
Qed.

Lemma blocked_flushing s t : threads s !! t = Some FlushBlocked -> 0 < flushing s.
Proof.
  intros HP. unfold flushing, flush_blocked, flush_awake.
  pose proof (count_lookup is_flush_blocked _ _ _ HP eq_refl).
  pose proof (count_nonneg is_flush_awake (threads s)). lia.
Qed.

(** Two flushes: the flusher that is still blocked when the last parked thread
    has left stays blocked. *)
Definition calm (B : Z) (a : action) : Prop :=
  fits B a /\ match a with FinalStore _ | FlushReturns _ => False | _ => True end.

Record starved (B : Z) (t : nat) (s : sys) : Prop := {
  starved_inv : inv B s;
  starved_kill : kill_inv 0 s;
  starved_place : threads s !! t = Some FlushBlocked;
  starved_nobody : parked s = 0 /\ leaving s = 0
}.

Lemma step_starved B t a s s' e :
  B < 0x100000000 -> Z.of_nat (length (threads s)) < 0x100000000 ->
  starved B t s -> calm B a -> step a s = Some (s', e) -> starved B t s'.
Proof.
  intros HB Hn [HI HK HP [H1 H2]] [Hf Hc] H.
  pose proof (step_inv_preserved _ _ _ _ _ HB HI Hf H) as HI'.
  assert (locked a) as Hlk by (destruct a; try exact I; exact Hc).
  pose proof (step_kill_inv 0 _ _ _ _ HK Hlk H) as HK'. clear Hlk.
  pose proof (flushing_bound s) as Hb.
  pose proof (blocked_flushing _ _ HP) as Hpos.
  pose proof (kill_inv_refuses 0 s ltac:(lia) ltac:(lia) HK) as Hkill.
  destruct HI as [I1 I2 I3 I4 I5]. destruct (tallies_nonneg s) as (?&?&?&?&?&?).
  split; [done|done|..]; clear HI' HK' HK Hpos Hb.
  - destruct a; try done; step_inv H; tally; try done;
      rewrite ?list_lookup_insert_ne by congruence; try done; exfalso; tally_places; lia.
  - destruct a; try done; step_inv H; tally; tally_moves; tally_places; cache_lia.
Qed.

Lemma reaches_starved B t s es s' :
  B < 0x100000000 -> Z.of_nat (length (threads s)) < 0x100000000 ->
  starved B t s -> reaches (fun a _ => calm B a) s es s' -> starved B t s'.
Proof.
  intros HB Hn Hs H. induction H as [|s a s1 e es s2 Ha E H IH]; [done|].
  apply IH; [by rewrite (step_threads _ _ _ _ E)|by eapply step_starved].
Qed.

(** ** The theorems *)

(** C1: In every state that any interleaving of the methods can reach, the
    counter is exactly the number of threads kept by [park] minus the queued
    connections (so [size] never wraps around), the cache holds no more threads
    than thread_cache_size ever allowed, the accepted connections are the
    served ones followed by the queue, in order and each once, and the
    assertions of [destroy] hold when no thread is left in the cache. *)
Theorem thread_cache_invariant B n size0 es s :
  0 <= B < 0x100000000 -> size0 <= B ->
  reaches (fun a _ => fits B a) (start n size0) es s ->
  Thread_cache.size (cache s) = parked s - Z.of_nat (length (list_ (cache s))) /\
  0 <= Thread_cache.size (cache s) /\ parked s <= B /\
  es ≫= accepted = (es ≫= served) ++ list_ (cache s) /\
  (parked s = 0 -> destroy (cache s) = Some tt).
Proof.
  intros HB Hs Hr. pose proof (reaches_inv _ _ _ _ _ HB Hs Hr) as [I1 I2 I3 I4 I5].
  unfold Thread_cache.size. repeat split; [lia|done|done|exact (reaches_fifo _ _ _ _ Hr)|].
  intros H0. unfold destroy. destruct (list_ (cache s)) eqn:E; simpl in I1; [|lia].
  rewrite (proj2 (Z.eqb_eq _ 0)) by lia. done.
Qed.

(** A thread parks, a connection is queued, another thread that comes to park
    takes it, the signal wakes the parked thread for nothing. *)
Definition steal : list action :=
  [Park 0%nat; Enqueue 1%nat 7; Park 2%nat; EnqueueSignal 1%nat (Some 0%nat); ParkResumes 0%nat].

Lemma thread_cache_invariant_witness :
  exists es s, run steal (start 3 2) = Some (s, es) /\
    Thread_cache.size (cache s) = parked s - Z.of_nat (length (list_ (cache s))) /\
    0 <= Thread_cache.size (cache s) /\ parked s <= 2 /\
    es ≫= accepted = (es ≫= served) ++ list_ (cache s) /\
    (parked s = 0 -> destroy (cache s) = Some tt).
Proof.
  exists [Tau; Accepted 7; Served 7; Tau; Tau],
    (mk_sys (mk [] 1 0) 2 [ParkBlocked; Outside; Outside]).
  split; [reflexivity|]. apply (thread_cache_invariant 2 3 2); [lia|lia|].
  apply (run_reaches _ steal); [|reflexivity]. repeat constructor; simpl; lia.
Defined.

(** C2: No accepted connection is forgotten.  From every reachable state the
    threads that are awake and the pending signals run out after at most
    [n * (n + 4)] steps, whatever their order, and then the queue is empty:
    every connection that [enqueue] accepted has been taken by a [park]. *)
Theorem connections_are_served B n size0 es s :
  0 <= B < 0x100000000 -> size0 <= B ->
  reaches (fun a _ => fits B a) (start n size0) es s ->
  (exists es' s', reaches (fun a _ => internal a) s es' s' /\ settled s') /\
  (forall es' s', reaches (fun a _ => internal a) s es' s' ->
    (length es' <= n * (n + 4))%nat /\
    (settled s' ->
      list_ (cache s') = [] /\ (es ++ es') ≫= served = (es ++ es') ≫= accepted)).
Proof.
  intros HB Hs Hr. split; [apply settles_eventually|]. intros es' s' Hr'. split.
  - pose proof (reaches_work _ _ _ Hr'). pose proof (work_bound s). pose proof (work_bound s').
    rewrite (reaches_threads _ _ _ _ _ Hr) in *. nia.
  - intros Hset. pose proof (settled_quiet _ Hset) as (Q1&Q2&_).
    assert (reaches (fun a _ => fits B a) (start n size0) (es ++ es') s') as Hr2.
    { eapply reaches_app; [done|]. eapply reaches_weaken; [|done]. by intros []. }
    pose proof (reaches_inv _ _ _ _ _ HB Hs Hr2) as [I1 I2 I3 I4 I5].
    assert (list_ (cache s') = []) as E.
    { destruct (list_ (cache s')); [done|]. simpl length in I3. lia. }
    split; [done|]. pose proof (reaches_fifo _ _ _ _ Hr2) as F.
    rewrite E, app_nil_r in F. by rewrite <- F.
Qed.

Lemma connections_are_served_witness :
  exists s es, run [Park 0%nat; Enqueue 1%nat 7] (start 2 1) = Some (s, es) /\
  (exists es' s', reaches (fun a _ => internal a) s es' s' /\ settled s') /\
  (forall es' s', reaches (fun a _ => internal a) s es' s' ->
    (length es' <= 2 * (2 + 4))%nat /\
    (settled s' ->
      list_ (cache s') = [] /\ (es ++ es') ≫= served = (es ++ es') ≫= accepted)).
Proof.
  exists (mk_sys (mk [7] 0 0) 1 [ParkBlocked; EnqueueSignals]), [Tau; Accepted 7].
  split; [reflexivity|]. apply (connections_are_served 1 2 1); [lia|lia|].
  apply (run_reaches _ [Park 0%nat; Enqueue 1%nat 7]); [|reflexivity].
  repeat constructor; simpl; lia.
Defined.

(** As long as flushes do not overlap, a flush ends: while it is blocked
    no thread is blocked in [park] and a wake-up is on its way, and once the
    threads that are awake have run, no flush is in progress and parking is
    allowed again. *)
Theorem flush_ends B n size0 es s :
  0 <= B < 0x100000000 -> size0 <= B ->
  reaches (serial B) (start n size0) es s ->
  (0 < flush_blocked s -> blocked s = 0 /\ 1 <= awake s + leaving s) /\
  (forall es' s', reaches (fun a _ => internal a) s es' s' -> settled s' ->
    flushing s' = 0 /\ kill_cached_threads (cache s') = 0).
Proof.
  intros HB Hs Hr. split; [apply (reaches_flush_inv B n size0 es); auto|].
  intros es' s' Hr' (Q1&Q2&Q3&Q4)%settled_quiet.
  assert (reaches (serial B) (start n size0) (es ++ es') s') as Hr2.
  { eapply reaches_app; [done|]. eapply reaches_weaken; [|done]. by intros []. }
  destruct (reaches_flush_inv _ _ _ _ _ HB Hs Hr2) as [_ [F1 F2 F3]].
  destruct (tallies_nonneg s') as (?&?&?&?&?&?). rewrite F1. unfold flushing in *.
  destruct (Z.eq_dec (flush_blocked s') 0); [lia|]. destruct F3; lia.
Qed.

(** A flush in progress with one parked thread. *)
Lemma flush_ends_witness :
  exists es s, reaches (serial 1) (start 2 1) es s /\ flush_blocked s = 1 /\
  (0 < flush_blocked s -> blocked s = 0 /\ 1 <= awake s + leaving s) /\
  (forall es' s', reaches (fun a _ => internal a) s es' s' -> settled s' ->
    flushing s' = 0 /\ kill_cached_threads (cache s') = 0).
Proof.
  exists [Tau; Tau], (mk_sys (mk [] 1 1) 1 [ParkAwake no_error; FlushBlocked]).
  assert (reaches (serial 1) (start 2 1) [Tau; Tau]
    (mk_sys (mk [] 1 1) 1 [ParkAwake no_error; FlushBlocked])) as Hr.
  { eapply (reaches_step _ _ (Park 0%nat)); [done|reflexivity|].
    eapply (reaches_step _ _ (Flush 1%nat)); [done|reflexivity|]. constructor. }
  split; [exact Hr|]. split; [reflexivity|].
  eapply (flush_ends 1 2 1); [lia|lia|exact Hr].
Defined.

(** Two flushes of a cache with one parked thread. *)
Definition two_flushes : list action :=
  [Park 0%nat; Flush 1%nat; Flush 2%nat; ParkResumes 0%nat; ParkSignal 0%nat (Some 1%nat);
   FlushResumes 1%nat].

(** Overlapping flushes can block for ever.  The parked thread that leaves
    wakes one flusher only; the other one stays blocked in every continuation
    without spurious wake-ups, although the cache is empty, and until then no
    thread can park. *)
Theorem concurrent_flush_starves :
  exists s es,
    run two_flushes (start 3 1) = Some (s, es) /\
    forall es' s', reaches (fun a _ => calm 1 a) s es' s' ->
      threads s' !! 2%nat = Some FlushBlocked /\ cached_thread_count (cache s') = 0 /\
      forall t s'' e, step (Park t) s' = Some (s'', e) -> e = Retired.
Proof.
  exists (mk_sys (mk [] 0 1) 1 [Outside; Outside; FlushBlocked]).
  eexists. split; [reflexivity|]. intros es' s' Hr.
  assert (starved 1 2 s') as [[I1 I2 I3 I4 I5] HK HP [H1 H2]].
  { eapply reaches_starved; [| |..|exact Hr]; [done|done|]. split; [|reflexivity..|done].
    split; by vm_compute. }
  split; [done|]. split; [lia|]. intros t s'' e H.
  pose proof (blocked_flushing _ _ HP) as Hpos.
  pose proof (reaches_length _ _ _ _ Hr) as Hl. simpl in Hl.
  pose proof (flushing_bound s'). rewrite Hl in *.
  pose proof (kill_inv_refuses 0 s' ltac:(lia) ltac:(lia) HK) as Hkill.
  step_inv H; try done. simpl in I1. lia.
Qed.

(** [final_flush] without interference: load and store follow each other. *)
Lemma final_flush_kill b t s s1 s2 e1 e2 :
  kill_inv b s -> step (FinalLoad t) s = Some (s1, e1) -> step (FinalStore t) s1 = Some (s2, e2) ->
  kill_inv (b + 1) s2.
Proof.
  unfold kill_inv. intros K H1 H2. revert H2. step_inv H1. intros H2. step_inv H2. tally.
  rewrite list_lookup_insert_eq in * by (by eapply lookup_lt_Some). simplify_eq.
  rewrite list_insert_insert_eq. tally_moves.
  unfold final_flush_load. rewrite K. unfold wrap. rewrite Zplus_mod_idemp_l. f_equal. lia.
Qed.

(** Once a [final_flush] has counted itself, undisturbed, no thread is
    parked any more: [park] returns at once, with a queued connection or NULL.
    This holds for any number of threads and flushes that the 32-bit counter
    can count. *)
Theorem final_flush_forbids_parking n size0 es s t s1 e1 s2 e2 es' s3 u s4 e :
  Z.of_nat n < 0xFFFFFFFF ->
  reaches (fun a _ => locked a) (start n size0) es s ->
  step (FinalLoad t) s = Some (s1, e1) -> step (FinalStore t) s1 = Some (s2, e2) ->
  reaches (fun a _ => locked a) s2 es' s3 ->
  step (Park u) s3 = Some (s4, e) ->
  threads s4 !! u = Some Outside /\ parked s4 = parked s3.
Proof.
  intros Hn Hr H1 H2 Hr' H. pose proof (reaches_threads _ _ _ _ _ Hr) as L.
  rewrite <- (step_threads _ _ _ _ H1), <- (step_threads _ _ _ _ H2),
    <- (reaches_length _ _ _ _ Hr') in L.
  assert (kill_inv 1 s3) as HK.
  { eapply reaches_kill_inv; [| |exact Hr']; [done|].
    eapply (final_flush_kill 0); [|done..].
    eapply reaches_kill_inv; [| |exact Hr]; [done|apply start_kill_inv]. }
  pose proof (flushing_bound s3). destruct (tallies_nonneg s3) as (?&?&?&?&?&?).
  pose proof (kill_inv_refuses 1 s3 ltac:(lia) ltac:(unfold flushing in *; lia) HK).
  step_inv H; try done; (split; [|tally; tally_moves; lia]); tally;
    rewrite list_lookup_insert_eq; eauto using lookup_lt_Some.
Qed.

(** The system after an undisturbed [final_flush] of two idle threads. *)
Lemma final_flush_forbids_parking_witness :
  exists s4 e, step (Park 1%nat) (mk_sys (mk [] 0 1) 5 [FinalStored; Outside]) = Some (s4, e) /\
    threads s4 !! 1%nat = Some Outside /\
    parked s4 = parked (mk_sys (mk [] 0 1) 5 [FinalStored; Outside]).
Proof.
  exists (mk_sys (mk [] 0 1) 5 [FinalStored; Outside]), Retired. split; [reflexivity|].
  eapply (final_flush_forbids_parking 2 5 [] (start 2 5) 0%nat);
    [done|constructor|reflexivity|reflexivity|constructor|reflexivity].
Defined.

(** The increment of [final_flush] loses a flush that starts after the load. *)
Definition final_flush_race : list action :=
  [Park 1%nat; FinalLoad 0%nat; Flush 2%nat; ParkResumes 1%nat; FinalStore 0%nat;
   ParkSignal 1%nat (Some 2%nat); FlushResumes 2%nat; Flush 0%nat; Park 1%nat].

(** The increment of [final_flush] is not protected: when a flush runs
    between its load and its store, all flushes return, the final one
    included, and a thread parks in the cache afterwards. *)
Theorem final_flush_race_parks :
  exists s, run final_flush_race (start 3 1) =
      Some (s, [Tau; Tau; Tau; Retired; Tau; Tau; Flushed; Flushed; Tau]) /\
    threads s = [Outside; ParkBlocked; Outside] /\ kill_cached_threads (cache s) = 0.
Proof. by exists (mk_sys (mk [] 1 0) 1 [Outside; ParkBlocked; Outside]). Qed.

End System.
