(* ===== verification/LifoBuffer.v ===== *)
(** * LIFO buffers of include/mysql/server/private/sql_lifo_buffer.h

    [Lifo_buffer] is an abstract class: its virtual methods are the class
    [Lifo_buffer] here, with the instances [Forward] and [Backward].  The
    operations that the base class and [Lifo_buffer_iterator] define on top of
    the virtual methods are written against the class, and so are the theorems:
    [LifoLaws] states what a buffer promises and both instances discharge it.

    Memory is shared by the buffers and passed explicitly; pointers are 64-bit
    addresses. *)

From Stdlib Require Import ZArith Lia.
From stdpp Require Import prelude list_numbers.
From S2P Require Import Prelude Mem.
Local Open Scope Z_scope.
Local Open Scope cint_scope.

Module Lifo.

Record buffer := mk_buffer {
  size1 : Z; size2 : Z;
  write_ptr1 : Z; write_ptr2 : Z;
  read_ptr1 : Z; read_ptr2 : Z;
  start : Z; end_ : Z; pos : Z
}.

Definition set_pos (b : buffer) (p : Z) : buffer :=
  mk_buffer (size1 b) (size2 b) (write_ptr1 b) (write_ptr2 b) (read_ptr1 b) (read_ptr2 b)
    (start b) (end_ b) p.
Definition set_start (b : buffer) (p : Z) : buffer :=
  mk_buffer (size1 b) (size2 b) (write_ptr1 b) (write_ptr2 b) (read_ptr1 b) (read_ptr2 b)
    p (end_ b) (pos b).
Definition set_end (b : buffer) (p : Z) : buffer :=
  mk_buffer (size1 b) (size2 b) (write_ptr1 b) (write_ptr2 b) (read_ptr1 b) (read_ptr2 b)
    (start b) p (pos b).
Definition set_read (b : buffer) (p1 p2 : Z) : buffer :=
  mk_buffer (size1 b) (size2 b) (write_ptr1 b) (write_ptr2 b) p1 p2 (start b) (end_ b) (pos b).
Definition set_write (b : buffer) (p1 p2 : Z) : buffer :=
  mk_buffer (size1 b) (size2 b) p1 p2 (read_ptr1 b) (read_ptr2 b) (start b) (end_ b) (pos b).

Inductive enum_direction := BACKWARD | FORWARD.

(** ** The virtual methods

    [read_at] is [read(uchar **position, uchar **ptr1, uchar **ptr2)]: from the
    three pointers it returns the flag and the three pointers it leaves.  A
    failed assertion of [write] has no result. *)
Class Lifo_buffer := {
  type : enum_direction;
  used_size : buffer -> Z;
  reset : buffer -> buffer;
  end_of_space : buffer -> Z;
  have_space_for : buffer -> Z -> bool;
  write : mem -> buffer -> option (mem * buffer);
  read_at : buffer -> Z -> Z -> Z -> bool * (Z * Z * Z);
  used_area : buffer -> Z
}.

(** ** [Forward_lifo_buffer] *)

Definition fw_used_size (b : buffer) : Z := u64 (pos b - start b).

Definition fw_reset (b : buffer) : buffer := set_pos b (start b).

Definition fw_have_space_for (b : buffer) (bytes : Z) : bool := u64 (pos b + bytes) <? end_ b.

Definition fw_write_bytes (m : mem) (b : buffer) (data bytes : Z) : option (mem * buffer) :=
  if fw_have_space_for b bytes
  then Some (memcpy m (pos b) data bytes, set_pos b (u64 (pos b + bytes))) else None.

Definition fw_write (m : mem) (b : buffer) : option (mem * buffer) :=
  '(m, b) ← fw_write_bytes m b (write_ptr1 b) (size1 b);
  if truth (size2 b) then fw_write_bytes m b (write_ptr2 b) (size2 b) else Some (m, b).

Definition fw_have_data (b : buffer) (position bytes : Z) : bool :=
  s64 bytes <=? position - start b.

Definition fw_read_bytes (position bytes : Z) : Z := u64 (position - bytes).

Definition fw_read_at (b : buffer) (position ptr1 ptr2 : Z) : bool * (Z * Z * Z) :=
  if negb (fw_have_data b position (u64 (size1 b + size2 b))) then (true, (position, ptr1, ptr2))
  else
    let '(position, ptr2) :=
      if truth (size2 b)
      then (fw_read_bytes position (size2 b), fw_read_bytes position (size2 b))
      else (position, ptr2) in
    let position := fw_read_bytes position (size1 b) in
    (false, (position, position, ptr2)).

Definition fw_grow (trash : bool) (m : mem) (b : buffer) (unused_start unused_end : Z) : mem * buffer :=
  (TRASH_ALLOC trash m unused_start (u64 (unused_end - unused_start)), set_end b unused_end).

#[export] Instance Forward : Lifo_buffer := {
  type := FORWARD;
  used_size := fw_used_size;
  reset := fw_reset;
  end_of_space := pos;
  have_space_for := fw_have_space_for;
  write := fw_write;
  read_at := fw_read_at;
  used_area := start
}.

(** ** [Backward_lifo_buffer] *)

Definition bw_used_size (b : buffer) : Z := u64 (end_ b - pos b).

Definition bw_reset (b : buffer) : buffer := set_pos b (end_ b).

Definition bw_have_space_for (b : buffer) (bytes : Z) : bool := start b <=? u64 (pos b - bytes).

Definition bw_write_bytes (m : mem) (b : buffer) (data bytes : Z) : option (mem * buffer) :=
  if bw_have_space_for b bytes then
    let b := set_pos b (u64 (pos b - bytes)) in
    Some (memcpy m (pos b) data bytes, b)
  else None.

Definition bw_write (m : mem) (b : buffer) : option (mem * buffer) :=
  '(m, b) ← (if truth (write_ptr2 b) then bw_write_bytes m b (write_ptr2 b) (size2 b) else Some (m, b));
  bw_write_bytes m b (write_ptr1 b) (size1 b).

Definition bw_have_data (b : buffer) (position bytes : Z) : bool :=
  s64 bytes <=? end_ b - position.

Definition bw_read_bytes (position bytes : Z) : Z * Z := (position, u64 (position + bytes)).

Definition bw_read_at (b : buffer) (position ptr1 ptr2 : Z) : bool * (Z * Z * Z) :=
  if negb (bw_have_data b position (u64 (size1 b + size2 b))) then (true, (position, ptr1, ptr2))
  else
    let '(ptr1, position) := bw_read_bytes position (size1 b) in
    let '(ptr2, position) :=
      if truth (size2 b) then bw_read_bytes position (size2 b) else (ptr2, position) in
    (false, (position, ptr1, ptr2)).

(** The unused space handed back, and the buffer without it. *)
Definition bw_remove_unused_space (b : buffer) : (Z * Z) * buffer :=
  ((start b, pos b), set_start b (pos b)).

#[export] Instance Backward : Lifo_buffer := {
  type := BACKWARD;
  used_size := bw_used_size;
  reset := bw_reset;
  end_of_space := end_;
  have_space_for := bw_have_space_for;
  write := bw_write;
  read_at := bw_read_at;
  used_area := pos
}.

(** ** Operations of the base class and of the iterator *)

Section operations.
Context `{L : Lifo_buffer}.

Definition set_buffer_space (trash : bool) (m : mem) (b : buffer) (start_arg end_arg : Z) : mem * buffer :=
  let b := set_end (set_start b start_arg) end_arg in
  let m := if negb (end_ b =? start b)
           then TRASH_ALLOC trash m (start b) (u64 (end_ b - start b)) else m in
  (m, reset b).

Definition setup_writing (b : buffer) (len1 len2 : Z) : buffer :=
  mk_buffer len1 len2 (write_ptr1 b) (write_ptr2 b) (read_ptr1 b) (read_ptr2 b)
    (start b) (end_ b) (pos b).

(** The assertions of [setup_reading]; it changes nothing. *)
Definition setup_reading (b : buffer) (len1 len2 : Z) : bool :=
  (len1 =? size1 b) && (len2 =? size2 b).

Definition can_write (b : buffer) : bool := have_space_for b (u64 (size1 b + size2 b)).

Definition is_empty (b : buffer) : bool := used_size b =? 0.

Definition read (b : buffer) : bool * buffer :=
  let '(eof, (p, p1, p2)) := read_at b (pos b) (read_ptr1 b) (read_ptr2 b) in
  (eof, set_pos (set_read b p1 p2) p).

(** [my_qsort2] is only declared in the headers: an argument. *)
Definition sort (my_qsort2 : mem -> Z -> Z -> Z -> mem) (m : mem) (b : buffer) : mem :=
  let elem_size := u64 (size1 b + size2 b) in
  let n_elements := used_size b / elem_size in
  my_qsort2 m (used_area b) n_elements elem_size.

(** [Lifo_buffer_iterator]: position and the two read pointers. *)
Record iterator := mk_iterator { it_pos : Z; it_ptr1 : Z; it_ptr2 : Z }.

Definition it_init (b : buffer) (it : iterator) : iterator :=
  mk_iterator (pos b) (it_ptr1 it) (it_ptr2 it).

Definition it_read (b : buffer) (it : iterator) : bool * iterator :=
  let '(eof, (p, p1, p2)) := read_at b (it_pos it) (it_ptr1 it) (it_ptr2 it) in
  (eof, mk_iterator p p1 p2).

End operations.

(** ** What a LIFO buffer promises

    Element number [k], counted from the bottom of the stack, occupies the
    [size1 + size2] bytes at [place k]; with [n] elements the position is
    [top n].  Both depend on the bounds of the space and the element size. *)

Definition elem_size (b : buffer) : Z := size1 b + size2 b.

(** User-space addresses: no sum or difference below leaves 63 bits. *)
Definition wf (b : buffer) : Prop :=
  0 <= size1 b /\ 0 <= size2 b /\ 0 < elem_size b /\ start b <= end_ b /\
  elem_size b <= start b /\ end_ b + elem_size b < 2 ^ 63.

Definition fits (b : buffer) (n : Z) : Prop := 0 <= n /\ n * elem_size b <= end_ b - start b.

Definition outside (b : buffer) (a n : Z) : Prop := a + n <= start b \/ end_ b <= a.

(** What the code does with the write pointers: null means no second part. *)
Definition source_ok (b : buffer) : Prop :=
  outside b (write_ptr1 b) (size1 b) /\ outside b (write_ptr2 b) (size2 b) /\
  (size2 b <> 0 -> write_ptr2 b <> 0).

Class LifoLaws (L : Lifo_buffer) := {
  place_of : Z -> Z -> Z -> Z -> Z;
  top_of : Z -> Z -> Z -> Z -> Z;
  capacity_of : Z -> Z -> Z -> Z;
  place b := place_of (start b) (end_ b) (elem_size b);
  top b := top_of (start b) (end_ b) (elem_size b);
  capacity b := capacity_of (start b) (end_ b) (elem_size b);
  law_place b k : wf b -> fits b (k + 1) -> 0 <= k ->
    start b <= place b k /\ place b k + elem_size b <= end_ b;
  law_apart b j k : wf b -> 0 <= j < k ->
    place b j + elem_size b <= place b k \/ place b k + elem_size b <= place b j;
  law_capacity b : wf b -> fits b (capacity b);
  law_can_write b n : wf b -> fits b n -> pos b = top b n ->
    have_space_for b (u64 (elem_size b)) = (n <? capacity b);
  law_used b n : wf b -> fits b n -> pos b = top b n -> used_size b = n * elem_size b;
  law_reset b : reset b = set_pos b (top b 0);
  law_write m b n : wf b -> fits b (n + 1) -> 0 <= n < capacity b -> pos b = top b n -> source_ok b ->
    exists m', write m b = Some (m', set_pos b (top b (n + 1))) /\
      bytes m' (place b n) (size1 b) = bytes m (write_ptr1 b) (size1 b) /\
      bytes m' (place b n + size1 b) (size2 b) = bytes m (write_ptr2 b) (size2 b) /\
      forall a k, a + k <= place b n \/ place b n + elem_size b <= a -> agree m' m a k;
  law_read_nil b p1 p2 : wf b -> read_at b (top b 0) p1 p2 = (true, (top b 0, p1, p2));
  law_read_cons b n p1 p2 : wf b -> fits b (n + 1) -> 0 <= n ->
    read_at b (top b (n + 1)) p1 p2 =
      (false, (top b n, place b n, if truth (size2 b) then place b n + size1 b else p2))
}.

(** Shared arithmetic of the two instances. *)
Lemma space_bound b n : wf b -> fits b n -> n * elem_size b <= end_ b - start b /\ end_ b < 2 ^ 63.
Proof. unfold wf, fits. lia. Qed.

Lemma copy_frame m dst src n a k dst' n' :
  dst' <= dst -> dst + n <= dst' + n' ->
  a + k <= dst' \/ dst' + n' <= a -> agree (memcpy m dst src n) m a k.
Proof. intros. apply memcpy_frame. lia. Qed.

(** Two adjacent copies, the second after the first in time. *)
Lemma copy_pair m lo n1 n2 s1 s2 (first : bool) :
  0 <= n1 -> 0 <= n2 ->
  (s1 + n1 <= lo \/ lo + (n1 + n2) <= s1) -> (s2 + n2 <= lo \/ lo + (n1 + n2) <= s2) ->
  let m' := if first then memcpy (memcpy m lo s1 n1) (lo + n1) s2 n2
            else memcpy (memcpy m (lo + n1) s2 n2) lo s1 n1 in
  bytes m' lo n1 = bytes m s1 n1 /\ bytes m' (lo + n1) n2 = bytes m s2 n2 /\
  forall a k, a + k <= lo \/ lo + (n1 + n2) <= a -> agree m' m a k.
Proof.
  intros H1 H2 O1 O2. destruct first; (split; [|split]).
  - rewrite (bytes_agree _ (memcpy m lo s1 n1)) by (apply memcpy_frame; lia).
    apply memcpy_dst. lia.
  - rewrite memcpy_dst by lia. apply bytes_agree, memcpy_frame. lia.
  - intros a k Ha. eapply agree_trans; apply memcpy_frame; lia.
  - rewrite memcpy_dst by lia. apply bytes_agree, memcpy_frame. lia.
  - rewrite (bytes_agree _ (memcpy m (lo + n1) s2 n2)) by (apply memcpy_frame; lia).
    apply memcpy_dst. lia.
  - intros a k Ha. eapply agree_trans; apply memcpy_frame; lia.
Qed.

(** The same with the second part absent. *)
Lemma copy_single m lo n1 s1 :
  0 <= n1 -> (s1 + n1 <= lo \/ lo + n1 <= s1) ->
  bytes (memcpy m lo s1 n1) lo n1 = bytes m s1 n1 /\
  forall a k, a + k <= lo \/ lo + n1 <= a -> agree (memcpy m lo s1 n1) m a k.
Proof. intros H O. split; [apply memcpy_dst; lia|intros; by apply memcpy_frame]. Qed.

(** [lifo] unfolds a buffer's bounds and rewrites its 64-bit sums. *)
Ltac lifo :=
  unfold source_ok, outside, wf, fits, elem_size in *; cbn [size1 size2 start end_ pos
    write_ptr1 write_ptr2 read_ptr1 read_ptr2 set_pos set_read set_write set_start set_end] in *;
  try match goal with
  | |- context [wrap 64 (size1 ?b + size2 ?b)] => rewrite !(u64_small (size1 b + size2 b)) by lia
  end.

(** Removes the wrap-around of 64-bit sums that do not overflow, inside out. *)
Ltac u64s :=
  repeat match goal with
  | |- context [wrap 64 ?z] =>
      lazymatch z with context [wrap _ _] => fail | _ => rewrite (u64_small z) by nia end
  end.

#[export] Program Instance forward_laws : LifoLaws Forward := {
  place_of s _ z k := s + k * z;
  top_of s _ z n := s + n * z;
  capacity_of s e z := if s <? e then (e - s - 1) / z else 0
}.
Next Obligation. intros b k. lifo. nia. Qed.
Next Obligation. intros b j k. lifo. nia. Qed.
Next Obligation.
  intros b. lifo. intros Hb. destruct (Z.ltb_spec (start b) (end_ b)); [|lia].
  pose proof (Z.div_mod (end_ b - start b - 1) (size1 b + size2 b) ltac:(lia)).
  pose proof (Z.mod_pos_bound (end_ b - start b - 1) (size1 b + size2 b) ltac:(lia)).
  split; [apply Z.div_pos; lia|]. nia.
Qed.
Next Obligation.
  intros b n Hb Hn Hp. cbn. unfold fw_have_space_for. rewrite Hp. lifo.
  assert (0 <= n * (size1 b + size2 b)) by nia. rewrite !u64_small by lia.
  destruct (Z.ltb_spec (start b) (end_ b)).
  - set (c := (end_ b - start b - 1) / (size1 b + size2 b)).
    pose proof (Z.div_mod (end_ b - start b - 1) (size1 b + size2 b) ltac:(lia)) as Hd.
    pose proof (Z.mod_pos_bound (end_ b - start b - 1) (size1 b + size2 b) ltac:(lia)).
    fold c in Hd. destruct (Z.ltb_spec n c), (Z.ltb_spec (start b + n * (size1 b + size2 b) + (size1 b + size2 b)) (end_ b));
      try done; nia.
  - destruct (Z.ltb_spec n 0); [lia|]. apply Z.ltb_ge. lia.
Qed.
Next Obligation.
  intros b n Hb Hn Hp. cbn. unfold fw_used_size. rewrite Hp. lifo. rewrite u64_small; nia.
Qed.
Next Obligation. intros b. cbn. unfold fw_reset. f_equal. lia. Qed.
Next Obligation.
  intros m b n Hb Hn [H0 Hc] Hp Hs. cbn. unfold fw_write, fw_write_bytes, fw_have_space_for. rewrite Hp. lifo.
  set (lo := start b + n * (size1 b + size2 b)).
  assert (0 <= n * (size1 b + size2 b)) by nia.
  assert (lo + (size1 b + size2 b) < end_ b) as Hend.
  { destruct (Z.ltb_spec (start b) (end_ b)); [|lia].
    pose proof (Z.div_mod (end_ b - start b - 1) (size1 b + size2 b) ltac:(lia)).
    pose proof (Z.mod_pos_bound (end_ b - start b - 1) (size1 b + size2 b) ltac:(lia)). nia. }
  assert (start b <= lo) by nia.
  rewrite !(u64_small (lo + size1 b)) by lia. rewrite (proj2 (Z.ltb_lt (lo + size1 b) _)) by lia.
  cbn [mbind option_bind pos end_ set_pos size2 write_ptr2].
  rewrite !(u64_small (lo + size1 b + size2 b)) by lia.
  rewrite (proj2 (Z.ltb_lt (lo + size1 b + size2 b) _)) by lia.
  replace (start b + (n + 1) * (size1 b + size2 b)) with (lo + size1 b + size2 b) by lia.
  destruct (truth (size2 b)) eqn:E.
  - destruct (copy_pair m lo (size1 b) (size2 b) (write_ptr1 b) (write_ptr2 b) true) as (C1 & C2 & C3); try lia.
    eexists. split; [reflexivity|]. split; [exact C1|]. split; [exact C2|]. exact C3.
  - apply truth_false in E. destruct (copy_single m lo (size1 b) (write_ptr1 b)) as (C1 & C2); try lia.
    eexists. split; [unfold set_pos; cbn; do 3 f_equal; lia|]. split; [exact C1|].
    split; [by rewrite !bytes_nil by lia|]. intros a k Ha. apply C2. lia.
Qed.
Next Obligation.
  intros b p1 p2 Hb. cbn. unfold fw_read_at, fw_have_data. lifo. rewrite sgn_small; [|lia|unfold srange; lia].
  destruct (Z.leb_spec (size1 b + size2 b) (start b + 0 * (size1 b + size2 b) - start b)); [lia|done].
Qed.
Next Obligation.
  intros b n p1 p2 Hb Hn H0. cbn. unfold fw_read_at, fw_have_data, fw_read_bytes. lifo.
  assert (0 <= n * (size1 b + size2 b)) by nia.
  rewrite sgn_small; [|lia|unfold srange; nia].
  destruct (Z.leb_spec (size1 b + size2 b) (start b + (n + 1) * (size1 b + size2 b) - start b)); [|nia].
  cbn. destruct (truth (size2 b)) eqn:E.
  - u64s. repeat f_equal; nia.
  - apply truth_false in E. u64s. repeat f_equal; nia.
Qed.

#[export] Program Instance backward_laws : LifoLaws Backward := {
  place_of _ e z k := e - (k + 1) * z;
  top_of _ e z n := e - n * z;
  capacity_of s e z := (e - s) / z
}.
Next Obligation. intros b k. lifo. nia. Qed.
Next Obligation. intros b j k. lifo. nia. Qed.
Next Obligation.
  intros b. lifo. intros Hb.
  pose proof (Z.div_mod (end_ b - start b) (size1 b + size2 b) ltac:(lia)).
  pose proof (Z.mod_pos_bound (end_ b - start b) (size1 b + size2 b) ltac:(lia)).
  split; [apply Z.div_pos; lia|]. nia.
Qed.
Next Obligation.
  intros b n Hb Hn Hp. cbn. unfold bw_have_space_for. rewrite Hp. lifo.
  rewrite u64_small by lia. set (c := (end_ b - start b) / (size1 b + size2 b)).
  pose proof (Z.div_mod (end_ b - start b) (size1 b + size2 b) ltac:(lia)) as Hd.
  pose proof (Z.mod_pos_bound (end_ b - start b) (size1 b + size2 b) ltac:(lia)).
  fold c in Hd. destruct (Z.ltb_spec n c), (Z.leb_spec (start b) (end_ b - n * (size1 b + size2 b) - (size1 b + size2 b)));
    try done; nia.
Qed.
Next Obligation.
  intros b n Hb Hn Hp. cbn. unfold bw_used_size. rewrite Hp. lifo. rewrite u64_small; nia.
Qed.
Next Obligation. intros b. cbn. unfold bw_reset. f_equal. lia. Qed.
Next Obligation.
  intros m b n Hb Hn [H0 Hc] Hp Hs. cbn. unfold bw_write, bw_write_bytes, bw_have_space_for. lifo.
  set (lo := end_ b - (n + 1) * (size1 b + size2 b)).
  assert (pos b = lo + (size1 b + size2 b)) as Hpos by lia.
  assert (start b <= lo /\ lo + (size1 b + size2 b) <= end_ b) by nia.
  destruct (truth (write_ptr2 b)) eqn:E.
  - cbn [set_pos pos write_ptr1 write_ptr2 size1 size2]. rewrite Hpos.
    replace (lo + (size1 b + size2 b) - size2 b) with (lo + size1 b) by lia.
    rewrite (u64_small (lo + size1 b)) by lia. rewrite (proj2 (Z.leb_le (start b) (lo + size1 b))) by lia.
    cbn [mbind option_bind pos start set_pos write_ptr1 write_ptr2 size1 size2].
    replace (lo + size1 b - size1 b) with lo by lia. rewrite (u64_small lo) by lia.
    rewrite (proj2 (Z.leb_le (start b) lo)) by lia.
    destruct (copy_pair m lo (size1 b) (size2 b) (write_ptr1 b) (write_ptr2 b) false) as (C1 & C2 & C3); try lia.
    eexists. split; [reflexivity|]. split; [exact C1|]. split; [exact C2|]. exact C3.
  - apply truth_false in E. assert (size2 b = 0) as Ez.
    { destruct Hs as (_ & _ & Hs). destruct (Z.eq_dec (size2 b) 0) as [|Hne]; [done|]. by apply Hs in Hne. }
    destruct (copy_single m lo (size1 b) (write_ptr1 b)) as (C1 & C2); try lia.
    cbn [mbind option_bind].
    replace (pos b - size1 b) with lo by lia. rewrite (u64_small lo) by lia.
    rewrite (proj2 (Z.leb_le (start b) lo)) by lia.
    eexists. split; [reflexivity|]. split; [exact C1|].
    split; [by rewrite !bytes_nil by lia|]. intros a k Ha. apply C2. lia.
Qed.
Next Obligation.
  intros b p1 p2 Hb. cbn. unfold bw_read_at, bw_have_data. lifo. rewrite sgn_small; [|lia|unfold srange; lia].
  destruct (Z.leb_spec (size1 b + size2 b) (end_ b - (end_ b - 0 * (size1 b + size2 b)))); [lia|done].
Qed.
Next Obligation.
  intros b n p1 p2 Hb Hn H0. cbn. unfold bw_read_at, bw_have_data, bw_read_bytes. lifo.
  assert (0 <= n * (size1 b + size2 b)) by nia.
  rewrite sgn_small; [|lia|unfold srange; nia].
  destruct (Z.leb_spec (size1 b + size2 b) (end_ b - (end_ b - (n + 1) * (size1 b + size2 b)))); [|nia].
  cbn. destruct (truth (size2 b)) eqn:E.
  - u64s. repeat f_equal; nia.
  - apply truth_false in E. u64s. repeat f_equal; nia.
Qed.

(** ** The stack a buffer holds *)

Section client.
Context {L : Lifo_buffer} {LL : LifoLaws L}.

Notation item := (list Z * list Z)%type.

(** [rep m b l]: the buffer holds the elements [l], bottom first. *)
Definition rep (m : mem) (b : buffer) (l : list item) : Prop :=
  wf b /\ fits b (Z.of_nat (length l)) /\ pos b = top b (Z.of_nat (length l)) /\
  forall k d, l !! k = Some d ->
    bytes m (place b (Z.of_nat k)) (size1 b) = d.1 /\
    bytes m (place b (Z.of_nat k) + size1 b) (size2 b) = d.2.

Lemma fits_le b n k : wf b -> fits b n -> 0 <= k <= n -> fits b k.
Proof. unfold wf, fits. nia. Qed.

(** Only the bytes of the space matter. *)
Lemma rep_agree m m' b l :
  agree m m' (start b) (end_ b - start b) -> rep m b l -> rep m' b l.
Proof.
  intros Ha (Hb & Hf & Hp & Hl). split; [done|]. split; [done|]. split; [done|].
  intros k d Hk. destruct (Hl k d Hk) as [<- <-]. apply lookup_lt_Some in Hk.
  destruct (law_place b (Z.of_nat k) Hb) as [P1 P2]; [apply (fits_le b _ _ Hb Hf); lia|lia|].
  unfold wf, elem_size in *.
  split; apply bytes_agree, agree_sym; apply (agree_sub _ _ _ _ _ _ Ha); lia.
Qed.

Lemma rep_pointers m b l p1 p2 q1 q2 :
  rep m b l -> rep m (set_write (set_read b p1 p2) q1 q2) l.
Proof. done. Qed.

Lemma reset_rep m b l : rep m b l -> rep m (reset b) [].
Proof.
  intros (Hb & Hf & Hp & Hl). rewrite law_reset. split; [done|].
  split; [|split; [done|intros k d Hk; done]]. apply (fits_le b _ _ Hb Hf). simpl. lia.
Qed.

Lemma can_write_ok m b l : rep m b l -> can_write b = (Z.of_nat (length l) <? capacity b).
Proof. intros (Hb & Hf & Hp & _). by apply law_can_write. Qed.

Lemma capacity_fits b n : wf b -> 0 <= n < capacity b -> fits b (n + 1).
Proof. intros Hb Hn. apply (fits_le b (capacity b)); [done|by apply law_capacity|lia]. Qed.

Lemma write_rep m b l :
  rep m b l -> Z.of_nat (length l) < capacity b -> source_ok b ->
  exists m' b', write m b = Some (m', b') /\ b' = set_pos b (pos b') /\
    rep m' b' (l ++ [(bytes m (write_ptr1 b) (size1 b), bytes m (write_ptr2 b) (size2 b))]) /\
    forall a k, outside b a k -> agree m' m a k.
Proof.
  intros (Hb & Hf & Hp & Hl) Hc Hs. set (n := Z.of_nat (length l)) in *.
  assert (fits b (n + 1)) as Hf' by (apply capacity_fits; [done|lia]).
  destruct (law_write m b n Hb Hf' (conj (Nat2Z.is_nonneg _) Hc) Hp Hs) as (m' & E & W1 & W2 & W3).
  destruct (law_place b n Hb Hf' ltac:(lia)) as [P1 P2].
  exists m', (set_pos b (top b (n + 1))). split; [done|]. split; [done|]. split.
  - split; [done|]. rewrite length_app. replace (Z.of_nat (length l + length [_])) with (n + 1)
      by (cbn [length]; lia).
    split; [done|]. split; [done|]. intros k d Hk.
    change (bytes m' (place b (Z.of_nat k)) (size1 b) = d.1 /\
            bytes m' (place b (Z.of_nat k) + size1 b) (size2 b) = d.2).
    apply lookup_app_Some in Hk as [Hk|[Hge Hk]].
    + destruct (Hl k d Hk) as [<- <-]. apply lookup_lt_Some in Hk.
      pose proof (law_apart b (Z.of_nat k) n Hb ltac:(lia)) as A.
      unfold wf, elem_size in *. split; apply bytes_agree, W3; unfold elem_size; lia.
    + apply list_lookup_singleton_Some in Hk as [Hk <-]. by replace (Z.of_nat k) with n by lia.
  - intros a k Ha. apply W3. unfold outside in Ha. lia.
Qed.

(** Reading at a position where the buffer would hold a given stack. *)
Lemma read_at_nil m b p p1 p2 :
  rep m (set_pos b p) [] -> read_at b p p1 p2 = (true, (p, p1, p2)).
Proof.
  intros (Hb & Hf & Hp & Hl). change (p = top b 0) in Hp. rewrite Hp. by apply law_read_nil.
Qed.

Lemma read_at_snoc m b p l x p1 p2 :
  rep m (set_pos b p) (l ++ [x]) ->
  exists p' q1 q2, read_at b p p1 p2 = (false, (p', q1, q2)) /\
    bytes m q1 (size1 b) = x.1 /\ bytes m q2 (size2 b) = x.2 /\ rep m (set_pos b p') l.
Proof.
  intros (Hb & Hf & Hp & Hl). rewrite length_app in Hp, Hf. set (n := Z.of_nat (length l)) in *.
  change (wf b) in Hb. change (p = top b (Z.of_nat (length l + length [x]))) in Hp.
  change (fits b (Z.of_nat (length l + length [x]))) in Hf.
  replace (Z.of_nat (length l + length [x])) with (n + 1) in Hp, Hf by (cbn [length]; lia).
  exists (top b n), (place b n), (if truth (size2 b) then place b n + size1 b else p2).
  split; [rewrite Hp; apply law_read_cons; done || lia|].
  destruct (Hl (length l) x) as [X1 X2]; [by rewrite lookup_app_r, Nat.sub_diag|].
  split; [exact X1|]. split.
  - destruct (truth (size2 b)) eqn:E; [exact X2|]. apply truth_false in E.
    rewrite <- X2. cbn [size2 set_pos]. by rewrite !bytes_nil by lia.
  - split; [done|]. split; [apply (fits_le b (n + 1) n Hb Hf); lia|]. split; [done|].
    intros k d Hk. apply (Hl k d). by apply lookup_app_l_Some.
Qed.

Lemma read_rep m b l :
  rep m b l ->
  match l with
  | [] => read b = (true, b)
  | _ => exists l' x b', l = l' ++ [x] /\ read b = (false, b') /\ rep m b' l' /\
      bytes m (read_ptr1 b') (size1 b) = x.1 /\ bytes m (read_ptr2 b') (size2 b) = x.2 /\
      b' = set_pos (set_read b (read_ptr1 b') (read_ptr2 b')) (pos b')
  end.
Proof.
  intros Hr. unfold read.
  assert (rep m (set_pos b (pos b)) l) as Hr' by (by destruct b). clear Hr. rename Hr' into Hr.
  destruct l as [|y l0].
  - rewrite (read_at_nil m) by done. by destruct b.
  - destruct (exists_last (l := y :: l0)) as (l & x & E); [done|]. rewrite E in Hr |- *.
    destruct (read_at_snoc m b (pos b) l x (read_ptr1 b) (read_ptr2 b) Hr) as (p & q1 & q2 & -> & B1 & B2 & R).
    exists l, x, (set_pos (set_read b q1 q2) p). done.
Qed.

(** ** Commands *)

Inductive cmd := Write (p1 p2 : Z) | Read | Reset.

(** A client stores the write pointers, asks [can_write] and writes; it reads
    by copying the bytes behind the read pointers. *)
Definition exec (mb : mem * buffer) (c : cmd) : option ((mem * buffer) * option item) :=
  let '(m, b) := mb in
  match c with
  | Write p1 p2 =>
      let b := set_write b p1 p2 in
      if can_write b then mb ← write m b; Some (mb, Some ([], [])) else Some ((m, b), None)
  | Read =>
      let '(eof, b) := read b in
      Some ((m, b), if eof then None
                    else Some (bytes m (read_ptr1 b) (size1 b), bytes m (read_ptr2 b) (size2 b)))
  | Reset => Some ((m, reset b), None)
  end.

(** The same command on a bounded stack of byte strings. *)
Definition stack_exec (cap : Z) (data : Z -> Z -> item) (l : list item) (c : cmd) : list item * option item :=
  match c with
  | Write p1 p2 => if Z.of_nat (length l) <? cap then (l ++ [data p1 p2], Some ([], [])) else (l, None)
  | Read => (removelast l, last l)
  | Reset => ([], None)
  end.

Definition allowed (b : buffer) (c : cmd) : Prop :=
  match c with
  | Write p1 p2 => outside b p1 (size1 b) /\ outside b p2 (size2 b) /\ p2 <> 0
  | Read | Reset => True
  end.

Fixpoint run (s : mem * buffer) (cs : list cmd) : option ((mem * buffer) * list (option item)) :=
  match cs with
  | [] => Some (s, [])
  | c :: cs => '(s, o) ← exec s c; '(s, os) ← run s cs; Some (s, o :: os)
  end.

Fixpoint stack_run (cap : Z) (data : Z -> Z -> item) (l : list item) (cs : list cmd)
  : list item * list (option item) :=
  match cs with
  | [] => (l, [])
  | c :: cs => let '(l, o) := stack_exec cap data l c in let '(l, os) := stack_run cap data l cs in (l, o :: os)
  end.

(** The buffers of a run share bounds and sizes with the first one. *)
Definition same_space (b b' : buffer) : Prop :=
  size1 b' = size1 b /\ size2 b' = size2 b /\ start b' = start b /\ end_ b' = end_ b.

Lemma same_space_outside b b' a n : same_space b b' -> outside b' a n <-> outside b a n.
Proof. unfold outside. by intros (_ & _ & -> & ->). Qed.

Lemma lifo_exec_ok m0 b0 m b l c :
  same_space b0 b -> (forall a k, outside b0 a k -> agree m m0 a k) -> rep m b l -> allowed b0 c ->
  let data p1 p2 := (bytes m0 p1 (size1 b0), bytes m0 p2 (size2 b0)) in
  let '(l', o) := stack_exec (capacity b0) data l c in
  exists m' b', exec (m, b) c = Some ((m', b'), o) /\
    rep m' b' l' /\ same_space b0 b' /\ (forall a k, outside b0 a k -> agree m' m0 a k).
Proof.
  intros Hss Ho Hr Hc. pose proof Hss as (S1 & S2 & S3 & S4).
  destruct c as [p1 p2| |]; cbn [exec stack_exec allowed] in *.
  - destruct Hc as (O1 & O2 & Hne). pose proof (rep_pointers m b l (read_ptr1 b) (read_ptr2 b) p1 p2 Hr) as Hr'.
    change (set_write (set_read b (read_ptr1 b) (read_ptr2 b)) p1 p2) with (set_write b p1 p2) in Hr'.
    rewrite (can_write_ok m _ l Hr').
    assert (capacity (set_write b p1 p2) = capacity b0) as ->.
    { unfold capacity, elem_size. cbn. by rewrite S1, S2, S3, S4. }
    destruct (Z.ltb_spec (Z.of_nat (length l)) (capacity b0)) as [Hlt|]; [|by exists m, (set_write b p1 p2)].
    destruct (write_rep m (set_write b p1 p2) l Hr') as (m' & b' & -> & E & R & F).
    + unfold capacity, elem_size in *. cbn. by rewrite S1, S2, S3, S4.
    + unfold source_ok, outside in *. cbn. rewrite S1, S2, S3, S4. done.
    + exists m', b'. split; [done|]. cbn [size1 size2 write_ptr1 write_ptr2 set_write] in R.
      rewrite S1, S2 in R.
      rewrite (bytes_agree m m0 p1), (bytes_agree m m0 p2) in R by (by apply Ho).
      split; [done|]. split; [rewrite E; done|].
      intros a k Ha. eapply agree_trans; [|by apply Ho]. apply F.
      unfold outside in *. cbn. by rewrite S3, S4.
  - pose proof (read_rep m b l Hr) as H. destruct l as [|y l0]; [rewrite H; by exists m, b|].
    destruct H as (l' & x & b' & El & -> & R & B1 & B2 & Eb).
    rewrite El, removelast_last, last_snoc. exists m, b'. split.
    { do 2 f_equal. rewrite Eb at 2 4. cbn. rewrite B1, B2. by destruct x. }
    split; [done|]. split; [by rewrite Eb|done].
  - exists m, (reset b). split; [done|]. split; [by apply (reset_rep m b l)|]. split; [|done]. by rewrite law_reset.
Qed.

Lemma run_ok m0 b0 cs : forall m b l,
  same_space b0 b -> (forall a k, outside b0 a k -> agree m m0 a k) -> rep m b l ->
  Forall (allowed b0) cs ->
  let data p1 p2 := (bytes m0 p1 (size1 b0), bytes m0 p2 (size2 b0)) in
  let '(l', os) := stack_run (capacity b0) data l cs in
  exists m' b', run (m, b) cs = Some ((m', b'), os) /\ rep m' b' l'.
Proof.
  induction cs as [|c cs IH]; intros m b l Hss Ho Hr Hcs data; [by exists m, b|].
  apply Forall_cons in Hcs as [Hc Hcs]. pose proof (lifo_exec_ok m0 b0 m b l c Hss Ho Hr Hc) as H.
  cbn zeta in H. change (fun p1 p2 => (bytes m0 p1 (size1 b0), bytes m0 p2 (size2 b0))) with data in H.
  cbn [run stack_run]. destruct (stack_exec (capacity b0) data l c) as [l1 o1].
  destruct H as (m1 & b1 & -> & R1 & S1 & O1). specialize (IH m1 b1 l1 S1 O1 R1 Hcs). cbn zeta in IH.
  change (fun p1 p2 => (bytes m0 p1 (size1 b0), bytes m0 p2 (size2 b0))) with data in IH.
  destruct (stack_run (capacity b0) data l1 cs) as [l2 os]. destruct IH as (m2 & b2 & E & R2).
  exists m2, b2. cbn [mbind option_bind]. by rewrite E.
Qed.

(** ** Iteration *)

Fixpoint it_take (n : nat) (m : mem) (b : buffer) (it : iterator) : list (option item) :=
  match n with
  | O => []
  | S n =>
      let '(eof, it) := it_read b it in
      (if eof then None else Some (bytes m (it_ptr1 it) (size1 b), bytes m (it_ptr2 it) (size2 b)))
        :: it_take n m b it
  end.

Lemma lifo_it_take_ok m b n : forall l it,
  rep m (set_pos b (it_pos it)) l ->
  it_take n m b it = take n (Some <$> reverse l) ++ repeat None (n - length l).
Proof.
  induction n as [|n IH]; intros l it Hr; [done|]. cbn [it_take]. unfold it_read.
  destruct l as [|y l0].
  - rewrite (read_at_nil m) by done. rewrite (IH []) by done.
    cbn. by rewrite take_nil, Nat.sub_0_r.
  - destruct (exists_last (l := y :: l0)) as (l & x & E); [done|]. rewrite E in Hr |- *.
    destruct (read_at_snoc m b _ l x (it_ptr1 it) (it_ptr2 it) Hr) as (p & q1 & q2 & -> & B1 & B2 & R).
    rewrite (IH l) by done. cbn [it_ptr1 it_ptr2]. rewrite B1, B2, reverse_app, length_app.
    cbn. rewrite Nat.add_1_r. by destruct x.
Qed.

(** ** Properties *)

(** C25: A LIFO buffer refines a bounded stack of byte strings: for the forward
    and the backward buffer alike, any sequence of guarded writes, reads and
    resets fails no assertion, returns what the stack returns (the bytes of the
    last element not yet read, nothing when empty, a refused write when full)
    and leaves the buffer holding the stack; iterating over it then delivers the
    elements from the top without reading them off. *)
Theorem lifo_commands_refine m b l cs n it :
  rep m b l -> Forall (allowed b) cs ->
  let data p1 p2 := (bytes m p1 (size1 b), bytes m p2 (size2 b)) in
  let '(l', os) := stack_run (capacity b) data l cs in
  exists m' b', run (m, b) cs = Some ((m', b'), os) /\ rep m' b' l' /\
    it_take n m' b' (it_init b' it) = take n (Some <$> reverse l') ++ repeat None (n - length l').
Proof.
  intros Hr Hcs data. pose proof (run_ok m b cs m b l) as H. cbn zeta in H.
  change (fun p1 p2 => (bytes m p1 (size1 b), bytes m p2 (size2 b))) with data in H.
  destruct (stack_run (capacity b) data l cs) as [l' os].
  destruct H as (m' & b' & E & Hr'); [done|done|done|done|]. exists m', b'. split; [done|]. split; [done|].
  apply lifo_it_take_ok. by destruct b'.
Qed.

End client.

(** Space handed over between adjacent buffers: when a backward buffer
    that starts where a forward buffer ends gives its unused space to
    [Forward_lifo_buffer::grow], the assertions of [grow] hold, both buffers
    keep their elements, they are adjacent again, and a later write to the
    forward buffer into the new space leaves the backward buffer intact. *)
Theorem lifo_handover trash m f b lf lb :
  rep (L := Forward) m f lf -> rep (L := Backward) m b lb ->
  end_ f = start b -> end_ b + elem_size f < 2 ^ 63 ->
  let '((us, ue), b') := bw_remove_unused_space b in
  let '(m', f') := fw_grow trash m f us ue in
  us = end_ f /\ us <= ue /\ end_ f' = start b' /\
  rep (L := Forward) m' f' lf /\ rep (L := Backward) m' b' lb /\
  (source_ok f' -> can_write (L := Forward) f' = true ->
   exists m'' f'', write (Lifo_buffer := Forward) m' f' = Some (m'', f'') /\
     rep (L := Backward) m'' b' lb /\
     rep (L := Forward) m'' f''
       (lf ++ [(bytes m' (write_ptr1 f') (size1 f'), bytes m' (write_ptr2 f') (size2 f'))])).
Proof.
  intros Hf Hb Hadj Hbig. cbn [bw_remove_unused_space fw_grow].
  set (m' := TRASH_ALLOC _ _ _ _). set (f' := set_end f (pos b)). set (b' := set_start b (pos b)).
  pose proof Hb as (Wb & Fb & Pb & _). pose proof Hf as (Wf & Ff & Pf & _).
  change (pos b = end_ b - Z.of_nat (length lb) * elem_size b) in Pb.
  assert (start b <= pos b <= end_ b) as Hpos by (unfold wf, fits in *; nia).
  assert (rep (L := Backward) m b' lb) as Rb0.
  { destruct Hb as (_ & _ & _ & Hl). split; [unfold wf, elem_size in *; cbn; lia|].
    split; [unfold fits, elem_size in *; cbn; lia|]. split; [exact Pb|exact Hl]. }
  assert (rep (L := Backward) m' b' lb) as Rb.
  { apply (rep_agree m); [|done]. apply agree_sym, trash_frame. cbn.
    rewrite u64_small by (unfold wf in *; lia). lia. }
  assert (rep (L := Forward) m' f' lf) as Rf.
  { assert (rep (L := Forward) m' f lf) as (_ & _ & _ & Hl).
    { apply (rep_agree m); [|done]. apply agree_sym, trash_frame. lia. }
    split; [unfold wf, elem_size in *; cbn; lia|].
    split; [unfold fits, elem_size in *; cbn; lia|]. split; [exact Pf|exact Hl]. }
  split; [done|]. split; [lia|]. split; [done|]. split; [done|]. split; [done|].
  intros Hs Hc. rewrite (can_write_ok m' f' lf Rf) in Hc. apply Z.ltb_lt in Hc.
  destruct (write_rep m' f' lf Rf Hc Hs) as (m'' & f'' & E & _ & R & F).
  exists m'', f''. split; [done|]. split; [|done].
  apply (rep_agree m'); [|done]. apply agree_sym, F. unfold outside. cbn. lia.
Qed.

(** Capacity: a space of [size] bytes takes [size / elem_size] elements in
    a backward buffer but, because [Forward_lifo_buffer::have_space_for] asks
    for one byte more than it stores, only [(size - 1) / elem_size] in a
    forward one; [is_empty] tells exactly the buffer with no elements. *)
Theorem lifo_capacity m b lf lb :
  (rep (L := Forward) m b lf -> start b < end_ b ->
    can_write (L := Forward) b =
      (Z.of_nat (length lf) <? (end_ b - start b - 1) / elem_size b) /\
    is_empty (L := Forward) b = (Z.of_nat (length lf) =? 0)) /\
  (rep (L := Backward) m b lb ->
    can_write (L := Backward) b =
      (Z.of_nat (length lb) <? (end_ b - start b) / elem_size b) /\
    is_empty (L := Backward) b = (Z.of_nat (length lb) =? 0)).
Proof.
  assert (forall n b, wf b -> (n * elem_size b =? 0) = (n =? 0)) as Hz.
  { unfold wf. intros n b0 Hb. destruct (Z.eqb_spec n 0) as [->|]; [done|]. apply Z.eqb_neq. nia. }
  split; [intros H Hlt|intros H]; pose proof H as (Hb & Hf & Hp & _); split.
  - rewrite (can_write_ok m b lf H). unfold capacity. cbn.
    by rewrite (proj2 (Z.ltb_lt _ _) Hlt).
  - unfold is_empty. by rewrite (law_used b _ Hb Hf Hp), Hz.
  - by rewrite (can_write_ok m b lb H).
  - unfold is_empty. by rewrite (law_used b _ Hb Hf Hp), Hz.
Qed.

(** ** Witnesses *)

(** A memory of its own addresses; a buffer of 20 bytes for pairs of 3 and 2. *)
Definition sample_mem : mem := fun a => a mod 256.

Definition sample (p : Z) : buffer := mk_buffer 3 2 0 0 0 0 1000 1020 p.

Lemma sample_fw : rep (L := Forward) sample_mem (sample 1000) [].
Proof.
  split; [unfold wf, elem_size; cbn; lia|]. split; [unfold fits, elem_size; cbn; lia|].
  split; [done|]. intros k d Hk. done.
Qed.

Lemma sample_bw : rep (L := Backward) sample_mem (sample 1020) [].
Proof.
  split; [unfold wf, elem_size; cbn; lia|]. split; [unfold fits, elem_size; cbn; lia|].
  split; [done|]. intros k d Hk. done.
Qed.

Definition sample_cmds : list cmd := [Write 10 20; Write 30 40; Read; Write 50 60; Write 70 80; Write 90 95].

Lemma lifo_sample_allowed : Forall (allowed (sample 1000)) sample_cmds.
Proof. repeat (apply Forall_cons; split; [unfold allowed, outside; cbn; lia|]). apply Forall_nil_2. Qed.

Lemma lifo_commands_refine_witness :
  let data p1 p2 := (bytes sample_mem p1 3, bytes sample_mem p2 2) in
  let '(l', os) := stack_run (capacity (L := Forward) (sample 1000)) data [] sample_cmds in
  (exists m' b', run (L := Forward) (sample_mem, sample 1000) sample_cmds = Some ((m', b'), os) /\
   rep (L := Forward) m' b' l' /\
   it_take (L := Forward) 4 m' b' (it_init b' (mk_iterator 0 0 0))
     = take 4 (Some <$> reverse l') ++ repeat None (4 - length l')) /\
  l' = [([10; 11; 12], [20; 21]); ([50; 51; 52], [60; 61]); ([70; 71; 72], [80; 81])].
Proof.
  pose proof (lifo_commands_refine (L := Forward) sample_mem (sample 1000) [] sample_cmds 4
    (mk_iterator 0 0 0) sample_fw lifo_sample_allowed) as H. cbn zeta in H |- *.
  assert ((stack_run (capacity (L := Forward) (sample 1000)) (fun p1 p2 =>
    (bytes sample_mem p1 3, bytes sample_mem p2 2)) [] sample_cmds).1
    = [([10; 11; 12], [20; 21]); ([50; 51; 52], [60; 61]); ([70; 71; 72], [80; 81])]) as E
    by (vm_compute; reflexivity).
  cbn [size1 size2 sample] in H |- *.
  destruct (stack_run _ _ [] sample_cmds) as [l' os']. split; [exact H|exact E].
Defined.

Definition sample_low : buffer := mk_buffer 3 2 10 20 0 0 985 1000 985.

Lemma sample_low_rep : rep (L := Forward) sample_mem sample_low [].
Proof.
  split; [unfold wf, elem_size; cbn; lia|]. split; [unfold fits, elem_size; cbn; lia|].
  split; [done|]. intros k d Hk. done.
Qed.

Lemma lifo_handover_witness :
  let '((us, ue), b') := bw_remove_unused_space (sample 1020) in
  let '(m', f') := fw_grow true sample_mem sample_low us ue in
  us = end_ sample_low /\ us <= ue /\ end_ f' = start b' /\
  rep (L := Forward) m' f' [] /\ rep (L := Backward) m' b' [] /\
  (source_ok f' -> can_write (L := Forward) f' = true ->
   exists m'' f'', write (Lifo_buffer := Forward) m' f' = Some (m'', f'') /\
     rep (L := Backward) m'' b' [] /\
     rep (L := Forward) m'' f''
       ([] ++ [(bytes m' (write_ptr1 f') (size1 f'), bytes m' (write_ptr2 f') (size2 f'))])).
Proof.
  apply (lifo_handover true sample_mem sample_low (sample 1020) [] []);
    [exact sample_low_rep|exact sample_bw|reflexivity|vm_compute; reflexivity].
Defined.

Lemma lifo_capacity_witness :
  can_write (L := Forward) (sample 1000) = (0 <? (1020 - 1000 - 1) / 5) /\
  can_write (L := Backward) (sample 1020) = (0 <? (1020 - 1000) / 5).
Proof.
  split.
  - apply (proj1 (lifo_capacity sample_mem (sample 1000) [] []) sample_fw). reflexivity.
  - apply (proj2 (lifo_capacity sample_mem (sample 1020) [] []) sample_bw).
Defined.

End Lifo.
