(* ===== verification/Links.v ===== *)
(** * Chains of pointers-to-pointers

    The server's intrusive lists keep pointers to the {e cell} that holds the
    next pointer ([list_node **last], [ilink **prev], [T **m_last]).  Such a
    cell is either the [first] member of a list object or the [next] member of
    a node.  This file holds that address type and the theory of chains of
    cells, shared by the models of sql_list.h and sql_plist.h. *)

From stdpp Require Import prelude gmap.
From S2P Require Import Prelude.

(** The address of a cell: [&l->first] or [&n->next].  List objects and nodes
    are named by [N]; 0 is the null pointer. *)
Inductive slot :=
  | SFirst (l : N)
  | SNext (n : N).

#[export] Instance slot_eq_dec : EqDecision slot.
Proof. solve_decision. Defined.

#[export] Instance SFirst_inj : Inj (=) (=) SFirst.
Proof. by intros ?? [= ->]. Qed.
#[export] Instance SNext_inj : Inj (=) (=) SNext.
Proof. by intros ?? [= ->]. Qed.

Definition NULL : N := 0%N.

(** A member of the objects of a type, updated at one of them. *)
Definition fupd {A B} `{EqDecision A} (f : A -> B) (k : A) (v : B) : A -> B :=
  fun x => if decide (k = x) then v else f x.

Lemma fupd_eq {A B} `{EqDecision A} (f : A -> B) k v : fupd f k v k = v.
Proof. unfold fupd. by rewrite decide_True. Qed.

Lemma fupd_ne {A B} `{EqDecision A} (f : A -> B) k v x : k <> x -> fupd f k v x = f x.
Proof. intros. unfold fupd. by rewrite decide_False. Qed.

(** Case analysis on the updates of a goal. *)
Ltac upd := unfold fupd; repeat case_decide; subst; try done; try congruence.

Create HintDb links.

Section linked.
Context (ld : slot -> option N).

(** [linked s ns q]: starting from the cell [s] the pointers lead through
    the nodes [ns], and the last cell holds [q]. *)
Fixpoint linked (s : slot) (ns : list N) (q : N) : Prop :=
  match ns with
  | [] => ld s = Some q
  | n :: ns => ld s = Some n /\ linked (SNext n) ns q
  end.
End linked.

(** The last cell of such a chain. *)
Fixpoint end_slot (s : slot) (ns : list N) : slot :=
  match ns with
  | [] => s
  | n :: ns => end_slot (SNext n) ns
  end.

(** The cells of a chain. *)
Definition cells (s : slot) (ns : list N) : list slot := s :: (SNext <$> ns).

Lemma end_slot_cells s ns : end_slot s ns ∈ cells s ns.
Proof.
  unfold cells. revert s. induction ns as [|n ns IH]; intros s; simpl; [by left|].
  right. apply IH.
Qed.

Lemma end_slot_app s ns1 ns2 : end_slot s (ns1 ++ ns2) = end_slot (end_slot s ns1) ns2.
Proof. revert s. induction ns1; simpl; auto. Qed.

Lemma end_slot_snoc s ns n : end_slot s (ns ++ [n]) = SNext n.
Proof. by rewrite end_slot_app. Qed.

(** Which cell the last one can be. *)
Lemma end_slot_is_first l l' ns : end_slot (SFirst l) ns = SFirst l' -> l' = l /\ ns = [].
Proof.
  destruct ns as [|n ns _] using rev_ind; simpl; [naive_solver|]. by rewrite end_slot_snoc.
Qed.

Lemma end_slot_is_next l n ns : end_slot (SFirst l) ns = SNext n -> n ∈ ns.
Proof.
  destruct ns as [|m ns _] using rev_ind; simpl; [done|]. rewrite end_slot_snoc.
  intros [= ->]. set_solver.
Qed.

Lemma end_slot_next k ks : exists q, end_slot (SNext k) ks = SNext q /\ q ∈ k :: ks.
Proof.
  destruct ks as [|q ks _] using rev_ind; [exists k; set_solver|].
  rewrite end_slot_snoc. exists q. set_solver.
Qed.

Lemma end_slot_next_self k ks : k ∉ ks -> end_slot (SNext k) ks = SNext k -> ks = [].
Proof.
  destruct ks as [|q ks _] using rev_ind; [done|]. rewrite end_slot_snoc. intros H [= ->]. set_solver.
Qed.

Lemma linked_ext ld ld' s ns q :
  (forall c, c ∈ cells s ns -> ld' c = ld c) -> linked ld s ns q -> linked ld' s ns q.
Proof.
  revert s. induction ns as [|n ns IH]; intros s H; simpl.
  - rewrite H; [done|by left].
  - intros [H1 H2]. split; [rewrite H; [done|by left]|].
    apply IH; [|done]. intros c Hc. apply H. by right.
Qed.

Lemma linked_app ld s ns1 n ns2 q :
  linked ld s (ns1 ++ n :: ns2) q <-> linked ld s ns1 n /\ linked ld (SNext n) ns2 q.
Proof. revert s. induction ns1 as [|m ns1 IH]; intros s; simpl; [done|]. rewrite IH. tauto. Qed.

Lemma linked_snoc ld s ns n q :
  linked ld s (ns ++ [n]) q <-> linked ld s ns n /\ ld (SNext n) = Some q.
Proof. by rewrite linked_app. Qed.

Lemma linked_end ld s ns q : linked ld s ns q -> ld (end_slot s ns) = Some q.
Proof. revert s. induction ns as [|n ns IH]; intros s; simpl; [done|]. intros [_ H]. by apply IH. Qed.

(** The first pointer of the chain. *)
Lemma linked_head ld s ns q : linked ld s ns q -> ld s = Some (from_option id q (head ns)).
Proof. destruct ns; simpl; naive_solver. Qed.

(** Writing the last cell redirects the end of the chain and nothing else. *)
Lemma linked_redirect ld ld' s ns q q' :
  NoDup (cells s ns) ->
  (forall c, c ∈ cells s ns -> ld' c = if decide (end_slot s ns = c) then Some q' else ld c) ->
  linked ld s ns q -> linked ld' s ns q'.
Proof.
  revert s. induction ns as [|n ns IH]; intros s Hnd H; simpl.
  - intros _. rewrite H by (by left). by rewrite decide_True.
  - intros [H1 H2]. apply NoDup_cons in Hnd as [Hs Hnd]. split.
    + rewrite H by (by left). rewrite decide_False; [done|].
      intros E. apply Hs. rewrite <- E. simpl. apply end_slot_cells.
    + apply IH; [done| |done]. intros c Hc. apply H. by right.
Qed.

(** Two chains over disjoint nodes are concatenated by writing the first
    pointer of the second into the last cell of the first. *)
Lemma linked_concat ld s ns1 ns2 q p :
  linked ld s ns1 p -> ld (end_slot s ns1) = Some (from_option id q (head ns2)) ->
  match ns2 with [] => True | n :: ns2 => linked ld (SNext n) ns2 q end ->
  linked ld s (ns1 ++ ns2) q.
Proof.
  revert s p. induction ns1 as [|n ns1 IH]; intros s p; simpl.
  - destruct ns2; simpl; naive_solver.
  - intros [H1 H2] H3 H4. split; [done|]. by apply (IH _ p).
Qed.

(** The same nodes can be reached from another cell holding the same pointer. *)
Lemma linked_restart ld ld' s s' ns q :
  linked ld s ns q -> ld' s' = ld s ->
  (forall n, n ∈ ns -> ld' (SNext n) = ld (SNext n)) -> linked ld' s' ns q.
Proof.
  destruct ns as [|n ns]; simpl; intros H E Hext; [congruence|].
  destruct H as [H1 H2]. split; [congruence|].
  eapply linked_ext; [|done]. intros c Hc.
  unfold cells in Hc. rewrite elem_of_cons, list_elem_of_fmap in Hc.
  destruct Hc as [->|(m & -> & Hm)]; apply Hext; [by left|by right].
Qed.

Lemma end_slot_nonempty s s' ns : ns <> [] -> end_slot s ns = end_slot s' ns.
Proof. by destruct ns. Qed.

Lemma cells_NoDup l ns : NoDup ns -> NoDup (cells (SFirst l) ns).
Proof.
  intros H. apply NoDup_cons. split.
  - intros (n & ? & _)%list_elem_of_fmap. done.
  - by apply NoDup_fmap_2; [apply _|].
Qed.

Lemma cells_NoDup_next n ns : NoDup (n :: ns) -> NoDup (cells (SNext n) ns).
Proof. intros H. change (NoDup (SNext <$> (n :: ns))). by apply NoDup_fmap_2; [apply _|]. Qed.

Lemma elem_of_cells_next n s ns : SNext n ∈ cells s ns <-> SNext n = s \/ n ∈ ns.
Proof.
  unfold cells. rewrite elem_of_cons, list_elem_of_fmap. naive_solver.
Qed.

Lemma elem_of_cells_first l s ns : SFirst l ∈ cells s ns <-> SFirst l = s.
Proof.
  unfold cells. rewrite elem_of_cons, list_elem_of_fmap. naive_solver.
Qed.

(** A chain that ends at a pointer outside it determines its nodes. *)
Lemma linked_det ld s ns ns' q :
  linked ld s ns q -> linked ld s ns' q -> q ∉ ns -> q ∉ ns' -> ns = ns'.
Proof.
  revert s ns'. induction ns as [|n ns IH]; intros s ns' H H' Hq Hq';
    destruct ns' as [|n' ns']; simpl in *; try done.
  - destruct H' as [H' _]. set_solver.
  - destruct H as [H _]. set_solver.
  - destruct H as [H1 H2], H' as [H1' H2']. assert (n' = n) as -> by congruence.
    f_equal. apply (IH (SNext n)); set_solver.
Qed.

#[export] Hint Resolve cells_NoDup end_slot_cells linked_end : links.
