(* ===== verification/TrxInfo.v ===== *)
(** * Engines in a transaction (THD_TRANS and Ha_trx_info of private/handler.h)

    A transaction context links the engines that take part in it through
    [Ha_trx_info] objects; several contexts (the statement's and the
    transaction's) use objects of their own.  The objects and the contexts are
    stores indexed by address; an engine is its address. *)

From Stdlib Require Import ZArith Lia.
From S2P Require Import Prelude Flags Links.
From stdpp Require Import prelude list.
Local Open Scope Z_scope.
Local Open Scope cint_scope.

Module TrxInfo.

Definition TRX_READ_ONLY : Z := 0.
Definition TRX_READ_WRITE : Z := 1.

Record Ha_trx_info := mk_info {
  m_next : N;
  m_ht : option N;        (* None: the null pointer *)
  m_flags : Z             (* uchar *)
}.

Record THD_TRANS := mk_trans {
  no_2pc : bool;
  ha_list : N;
  modified_non_trans_table : bool;
  m_unsafe_rollback_flags : Z       (* unsigned int *)
}.

(** ** Flags of statements that cannot be rolled back *)

Definition MODIFIED_NON_TRANS_TABLE : Z := 1.
Definition CREATED_TEMP_TABLE : Z := 2.
Definition DROPPED_TEMP_TABLE : Z := 4.
Definition DID_WAIT : Z := 8.
Definition DID_DDL : Z := 0x10.
Definition EXECUTED_TABLE_ADMIN_CMD : Z := 0x20.

(** [THD_TRANS::reset]; the list stays. *)
Definition trans_reset (t : THD_TRANS) : THD_TRANS := mk_trans false (ha_list t) false 0.
Definition trans_is_empty (t : THD_TRANS) : bool := N.eqb (ha_list t) NULL.

Definition mark (t : THD_TRANS) (flag : Z) : THD_TRANS :=
  mk_trans (no_2pc t) (ha_list t) (modified_non_trans_table t) (Z.lor (m_unsafe_rollback_flags t) flag).
Definition test (t : THD_TRANS) (flags : Z) : bool :=
  negb (Z.land (m_unsafe_rollback_flags t) flags =? 0).

Definition mark_modified_non_trans_temp_table (t : THD_TRANS) := mark t MODIFIED_NON_TRANS_TABLE.
Definition has_modified_non_trans_temp_table (t : THD_TRANS) := test t MODIFIED_NON_TRANS_TABLE.
Definition mark_executed_table_admin_cmd (t : THD_TRANS) := mark t EXECUTED_TABLE_ADMIN_CMD.
Definition trans_executed_admin_cmd (t : THD_TRANS) := test t EXECUTED_TABLE_ADMIN_CMD.
Definition mark_created_temp_table (t : THD_TRANS) := mark t CREATED_TEMP_TABLE.
Definition mark_dropped_temp_table (t : THD_TRANS) := mark t DROPPED_TEMP_TABLE.
Definition has_created_dropped_temp_table (t : THD_TRANS) :=
  test t (Z.lor CREATED_TEMP_TABLE DROPPED_TEMP_TABLE).
Definition mark_trans_did_wait (t : THD_TRANS) := mark t DID_WAIT.
Definition trans_did_wait (t : THD_TRANS) := test t DID_WAIT.
Definition mark_trans_did_ddl (t : THD_TRANS) := mark t DID_DDL.
Definition trans_did_ddl (t : THD_TRANS) := test t DID_DDL.

(** ** Participating engines *)

Record world := mk_world { infos : N -> Ha_trx_info; trans : N -> THD_TRANS }.

Definition set_info (w : world) (a : N) (i : Ha_trx_info) : world :=
  mk_world (fupd (infos w) a i) (trans w).

(** The assertions: the object is not in use. *)
Definition register_ha (w : world) (a t : N) (ht_arg : N) : option world :=
  let i := infos w a in
  if (m_flags i =? 0) && bool_decide (m_ht i = None) && N.eqb (m_next i) NULL then
    let i := mk_info (ha_list (trans w t)) (Some ht_arg) TRX_READ_ONLY in
    let tr := trans w t in
    Some (mk_world (fupd (infos w) a i)
            (fupd (trans w) t (mk_trans (no_2pc tr) a (modified_non_trans_table tr)
                                 (m_unsafe_rollback_flags tr))))
  else None.

Definition info_reset (w : world) (a : N) : world := set_info w a (mk_info NULL None 0).

Definition is_started (i : Ha_trx_info) : bool := negb (bool_decide (m_ht i = None)).

Definition set_trx_read_write (w : world) (a : N) : option world :=
  let i := infos w a in
  if is_started i then Some (set_info w a (mk_info (m_next i) (m_ht i) (u8 (Z.lor (m_flags i) TRX_READ_WRITE))))
  else None.

Definition info_is_read_write (i : Ha_trx_info) : option bool :=
  if is_started i then Some (truth (Z.land (m_flags i) TRX_READ_WRITE)) else None.

Definition coalesce_trx_with (w : world) (a stmt_trx : N) : option world :=
  if is_started (infos w a) then
    rw ← info_is_read_write (infos w stmt_trx);
    if (rw : bool) then set_trx_read_write w a else Some w
  else None.

Definition next (i : Ha_trx_info) : option N := if is_started i then Some (m_next i) else None.
Definition ht (i : Ha_trx_info) : option N := if is_started i then m_ht i else None.

(** [THD_TRANS::is_trx_read_write]: the loop from an object. *)
Fixpoint read_write_loop (fuel : nat) (w : world) (ha_info : N) : option bool :=
  match fuel with
  | O => None
  | S f =>
      if N.eqb ha_info NULL then Some false
      else
        rw ← info_is_read_write (infos w ha_info);
        if (rw : bool) then Some true else n ← next (infos w ha_info); read_write_loop f w n
  end.
Definition is_trx_read_write (fuel : nat) (w : world) (t : N) : option bool :=
  read_write_loop fuel w (ha_list (trans w t)).

(** ** Properties *)

(** The abstract transaction: its objects with engine and mode, newest first. *)
Definition entry : Type := N * (N * bool).
Definition addr (e : entry) : N := fst e.
Definition rw (e : entry) : bool := snd (snd e).

(** The object of an entry that is followed by [q]. *)
Definition holds_entry (i : Ha_trx_info) (e : entry) (q : N) : Prop :=
  i = mk_info q (Some (fst (snd e))) (if rw e then TRX_READ_WRITE else TRX_READ_ONLY).

Fixpoint chain (h : N -> Ha_trx_info) (p : N) (es : list entry) : Prop :=
  match es with
  | [] => p = NULL
  | e :: es => p = addr e /\ p <> NULL /\ exists q, holds_entry (h p) e q /\ chain h q es
  end.

(** Objects of no transaction are reset. *)
Definition idle (i : Ha_trx_info) : Prop := i = mk_info NULL None 0.

Record rel (w : world) (S : N -> list entry) : Prop := {
  rel_chain t : chain (infos w) (ha_list (trans w t)) (S t);
  rel_nodup t : NoDup (addr <$> S t);
  rel_apart t t' : t <> t' -> (addr <$> S t) ## (addr <$> S t');
  rel_idle a : (forall t, a ∉ addr <$> S t) -> idle (infos w a)
}.

Lemma chain_ext h h' p es :
  (forall a, a ∈ addr <$> es -> h' a = h a) -> chain h p es -> chain h' p es.
Proof.
  revert p. induction es as [|e es IH]; intros p Hh; cbn; [done|].
  intros (->&Hn&q&He&Hc). split; [done|]. split; [done|]. exists q.
  split; [rewrite Hh by set_solver; done|]. apply IH; [set_solver|done].
Qed.

(** Marking the object [a] in a list of entries. *)
Definition mark_entry (a : N) (e : entry) : entry :=
  if decide (addr e = a) then (addr e, (fst (snd e), true)) else e.

Lemma mark_entry_addr a (es : list entry) : addr <$> (mark_entry a <$> es) = addr <$> es.
Proof.
  rewrite <- list_fmap_compose. apply list_fmap_ext. intros _ e _. unfold compose, mark_entry.
  by case_decide.
Qed.

Lemma mark_entry_none a (es : list entry) : a ∉ addr <$> es -> mark_entry a <$> es = es.
Proof.
  intros Hn. rewrite <- (list_fmap_id es) at 2. apply list_fmap_ext. intros i x Hx.
  unfold mark_entry. rewrite decide_False; [done|]. intros E. apply Hn. rewrite <- E.
  apply list_elem_of_fmap. exists x. split; [done|]. by eapply list_elem_of_lookup_2.
Qed.

Lemma chain_started h p es a :
  chain h p es -> a ∈ addr <$> es -> exists n q b, h a = mk_info q (Some n) (if (b : bool) then 1 else 0).
Proof.
  revert p. induction es as [|e es IH]; intros p; [set_solver|].
  rewrite fmap_cons, elem_of_cons. intros (->&_&q&He&Hc) [->|Ha]; [|by apply (IH q)].
  rewrite He. eexists _, _, (rw e). done.
Qed.

Lemma chain_mark h p es a :
  NoDup (addr <$> es) -> chain h p es ->
  chain (fupd h a (mk_info (m_next (h a)) (m_ht (h a)) (u8 (Z.lor (m_flags (h a)) TRX_READ_WRITE))))
    p (mark_entry a <$> es).
Proof.
  revert p. induction es as [|e es IH]; intros p Hnd; cbn; [done|].
  cbn in Hnd. apply NoDup_cons in Hnd as [Hne Hnd].
  intros (->&Hn&q&He&Hc). destruct (decide (addr e = a)) as [Ea|Ea].
  - rewrite (decide_True _ _ Ea : mark_entry a e = (addr e, (fst (snd e), true))). cbn. split; [done|]. split; [done|]. exists q. subst a. rewrite fupd_eq, He. split.
    + unfold holds_entry. cbn. by destruct (rw e).
    + rewrite (mark_entry_none (addr e) es) by done.
      eapply chain_ext; [|exact Hc]. intros b Hb. apply fupd_ne. intros <-. done.
  - rewrite (decide_False _ _ Ea : mark_entry a e = e).
    split; [done|]. split; [done|]. exists q. rewrite fupd_ne by done. split; [done|]. by apply IH.
Qed.

(** *** The operations on transactions as sets of participants *)

Inductive cmd : Type :=
  | Register (a t h : N)
  | ReadWrite (a : N)
  | Coalesce (a stmt_trx : N).

Definition exec (w : world) (c : cmd) : option world :=
  match c with
  | Register a t h => register_ha w a t h
  | ReadWrite a => set_trx_read_write w a
  | Coalesce a s => coalesce_trx_with w a s
  end.

Fixpoint run (w : world) (cs : list cmd) : option world :=
  match cs with [] => Some w | c :: cs => w ← exec w c; run w cs end.

Definition participates (S : N -> list entry) (a : N) : Prop := exists t, a ∈ addr <$> S t.
Definition mark_all (a : N) (S : N -> list entry) : N -> list entry := fun t => mark_entry a <$> S t.

Inductive spec (S : N -> list entry) : cmd -> (N -> list entry) -> Prop :=
  | spec_register a t h :
      a <> NULL -> ~ participates S a ->
      spec S (Register a t h) (fupd S t ((a, (h, false)) :: S t))
  | spec_read_write a : participates S a -> spec S (ReadWrite a) (mark_all a S)
  | spec_coalesce a s t e :
      participates S a -> e ∈ S t -> addr e = s ->
      spec S (Coalesce a s) (if rw e then mark_all a S else S).

Inductive specs (S : N -> list entry) : list cmd -> (N -> list entry) -> Prop :=
  | specs_nil : specs S [] S
  | specs_cons c cs S1 S2 : spec S c S1 -> specs S1 cs S2 -> specs S (c :: cs) S2.

Lemma chain_entry h p es e :
  chain h p es -> e ∈ es -> exists q, holds_entry (h (addr e)) e q.
Proof.
  revert p. induction es as [|e' es IH]; intros p; cbn; [set_solver|].
  intros (->&_&q&He&Hc) [->|Hin]%elem_of_cons; [by exists q|by apply (IH q)].
Qed.

Lemma rel_started w S a : rel w S -> participates S a -> is_started (infos w a) = true.
Proof.
  intros H [t Ha]. destruct (chain_started _ _ _ _ (rel_chain _ _ H t) Ha) as (n&q&b&E).
  unfold is_started. by rewrite E.
Qed.

Lemma rel_not_started w S a : rel w S -> ~ participates S a -> infos w a = mk_info NULL None 0.
Proof. intros H Hn. apply (rel_idle _ _ H). intros t Ht. apply Hn. by exists t. Qed.

Lemma register_rel w S a t h :
  rel w S -> a <> NULL -> ~ participates S a ->
  exists w', register_ha w a t h = Some w' /\ rel w' (fupd S t ((a, (h, false)) :: S t)).
Proof.
  intros H Ha Hn. assert (forall t, a ∉ addr <$> S t) as Hna by (intros t' ?; apply Hn; by exists t').
  eexists. unfold register_ha. rewrite (rel_not_started w S a) by done. cbn. split; [reflexivity|].
  assert (forall t', chain (fupd (infos w) a (mk_info (ha_list (trans w t)) (Some h) TRX_READ_ONLY))
            (ha_list (trans w t')) (S t')) as Hc.
  { intros t'. eapply chain_ext; [|apply (rel_chain _ _ H)]. intros b Hb. apply fupd_ne.
    intros ->. by apply (Hna t'). }
  split; cbn.
  - intros t'. destruct (decide (t' = t)) as [->|Hne].
    + rewrite !fupd_eq. cbn. split; [done|]. split; [done|]. eexists. rewrite fupd_eq.
      split; [reflexivity|]. apply Hc.
    + rewrite !fupd_ne by done. apply Hc.
  - intros t'. destruct (decide (t' = t)) as [->|Hne].
    + rewrite fupd_eq. cbn. apply NoDup_cons. split; [apply Hna|apply (rel_nodup _ _ H)].
    + rewrite fupd_ne by done. apply (rel_nodup _ _ H).
  - intros t1 t2 Hne. pose proof (rel_apart _ _ H t1 t2 Hne). pose proof (Hna t1). pose proof (Hna t2).
    unfold fupd. repeat case_match; subst; cbn; set_solver.
  - intros b Hb. rewrite fupd_ne.
    + apply (rel_idle _ _ H). intros t' Ht'. apply (Hb t'). unfold fupd. case_match; subst; cbn; set_solver.
    + intros ->. apply (Hb t). rewrite fupd_eq. cbn. set_solver.
Qed.

Lemma read_write_rel w S a :
  rel w S -> participates S a ->
  exists w', set_trx_read_write w a = Some w' /\ rel w' (mark_all a S).
Proof.
  intros H Ha. eexists. unfold set_trx_read_write. rewrite (rel_started w S a) by done.
  split; [reflexivity|]. split; cbn.
  - intros t. apply chain_mark; apply H.
  - intros t. unfold mark_all. rewrite mark_entry_addr. apply H.
  - intros t t' Hne. unfold mark_all. rewrite !mark_entry_addr. by apply H.
  - intros b Hb. rewrite fupd_ne.
    + apply (rel_idle _ _ H). intros t Ht. apply (Hb t). unfold mark_all. by rewrite mark_entry_addr.
    + intros ->. destruct Ha as [t Ha]. apply (Hb t). unfold mark_all. by rewrite mark_entry_addr.
Qed.

Lemma entry_read_write w S t e :
  rel w S -> e ∈ S t -> info_is_read_write (infos w (addr e)) = Some (rw e).
Proof.
  intros H He. destruct (chain_entry _ _ _ _ (rel_chain _ _ H t) He) as [q Hq].
  rewrite Hq. unfold info_is_read_write, is_started. cbn. by destruct (rw e).
Qed.

(** A step of the specification is taken by the code. *)
Lemma trx_exec_spec w S c S' :
  rel w S -> spec S c S' -> exists w', exec w c = Some w' /\ rel w' S'.
Proof.
  intros H Hs. destruct Hs as [a t h Ha Hn|a Ha|a s t e Ha He <-]; cbn.
  - by apply register_rel.
  - by apply read_write_rel.
  - unfold coalesce_trx_with. rewrite (rel_started w S a), (entry_read_write w S t e) by done. cbn.
    destruct (rw e); [by apply read_write_rel|]. by exists w.
Qed.

Lemma trx_run_spec w S cs S' :
  rel w S -> specs S cs S' -> exists w', run w cs = Some w' /\ rel w' S'.
Proof.
  intros H Hs. revert w H. induction Hs as [|S c cs S1 S2 Hc Hcs IH]; intros w H; [by exists w|].
  destruct (trx_exec_spec w S c S1 H Hc) as (w1&E&H1). cbn. rewrite E. by apply IH.
Qed.

Lemma read_write_loop_chain w p es fuel :
  chain (infos w) p es -> (length es < fuel)%nat ->
  read_write_loop fuel w p = Some (existsb rw es).
Proof.
  revert p fuel. induction es as [|e es IH]; intros p [|fuel]; cbn; try lia.
  - by intros ->.
  - intros (->&Hn&q&He&Hc) Hf. destruct (N.eqb_spec (addr e) NULL); [done|].
    unfold info_is_read_write, next, is_started. rewrite !He. cbn.
    destruct (rw e); cbn; [done|]. apply IH; [done|lia].
Qed.

(** Contexts with empty lists and objects that are all reset. *)
Definition fresh (w : world) : Prop :=
  (forall t, ha_list (trans w t) = NULL) /\ (forall a, infos w a = mk_info NULL None 0).

Lemma fresh_rel w : fresh w -> rel w (fun _ => []).
Proof.
  intros [Ht Hi]. split; cbn; intros; [apply Ht|constructor|set_solver|apply Hi].
Qed.

(** C13: any sequence of registering engines in transaction contexts, marking
    them read-write and coalescing statement objects into transaction objects
    that the specification (lists of participants with their modes, an object
    in at most one list) allows runs without failing an assertion and leaves
    each context listing its participants, the newest first; then
    is_trx_read_write terminates on every context and tells whether some
    participant of it is marked read-write. *)
Theorem transactions_refine_participants w cs S :
  fresh w -> specs (fun _ => []) cs S ->
  exists w', run w cs = Some w' /\ rel w' S /\
    forall t fuel, (length (S t) < fuel)%nat -> is_trx_read_write fuel w' t = Some (existsb rw (S t)).
Proof.
  intros Hw Hs. destruct (trx_run_spec w _ cs S (fresh_rel w Hw) Hs) as (w'&E&H).
  exists w'. split; [done|]. split; [done|]. intros t fuel Hf.
  apply read_write_loop_chain; [apply H|done].
Qed.

(** *** The flags *)

Inductive mark_kind : Type :=
  | ModifiedTemp | AdminCmd | CreatedTemp | DroppedTemp | Wait | Ddl.
#[global] Instance mark_kind_eq_dec : EqDecision mark_kind.
Proof. solve_decision. Defined.

Definition do_mark (t : THD_TRANS) (k : mark_kind) : THD_TRANS :=
  match k with
  | ModifiedTemp => mark_modified_non_trans_temp_table t
  | AdminCmd => mark_executed_table_admin_cmd t
  | CreatedTemp => mark_created_temp_table t
  | DroppedTemp => mark_dropped_temp_table t
  | Wait => mark_trans_did_wait t
  | Ddl => mark_trans_did_ddl t
  end.

Definition bit_of (k : mark_kind) : Z :=
  match k with
  | ModifiedTemp => 0 | CreatedTemp => 1 | DroppedTemp => 2 | Wait => 3 | Ddl => 4 | AdminCmd => 5
  end.

#[global] Instance mark_kind_numbered : Numbered mark_kind.
Proof. exists bit_of; [by intros []|by intros [] []]. Defined.

(** The marks on the flags alone. *)
Lemma marks_flags t ks :
  m_unsafe_rollback_flags (foldl do_mark t ks) =
  foldl (fun z k => Z.lor z (flag k)) (m_unsafe_rollback_flags t) ks.
Proof. revert t. induction ks as [|k ks IH]; intros t; [done|]. cbn. rewrite IH. by destruct k. Qed.

Lemma marks_list t ks : ha_list (foldl do_mark t ks) = ha_list t.
Proof. revert t. induction ks as [|k ks IH]; intros t; [done|]. cbn. rewrite IH. by destruct k. Qed.

(** after a reset and any sequence of marks, each of the queries on unsafe
    statements answers whether one of its marks was made since the reset; the
    kinds never disturb each other. *)
Theorem rollback_flags_remember_marks t ks :
  let t' := foldl do_mark (trans_reset t) ks in
  has_modified_non_trans_temp_table t' = bool_decide (ModifiedTemp ∈ ks) /\
  trans_executed_admin_cmd t' = bool_decide (AdminCmd ∈ ks) /\
  has_created_dropped_temp_table t' = bool_decide (CreatedTemp ∈ ks \/ DroppedTemp ∈ ks) /\
  trans_did_wait t' = bool_decide (Wait ∈ ks) /\
  trans_did_ddl t' = bool_decide (Ddl ∈ ks) /\
  ha_list t' = ha_list t.
Proof.
  cbv zeta. assert (holds_flags (m_unsafe_rollback_flags (foldl do_mark (trans_reset t) ks)) ks) as H.
  { rewrite marks_flags. apply (holds_flags_fold _ []), holds_flags_nil. }
  split; [apply (holds_flags_test _ _ ModifiedTemp H)|]. split; [apply (holds_flags_test _ _ AdminCmd H)|].
  split; [apply (holds_flags_test2 _ _ CreatedTemp DroppedTemp H)|].
  split; [apply (holds_flags_test _ _ Wait H)|]. split; [apply (holds_flags_test _ _ Ddl H)|].
  by rewrite marks_list.
Qed.

(** *** A transaction of two engines *)

Definition w0 : world :=
  mk_world (fun _ => mk_info NULL None 0) (fun _ => mk_trans false NULL false 0).
(** Engines 7 and 8 in the statement's context 1, engine 7 in the transaction's
    context 2; the statement writes through 7 and is coalesced. *)
Definition demo : list cmd :=
  [Register 10 1 7; Register 11 1 8; Register 12 2 7; ReadWrite 10; Coalesce 12 10].

Ltac out_of_all :=
  let t := fresh in let Ht := fresh in
  intros [t Ht]; unfold fupd in Ht; repeat case_match; cbn [fmap list_fmap] in Ht;
  repeat (apply elem_of_cons in Ht as [Ht|Ht]; [discriminate Ht|]); by apply elem_of_nil in Ht.
Ltac computed_in := apply list_elem_of_In; vm_compute; tauto.

Lemma transactions_refine_participants_witness :
  exists S w', run w0 demo = Some w' /\ rel w' S /\ is_trx_read_write 3 w' 2 = Some true.
Proof.
  destruct (transactions_refine_participants w0 demo
    (mark_all 12 (mark_all 10 (fupd (fupd (fupd (fun _ => []) 1%N [(10, (7, false))]%N) 1%N
       [(11, (8, false)); (10, (7, false))]%N) 2%N [(12, (7, false))]%N)))) as (w'&E&H&Hrw).
  - by split.
  - eapply specs_cons; [apply (spec_register _ 10 1 7); [done|out_of_all]|].
    eapply specs_cons; [apply (spec_register _ 11 1 8); [done|out_of_all]|].
    eapply specs_cons; [apply (spec_register _ 12 2 7); [done|out_of_all]|].
    eapply specs_cons; [apply (spec_read_write _ 10); exists 1%N; computed_in|].
    eapply specs_cons; [|apply specs_nil].
    apply (spec_coalesce _ 12 10 1 (10, (7, true))%N); [exists 2%N; computed_in|computed_in|done].
  - eexists _, w'. split; [exact E|]. split; [exact H|]. apply (Hrw 2%N). vm_compute. lia.
Defined.
End TrxInfo.
