(* ===== verification/Session.v ===== *)
(** * Transactions and binary logging of a session (class THD of private/sql_class.h)

    The functions of a session on its pair of transaction contexts (of the
    statement and since BEGIN), modelled in TrxInfo, its waiting time, and the
    choice of the format in which a statement is written to the binary log. *)

From Stdlib Require Import ZArith Lia.
From S2P Require Import Prelude Flags Links TrxInfo.
From stdpp Require Import prelude list.
Local Open Scope Z_scope.

Module Session.
Import TrxInfo.

(** ** Transactions *)

Record st_transactions := mk_transactions { all : THD_TRANS; stmt : THD_TRANS }.

Definition is_active (t : st_transactions) : bool := negb (N.eqb (ha_list (all t)) NULL).
Definition is_empty (t : st_transactions) : bool := trans_is_empty (all t) && trans_is_empty (stmt t).

Definition merge_unsafe_rollback_flags (t : st_transactions) : st_transactions :=
  let a := all t in
  let modified := if modified_non_trans_table (stmt t) then true else modified_non_trans_table a in
  let mask := Z.lor (Z.lor (Z.lor (Z.lor (Z.lor MODIFIED_NON_TRANS_TABLE DID_WAIT) CREATED_TEMP_TABLE)
                DROPPED_TEMP_TABLE) DID_DDL) EXECUTED_TABLE_ADMIN_CMD in
  mk_transactions
    (mk_trans (no_2pc a) (ha_list a) modified
       (Z.lor (m_unsafe_rollback_flags a) (Z.land (m_unsafe_rollback_flags (stmt t)) mask)))
    (stmt t).

Definition OPTION_NOT_AUTOCOMMIT : Z := Z.shiftl 1 19.
Definition OPTION_BEGIN : Z := Z.shiftl 1 20.
Definition SERVER_STATUS_IN_TRANS : Z := 1.

Definition in_multi_stmt_transaction_mode (option_bits : Z) : bool :=
  truth (Z.land option_bits (Z.lor OPTION_NOT_AUTOCOMMIT OPTION_BEGIN)).
Definition in_active_multi_stmt_transaction (server_status : Z) : bool :=
  truth (Z.land server_status SERVER_STATUS_IN_TRANS).

Record timeouts := mk_timeouts {
  idle_write_transaction_timeout : Z;
  idle_readonly_transaction_timeout : Z;
  idle_transaction_timeout : Z;
  net_wait_timeout : Z
}.

(** [all_trans] is the address of [transaction->all] in the store of contexts;
    [fuel] is for the loop of is_trx_read_write. *)
Definition get_net_wait_timeout (fuel : nat) (w : world) (all_trans : N) (server_status : Z) (v : timeouts) : option Z :=
  if in_active_multi_stmt_transaction server_status then
    rw ← is_trx_read_write fuel w all_trans;
    let general := if 0 <? idle_transaction_timeout v then idle_transaction_timeout v else net_wait_timeout v in
    Some (if (rw : bool)
          then if 0 <? idle_write_transaction_timeout v then idle_write_transaction_timeout v else general
          else if 0 <? idle_readonly_transaction_timeout v then idle_readonly_transaction_timeout v else general)
  else Some (net_wait_timeout v).

(** ** Format of the binary log *)

Inductive enum_binlog_format : Type :=
  | BINLOG_FORMAT_MIXED | BINLOG_FORMAT_STMT | BINLOG_FORMAT_ROW | BINLOG_FORMAT_UNSPEC.
#[global] Instance binlog_format_eq_dec : EqDecision enum_binlog_format.
Proof. solve_decision. Defined.

Record formats := mk_formats {
  binlog_format : enum_binlog_format;                (* variables.binlog_format *)
  current_stmt_binlog_format : enum_binlog_format;
  in_sub_stmt : Z
}.

Definition format_eq (a b : enum_binlog_format) : bool := bool_decide (a = b).

Definition set_current (f : formats) (c : enum_binlog_format) : formats :=
  mk_formats (binlog_format f) c (in_sub_stmt f).

Definition is_current_stmt_binlog_format_row (f : formats) : option bool :=
  if format_eq (current_stmt_binlog_format f) BINLOG_FORMAT_STMT ||
     format_eq (current_stmt_binlog_format f) BINLOG_FORMAT_ROW
  then Some (format_eq (current_stmt_binlog_format f) BINLOG_FORMAT_ROW) else None.

Definition get_binlog_format (f : formats) : enum_binlog_format * enum_binlog_format :=
  (binlog_format f, current_stmt_binlog_format f).
Definition set_binlog_format (f : formats) (format current_format : enum_binlog_format) : formats :=
  mk_formats format current_format (in_sub_stmt f).
Definition set_binlog_format_stmt (f : formats) : formats :=
  mk_formats BINLOG_FORMAT_STMT BINLOG_FORMAT_STMT (in_sub_stmt f).

(** Without wsrep the session's own format. *)
Definition wsrep_binlog_format (f : formats) : enum_binlog_format := binlog_format f.

Definition set_current_stmt_binlog_format_row (f : formats) : formats := set_current f BINLOG_FORMAT_ROW.

Definition set_current_stmt_binlog_format_row_if_mixed (f : formats) : formats :=
  if format_eq (wsrep_binlog_format f) BINLOG_FORMAT_MIXED && (in_sub_stmt f =? 0)
  then set_current_stmt_binlog_format_row f else f.

(** The old format is returned. *)
Definition set_current_stmt_binlog_format_stmt (f : formats) : formats * enum_binlog_format :=
  (set_current f BINLOG_FORMAT_STMT, current_stmt_binlog_format f).

Definition restore_stmt_binlog_format (f : formats) (format : enum_binlog_format) : option formats :=
  row ← is_current_stmt_binlog_format_row f;
  if (row : bool) then None else Some (set_current f format).

Definition reset_current_stmt_binlog_format_row (has_temporary_tables : bool) (f : formats) : formats :=
  if in_sub_stmt f =? 0 then
    if format_eq (wsrep_binlog_format f) BINLOG_FORMAT_ROW then set_current_stmt_binlog_format_row f
    else if negb has_temporary_tables then fst (set_current_stmt_binlog_format_stmt f) else f
  else f.

(** ** Properties of transactions *)

(** A statement of a transaction: its marks, and whether it modified a
    non-transactional table; at its end its flags are merged. *)
Definition statement (t : st_transactions) (s : list mark_kind * bool) : st_transactions :=
  let st := foldl do_mark (trans_reset (stmt t)) (fst s) in
  let st := mk_trans (no_2pc st) (ha_list st) (snd s) (m_unsafe_rollback_flags st) in
  merge_unsafe_rollback_flags (mk_transactions (all t) st).

(** The mask of the merge takes every kind of mark. *)
Lemma merge_mask_all z ks zall kall :
  holds_flags z ks -> holds_flags zall kall ->
  let mask := Z.lor (Z.lor (Z.lor (Z.lor (Z.lor MODIFIED_NON_TRANS_TABLE DID_WAIT) CREATED_TEMP_TABLE)
                DROPPED_TEMP_TABLE) DID_DDL) EXECUTED_TABLE_ADMIN_CMD in
  holds_flags (Z.lor zall (Z.land z mask)) (kall ++ ks).
Proof.
  intros Hz Ha. cbv zeta. intros k. rewrite Z.lor_spec, Z.land_spec, (Hz k), (Ha k).
  replace (Z.testbit _ (number k)) with true by (by destruct k).
  rewrite andb_true_r. repeat case_bool_decide; cbn; set_solver.
Qed.

Definition all_marks (ss : list (list mark_kind * bool)) : list mark_kind := concat ss.*1.

Lemma statements_flags t ss k0 :
  holds_flags (m_unsafe_rollback_flags (all t)) k0 ->
  let t' := foldl statement t ss in
  holds_flags (m_unsafe_rollback_flags (all t')) (k0 ++ all_marks ss) /\
  modified_non_trans_table (all t') = modified_non_trans_table (all t) || existsb snd ss /\
  ha_list (all t') = ha_list (all t).
Proof.
  revert t k0. induction ss as [|[ks m] ss IH]; intros t k0 H; cbv zeta.
  - cbn. rewrite app_nil_r, orb_false_r. done.
  - cbn [foldl]. destruct (IH (statement t (ks, m)) (k0 ++ ks)) as (H1&H2&H3).
    + cbn. apply merge_mask_all; [|done]. rewrite marks_flags. apply (holds_flags_fold _ []), holds_flags_nil.
    + rewrite <- app_assoc in H1. split; [done|]. split; [|done].
      rewrite H2. cbn. destruct m, (modified_non_trans_table (all t)); done.
Qed.

(** C39: at the end of a transaction the context since BEGIN answers for all of
    its statements: each question about effects that cannot be rolled back
    (modified non-transactional tables, created or dropped temporary tables,
    waits, DDL, administrative commands) is answered yes exactly when some
    statement of the transaction had that effect, although each statement
    resets its own context when it starts. *)
Theorem transaction_remembers_statements t ss :
  let t0 := mk_transactions (trans_reset (all t)) (stmt t) in
  let a := all (foldl statement t0 ss) in
  let ks := all_marks ss in
  has_modified_non_trans_temp_table a = bool_decide (ModifiedTemp ∈ ks) /\
  trans_executed_admin_cmd a = bool_decide (AdminCmd ∈ ks) /\
  has_created_dropped_temp_table a = bool_decide (CreatedTemp ∈ ks \/ DroppedTemp ∈ ks) /\
  trans_did_wait a = bool_decide (Wait ∈ ks) /\
  trans_did_ddl a = bool_decide (Ddl ∈ ks) /\
  modified_non_trans_table a = existsb snd ss /\
  ha_list a = ha_list (all t).
Proof.
  cbv zeta. destruct (statements_flags (mk_transactions (trans_reset (all t)) (stmt t)) ss [] holds_flags_nil)
    as (H&Hm&Hl). cbn [app] in H.
  split; [apply (holds_flags_test _ _ ModifiedTemp H)|]. split; [apply (holds_flags_test _ _ AdminCmd H)|].
  split; [apply (holds_flags_test2 _ _ CreatedTemp DroppedTemp H)|].
  split; [apply (holds_flags_test _ _ Wait H)|]. split; [apply (holds_flags_test _ _ Ddl H)|].
  split; [exact Hm|exact Hl].
Qed.

(** The waiting time of a session whose transaction has the participants [es]. *)
Lemma net_wait_timeout_spec w S t fuel status v :
  rel w S -> (length (S t) < fuel)%nat ->
  get_net_wait_timeout fuel w t status v =
  Some (if in_active_multi_stmt_transaction status then
          let specific := if existsb rw (S t) then idle_write_transaction_timeout v
                          else idle_readonly_transaction_timeout v in
          if 0 <? specific then specific
          else if 0 <? idle_transaction_timeout v then idle_transaction_timeout v else net_wait_timeout v
        else net_wait_timeout v).
Proof.
  intros Hr Hf. unfold get_net_wait_timeout. destruct (in_active_multi_stmt_transaction status); [|done].
  unfold is_trx_read_write. rewrite (read_write_loop_chain w _ (S t)) by (by apply Hr || done). cbn.
  by destruct (existsb rw (S t)).
Qed.

(** ** Properties of the format *)

Inductive format_event : Type :=
  | StatementStarts (has_temporary_tables : bool)   (* reset *)
  | Unsafe                                          (* row if mixed *)
  | EnterSub | LeaveSub.

Definition format_step (f : formats) (e : format_event) : formats :=
  match e with
  | StatementStarts temp => reset_current_stmt_binlog_format_row temp f
  | Unsafe => set_current_stmt_binlog_format_row_if_mixed f
  | EnterSub => mk_formats (binlog_format f) (current_stmt_binlog_format f) (in_sub_stmt f + 1)
  | LeaveSub => mk_formats (binlog_format f) (current_stmt_binlog_format f) (in_sub_stmt f - 1)
  end.

(** The events stay inside a function or trigger entered at depth [d]. *)
Fixpoint inside (d : Z) (es : list format_event) : Prop :=
  0 < d /\
  match es with
  | [] => True
  | EnterSub :: es => inside (d + 1) es
  | LeaveSub :: es => inside (d - 1) es
  | _ :: es => inside d es
  end.

Lemma format_inside f es :
  inside (in_sub_stmt f) es -> current_stmt_binlog_format (foldl format_step f es) = current_stmt_binlog_format f.
Proof.
  revert f. induction es as [|e es IH]; intros f; [done|]. cbn [foldl]. intros [Hd Hin].
  destruct e as [temp| | |]; cbn in Hin.
  - assert (format_step f (StatementStarts temp) = f) as ->; [|by apply IH].
    cbn. unfold reset_current_stmt_binlog_format_row. by rewrite (proj2 (Z.eqb_neq _ _)) by lia.
  - assert (format_step f Unsafe = f) as ->; [|by apply IH].
    cbn. unfold set_current_stmt_binlog_format_row_if_mixed. by rewrite (proj2 (Z.eqb_neq _ _)), andb_false_r by lia.
  - by rewrite IH.
  - by rewrite IH.
Qed.

Lemma format_setting f e : binlog_format (format_step f e) = binlog_format f.
Proof.
  destruct e; cbn; unfold reset_current_stmt_binlog_format_row, set_current_stmt_binlog_format_row_if_mixed;
    repeat case_match; done.
Qed.

(** With a setting of STATEMENT or ROW the format of that name is never left. *)
Lemma format_pinned f es b :
  binlog_format f = b -> b <> BINLOG_FORMAT_MIXED -> b = BINLOG_FORMAT_STMT \/ b = BINLOG_FORMAT_ROW ->
  current_stmt_binlog_format f = b -> current_stmt_binlog_format (foldl format_step f es) = b.
Proof.
  revert f. induction es as [|e es IH]; intros f Hb Hm Hs Hc; [done|]. cbn [foldl].
  apply IH; [by rewrite format_setting|done|done|].
  destruct e as [temp| | |]; cbn; [| |done|done].
  - unfold reset_current_stmt_binlog_format_row, wsrep_binlog_format, format_eq. rewrite Hb.
    destruct (_ =? _); [|done]. destruct Hs as [-> | ->]; cbn; [|done]. destruct temp; done.
  - unfold set_current_stmt_binlog_format_row_if_mixed, wsrep_binlog_format, format_eq. rewrite Hb.
    rewrite bool_decide_false by done. done.
Qed.

(** how a session logs is decided between its statements only: inside a
    function or trigger, however deep, no event changes the format; with the
    settings STATEMENT and ROW the format of that name is kept for ever; in
    MIXED mode an unsafe statement is logged as rows, the next statement returns
    to statements, unless temporary tables exist, while which the rows format
    stays; temporarily switching to statements and back restores the format. *)
Theorem binlog_format_discipline (f : formats) :
  (forall es, inside (in_sub_stmt f) es ->
     current_stmt_binlog_format (foldl format_step f es) = current_stmt_binlog_format f) /\
  (forall es, binlog_format f = current_stmt_binlog_format f ->
     binlog_format f = BINLOG_FORMAT_STMT \/ binlog_format f = BINLOG_FORMAT_ROW ->
     current_stmt_binlog_format (foldl format_step f es) = binlog_format f) /\
  (binlog_format f = BINLOG_FORMAT_MIXED -> in_sub_stmt f = 0 ->
     current_stmt_binlog_format (foldl format_step f [StatementStarts false; Unsafe]) = BINLOG_FORMAT_ROW /\
     current_stmt_binlog_format (foldl format_step f [Unsafe; StatementStarts false]) = BINLOG_FORMAT_STMT /\
     current_stmt_binlog_format (foldl format_step f [Unsafe; StatementStarts true]) = BINLOG_FORMAT_ROW) /\
  (let (f', old) := set_current_stmt_binlog_format_stmt f in restore_stmt_binlog_format f' old = Some f).
Proof.
  split; [intros es; apply format_inside|]. split.
  - intros es E Hs. apply format_pinned; [done|by destruct Hs as [-> | ->]|done|done].
  - split; [|by destruct f].
    intros Hb Hd. destruct f as [b c d]. cbn in *. subst. done.
Qed.

Lemma binlog_format_discipline_witness :
  current_stmt_binlog_format
    (foldl format_step (mk_formats BINLOG_FORMAT_MIXED BINLOG_FORMAT_STMT 1) [Unsafe; EnterSub; Unsafe; LeaveSub])
  = BINLOG_FORMAT_STMT /\
  current_stmt_binlog_format
    (foldl format_step (mk_formats BINLOG_FORMAT_MIXED BINLOG_FORMAT_STMT 0) [StatementStarts false; Unsafe])
  = BINLOG_FORMAT_ROW.
Proof.
  split.
  - apply (proj1 (binlog_format_discipline (mk_formats BINLOG_FORMAT_MIXED BINLOG_FORMAT_STMT 1))).
    cbn. lia.
  - apply (binlog_format_discipline (mk_formats BINLOG_FORMAT_MIXED BINLOG_FORMAT_STMT 0)); reflexivity.
Defined.
End Session.
