(* ===== verification/AutoInc.v ===== *)
(** * Auto-increment values (Discrete_interval and Discrete_intervals_list of
      private/structs.h, insert ids of THD in private/sql_class.h)

    Intervals of reserved values, the list of them that a statement owns, and
    the insert ids a session remembers.  Interval objects live on a heap, a
    finite map from addresses; reading or deleting an address that is not there
    has no result. *)

From Stdlib Require Import ZArith Lia.
From S2P Require Import Prelude Links.
From stdpp Require Import prelude list gmap.
Local Open Scope Z_scope.
Local Open Scope cint_scope.

Module AutoInc.

Definition ULONGLONG_MAX : Z := 2 ^ 64 - 1.

Record Discrete_interval := mk_interval {
  interval_min : Z;
  interval_values : Z;
  interval_max : Z;
  next : N
}.

Definition replace (i : Discrete_interval) (start val incr : Z) : Discrete_interval :=
  mk_interval start val (if val =? ULONGLONG_MAX then val else u64 (start + u64 (val * incr))) (next i).

(** The two constructors. *)
Definition new_interval (start val incr : Z) : Discrete_interval :=
  replace (mk_interval 0 0 0 NULL) start val incr.
Definition default_interval : Discrete_interval := new_interval 0 0 0.

(** The new interval, and the value returned. *)
Definition merge_if_contiguous (i : Discrete_interval) (start val incr : Z) : Discrete_interval * bool :=
  if interval_max i =? start then
    if val =? ULONGLONG_MAX then (mk_interval (interval_min i) val val (next i), false)
    else (mk_interval (interval_min i) (u64 (interval_values i + val)) (u64 (start + u64 (val * incr))) (next i), false)
  else (i, true).

(** ** Lists of intervals *)

Record Discrete_intervals_list := mk_list {
  head : N;
  tail : N;
  current : N;
  elements : Z
}.

Notation heap := (gmap N Discrete_interval).

(** The constructor leaves [tail] unset. *)
Definition new_list (garbage : N) : Discrete_intervals_list := mk_list NULL garbage NULL 0.

Definition set_members (h t c : N) (el : Z) : Discrete_intervals_list := mk_list h t c el.
Definition empty_no_free : Discrete_intervals_list := set_members NULL NULL NULL 0.

(** The loop of [empty]; [delete] of an address that is not allocated is
    undefined. *)
Fixpoint free_loop (fuel : nat) (m : heap) (i : N) : option heap :=
  match fuel with
  | O => None
  | S f =>
      if N.eqb i NULL then Some m
      else iv ← m !! i; free_loop f (delete i m) (next iv)
  end.

(** Also the destructor. *)
Definition empty (fuel : nat) (m : heap) (l : Discrete_intervals_list) : option (heap * Discrete_intervals_list) :=
  m ← free_loop fuel m (head l); Some (m, empty_no_free).

Definition copy_shallow (dli : Discrete_intervals_list) : Discrete_intervals_list :=
  mk_list (head dli) (tail dli) (current dli) (elements dli).

(** The new values of [this] and [dli]. *)
Definition swap (this dli : Discrete_intervals_list) : Discrete_intervals_list * Discrete_intervals_list :=
  let h := head dli in
  let t := tail dli in
  let c := current dli in
  let el := elements dli in
  let dli := copy_shallow this in
  (set_members h t c el, dli).

Definition get_next (m : heap) (l : Discrete_intervals_list) : option (Discrete_intervals_list * N) :=
  let tmp := current l in
  if N.eqb tmp NULL then Some (l, tmp)
  else iv ← m !! tmp; Some (mk_list (head l) (tail l) (next iv) (elements l), tmp).

Definition list_minimum (m : heap) (l : Discrete_intervals_list) : option Z :=
  if N.eqb (head l) NULL then Some 0 else interval_min <$> m !! head l.
Definition list_maximum (m : heap) (l : Discrete_intervals_list) : option Z :=
  if N.eqb (head l) NULL then Some 0 else interval_max <$> m !! tail l.
Definition nb_elements (l : Discrete_intervals_list) : Z := elements l.

(** ** Insert ids of a session *)

Record insert_ids := mk_ids {
  in_prev_stmt : Z;
  in_prev_stmt_for_binlog : Z;
  in_cur_stmt : Z;
  stmt_depends_on_prev : bool
}.

Definition record_first_successful_insert_id_in_cur_stmt (t : insert_ids) (id_arg : Z) : insert_ids :=
  if in_cur_stmt t =? 0
  then mk_ids (in_prev_stmt t) (in_prev_stmt_for_binlog t) id_arg (stmt_depends_on_prev t)
  else t.

Definition read_first_successful_insert_id_in_prev_stmt (t : insert_ids) : insert_ids * Z :=
  let t := if negb (stmt_depends_on_prev t)
           then mk_ids (in_prev_stmt t) (in_prev_stmt t) (in_cur_stmt t) true else t in
  (t, in_prev_stmt t).

(** [append] is declared only. *)
Definition force_one_auto_inc_interval
    (append : heap -> Discrete_intervals_list -> Z -> Z -> Z -> option (heap * Discrete_intervals_list))
    (fuel : nat) (m : heap) (forced : Discrete_intervals_list) (next_id : Z) :
    option (heap * Discrete_intervals_list) :=
  '(m, l) ← empty fuel m forced; append m l next_id ULONGLONG_MAX 0.

(** ** Properties of intervals *)

(** The values an interval stands for, as documented. *)
Definition member (start val incr x : Z) : Prop := exists k, 0 <= k < val /\ x = start + k * incr.
Definition values_of (i : Discrete_interval) (incr x : Z) : Prop :=
  member (interval_min i) (interval_values i) incr x.

(** The excluded bound is the one of the interval's values. *)
Definition interval_ok (i : Discrete_interval) (incr : Z) : Prop :=
  0 <= interval_min i /\ 0 <= interval_values i /\
  interval_max i = interval_min i + interval_values i * incr /\ interval_max i < 2 ^ 64.

Lemma member_app start v1 v2 incr x :
  0 <= v1 -> 0 <= v2 ->
  member start (v1 + v2) incr x <-> member start v1 incr x \/ member (start + v1 * incr) v2 incr x.
Proof.
  intros H1 H2. split.
  - intros (k&Hk&->). destruct (Z.lt_ge_cases k v1); [left; exists k; lia|].
    right. exists (k - v1). split; [lia|nia].
  - intros [(k&Hk&->)|(k&Hk&->)]; [exists k; lia|exists (k + v1); lia].
Qed.

Lemma new_interval_ok start val incr :
  0 <= start -> 0 <= val < ULONGLONG_MAX -> 0 <= incr -> start + val * incr < 2 ^ 64 ->
  interval_ok (new_interval start val incr) incr /\
  forall x, values_of (new_interval start val incr) incr x <-> member start val incr x.
Proof.
  intros Hs Hv Hi Hm. unfold new_interval, replace, interval_ok, ULONGLONG_MAX in *. cbn [interval_min interval_values interval_max].
  destruct (Z.eqb_spec val (2 ^ 64 - 1)); [lia|]. rewrite (wrap_small 64 (val * incr)), wrap_small by (split; nia).
  split; [lia|done].
Qed.

(** a finite interval is extended by values that start at its bound and by
    no others, and then stands for exactly the union of both; its bound stays
    the first value after it.  (Values are assumed to fit in 64 bits and to
    have the interval's increment, as the comment demands.) *)
Theorem merge_is_union i start val incr :
  interval_ok i incr -> 0 < incr -> 0 <= start -> 0 <= val < ULONGLONG_MAX -> start + val * incr < 2 ^ 64 ->
  let (i', failed) := merge_if_contiguous i start val incr in
  if (failed : bool) then i' = i /\ interval_max i <> start
  else interval_ok i' incr /\ next i' = next i /\
       forall x, values_of i' incr x <-> values_of i incr x \/ member start val incr x.
Proof.
  intros (Hmin&Hvs&Hmax&Hb) Hi Hs Hv Hm. unfold merge_if_contiguous, interval_ok, values_of, ULONGLONG_MAX in *.
  destruct (Z.eqb_spec (interval_max i) start) as [<-|]; [|done].
  destruct (Z.eqb_spec val (2 ^ 64 - 1)); [lia|]. cbn [interval_min interval_values interval_max next].
  rewrite (wrap_small 64 (val * incr)), (wrap_small 64 (_ + val)), wrap_small by (split; nia).
  split; [nia|]. split; [done|]. intros x. rewrite member_app, Hmax by lia. done.
Qed.

Lemma merge_is_union_witness :
  exists i', merge_if_contiguous (new_interval 1 2 1) 3 3 1 = (i', false) /\ values_of i' 1 5.
Proof.
  pose proof (merge_is_union (new_interval 1 2 1) 3 3 1) as H.
  assert (merge_if_contiguous (new_interval 1 2 1) 3 3 1 = (mk_interval 1 5 6 NULL, false)) as E by reflexivity.
  rewrite E in H. exists (mk_interval 1 5 6 NULL). split; [exact E|].
  apply H; [repeat split; vm_compute; congruence|lia|lia|vm_compute; split; congruence|vm_compute; congruence|].
  right. exists 2. lia.
Defined.

(** ** Properties of lists *)

(** The intervals [xs], with their addresses, are linked from [p] on. *)
Fixpoint chain (m : heap) (p : N) (xs : list N) : Prop :=
  match xs with
  | [] => p = NULL
  | a :: xs => p = a /\ a <> NULL /\ exists iv, m !! a = Some iv /\ chain m (next iv) xs
  end.

(** The list [l] owns the intervals at [xs ++ ys]; [xs] were handed out, [ys]
    are pending. *)
Record owns (m : heap) (l : Discrete_intervals_list) (xs ys : list N) : Prop := {
  owns_chain : chain m (head l) (xs ++ ys);
  owns_current : current l = from_option id NULL (ys !! 0%nat);
  owns_tail : xs ++ ys <> [] -> last (xs ++ ys) = Some (tail l);
  owns_count : elements l = Z.of_nat (length (xs ++ ys));
  owns_nodup : NoDup (xs ++ ys)
}.

Lemma chain_delete m p xs a : a ∉ xs -> chain m p xs -> chain (delete a m) p xs.
Proof.
  revert p. induction xs as [|b xs IH]; intros p Ha; cbn; [done|].
  intros (->&Hn&iv&Hb&Hc). apply not_elem_of_cons in Ha as [Hab Ha].
  split; [done|]. split; [done|]. exists iv. split; [by rewrite lookup_delete_ne|by apply IH].
Qed.

(** Freeing a chain deletes its objects, each once, and nothing else. *)
Lemma free_loop_chain m p xs fuel :
  chain m p xs -> NoDup xs -> (length xs < fuel)%nat ->
  exists m', free_loop fuel m p = Some m' /\
    forall a, m' !! a = if decide (a ∈ xs) then None else m !! a.
Proof.
  revert m p fuel. induction xs as [|b xs IH]; intros m p [|fuel] Hc Hnd Hf; cbn in *; try lia.
  - subst p. exists m. split; [done|]. intros a. rewrite decide_False; [done|apply not_elem_of_nil].
  - destruct Hc as (->&Hn&iv&Hb&Hc). apply NoDup_cons in Hnd as [Hbn Hnd].
    destruct (N.eqb_spec b NULL); [done|]. rewrite Hb. cbn.
    destruct (IH (delete b m) (next iv) fuel) as (m'&E&Hm'); [by apply chain_delete|done|lia|].
    exists m'. split; [done|]. intros a. rewrite Hm'.
    destruct (decide (a = b)) as [->|].
    + rewrite (decide_True (P := b ∈ b :: xs)), lookup_delete_eq by set_solver. by case_decide.
    + rewrite lookup_delete_ne by done. repeat case_decide; set_solver.
Qed.

Lemma empty_frees m l xs ys fuel :
  owns m l xs ys -> (length (xs ++ ys) < fuel)%nat ->
  exists m', empty fuel m l = Some (m', empty_no_free) /\
    forall a, m' !! a = if decide (a ∈ xs ++ ys) then None else m !! a.
Proof.
  intros H Hf. destruct (free_loop_chain m (head l) (xs ++ ys) fuel) as (m'&E&Hm');
    [apply H|apply H|done|].
  exists m'. unfold empty. rewrite E. done.
Qed.

Lemma owns_frame m m' l xs ys :
  (forall a, a ∈ xs ++ ys -> m' !! a = m !! a) -> owns m l xs ys -> owns m' l xs ys.
Proof.
  intros Hm [H1 H2 H3 H4 H5]. split; try done. revert Hm H1. generalize (head l) as p.
  clear. induction (xs ++ ys) as [|a as_ IH]; intros p Hm; cbn; [done|].
  intros (->&Hn&iv&Ha&Hc). split; [done|]. split; [done|]. exists iv.
  split; [rewrite Hm by set_solver; done|]. apply IH; [set_solver|done].
Qed.

Lemma chain_lookup m p xs y ys :
  chain m p (xs ++ y :: ys) -> y <> NULL /\ exists iv, m !! y = Some iv /\ chain m (next iv) ys.
Proof.
  revert p. induction xs as [|x xs IH]; intros p; cbn.
  - by intros (_&?&?).
  - intros (_&_&iv&_&Hc). by apply (IH (next iv)).
Qed.

Lemma chain_first m p ys : chain m p ys -> p = from_option id NULL (ys !! 0%nat).
Proof. destruct ys; cbn; naive_solver. Qed.

(** [get_next] hands out the next interval, and a null pointer at the end. *)
Lemma get_next_cons m l xs y ys :
  owns m l xs (y :: ys) -> exists l', get_next m l = Some (l', y) /\ owns m l' (xs ++ [y]) ys.
Proof.
  intros [H1 H2 H3 H4 H5]. destruct (chain_lookup _ _ _ _ _ H1) as (Hy&iv&Hiv&Hc).
  cbn in H2. unfold get_next. rewrite H2. destruct (N.eqb_spec y NULL); [done|]. rewrite Hiv. cbn.
  eexists. split; [done|]. split; cbn [head tail current elements]; rewrite <- ?app_assoc; try done.
  by apply (chain_first m).
Qed.

Lemma get_next_nil m l xs : owns m l xs [] -> get_next m l = Some (l, NULL).
Proof. intros H. unfold get_next. rewrite (owns_current _ _ _ _ H). done. Qed.

(** [n] calls of [get_next]. *)
Fixpoint get_nexts (n : nat) (m : heap) (l : Discrete_intervals_list) : option (Discrete_intervals_list * list N) :=
  match n with
  | O => Some (l, [])
  | S n => '(l, p) ← get_next m l; '(l, ps) ← get_nexts n m l; Some (l, p :: ps)
  end.

Lemma get_nexts_all m l xs ys :
  owns m l xs ys -> exists l', get_nexts (length ys) m l = Some (l', ys) /\ owns m l' (xs ++ ys) [].
Proof.
  revert l xs. induction ys as [|y ys IH]; intros l xs H; cbn.
  - exists l. rewrite app_nil_r. done.
  - destruct (get_next_cons _ _ _ _ _ H) as (l1&E&H1). rewrite E. cbn.
    destruct (IH l1 (xs ++ [y]) H1) as (l2&E2&H2). rewrite E2. cbn. exists l2.
    rewrite <- app_assoc in H2. done.
Qed.

(** Destroying two lists that own different intervals. *)
Lemma both_freed m l1 l2 xs1 ys1 xs2 ys2 fuel :
  owns m l1 xs1 ys1 -> owns m l2 xs2 ys2 -> (xs1 ++ ys1) ## (xs2 ++ ys2) ->
  (length (xs1 ++ ys1) < fuel)%nat -> (length (xs2 ++ ys2) < fuel)%nat ->
  exists m1 m2, empty fuel m l1 = Some (m1, empty_no_free) /\ empty fuel m1 l2 = Some (m2, empty_no_free) /\
    forall a, m2 !! a = if decide (a ∈ (xs1 ++ ys1) ++ (xs2 ++ ys2)) then None else m !! a.
Proof.
  intros H1 H2 Hd Hf1 Hf2. destruct (empty_frees _ _ _ _ fuel H1 Hf1) as (m1&E1&Hm1).
  destruct (empty_frees m1 l2 xs2 ys2 fuel) as (m2&E2&Hm2); [|done|].
  - eapply owns_frame; [|exact H2]. intros a Ha. rewrite Hm1, decide_False; [done|set_solver].
  - exists m1, m2. split; [done|]. split; [done|]. intros a. rewrite Hm2, Hm1.
    repeat case_decide; set_solver.
Qed.

Lemma hands_out m l xs ys :
  owns m l xs ys ->
  exists l', get_nexts (length ys) m l = Some (l', ys) /\ get_next m l' = Some (l', NULL).
Proof.
  intros H. destruct (get_nexts_all _ _ _ _ H) as (l'&E&Hl). exists l'. split; [done|].
  by eapply get_next_nil.
Qed.

(** C37: two lists that own different intervals exchange them with swap, without
    copying or losing one: each has the head, tail, current and number of
    elements of the other, so it owns the other's intervals (the last of them is
    its tail), reports the other's minimum and maximum, and hands out exactly
    the other's pending intervals in order and then null; and when both are
    destroyed, in either order, every interval of both is freed exactly once and
    nothing else is.  The loop of empty terminates with fuel beyond the number
    of intervals. *)
Theorem swapped_lists_own_each_others m l1 l2 xs1 ys1 xs2 ys2 fuel :
  owns m l1 xs1 ys1 -> owns m l2 xs2 ys2 -> (xs1 ++ ys1) ## (xs2 ++ ys2) ->
  (length (xs1 ++ ys1) < fuel)%nat -> (length (xs2 ++ ys2) < fuel)%nat ->
  let (l1', l2') := swap l1 l2 in
  owns m l1' xs2 ys2 /\ owns m l2' xs1 ys1 /\
  (head l1' = head l2 /\ tail l1' = tail l2 /\ current l1' = current l2 /\ elements l1' = elements l2) /\
  (head l2' = head l1 /\ tail l2' = tail l1 /\ current l2' = current l1 /\ elements l2' = elements l1) /\
  list_minimum m l1' = list_minimum m l2 /\ list_maximum m l1' = list_maximum m l2 /\
  list_minimum m l2' = list_minimum m l1 /\ list_maximum m l2' = list_maximum m l1 /\
  (exists l, get_nexts (length ys2) m l1' = Some (l, ys2) /\ get_next m l = Some (l, NULL)) /\
  (exists l, get_nexts (length ys1) m l2' = Some (l, ys1) /\ get_next m l = Some (l, NULL)) /\
  (exists m1 m2, empty fuel m l1' = Some (m1, empty_no_free) /\ empty fuel m1 l2' = Some (m2, empty_no_free) /\
    forall a, m2 !! a = if decide (a ∈ (xs1 ++ ys1) ++ (xs2 ++ ys2)) then None else m !! a) /\
  (exists m1 m2, empty fuel m l2' = Some (m1, empty_no_free) /\ empty fuel m1 l1' = Some (m2, empty_no_free) /\
    forall a, m2 !! a = if decide (a ∈ (xs1 ++ ys1) ++ (xs2 ++ ys2)) then None else m !! a).
Proof.
  intros H1 H2 Hd Hf1 Hf2. unfold swap.
  assert (owns m (set_members (head l2) (tail l2) (current l2) (elements l2)) xs2 ys2) as H2'
    by (destruct H2; by split).
  assert (owns m (copy_shallow l1) xs1 ys1) as H1' by (destruct H1; by split).
  repeat (split; [first [done | by eapply hands_out]|]). split.
  - destruct (both_freed _ _ _ _ _ _ _ fuel H2' H1') as (m1&m2&E1&E2&Hm); [set_solver|done|done|].
    exists m1, m2. split; [done|]. split; [done|]. intros a. rewrite Hm. repeat case_decide; set_solver.
  - by apply both_freed.
Qed.

Definition two_lists : heap :=
  {[ 1%N := mk_interval 1 2 3 2; 2%N := mk_interval 7 1 8 NULL; 3%N := mk_interval 20 5 25 NULL ]}.

Lemma swapped_lists_own_each_others_witness :
  let (l1, l2) := swap (mk_list 1 2 1 2) (mk_list 3 3 3 1) in
  get_nexts 2 two_lists l2 = Some (mk_list 1 2 NULL 2, [1; 2]%N) /\
  exists m1 m2, empty 4 two_lists l1 = Some (m1, empty_no_free) /\ empty 4 m1 l2 = Some (m2, empty_no_free).
Proof.
  assert (owns two_lists (mk_list 1 2 1 2) [] [1; 2]%N) as H1.
  { split; [|done|done|done|repeat constructor; set_solver].
    cbn. repeat (split; [done|]; split; [done|]; eexists; split; [reflexivity|]). done. }
  assert (owns two_lists (mk_list 3 3 3 1) [] [3]%N) as H2.
  { split; [|done|done|done|repeat constructor; set_solver].
    cbn. repeat (split; [done|]; split; [done|]; eexists; split; [reflexivity|]). done. }
  pose proof (swapped_lists_own_each_others _ _ _ _ _ _ _ 4 H1 H2) as H.
  cbn in H. destruct H as (_&_&_&_&_&_&_&_&_&_&(m1&m2&E1&E2&_)&_); [set_solver|lia|lia|].
  split; [reflexivity|]. exists m1, m2. split; [exact E1|exact E2].
Defined.

(** ** Properties of insert ids *)

Inductive event : Type :=
  | Inserted (id : Z)      (* an automatically generated value was inserted *)
  | ReadLast               (* LAST_INSERT_ID() *)
  | SetLast (id : Z).      (* a substatement changes the value of the previous statement *)
#[global] Instance event_eq_dec : EqDecision event.
Proof. solve_decision. Defined.

Definition happen (t : insert_ids) (e : event) : insert_ids :=
  match e with
  | Inserted id => record_first_successful_insert_id_in_cur_stmt t id
  | ReadLast => fst (read_first_successful_insert_id_in_prev_stmt t)
  | SetLast id => mk_ids id (in_prev_stmt_for_binlog t) (in_cur_stmt t) (stmt_depends_on_prev t)
  end.

(** The first value inserted other than 0, or 0. *)
Fixpoint first_inserted (es : list event) : Z :=
  match es with
  | [] => 0
  | Inserted id :: es => if id =? 0 then first_inserted es else id
  | _ :: es => first_inserted es
  end.

(** What the first LAST_INSERT_ID() returned. *)
Fixpoint first_read (prev : Z) (es : list event) : option Z :=
  match es with
  | [] => None
  | ReadLast :: _ => Some prev
  | SetLast id :: es => first_read id es
  | Inserted _ :: es => first_read prev es
  end.

Lemma happen_depends t es :
  stmt_depends_on_prev t = true ->
  in_prev_stmt_for_binlog (foldl happen t es) = in_prev_stmt_for_binlog t /\
  stmt_depends_on_prev (foldl happen t es) = true.
Proof.
  revert t. induction es as [|e es IH]; intros t Ht; [done|]. cbn.
  assert (stmt_depends_on_prev (happen t e) = true /\
          in_prev_stmt_for_binlog (happen t e) = in_prev_stmt_for_binlog t) as [H1 H2].
  { destruct e; cbn; unfold record_first_successful_insert_id_in_cur_stmt; rewrite ?Ht;
      cbn; repeat case_match; done. }
  destruct (IH _ H1) as [-> ->]. done.
Qed.

Lemma first_inserted_kept t es :
  in_cur_stmt (foldl happen t es) = if in_cur_stmt t =? 0 then first_inserted es else in_cur_stmt t.
Proof.
  revert t. induction es as [|e es IH]; intros t; cbn; [by destruct (Z.eqb_spec (in_cur_stmt t) 0)|].
  rewrite IH. destruct e as [id| |id]; cbn; unfold record_first_successful_insert_id_in_cur_stmt;
    destruct (Z.eqb_spec (in_cur_stmt t) 0) as [E|]; cbn;
    rewrite ?E; repeat case_match; cbn in *; rewrite ?E in *; cbn in *; try done; lia.
Qed.

(** over the events of a statement, substatements included, the id
    remembered for the statement is the first one generated, whatever follows,
    and the id written to the binary log is the one the first LAST_INSERT_ID()
    returned, even when the session's value changes later; it is marked for the
    log exactly when LAST_INSERT_ID() was called. *)
Theorem insert_ids_of_statement prev old es :
  let t := foldl happen (mk_ids prev old 0 false) es in
  in_cur_stmt t = first_inserted es /\
  stmt_depends_on_prev t = bool_decide (ReadLast ∈ es) /\
  in_prev_stmt_for_binlog t = default old (first_read prev es).
Proof.
  cbv zeta. split; [apply first_inserted_kept|].
  generalize 0 as c. revert prev. induction es as [|e es IH]; intros prev c; cbn; [done|].
  destruct e as [id| |id]; cbn.
  - unfold record_first_successful_insert_id_in_cur_stmt. cbn.
    assert (bool_decide (ReadLast ∈ Inserted id :: es) = bool_decide (ReadLast ∈ es)) as ->
      by (apply bool_decide_ext; set_solver).
    destruct (c =? 0); apply IH.
  - destruct (happen_depends (mk_ids prev prev c true) es eq_refl) as [-> ->].
    rewrite bool_decide_true by set_solver. done.
  - assert (bool_decide (ReadLast ∈ SetLast id :: es) = bool_decide (ReadLast ∈ es)) as ->
      by (apply bool_decide_ext; set_solver).
    apply IH.
Qed.
End AutoInc.
