(* ===== verification/QueryTables.v ===== *)
(** * Tables and safety of a statement (class Query_tables_list of private/sql_lex.h)

    The global list of a statement's tables, with the mark behind which tables
    were added for prelocking, and the two bit fields that decide how the
    statement may be written to the binary log. *)

From Stdlib Require Import ZArith Lia.
From S2P Require Import Prelude Flags Links.
From stdpp Require Import prelude list.
Local Open Scope Z_scope.

Module QueryTables.

(** ** The list of tables

    [SFirst 0] is the member [query_tables], [SNext t] the member [next_global]
    of the table [t]. *)

Record tables := mk_tables {
  cell : slot -> N;
  prev_global : N -> slot;
  query_tables_last : slot;
  query_tables_own_last : option slot
}.

Definition query_tables (q : tables) : N := cell q (SFirst 0).

Definition add_to_query_tables (q : tables) (table : N) : tables :=
  mk_tables (fupd (cell q) (query_tables_last q) table)
    (fupd (prev_global q) table (query_tables_last q))
    (SNext table) (query_tables_own_last q).

Definition requires_prelocking (q : tables) : bool := bool_decide (is_Some (query_tables_own_last q)).

Definition mark_as_requiring_prelocking (q : tables) (tables_own_last : option slot) : tables :=
  mk_tables (cell q) (prev_global q) (query_tables_last q) tables_own_last.

Definition first_not_own_table (q : tables) : N :=
  match query_tables_own_last q with Some s => cell q s | None => NULL end.

Definition chop_off_not_own_tables (q : tables) : tables :=
  match query_tables_own_last q with
  | Some s => mk_tables (fupd (cell q) s NULL) (prev_global q) s None
  | None => q
  end.

(** The table whose member [next_global] is the last cell; the subtraction of
    the member's offset from the address of [query_tables] gives no table. *)
Definition last_table (q : tables) : option N :=
  if N.eqb (query_tables q) NULL then Some NULL
  else match query_tables_last q with SNext t => Some t | SFirst _ => None end.

(** ** Reasons for a statement to be unsafe *)

Inductive enum_binlog_stmt_unsafe : Type :=
  | BINLOG_STMT_UNSAFE_LIMIT
  | BINLOG_STMT_UNSAFE_INSERT_DELAYED
  | BINLOG_STMT_UNSAFE_SYSTEM_TABLE
  | BINLOG_STMT_UNSAFE_AUTOINC_COLUMNS
  | BINLOG_STMT_UNSAFE_UDF
  | BINLOG_STMT_UNSAFE_SYSTEM_VARIABLE
  | BINLOG_STMT_UNSAFE_SYSTEM_FUNCTION
  | BINLOG_STMT_UNSAFE_NONTRANS_AFTER_TRANS
  | BINLOG_STMT_UNSAFE_MULTIPLE_ENGINES_AND_SELF_LOGGING_ENGINE
  | BINLOG_STMT_UNSAFE_MIXED_STATEMENT
  | BINLOG_STMT_UNSAFE_INSERT_IGNORE_SELECT
  | BINLOG_STMT_UNSAFE_INSERT_SELECT_UPDATE
  | BINLOG_STMT_UNSAFE_WRITE_AUTOINC_SELECT
  | BINLOG_STMT_UNSAFE_REPLACE_SELECT
  | BINLOG_STMT_UNSAFE_CREATE_IGNORE_SELECT
  | BINLOG_STMT_UNSAFE_CREATE_REPLACE_SELECT
  | BINLOG_STMT_UNSAFE_CREATE_SELECT_AUTOINC
  | BINLOG_STMT_UNSAFE_UPDATE_IGNORE
  | BINLOG_STMT_UNSAFE_INSERT_TWO_KEYS
  | BINLOG_STMT_UNSAFE_AUTOINC_NOT_FIRST
  | BINLOG_STMT_UNSAFE_AUTOINC_LOCK_MODE
  | BINLOG_STMT_UNSAFE_SKIP_LOCKED.

#[global] Instance unsafe_eq_dec : EqDecision enum_binlog_stmt_unsafe.
Proof. solve_decision. Defined.

(** The value of an enumerator. *)
Definition unsafe_value (u : enum_binlog_stmt_unsafe) : Z :=
  match u with
  | BINLOG_STMT_UNSAFE_LIMIT => 0
  | BINLOG_STMT_UNSAFE_INSERT_DELAYED => 1
  | BINLOG_STMT_UNSAFE_SYSTEM_TABLE => 2
  | BINLOG_STMT_UNSAFE_AUTOINC_COLUMNS => 3
  | BINLOG_STMT_UNSAFE_UDF => 4
  | BINLOG_STMT_UNSAFE_SYSTEM_VARIABLE => 5
  | BINLOG_STMT_UNSAFE_SYSTEM_FUNCTION => 6
  | BINLOG_STMT_UNSAFE_NONTRANS_AFTER_TRANS => 7
  | BINLOG_STMT_UNSAFE_MULTIPLE_ENGINES_AND_SELF_LOGGING_ENGINE => 8
  | BINLOG_STMT_UNSAFE_MIXED_STATEMENT => 9
  | BINLOG_STMT_UNSAFE_INSERT_IGNORE_SELECT => 10
  | BINLOG_STMT_UNSAFE_INSERT_SELECT_UPDATE => 11
  | BINLOG_STMT_UNSAFE_WRITE_AUTOINC_SELECT => 12
  | BINLOG_STMT_UNSAFE_REPLACE_SELECT => 13
  | BINLOG_STMT_UNSAFE_CREATE_IGNORE_SELECT => 14
  | BINLOG_STMT_UNSAFE_CREATE_REPLACE_SELECT => 15
  | BINLOG_STMT_UNSAFE_CREATE_SELECT_AUTOINC => 16
  | BINLOG_STMT_UNSAFE_UPDATE_IGNORE => 17
  | BINLOG_STMT_UNSAFE_INSERT_TWO_KEYS => 18
  | BINLOG_STMT_UNSAFE_AUTOINC_NOT_FIRST => 19
  | BINLOG_STMT_UNSAFE_AUTOINC_LOCK_MODE => 20
  | BINLOG_STMT_UNSAFE_SKIP_LOCKED => 21
  end.

Definition BINLOG_STMT_UNSAFE_COUNT : Z := 22.
Definition BINLOG_STMT_UNSAFE_ALL_FLAGS : Z := Z.shiftl 1 BINLOG_STMT_UNSAFE_COUNT - 1.
Definition BINLOG_STMT_TYPE_ROW_INJECTION : Z := BINLOG_STMT_UNSAFE_COUNT.

(** The functions work on [binlog_stmt_flags], a uint32. *)
Definition get_stmt_unsafe_flags (flags : Z) : Z := Z.land flags BINLOG_STMT_UNSAFE_ALL_FLAGS.
Definition is_stmt_unsafe (flags : Z) : bool := negb (get_stmt_unsafe_flags flags =? 0).
Definition is_stmt_unsafe_type (flags : Z) (unsafe : enum_binlog_stmt_unsafe) : bool :=
  truth (Z.land flags (Z.shiftl 1 (unsafe_value unsafe))).
Definition set_stmt_unsafe (flags : Z) (unsafe_type : enum_binlog_stmt_unsafe) : Z :=
  Z.lor flags (Z.shiftl 1 (unsafe_value unsafe_type)).
(** The assertion: no other bits. *)
Definition set_stmt_unsafe_flags (flags arg : Z) : option Z :=
  if Z.land arg (wrap 32 (Z.lnot BINLOG_STMT_UNSAFE_ALL_FLAGS)) =? 0 then Some (Z.lor flags arg) else None.
Definition clear_stmt_unsafe (flags : Z) : Z :=
  Z.land flags (wrap 32 (Z.lnot BINLOG_STMT_UNSAFE_ALL_FLAGS)).
Definition is_stmt_row_injection (flags : Z) : bool :=
  truth (Z.land flags (Z.shiftl 1 BINLOG_STMT_TYPE_ROW_INJECTION)).
Definition set_stmt_row_injection (flags : Z) : Z :=
  Z.lor flags (Z.shiftl 1 BINLOG_STMT_TYPE_ROW_INJECTION).

(** ** Kinds of tables accessed *)

Inductive enum_stmt_accessed_table : Type :=
  | STMT_READS_TRANS_TABLE
  | STMT_READS_NON_TRANS_TABLE
  | STMT_READS_TEMP_TRANS_TABLE
  | STMT_READS_TEMP_NON_TRANS_TABLE
  | STMT_WRITES_TRANS_TABLE
  | STMT_WRITES_NON_TRANS_TABLE
  | STMT_WRITES_TEMP_TRANS_TABLE
  | STMT_WRITES_TEMP_NON_TRANS_TABLE.

#[global] Instance accessed_eq_dec : EqDecision enum_stmt_accessed_table.
Proof. solve_decision. Defined.

Definition accessed_value (a : enum_stmt_accessed_table) : Z :=
  match a with
  | STMT_READS_TRANS_TABLE => 0
  | STMT_READS_NON_TRANS_TABLE => 1
  | STMT_READS_TEMP_TRANS_TABLE => 2
  | STMT_READS_TEMP_NON_TRANS_TABLE => 3
  | STMT_WRITES_TRANS_TABLE => 4
  | STMT_WRITES_NON_TRANS_TABLE => 5
  | STMT_WRITES_TEMP_TRANS_TABLE => 6
  | STMT_WRITES_TEMP_NON_TRANS_TABLE => 7
  end.

Definition BINLOG_DIRECT_ON : Z := 0xF0.
Definition BINLOG_DIRECT_OFF : Z := 0xF.
Definition TRX_CACHE_EMPTY : Z := 0x33.
Definition TRX_CACHE_NOT_EMPTY : Z := 0xCC.
Definition IL_LT_REPEATABLE : Z := 0xAA.
Definition IL_GTE_REPEATABLE : Z := 0x55.
Definition ISO_REPEATABLE_READ : Z := 2.

(** The functions work on [stmt_accessed_table_flag], a uint32. *)
Definition set_stmt_accessed_table (flag : Z) (accessed_table : enum_stmt_accessed_table) : Z :=
  Z.lor flag (Z.shiftl 1 (accessed_value accessed_table)).
Definition stmt_accessed_table (flag : Z) (accessed_table : enum_stmt_accessed_table) : bool :=
  negb (Z.land flag (Z.shiftl 1 (accessed_value accessed_table)) =? 0).

Definition stmt_accessed_trans_temp_table (flag : Z) : bool :=
  negb (Z.land flag (Z.lor (Z.shiftl 1 (accessed_value STMT_READS_TEMP_TRANS_TABLE))
                           (Z.shiftl 1 (accessed_value STMT_WRITES_TEMP_TRANS_TABLE))) =? 0).
Definition stmt_writes_to_non_temp_table (flag : Z) : bool :=
  truth (Z.land flag (Z.lor (Z.shiftl 1 (accessed_value STMT_WRITES_TRANS_TABLE))
                            (Z.shiftl 1 (accessed_value STMT_WRITES_NON_TRANS_TABLE)))).
Definition stmt_accessed_non_trans_temp_table (flag : Z) : bool :=
  negb (Z.land flag (Z.lor (Z.shiftl 1 (accessed_value STMT_READS_TEMP_NON_TRANS_TABLE))
                           (Z.shiftl 1 (accessed_value STMT_WRITES_TEMP_NON_TRANS_TABLE))) =? 0).
Definition stmt_accessed_temp_table (flag : Z) : bool :=
  stmt_accessed_non_trans_temp_table flag || stmt_accessed_trans_temp_table flag.

(** [binlog_unsafe_map] is an array of 256 elements that the server fills. *)
Definition is_mixed_stmt_unsafe (binlog_unsafe_map : Z -> Z) (flag : Z)
    (in_multi_stmt_transaction_mode binlog_direct trx_cache_is_not_empty : bool) (tx_isolation : Z) : bool :=
  let unsafe :=
    if in_multi_stmt_transaction_mode then
      let condition :=
        Z.land (Z.land (if binlog_direct then BINLOG_DIRECT_ON else BINLOG_DIRECT_OFF)
                       (if trx_cache_is_not_empty then TRX_CACHE_NOT_EMPTY else TRX_CACHE_EMPTY))
               (if ISO_REPEATABLE_READ <=? tx_isolation then IL_GTE_REPEATABLE else IL_LT_REPEATABLE) in
      truth (Z.land (binlog_unsafe_map flag) condition)
    else false in
  if stmt_accessed_table flag STMT_WRITES_NON_TRANS_TABLE && stmt_accessed_table flag STMT_READS_TRANS_TABLE &&
     (tx_isolation <? ISO_REPEATABLE_READ) then true
  else if stmt_accessed_table flag STMT_WRITES_TEMP_NON_TRANS_TABLE && stmt_accessed_table flag STMT_READS_TRANS_TABLE &&
     (tx_isolation <? ISO_REPEATABLE_READ) then true
  else unsafe.

(** ** Properties of the bit fields *)

(** [None] is the type row injection, which follows the reasons. *)
Definition stmt_bit (k : option enum_binlog_stmt_unsafe) : Z :=
  match k with Some u => unsafe_value u | None => BINLOG_STMT_TYPE_ROW_INJECTION end.

#[global] Instance stmt_bit_numbered : Numbered (option enum_binlog_stmt_unsafe).
Proof. exists stmt_bit; [by intros [[]|]|by intros [[]|] [[]|]]. Defined.

#[global] Instance accessed_numbered : Numbered enum_stmt_accessed_table.
Proof. exists accessed_value; [by intros []|by intros [] []]. Defined.

Inductive flag_cmd : Type :=
  | Unsafe (u : enum_binlog_stmt_unsafe)
  | UnsafeFlags (us : list enum_binlog_stmt_unsafe)   (* the mask of these *)
  | RowInjection
  | Clear.
#[global] Instance flag_cmd_eq_dec : EqDecision flag_cmd.
Proof. solve_decision. Defined.

Definition mask_of (us : list enum_binlog_stmt_unsafe) : Z :=
  foldl (fun z u => Z.lor z (Z.shiftl 1 (unsafe_value u))) 0 us.

Definition do_flag (flags : Z) (c : flag_cmd) : option Z :=
  match c with
  | Unsafe u => Some (set_stmt_unsafe flags u)
  | UnsafeFlags us => set_stmt_unsafe_flags flags (mask_of us)
  | RowInjection => Some (set_stmt_row_injection flags)
  | Clear => Some (clear_stmt_unsafe flags)
  end.

Fixpoint do_flags (flags : Z) (cs : list flag_cmd) : option Z :=
  match cs with [] => Some flags | c :: cs => f ← do_flag flags c; do_flags f cs end.

(** The specification: the reasons given since the last clearing, and whether
    the statement is a row injection. *)
Definition know (s : list (option enum_binlog_stmt_unsafe)) (c : flag_cmd) : list (option enum_binlog_stmt_unsafe) :=
  match c with
  | Unsafe u => s ++ [Some u]
  | UnsafeFlags us => s ++ (Some <$> us)
  | RowInjection => s ++ [None]
  | Clear => filter (fun k => k = None) s
  end.

Lemma mask_of_mask us : mask_of us = flag_mask (Some <$> us).
Proof.
  unfold mask_of, flag_mask. generalize 0 as z. induction us as [|u us IH]; intros z; [done|].
  cbn. rewrite IH. do 2 f_equal. by destruct u.
Qed.

Lemma mask_of_no_type us : Z.land (mask_of us) (wrap 32 (Z.lnot BINLOG_STMT_UNSAFE_ALL_FLAGS)) = 0.
Proof.
  unfold mask_of. assert (Z.land 0 (wrap 32 (Z.lnot BINLOG_STMT_UNSAFE_ALL_FLAGS)) = 0) as H by done.
  revert H. generalize 0 at 1 3 as z. induction us as [|u us IH]; intros z Hz; [done|]. cbn [foldl].
  apply IH. rewrite Z.land_lor_distr_l, Hz. by destruct u.
Qed.

Lemma clear_holds z ks : holds_flags z ks -> holds_flags (clear_stmt_unsafe z) (filter (fun k => k = None) ks).
Proof.
  intros Hz k. unfold clear_stmt_unsafe. rewrite Z.land_spec, (Hz k). destruct k as [u|].
  - rewrite bool_decide_false with (P := Some u ∈ filter _ _) by (rewrite list_elem_of_filter; naive_solver).
    replace (Z.testbit _ (number (Some u))) with false by (by destruct u). apply andb_false_r.
  - replace (Z.testbit _ (number None)) with true by done. rewrite andb_true_r.
    apply bool_decide_ext. rewrite list_elem_of_filter. naive_solver.
Qed.

Lemma do_flag_holds z ks c :
  holds_flags z ks -> exists z', do_flag z c = Some z' /\ holds_flags z' (know ks c).
Proof.
  intros Hz. destruct c as [u|us| |]; cbn.
  - eexists. split; [done|]. unfold set_stmt_unsafe. rewrite Z.shiftl_1_l.
    change (2 ^ unsafe_value u) with (flag (Some u)). by apply holds_flags_add.
  - unfold set_stmt_unsafe_flags. rewrite mask_of_no_type. eexists. split; [done|].
    rewrite mask_of_mask. by apply holds_flags_mask.
  - eexists. split; [done|]. change (set_stmt_row_injection z) with (Z.lor z (flag (None : option enum_binlog_stmt_unsafe))).
    by apply holds_flags_add.
  - eexists. split; [done|]. by apply clear_holds.
Qed.

Lemma do_flags_holds z ks cs :
  holds_flags z ks -> exists z', do_flags z cs = Some z' /\ holds_flags z' (foldl know ks cs).
Proof.
  revert z ks. induction cs as [|c cs IH]; intros z ks Hz; cbn; [by exists z|].
  destruct (do_flag_holds z ks c Hz) as (z1&E&H1). rewrite E. by apply IH.
Qed.

(** Every bit below the count is the one of a reason. *)
Definition reasons : list enum_binlog_stmt_unsafe :=
  [BINLOG_STMT_UNSAFE_LIMIT; BINLOG_STMT_UNSAFE_INSERT_DELAYED; BINLOG_STMT_UNSAFE_SYSTEM_TABLE;
   BINLOG_STMT_UNSAFE_AUTOINC_COLUMNS; BINLOG_STMT_UNSAFE_UDF; BINLOG_STMT_UNSAFE_SYSTEM_VARIABLE;
   BINLOG_STMT_UNSAFE_SYSTEM_FUNCTION; BINLOG_STMT_UNSAFE_NONTRANS_AFTER_TRANS;
   BINLOG_STMT_UNSAFE_MULTIPLE_ENGINES_AND_SELF_LOGGING_ENGINE; BINLOG_STMT_UNSAFE_MIXED_STATEMENT;
   BINLOG_STMT_UNSAFE_INSERT_IGNORE_SELECT; BINLOG_STMT_UNSAFE_INSERT_SELECT_UPDATE;
   BINLOG_STMT_UNSAFE_WRITE_AUTOINC_SELECT; BINLOG_STMT_UNSAFE_REPLACE_SELECT;
   BINLOG_STMT_UNSAFE_CREATE_IGNORE_SELECT; BINLOG_STMT_UNSAFE_CREATE_REPLACE_SELECT;
   BINLOG_STMT_UNSAFE_CREATE_SELECT_AUTOINC; BINLOG_STMT_UNSAFE_UPDATE_IGNORE;
   BINLOG_STMT_UNSAFE_INSERT_TWO_KEYS; BINLOG_STMT_UNSAFE_AUTOINC_NOT_FIRST;
   BINLOG_STMT_UNSAFE_AUTOINC_LOCK_MODE; BINLOG_STMT_UNSAFE_SKIP_LOCKED].

Lemma reason_of_bit i : 0 <= i < 22 -> exists u, unsafe_value u = i.
Proof.
  intros Hi. assert (i ∈ unsafe_value <$> reasons) as H.
  { change (unsafe_value <$> reasons) with (seqZ 0 22). apply elem_of_seqZ. lia. }
  apply list_elem_of_fmap in H as (u&->&_). by exists u.
Qed.

Lemma is_stmt_unsafe_holds z ks :
  holds_flags z ks -> is_stmt_unsafe z = true <-> exists u, Some u ∈ ks.
Proof.
  intros Hz. unfold is_stmt_unsafe, get_stmt_unsafe_flags. rewrite negb_true_iff, Z.eqb_neq.
  change BINLOG_STMT_UNSAFE_ALL_FLAGS with (Z.ones 22). split.
  - intros Hne. destruct (decide (Exists is_Some ks)) as [(k&Hk&u&->)%Exists_exists|Hno]; [by exists u|].
    destruct Hne. bits.
    destruct (Z.ltb_spec i 22); [|by rewrite !andb_false_r].
    destruct (reason_of_bit i) as [u <-]; [lia|].
    rewrite (Hz (Some u) : Z.testbit z (unsafe_value u) = _), bool_decide_false; [done|]. intros Hu. apply Hno, Exists_exists. eauto.
  - intros [u Hu] E. apply (f_equal (fun x => Z.testbit x (number (Some u)))) in E.
    rewrite Z.land_spec, (Hz (Some u)), bool_decide_true in E by done. by destruct u.
Qed.

Lemma know_injection cs : None ∈ foldl know [] cs <-> RowInjection ∈ cs.
Proof.
  assert (forall ks, None ∈ foldl know ks cs <-> None ∈ ks \/ RowInjection ∈ cs) as H.
  { induction cs as [|c cs IH]; intros ks; cbn; [set_solver|]. rewrite IH, elem_of_cons.
    destruct c; cbn; rewrite ?elem_of_app, ?list_elem_of_filter, ?list_elem_of_singleton, ?list_elem_of_fmap;
      naive_solver. }
  rewrite H. set_solver.
Qed.

(** however a statement is flagged (reasons one by one or as a mask, row
    injection, clearing), no assertion fails, the questions about its safety
    are answered by the reasons given since the last clearing, and clearing
    them never touches the row-injection mark, nor the mark them. *)
Theorem unsafe_reasons_remembered cs :
  exists flags, do_flags 0 cs = Some flags /\
    let ks := foldl know [] cs in
    (is_stmt_unsafe flags = true <-> exists u, Some u ∈ ks) /\
    (forall u, is_stmt_unsafe_type flags u = bool_decide (Some u ∈ ks)) /\
    is_stmt_row_injection flags = bool_decide (RowInjection ∈ cs).
Proof.
  destruct (do_flags_holds 0 [] cs holds_flags_nil) as (z&E&Hz). exists z. split; [done|].
  split; [by apply is_stmt_unsafe_holds|]. split.
  - intros u. unfold is_stmt_unsafe_type. rewrite Z.shiftl_1_l.
    apply (holds_flags_test _ _ (Some u) Hz).
  - change (is_stmt_row_injection z) with (truth (Z.land z (flag (None : option enum_binlog_stmt_unsafe)))).
    rewrite (holds_flags_test _ _ None Hz). apply bool_decide_ext. apply know_injection.
Qed.

(** The bit of [binlog_unsafe_map] that a combination of settings tests. *)
Definition setting_bit (binlog_direct trx_cache_is_not_empty : bool) (tx_isolation : Z) : Z :=
  (if binlog_direct then 4 else 0) + (if trx_cache_is_not_empty then 2 else 0) +
  (if tx_isolation <? ISO_REPEATABLE_READ then 1 else 0).

Lemma condition_is_bit direct cache iso :
  Z.land (Z.land (if direct : bool then BINLOG_DIRECT_ON else BINLOG_DIRECT_OFF)
                 (if cache : bool then TRX_CACHE_NOT_EMPTY else TRX_CACHE_EMPTY))
         (if ISO_REPEATABLE_READ <=? iso then IL_GTE_REPEATABLE else IL_LT_REPEATABLE)
  = 2 ^ setting_bit direct cache iso.
Proof.
  unfold setting_bit. rewrite Z.ltb_antisym. by destruct direct, cache, (ISO_REPEATABLE_READ <=? iso).
Qed.

Definition accesses (acs : list enum_stmt_accessed_table) : Z := foldl set_stmt_accessed_table 0 acs.

Lemma accesses_mask acs : accesses acs = flag_mask acs.
Proof.
  unfold accesses, flag_mask. generalize 0 as z. induction acs as [|a acs IH]; intros z; [done|].
  cbn. rewrite IH. unfold set_stmt_accessed_table. by rewrite Z.shiftl_1_l.
Qed.

Lemma accesses_holds acs : holds_flags (accesses acs) acs.
Proof. rewrite accesses_mask. apply (holds_flags_mask 0 []), holds_flags_nil. Qed.

Lemma accesses_range acs : 0 <= accesses acs < 256.
Proof.
  unfold accesses. assert (urange 8 0) as H by done. change 256 with (2 ^ 8). revert H.
  generalize 0 at 1 3 4 as z. induction acs as [|a acs IH]; intros z Hz; [done|]. cbn. apply IH.
  apply urange_lor; [done|done|by destruct a].
Qed.

Lemma stmt_accessed_table_holds acs a :
  stmt_accessed_table (accesses acs) a = bool_decide (a ∈ acs).
Proof.
  unfold stmt_accessed_table. rewrite Z.shiftl_1_l. apply (holds_flags_test _ _ a (accesses_holds acs)).
Qed.

(** a statement that accesses tables of the kinds [acs] is judged by
    is_mixed_stmt_unsafe exactly as follows: below REPEATABLE READ, reading a
    transactional table and writing a non-transactional one, temporary or not,
    is unsafe; otherwise the verdict is, inside a multi-statement transaction
    only, the bit of the map that belongs to this combination of direct
    logging, a filled cache and isolation, no two combinations sharing a bit;
    the map is read within its 256 elements; and the questions about temporary
    and permanent tables are answered by the accesses made. *)
Theorem mixed_statement_verdict map acs multi direct cache iso :
  let flag := accesses acs in
  is_mixed_stmt_unsafe map flag multi direct cache iso =
    ((iso <? ISO_REPEATABLE_READ) && bool_decide (STMT_READS_TRANS_TABLE ∈ acs) &&
     bool_decide (STMT_WRITES_NON_TRANS_TABLE ∈ acs \/ STMT_WRITES_TEMP_NON_TRANS_TABLE ∈ acs)) ||
    (multi && Z.testbit (map flag) (setting_bit direct cache iso)) /\
  0 <= flag < 256 /\ 0 <= setting_bit direct cache iso < 8 /\
  (forall direct' cache' iso', setting_bit direct cache iso = setting_bit direct' cache' iso' <->
     direct = direct' /\ cache = cache' /\ (iso <? ISO_REPEATABLE_READ) = (iso' <? ISO_REPEATABLE_READ)) /\
  stmt_accessed_temp_table flag =
    bool_decide ((STMT_READS_TEMP_NON_TRANS_TABLE ∈ acs \/ STMT_WRITES_TEMP_NON_TRANS_TABLE ∈ acs) \/
                 (STMT_READS_TEMP_TRANS_TABLE ∈ acs \/ STMT_WRITES_TEMP_TRANS_TABLE ∈ acs)) /\
  stmt_writes_to_non_temp_table flag =
    bool_decide (STMT_WRITES_TRANS_TABLE ∈ acs \/ STMT_WRITES_NON_TRANS_TABLE ∈ acs).
Proof.
  cbv zeta. split.
  - unfold is_mixed_stmt_unsafe. rewrite condition_is_bit, !stmt_accessed_table_holds.
    rewrite truth_land_pow2 by (unfold setting_bit; destruct direct, cache, (iso <? _); lia).
    destruct multi, (iso <? ISO_REPEATABLE_READ); repeat case_bool_decide; cbn; naive_solver.
  - split; [apply accesses_range|].
    split; [unfold setting_bit; destruct direct, cache, (iso <? _); lia|]. split.
    + intros d c i. unfold setting_bit.
      destruct direct, cache, (iso <? _), d, c, (i <? _); split; try naive_solver; lia.
    + pose proof (accesses_holds acs) as Hf. split.
      * unfold stmt_accessed_temp_table.
        rewrite (holds_flags_test2 _ _ STMT_READS_TEMP_NON_TRANS_TABLE STMT_WRITES_TEMP_NON_TRANS_TABLE Hf :
          stmt_accessed_non_trans_temp_table (accesses acs) = _).
        rewrite (holds_flags_test2 _ _ STMT_READS_TEMP_TRANS_TABLE STMT_WRITES_TEMP_TRANS_TABLE Hf :
          stmt_accessed_trans_temp_table (accesses acs) = _).
        repeat case_bool_decide; naive_solver.
      * apply (holds_flags_test2 _ _ STMT_WRITES_TRANS_TABLE STMT_WRITES_NON_TRANS_TABLE Hf).
Qed.

(** ** Properties of the list *)

Inductive cmd : Type := AddTable (t : N) | Prelock | Chop.

(** Prelocking marks the current end of the list. *)
Definition exec (q : tables) (c : cmd) : tables :=
  match c with
  | AddTable t => add_to_query_tables q t
  | Prelock => mark_as_requiring_prelocking q (Some (query_tables_last q))
  | Chop => chop_off_not_own_tables q
  end.

(** The specification: the statement's own tables, and those added for
    prelocking, if it requires it. *)
Definition spec (s : list N * option (list N)) (c : cmd) : list N * option (list N) :=
  let (own, extra) := s in
  match c, extra with
  | AddTable t, None => (own ++ [t], None)
  | AddTable t, Some ts => (own, Some (ts ++ [t]))
  | Prelock, None => (own, Some [])
  | Prelock, Some ts => (own ++ ts, Some [])
  | Chop, _ => (own, None)
  end.

Definition all_tables (s : list N * option (list N)) : list N := fst s ++ default [] (snd s).

(** Each table knows the cell that points to it. *)
Fixpoint backs (prev : N -> slot) (c : slot) (ts : list N) : Prop :=
  match ts with [] => True | t :: ts => prev t = c /\ backs prev (SNext t) ts end.

Record rel (q : tables) (s : list N * option (list N)) : Prop := {
  rel_linked : linked (fun c => Some (cell q c)) (SFirst 0) (all_tables s) NULL;
  rel_backs : backs (prev_global q) (SFirst 0) (all_tables s);
  rel_last : query_tables_last q = end_slot (SFirst 0) (all_tables s);
  rel_own : query_tables_own_last q =
              match snd s with Some _ => Some (end_slot (SFirst 0) (fst s)) | None => None end;
  rel_nodup : NoDup (all_tables s);
  rel_nonnull : NULL ∉ all_tables s
}.

Lemma backs_ext prev prev' c ts :
  (forall t, t ∈ ts -> prev' t = prev t) -> backs prev c ts -> backs prev' c ts.
Proof.
  revert c. induction ts as [|t ts IH]; intros c H; cbn; [done|].
  intros [<- Hb]. split; [apply H; set_solver|]. apply IH; [set_solver|done].
Qed.

Lemma backs_snoc prev c ts t : backs prev c (ts ++ [t]) <-> backs prev c ts /\ prev t = end_slot c ts.
Proof. revert c. induction ts as [|x ts IH]; intros c; cbn; [naive_solver|]. rewrite IH. naive_solver. Qed.

Lemma backs_app prev c ts1 ts2 : backs prev c (ts1 ++ ts2) -> backs prev c ts1.
Proof. revert c. induction ts1 as [|x ts IH]; intros c; cbn; [done|]. naive_solver. Qed.

(** Writing the last cell of the list. *)
Lemma linked_last ld s ns q q' :
  NoDup (cells s ns) -> linked (fun c => Some (ld c)) s ns q ->
  linked (fun c => Some (fupd ld (end_slot s ns) q' c)) s ns q'.
Proof.
  intros Hnd. apply linked_redirect; [done|]. intros c _. unfold fupd. by case_decide.
Qed.

Lemma all_tables_add s t : all_tables (spec s (AddTable t)) = all_tables s ++ [t].
Proof.
  destruct s as [own [ts|]]; unfold all_tables; cbn; rewrite ?app_nil_r, <- ?app_assoc; done.
Qed.

Lemma add_rel q s t :
  rel q s -> t <> NULL -> t ∉ all_tables s -> cell q (SNext t) = NULL ->
  rel (add_to_query_tables q t) (spec s (AddTable t)).
Proof.
  intros [H1 H2 H3 H4 H5 H6] Ht Hfresh Hnext.
  assert (end_slot (SFirst 0) (all_tables s) <> SNext t) as Hne by (intros E; by apply end_slot_is_next in E).
  split; rewrite ?all_tables_add; cbn [cell prev_global query_tables_last query_tables_own_last add_to_query_tables].
  - apply linked_snoc. rewrite H3. split; [apply (linked_last _ _ _ NULL); [by apply cells_NoDup|done]|].
    rewrite fupd_ne by done. by rewrite Hnext.
  - apply backs_snoc. split; [|by rewrite fupd_eq].
    eapply backs_ext; [|exact H2]. intros x Hx. apply fupd_ne. set_solver.
  - by rewrite end_slot_snoc.
  - rewrite H4. by destruct s as [own [ts|]].
  - apply NoDup_app. split; [done|]. split; [set_solver|apply NoDup_singleton].
  - set_solver.
Qed.

Lemma prelock_rel q s : rel q s -> rel (exec q Prelock) (spec s Prelock).
Proof.
  intros [H1 H2 H3 H4 H5 H6]. assert (all_tables (spec s Prelock) = all_tables s) as E
    by (destruct s as [own [ts|]]; unfold all_tables; cbn; by rewrite ?app_nil_r).
  split; rewrite ?E; cbn; try done. rewrite H3.
  destruct s as [own [ts|]]; unfold all_tables; cbn; by rewrite ?app_nil_r.
Qed.

Lemma chop_rel q s : rel q s -> rel (exec q Chop) (spec s Chop).
Proof.
  intros [H1 H2 H3 H4 H5 H6]. destruct s as [own [ts|]]; unfold all_tables in *; cbn in *.
  - unfold chop_off_not_own_tables. rewrite H4. cbn.
    apply NoDup_app in H5 as (Hnd&_&_).
    assert (exists p, linked (fun c => Some (cell q c)) (SFirst 0) own p) as [p Hp].
    { destruct ts as [|t ts]; [rewrite app_nil_r in H1; by exists NULL|]. apply linked_app in H1 as [H1 _]. by exists t. }
    split; unfold all_tables; cbn; rewrite ?app_nil_r; try done.
    + apply (linked_last _ _ _ p); [by apply cells_NoDup|done].
    + by eapply backs_app.
    + set_solver.
  - unfold chop_off_not_own_tables. rewrite H4. split; unfold all_tables; cbn; done.
Qed.

Definition added (cs : list cmd) : list N :=
  omap (fun c => match c with AddTable t => Some t | _ => None end) cs.

(** The tables not yet used have no successor. *)
Definition unused_ok (q : tables) (s : list N * option (list N)) (used : list N) : Prop :=
  (forall t, t ∉ used -> cell q (SNext t) = NULL) /\ (forall t, t ∈ all_tables s -> t ∈ used).

Lemma qt_exec_rel q s used c :
  rel q s -> unused_ok q s used ->
  (forall t, c = AddTable t -> t <> NULL /\ t ∉ used) ->
  rel (exec q c) (spec s c) /\ unused_ok (exec q c) (spec s c) (used ++ added [c]).
Proof.
  intros Hr [Hu1 Hu2] Hc. destruct c as [t| |].
  - destruct (Hc t eq_refl) as [Ht Hn]. split; [apply add_rel; [done|done|naive_solver|by apply Hu1]|].
    split; cbn; [|rewrite all_tables_add; set_solver]. intros x Hx. rewrite fupd_ne; [apply Hu1; set_solver|].
    rewrite (rel_last _ _ Hr). intros E. apply end_slot_is_next in E. set_solver.
  - split; [by apply prelock_rel|]. split; cbn; rewrite app_nil_r; [done|].
    destruct s as [own [ts|]]; unfold all_tables in *; cbn in *; rewrite ?app_nil_r in *; done.
  - split; [by apply chop_rel|]. split; cbn; rewrite app_nil_r.
    + intros x Hx. unfold chop_off_not_own_tables. rewrite (rel_own _ _ Hr).
      destruct s as [own [ts|]]; cbn; [|by apply Hu1]. rewrite fupd_ne; [by apply Hu1|].
      intros E. apply end_slot_is_next in E. apply Hx, Hu2. unfold all_tables. set_solver.
    + destruct s as [own [ts|]]; unfold all_tables in *; cbn in *; set_solver.
Qed.

Lemma qt_run_rel q s used cs :
  rel q s -> unused_ok q s used -> NoDup (used ++ added cs) -> NULL ∉ added cs ->
  rel (foldl exec q cs) (foldl spec s cs).
Proof.
  revert q s used. induction cs as [|c cs IH]; intros q s used Hr Hu Hnd Hn; [done|]. cbn [foldl].
  assert (added (c :: cs) = added [c] ++ added cs) as E by (by destruct c).
  rewrite E in Hnd, Hn. destruct (qt_exec_rel q s used c Hr Hu) as [Hr' Hu'].
  - intros t ->. rewrite NoDup_app in Hnd. cbn in *. split; [set_solver|]. intros Ht.
    destruct Hnd as (_&Hd&_). apply (Hd t Ht). by left.
  - eapply IH; [done|done|by rewrite <- app_assoc|set_solver].
Qed.

Lemma last_table_rel q s : rel q s -> last_table q = Some (default NULL (last (all_tables s))).
Proof.
  intros [H1 H2 H3 H4 H5 H6]. unfold last_table, query_tables. rewrite H3.
  destruct (all_tables s) as [|t ts _] using rev_ind; cbn in *.
  - injection H1 as ->. done.
  - rewrite last_snoc, end_slot_snoc. apply linked_head in H1. injection H1 as ->.
    destruct (N.eqb_spec (from_option id NULL (head (ts ++ [t]))) NULL) as [E|]; [|done].
    destruct H6. destruct ts; cbn in *; set_solver.
Qed.

Lemma first_not_own_rel q s :
  rel q s -> first_not_own_table q = from_option id NULL (head (default [] (snd s))).
Proof.
  intros [H1 H2 H3 H4 H5 H6]. unfold first_not_own_table. rewrite H4.
  destruct s as [own [[|t ts]|]]; unfold all_tables in *; cbn in *; [| |done].
  - rewrite app_nil_r in H1. apply linked_end in H1. congruence.
  - apply linked_app in H1 as [H1 _]. apply linked_end in H1. congruence.
Qed.

(** An object after [reset_query_tables_list], with unlinked tables. *)
Definition empty_tables (prev : N -> slot) : tables := mk_tables (fun _ => NULL) prev (SFirst 0) None.

Lemma empty_rel prev : rel (empty_tables prev) ([], None).
Proof. split; cbn; try done; [constructor|set_solver]. Qed.

(** C16: adding tables to a statement, marking it as requiring prelocking and
    chopping off the tables that are not its own keep one list of its own tables
    followed by those added for prelocking: following the pointers visits
    exactly these in order, each table points back to the cell that leads to
    it, the first table that is not the statement's own and the last table are
    found in constant time, and chopping restores the list of own tables. *)
Theorem query_tables_refine prev cs :
  NoDup (added cs) -> NULL ∉ added cs ->
  let q := foldl exec (empty_tables prev) cs in
  let s := foldl spec ([], None) cs in
  rel q s /\
  requires_prelocking q = bool_decide (is_Some (snd s)) /\
  first_not_own_table q = from_option id NULL (head (default [] (snd s))) /\
  last_table q = Some (default NULL (last (all_tables s))).
Proof.
  intros Hnd Hn. cbv zeta.
  assert (rel (foldl exec (empty_tables prev) cs) (foldl spec ([], None) cs)) as Hr.
  { apply (qt_run_rel _ _ []); [apply empty_rel|split; cbn; [done|set_solver]|done|done]. }
  split; [done|]. split; [|split; [by apply first_not_own_rel|by apply last_table_rel]].
  unfold requires_prelocking. rewrite (rel_own _ _ Hr). apply bool_decide_ext.
  destruct (snd _); split; intros H; [by eexists|by eexists|by destruct H|by destruct H].
Qed.

Definition demo : list cmd := [AddTable 5; AddTable 6; Prelock; AddTable 7; AddTable 8].

Lemma query_tables_refine_witness :
  first_not_own_table (foldl exec (empty_tables SNext) demo) = 7%N /\
  last_table (foldl exec (empty_tables SNext) demo) = Some 8%N /\
  last_table (foldl exec (empty_tables SNext) (demo ++ [Chop])) = Some 6%N.
Proof.
  assert (NoDup (added demo)) as H1 by (apply (bool_decide_unpack _); vm_compute; exact I).
  assert (NULL ∉ added demo) as H2 by (apply (bool_decide_unpack _); vm_compute; exact I).
  destruct (query_tables_refine SNext demo H1 H2) as (_&_&F&L).
  destruct (query_tables_refine SNext (demo ++ [Chop]) H1 H2) as (_&_&_&L').
  split; [exact F|]. split; [exact L|exact L'].
Defined.
End QueryTables.
