(* ===== verification/InList.v ===== *)
(** * IN lists and simple CASE (private/item_cmpfunc.h)

    [Predicant_to_list_comparator] compares one expression, the predicant, with
    a list of values; the pairs may need different data type handlers, and all
    pairs of one handler share one [cmp_item], which caches the predicant when
    the leftmost of them is compared.  Module [CmpItem] has the [cmp_item]
    classes whose methods have a body in the header, behind the interface
    [Cmp_item]; module [InList] has the list comparator over any instance of it
    and [Item_func_in] and [Item_func_case] as far as the header defines them.

    An [Item] is what its evaluation methods give in the current row: the value
    and the [null_value] they leave.  A failed [DBUG_ASSERT] and an access
    outside an array have no result. *)

From Stdlib Require Import ZArith Lia SpecFloat.
From S2P Require Import Prelude CDouble.
From stdpp Require Import prelude list.
Local Open Scope Z_scope.

Module CmpItem.

(** The results of a comparison "stored value <> item's value". *)
Inductive tri := TRUE | FALSE | UNKNOWN.

#[export] Instance tri_eq_dec : EqDecision tri.
Proof. solve_decision. Defined.

Definition of_bool (b : bool) : tri := if b then TRUE else FALSE.

(** [val_str(&buffer)] returns a string or the null pointer; the flag tells
    whether the string is [buffer] itself. *)
Record Item := mk_Item {
  val_int : Z * bool;
  val_real : double * bool;
  val_str : option (list Z * bool) * bool;
  val_datetime_packed : Z * bool;
  val_time_packed : Z * bool
}.

(** What [Type_handler::Item_save_in_value] leaves of a value that is not null. *)
Inductive Value := V_longlong (v : Z) | V_double (v : double) | V_string (s : list Z).

(** What the owners of a [cmp_item] rely on.  [forget] is the object without the
    value it stores; [cmp] and [store_value] also give the [null_value] their
    argument is left with. *)
Class Cmp_item (C : Type) := {
  store_value : C -> Item -> C * bool;
  cmp : C -> Item -> tri * bool;
  cmp_not_null : C -> Value -> option tri;
  forget : C -> C;
  store_forgets c a : store_value (forget c) a = store_value c a;
  forget_store c a : forget (store_value c a).1 = forget c
}.

(** ** cmp_item_int *)

Record cmp_item_int := mk_int { int_value : Z; int_null : bool }.

Definition int_store_value (c : cmp_item_int) (item : Item) : cmp_item_int * bool :=
  let '(v, n) := val_int item in (mk_int v n, n).

Definition int_cmp (c : cmp_item_int) (arg : Item) : tri * bool :=
  let '(v, n) := val_int arg in
  let rc := negb (int_value c =? v) in
  (if int_null c || n then UNKNOWN else of_bool rc, n).

Definition int_cmp_not_null (c : cmp_item_int) (val : Value) : option tri :=
  match val with V_longlong v => Some (of_bool (negb (int_value c =? v))) | _ => None end.

Definition int_compare (c l_cmp : cmp_item_int) : Z :=
  if int_value c <? int_value l_cmp then -1 else if int_value c =? int_value l_cmp then 0 else 1.

#[export] Program Instance int_item : Cmp_item cmp_item_int := {|
  store_value := int_store_value; cmp := int_cmp; cmp_not_null := int_cmp_not_null;
  forget _ := mk_int 0 false |}.
Next Obligation. intros. unfold int_store_value. by destruct (val_int a). Qed.
Next Obligation. done. Qed.

(** ** cmp_item_real *)

Record cmp_item_real := mk_real { real_value : double; real_null : bool }.

Definition real_store_value (c : cmp_item_real) (item : Item) : cmp_item_real * bool :=
  let '(v, n) := val_real item in (mk_real v n, n).

Definition real_cmp (c : cmp_item_real) (arg : Item) : tri * bool :=
  let '(v, n) := val_real arg in
  let rc := negb (deq (real_value c) v) in
  (if real_null c || n then UNKNOWN else of_bool rc, n).

Definition real_cmp_not_null (c : cmp_item_real) (val : Value) : option tri :=
  match val with V_double v => Some (of_bool (negb (deq (real_value c) v))) | _ => None end.

Definition real_compare (c l_cmp : cmp_item_real) : Z :=
  if dlt (real_value c) (real_value l_cmp) then -1
  else if deq (real_value c) (real_value l_cmp) then 0 else 1.

#[export] Program Instance real_item : Cmp_item cmp_item_real := {|
  store_value := real_store_value; cmp := real_cmp; cmp_not_null := real_cmp_not_null;
  forget _ := mk_real (of_int 0) false |}.
Next Obligation. intros. unfold real_store_value. by destruct (val_real a). Qed.
Next Obligation. done. Qed.

(** ** cmp_item_sort_string and cmp_item_sort_string_in_static *)

(** [cmp_charset] is the comparison [sortcmp] makes with the collation. *)
Record cmp_item_string := mk_string {
  cmp_charset : list Z -> list Z -> Z;
  value_res : option (list Z);
  string_null : bool
}.

(** Whether [String::copy] finds no memory for a string. *)
Class Memory := copy_fails : list Z -> bool.

Definition string_store_value `{Memory} (c : cmp_item_string) (item : Item) : cmp_item_string * bool :=
  let '(res, n) := val_str item in
  let value := match res with
               | None => None
               | Some (s, in_value) =>
                   Some (if in_value then s else if copy_fails s then [] else s)
               end in
  (mk_string (cmp_charset c) value n, n).

Definition string_cmp (c : cmp_item_string) (arg : Item) : tri * bool :=
  let '(res, n) := val_str arg in
  (if string_null c || n then UNKNOWN
   else match value_res c, res with
        | Some v, Some (s, _) => of_bool (negb (cmp_charset c v s =? 0))
        | None, None => FALSE
        | _, _ => TRUE
        end, n).

Definition string_cmp_not_null (c : cmp_item_string) (val : Value) : option tri :=
  match val, value_res c with
  | V_string s, Some v => Some (of_bool (negb (cmp_charset c v s =? 0)))
  | _, _ => None
  end.

Definition string_compare (c l_cmp : cmp_item_string) : option Z :=
  v ← value_res c; w ← value_res l_cmp; Some (cmp_charset c v w).

Definition static_store_value (c : cmp_item_string) (item : Item) : cmp_item_string :=
  let '(res, n) := val_str item in mk_string (cmp_charset c) (fst <$> res) n.

Definition static_make_same (c : cmp_item_string) : cmp_item_string :=
  mk_string (cmp_charset c) None false.

#[export] Program Instance string_item `{Memory} : Cmp_item cmp_item_string := {|
  store_value := string_store_value; cmp := string_cmp; cmp_not_null := string_cmp_not_null;
  forget c := mk_string (cmp_charset c) None false |}.
Next Obligation. intros. unfold string_store_value. by destruct (val_str a) as [[[]|] ?]. Qed.
Next Obligation. intros. unfold string_store_value. by destruct (val_str a) as [[[]|] ?]. Qed.

(** ** cmp_item_datetime and cmp_item_time

    Their [cmp] and [cmp_not_null] are only declared in the header: they are
    parameters, functions of the stored value and the argument. *)

Record cmp_item_temporal := mk_temporal { time_value : Z; time_null : bool }.

Definition datetime_store_value (c : cmp_item_temporal) (item : Item) : cmp_item_temporal * bool :=
  let '(v, n) := val_datetime_packed item in (mk_temporal v n, n).

Definition time_store_value (c : cmp_item_temporal) (item : Item) : cmp_item_temporal * bool :=
  let '(v, n) := val_time_packed item in (mk_temporal v n, n).

Program Definition temporal_item (is_time : bool)
    (t_cmp : cmp_item_temporal -> Item -> tri * bool)
    (t_cmp_not_null : cmp_item_temporal -> Value -> option tri) : Cmp_item cmp_item_temporal := {|
  store_value := if is_time then time_store_value else datetime_store_value;
  cmp := t_cmp; cmp_not_null := t_cmp_not_null;
  forget _ := mk_temporal 0 false |}.
Next Obligation.
  intros [] ** ; [unfold time_store_value; by destruct (val_time_packed a)
                 |unfold datetime_store_value; by destruct (val_datetime_packed a)].
Qed.
Next Obligation. done. Qed.

(** ** Dispatch over two classes *)

Section dispatch.
Context {A B : Type} `{Cmp_item A, Cmp_item B}.

Definition sum_store_value (c : A + B) (item : Item) : (A + B) * bool :=
  match c with
  | inl x => let '(x, n) := store_value x item in (inl x, n)
  | inr x => let '(x, n) := store_value x item in (inr x, n)
  end.

Definition sum_cmp (c : A + B) (arg : Item) : tri * bool :=
  match c with inl x => cmp x arg | inr x => cmp x arg end.

Definition sum_cmp_not_null (c : A + B) (val : Value) : option tri :=
  match c with inl x => cmp_not_null x val | inr x => cmp_not_null x val end.

Definition sum_forget (c : A + B) : A + B :=
  match c with inl x => inl (forget x) | inr x => inr (forget x) end.

#[export] Program Instance sum_item : Cmp_item (A + B) := {|
  store_value := sum_store_value; cmp := sum_cmp; cmp_not_null := sum_cmp_not_null;
  forget := sum_forget |}.
Next Obligation. intros [x|x] a; simpl; by rewrite (store_forgets x). Qed.
Next Obligation.
  intros [x|x] a; pose proof (forget_store x a) as E; simpl;
    destruct (store_value x a); exact (f_equal _ E).
Qed.

End dispatch.

(** Whether a predicant differs from a value in the sense of a [cmp_item]. *)
Definition differs {C} `{Cmp_item C} (c : C) (pred arg : Item) : tri :=
  (cmp (store_value c pred).1 arg).1.

Lemma differs_forget {C} `{Cmp_item C} (c : C) pred arg : differs (forget c) pred arg = differs c pred arg.
Proof. unfold differs. by rewrite store_forgets. Qed.

(** Integers compare as SQL compares them: unknown as soon as one is null. *)
Lemma differs_int (c : cmp_item_int) a b :
  differs c a b = if (val_int a).2 || (val_int b).2 then UNKNOWN
                  else of_bool (negb ((val_int a).1 =? (val_int b).1)).
Proof.
  unfold differs; cbn. unfold int_store_value, int_cmp.
  by destruct (val_int a), (val_int b).
Qed.

(** Strings do as well, while there is memory to cache the predicant and a
    string is missing only where it is null. *)
Lemma differs_string `{Memory} (c : cmp_item_string) a b va ba vb bb :
  val_str a = (Some (va, ba), false) -> val_str b = (Some (vb, bb), false) -> copy_fails va = false ->
  differs c a b = of_bool (negb (cmp_charset c va vb =? 0)).
Proof.
  intros Ea Eb Hm. unfold differs; cbn. unfold string_store_value, string_cmp.
  rewrite Ea, Eb; cbn. rewrite Hm. by destruct ba.
Qed.

(** A null string differs from nothing for certain. *)
Lemma differs_null_string `{Memory} (c : cmp_item_string) a b :
  (val_str a).2 = true \/ (val_str b).2 = true -> differs c a b = UNKNOWN.
Proof.
  unfold differs; cbn. unfold string_store_value, string_cmp.
  destruct (val_str a) as [ra na], (val_str b) as [rb nb]; cbn.
  intros [-> | ->]; [done|by rewrite orb_true_r].
Qed.

End CmpItem.

Module InList.
Import CmpItem.

(** ** The list comparator

    [H] are the data type handlers, [row] is [type_handler_row]; null pointers
    are [None]. *)

Record Predicant_to_value_comparator (H C : Type) := mk_pair {
  m_handler : option H;
  m_cmp_item : option C;
  m_arg_index : nat;
  m_handler_index : nat
}.
Arguments mk_pair {H C} _ _ _ _.
Arguments m_handler {H C} _.
Arguments m_cmp_item {H C} _.
Arguments m_arg_index {H C} _.
Arguments m_handler_index {H C} _.

Record Predicant_to_list_comparator (H C : Type) := mk_list {
  m_comparators : option (list (Predicant_to_value_comparator H C));
  m_comparator_count : nat;
  m_predicant_index : nat
}.
Arguments mk_list {H C} _ _ _.
Arguments m_comparators {H C} _.
Arguments m_comparator_count {H C} _.
Arguments m_predicant_index {H C} _.

Section comparator.
Context {H C : Type} `{EqDecision H, Cmp_item C} (row : H).
Notation pair := (Predicant_to_value_comparator H C).
Notation comparator := (Predicant_to_list_comparator H C).

Definition pair_zero : pair := mk_pair None None 0 0.

(** The inner [None] is the return value true: not found. *)
Fixpoint find_handler_from (i n : nat) (cs : list pair) (h : H) : option (option nat) :=
  match n with
  | O => Some None
  | S n => c ← cs !! i;
           if bool_decide (m_handler c = Some h) then Some (Some i)
           else find_handler_from (S i) n cs h
  end.

Definition find_handler (p : comparator) (h : H) (count : nat) : option (option nat) :=
  if Nat.ltb count (m_comparator_count p) then
    cs ← m_comparators p; find_handler_from 0 count cs h
  else None.

(** [in_item->store_value(predicant)] of the object of element [i]. *)
Definition store_at (p : comparator) (i : nat) (c : C) : comparator :=
  mk_list (alter (λ e, mk_pair (m_handler e) (Some c) (m_arg_index e) (m_handler_index e)) i
             <$> m_comparators p)
          (m_comparator_count p) (m_predicant_index p).

(** The start both comparisons share: the [cmp_item] of pair [i], with the
    predicant cached when the pair is the leftmost of its handler.  [nv] holds
    the [null_value] of every argument. *)
Definition cached_item (args : list Item) (nv : list bool) (p : comparator) (i : nat)
  : option (list bool * comparator * C * pair) :=
  cs ← m_comparators p;
  ci ← cs !! i;
  cmp ← cs !! m_handler_index ci;
  in_item ← m_cmp_item cmp;
  predicant ← args !! m_predicant_index p;
  if Nat.eqb (m_handler_index ci) i then
    let '(c, n) := store_value in_item predicant in
    Some (<[m_predicant_index p := n]> nv, store_at p i c, c, ci)
  else Some (nv, p, in_item, ci).

Definition cmp_arg (args : list Item) (nv : list bool) (p : comparator) (i : nat)
  : option (list bool * comparator * tri) :=
  '(nv, p, in_item, ci) ← cached_item args nv p i;
  pn ← nv !! m_predicant_index p;
  if pn && negb (bool_decide (m_handler ci = Some row)) then Some (nv, p, UNKNOWN)
  else
    arg ← args !! m_arg_index ci;
    let '(rc, n) := cmp in_item arg in
    Some (<[m_arg_index ci := n]> nv, p, rc).

(** [Item_save_in_value] of a handler is implemented elsewhere: the value it
    saves, [None] for null, and the [null_value] it leaves. *)
Context (Item_save_in_value : H -> Item -> option Value * bool).

Definition cmp_args_nulls_equal (args : list Item) (nv : list bool) (p : comparator) (i : nat)
  : option (list bool * comparator * tri) :=
  '(nv, p, in_item, ci) ← cached_item args nv p i;
  arg ← args !! m_arg_index ci;
  h ← m_handler ci;
  let '(val, n) := Item_save_in_value h arg in
  let nv := <[m_arg_index ci := n]> nv in
  pn ← nv !! m_predicant_index p;
  match pn, val with
  | true, None => Some (nv, p, FALSE)
  | true, Some _ | false, None => Some (nv, p, UNKNOWN)
  | false, Some v => rc ← cmp_not_null in_item v; Some (nv, p, rc)
  end.

Definition get_comparator_type_handler (p : comparator) (i : nat) : option (option H) :=
  if Nat.ltb i (m_comparator_count p) then cs ← m_comparators p; m_handler <$> cs !! i else None.
Definition get_comparator_arg_index (p : comparator) (i : nat) : option nat :=
  if Nat.ltb i (m_comparator_count p) then cs ← m_comparators p; m_arg_index <$> cs !! i else None.
Definition get_comparator_cmp_item (p : comparator) (i : nat) : option (option C) :=
  if Nat.ltb i (m_comparator_count p) then cs ← m_comparators p; m_cmp_item <$> cs !! i else None.

(** What a search leaves: the flags, the comparator, [*idx],
    [*found_unknown_values] where the pointer is not null, and the result. *)
Notation answer := (list bool * comparator * nat * option bool * bool)%type.

Fixpoint cmp_from (n i : nat) (args : list Item) (nv : list bool) (p : comparator)
    (idx : nat) (found_unknown_values : option bool) : option answer :=
  match n with
  | O => Some (nv, p, idx, found_unknown_values, true)
  | S n =>
      h ← get_comparator_type_handler p i;   (* DBUG_ASSERT(m_handler != NULL) *)
      _ ← h;
      '(nv, p, rc) ← cmp_arg args nv p i;
      match rc with
      | FALSE => cs ← m_comparators p; ci ← cs !! i;
                 Some (nv, p, m_arg_index ci, found_unknown_values, false)
      | UNKNOWN => match found_unknown_values with
                   | None => Some (nv, p, idx, None, true)
                   | Some _ => cmp_from n (S i) args nv p idx (Some true)
                   end
      | TRUE => cmp_from n (S i) args nv p idx found_unknown_values
      end
  end.

Definition cmp_list (args : list Item) (nv : list bool) (p : comparator) (idx : nat)
    (found_unknown_values : option bool) : option answer :=
  cmp_from (m_comparator_count p) 0 args nv p idx found_unknown_values.

Fixpoint cmp_nulls_equal_from (n i : nat) (args : list Item) (nv : list bool) (p : comparator)
    (idx : nat) : option answer :=
  match n with
  | O => Some (nv, p, idx, None, true)
  | S n =>
      h ← get_comparator_type_handler p i;
      _ ← h;
      '(nv, p, rc) ← cmp_args_nulls_equal args nv p i;
      match rc with
      | FALSE => cs ← m_comparators p; ci ← cs !! i; Some (nv, p, m_arg_index ci, None, false)
      | _ => cmp_nulls_equal_from n (S i) args nv p idx
      end
  end.

Definition cmp_nulls_equal (args : list Item) (nv : list bool) (p : comparator) (idx : nat) : option answer :=
  cmp_nulls_equal_from (m_comparator_count p) 0 args nv p idx.

Definition add_predicant (arg_count : nat) (p : comparator) (predicant_index : nat) : option comparator :=
  if Nat.eqb (m_comparator_count p) 0 && Nat.eqb (m_predicant_index p) 0
     && Nat.ltb predicant_index arg_count
  then Some (mk_list (m_comparators p) (m_comparator_count p) predicant_index) else None.

(** [cleanup] gives the objects it deletes. *)
Definition pair_cleanup (c : pair) : pair * list C := (pair_zero, option_list (m_cmp_item c)).

Definition cleanup (p : comparator) : option (comparator * list C) :=
  cs ← m_comparators p;
  let n := m_comparator_count p in
  if Nat.leb n (length cs) then
    let done := pair_cleanup <$> take n cs in
    Some (mk_list (Some (replicate n pair_zero ++ drop n cs)) 0 0, concat (snd <$> done))
  else None.

(** The constructor and [init_clone]; [alloc] is what [alloc_comparators], which
    the header only declares, makes of [m_comparators] and returns. *)
Definition new_comparator (alloc : nat -> option (list pair) * bool) (nvalues : nat) : comparator :=
  mk_list (alloc nvalues).1 0 0.
Definition init_clone (alloc : nat -> option (list pair) * bool) (nvalues : nat) : comparator * bool :=
  (mk_list (alloc nvalues).1 0 0, (alloc nvalues).2).

End comparator.

(** ** Item_func_case and Item_func_in *)

Definition searched_when_count (arg_count : nat) : nat := arg_count / 2.
Definition searched_with_else (arg_count : nat) : bool := negb (Nat.eqb (arg_count mod 2) 0).
Definition searched_else_expr_addr (arg_count : nat) : option nat :=
  if searched_with_else arg_count then Some (arg_count - 1)%nat else None.

Definition simple_when_count (arg_count : nat) : nat := (arg_count - 1) / 2.
Definition simple_with_else (arg_count : nat) : bool := Nat.eqb (arg_count mod 2) 0.
Definition simple_else_expr_addr (arg_count : nat) : option nat :=
  if simple_with_else arg_count then Some (arg_count - 1)%nat else None.

(** [args] gives [can_eval_in_optimize] of every argument. *)
Definition all_items_are_consts (items : list bool) : bool := forallb id items.

Definition compatible_types_scalar_bisection_possible (row_result : bool) (args : list bool) : option bool :=
  if row_result then None else Some (all_items_are_consts (drop 1 args)).

Definition compatible_types_row_bisection_possible (row_result : bool) (args : list bool)
    (is_top_level_item negated list_contains_null maybe_null0 : bool) : option bool :=
  if row_result then
    Some (all_items_are_consts (drop 1 args)
          && ((is_top_level_item && negb negated) || (negb list_contains_null && negb maybe_null0)))
  else None.

Definition neg_transformer (negated : bool) : bool := negb negated.
(** ** Specification *)

Definition tnot (t : tri) : tri := match t with TRUE => FALSE | FALSE => TRUE | UNKNOWN => UNKNOWN end.

(** The disjunction of three-valued logic. *)
Definition tor (a b : tri) : tri :=
  match a, b with
  | TRUE, _ | _, TRUE => TRUE
  | FALSE, FALSE => FALSE
  | _, _ => UNKNOWN
  end.

Section spec.
Context {H C : Type} `{EqDecision H, Cmp_item C} (row : H).
Notation pair := (Predicant_to_value_comparator H C).
Notation comparator := (Predicant_to_list_comparator H C).

(** The documented state after [make_unique_cmp_items]: every pair refers to
    the leftmost pair of the same handler, which owns the [cmp_item]; the values
    are other arguments than the predicant. *)
Definition pair_ok (nargs k : nat) (cs : list pair) (i : nat) (ci : pair) : Prop :=
  (m_arg_index ci < nargs)%nat ∧ m_arg_index ci ≠ k ∧
  ∃ h, m_handler ci = Some h ∧
    (find_handler_from 0 i cs h = Some (Some (m_handler_index ci)) ∨
     find_handler_from 0 i cs h = Some None ∧ m_handler_index ci = i ∧ is_Some (m_cmp_item ci)).

Definition prepared (nargs : nat) (p : comparator) : Prop :=
  (m_predicant_index p < nargs)%nat ∧
  ∃ cs, m_comparators p = Some cs ∧ (m_comparator_count p <= length cs)%nat ∧
    ∀ i ci, (i < m_comparator_count p)%nat → cs !! i = Some ci → pair_ok nargs (m_predicant_index p) cs i ci.

(** The [cmp_item] that compares pair [i]. *)
Definition pair_item (cs : list pair) (i : nat) : option C :=
  ci ← cs !! i; cj ← cs !! m_handler_index ci; m_cmp_item cj.

(** Whether the predicant is null, as the first handler evaluates it. *)
Definition predicant_null (p : comparator) (args : list Item) : bool :=
  default false (cs ← m_comparators p; c ← pair_item cs 0; pred ← args !! m_predicant_index p;
                 Some (store_value c pred).2).

(** All handlers find the same about the predicant being null. *)
Definition agrees (p : comparator) (args : list Item) : Prop :=
  ∀ cs i c pred, m_comparators p = Some cs → (i < m_comparator_count p)%nat →
    pair_item cs i = Some c → args !! m_predicant_index p = Some pred →
    (store_value c pred).2 = predicant_null p args.

(** "predicant <> value" of pair [i] with the position of the value, [n] telling
    whether the predicant is null. *)
Definition verdict (n : bool) (cs : list pair) (k : nat) (args : list Item) (i : nat) : option (tri * nat) :=
  ci ← cs !! i; c ← pair_item cs i; pred ← args !! k; arg ← args !! m_arg_index ci;
  Some (if n && negb (bool_decide (m_handler ci = Some row)) then UNKNOWN else differs c pred arg,
        m_arg_index ci).

Definition verdicts (p : comparator) (args : list Item) : list (tri * nat) :=
  default [] (cs ← m_comparators p;
              mapM (verdict (predicant_null p args) cs (m_predicant_index p) args)
                   (seq 0 (m_comparator_count p))).

(** SQL's meaning of IN: the disjunction of the equalities; with the position of
    the first equal value. *)
Definition in_value (ts : list (tri * nat)) : tri := foldr tor FALSE (tnot ∘ fst <$> ts).
Definition first_equal (ts : list (tri * nat)) : option nat :=
  snd <$> head (filter (λ t : tri * nat, t.1 = FALSE) ts).

(** The loops of [cmp] over the verdicts. *)
Fixpoint search (ts : list (tri * nat)) (idx : nat) (fu : option bool) : nat * option bool * bool :=
  match ts with
  | [] => (idx, fu, true)
  | (FALSE, a) :: _ => (a, fu, false)
  | (TRUE, _) :: ts => search ts idx fu
  | (UNKNOWN, _) :: ts => match fu with None => (idx, None, true) | Some _ => search ts idx (Some true) end
  end.

(** IN over the rows of a query with one comparator. *)
Fixpoint in_rows (p : comparator) (nv : list bool) (idx : nat) (rows : list (list Item))
  : option (list (tri * option nat)) :=
  match rows with
  | [] => Some []
  | args :: rows =>
      '(nv, p, idx, fu, r) ← cmp_list row args nv p idx (Some false);
      rs ← in_rows p nv idx rows;
      Some ((if (r : bool) then if default false fu then UNKNOWN else FALSE else TRUE,
             if r then None else Some idx) :: rs)
  end.

(** CASE: the pairs before the first one that is not certainly different. *)
Fixpoint case_rows (p : comparator) (nv : list bool) (idx : nat) (rows : list (list Item))
  : option (list (option nat)) :=
  match rows with
  | [] => Some []
  | args :: rows =>
      '(nv, p, idx, _, r) ← cmp_list row args nv p idx None;
      rs ← case_rows p nv idx rows;
      Some ((if (r : bool) then None else Some idx) :: rs)
  end.

Definition case_match (ts : list (tri * nat)) : option nat :=
  t ← head (filter (λ t : tri * nat, t.1 ≠ TRUE) ts); if bool_decide (t.1 = FALSE) then Some t.2 else None.

(** IS NOT DISTINCT FROM: "predicant <> value" of pair [i] where two nulls are equal. *)
Definition nulls_verdict (save : H -> Item -> option Value * bool) (n : bool) (cs : list pair) (k : nat)
    (args : list Item) (i : nat) : option (tri * nat) :=
  ci ← cs !! i; c ← pair_item cs i; pred ← args !! k; arg ← args !! m_arg_index ci; h ← m_handler ci;
  t ← match n, (save h arg).1 with
      | true, None => Some FALSE
      | true, Some _ | false, None => Some UNKNOWN
      | false, Some v => cmp_not_null (store_value c pred).1 v
      end;
  Some (t, m_arg_index ci).

Definition nulls_verdicts (save : H -> Item -> option Value * bool) (p : comparator) (args : list Item)
  : option (list (tri * nat)) :=
  cs ← m_comparators p;
  mapM (nulls_verdict save (predicant_null p args) cs (m_predicant_index p) args)
       (seq 0 (m_comparator_count p)).

(** ** Search on verdicts *)

Lemma search_in ts idx b :
  let '(j, fu, r) := search ts idx (Some b) in
  (if r then if default false fu then UNKNOWN else FALSE else TRUE)
    = tor (if b then UNKNOWN else FALSE) (in_value ts) ∧
  (if r then None else Some j) = first_equal ts.
Proof.
  revert b; induction ts as [|[[] a] ts IH]; intros b; simpl.
  - split; [by destruct b|done].
  - specialize (IH b). destruct (search ts idx (Some b)) as [[j fu] r], IH as [-> ->].
    split; [|done]. unfold in_value; simpl. by destruct b, (foldr tor FALSE _).
  - split; [|done]. by destruct b.
  - specialize (IH true). destruct (search ts idx (Some true)) as [[j fu] r], IH as [-> ->].
    split; [|done]. unfold in_value; simpl. by destruct b, (foldr tor FALSE _).
Qed.

Lemma search_case ts idx :
  let '(j, fu, r) := search ts idx None in fu = None ∧ (if r then None else Some j) = case_match ts.
Proof.
  induction ts as [|[[] a] ts IH]; simpl; try done.
Qed.

(** ** The cache *)

Lemma store_fixed (c : C) a : (store_value (store_value c a).1 a) = store_value c a.
Proof. by rewrite <-(store_forgets (store_value c a).1), forget_store, store_forgets. Qed.

Lemma differs_stored (c : C) a b : (store_value c a).1 = c → (cmp c b).1 = differs c a b.
Proof. intros E. unfold differs. by rewrite E. Qed.

(** A pair without what its [cmp_item] stores. *)
Definition strip (e : pair) : pair :=
  mk_pair (m_handler e) (forget <$> m_cmp_item e) (m_arg_index e) (m_handler_index e).

Lemma find_from_le (cs : list pair) h n i j : find_handler_from i n cs h = Some (Some j) →
  (i <= j < i + n)%nat ∧ (∃ cj, cs !! j = Some cj ∧ m_handler cj = Some h) ∧
  find_handler_from i (j - i) cs h = Some None.
Proof.
  revert i; induction n as [|n IH]; intros i E; simpl in E; [done|].
  destruct (cs !! i) as [c|] eqn:Ec; simpl in E; [|done].
  destruct (bool_decide_reflect (m_handler c = Some h)) as [Eh|Eh].
  - simplify_eq/=. rewrite Nat.sub_diag. split; [lia|]. eauto.
  - destruct (IH _ E) as (? & ? & Ef). split; [lia|]. split; [done|].
    replace (j - i)%nat with (S (j - S i)) by lia. simpl. rewrite Ec; simpl.
    rewrite bool_decide_eq_false_2; done.
Qed.

(** What the loops need of a prepared comparator. *)
Definition led (nargs k n : nat) (cs : list pair) : Prop :=
  ∀ i, (i < n)%nat → ∃ ci cj c,
    cs !! i = Some ci ∧ cs !! m_handler_index ci = Some cj ∧ m_cmp_item cj = Some c ∧
    m_handler_index cj = m_handler_index ci ∧ (m_handler_index ci <= i)%nat ∧
    is_Some (m_handler ci) ∧ (m_arg_index ci < nargs)%nat ∧ m_arg_index ci ≠ k.

Lemma prepared_led nargs (p : comparator) cs : prepared nargs p → m_comparators p = Some cs →
  led nargs (m_predicant_index p) (m_comparator_count p) cs.
Proof.
  intros (_ & cs' & E & Hlen & Hok) E'. assert (cs' = cs) as -> by congruence. intros i Hi.
  destruct (lookup_lt_is_Some_2 cs i ltac:(lia)) as [ci Eci].
  destruct (Hok i ci Hi Eci) as (? & ? & h & Eh & [Ef|(Ef & Ei & c & Ec)]).
  - destruct (find_from_le _ _ _ _ _ Ef) as (Hle & (cj & Ecj & Ehj) & En).
    rewrite Nat.sub_0_r in En.
    destruct (Hok (m_handler_index ci) cj ltac:(lia) Ecj) as (_ & _ & h' & Eh' & [Ef'|(_ & Ej & c & Ec)]); simplify_eq/=.
    exists ci, cj, c. repeat split; eauto with lia.
  - exists ci, ci, c. rewrite Ei. repeat split; eauto with lia.
Qed.

Lemma strip_lookup (cs cs' : list pair) i e' : strip <$> cs' = strip <$> cs → cs' !! i = Some e' →
  ∃ e, cs !! i = Some e ∧ strip e = strip e'.
Proof.
  intros E Ee. assert (L : (strip <$> cs) !! i = Some (strip e')) by by rewrite <-E, list_lookup_fmap, Ee.
  rewrite list_lookup_fmap in L. destruct (cs !! i) as [e|]; [|done].
  exists e. split; [done|]. by apply (inj Some) in L.
Qed.

Lemma strip_led nargs k n (cs cs' : list pair) : strip <$> cs' = strip <$> cs → led nargs k n cs → led nargs k n cs'.
Proof.
  intros E Hl i Hi. destruct (Hl i Hi) as (ci & cj & c & E1 & E2 & E3 & E4 & E5 & E6 & E7 & E8).
  destruct (strip_lookup cs' cs i ci (eq_sym E) E1) as (ci' & E1' & S1).
  destruct (strip_lookup cs' cs _ cj (eq_sym E) E2) as (cj' & E2' & S2).
  destruct ci, cj, ci', cj' as [? [c'|] ? ?]; simplify_eq/=.
  eexists _, _, c'. split; [exact E1'|]. split; [exact E2'|]. by repeat split.
Qed.

Lemma strip_pair_item (cs cs' : list pair) i : strip <$> cs' = strip <$> cs →
  forget <$> pair_item cs' i = forget <$> pair_item cs i.
Proof.
  intros E.
  assert (P : ∀ l : list pair, forget <$> pair_item l i =
    (ci ← (strip <$> l) !! i; cj ← (strip <$> l) !! m_handler_index ci; m_cmp_item cj)).
  { intros l. unfold pair_item. rewrite list_lookup_fmap. destruct (l !! i) as [ci|]; simpl; [|done].
    rewrite list_lookup_fmap. by destruct (l !! m_handler_index ci). }
  by rewrite !P, E.
Qed.

Lemma strip_verdict n k args (cs cs' : list pair) i : strip <$> cs' = strip <$> cs →
  verdict n cs' k args i = verdict n cs k args i.
Proof.
  intros E. pose proof (strip_pair_item cs cs' i E) as Ei. unfold verdict.
  assert (L : strip <$> cs' !! i = strip <$> cs !! i) by by rewrite <-!list_lookup_fmap, E.
  destruct (cs' !! i) as [e'|], (cs !! i) as [e|]; simplify_eq/=; [|done].
  destruct e as [h m a hi], e' as [h' m' a' hi']. simplify_eq/=.
  destruct (pair_item cs' i) as [c'|], (pair_item cs i) as [c|]; simplify_eq/=; [|done].
  destruct (args !! k); simpl; [|done]. destruct (args !! a); simpl; [|done].
  by rewrite <-(differs_forget c'), Ei, differs_forget.
Qed.

(** The state of a search before pair [i]: nothing but caches has changed, the
    objects of the pairs before [i] hold the current predicant. *)
Record searching (cs0 : list pair) (args : list Item) (k : nat) (pred : Item) (b : bool)
    (i : nat) (nv : list bool) (cs : list pair) : Prop := {
  only_caches : strip <$> cs = strip <$> cs0;
  flags_len : length nv = length args;
  fresh : ∀ j cj c, (j < i)%nat → cs !! j = Some cj → m_handler_index cj = j →
            m_cmp_item cj = Some c → (store_value c pred).1 = c;
  null_known : (0 < i)%nat → nv !! k = Some b
}.

Section row.
Context (cs0 : list pair) (args : list Item) (k n : nat) (pred : Item) (b : bool).
Hypothesis Hled : led (length args) k n cs0.
Hypothesis Hpred : args !! k = Some pred.
Hypothesis Hagree : ∀ i c, (i < n)%nat → pair_item cs0 i = Some c → (store_value c pred).2 = b.
Notation searching := (searching cs0 args k pred b).

Lemma store_at_strip (cs : list pair) i ci c : cs !! i = Some ci → m_cmp_item ci = Some c →
  strip <$> alter (λ e, mk_pair (m_handler e) (Some (store_value c pred).1) (m_arg_index e) (m_handler_index e)) i cs
  = strip <$> cs.
Proof.
  intros Ei Ec. apply list_eq. intros j. rewrite !list_lookup_fmap.
  destruct (decide (i = j)) as [<-|Hne]; [|by rewrite list_lookup_alter_ne].
  rewrite list_lookup_alter_eq, Ei. simpl. unfold strip; simpl. by rewrite Ec, forget_store.
Qed.

Lemma cached_item_step i nv cs : (i < n)%nat → searching i nv cs →
  ∃ nv' cs' c ci, cached_item args nv (mk_list (Some cs) n k) i = Some (nv', mk_list (Some cs') n k, c, ci) ∧
    searching (S i) nv' cs' ∧ pair_item cs' i = Some c ∧ (store_value c pred).1 = c ∧
    (∃ ci', cs' !! i = Some ci' ∧ strip ci' = strip ci) ∧ nv' !! k = Some b.
Proof.
  intros Hi [Hs Hlen Hf Hn].
  pose proof (strip_led _ _ _ _ _ Hs Hled i Hi) as (ci & cj & c & E1 & E2 & E3 & E4 & E5 & E6 & E7 & E8).
  assert (Ep : pair_item cs i = Some c) by (unfold pair_item; rewrite E1; simpl; by rewrite E2).
  assert (Eb : (store_value c pred).2 = b).
  { pose proof (strip_pair_item cs0 cs i Hs) as Ef. rewrite Ep in Ef.
    destruct (pair_item cs0 i) as [c0|] eqn:E0; simpl in Ef; [|done]. apply (inj Some) in Ef.
    rewrite <-(store_forgets c), Ef, store_forgets. by apply (Hagree i). }
  unfold cached_item; simpl. rewrite E1; simpl. rewrite E2; simpl. rewrite E3, Hpred; simpl.
  destruct (Nat.eqb_spec (m_handler_index ci) i) as [Ei|Ei].
  - rewrite Ei in E2. assert (cj = ci) as -> by congruence.
    pose proof (store_at_strip cs i ci c E1 E3) as Hst. pose proof (store_fixed c pred) as Hfix.
    destruct (store_value c pred) as [c' n'] eqn:Es; simpl in *. subst n'.
    set (cs' := alter _ i cs) in *.
    assert (Ei' : cs' !! i = Some (mk_pair (m_handler ci) (Some c') (m_arg_index ci) (m_handler_index ci)))
      by (unfold cs'; by rewrite list_lookup_alter_eq, E1).
    assert (Ek : <[k:=b]> nv !! k = Some b)
      by (apply list_lookup_insert_eq; rewrite Hlen; by eapply lookup_lt_Some).
    exists (<[k:=b]> nv), cs', c', ci. split; [done|]. split.
    { split; [by rewrite Hst|by rewrite length_insert| |done].
      intros j dj d Hj Ej Ehj Ed. destruct (decide (i = j)) as [<-|Hne].
      - rewrite Ei' in Ej. simplify_eq/=. by rewrite Hfix.
      - unfold cs' in Ej. rewrite list_lookup_alter_ne in Ej by done. apply (Hf j dj); auto with lia. }
    split; [unfold pair_item; rewrite Ei'; simpl; by rewrite Ei, Ei'|].
    split; [by rewrite Hfix|]. split; [|done].
    eexists; split; [done|]. unfold strip; simpl. rewrite E3; simpl.
    rewrite <-(forget_store c pred), Es. done.
  - assert (Hc : (store_value c pred).1 = c) by (apply (Hf (m_handler_index ci) cj); auto with lia).
    exists nv, cs, c, ci. split; [done|]. split.
    { split; [done|done| |intros; apply Hn; lia].
      intros j dj d Hj Ej Ehj Ed. destruct (decide (j = i)) as [->|]; [congruence|].
      apply (Hf j dj); auto with lia. }
    split; [done|]. split; [done|]. split; [eauto|]. apply Hn; lia.
Qed.

Lemma cmp_arg_step i nv cs : (i < n)%nat → searching i nv cs →
  ∃ nv' cs' t a, cmp_arg row args nv (mk_list (Some cs) n k) i = Some (nv', mk_list (Some cs') n k, t) ∧
    searching (S i) nv' cs' ∧ verdict b cs0 k args i = Some (t, a) ∧
    (∃ ci', cs' !! i = Some ci' ∧ m_arg_index ci' = a).
Proof.
  intros Hi Hs. destruct (cached_item_step i nv cs Hi Hs)
    as (nv' & cs' & c & ci & E & Hs' & Ep & Hc & (ci' & Ei' & Est) & Ek).
  unfold cmp_arg. rewrite E; simpl. rewrite Ek; simpl.
  rewrite <-(strip_verdict b k args cs0 cs' i) by apply Hs'.
  pose proof (strip_led _ _ _ _ _ (only_caches _ _ _ _ _ _ _ _ Hs') Hled i Hi)
    as (di & _ & _ & E1 & _ & _ & _ & _ & _ & E7 & E8).
  assert (di = ci') as -> by congruence.
  assert (Eh : m_handler ci = m_handler ci') by (unfold strip in Est; congruence).
  assert (Ea : m_arg_index ci = m_arg_index ci') by (unfold strip in Est; congruence).
  destruct (lookup_lt_is_Some_2 args (m_arg_index ci') E7) as [arg Earg].
  unfold verdict. rewrite Ei'; simpl. rewrite Ep, Hpred; simpl. rewrite Earg, Ea, Eh, Earg; simpl.
  destruct (b && negb (bool_decide (m_handler ci' = Some row))).
  - eexists _, _, _, _. split; [done|]. eauto.
  - pose proof (differs_stored c pred arg Hc) as Hd. destruct (cmp c arg) as [t m]; simpl in *.
    exists (<[m_arg_index ci':=m]> nv'), cs', t, (m_arg_index ci').
    split; [done|]. split; [|rewrite Hd; eauto].
    destruct Hs'. split; [done|by rewrite length_insert|done|].
    intros. rewrite list_lookup_insert_ne; auto.
Qed.

Lemma handler_known i nv cs : (i < n)%nat → searching i nv cs →
  ∃ h, get_comparator_type_handler (mk_list (Some cs) n k) i = Some (Some h).
Proof.
  intros Hi [Hs _ _ _]. destruct (strip_led _ _ _ _ _ Hs Hled i Hi) as (ci & _ & _ & E & _ & _ & _ & _ & [h Eh] & _).
  exists h. unfold get_comparator_type_handler; simpl.
  destruct (Nat.ltb_spec i n); [|lia]. rewrite E; simpl. by rewrite Eh.
Qed.

Lemma cmp_from_search m i nv cs idx fu : (i + m = n)%nat → searching i nv cs →
  ∃ ts nv' cs' i', mapM (verdict b cs0 k args) (seq i m) = Some ts ∧ searching i' nv' cs' ∧
    cmp_from row m i args nv (mk_list (Some cs) n k) idx fu =
      (let '(j, fu, r) := search ts idx fu in Some (nv', mk_list (Some cs') n k, j, fu, r)).
Proof.
  revert i nv cs idx fu; induction m as [|m IH]; intros i nv cs idx fu Hm Hs; simpl.
  { exists [], nv, cs, i. eauto. }
  destruct (handler_known i nv cs ltac:(lia) Hs) as [h ->]; simpl.
  destruct (cmp_arg_step i nv cs ltac:(lia) Hs) as (nv1 & cs1 & t & a & E & Hs1 & Ev & ci & Eci & Ea).
  rewrite E, Ev; simpl.
  destruct (IH (S i) nv1 cs1 idx (match t with UNKNOWN => fu ≫= λ _, Some true | _ => fu end) ltac:(lia) Hs1)
    as (ts & nv2 & cs2 & i2 & Em & Hs2 & E2).
  exists ((t, a) :: ts). rewrite Em; simpl.
  destruct t; [|by rewrite Eci, <-Ea; eauto 6|].
  - eauto 6.
  - destruct fu; simpl in *; [eauto 6|]. exists nv1, cs1, (S i). eauto.
Qed.

(** [DECODE_ORACLE]. *)
Context (save : H -> Item -> option Value * bool).

Lemma strip_nulls_verdict (cs : list pair) i : strip <$> cs = strip <$> cs0 →
  nulls_verdict save b cs k args i = nulls_verdict save b cs0 k args i.
Proof.
  intros E. pose proof (strip_pair_item cs0 cs i E) as Ei. unfold nulls_verdict.
  assert (L : strip <$> cs !! i = strip <$> cs0 !! i) by by rewrite <-!list_lookup_fmap, E.
  destruct (cs !! i) as [e'|], (cs0 !! i) as [e|]; simplify_eq/=; [|done].
  destruct e as [h m a hi], e' as [h' m' a' hi']. simplify_eq/=.
  destruct (pair_item cs i) as [c'|], (pair_item cs0 i) as [c|]; simplify_eq/=; [|done].
  rewrite Hpred; simpl. by rewrite <-(store_forgets c'), Ei, store_forgets.
Qed.

Lemma nulls_equal_step i nv cs t a : (i < n)%nat → searching i nv cs →
  nulls_verdict save b cs0 k args i = Some (t, a) →
  ∃ nv' cs', cmp_args_nulls_equal save args nv (mk_list (Some cs) n k) i = Some (nv', mk_list (Some cs') n k, t) ∧
    searching (S i) nv' cs' ∧ (∃ ci', cs' !! i = Some ci' ∧ m_arg_index ci' = a).
Proof.
  intros Hi Hs Ev. destruct (cached_item_step i nv cs Hi Hs)
    as (nv' & cs' & c & ci & E & Hs' & Ep & Hc & (ci' & Ei' & Est) & Ek).
  rewrite <-(strip_nulls_verdict cs' i) in Ev by apply Hs'.
  pose proof (strip_led _ _ _ _ _ (only_caches _ _ _ _ _ _ _ _ Hs') Hled i Hi)
    as (di & _ & _ & E1 & _ & _ & _ & _ & _ & E7 & E8).
  assert (di = ci') as -> by congruence.
  assert (Eh : m_handler ci = m_handler ci') by (unfold strip in Est; congruence).
  assert (Ea : m_arg_index ci = m_arg_index ci') by (unfold strip in Est; congruence).
  unfold cmp_args_nulls_equal. rewrite E; simpl. unfold nulls_verdict in Ev.
  rewrite Ei' in Ev; simpl in Ev. rewrite Ep, Hpred in Ev; simpl in Ev. rewrite Ea, Eh.
  destruct (args !! m_arg_index ci') as [arg|]; simpl in *; [|done].
  destruct (m_handler ci') as [h|]; simpl in *; [|done].
  destruct (save h arg) as [val m]; simpl in *. rewrite Hc in Ev.
  rewrite list_lookup_insert_ne, Ek by done; simpl.
  exists (<[m_arg_index ci':=m]> nv'), cs'. split.
  { destruct b, val; simplify_eq/=; try done. destruct (cmp_not_null c v); by simplify_eq/=. }
  split.
  - destruct Hs'. split; [done|by rewrite length_insert|done|].
    intros. rewrite list_lookup_insert_ne; auto.
  - exists ci'. split; [done|]. destruct b, val; simplify_eq/=; try done.
    destruct (cmp_not_null c v); by simplify_eq/=.
Qed.

Lemma nulls_equal_search m i nv cs idx ts : (i + m = n)%nat → searching i nv cs →
  mapM (nulls_verdict save b cs0 k args) (seq i m) = Some ts →
  ∃ nv' cs' i', searching i' nv' cs' ∧
    cmp_nulls_equal_from save m i args nv (mk_list (Some cs) n k) idx =
      Some (nv', mk_list (Some cs') n k, default idx (first_equal ts), None, negb (bool_decide (is_Some (first_equal ts)))).
Proof.
  revert i nv cs ts; induction m as [|m IH]; intros i nv cs ts Hm Hs Em; simpl in *.
  { injection Em as <-. by exists nv, cs, i. }
  destruct (nulls_verdict save b cs0 k args i) as [[t a]|] eqn:Ev; simpl in Em; [|done].
  destruct (mapM _ (seq (S i) m)) as [ts'|] eqn:Em'; simpl in Em; [|done]. injection Em as <-.
  destruct (handler_known i nv cs ltac:(lia) Hs) as [h ->]; simpl.
  destruct (nulls_equal_step i nv cs t a ltac:(lia) Hs Ev) as (nv1 & cs1 & E & Hs1 & ci & Eci & Ea).
  rewrite E; simpl. destruct (IH (S i) nv1 cs1 ts' ltac:(lia) Hs1 Em') as (nv2 & cs2 & i2 & Hs2 & E2).
  destruct t; [eauto 6| |eauto 6].
  rewrite Eci; simpl. exists nv1, cs1, (S i). by rewrite Ea.
Qed.

End row.

(** A search from any earlier state of the caches answers by the verdicts of the
    prepared comparator. *)
Lemma cmp_list_search nargs p cs0 cs args nv idx fu :
  prepared nargs p → m_comparators p = Some cs0 → strip <$> cs = strip <$> cs0 →
  length args = nargs → length nv = nargs → agrees p args →
  ∃ nv' cs', strip <$> cs' = strip <$> cs0 ∧ length nv' = nargs ∧
    cmp_list row args nv (mk_list (Some cs) (m_comparator_count p) (m_predicant_index p)) idx fu =
      (let '(j, fu, r) := search (verdicts p args) idx fu in
       Some (nv', mk_list (Some cs') (m_comparator_count p) (m_predicant_index p), j, fu, r)).
Proof.
  intros Hp E0 Hs <- Hnv Hag.
  destruct (lookup_lt_is_Some_2 args (m_predicant_index p)) as [pred Hpred]; [apply Hp|].
  pose proof (prepared_led _ p cs0 Hp E0) as Hled.
  destruct (cmp_from_search cs0 args (m_predicant_index p) (m_comparator_count p) pred (predicant_null p args)
              Hled Hpred (λ i c Hi Ei, Hag cs0 i c pred E0 Hi Ei Hpred)
              (m_comparator_count p) 0 nv cs idx fu eq_refl)
    as (ts & nv' & cs' & i' & Em & [] & E).
  { split; [done|done|intros; lia|lia]. }
  exists nv', cs'. split; [done|]. split; [done|].
  unfold verdicts. rewrite E0; simpl. rewrite Em; simpl. exact E.
Qed.

(** DECODE_ORACLE finds the first value that is equal, two nulls being equal, and
    leaves [*idx] unchanged when there is none. *)
Theorem decode_finds_first save nargs p args nv idx ts :
  prepared nargs p → length args = nargs → length nv = nargs → agrees p args →
  nulls_verdicts save p args = Some ts →
  ∃ nv' p', cmp_nulls_equal save args nv p idx =
    Some (nv', p', default idx (first_equal ts), None, negb (bool_decide (is_Some (first_equal ts)))).
Proof.
  intros Hp <- Hnv Hag Hts.
  destruct (lookup_lt_is_Some_2 args (m_predicant_index p)) as [pred Hpred]; [apply Hp|].
  pose proof Hp as (_ & cs0 & E0 & _). pose proof (prepared_led _ p cs0 Hp E0) as Hled.
  unfold nulls_verdicts in Hts. rewrite E0 in Hts.
  destruct (nulls_equal_search cs0 args (m_predicant_index p) (m_comparator_count p) pred (predicant_null p args)
              Hled Hpred (λ i c Hi Ei, Hag cs0 i c pred E0 Hi Ei Hpred) save
              (m_comparator_count p) 0 nv cs0 idx ts eq_refl) as (nv' & cs' & i' & _ & E); [|done|].
  { split; [done|done|intros; lia|lia]. }
  exists nv', (mk_list (Some cs') (m_comparator_count p) (m_predicant_index p)).
  unfold cmp_nulls_equal. rewrite <-E. destruct p; simpl in *; by subst.
Qed.

Lemma in_rows_spec nargs p cs0 cs nv idx rows :
  prepared nargs p → m_comparators p = Some cs0 → strip <$> cs = strip <$> cs0 → length nv = nargs →
  Forall (λ args, length args = nargs ∧ agrees p args) rows →
  in_rows (mk_list (Some cs) (m_comparator_count p) (m_predicant_index p)) nv idx rows =
    Some ((λ args, (in_value (verdicts p args), first_equal (verdicts p args))) <$> rows).
Proof.
  intros Hp E0 Hs Hnv Hrows; revert cs nv idx Hs Hnv.
  induction Hrows as [|args rows [Hlen Hag] _ IH]; intros cs nv idx Hs Hnv; simpl; [done|].
  destruct (cmp_list_search nargs p cs0 cs args nv idx (Some false)) as (nv' & cs' & Hs' & Hnv' & ->); auto.
  pose proof (search_in (verdicts p args) idx false) as Hin.
  destruct (search _ idx (Some false)) as [[j fu] r], Hin as [Hv Hf]; simpl.
  rewrite IH by done; simpl. rewrite Hv, Hf. by destruct (in_value _).
Qed.

Lemma case_rows_spec nargs p cs0 cs nv idx rows :
  prepared nargs p → m_comparators p = Some cs0 → strip <$> cs = strip <$> cs0 → length nv = nargs →
  Forall (λ args, length args = nargs ∧ agrees p args) rows →
  case_rows (mk_list (Some cs) (m_comparator_count p) (m_predicant_index p)) nv idx rows =
    Some ((λ args, case_match (verdicts p args)) <$> rows).
Proof.
  intros Hp E0 Hs Hnv Hrows; revert cs nv idx Hs Hnv.
  induction Hrows as [|args rows [Hlen Hag] _ IH]; intros cs nv idx Hs Hnv; simpl; [done|].
  destruct (cmp_list_search nargs p cs0 cs args nv idx None) as (nv' & cs' & Hs' & Hnv' & ->); auto.
  pose proof (search_case (verdicts p args) idx) as Hin.
  destruct (search _ idx None) as [[j fu] r], Hin as [_ Hf]; simpl.
  by rewrite IH, Hf.
Qed.

Lemma prepared_self nargs p : prepared nargs p → ∃ cs, m_comparators p = Some cs ∧
  p = mk_list (Some cs) (m_comparator_count p) (m_predicant_index p).
Proof. intros (_ & cs & E & _). exists cs. split; [done|]. destruct p; simpl in *; by subst. Qed.

(** C17: Over the rows of a query a prepared comparator, whose objects cache the
    predicant across pairs and rows, answers as SQL defines IN: the three-valued
    disjunction of the predicant's equality with each value, and the first value
    that is equal, provided that the handlers agree on the predicant being null. *)
Theorem in_list_refines nargs p nv idx rows :
  prepared nargs p → length nv = nargs →
  Forall (λ args, length args = nargs ∧ agrees p args) rows →
  in_rows p nv idx rows =
    Some ((λ args, (in_value (verdicts p args), first_equal (verdicts p args))) <$> rows).
Proof.
  intros Hp Hnv Hr. destruct (prepared_self nargs p Hp) as (cs & E & Ep).
  rewrite Ep at 1. by apply (in_rows_spec nargs p cs cs).
Qed.

(** A simple CASE stops at the first value that is not certainly different. *)
Theorem case_stops_at_unknown nargs p nv idx rows :
  prepared nargs p → length nv = nargs →
  Forall (λ args, length args = nargs ∧ agrees p args) rows →
  case_rows p nv idx rows = Some ((λ args, case_match (verdicts p args)) <$> rows).
Proof.
  intros Hp Hnv Hr. destruct (prepared_self nargs p Hp) as (cs & E & Ep).
  rewrite Ep at 1. by apply (case_rows_spec nargs p cs cs).
Qed.

(** After [cleanup] nothing is found and no object is used, every object of the
    comparators in use has been deleted once, and the comparator can be prepared
    again. *)
Theorem cleanup_empties (p p' : comparator) deleted args nv idx fu nargs :
  cleanup p = Some (p', deleted) →
  cmp_list row args nv p' idx fu = Some (nv, p', idx, fu, true) ∧
  (∀ i, (i < nargs)%nat → is_Some (add_predicant nargs p' i)) ∧
  ∃ cs, m_comparators p = Some cs ∧ deleted = omap m_cmp_item (take (m_comparator_count p) cs).
Proof.
  unfold cleanup. destruct (m_comparators p) as [cs|]; simpl; [|done].
  destruct (Nat.leb_spec (m_comparator_count p) (length cs)); [|done]. intros E; simplify_eq.
  split; [done|]. split.
  { intros i Hi. unfold add_predicant; simpl. destruct (Nat.ltb_spec i nargs); [eauto|lia]. }
  exists cs. split; [done|]. induction (take _ cs) as [|[h [c|] a j] l IH]; simpl; [done| |done].
  by f_equal.
Qed.

End spec.

(** ** The arguments of CASE *)

(** The counts of WHEN branches and the ELSE branch account for every argument,
    and ELSE is the last one. *)
Theorem case_arguments n :
  n = (2 * searched_when_count n + Nat.b2n (searched_with_else n))%nat ∧
  ((1 <= n)%nat → n = (1 + 2 * simple_when_count n + Nat.b2n (simple_with_else n))%nat) ∧
  (∀ e, searched_else_expr_addr n = Some e ∨ (1 <= n)%nat ∧ simple_else_expr_addr n = Some e → n = S e).
Proof.
  unfold searched_else_expr_addr, simple_else_expr_addr, searched_when_count, searched_with_else,
    simple_when_count, simple_with_else.
  pose proof (Nat.div_mod_eq n 2). pose proof (Nat.mod_upper_bound n 2).
  pose proof (Nat.div_mod_eq (n - 1) 2). pose proof (Nat.mod_upper_bound (n - 1) 2).
  destruct (Nat.eqb_spec (n mod 2) 0); cbn [negb Nat.b2n];
    (split; [lia|split; [intros; lia|intros x [|[? ?]]; simplify_eq; lia]]).
Qed.

(** ** Examples *)

Section examples.
#[local] Instance enough_memory : Memory := λ _, false.

Definition bytes_compare (a b : list Z) : Z := if decide (a = b) then 0 else 1.

(** The string literal "s", whose numeric value is [v] and which is no date. *)
Definition text (s : list Z) (v : Z) : Item :=
  mk_Item (v, false) (of_int v, false) (Some (s, false), false) (0, true) (0, true).
Definition null_item : Item := mk_Item (0, true) (of_int 0, true) (None, true) (0, true) (0, true).

Notation C2 := (cmp_item_int + cmp_item_string)%type.

(** [x IN (v1, v2, v3)] with an integer comparison between two string ones;
    the handlers are 0 for strings, 1 for integers and 2 for rows. *)
Definition three_pairs : Predicant_to_list_comparator nat C2 :=
  mk_list (Some [mk_pair (Some 0%nat) (Some (inr (mk_string bytes_compare None false))) 1 0;
                 mk_pair (Some 1%nat) (Some (inl (mk_int 7 true))) 2 1;
                 mk_pair (Some 0%nat) None 3 0]) 3 0.

Lemma three_pairs_prepared : prepared 4 three_pairs.
Proof.
  split; [simpl; lia|]. eexists; split; [done|]. split; [simpl; lia|].
  intros [|[|[|i]]] ci Hi E; simpl in *; simplify_eq/=; try lia; (split; [simpl; lia|split; [done|]]);
    eexists; split; try done; vm_compute; eauto.
Qed.

(** A row that matches at the third value behind an unknown second one, a row
    with a null predicant, and one without a match or a null. *)
Definition sample_rows : list (list Item) :=
  [[text [97] 5; text [98] 1; null_item; text [97] 9];
   [null_item; text [98] 1; text [99] 1; text [97] 9];
   [text [97] 5; text [98] 1; text [99] 1; text [99] 9]].

Lemma sample_rows_agree :
  Forall (λ args, length args = 4%nat ∧ agrees three_pairs args) sample_rows.
Proof.
  apply Forall_forall; intros args Hin. unfold sample_rows in Hin. set_unfold in Hin.
  destruct Hin as [->|[->|[->|[]]]]; (split; [done|]);
    intros cs [|[|[|i]]] c pred E Hi Ei Ep; simpl in *; try lia;
    injection E as <-; injection Ep as <-; injection Ei as <-; reflexivity.
Qed.

Lemma in_list_refines_witness :
  prepared 4 three_pairs ∧
  in_rows 2%nat three_pairs [false; false; false; false] 0 sample_rows =
    Some [(TRUE, Some 3%nat); (UNKNOWN, None); (FALSE, None)].
Proof.
  split; [apply three_pairs_prepared|].
  rewrite (in_list_refines 2%nat 4); [vm_compute; reflexivity|apply three_pairs_prepared|done|
    apply sample_rows_agree].
Defined.

(** The same rows in a CASE: the unknown second value hides the third. *)
Example case_misses_later_match :
  case_rows 2%nat three_pairs [false; false; false; false] 0 sample_rows = Some [None; None; None].
Proof. vm_compute. reflexivity. Qed.

(** Where the handlers disagree, as for a string that is no date, the
    [null_value] left by the last handler that evaluated the predicant decides:
    the same string is not found among the values. *)
Definition date_pairs : Predicant_to_list_comparator nat (cmp_item_temporal + cmp_item_string) :=
  mk_list (Some [mk_pair (Some 0%nat) (Some (inr (mk_string bytes_compare None false))) 1 0;
                 mk_pair (Some 1%nat) (Some (inl (mk_temporal 0 false))) 2 1;
                 mk_pair (Some 0%nat) None 3 0]) 3 0.

Theorem stale_null_hides_match (t_cmp : cmp_item_temporal → Item → tri * bool) t_cmp_nn date :
  let _ := temporal_item false t_cmp t_cmp_nn in
  in_rows 2%nat date_pairs [false; false; false; false] 0 [[text [97] 5; text [98] 1; date; text [97] 9]] =
    Some [(UNKNOWN, None)] ∧
  in_rows 2%nat date_pairs [false; false; false; false] 0 [[text [97] 5; text [97] 9; date; text [98] 1]] =
    Some [(TRUE, Some 1%nat)].
Proof. split; reflexivity. Qed.

End examples.

End InList.
