(* ===== verification/ProfileQueue.v ===== *)
(** * The queue of profiles (template Queue of private/sql_profile.h)

    A doubly linked FIFO whose items are allocated one by one.  The heap is a
    finite map from addresses to items; an access to an address that is not
    allocated, or a second free of it, has no result.  Where [my_malloc] places
    a new item, null when it fails, is an argument of [push_back]. *)

From Stdlib Require Import ZArith Lia.
From S2P Require Import Prelude Links.
From stdpp Require Import prelude list gmap.
Local Open Scope Z_scope.
Local Open Scope cint_scope.

Module ProfileQueue.

Record queue_item := mk_item { payload : N; next : N; previous : N }.

Notation heap := (gmap N queue_item).

Record Queue := mk_queue { first : N; last : N; elements : Z }.   (* elements: ulong *)

Definition new_queue : Queue := mk_queue NULL NULL 0.

(** The loop of [empty]: [my_free] of every item. *)
Fixpoint free_items (fuel : nat) (h : heap) (i : N) : option heap :=
  match fuel with
  | O => None
  | S f => if N.eqb i NULL then Some h else it ← h !! i; free_items f (delete i h) (next it)
  end.

Definition empty (fuel : nat) (h : heap) (q : Queue) : option (heap * Queue) :=
  h ← free_items fuel h (first q); Some (h, mk_queue (first q) (last q) 0).

(** The result of [my_malloc] is written to without a test: a null pointer is
    undefined. *)
Definition push_back (new_item : N) (h : heap) (q : Queue) (p : N) : option (heap * Queue) :=
  if N.eqb new_item NULL then None
  else
  let f := if N.eqb (first q) NULL then new_item else first q in
  h ← (if N.eqb (last q) NULL then Some h
       else it ← h !! last q;
            if N.eqb (next it) NULL
            then Some (<[last q := mk_item (payload it) new_item (previous it)]> h)
            else None);
  Some (<[new_item := mk_item p NULL (last q)]> h, mk_queue f new_item (u32 (elements q + 1))).

(** The result 0 is the null pointer of an empty queue. *)
Definition pop (h : heap) (q : Queue) : option (heap * Queue * N) :=
  if N.eqb (first q) NULL then Some (h, q, NULL)
  else
    old ← h !! first q;
    '(h, l) ← (if N.eqb (next old) NULL then Some (h, NULL)
               else nx ← h !! next old;
                    Some (<[next old := mk_item (payload nx) (next nx) NULL]> h, last q));
    Some (delete (first q) h, mk_queue (next old) l (u32 (elements q - 1)), payload old).

Definition is_empty (q : Queue) : option bool :=
  if ((0 <? elements q) && negb (N.eqb (first q) NULL)) || ((elements q =? 0) || N.eqb (first q) NULL)
  then Some (elements q =? 0) else None.

Definition new_iterator (q : Queue) : N := first q.
Definition iterator_next (h : heap) (current : N) : option N := next <$> h !! current.
Definition iterator_value (h : heap) (current : N) : option N := payload <$> h !! current.

(** ** Properties *)

(** Items [xs] (address, payload), each pointing back at the one before. *)
Fixpoint items (h : heap) (prev p : N) (xs : list (N * N)) : Prop :=
  match xs with
  | [] => p = NULL
  | (a, v) :: xs => p = a /\ a <> NULL /\ exists nx, h !! a = Some (mk_item v nx prev) /\ items h a nx xs
  end.

Definition last_addr (xs : list (N * N)) : N := from_option fst NULL (list.last xs).

Lemma last_addr_snoc xs x : last_addr (xs ++ [x]) = fst x.
Proof. unfold last_addr. by rewrite list.last_snoc. Qed.

(** The heap holds the queue's items and nothing else. *)
Record rel (h : heap) (q : Queue) (xs : list (N * N)) : Prop := {
  rel_items : items h NULL (first q) xs;
  rel_last : last q = last_addr xs;
  rel_count : elements q = Z.of_nat (length xs);
  rel_nodup : NoDup xs.*1;
  rel_dom a : is_Some (h !! a) <-> a ∈ xs.*1
}.

Lemma items_ext h h' prev p xs :
  (forall a, a ∈ xs.*1 -> h' !! a = h !! a) -> items h prev p xs -> items h' prev p xs.
Proof.
  revert prev p. induction xs as [|[a v] xs IH]; intros prev p H; cbn; [done|].
  intros (->&Hn&nx&Ha&Hc). split; [done|]. split; [done|]. exists nx.
  split; [rewrite H by (left; done); done|]. apply IH; [|done]. intros b Hb. apply H. by right.
Qed.

Lemma items_nonnull h prev p xs x : items h prev p xs -> x ∈ xs -> fst x <> NULL.
Proof.
  revert prev p. induction xs as [|[a v] xs IH]; intros prev p; [by intros _ ?%elem_of_nil|].
  intros (_&Hn&nx&_&Hc) [->|Hx]%elem_of_cons; [done|by eapply IH].
Qed.

Lemma items_last h prev p xs x :
  items h prev p (xs ++ [x]) -> exists prev', h !! fst x = Some (mk_item (snd x) NULL prev').
Proof.
  revert prev p. induction xs as [|[a v] xs IH]; intros prev p; destruct x as [b w]; cbn.
  - intros (->&_&nx&E&->). by exists prev.
  - intros (_&_&nx&_&Hc). by apply (IH a nx).
Qed.

(** Linking a new item behind the last one. *)
Lemma items_snoc h prev p xs x n v prev' :
  items h prev p (xs ++ [x]) -> fst x ∉ xs.*1 -> n ∉ xs.*1 -> n <> fst x -> n <> NULL ->
  h !! fst x = Some (mk_item (snd x) NULL prev') ->
  items (<[n := mk_item v NULL (fst x)]> (<[fst x := mk_item (snd x) n prev']> h)) prev p (xs ++ [x; (n, v)]).
Proof.
  destruct x as [b u]. cbn [fst snd]. revert prev p. induction xs as [|[a w] xs IH]; intros prev p.
  - cbn. intros (->&Hn&nx&E&->) _ _ Hnb Hnn E'. rewrite E in E'. simplify_eq.
    split; [done|]. split; [done|]. exists n. rewrite lookup_insert_ne, lookup_insert_eq by done.
    split; [done|]. split; [done|]. split; [done|]. exists NULL. by rewrite lookup_insert_eq.
  - rewrite fmap_cons. intros (->&Hn&nx&E&Hc) [Hb1 Hb2]%not_elem_of_cons [Hn1 Hn2]%not_elem_of_cons Hnb Hnn E'.
    cbn in Hb1, Hn1. split; [done|]. split; [done|]. exists nx. rewrite !lookup_insert_ne by done.
    split; [done|]. by apply (IH a nx).
Qed.

Lemma push_back_rel h q xs n v :
  rel h q xs -> n <> NULL -> h !! n = None -> Z.of_nat (length xs) + 1 < 2 ^ 32 ->
  exists h' q', push_back n h q v = Some (h', q') /\ rel h' q' (xs ++ [(n, v)]).
Proof.
  intros [H1 H2 H3 H4 H5] Hn Hfresh Hlen.
  assert (n ∉ xs.*1) as Hnx by (rewrite <- H5; rewrite Hfresh; intros [? ?]; done).
  assert (u32 (elements q + 1) = Z.of_nat (length (xs ++ [(n, v)]))) as Ec.
  { rewrite length_app, H3. cbn. rewrite u32_small by lia. lia. }
  assert (NoDup (xs ++ [(n, v)]).*1) as Hnd.
  { rewrite fmap_app. apply NoDup_app. split; [done|]. split; [|apply NoDup_singleton].
    intros a Ha ->%list_elem_of_singleton. done. }
  unfold push_back. rewrite H2. destruct (N.eqb_spec n NULL); [done|].
  destruct xs as [|x xs _] using rev_ind.
  - cbn in *. subst. rewrite H1. cbn. eexists _, _. split; [done|]. split; cbn; try done.
    + split; [done|]. split; [done|]. exists NULL. by rewrite lookup_insert_eq.
    + intros a. rewrite lookup_insert_is_Some, H5. set_solver.
  - rewrite last_addr_snoc.
    destruct (items_last _ _ _ _ _ H1) as [prev' E].
    pose proof (items_nonnull _ _ _ _ x H1 ltac:(set_solver)) as Hx.
    destruct (N.eqb_spec (fst x) NULL); [done|]. rewrite E. cbn.
    eexists _, _. split; [done|]. split; cbn [first last elements].
    + rewrite <- app_assoc. cbn [app].
      replace (if (first q =? NULL)%N then n else first q) with (first q); [|].
      { rewrite fmap_app in H4, Hnx. apply NoDup_app in H4 as (_&Hd&_). apply not_elem_of_app in Hnx as [Hn1 Hn2].
        apply items_snoc; [done| |done| |done|done].
        - intros Hin. apply (Hd _ Hin). by left.
        - intros ->. apply Hn2. by left. }
      destruct (N.eqb_spec (first q) NULL) as [E0|]; [|done]. rewrite E0 in H1.
      destruct xs as [|[a w] xs]; destruct x; cbn in H1; naive_solver.
    + by rewrite last_addr_snoc.
    + done.
    + done.
    + intros a. rewrite !lookup_insert_is_Some', H5, !fmap_app. cbn.
      rewrite !elem_of_app, !list_elem_of_singleton.
      split; [intros [-> | [-> | [? | ->]]] | intros [[? | ->] | ->]]; tauto.
Qed.

(** Unlinking the first item. *)
Lemma pop_rel h q a v xs :
  rel h q ((a, v) :: xs) -> Z.of_nat (length xs) + 1 < 2 ^ 32 ->
  exists h' q', pop h q = Some (h', q', v) /\ rel h' q' xs.
Proof.
  intros [H1 H2 H3 H4 H5] Hlen. destruct H1 as (Ef&Hn&nx&Ea&Hc).
  rewrite fmap_cons in H4, H5. apply NoDup_cons in H4 as [Hna Hnd]. cbn in Hna.
  assert (u32 (elements q - 1) = Z.of_nat (length xs)) as Ec.
  { rewrite H3. cbn [length]. rewrite u32_small by lia. lia. }
  unfold pop. rewrite Ef. destruct (N.eqb_spec a NULL); [done|]. rewrite Ea. cbn.
  destruct xs as [|[b w] xs].
  - cbn in Hc. subst nx. cbn. eexists _, _. split; [done|]. split; cbn; try done.
    intros c. rewrite lookup_delete_is_Some, H5, elem_of_cons. cbn. split; [|by intros ?%elem_of_nil].
    intros [Hac [->|?]]; done.
  - destruct Hc as (->&Hnb&nx'&Eb&Hc). destruct (N.eqb_spec b NULL); [done|]. rewrite Eb. cbn.
    apply NoDup_cons in Hnd as Hnd'. destruct Hnd' as [Hnb' _]. cbn in Hnb'.
    rewrite fmap_cons in Hna. apply not_elem_of_cons in Hna as [Hab Hna]. cbn in Hab.
    eexists _, _. split; [done|]. split; cbn [first last elements]; try done.
    + split; [done|]. split; [done|]. exists nx'.
      rewrite lookup_delete_ne, lookup_insert_eq by done. split; [done|].
      eapply items_ext; [|exact Hc]. intros c Hcin.
      rewrite lookup_delete_ne, lookup_insert_ne by (intros ->; done). done.
    + intros c. rewrite lookup_delete_is_Some, lookup_insert_is_Some', H5, fmap_cons, !elem_of_cons. cbn.
      split; [intros [? [-> | [-> | ?]]]; tauto|intros [-> | Hin]; [tauto|]].
      split; [intros ->; done|tauto].
Qed.

Lemma pop_empty h q : rel h q [] -> pop h q = Some (h, q, NULL).
Proof. intros [H1 _ _ _ _]. cbn in H1. unfold pop. by rewrite H1. Qed.

(** Iterating from the first item. *)
Fixpoint iterate (n : nat) (h : heap) (current : N) : option (list N) :=
  match n with
  | O => if N.eqb current NULL then Some [] else None
  | S n => v ← iterator_value h current; nx ← iterator_next h current; vs ← iterate n h nx; Some (v :: vs)
  end.

Lemma iterate_items h prev p xs : items h prev p xs -> iterate (length xs) h p = Some xs.*2.
Proof.
  revert prev p. induction xs as [|[a v] xs IH]; intros prev p; cbn.
  - by intros ->.
  - intros (->&_&nx&E&Hc). unfold iterator_value, iterator_next. rewrite E. cbn. by rewrite (IH a nx Hc).
Qed.

(** ** Sequences of operations *)

Inductive op : Type := Push (new_item v : N) | Pop.

Fixpoint run (ops : list op) (h : heap) (q : Queue) : option (heap * Queue * list N) :=
  match ops with
  | [] => Some (h, q, [])
  | Push n v :: ops => '(h, q) ← push_back n h q v; run ops h q
  | Pop :: ops => '(h, q, v) ← pop h q; '(h, q, vs) ← run ops h q; Some (h, q, v :: vs)
  end.

(** The specification: items waiting (address and payload) and payloads
    popped; a failing allocation has no result. *)
Fixpoint fifo (ops : list op) (ws : list (N * N)) : option (list (N * N) * list N) :=
  match ops with
  | [] => Some (ws, [])
  | Push n v :: ops => if N.eqb n NULL then None else fifo ops (ws ++ [(n, v)])
  | Pop :: ops =>
      match ws with
      | [] => '(ws, vs) ← fifo ops []; Some (ws, NULL :: vs)
      | w :: ws => '(ws, vs) ← fifo ops ws; Some (ws, snd w :: vs)
      end
  end.

(** What an allocator promises: null, or an address that is not in use.  The
    address of a popped item may be used again. *)
Fixpoint placed (ops : list op) (ws : list (N * N)) : Prop :=
  match ops with
  | [] => True
  | Push n v :: ops => (n = NULL \/ n ∉ ws.*1) /\ placed ops (ws ++ [(n, v)])
  | Pop :: ops => placed ops (tail ws)
  end.

Lemma run_fifo ops h q xs :
  rel h q xs -> placed ops xs -> Z.of_nat (length xs + length ops) < 2 ^ 32 ->
  match fifo ops xs with
  | Some (xs', vs) => exists h' q', run ops h q = Some (h', q', vs) /\ rel h' q' xs'
  | None => run ops h q = None
  end.
Proof.
  revert h q xs. induction ops as [|o ops IH]; intros h q xs Hr Hp Hl; [by exists h, q|].
  destruct o as [n v|]; cbn [run fifo placed] in *; cbn [length] in Hl.
  - destruct Hp as [Hn Hp]. destruct (N.eqb_spec n NULL) as [->|Hn0].
    { unfold push_back. done. }
    destruct Hn as [?|Hn]; [done|].
    destruct (push_back_rel h q xs n v Hr) as (h1&q1&E&H1); [done| |lia|].
    { apply eq_None_not_Some. by intros Hs%Hr. }
    rewrite E. cbn [mbind option_bind]. apply IH; [done|done|]. rewrite length_app. cbn [length]. lia.
  - destruct xs as [|[a v] xs].
    + rewrite (pop_empty h q Hr). cbn [mbind option_bind]. specialize (IH h q [] Hr Hp ltac:(cbn; lia)).
      destruct (fifo ops []) as [[ws vs]|]; cbn [mbind option_bind]; [|by rewrite IH].
      destruct IH as (h'&q'&->&H'). by exists h', q'.
    + destruct (pop_rel h q a v xs Hr) as (h1&q1&->&H1); [cbn in Hl; lia|]. cbn [mbind option_bind].
      specialize (IH h1 q1 xs H1 Hp ltac:(cbn in Hl; lia)).
      destruct (fifo ops xs) as [[ws vs]|]; cbn [mbind option_bind]; [|by rewrite IH].
      destruct IH as (h'&q'&->&H'). by exists h', q'.
Qed.

(** C38: any sequence of fewer than 2^32 calls of push_back and pop on a new
    queue, with an allocator that gives null or an address not in use (that of
    a popped item may come again), behaves as a FIFO: payloads come out in the
    order they went in, a pop of an empty queue gives null, the count and
    is_empty are right, iteration visits the waiting payloads in order, and the
    heap holds exactly the items that wait, so that each item is freed by its
    pop and none is leaked.  It fails exactly when an allocation fails: push_back
    then writes to a null pointer. *)
Theorem queue_is_fifo ops :
  placed ops [] -> Z.of_nat (length ops) < 2 ^ 32 ->
  match fifo ops [] with
  | Some (waiting, popped) =>
      exists h q, run ops ∅ new_queue = Some (h, q, popped) /\ rel h q waiting /\
        elements q = Z.of_nat (length waiting) /\
        is_empty q = Some (bool_decide (waiting = [])) /\
        iterate (length waiting) h (new_iterator q) = Some waiting.*2
  | None => run ops ∅ new_queue = None
  end.
Proof.
  intros H1 H2. pose proof (run_fifo ops ∅ new_queue []) as H.
  destruct (fifo ops []) as [[xs vs]|]; [destruct H as (h&q&E&Hr)|apply H]; try done; try (cbn; lia).
  2: exists h, q; split; [done|]; split; [done|]; split; [apply Hr|]; split; [|by eapply iterate_items, Hr].
  1, 3: split; cbn; try done; [constructor|]; intros a; rewrite lookup_empty;
    split; [by intros [? ?]|by intros ?%elem_of_nil].
  unfold is_empty. rewrite (rel_count _ _ _ Hr). pose proof (rel_items _ _ _ Hr) as Hi.
  destruct xs as [|[a v] xs]; cbn in Hi |- *; [done|]. destruct Hi as (->&Hn&_).
  destruct (N.eqb_spec a NULL); [done|]. done.
Qed.

(** The address 10 is used twice; and an allocation fails. *)
Lemma queue_is_fifo_witness :
  (exists h q, run [Push 10 1; Push 11 2; Pop; Push 10 3] ∅ new_queue = Some (h, q, [1]%N) /\
    iterate 2 h (new_iterator q) = Some [2; 3]%N) /\
  run [Push 10 1; Push NULL 2] ∅ new_queue = None.
Proof.
  split.
  - destruct (queue_is_fifo [Push 10 1; Push 11 2; Pop; Push 10 3]) as (h&q&E&_&_&_&I).
    + cbn. set_solver.
    + cbn. lia.
    + exists h, q. split; [exact E|exact I].
  - apply (queue_is_fifo [Push 10 1; Push NULL 2]); [cbn; set_solver|cbn; lia].
Defined.

(** empty frees the items but leaves [first] and [last] pointing at them: on
    an emptied queue, iteration, pop and push_back all access freed memory. *)
Theorem emptied_queue_dangles :
  exists h q h' q',
    push_back 10 ∅ new_queue 7 = Some (h, q) /\ empty 2 h q = Some (h', q') /\ h' = ∅ /\
    is_empty q' = Some true /\
    push_back 11 h' q' 8 = None /\ pop h' q' = None /\ iterator_value h' (new_iterator q') = None.
Proof. eexists _, _, _, _. do 6 (split; [vm_compute; reflexivity|]). vm_compute. reflexivity. Qed.
End ProfileQueue.
