(* ===== verification/HashFilo.v ===== *)
(** * The hash cache of include/mysql/server/private/hash_filo.h

    [hash_filo] is a hash table of bounded size whose entries are also chained
    in the order of their last use; when the table is full, [add] throws the
    entry away that was not used for the longest time.  The entries live in a
    heap: [heap st !! e] holds the members [next_used] and [prev_used] of the
    entry [e], and an entry that has been freed has no members any more, so
    using it has no result.

    The hash table itself (the my_hash functions) is implemented outside the headers.  It
    is the class [MyHash]; [MyHashLaws] states its documented behaviour, and
    [list_hash] at the end of the file is a table that has it. *)

From Stdlib Require Import ZArith Lia.
From stdpp Require Import prelude gmap.
From S2P Require Import Prelude Links.
Local Open Scope Z_scope.

Module HashFilo.

(** ** The hash table

    [key] is the type of keys, as they are passed to [my_hash_search].  An
    operation that calls the table's free function returns the entries it
    called it for. *)
Class MyHash (key : Type) := {
  HASH : Type;
  bzero : HASH;
  records : HASH -> Z;
  has_buffer : HASH -> bool;
  my_hash_init : HASH -> Z -> bool -> HASH;
  my_hash_free : HASH -> list N * HASH;
  my_hash_search : HASH -> key -> N;
  my_hash_insert : HASH -> N -> bool * HASH;
  my_hash_delete : HASH -> N -> bool * list N * HASH
}.

(** ** The class *)

Record hash_filo_element := mk_element { next_used : N; prev_used : N }.

(** [lock]: [None] before the mutex is initialised, else whether this thread
    holds it.  [free_element] tells whether a free function was given. *)
Record hash_filo {H : Type} := mk_filo {
  m_size : Z;
  free_element : bool;
  init : bool;
  first_link : N;
  last_link : N;
  lock : option bool;
  cache : H;
  heap : gmap N hash_filo_element
}.
Arguments hash_filo : clear implicits.
Arguments mk_filo {H}.

Section operations.
Context {key : Type} {T : MyHash key}.

Notation filo := (hash_filo HASH).

Definition set_m_size (st : filo) (n : Z) : filo :=
  mk_filo n (free_element st) (init st) (first_link st) (last_link st) (lock st) (cache st) (heap st).
Definition set_init (st : filo) (b : bool) : filo :=
  mk_filo (m_size st) (free_element st) b (first_link st) (last_link st) (lock st) (cache st) (heap st).
Definition set_first (st : filo) (e : N) : filo :=
  mk_filo (m_size st) (free_element st) (init st) e (last_link st) (lock st) (cache st) (heap st).
Definition set_last (st : filo) (e : N) : filo :=
  mk_filo (m_size st) (free_element st) (init st) (first_link st) e (lock st) (cache st) (heap st).
Definition set_lock (st : filo) (l : option bool) : filo :=
  mk_filo (m_size st) (free_element st) (init st) (first_link st) (last_link st) l (cache st) (heap st).
Definition set_cache (st : filo) (h : HASH) : filo :=
  mk_filo (m_size st) (free_element st) (init st) (first_link st) (last_link st) (lock st) h (heap st).
Definition set_heap (st : filo) (h : gmap N hash_filo_element) : filo :=
  mk_filo (m_size st) (free_element st) (init st) (first_link st) (last_link st) (lock st) (cache st) h.

(** *** Mutexes and memory *)

Definition mysql_mutex_init (st : filo) : filo := set_lock st (Some false).

Definition mysql_mutex_lock (st : filo) : option filo :=
  match lock st with Some false => Some (set_lock st (Some true)) | _ => None end.

Definition mysql_mutex_unlock (st : filo) : option filo :=
  match lock st with Some true => Some (set_lock st (Some false)) | _ => None end.

Definition mysql_mutex_destroy (st : filo) : option filo :=
  match lock st with Some false => Some (set_lock st None) | _ => None end.

Definition mysql_mutex_assert_owner (st : filo) : option unit :=
  match lock st with Some true => Some () | _ => None end.

(** The free function applied to one entry after the other. *)
Definition free (st : filo) (e : N) : option filo :=
  _ ← heap st !! e; Some (set_heap st (delete e (heap st))).

Fixpoint free_all (st : filo) (es : list N) : option filo :=
  match es with
  | [] => Some st
  | e :: es => st ← free st e; free_all st es
  end.

(** *** The members of an entry *)

Definition next (st : filo) (e : N) : option N := next_used <$> heap st !! e.
Definition prev (st : filo) (e : N) : option N := prev_used <$> heap st !! e.

Definition set_next (st : filo) (e n : N) : option filo :=
  x ← heap st !! e; Some (set_heap st (<[e := mk_element n (prev_used x)]> (heap st))).
Definition set_prev (st : filo) (e p : N) : option filo :=
  x ← heap st !! e; Some (set_heap st (<[e := mk_element (next_used x) p]> (heap st))).

(** *** The methods *)

Definition construct (size_arg : Z) (free_element_arg : bool)
    (h : gmap N hash_filo_element) : filo :=
  mk_filo size_arg free_element_arg false NULL NULL None bzero h.

Definition destroy (st : filo) : option filo :=
  if init st then
    st ← (if has_buffer (cache st)
          then let '(fr, h) := my_hash_free (cache st) in free_all (set_cache st h) fr
          else Some st);
    mysql_mutex_destroy st
  else Some st.

Definition clear (st : filo) (locked : bool) : option filo :=
  let st := if negb (init st) then mysql_mutex_init (set_init st true) else st in
  st ← (if negb locked then mysql_mutex_lock st else Some st);
  let st := set_last (set_first st NULL) NULL in
  let '(fr, h) := my_hash_free (cache st) in
  st ← free_all (set_cache st h) fr;
  let st := set_cache st (my_hash_init (cache st) (m_size st) (free_element st)) in
  if negb locked then mysql_mutex_unlock st else Some st.

Definition first (st : filo) : option N :=
  _ ← mysql_mutex_assert_owner st; Some (first_link st).

Definition last (st : filo) : option N :=
  _ ← mysql_mutex_assert_owner st; Some (last_link st).

(** The step of [search] that takes the found entry out of the used-chain. *)
Definition relink (st : filo) (entry : N) : option filo :=
  if bool_decide (entry = last_link st) then
    p ← prev st (last_link st);
    let st := set_last st p in
    if bool_decide (last_link st = NULL) then None else
    set_next st (last_link st) NULL
  else
    n ← next st entry;
    p ← prev st entry;
    if bool_decide (n = NULL) || bool_decide (p = NULL) then None else
    st ← set_prev st n p;
    set_next st p n.

Definition search (st : filo) (k : key) : option (N * filo) :=
  _ ← mysql_mutex_assert_owner st;
  let entry := my_hash_search (cache st) k in
  if bool_decide (entry <> NULL) then
    if bool_decide (first_link st = NULL) || bool_decide (last_link st = NULL) then None else
    if bool_decide (entry <> first_link st) then
      st ← relink st entry;
      st ← set_prev st entry NULL;
      st ← set_next st entry (first_link st);
      st ← set_prev st (first_link st) entry;
      Some (entry, set_first st entry)
    else Some (entry, st)
  else Some (entry, st).

(** The steps of [add]: deleting the last entry, chaining the new one, and
    what follows the deletion. *)
Definition drop_last (st : filo) : option filo :=
  let tmp := last_link st in
  p ← prev st (last_link st);
  let st := set_last st p in
  st ← (if bool_decide (last_link st <> NULL)
        then set_next st (last_link st) NULL
        else Some (set_first st NULL));
  let '(_, fr, h) := my_hash_delete (cache st) tmp in
  free_all (set_cache st h) fr.

Definition link_first (st : filo) (entry : N) : option filo :=
  st ← set_prev st entry NULL;
  st ← set_next st entry (first_link st);
  st ← (if bool_decide (first_link st <> NULL)
        then set_prev st (first_link st) entry
        else Some (set_last st entry));
  Some (set_first st entry).

Definition insert_entry (st : filo) (entry : N) : option (bool * filo) :=
  let '(failed, h) := my_hash_insert (cache st) entry in
  let st := set_cache st h in
  if (failed : bool) then
    st ← (if free_element st then free st entry else Some st);
    Some (true, st)
  else
    st ← link_first st entry;
    Some (false, st).

Definition add (st : filo) (entry : N) : option (bool * filo) :=
  if m_size st =? 0 then Some (true, st) else
  st ← (if records (cache st) =? m_size st then drop_last st else Some st);
  insert_entry st entry.

Definition size (st : filo) : Z := m_size st.

Definition resize (st : filo) (new_size : Z) : option filo :=
  st ← mysql_mutex_lock st;
  let st := set_m_size st new_size in
  st ← clear st true;
  mysql_mutex_unlock st.

End operations.

(** ** What the hash table promises

    [contents h] are the entries of the table, [frees h] whether it was
    initialised with a free function.  [keyof] is the key of an entry and
    [same] the comparison of keys in the table's character set.  Tables are
    initialised without HASH_UNIQUE: entries with the same key are accepted,
    and an insertion fails only when there is no memory. *)
Class MyHashLaws {key : Type} (T : MyHash key) (keyof : N -> key) (same : key -> key -> bool) := {
  contents : HASH -> list N;
  frees : HASH -> bool;
  records_spec h : Z.of_nat (length (contents h)) < 2 ^ 32 -> records h = Z.of_nat (length (contents h));
  bzero_spec : contents bzero = [];
  has_buffer_spec h : has_buffer h = false -> contents h = [];
  init_spec h n b : contents h = [] ->
    contents (my_hash_init h n b) = [] /\ frees (my_hash_init h n b) = b;
  free_spec h fr h' : my_hash_free h = (fr, h') ->
    fr ≡ₚ (if frees h then contents h else []) /\ contents h' = [];
  search_hit h k : my_hash_search h k <> NULL ->
    my_hash_search h k ∈ contents h /\ same (keyof (my_hash_search h k)) k = true;
  search_miss h k : my_hash_search h k = NULL ->
    forall e, e ∈ contents h -> e <> NULL -> same (keyof e) k = false;
  insert_spec h e b h' : my_hash_insert h e = (b, h') ->
    frees h' = frees h /\
    if b then contents h' ≡ₚ contents h else contents h' ≡ₚ e :: contents h;
  delete_spec h e b fr h' : e ∈ contents h -> my_hash_delete h e = (b, fr, h') ->
    b = false /\ fr = (if frees h then [e] else []) /\ frees h' = frees h /\
    contents h ≡ₚ e :: contents h'
}.

(** ** The abstract cache

    A capacity, the entries with the most recently used first, and the entries
    outside the cache that are still allocated. *)
Record lru := mk_lru { capacity : Z; used : list N; outside : list N }.

Inductive command (key : Type) :=
  | Search (k : key)
  | Add (e : N)
  | First
  | Last
  | Clear
  | Resize (n : Z).
Arguments Search {key}. Arguments Add {key}. Arguments First {key}. Arguments Last {key}.
Arguments Clear {key}. Arguments Resize {key}.

Inductive result := Entry (e : N) | Flag (b : bool) | Unit.

(** Entries the cache drops are freed, or left to the caller when it has no
    free function. *)
Definition dropped (fr : bool) (es out : list N) : list N := if fr then out else es ++ out.

Section spec.
Context {key : Type} (keyof : N -> key) (same : key -> key -> bool) (fr : bool).

Inductive lru_step : lru -> command key -> result -> lru -> Prop :=
  | lru_hit cap l1 e l2 out k : same (keyof e) k = true ->
      lru_step (mk_lru cap (l1 ++ e :: l2) out) (Search k) (Entry e) (mk_lru cap (e :: l1 ++ l2) out)
  | lru_miss cap l out k : (forall e, e ∈ l -> same (keyof e) k = false) ->
      lru_step (mk_lru cap l out) (Search k) (Entry NULL) (mk_lru cap l out)
  | lru_add cap l out e : Z.of_nat (length l) < cap ->
      lru_step (mk_lru cap l out) (Add e) (Flag false) (mk_lru cap (e :: l) out)
  | lru_evict cap l z out e : Z.of_nat (length (l ++ [z])) = cap ->
      lru_step (mk_lru cap (l ++ [z]) out) (Add e) (Flag false)
        (mk_lru cap (e :: l) (dropped fr [z] out))
  | lru_nomem cap l out e : Z.of_nat (length l) < cap ->
      lru_step (mk_lru cap l out) (Add e) (Flag true) (mk_lru cap l (dropped fr [e] out))
  | lru_evict_nomem cap l z out e : Z.of_nat (length (l ++ [z])) = cap ->
      lru_step (mk_lru cap (l ++ [z]) out) (Add e) (Flag true)
        (mk_lru cap l (dropped fr [e] (dropped fr [z] out)))
  | lru_add_zero l out e :
      lru_step (mk_lru 0 l out) (Add e) (Flag true) (mk_lru 0 l (e :: out))
  | lru_first cap l out :
      lru_step (mk_lru cap l out) First (Entry (hd NULL l)) (mk_lru cap l out)
  | lru_last cap l out :
      lru_step (mk_lru cap l out) Last (Entry (List.last l NULL)) (mk_lru cap l out)
  | lru_clear cap l out :
      lru_step (mk_lru cap l out) Clear Unit (mk_lru cap [] (dropped fr l out))
  | lru_resize cap l out n :
      lru_step (mk_lru cap l out) (Resize n) Unit (mk_lru n [] (dropped fr l out)).

Inductive lru_steps : lru -> list (command key) -> list result -> lru -> Prop :=
  | lru_done a : lru_steps a [] [] a
  | lru_next a c r b cs rs d : lru_step a c r b -> lru_steps b cs rs d ->
      lru_steps a (c :: cs) (r :: rs) d.
End spec.

(** ** Running commands

    [Search], [Add], [First] and [Last] are called with the mutex held, as the
    host name cache does; [Add] is given an entry that was just allocated. *)
Section run.
Context {key : Type} {T : MyHash key}.

Definition with_lock {A} (st : hash_filo HASH)
    (f : hash_filo HASH -> option (A * hash_filo HASH)) : option (A * hash_filo HASH) :=
  st ← mysql_mutex_lock st; '(r, st) ← f st; st ← mysql_mutex_unlock st; Some (r, st).

Definition allocate (st : hash_filo HASH) (e : N) : option (hash_filo HASH) :=
  if bool_decide (e = NULL) then None else
  match heap st !! e with
  | Some _ => None
  | None => Some (set_heap st (<[e := mk_element NULL NULL]> (heap st)))
  end.

Definition exec (st : hash_filo HASH) (c : command key) : option (result * hash_filo HASH) :=
  match c with
  | Search k => with_lock st (fun st => '(e, st) ← search st k; Some (Entry e, st))
  | Add e => st ← allocate st e;
      with_lock st (fun st => '(b, st) ← add st e; Some (Flag b, st))
  | First => with_lock st (fun st => e ← first st; Some (Entry e, st))
  | Last => with_lock st (fun st => e ← last st; Some (Entry e, st))
  | Clear => st ← clear st false; Some (Unit, st)
  | Resize n => st ← resize st n; Some (Unit, st)
  end.

Fixpoint run (st : hash_filo HASH) (cs : list (command key))
    : option (list result * hash_filo HASH) :=
  match cs with
  | [] => Some ([], st)
  | c :: cs => '(r, st) ← exec st c; '(rs, st) ← run st cs; Some (r :: rs, st)
  end.

(** The caller's duties: a new entry has a fresh address, a size is a uint. *)
Definition allowed (st : hash_filo HASH) (c : command key) : Prop :=
  match c with
  | Add e => e <> NULL /\ heap st !! e = None
  | Resize n => urange 32 n
  | _ => True
  end.

Fixpoint all_allowed (st : hash_filo HASH) (cs : list (command key)) : Prop :=
  match cs with
  | [] => True
  | c :: cs => allowed st c /\ forall r st', exec st c = Some (r, st') -> all_allowed st' cs
  end.
End run.

(** ** Chains

    [dseg h p l n]: the entries [l] are linked in both directions; the one
    before them is [p], the one after them [n]. *)
Fixpoint dseg (h : gmap N hash_filo_element) (p : N) (l : list N) (n : N) : Prop :=
  match l with
  | [] => True
  | e :: l => h !! e = Some (mk_element (hd n l) p) /\ dseg h e l n
  end.

Lemma dseg_split h p l1 l2 n :
  dseg h p (l1 ++ l2) n <-> dseg h p l1 (hd n l2) /\ dseg h (List.last l1 p) l2 n.
Proof.
  revert p. induction l1 as [|e l1 IH]; intros p; [naive_solver|].
  cbn [app dseg]. rewrite IH.
  replace (hd n (l1 ++ l2)) with (hd (hd n l2) l1) by (by destruct l1).
  rewrite last_shift. tauto.
Qed.

Lemma dseg_frame h h' p l n :
  (forall e, e ∈ l -> h' !! e = h !! e) -> dseg h p l n -> dseg h' p l n.
Proof.
  revert p. induction l as [|e l IH]; intros p Hh; [done|]. intros [He Hl]. split.
  - rewrite Hh by set_solver. done.
  - apply IH; [set_solver|done].
Qed.

Lemma dseg_insert h p l n e x : e ∉ l -> dseg h p l n -> dseg (<[e := x]> h) p l n.
Proof. intros He. apply dseg_frame. intros e' He'. rewrite lookup_insert_ne; [done|set_solver]. Qed.

Lemma dseg_delete h p l n e : e ∉ l -> dseg h p l n -> dseg (delete e h) p l n.
Proof. intros He. apply dseg_frame. intros e' He'. rewrite lookup_delete_ne; [done|set_solver]. Qed.

(** The entry after a chain, and the entry before it, replaced. *)
Lemma dseg_set_last h p l z n n' :
  z ∉ l -> dseg h p (l ++ [z]) n ->
  dseg (<[z := mk_element n' (List.last l p)]> h) p (l ++ [z]) n'.
Proof.
  intros Hz [H1 H2]%dseg_split. apply dseg_split. split; [by apply dseg_insert|].
  split; [|done]. by rewrite lookup_insert_eq.
Qed.

Lemma dseg_set_first h p p' z l n :
  z ∉ l -> dseg h p (z :: l) n -> dseg (<[z := mk_element (hd n l) p']> h) p' (z :: l) n.
Proof. intros Hz [_ H2]. split; [by rewrite lookup_insert_eq|by apply dseg_insert]. Qed.

Lemma dseg_last h p l z n : dseg h p (l ++ [z]) n -> h !! z = Some (mk_element n (List.last l p)).
Proof. intros [_ [H _]]%dseg_split. done. Qed.

(** A new entry in front of a chain. *)
Lemma dseg_push h z l e x :
  e ∉ z :: l -> z ∉ l -> dseg h NULL (z :: l) NULL ->
  dseg (<[z := mk_element (hd NULL l) e]> (<[e := mk_element z x]> h)) e (z :: l) NULL.
Proof. intros He Hz H. apply (dseg_set_first _ NULL); [done|]. by apply dseg_insert. Qed.

(** An entry in the middle of a chain taken out. *)
Lemma dseg_unlink h l0 a e b l2 :
  NoDup (l0 ++ a :: e :: b :: l2) -> dseg h NULL (l0 ++ a :: e :: b :: l2) NULL ->
  h !! e = Some (mk_element b a) /\
  exists nb pa, h !! b = Some (mk_element nb e) /\ h !! a = Some (mk_element e pa) /\
  dseg (<[a := mk_element b pa]> (<[b := mk_element nb a]> h)) NULL (l0 ++ a :: b :: l2) NULL.
Proof.
  intros Hnd H. replace (l0 ++ a :: e :: b :: l2) with ((l0 ++ [a]) ++ e :: b :: l2) in H
    by (by rewrite <- app_assoc).
  apply dseg_split in H as [H1 [He H2]]. rewrite List.last_last in He. cbn [hd] in *.
  apply NoDup_app in Hnd as (_ & Hnd1 & Hnd2).
  rewrite !NoDup_cons in Hnd2. destruct Hnd2 as (Ha & Hne & Hb & _).
  split; [done|]. exists (hd NULL l2), (List.last l0 NULL).
  pose proof (dseg_last _ _ _ _ _ H1) as Ea. pose proof H2 as [Eb _].
  split; [done|]. split; [done|].
  replace (l0 ++ a :: b :: l2) with ((l0 ++ [a]) ++ b :: l2) by (by rewrite <- app_assoc).
  assert (a ∉ l0 /\ b ∉ l0) as [Ha0 Hb0] by set_solver.
  apply dseg_split. cbn [hd]. rewrite List.last_last. split.
  - eapply dseg_set_last; [done|]. apply dseg_insert; [set_solver|exact H1].
  - apply dseg_insert; [set_solver|]. by eapply dseg_set_first.
Qed.

(** ** The methods implement the abstract cache *)
Section refinement.
Context {key : Type} {T : MyHash key} {keyof : N -> key} {same : key -> key -> bool}.
Context {L : MyHashLaws T keyof same} (owner : bool).

(** [held]: whether the mutex is held. *)
Record rep (held : bool) (st : hash_filo HASH) (a : lru) : Prop := mk_rep {
  rep_size : m_size st = capacity a;
  rep_capacity : urange 32 (capacity a);
  rep_bound : Z.of_nat (length (used a)) <= capacity a;
  rep_init : init st = true;
  rep_lock : lock st = Some held;
  rep_first : first_link st = hd NULL (used a);
  rep_last : last_link st = List.last (used a) NULL;
  rep_chain : dseg (heap st) NULL (used a) NULL;
  rep_nodup : NoDup (used a ++ outside a);
  rep_null : NULL ∉ used a ++ outside a;
  rep_contents : contents (cache st) ≡ₚ used a;
  rep_frees : frees (cache st) = free_element st;
  rep_heap e : is_Some (heap st !! e) <-> e ∈ used a ++ outside a;
  rep_free : free_element st = owner
}.

Lemma is_Some_insert (h : gmap N hash_filo_element) (e e' : N) x y :
  h !! e = Some y -> is_Some (<[e := x]> h !! e') <-> is_Some (h !! e').
Proof.
  intros He. destruct (decide (e = e')) as [<-|].
  - rewrite lookup_insert_eq, He. split; eauto.
  - by rewrite lookup_insert_ne.
Qed.

Lemma set_next_ok (st : hash_filo HASH) e n n' p :
  heap st !! e = Some (mk_element n' p) ->
  set_next st e n = Some (set_heap st (<[e := mk_element n p]> (heap st))).
Proof. unfold set_next. by intros ->. Qed.

Lemma set_prev_ok (st : hash_filo HASH) e n p p' :
  heap st !! e = Some (mk_element n p') ->
  set_prev st e p = Some (set_heap st (<[e := mk_element n p]> (heap st))).
Proof. unfold set_prev. by intros ->. Qed.

(** The same entries in another order. *)
Lemma rep_reorder held st cap l l' out h f z :
  rep held st (mk_lru cap l out) -> l' ≡ₚ l ->
  (forall e, is_Some (h !! e) <-> is_Some (heap st !! e)) ->
  dseg h NULL l' NULL -> f = hd NULL l' -> z = List.last l' NULL ->
  rep held (set_heap (set_last (set_first st f) z) h) (mk_lru cap l' out).
Proof.
  intros [Hs Hc Hb Hi Hl Hf Hz Hch Hnd Hnull Hcon Hfr Hh] Hp Hdom Hch' -> ->.
  split; simpl in *; try done.
  - by rewrite Hp.
  - by rewrite Hp.
  - by rewrite Hp.
  - by rewrite Hp.
  - intros e. by rewrite Hdom, Hh, Hp.
Qed.

Lemma relink_ok st cap l1 e l2 out :
  rep true st (mk_lru cap (l1 ++ e :: l2) out) -> l1 <> [] ->
  exists h z,
    relink st e = Some (set_heap (set_last st z) h) /\
    z = List.last (l1 ++ l2) NULL /\ dseg h NULL (l1 ++ l2) NULL /\
    (forall x, is_Some (h !! x) <-> is_Some (heap st !! x)) /\ is_Some (h !! e).
Proof.
  intros Hrep Hl1. unfold relink. destruct Hrep as [_ _ _ _ _ _ Hz Hch Hnd Hnull _ _ _]. simpl in *.
  apply NoDup_app in Hnd as [Hnd _].
  destruct (exists_last Hl1) as (l0 & a & ->). rewrite <- app_assoc in *. cbn [app] in *.
  destruct l2 as [|b l2].
  - replace (l0 ++ [a; e]) with ((l0 ++ [a]) ++ [e]) in * by (by rewrite <- app_assoc).
    rewrite List.last_last in Hz.
    pose proof (dseg_last _ _ _ _ _ Hch) as He. rewrite List.last_last in He.
    apply dseg_split in Hch as [H1 _]. cbn [hd] in H1. pose proof (dseg_last _ _ _ _ _ H1) as Ha.
    rewrite bool_decide_eq_true_2, Hz by done. unfold prev. rewrite He.
    cbn [fmap option_fmap option_map prev_used mbind option_bind set_last last_link].
    rewrite bool_decide_eq_false_2 by set_solver.
    erewrite set_next_ok by (simpl; exact Ha). eexists _, a. split; [reflexivity|].
    apply NoDup_app in Hnd as (Hnd & Hnde & _).
    apply NoDup_app in Hnd as (_ & Hnda & _).
    rewrite List.last_last. split; [done|]. split; [|split].
    + cbn [heap set_last]. eapply dseg_set_last; [set_solver|exact H1].
    + intros x. simpl. by eapply is_Some_insert.
    + simpl. rewrite (is_Some_insert _ _ _ _ _ Ha). eauto.
  - destruct (dseg_unlink _ _ _ _ _ _ Hnd Hch) as (He & nb & pa & Hb & Ha & Hseg).
    assert (a <> b /\ a <> e /\ b <> e) as (Hab & Hae & Hbe)
      by (apply NoDup_app in Hnd as (_ & _ & Hnd); rewrite !NoDup_cons in Hnd; set_solver).
    assert (last_link st = List.last (b :: l2) NULL) as Hz'
      by (rewrite Hz; change (l0 ++ a :: e :: b :: l2) with (l0 ++ [a; e] ++ b :: l2);
          by rewrite !last_app_r by done).
    assert (e <> last_link st) as Hez.
    { intros E. pose proof (last_elem b l2 NULL) as Hin. rewrite <- Hz', <- E in Hin.
      apply NoDup_app in Hnd as (_ & _ & Hnd). rewrite !NoDup_cons in Hnd. by destruct Hnd as (_ & ? & _). }
    rewrite bool_decide_eq_false_2 by done. unfold next, prev. rewrite He.
    cbn [fmap option_fmap option_map prev_used next_used mbind option_bind].
    rewrite !bool_decide_eq_false_2 by set_solver. cbn [orb].
    erewrite set_prev_ok by exact Hb. cbn [mbind option_bind].
    erewrite set_next_ok by (simpl; rewrite lookup_insert_ne by done; exact Ha).
    exists (<[a := mk_element b pa]> (<[b := mk_element nb a]> (heap st))), (last_link st).
    split; [by destruct st|].
    assert (forall x, is_Some (<[a := mk_element b pa]> (<[b := mk_element nb a]> (heap st)) !! x) <->
      is_Some (heap st !! x)) as Hdom.
    { intros x. rewrite (is_Some_insert _ _ _ _ (mk_element e pa)) by (by rewrite lookup_insert_ne).
      by rewrite (is_Some_insert _ _ _ _ (mk_element nb e)). }
    split; [|split; [done|split; [done|rewrite Hdom; eauto]]].
    rewrite Hz'. change (a :: b :: l2) with ([a] ++ b :: l2). by rewrite !last_app_r.
Qed.

Lemma search_ok st a k : rep true st a ->
  exists e st' a', search st k = Some (e, st') /\
    lru_step keyof same (free_element st) a (Search k) (Entry e) a' /\ rep true st' a'.
Proof.
  intros Hrep. destruct a as [cap l out]. unfold search, mysql_mutex_assert_owner.
  rewrite (rep_lock _ _ _ Hrep). cbn [mbind option_bind].
  case_bool_decide as He.
  2:{ exists NULL, st, (mk_lru cap l out). destruct (decide (my_hash_search (cache st) k = NULL)) as [E|]; [|done].
      rewrite E. split; [done|]. split; [|done]. constructor. intros e Hin.
      pose proof (rep_null _ _ _ Hrep) as Hnull. cbn [used outside] in Hnull.
      eapply search_miss; [done|by rewrite (rep_contents _ _ _ Hrep)|set_solver]. }
  destruct (search_hit _ _ He) as [Hin Hsame]. rewrite (rep_contents _ _ _ Hrep) in Hin.
  set (e := my_hash_search (cache st) k) in *. clearbody e. cbn [used] in Hin.
  apply list_elem_of_split in Hin as (l1 & l2 & ->).
  pose proof (rep_null _ _ _ Hrep) as Hnull. pose proof (rep_nodup _ _ _ Hrep) as Hnd. cbn [used outside] in *.
  assert (first_link st <> NULL /\ last_link st <> NULL) as [Hfn Hln].
  { rewrite (rep_first _ _ _ Hrep), (rep_last _ _ _ Hrep). cbn [used]. rewrite last_app_r by done.
    rewrite !elem_of_app in Hnull. split.
    - destruct l1; cbn [app hd]; [done|]. set_solver.
    - intros E. pose proof (last_elem e l2 NULL) as Hl. rewrite E in Hl. tauto. }
  rewrite (bool_decide_eq_false_2 _ Hfn), (bool_decide_eq_false_2 _ Hln). cbn [orb].
  exists e. destruct (decide (l1 = [])) as [->|Hl1].
  { rewrite bool_decide_eq_false_2 by (rewrite (rep_first _ _ _ Hrep); naive_solver).
    eexists _, _. split; [reflexivity|]. split; [|done]. by apply (lru_hit _ _ _ _ []). }
  destruct l1 as [|f l1]; [done|]. pose proof (rep_first _ _ _ Hrep) as Hf. cbn [used hd app] in Hf.
  assert (f <> e /\ e ∉ (f :: l1) ++ l2 /\ f ∉ l1 ++ l2) as (Hfe & Hel & Hfl).
  { apply NoDup_app in Hnd as [Hnd _]. cbn [app] in Hnd. rewrite NoDup_cons, NoDup_app, NoDup_cons in Hnd.
    set_solver. }
  rewrite bool_decide_eq_true_2 by congruence.
  destruct (relink_ok _ _ _ _ _ _ Hrep Hl1) as (h & z & -> & Hz & Hseg & Hdom & [[en ep] Hhe]).
  cbn [mbind option_bind]. erewrite set_prev_ok by exact Hhe. cbn [mbind option_bind].
  erewrite set_next_ok by (simpl; by rewrite lookup_insert_eq). cbn [mbind option_bind].
  cbn [first_link set_heap set_last heap]. rewrite insert_insert_eq, Hf.
  pose proof (proj1 Hseg) as Hhf.
  erewrite set_prev_ok by (simpl; rewrite lookup_insert_ne by done; exact Hhf).
  cbn [mbind option_bind]. eexists _, (mk_lru cap (e :: (f :: l1) ++ l2) out).
  split; [reflexivity|]. split; [by constructor|].
  refine (rep_reorder _ _ _ _ (e :: (f :: l1) ++ l2) _
    (<[f := mk_element (hd NULL (l1 ++ l2)) e]> (<[e := mk_element f NULL]> h)) e z Hrep _ _ _ _ _).
  - by rewrite Permutation_middle.
  - intros x. rewrite (is_Some_insert _ _ _ _ (mk_element (hd NULL (l1 ++ l2)) NULL)) by (by rewrite lookup_insert_ne).
    rewrite (is_Some_insert _ _ _ _ _ Hhe). apply Hdom.
  - split; [by rewrite lookup_insert_ne, lookup_insert_eq|]. by apply dseg_push.
  - done.
  - rewrite Hz. cbn [app]. rewrite !last_shift. done.
Qed.

(** *** Freeing entries *)

Lemma free_all_ok es : forall st : hash_filo HASH,
  NoDup es -> (forall e, e ∈ es -> is_Some (heap st !! e)) ->
  exists h, free_all st es = Some (set_heap st h) /\
    forall e, h !! e = if decide (e ∈ es) then None else heap st !! e.
Proof.
  induction es as [|e es IH]; intros st Hnd Hin.
  - exists (heap st). split; [by destruct st|]. intros e. by rewrite decide_False by set_solver.
  - apply NoDup_cons in Hnd as [He Hnd]. destruct (Hin e ltac:(set_solver)) as [x Hx].
    destruct (IH (set_heap st (delete e (heap st)))) as (h & Hf & Hh); [done| |].
    { intros e' He'. simpl. rewrite lookup_delete_ne by set_solver. apply Hin. set_solver. }
    exists h. cbn [free_all]. unfold free. rewrite Hx. cbn [mbind option_bind]. rewrite Hf.
    split; [done|]. intros e'. rewrite Hh. simpl. destruct (decide (e = e')) as [<-|].
    + rewrite lookup_delete_eq, (decide_True (P := e ∈ e :: es)) by set_solver. by case_decide.
    + rewrite lookup_delete_ne by done. repeat case_decide; set_solver.
Qed.

Lemma rep_drop held st cap l es out fr h :
  rep held st (mk_lru cap l (es ++ out)) -> fr ≡ₚ (if free_element st then es else []) ->
  (forall e, h !! e = if decide (e ∈ fr) then None else heap st !! e) ->
  rep held (set_heap st h) (mk_lru cap l (dropped (free_element st) es out)).
Proof.
  intros Hrep Hfr Hh. unfold dropped. destruct (free_element st) eqn:E.
  - destruct Hrep as [Hs Hc Hb Hi Hl Hf Hz Hch Hnd Hnull Hcon Hfe Hhp]. simpl in *.
    assert (forall e, e ∈ fr -> e ∉ l ++ out) as Hdis.
    { intros e. rewrite Hfr. apply NoDup_app in Hnd as (_ & Hnd1 & Hnd2).
      apply NoDup_app in Hnd2 as (_ & Hnd2 & _). set_solver. }
    split; simpl; try done.
    + eapply dseg_frame; [|exact Hch]. intros e He. rewrite Hh, decide_False; [done|].
      intros Hin. apply (Hdis e Hin). set_solver.
    + apply NoDup_app in Hnd as (H1 & H2 & H3). apply NoDup_app in H3 as (_ & _ & H3).
      apply NoDup_app. set_solver.
    + set_solver.
    + intros e. rewrite Hh. case_decide as Hin.
      * split; [by intros [? [=]]|]. intros He. by destruct (Hdis e Hin).
      * rewrite Hhp. rewrite Hfr in Hin. set_solver.
  - assert (fr = []) as -> by (by apply Permutation_nil_r).
    assert (h = heap st) as -> by (apply map_eq; intros e; by rewrite Hh, decide_False by set_solver).
    by destruct st.
Qed.

Lemma rep_outside held st cap l out out' :
  out ≡ₚ out' -> rep held st (mk_lru cap l out) -> rep held st (mk_lru cap l out').
Proof.
  intros Hp [Hs Hc Hb Hi Hl Hf Hz Hch Hnd Hnull Hcon Hfe Hhp]. simpl in *.
  split; simpl; try done; [by rewrite <- Hp..|]. intros e. by rewrite <- Hp.
Qed.

(** The entries of a chain that [clear] and the destructor give up. *)
Lemma rep_freed held st cap l out fr h :
  rep held st (mk_lru cap l out) -> my_hash_free (cache st) = (fr, h) ->
  fr ≡ₚ (if free_element st then l else []) /\ contents h = [] /\
  NoDup fr /\ forall e, e ∈ fr -> is_Some (heap st !! e).
Proof.
  intros Hrep Hfree. destruct (free_spec _ _ _ Hfree) as [Hfr Hc].
  rewrite (rep_frees _ _ _ Hrep) in Hfr.
  assert (fr ≡ₚ (if free_element st then l else [])) as Hp.
  { rewrite Hfr. destruct (free_element st); [|done]. exact (rep_contents _ _ _ Hrep). }
  pose proof (rep_nodup _ _ _ Hrep) as Hnd. cbn [used outside] in Hnd. apply NoDup_app in Hnd as [Hnd _].
  split; [done|]. split; [done|]. split.
  - rewrite Hp. destruct (free_element st); [done|constructor].
  - intros e. rewrite Hp, (rep_heap _ _ _ Hrep). cbn [used outside].
    destruct (free_element st); set_solver.
Qed.

(** *** [clear] and [resize] *)

Lemma clear_locked st n cap l out :
  rep true st (mk_lru cap l out) -> urange 32 n ->
  exists st', clear (set_m_size st n) true = Some st' /\ free_element st' = free_element st /\
    rep true st' (mk_lru n [] (dropped (free_element st) l out)).
Proof.
  intros Hrep Hn. unfold clear. cbn [init set_m_size negb mbind option_bind].
  rewrite (rep_init _ _ _ Hrep). cbn [negb set_last set_first set_m_size cache].
  destruct (my_hash_free (cache st)) as [fr h] eqn:Hfree.
  destruct (rep_freed _ _ _ _ _ _ _ Hrep Hfree) as (Hp & Hc & Hnd & Hin).
  match goal with |- context [free_all ?s fr] => destruct (free_all_ok fr s Hnd Hin) as (h' & -> & Hh) end.
  cbn [mbind option_bind]. eexists. split; [reflexivity|]. split; [done|].
  destruct (init_spec h n (free_element st) Hc) as [Hc' Hfr'].
  assert (rep true (mk_filo n (free_element st) (init st) NULL NULL (lock st)
    (my_hash_init h n (free_element st)) (heap st)) (mk_lru n [] (l ++ out))) as Hrep'.
  { destruct Hrep as [? ? ? ? ? ? ? ? ? ? ? ? ?]. simpl in *. split; simpl; try done.
    - destruct Hn; lia.
    - by rewrite Hc'. }
  exact (rep_drop _ _ _ _ _ _ _ h' Hrep' Hp Hh).
Qed.

(** Without the mutex, [clear] takes and releases it. *)
Lemma clear_unlocked (st : hash_filo HASH) :
  init st = true ->
  clear st false = (st ← mysql_mutex_lock st; st ← clear st true; mysql_mutex_unlock st).
Proof.
  intros Hi. unfold clear. rewrite Hi. cbn [negb]. unfold mysql_mutex_lock.
  destruct (lock st) as [[]|]; [done| |done]. cbn [mbind option_bind set_lock init]. rewrite Hi.
  cbn [negb set_first set_last cache set_lock]. destruct (my_hash_free (cache st)) as [fr h].
  destruct (free_all _ fr); done.
Qed.

Lemma rep_set_lock b b' st a : rep b st a -> rep b' (set_lock st (Some b')) a.
Proof. intros []. by split. Qed.

Lemma locked_ok st a : rep false st a -> mysql_mutex_lock st = Some (set_lock st (Some true)).
Proof. intros Hrep. unfold mysql_mutex_lock. by rewrite (rep_lock _ _ _ Hrep). Qed.

Lemma unlocked_ok st a : rep true st a -> mysql_mutex_unlock st = Some (set_lock st (Some false)).
Proof. intros Hrep. unfold mysql_mutex_unlock. by rewrite (rep_lock _ _ _ Hrep). Qed.

(** *** [add] *)

(** Chains without their last entry. *)
Lemma shorten_ok st cap l z out :
  rep true st (mk_lru cap (l ++ [z]) out) ->
  let st1 := set_last st (List.last l NULL) in
  exists f h,
    (if bool_decide (last_link st1 <> NULL) then set_next st1 (last_link st1) NULL
     else Some (set_first st1 NULL)) = Some (set_heap (set_first st1 f) h) /\
    f = hd NULL l /\ dseg h NULL l NULL /\ forall x, is_Some (h !! x) <-> is_Some (heap st !! x).
Proof.
  intros Hrep. cbn [last_link set_last]. destruct (decide (l = [])) as [->|Hl].
  - rewrite bool_decide_eq_false_2 by (intros H; by apply H). exists NULL, (heap st). by destruct st.
  - pose proof (rep_nodup _ _ _ Hrep) as Hnd. pose proof (rep_null _ _ _ Hrep) as Hnull.
    pose proof (rep_chain _ _ _ Hrep) as [H1 _]%dseg_split. cbn [used outside hd] in *.
    destruct (exists_last Hl) as (l0 & a & ->). rewrite List.last_last.
    rewrite bool_decide_eq_true_2 by set_solver. pose proof (dseg_last _ _ _ _ _ H1) as Ea.
    exists (first_link st), (<[a := mk_element NULL (List.last l0 NULL)]> (heap st)).
    split; [by erewrite set_next_ok by (simpl; exact Ea)|].
    split; [rewrite (rep_first _ _ _ Hrep); by destruct l0|]. split.
    + eapply dseg_set_last; [|exact H1]. apply NoDup_app in Hnd as [Hnd _].
      apply NoDup_app in Hnd as [Hnd _]. apply NoDup_app in Hnd. set_solver.
    + intros x. by apply is_Some_insert with (mk_element z (List.last l0 NULL)).
Qed.

Lemma drop_last_ok st cap l z out :
  rep true st (mk_lru cap (l ++ [z]) out) ->
  exists st', drop_last st = Some st' /\ m_size st' = m_size st /\ free_element st' = free_element st /\
    rep true st' (mk_lru cap l (dropped (free_element st) [z] out)).
Proof.
  intros Hrep. unfold drop_last. pose proof (rep_last _ _ _ Hrep) as Hz. cbn [used] in Hz.
  rewrite List.last_last in Hz. pose proof (rep_chain _ _ _ Hrep) as Hch. cbn [used] in Hch.
  pose proof (dseg_last _ _ _ _ _ Hch) as Ez. unfold prev. rewrite Hz, Ez.
  cbn [fmap option_fmap option_map prev_used mbind option_bind].
  pose proof (rep_nodup _ _ _ Hrep) as Hnd. pose proof (rep_null _ _ _ Hrep) as Hnull. cbn [used outside] in *.
  destruct (shorten_ok _ _ _ _ _ Hrep) as (f & h & E & Hf & Hseg & Hdom).
  rewrite E. cbn [mbind option_bind set_heap set_first set_last cache].
  destruct (my_hash_delete (cache st) z) as [[b fr] hc] eqn:Hdel.
  assert (z ∈ contents (cache st)) as Hzc by (rewrite (rep_contents _ _ _ Hrep); set_solver).
  destruct (delete_spec _ _ _ _ _ Hzc Hdel) as (_ & Hfr & Hfe & Hcon).
  rewrite (rep_frees _ _ _ Hrep) in Hfr, Hfe. rewrite (rep_contents _ _ _ Hrep) in Hcon. cbn [used] in Hcon.
  rewrite Permutation_app_comm in Hcon. apply Permutation_cons_inv in Hcon.
  assert (NoDup fr /\ forall x, x ∈ fr -> is_Some (h !! x)) as [Hndf Hin].
  { subst fr. destruct (free_element st); [|split; [constructor|set_solver]].
    split; [by apply NoDup_singleton|]. intros x ->%list_elem_of_singleton. rewrite Hdom. eauto. }
  match goal with |- context [free_all ?s fr] => destruct (free_all_ok fr s Hndf Hin) as (h' & -> & Hh) end.
  eexists. split; [reflexivity|]. split; [done|]. split; [done|].
  assert (rep true (mk_filo (m_size st) (free_element st) (init st) f (List.last l NULL) (lock st) hc h)
    (mk_lru cap l ([z] ++ out))) as Hrep'.
  { destruct Hrep as [? ? Hb ? ? ? ? ? ? ? ? ? Hhp]. simpl in *. split; simpl; try done.
    - rewrite length_app in Hb. simpl in Hb. lia.
    - by rewrite <- (app_assoc l [z] out) in Hnd.
    - set_solver.
    - intros x. rewrite Hdom, Hhp. set_solver. }
  refine (rep_drop _ _ _ _ _ _ _ h' Hrep' _ Hh). by rewrite Hfr.
Qed.

(** The pointers between a new first entry and the old one. *)
Lemma chain_first_ok (s : hash_filo HASH) e l :
  heap s !! e = Some (mk_element (hd NULL l) NULL) -> first_link s = hd NULL l ->
  last_link s = List.last l NULL -> dseg (heap s) NULL l NULL -> NoDup (e :: l) -> NULL ∉ l ->
  exists h, (if bool_decide (first_link s <> NULL) then set_prev s (first_link s) e
             else Some (set_last s e)) = Some (set_heap (set_last s (List.last (e :: l) NULL)) h) /\
    dseg h NULL (e :: l) NULL /\ forall x, is_Some (h !! x) <-> is_Some (heap s !! x).
Proof.
  intros He Hf Hz Hch [Hel Hnd]%NoDup_cons Hnull. rewrite Hf. destruct l as [|f l]; cbn [hd] in *.
  - rewrite bool_decide_eq_false_2 by (intros H; by apply H). exists (heap s).
    split; [by destruct s|]. done.
  - assert (f <> NULL /\ e <> f) as [Hfn Hef] by set_solver. rewrite bool_decide_eq_true_2 by done.
    apply NoDup_cons in Hnd as [Hfl _]. pose proof (proj1 Hch) as Ef.
    exists (<[f := mk_element (hd NULL l) e]> (heap s)). split; [|split].
    + erewrite set_prev_ok by exact Ef. rewrite last_shift, (last_default _ e NULL), <- Hz by done.
      by destruct s.
    + split; [by rewrite lookup_insert_ne|]. by eapply dseg_set_first.
    + intros x. by eapply is_Some_insert.
Qed.

Lemma link_first_ok st cap l e out h :
  rep true st (mk_lru cap l (e :: out)) -> Z.of_nat (length l) < cap ->
  contents h ≡ₚ e :: l -> frees h = free_element st ->
  exists st', link_first (set_cache st h) e = Some st' /\ rep true st' (mk_lru cap (e :: l) out).
Proof.
  intros Hrep Hlt Hcon Hfe. unfold link_first.
  destruct (proj2 (rep_heap _ _ _ Hrep e) ltac:(simpl; set_solver)) as [[n p] He].
  pose proof (rep_nodup _ _ _ Hrep) as Hnd. pose proof (rep_null _ _ _ Hrep) as Hnull. cbn [used outside] in *.
  assert (NoDup ((e :: l) ++ out)) as Hnd' by (cbn [app]; by rewrite Permutation_middle).
  assert (NoDup (e :: l)) as Hel by (apply NoDup_app in Hnd' as [? _]; done).
  erewrite set_prev_ok by exact He. cbn [mbind option_bind].
  erewrite set_next_ok by (simpl; by rewrite lookup_insert_eq). cbn [mbind option_bind].
  match goal with |- context [bool_decide (first_link ?s <> NULL)] =>
    destruct (chain_first_ok s e l) as (h' & -> & Hseg & Hdom) end.
  - simpl. by rewrite lookup_insert_eq, (rep_first _ _ _ Hrep).
  - exact (rep_first _ _ _ Hrep).
  - exact (rep_last _ _ _ Hrep).
  - simpl. apply NoDup_cons in Hel as [Hel _]. do 2 (apply dseg_insert; [done|]). exact (rep_chain _ _ _ Hrep).
  - done.
  - set_solver.
  - cbn [mbind option_bind]. eexists. split; [reflexivity|].
    destruct Hrep as [? ? Hb ? ? ? ? ? ? ? ? ? Hhp]. simpl in *. split; simpl; try done.
    + lia.
    + set_solver.
    + intros x. rewrite Hdom, (is_Some_insert _ _ _ _ (mk_element n NULL)) by (by rewrite lookup_insert_eq).
      rewrite (is_Some_insert _ _ _ _ _ He), Hhp. set_solver.
Qed.

(** The step of [add] after the eviction: [dropped] when there is no memory. *)
Lemma insert_ok (st : hash_filo HASH) cap l e out :
  rep true st (mk_lru cap l (e :: out)) -> Z.of_nat (length l) < cap ->
  exists b st', insert_entry st e = Some (b, st') /\
    rep true st' (if b then mk_lru cap l (dropped (free_element st) [e] out) else mk_lru cap (e :: l) out).
Proof.
  intros Hrep Hlt. unfold insert_entry. destruct (my_hash_insert (cache st) e) as [[] h] eqn:Hins;
    destruct (insert_spec _ _ _ _ Hins) as [Hfe Hcon]; rewrite (rep_frees _ _ _ Hrep) in Hfe;
    rewrite (rep_contents _ _ _ Hrep) in Hcon; cbn [used] in Hcon.
  - assert (rep true (set_cache st h) (mk_lru cap l (e :: out))) as Hrep' by (destruct Hrep; by split).
    exists true. unfold dropped. cbn [free_element set_cache]. destruct (free_element st) eqn:E.
    + destruct (free_all_ok [e] (set_cache st h)) as (h' & Hf & Hh).
      { apply NoDup_singleton. }
      { intros x ->%list_elem_of_singleton. apply (rep_heap _ _ _ Hrep'). simpl. set_solver. }
      cbn [free_all] in Hf. destruct (free (set_cache st h) e) as [st1|]; [|done].
      cbn [mbind option_bind] in Hf. injection Hf as ->. cbn [mbind option_bind]. eexists. split; [reflexivity|].
      pose proof (rep_drop true (set_cache st h) cap l [e] out [e] h' Hrep') as Hd.
      simpl in Hd. rewrite E in Hd. by apply Hd.
    + cbn [mbind option_bind]. by eexists.
  - destruct (link_first_ok _ _ _ _ _ _ Hrep Hlt Hcon Hfe) as (st' & E & Hrep'). cbn zeta iota. rewrite E.
    exists false. by eexists.
Qed.

Lemma add_ok st cap l out e :
  rep true st (mk_lru cap l (e :: out)) ->
  exists b st' a', add st e = Some (b, st') /\
    lru_step keyof same (free_element st) (mk_lru cap l out) (Add e) (Flag b) a' /\ rep true st' a'.
Proof.
  intros Hrep. unfold add. rewrite (rep_size _ _ _ Hrep). cbn [capacity].
  pose proof (rep_capacity _ _ _ Hrep) as [H0 Hcap]. pose proof (rep_bound _ _ _ Hrep) as Hb. cbn [capacity used] in *.
  destruct (Z.eqb_spec cap 0) as [->|Hc]; [eexists _, _, _; split; [done|]; split; [constructor|done]|].
  pose proof (Permutation_length (rep_contents _ _ _ Hrep)) as Hlen. cbn [used] in Hlen.
  rewrite records_spec, Hlen by lia. destruct (Z.eqb_spec (Z.of_nat (length l)) cap) as [E|Hne].
  - destruct (exists_last (l := l)) as (l0 & z & ->); [intros ->; simpl in E; lia|].
    destruct (drop_last_ok _ _ _ _ _ Hrep) as (st1 & -> & _ & Hfe & Hrep1). cbn [mbind option_bind].
    apply (rep_outside _ _ _ _ _ (e :: dropped (free_element st) [z] out)) in Hrep1.
    2:{ unfold dropped. destruct (free_element st); [done|]. cbn [app]. by rewrite Permutation_swap. }
    rewrite length_app in E. simpl in E.
    destruct (insert_ok _ _ _ _ _ Hrep1 ltac:(lia)) as (b & st2 & -> & Hrep2).
    eexists _, _, _. split; [reflexivity|]. split; [|exact Hrep2]. rewrite Hfe.
    destruct b; constructor; rewrite length_app; simpl; lia.
  - cbn [mbind option_bind]. destruct (insert_ok _ _ _ _ _ Hrep ltac:(lia)) as (b & st2 & -> & Hrep2).
    eexists _, _, _. split; [reflexivity|]. split; [|exact Hrep2]. destruct b; constructor; lia.
Qed.

(** *** Sequences of commands *)

Lemma with_lock_ok {A} st a (f : hash_filo HASH -> option (A * hash_filo HASH)) (Q : A -> lru -> Prop) :
  rep false st a ->
  (forall st, rep true st a -> exists r st' a', f st = Some (r, st') /\ Q r a' /\ rep true st' a') ->
  exists r st' a', with_lock st f = Some (r, st') /\ Q r a' /\ rep false st' a'.
Proof.
  intros Hrep Hf. unfold with_lock. erewrite locked_ok by exact Hrep. cbn [mbind option_bind].
  destruct (Hf _ (rep_set_lock _ _ _ _ Hrep)) as (r & st' & a' & -> & HQ & Hrep').
  cbn [mbind option_bind]. erewrite unlocked_ok by exact Hrep'. eexists _, _, _.
  split; [reflexivity|]. split; [exact HQ|]. by eapply rep_set_lock.
Qed.

Lemma allocate_ok st cap l out e :
  rep false st (mk_lru cap l out) -> e <> NULL -> heap st !! e = None ->
  exists st', allocate st e = Some st' /\ rep false st' (mk_lru cap l (e :: out)).
Proof.
  intros [Hs Hc Hb Hi Hl Hf Hz Hch Hnd Hnull Hcon Hfe Hhp Hfr] He Hnone. simpl in *.
  assert (e ∉ l ++ out) as Hin by (rewrite <- Hhp, Hnone; by intros [? ?]).
  unfold allocate. rewrite bool_decide_eq_false_2, Hnone by done. eexists. split; [reflexivity|].
  split; simpl; try done.
  - apply dseg_insert; [set_solver|done].
  - rewrite <- Permutation_middle. by apply NoDup_cons.
  - set_solver.
  - intros x. destruct (decide (e = x)) as [<-|].
    + rewrite lookup_insert_eq. split; [set_solver|eauto].
    + rewrite lookup_insert_ne, Hhp by done. set_solver.
Qed.

Lemma exec_ok st a c :
  rep false st a -> allowed st c ->
  exists r st' a', exec st c = Some (r, st') /\ lru_step keyof same owner a c r a' /\ rep false st' a'.
Proof.
  intros Hrep Hok. destruct a as [cap l out], c as [k|e| | | |n]; cbn [exec].
  - apply with_lock_ok with (1 := Hrep). intros st1 Hrep1.
    destruct (search_ok _ _ k Hrep1) as (e & st' & a' & -> & Hstep & Hrep').
    rewrite (rep_free _ _ _ Hrep1) in Hstep. by eexists _, _, _.
  - destruct Hok as [He Hnone]. destruct (allocate_ok _ _ _ _ _ Hrep He Hnone) as (st1 & -> & Hrep1).
    apply with_lock_ok with (1 := Hrep1). intros st2 Hrep2.
    destruct (add_ok _ _ _ _ _ Hrep2) as (b & st' & a' & -> & Hstep & Hrep').
    rewrite (rep_free _ _ _ Hrep2) in Hstep. by eexists _, _, _.
  - apply with_lock_ok with (1 := Hrep). intros st1 Hrep1. unfold first, mysql_mutex_assert_owner.
    rewrite (rep_lock _ _ _ Hrep1), (rep_first _ _ _ Hrep1). eexists _, _, _. split; [done|]. by split; [constructor|].
  - apply with_lock_ok with (1 := Hrep). intros st1 Hrep1. unfold last, mysql_mutex_assert_owner.
    rewrite (rep_lock _ _ _ Hrep1), (rep_last _ _ _ Hrep1). eexists _, _, _. split; [done|]. by split; [constructor|].
  - rewrite clear_unlocked by exact (rep_init _ _ _ Hrep). erewrite locked_ok by exact Hrep. cbn [mbind option_bind].
    apply (rep_set_lock _ true) in Hrep. destruct (clear_locked _ cap _ _ _ Hrep) as (st' & E & _ & Hrep').
    { exact (rep_capacity _ _ _ Hrep). }
    assert (set_m_size (set_lock st (Some true)) cap = set_lock st (Some true)) as Hsz.
    { pose proof (rep_size _ _ _ Hrep) as Hs. cbn in Hs. rewrite <- Hs. by destruct st. }
    rewrite Hsz in E. rewrite E. cbn [mbind option_bind]. erewrite unlocked_ok by exact Hrep'.
    eexists _, _, _. split; [reflexivity|]. rewrite (rep_free _ _ _ Hrep) in Hrep'.
    split; [constructor|by eapply rep_set_lock].
  - unfold resize. erewrite locked_ok by exact Hrep. cbn [mbind option_bind].
    apply (rep_set_lock _ true) in Hrep. destruct (clear_locked _ n _ _ _ Hrep Hok) as (st' & -> & _ & Hrep').
    cbn [mbind option_bind]. erewrite unlocked_ok by exact Hrep'.
    eexists _, _, _. split; [reflexivity|]. rewrite (rep_free _ _ _ Hrep) in Hrep'.
    split; [constructor|by eapply rep_set_lock].
Qed.

Lemma filo_run_ok cs : forall st a, rep false st a -> all_allowed st cs ->
  exists rs st' a', run st cs = Some (rs, st') /\ lru_steps keyof same owner a cs rs a' /\ rep false st' a'.
Proof.
  induction cs as [|c cs IH]; intros st a Hrep Hok.
  - eexists _, _, _. split; [done|]. by split; [constructor|].
  - destruct Hok as [Hc Hcs]. destruct (exec_ok _ _ _ Hrep Hc) as (r & st1 & a1 & E & Hstep & Hrep1).
    destruct (IH _ _ Hrep1 (Hcs _ _ E)) as (rs & st2 & a2 & E2 & Hsteps & Hrep2).
    cbn [run]. rewrite E. cbn [mbind option_bind]. rewrite E2. eexists _, _, _.
    split; [reflexivity|]. split; [by econstructor|done].
Qed.

(** A new cache is ready after its first [clear]. *)
Lemma start_ok n : urange 32 n ->
  exists st, clear (construct n owner ∅) false = Some st /\ rep false st (mk_lru n [] []).
Proof.
  intros Hn. unfold clear, construct. cbn. destruct (my_hash_free bzero) as [fr h] eqn:Hfree.
  destruct (free_spec _ _ _ Hfree) as [Hfr Hc]. rewrite bzero_spec in Hfr.
  assert (fr = []) as -> by (destruct (frees bzero); by apply Permutation_nil_r).
  destruct (init_spec h n owner Hc) as [Hc' Hf']. cbn. eexists. split; [reflexivity|].
  split; cbn; try done; try set_solver.
  - destruct Hn; lia.
  - constructor.
  - by rewrite Hc'.
  - intros e. rewrite lookup_empty. split; [by intros [? [=]]|set_solver].
Qed.

Lemma filo_destroy_ok st a : rep false st a ->
  exists st', destroy st = Some st' /\ lock st' = None /\
    forall e, is_Some (heap st' !! e) <-> e ∈ dropped owner (used a) (outside a).
Proof.
  intros Hrep. destruct a as [cap l out]. unfold destroy. rewrite (rep_init _ _ _ Hrep).
  destruct (has_buffer (cache st)) eqn:Hbuf.
  - destruct (my_hash_free (cache st)) as [fr h] eqn:Hfree.
    destruct (rep_freed _ _ _ _ _ _ _ Hrep Hfree) as (Hp & Hc & Hnd & Hin).
    destruct (free_all_ok fr (set_cache st h) Hnd Hin) as (h' & -> & Hh). cbn [mbind option_bind].
    unfold mysql_mutex_destroy. simpl. rewrite (rep_lock _ _ _ Hrep). eexists. split; [reflexivity|]. split; [done|].
    intros e. simpl. rewrite Hh. simpl. rewrite (rep_free _ _ _ Hrep) in Hp. unfold dropped.
    pose proof (rep_nodup _ _ _ Hrep) as Hnd2. cbn [used outside] in Hnd2. apply NoDup_app in Hnd2 as (_ & Hnd2 & _).
    case_decide as Hd; rewrite Hp in Hd; [|rewrite (rep_heap _ _ _ Hrep)]; destruct owner; simpl in *; set_solver.
  - cbn [mbind option_bind]. unfold mysql_mutex_destroy. rewrite (rep_lock _ _ _ Hrep). eexists.
    split; [reflexivity|]. split; [done|]. intros e. simpl. rewrite (rep_heap _ _ _ Hrep).
    pose proof (rep_contents _ _ _ Hrep) as Hc. rewrite (has_buffer_spec _ Hbuf) in Hc. cbn [used] in Hc.
    symmetry in Hc. apply Permutation_nil_r in Hc. subst l. simpl. unfold dropped. by destruct owner.
Qed.

End refinement.

(** ** Ownership *)

Definition positive {key} (c : command key) : Prop :=
  match c with Resize n => 0 < n | _ => True end.

Lemma lru_keeps_outside {key} keyof same (a : lru) (c : command key) r a' :
  lru_step keyof same true a c r a' -> 0 < capacity a -> positive c ->
  outside a' = outside a /\ 0 < capacity a'.
Proof. intros []; simpl; intros; try done; lia. Qed.

Lemma lru_steps_outside {key} keyof same (a : lru) (cs : list (command key)) rs a' :
  lru_steps keyof same true a cs rs a' -> 0 < capacity a -> Forall positive cs ->
  outside a' = outside a.
Proof.
  induction 1 as [|a c r b cs rs d Hstep Hsteps IH]; [done|]. intros Hc [Hp Hps]%Forall_cons.
  destruct (lru_keeps_outside _ _ _ _ _ _ Hstep Hc Hp) as [<- Hc']. by apply IH.
Qed.

(** C10: a hash_filo cache works as a cache of the most recently used entries.
    After its first clear() any sequence of locked searches and additions,
    clear() and resize() has a result: no assertion fails, no freed entry is
    used, nothing is freed twice and the mutex is free after every call.  The
    results are those of the abstract cache: a search finds an entry with the
    key whenever there is one and makes it the most recent one, an addition to
    a full cache throws the least recently used entry away, the cache never
    exceeds its size (part of [rep]).  The destructor leaves only the entries
    allocated that the cache did not take or, without a free function, dropped;
    with a free function and a size that is never 0, none. *)
Theorem filo_lifecycle {key : Type} {T : MyHash key} (keyof : N -> key) (same : key -> key -> bool)
    {L : MyHashLaws T keyof same} (owner : bool) (n : Z) (cs : list (command key)) :
  urange 32 n ->
  (forall st, clear (construct n owner ∅) false = Some st -> all_allowed st cs) ->
  exists st1 rs st2 a st3,
    clear (construct n owner ∅) false = Some st1 /\ run st1 cs = Some (rs, st2) /\
    lru_steps keyof same owner (mk_lru n [] []) cs rs a /\ rep owner false st2 a /\
    destroy st2 = Some st3 /\
    (forall e, is_Some (heap st3 !! e) <-> e ∈ dropped owner (used a) (outside a)) /\
    (owner = true -> 0 < n -> Forall positive cs -> heap st3 = ∅).
Proof.
  intros Hn Hok. destruct (start_ok owner n Hn) as (st1 & E1 & Hrep1).
  destruct (filo_run_ok owner cs _ _ Hrep1 (Hok _ E1)) as (rs & st2 & a & E2 & Hsteps & Hrep2).
  destruct (filo_destroy_ok owner _ _ Hrep2) as (st3 & E3 & _ & Hh).
  exists st1, rs, st2, a, st3. do 6 (split; [done|]). intros -> Hpos Hcs.
  apply map_eq. intros e. rewrite lookup_empty. apply eq_None_not_Some. rewrite Hh. simpl.
  rewrite (lru_steps_outside _ _ _ _ _ _ Hsteps) by done. set_solver.
Qed.

(** ** A hash table with these properties

    A list of entries; no more than [limit] fit into memory. *)
Record listing := mk_listing { entries : list N; free_given : bool; ready : bool }.

Fixpoint remove_entry (e : N) (l : list N) : list N :=
  match l with
  | [] => []
  | x :: l => if bool_decide (x = e) then l else x :: remove_entry e l
  end.

Lemma remove_entry_ok e l : e ∈ l -> l ≡ₚ e :: remove_entry e l.
Proof.
  induction l as [|x l IH]; [set_solver|]. intros He. cbn [remove_entry]. case_bool_decide as Hx; [by subst|].
  rewrite Permutation_swap. apply Permutation_skip, IH. set_solver.
Qed.

Section list_hash.
Context {key : Type} (keyof : N -> key) (same : key -> key -> bool) (limit : nat).

Definition list_hash : MyHash key := {|
  HASH := listing;
  bzero := mk_listing [] false false;
  records h := Z.of_nat (length (entries h));
  has_buffer h := ready h || negb (bool_decide (entries h = []));
  my_hash_init h _ b := mk_listing (entries h) b true;
  my_hash_free h := (if free_given h then entries h else [], mk_listing [] false false);
  my_hash_search h k :=
    match List.find (fun e => bool_decide (e <> NULL) && same (keyof e) k) (entries h) with
    | Some e => e | None => NULL end;
  my_hash_insert h e :=
    if (limit <=? length (entries h))%nat then (true, h)
    else (false, mk_listing (e :: entries h) (free_given h) (ready h));
  my_hash_delete h e :=
    if bool_decide (e ∈ entries h)
    then (false, if free_given h then [e] else [],
          mk_listing (remove_entry e (entries h)) (free_given h) (ready h))
    else (true, [], h)
|}.

Definition list_hash_laws : MyHashLaws list_hash keyof same.
Proof.
  unshelve refine {| contents (h : @HASH key list_hash) := entries h; frees (h : @HASH key list_hash) := free_given h |}.
  - done.
  - done.
  - intros [[|e es] fg []]; simpl; done.
  - intros [es fg r] n b Hes; simpl in *. done.
  - intros [es fg r] f h' [= <- <-]. simpl. by destruct fg.
  - intros [es fg r] k. simpl. destruct (List.find _ es) as [e|] eqn:E; [|done]. intros _.
    apply List.find_some in E as [Hin [_ Hs]%andb_true_iff]. split; [by apply list_elem_of_In|done].
  - intros [es fg r] k. simpl. destruct (List.find _ es) as [e|] eqn:E.
    + intros ->. by apply List.find_some in E as [_ ?].
    + intros _ e Hin Hne. apply list_elem_of_In in Hin. pose proof (List.find_none _ _ E _ Hin) as H.
      simpl in H. by rewrite bool_decide_eq_true_2 in H.
  - intros [es fg r] e b h'. simpl. destruct (limit <=? length es)%nat; by intros [= <- <-].
  - intros [es fg r] e b f h' Hin. simpl. rewrite bool_decide_eq_true_2 by done. intros [= <- <- <-].
    repeat split. simpl. by apply remove_entry_ok.
Defined.
End list_hash.

(** The caller's duties, decided. *)
Fixpoint check {key} {T : MyHash key} (st : hash_filo HASH) (cs : list (command key)) : bool :=
  match cs with
  | [] => true
  | c :: cs =>
      match c with
      | Add e => bool_decide (e <> NULL) && match heap st !! e with Some _ => false | None => true end
      | Resize n => (0 <=? n) && (n <? 2 ^ 32)
      | _ => true
      end && match exec st c with Some (_, st) => check st cs | None => true end
  end.

Lemma check_sound {key} {T : MyHash key} cs : forall st : hash_filo HASH, check st cs = true -> all_allowed st cs.
Proof.
  induction cs as [|c cs IH]; intros st; [done|]. cbn [check all_allowed]. intros [Hc H]%andb_true_iff. split.
  - destruct c; try done.
    + apply andb_true_iff in Hc as [Hn Hnone]. apply bool_decide_eq_true in Hn. split; [done|].
      by destruct (heap st !! e).
    + apply andb_true_iff in Hc. unfold allowed, urange. lia.
  - intros r st' E. rewrite E in H. by apply IH.
Qed.

(** Entries whose key is the last digit of their address, and memory for four. *)
Definition digit (e : N) : Z := Z.of_N e mod 10.

#[local] Instance sample_hash : MyHash Z := list_hash digit Z.eqb 4.
#[local] Instance sample_laws : MyHashLaws sample_hash digit Z.eqb := list_hash_laws digit Z.eqb 4.

Definition sample_commands : list (command Z) :=
  [Add 11%N; Add 12%N; Search 1; Add 13%N; Search 2; First; Last; Resize 3; Add 14%N; Add 15%N;
   Search 4; Add 16%N; Clear].

Lemma filo_lifecycle_witness :
  exists st1 rs st2 a st3,
    clear (construct 2 true ∅) false = Some st1 /\ run st1 sample_commands = Some (rs, st2) /\
    lru_steps digit Z.eqb true (mk_lru 2 [] []) sample_commands rs a /\
    rep true false st2 a /\
    destroy st2 = Some st3 /\
    (forall e, is_Some (heap st3 !! e) <-> e ∈ dropped true (used a) (outside a)) /\
    (true = true -> 0 < 2 -> Forall positive sample_commands -> heap st3 = ∅).
Proof.
  apply (filo_lifecycle digit Z.eqb true 2 sample_commands).
  - unfold urange. lia.
  - intros st E. apply check_sound. vm_compute in E. injection E as <-. vm_compute. reflexivity.
Defined.

(** The entry 12 is thrown away, not the older 11, which was looked up. *)
Example sample_results :
  (st ← clear (construct 2 true ∅) false; fst <$> run st sample_commands) =
  Some [Flag false; Flag false; Entry 11%N; Flag false; Entry NULL; Entry 13%N; Entry 11%N; Unit;
        Flag false; Flag false; Entry 14%N; Flag false; Unit].
Proof. vm_compute. reflexivity. Qed.

End HashFilo.
