(* ===== verification/BoundedQueue.v ===== *)
(** * Priority queues of bounded size: queues.h and bounded_queue.h of
    include/mysql/server/private

    [Bounded_queue] keeps the keys of the best rows in a [QUEUE], a binary heap
    of pointers.  The heap's functions (init_queue, queue_insert, queue_remove,
    _downheap) are implemented outside the headers: they are the class [Queue],
    [QueueLaws] states what a heap guarantees, and [sorted_queue] at the end of
    the file is an implementation that guarantees it.

    The elements of the queue are addresses of entries of the array
    [m_sort_keys]; each entry points to a buffer of its own for one key.  An
    element is therefore a number, and [buffers] gives the key each buffer
    holds. *)

From Stdlib Require Import ZArith Lia.
From stdpp Require Import prelude sorting.
From S2P Require Import Prelude Links.
Local Open Scope Z_scope.
Local Open Scope cint_scope.

Module BoundedQueue.

(** ** [QUEUE]

    [root q] are the pointers [root[1]], [root[2]], ... of the source's array,
    of which there are [elements]. *)
Record QUEUE := mk_queue {
  root : list nat;
  max_elements : Z;
  offset_to_key : Z;
  offset_to_queue_pos : Z;
  auto_extent : Z;
  max_at_top : Z
}.

Definition elements (queue : QUEUE) : Z := Z.of_nat (length (root queue)).

Definition queue_first_element (queue : QUEUE) : Z := 1.
Definition queue_last_element (queue : QUEUE) : Z := elements queue.
Definition queue_empty (queue : QUEUE) : bool := elements queue =? 0.
Definition queue_element (queue : QUEUE) (index : Z) : option nat :=
  if 1 <=? index then root queue !! Z.to_nat (index - 1) else None.
Definition queue_top (queue : QUEUE) : option nat := queue_element queue 1.
Definition queue_end (queue : QUEUE) : option nat := queue_element queue (elements queue).
Definition queue_set_max_at_top (queue : QUEUE) (set_arg : bool) : QUEUE :=
  mk_queue (root queue) (max_elements queue) (offset_to_key queue) (offset_to_queue_pos queue)
    (auto_extent queue) (if set_arg then -1 else 1).
Definition queue_remove_all (queue : QUEUE) : QUEUE :=
  mk_queue [] (max_elements queue) (offset_to_key queue) (offset_to_queue_pos queue)
    (auto_extent queue) (max_at_top queue).
Definition queue_is_full (queue : QUEUE) : bool := elements queue =? max_elements queue.

(** The functions of the heap; a comparison of two elements is passed to those
    that use it. *)
Class Queue := {
  init_queue : Z -> Z -> bool -> Z -> Z -> bool * QUEUE;
  delete_queue : QUEUE -> QUEUE;
  queue_insert : (nat -> nat -> Z) -> QUEUE -> nat -> QUEUE;
  queue_remove : (nat -> nat -> Z) -> QUEUE -> Z -> nat * QUEUE;
  _downheap : (nat -> nat -> Z) -> QUEUE -> Z -> QUEUE
}.

Section operations.
Context {Q : Queue}.

Definition queue_replace_top (cmp : nat -> nat -> Z) (queue : QUEUE) : QUEUE := _downheap cmp queue 1.
Definition queue_remove_top (cmp : nat -> nat -> Z) (queue_arg : QUEUE) : nat * QUEUE :=
  queue_remove cmp queue_arg (queue_first_element queue_arg).

(** ** [Bounded_queue]

    [slots] is the number of entries of [m_sort_keys].  [keymaker] makes the
    key of an element; [compare] is the comparison the queue was initialised
    with. *)
Context {Element Key : Type} (keymaker : Element -> Key).

Record Bounded_queue := mk_bounded {
  buffers : nat -> Key;
  slots : nat;
  m_compare_length : Z;
  compare : Key -> Key -> Z;
  m_queue : QUEUE
}.

Definition set_queue (this : Bounded_queue) (q : QUEUE) : Bounded_queue :=
  mk_bounded (buffers this) (slots this) (m_compare_length this) (compare this) q.
Definition set_buffer (this : Bounded_queue) (i : nat) (k : Key) : Bounded_queue :=
  mk_bounded (fupd (buffers this) i k) (slots this) (m_compare_length this) (compare this) (m_queue this).

(** The comparison of two elements at the time of a call. *)
Definition at_buffers (this : Bounded_queue) (a b : nat) : Z :=
  compare this (buffers this a) (buffers this b).

Definition zero_queue : QUEUE := mk_queue [] 0 0 0 0 0.

Definition construct (keys : nat -> Key) : Bounded_queue :=
  mk_bounded keys 0 0 (fun _ _ => 0) zero_queue.

Definition destroy (this : Bounded_queue) : Bounded_queue := set_queue this (delete_queue (m_queue this)).

(** [sort_keys] is null, or an array of [n] pointers to buffers; [ptr_compare]
    is what get_ptr_compare returns for the length. *)
Definition init (ptr_compare : Z -> Key -> Key -> Z) (this : Bounded_queue) (max_elements : Z)
    (max_at_top : bool) (cmp : option (Key -> Key -> Z)) (compare_length : Z)
    (sort_keys : option nat) : option (Z * Bounded_queue) :=
  n ← sort_keys;
  let this := mk_bounded (buffers this) n compare_length (compare this) (m_queue this) in
  if 0xFFFFFFFF - 1 <=? max_elements then Some (1, this) else
  let cmp := match cmp with Some f => f | None => ptr_compare compare_length end in
  let '(failed, q) := init_queue (u32 (u32 max_elements + 1)) 0 max_at_top 0 0 in
  Some (if (failed : bool) then 1 else 0,
        mk_bounded (buffers this) (slots this) (m_compare_length this) cmp q).

Definition num_elements (this : Bounded_queue) : Z := elements (m_queue this).
Definition is_initialized (this : Bounded_queue) : bool := 0 <? max_elements (m_queue this).

Definition push (this : Bounded_queue) (element : Element) : option Bounded_queue :=
  if negb (is_initialized this) then None else
  if queue_is_full (m_queue this) then
    pq_top ← queue_top (m_queue this);
    let this := set_buffer this pq_top (keymaker element) in
    Some (set_queue this (queue_replace_top (at_buffers this) (m_queue this)))
  else
    let i := Z.to_nat (elements (m_queue this)) in
    if (i <? slots this)%nat then
      let this := set_buffer this i (keymaker element) in
      Some (set_queue this (queue_insert (at_buffers this) (m_queue this) i))
    else None.

Definition pop (this : Bounded_queue) : option (nat * Bounded_queue) :=
  let this :=
    if queue_is_full (m_queue this)
    then set_queue this (snd (queue_remove (at_buffers this) (m_queue this) 0)) else this in
  if elements (m_queue this) >? 0 then
    let '(top, q) := queue_remove (at_buffers this) (m_queue this) 0 in
    Some (top, set_queue this q)
  else None.

(** A sequence of elements pushed. *)
Fixpoint push_all (this : Bounded_queue) (es : list Element) : option Bounded_queue :=
  match es with
  | [] => Some this
  | e :: es => this ← push this e; push_all this es
  end.
End operations.
Arguments Bounded_queue : clear implicits.

(** ** What a heap guarantees

    A comparison function orders the keys: its sign flips with the arguments
    and "not greater" is transitive. *)
Record comparison {A} (cmp : A -> A -> Z) : Prop := {
  cmp_flip a b : cmp a b <= 0 <-> 0 <= cmp b a;
  cmp_trans a b c : cmp a b <= 0 -> cmp b c <= 0 -> cmp a c <= 0
}.

(** [a] may be above [b] in the heap. *)
Definition above (cmp : nat -> nat -> Z) (q : QUEUE) (a b : nat) : Prop := max_at_top q * cmp a b <= 0.

(** Every element but those below the first [except] positions is below its
    parent. *)
Definition heap_from (except : Z) (cmp : nat -> nat -> Z) (q : QUEUE) : Prop :=
  forall i a b, 2 <= i -> except < i / 2 -> queue_element q (i / 2) = Some a ->
    queue_element q i = Some b -> above cmp q a b.

Definition heap (cmp : nat -> nat -> Z) (q : QUEUE) : Prop := heap_from 0 cmp q.

(** Everything but the elements is the same. *)
Definition same_header (q q' : QUEUE) : Prop :=
  max_elements q' = max_elements q /\ max_at_top q' = max_at_top q.

Class QueueLaws (Q : Queue) := {
  init_spec n off top pos ext q : 0 < n < 2 ^ 32 -> init_queue n off top pos ext = (false, q) ->
    root q = [] /\ max_elements q = n /\ max_at_top q = (if top then -1 else 1);
  insert_spec cmp q x : comparison cmp -> Z.abs (max_at_top q) = 1 ->
    elements q < max_elements q -> heap cmp q ->
    let q' := queue_insert cmp q x in root q' ≡ₚ x :: root q /\ same_header q q' /\ heap cmp q';
  downheap_spec cmp q : comparison cmp -> Z.abs (max_at_top q) = 1 ->
    0 < elements q -> heap_from 1 cmp q ->
    let q' := _downheap cmp q 1 in root q' ≡ₚ root q /\ same_header q q' /\ heap cmp q';
  remove_spec cmp q i x q' : comparison cmp -> Z.abs (max_at_top q) = 1 ->
    1 <= i <= elements q -> heap cmp q -> queue_remove cmp q i = (x, q') ->
    queue_element q i = Some x /\ root q ≡ₚ x :: root q' /\ same_header q q' /\ heap cmp q'
}.

(** ** Heaps *)

(** The order of the heap, which is the comparison or its reverse. *)
Lemma above_trans cmp q : comparison cmp -> Z.abs (max_at_top q) = 1 -> Transitive (above cmp q).
Proof.
  intros [Hf Ht] Hm a b c. unfold above. assert (max_at_top q = 1 \/ max_at_top q = -1) as [->| ->] by lia.
  - rewrite !Z.mul_1_l. apply Ht.
  - intros H1 H2. pose proof (Ht c b a) as H. rewrite !Hf in H. lia.
Qed.

Lemma above_total cmp q a b : comparison cmp -> Z.abs (max_at_top q) = 1 -> above cmp q a b \/ above cmp q b a.
Proof.
  intros [Hf _] Hm. unfold above. pose proof (Hf a b). pose proof (Hf b a).
  assert (max_at_top q = 1 \/ max_at_top q = -1) as [->| ->] by lia; lia.
Qed.

Lemma queue_element_root q i a :
  queue_element q i = Some a <-> 1 <= i /\ root q !! Z.to_nat (i - 1) = Some a.
Proof. unfold queue_element. destruct (Z.leb_spec 1 i); naive_solver lia. Qed.

Lemma queue_element_range q i a : queue_element q i = Some a -> 1 <= i <= elements q.
Proof.
  rewrite queue_element_root. intros [H1 H2]. apply lookup_lt_Some in H2. unfold elements. lia.
Qed.

Lemma queue_element_some q i : 1 <= i <= elements q -> exists a, queue_element q i = Some a.
Proof.
  unfold elements. intros H. destruct (lookup_lt_is_Some_2 (root q) (Z.to_nat (i - 1))) as [a Ha]; [lia|].
  exists a. apply queue_element_root. split; [lia|done].
Qed.

(** The top of a heap is above every element. *)
Lemma heap_top cmp q t : comparison cmp -> Z.abs (max_at_top q) = 1 -> heap cmp q ->
  queue_top q = Some t -> forall x, x ∈ root q -> above cmp q t x.
Proof.
  intros Hc Hm Hh Ht.
  assert (forall n i x, i <= Z.of_nat n -> queue_element q i = Some x -> above cmp q t x) as Hn.
  { induction n as [|n IH]; intros i x Hi Hx; [apply queue_element_range in Hx; lia|].
    pose proof (queue_element_range _ _ _ Hx) as [H1 H2].
    destruct (Z.eq_dec i 1) as [->|].
    - unfold queue_top in Ht. rewrite Ht in Hx. injection Hx as ->.
      by destruct (above_total cmp q x x Hc Hm).
    - assert (1 <= i / 2 <= Z.of_nat n /\ i / 2 <= elements q) as [Hi2 He] by dlia.
      destruct (queue_element_some q (i / 2)) as [a Ha]; [lia|].
      apply (above_trans cmp q Hc Hm _ a); [by apply (IH (i / 2)); [lia|]|].
      apply (Hh i); [lia|lia|done|done]. }
  intros x [k Hk]%list_elem_of_lookup. apply (Hn (S k) (Z.of_nat k + 1)); [lia|].
  apply queue_element_root. split; [lia|]. by replace (Z.to_nat (Z.of_nat k + 1 - 1)) with k by lia.
Qed.

(** Changing the key of the top leaves the order among the others. *)
Lemma heap_retop cmp cmp' q t :
  heap cmp q -> NoDup (root q) -> queue_top q = Some t ->
  (forall a b, a <> t -> b <> t -> cmp' a b = cmp a b) -> heap_from 1 cmp' q.
Proof.
  intros Hh Hnd Ht Hext i a b Hi He Ha Hb.
  assert (forall j x, 1 < j -> queue_element q j = Some x -> x <> t) as Hne.
  { intros j x Hj Hx ->. apply queue_element_root in Hx as [_ Hx].
    apply queue_element_root in Ht as [_ Ht]. pose proof (NoDup_lookup _ _ _ _ Hnd Hx Ht). lia. }
  unfold above. rewrite Hext; [apply (Hh i); [lia|lia|done|done]|by apply (Hne (i / 2))|apply (Hne i); [dlia|done]].
Qed.

Lemma above_ext cmp cmp' q q' a b :
  max_at_top q' = max_at_top q -> cmp' a b = cmp a b -> above cmp q a b -> above cmp' q' a b.
Proof. unfold above. by intros -> ->. Qed.

Lemma fmap_fupd {A} (f : nat -> A) i k (l : list nat) :
  (forall x, x ∈ l -> i <> x) -> fupd f i k <$> l = f <$> l.
Proof.
  intros H. apply list_fmap_ext. intros j x Hx%list_elem_of_lookup_2. by rewrite fupd_ne by (by apply H).
Qed.

Section refinement.
Context {Q : Queue} {L : QueueLaws Q} {Element Key : Type} (keymaker : Element -> Key).

(** The keys in the queue, top first. *)
Definition kept (this : Bounded_queue Key) : list Key := buffers this <$> root (m_queue this).

(** [k1] is not better than [k2]: the queue gives it up first. *)
Definition worse (this : Bounded_queue Key) (k1 k2 : Key) : Prop :=
  max_at_top (m_queue this) * compare this k1 k2 <= 0.

(** The state after the keys [ks] were pushed on a queue for [n] keys. *)
Record inv (n : Z) (this : Bounded_queue Key) (ks : list Key) : Prop := {
  inv_max : max_elements (m_queue this) = n + 1;
  inv_n : 0 <= n < 2 ^ 32 - 1;
  inv_slots : n + 1 <= Z.of_nat (slots this);
  inv_sign : Z.abs (max_at_top (m_queue this)) = 1;
  inv_cmp : comparison (compare this);
  inv_heap : heap (at_buffers this) (m_queue this);
  inv_root : root (m_queue this) ≡ₚ seq 0 (Nat.min (length ks) (Z.to_nat (n + 1)));
  inv_kept : exists gone, ks ≡ₚ kept this ++ gone /\
    forall t rest, queue_top (m_queue this) = Some t -> root (m_queue this) ≡ₚ t :: rest ->
    forall x d, x ∈ rest -> d ∈ gone -> worse this d (buffers this x)
}.

Lemma at_buffers_comparison this : comparison (compare this) -> comparison (at_buffers (Key := Key) this).
Proof. intros [Hf Ht]. split; unfold at_buffers; intros; [apply Hf|eapply Ht; eassumption]. Qed.

Lemma inv_elements n this ks : inv n this ks ->
  elements (m_queue this) = Z.min (Z.of_nat (length ks)) (n + 1) /\ NoDup (root (m_queue this)).
Proof.
  intros Hi. pose proof (inv_n _ _ _ Hi). unfold elements. rewrite (inv_root _ _ _ Hi), length_seq.
  split; [lia|apply NoDup_seq].
Qed.

Lemma inv_init ptr_compare keys n top cmp len nslots :
  0 <= n < 2 ^ 32 - 2 -> n + 1 <= Z.of_nat nslots ->
  comparison (match cmp with Some f => f | None => ptr_compare len end) ->
  forall this, init ptr_compare (construct keys) n top cmp len (Some nslots) = Some (0, this) ->
  inv n this [] /\ max_at_top (m_queue this) = (if top then -1 else 1) /\
  compare this = match cmp with Some f => f | None => ptr_compare len end.
Proof.
  intros Hn Hs Hc this. unfold init. cbn [mbind option_bind].
  destruct (Z.leb_spec (0xFFFFFFFF - 1) n); [lia|].
  rewrite (u32_small n), (u32_small (n + 1)) by lia.
  destruct (init_queue (n + 1) 0 top 0 0) as [[] q] eqn:Hi; [done|]. intros [= <-].
  apply init_spec in Hi as (Hr & Hmax & Htop); [|lia]. split; [|done].
  split; cbn [m_queue slots compare buffers].
  - done.
  - lia.
  - lia.
  - rewrite Htop. by destruct top.
  - done.
  - intros i a b _ _ Ha. apply queue_element_range in Ha. unfold elements in Ha. rewrite Hr in Ha. simpl in Ha. lia.
  - by rewrite Hr.
  - exists []. unfold kept. simpl. rewrite Hr. split; [done|set_solver].
Qed.

(** Pushing on a queue that is not full. *)
Lemma push_insert n this ks e :
  inv n this ks -> Z.of_nat (length ks) < n + 1 ->
  exists this', push keymaker this e = Some this' /\ inv n this' (ks ++ [keymaker e]) /\
    same_header (m_queue this) (m_queue this') /\ compare this' = compare this.
Proof.
  intros Hi Hlt. destruct (inv_elements _ _ _ Hi) as [He Hnd].
  destruct Hi as [Hmax Hn Hslots Hsign Hcmp Hheap Hroot (gone & Hks & _)].
  unfold push, is_initialized, queue_is_full. rewrite Hmax, He.
  rewrite (proj2 (Z.ltb_lt _ _)), (proj2 (Z.eqb_neq _ _)) by lia. cbn [negb].
  replace (Z.to_nat (Z.min (Z.of_nat (length ks)) (n + 1))) with (length ks) by lia.
  rewrite (proj2 (Nat.ltb_lt _ _)) by lia. eexists. split; [reflexivity|].
  set (i := length ks) in *. set (this1 := set_buffer this i (keymaker e)).
  rewrite Nat.min_l in Hroot by lia.
  assert (forall x, x ∈ root (m_queue this) -> i <> x) as Hfresh by (intros x; rewrite Hroot, elem_of_seq; lia).
  assert (heap (at_buffers this1) (m_queue this)) as Hheap1.
  { intros j a b Hj Hp Ha Hb. eapply above_ext; [done| |by apply (Hheap j)].
    apply queue_element_root in Ha as [_ Ha], Hb as [_ Hb]. apply list_elem_of_lookup_2 in Ha, Hb.
    unfold at_buffers. simpl. by rewrite !fupd_ne by (by apply Hfresh). }
  destruct (insert_spec (at_buffers this1) (m_queue this) i) as (Hr & Hsame & Hheap2);
    [by apply at_buffers_comparison|done|lia|done|]. pose proof Hsame as [Hm1 Hm2].
  assert (gone = []) as ->.
  { apply Permutation_length in Hks. rewrite length_app in Hks. unfold kept in Hks.
    rewrite length_fmap, Hroot, length_seq in Hks. destruct gone; [done|]. simpl in Hks. lia. }
  split; [|done]. split; cbn [m_queue slots compare set_queue this1 set_buffer].
  - by rewrite Hm1.
  - done.
  - done.
  - by rewrite Hm2.
  - done.
  - exact Hheap2.
  - rewrite Hr, Hroot, length_app, Nat.min_l by (simpl; lia). rewrite Nat.add_1_r, seq_S.
    by rewrite Permutation_app_comm.
  - exists []. split; [|set_solver]. unfold kept. simpl. rewrite Hr, app_nil_r. simpl.
    rewrite fupd_eq, Permutation_app_comm. simpl. apply Permutation_skip.
    rewrite Hks, app_nil_r. unfold kept. by rewrite fmap_fupd.
Qed.

(** The top of a nonempty queue. *)
Lemma top_split (q : QUEUE) : 0 < elements q ->
  exists t rest, queue_top q = Some t /\ root q = t :: rest.
Proof.
  unfold elements, queue_top, queue_element. destruct (root q) as [|t rest]; simpl; [lia|]. by exists t, rest.
Qed.

Lemma worse_trans this k1 k2 k3 :
  comparison (compare this) -> Z.abs (max_at_top (m_queue this)) = 1 ->
  worse this k1 k2 -> worse this k2 k3 -> worse this k1 k3.
Proof.
  unfold worse. intros [Hf Ht] Hm.
  assert (max_at_top (m_queue this) = 1 \/ max_at_top (m_queue this) = -1) as [->| ->] by lia.
  - rewrite !Z.mul_1_l. apply Ht.
  - intros H1 H2. pose proof (Ht k3 k2 k1) as H. rewrite !Hf in H. lia.
Qed.

(** The keys a queue gave up stay worse than all but its top when the top is
    exchanged. *)
Lemma replaced_worse (this' : Bounded_queue Key) t rest (gone : list Key) :
  comparison (compare this') -> Z.abs (max_at_top (m_queue this')) = 1 ->
  heap (at_buffers this') (m_queue this') ->
  NoDup (t :: rest) -> root (m_queue this') ≡ₚ t :: rest ->
  (forall y d, y ∈ rest -> d ∈ gone -> worse this' d (buffers this' y)) ->
  forall t' rest', queue_top (m_queue this') = Some t' -> root (m_queue this') ≡ₚ t' :: rest' ->
  forall x d, x ∈ rest' -> d ∈ gone -> worse this' d (buffers this' x).
Proof.
  intros Hc Hm Hh Hnd Hr Hw t' rest' Ht' Hr' x d Hx Hd.
  assert (NoDup (t' :: rest')) as Hnd' by (by rewrite <- Hr', Hr).
  apply NoDup_cons in Hnd' as [Hn' _].
  assert (x ∈ t :: rest) as Hxr by (rewrite <- Hr, Hr'; set_solver).
  apply elem_of_cons in Hxr as [->|Hxr]; [|by apply Hw].
  assert (t' ∈ rest) as Ht'r.
  { assert (t' ∈ t :: rest) as H by (rewrite <- Hr, Hr'; set_solver). set_solver. }
  apply (worse_trans this' _ (buffers this' t')); [done|done|by apply Hw|].
  apply (heap_top (at_buffers this') (m_queue this')); [by apply at_buffers_comparison|done|done|done|].
  rewrite Hr. set_solver.
Qed.

(** Pushing on a full queue. *)
Lemma push_replace n this ks e :
  inv n this ks -> n + 1 <= Z.of_nat (length ks) ->
  exists this', push keymaker this e = Some this' /\ inv n this' (ks ++ [keymaker e]) /\
    same_header (m_queue this) (m_queue this') /\ compare this' = compare this.
Proof.
  intros Hi Hge. destruct (inv_elements _ _ _ Hi) as [He Hnd].
  destruct Hi as [Hmax Hn Hslots Hsign Hcmp Hheap Hroot (gone & Hks & Hgone)].
  destruct (top_split (m_queue this)) as (t & rest & Ht & Hrt); [lia|].
  unfold push, is_initialized, queue_is_full. rewrite Hmax, He.
  rewrite (proj2 (Z.ltb_lt _ _)), (proj2 (Z.eqb_eq _ _)) by lia. cbn [negb].
  rewrite Ht. cbn [mbind option_bind]. eexists. split; [reflexivity|].
  set (this1 := set_buffer this t (keymaker e)). change (m_queue this1) with (m_queue this).
  assert (forall x, x ∈ rest -> t <> x) as Hother by (rewrite Hrt in Hnd; apply NoDup_cons in Hnd as [? _]; set_solver).
  destruct (downheap_spec (at_buffers this1) (m_queue this)) as (Hr & Hsame & Hheap2);
    [by apply at_buffers_comparison|done|lia| |].
  { apply (heap_retop (at_buffers this) _ _ t); [done|done|done|]. intros a b Ha Hb.
    unfold at_buffers. simpl. by rewrite !fupd_ne by done. }
  pose proof Hsame as [Hm1 Hm2]. unfold queue_replace_top. split; [|done].
  split; cbn [m_queue slots compare set_queue this1 set_buffer]; try done.
  - by rewrite Hm1.
  - by rewrite Hm2.
  - rewrite Hr, Hroot, length_app. by rewrite !Nat.min_r by (simpl; lia).
  - exists (buffers this t :: gone). split.
    + unfold kept. simpl. rewrite Hr, Hrt. simpl. rewrite fupd_eq, fmap_fupd by done.
      rewrite Permutation_app_comm. simpl. apply Permutation_skip.
      rewrite Hks, <- Permutation_middle. unfold kept. by rewrite Hrt.
    + rewrite Hrt in Hnd.
      apply (replaced_worse (set_queue this1 (_downheap (at_buffers this1) (m_queue this) 1)) t rest);
        simpl; try done.
      * by rewrite Hm2.
      * by rewrite Hr, Hrt.
      * intros y d Hy Hd. unfold worse. simpl. rewrite Hm2, fupd_ne by (by apply Hother).
        apply elem_of_cons in Hd as [->|Hd]; [|apply (Hgone t rest); [done|by rewrite Hrt|done|done]].
        apply (heap_top (at_buffers this) (m_queue this)); [by apply at_buffers_comparison|done..|].
        rewrite Hrt. set_solver.
Qed.

Lemma push_all_ok n es : forall this ks, inv n this ks ->
  exists this', push_all keymaker this es = Some this' /\ inv n this' (ks ++ (keymaker <$> es)) /\
    same_header (m_queue this) (m_queue this') /\ compare this' = compare this.
Proof.
  induction es as [|e es IH]; intros this ks Hi.
  - exists this. simpl. by rewrite app_nil_r.
  - assert (exists this1, push keymaker this e = Some this1 /\ inv n this1 (ks ++ [keymaker e]) /\
      same_header (m_queue this) (m_queue this1) /\ compare this1 = compare this)
      as (this1 & E & Hi1 & [Hs1 Hs2] & Hc).
    { destruct (Z.lt_ge_cases (Z.of_nat (length ks)) (n + 1)); [by apply push_insert|by apply push_replace]. }
    destruct (IH _ _ Hi1) as (this2 & E2 & Hi2 & [Ht1 Ht2] & Hc2).
    exists this2. cbn [push_all]. rewrite E. cbn [mbind option_bind]. split; [done|].
    rewrite <- app_assoc in Hi2. split; [done|]. unfold same_header. split; [split; congruence|congruence].
Qed.
End refinement.

(** C11: a Bounded_queue for [n] keys keeps the best ones.  After a successful
    init() every element can be pushed, however many there are; the queue then
    holds one key more than asked for, and of all keys pushed so far the [n]
    that are not on top are best: with max_at_top none of them is greater than
    the key on top or any key given up, without it none is smaller. *)
Theorem bounded_queue_keeps_best {Q : Queue} {L : QueueLaws Q} {Element Key : Type}
    (keymaker : Element -> Key) ptr_compare keys n top cmp len nslots es this0 :
  let order := match cmp with Some f => f | None => ptr_compare len end in
  0 <= n < 2 ^ 32 - 2 -> n + 1 <= Z.of_nat nslots -> comparison order ->
  init ptr_compare (construct keys) n top cmp len (Some nslots) = Some (0, this0) ->
  exists this gone, push_all keymaker this0 es = Some this /\
    num_elements this = Z.min (Z.of_nat (length es)) (n + 1) /\
    keymaker <$> es ≡ₚ kept this ++ gone /\
    (n < Z.of_nat (length es) ->
     exists t rest, queue_top (m_queue this) = Some t /\ root (m_queue this) = t :: rest /\
       Z.of_nat (length rest) = n /\
       forall x d, x ∈ rest -> d ∈ buffers this t :: gone ->
         if (top : bool) then order (buffers this x) d <= 0 else order d (buffers this x) <= 0).
Proof.
  intros order Hn Hs Hc Hi. destruct (inv_init _ _ _ _ _ _ _ Hn Hs Hc _ Hi) as (Hinv & Htop & Hcmp).
  destruct (push_all_ok keymaker n es _ _ Hinv) as (this & E & Hinv' & [_ Hm] & Hcmp'). cbn [app] in Hinv'.
  pose proof (inv_elements _ _ _ Hinv') as [He Hnd]. rewrite length_fmap in He.
  pose proof (inv_heap _ _ _ Hinv') as Hheap. pose proof (inv_sign _ _ _ Hinv') as Hsign.
  pose proof (inv_cmp _ _ _ Hinv') as Hcmp2. destruct (inv_kept _ _ _ Hinv') as (gone & Hks & Hgone).
  exists this, gone. split; [done|]. split; [done|]. split; [done|]. intros Hlen.
  destruct (top_split (m_queue this)) as (t & rest & Ht & Hr); [lia|]. exists t, rest.
  split; [done|]. split; [done|]. split; [unfold elements in He; rewrite Hr in He; simpl in He; lia|].
  intros x d Hx Hd. assert (worse this d (buffers this x)) as Hw.
  { apply elem_of_cons in Hd as [->|Hd]; [|by eapply Hgone; [done|rewrite Hr|..]].
    apply (heap_top (at_buffers this) (m_queue this)); [by apply at_buffers_comparison|done..|].
    rewrite Hr. set_solver. }
  unfold worse in Hw. rewrite Hm, Htop, Hcmp', Hcmp in Hw. fold order in Hw.
  destruct top; [apply (cmp_flip _ Hc); lia|lia].
Qed.

(** ** A heap with these properties

    The array is kept sorted. *)

#[local] Instance above_dec cmp q : RelDecision (above cmp q).
Proof. intros a b. unfold above. apply _. Defined.

Definition with_root (q : QUEUE) (l : list nat) : QUEUE :=
  mk_queue l (max_elements q) (offset_to_key q) (offset_to_queue_pos q) (auto_extent q) (max_at_top q).

Definition sort_root (cmp : nat -> nat -> Z) (q : QUEUE) (l : list nat) : QUEUE :=
  with_root q (merge_sort (above cmp q) l).

Definition sorted_queue : Queue := {|
  init_queue n off top pos ext := (false, mk_queue [] n off pos ext (if top then -1 else 1));
  delete_queue q := mk_queue [] 0 0 0 0 0;
  queue_insert cmp q x := sort_root cmp q (x :: root q);
  queue_remove cmp q i :=
    match queue_element q i with
    | Some x => (x, sort_root cmp q (delete (Z.to_nat (i - 1)) (root q)))
    | None => (0%nat, q)
    end;
  _downheap cmp q i := sort_root cmp q (root q)
|}.

Lemma strongly_sorted_lookup {A} (R : A -> A -> Prop) l i j a b :
  StronglySorted R l -> (i < j)%nat -> l !! i = Some a -> l !! j = Some b -> R a b.
Proof.
  intros Hs. revert i j. induction Hs as [|x l Hs IH Hx]; intros i j Hij Ha Hb; [done|].
  destruct j as [|j]; [lia|]. destruct i as [|i]; [|apply (IH i j); [lia|done|done]].
  injection Ha as <-. simpl in Hb. rewrite Forall_forall in Hx. apply Hx. by eapply list_elem_of_lookup_2.
Qed.

Lemma sort_root_ok cmp q l :
  comparison cmp -> Z.abs (max_at_top q) = 1 ->
  root (sort_root cmp q l) ≡ₚ l /\ same_header q (sort_root cmp q l) /\ heap cmp (sort_root cmp q l).
Proof.
  intros Hc Hm. split; [apply merge_sort_Permutation|]. split; [done|].
  intros i a b Hi Hp [_ Ha]%queue_element_root [_ Hb]%queue_element_root.
  change (above cmp q a b). eapply (strongly_sorted_lookup _ (root (sort_root cmp q l))); [| |exact Ha|exact Hb].
  - apply StronglySorted_merge_sort; [by apply above_trans|]. intros x y. by apply above_total.
  - assert (i / 2 < i) by dlia. lia.
Qed.

Definition sorted_queue_laws : QueueLaws sorted_queue.
Proof.
  split.
  - intros n off top pos ext q _ [= <-]. done.
  - intros cmp q x Hc Hm _ _. by apply sort_root_ok.
  - intros cmp q Hc Hm _ _. by apply sort_root_ok.
  - intros cmp q i x q' Hc Hm Hi _. simpl. destruct (queue_element_some q i Hi) as [y Hy]. rewrite Hy.
    intros [= <- <-]. destruct (sort_root_ok cmp q (delete (Z.to_nat (i - 1)) (root q)) Hc Hm) as (Hr & Hs & Hh).
    split; [done|]. split; [|done]. rewrite Hr. apply delete_Permutation. by apply queue_element_root.
Defined.

#[local] Instance sample_queue : Queue := sorted_queue.
#[local] Instance sample_queue_laws : QueueLaws sample_queue := sorted_queue_laws.

(** The two smallest of six numbers. *)
Definition sample_init : option (Z * Bounded_queue Z) :=
  init (fun _ => Z.sub) (construct (fun _ => 0)) 2 true (Some Z.sub) 8 (Some 3%nat).

Lemma bounded_queue_keeps_best_witness :
  exists this0, sample_init = Some (0, this0) /\
  exists this gone, push_all Z.opp this0 [5; 9; 1; 7; 3; 8] = Some this /\
    num_elements this = Z.min 6 (2 + 1) /\
    Z.opp <$> [5; 9; 1; 7; 3; 8] ≡ₚ kept this ++ gone /\
    (2 < 6 ->
     exists t rest, queue_top (m_queue this) = Some t /\ root (m_queue this) = t :: rest /\
       Z.of_nat (length rest) = 2 /\
       forall x d, x ∈ rest -> d ∈ buffers this t :: gone -> buffers this x - d <= 0).
Proof.
  eexists. split; [reflexivity|].
  apply (bounded_queue_keeps_best Z.opp (fun _ => Z.sub) (fun _ => 0) 2 true (Some Z.sub) 8 3 [5; 9; 1; 7; 3; 8]).
  - lia.
  - simpl. lia.
  - split; intros; lia.
  - reflexivity.
Defined.

Example sample_kept :
  (r ← sample_init; this ← push_all Z.opp (snd r) [5; 9; 1; 7; 3; 8]; Some (kept this)) = Some [-7; -8; -9].
Proof. vm_compute. reflexivity. Qed.

End BoundedQueue.
