(* ===== verification/PList.v ===== *)
(** * Intrusive parameterised lists of include/mysql/server/private/sql_plist.h

    [I_P_List] links elements through members of their own: [*B::next_ptr(a)]
    is the cell [SNext a], [*B::prev_ptr(a)] the address of the cell that
    points to [a].  The counting and insertion policies are the two flags of
    [policy].  Any number of lists share one heap. *)

From Stdlib Require Import ZArith Lia.
From stdpp Require Import prelude.
From S2P Require Import Prelude Links.
Local Open Scope Z_scope.
Local Open Scope cint_scope.

Module PList.

(** [I_P_List_counter] or the null counter; [I_P_List_fast_push_back] or no
    support for [push_back]. *)
Record policy := mk_policy { counting : bool; fast : bool }.

Record heap := mk_heap {
  cell : slot -> N;        (* the first and next pointers *)
  prev : N -> slot;        (* the prev pointer of an element *)
  m_last : N -> slot;      (* of a list with fast push_back *)
  m_counter : N -> Z       (* of a counting list *)
}.

Definition set_cell (h : heap) (s : slot) (a : N) : heap :=
  mk_heap (fupd (cell h) s a) (prev h) (m_last h) (m_counter h).
Definition set_prev (h : heap) (a : N) (s : slot) : heap :=
  mk_heap (cell h) (fupd (prev h) a s) (m_last h) (m_counter h).

(** ** Policies *)

Definition set_last (p : policy) (h : heap) (l : N) (s : slot) : heap :=
  if fast p then mk_heap (cell h) (prev h) (fupd (m_last h) l s) (m_counter h) else h.

Definition get_last (h : heap) (l : N) : slot := m_last h l.

Definition set_counter (p : policy) (h : heap) (l : N) (z : Z) : heap :=
  if counting p then mk_heap (cell h) (prev h) (m_last h) (fupd (m_counter h) l z) else h.

Definition creset (p : policy) (h : heap) (l : N) : heap := set_counter p h l 0.
Definition inc (p : policy) (h : heap) (l : N) : heap := set_counter p h l (u32 (m_counter h l + 1)).
Definition dec (p : policy) (h : heap) (l : N) : heap := set_counter p h l (u32 (m_counter h l - 1)).

Definition cswap (p : policy) (h : heap) (l rhs : N) : heap :=
  let t := m_counter h l in
  let h := set_counter p h l (m_counter h rhs) in
  set_counter p h rhs t.

Definition elements (h : heap) (l : N) : Z := m_counter h l.

(** ** [I_P_List] *)

Definition m_first (h : heap) (l : N) : N := cell h (SFirst l).

Definition nonnull (a : N) : bool := negb (N.eqb a NULL).

Definition empty (p : policy) (h : heap) (l : N) : heap :=
  let h := set_cell h (SFirst l) NULL in
  let h := creset p h l in
  set_last p h l (SFirst l).

Definition is_empty (h : heap) (l : N) : bool := N.eqb (m_first h l) NULL.

Definition push_front (p : policy) (h : heap) (l a : N) : heap :=
  let h := set_cell h (SNext a) (m_first h l) in
  let h := if nonnull (m_first h l) then set_prev h (m_first h l) (SNext a)
           else set_last p h l (SNext a) in
  let h := set_cell h (SFirst l) a in
  let h := set_prev h a (SFirst l) in
  inc p h l.

Definition push_back (p : policy) (h : heap) (l a : N) : heap :=
  let last := get_last h l in
  let h := set_cell h (SNext a) (cell h last) in
  let h := set_cell h last a in
  let h := set_prev h a last in
  let h := set_last p h l (SNext a) in
  inc p h l.

Definition insert_after (p : policy) (h : heap) (l pos a : N) : heap :=
  if N.eqb pos NULL then push_front p h l a
  else
    let h := set_cell h (SNext a) (cell h (SNext pos)) in
    let h := set_prev h a (SNext pos) in
    let h := set_cell h (SNext pos) a in
    let h := if nonnull (cell h (SNext a))
             then let old_next := cell h (SNext a) in set_prev h old_next (SNext a)
             else set_last p h l (SNext a) in
    inc p h l.

Definition remove (p : policy) (h : heap) (l a : N) : heap :=
  let next := cell h (SNext a) in
  let h := if nonnull next then set_prev h next (prev h a) else set_last p h l (prev h a) in
  let h := set_cell h (prev h a) next in
  dec p h l.

Definition front (h : heap) (l : N) : N := m_first h l.

Definition pop_front (p : policy) (h : heap) (l : N) : N * heap :=
  let result := front h l in
  (result, if nonnull result then remove p h l result else h).

(** The parameter of [swap] is an [I_P_List<T, B, C>]: it exists only for lists
    without fast [push_back], whose [set_last] and [I::swap] do nothing. *)
Definition swap (p : policy) (h : heap) (l rhs : N) : heap :=
  let t := m_first h l in
  let h := set_cell h (SFirst l) (m_first h rhs) in
  let h := set_cell h (SFirst rhs) t in
  let h := if nonnull (m_first h l) then set_prev h (m_first h l) (SFirst l)
           else set_last p h l (SFirst l) in
  let h := if nonnull (m_first h rhs) then set_prev h (m_first h rhs) (SFirst rhs)
           else set_last p h l (SFirst rhs) in
  cswap p h l rhs.

(** ** [I_P_List_iterator] *)

Record iterator := mk_it { it_list : N; current : N }.

Definition it_init (h : heap) (l : N) : iterator := mk_it l (m_first h l).

Definition it_post_inc (h : heap) (it : iterator) : N * iterator :=
  let result := current it in
  (result, if nonnull result then mk_it (it_list it) (cell h (SNext (current it))) else it).

Definition it_pre_inc (h : heap) (it : iterator) : N * iterator :=
  let c := cell h (SNext (current it)) in (c, mk_it (it_list it) c).

Definition it_rewind (h : heap) (it : iterator) : iterator :=
  mk_it (it_list it) (m_first h (it_list it)).

(** ** Segments of a doubly linked chain *)

(** From the cell [s] the pointers lead through [ns], each element pointing
    back to the cell that holds it, and the last cell holds [q]. *)
Fixpoint dseg (h : heap) (s : slot) (ns : list N) (q : N) : Prop :=
  match ns with
  | [] => cell h s = q
  | n :: ns => cell h s = n /\ prev h n = s /\ dseg h (SNext n) ns q
  end.

Lemma dseg_app h s n1 n2 q :
  dseg h s (n1 ++ n2) q <-> dseg h s n1 (List.hd q n2) /\ dseg h (end_slot s n1) n2 q.
Proof.
  revert s. induction n1 as [|n n1 IH]; intros s; cbn [app dseg end_slot].
  - destruct n2; cbn; tauto.
  - rewrite IH. tauto.
Qed.

Lemma dseg_ext h h' s ns q :
  (forall c, c ∈ cells s ns -> cell h' c = cell h c) ->
  (forall n, n ∈ ns -> prev h' n = prev h n) -> dseg h s ns q -> dseg h' s ns q.
Proof.
  revert s. induction ns as [|n ns IH]; intros s Hc Hp; cbn [dseg].
  - by rewrite Hc by left.
  - intros (H1 & H2 & H3). rewrite Hc by left. rewrite Hp by left. split; [done|]. split; [done|].
    apply IH; [intros c H; apply Hc; by right|intros m H; apply Hp; by right|done].
Qed.

Lemma dseg_end h s ns q : dseg h s ns q -> cell h (end_slot s ns) = q.
Proof. revert s. induction ns as [|n ns IH]; intros s; cbn; [done|]. intros (_ & _ & H). by apply IH. Qed.

Lemma dseg_head h s ns q : dseg h s ns q -> cell h s = List.hd q ns.
Proof. destruct ns; cbn; tauto. Qed.

(** Writing the last cell. *)
Lemma dseg_redirect h h' s ns q q' :
  NoDup (cells s ns) -> cell h' (end_slot s ns) = q' ->
  (forall c, c ∈ cells s ns -> c <> end_slot s ns -> cell h' c = cell h c) ->
  (forall n, n ∈ ns -> prev h' n = prev h n) -> dseg h s ns q -> dseg h' s ns q'.
Proof.
  revert s. induction ns as [|n ns IH]; intros s Hnd He Hc Hp; cbn [dseg end_slot] in *; [done|].
  intros (H1 & H2 & H3). apply NoDup_cons in Hnd as [Hs Hnd].
  rewrite (Hc s); [|by left|intros E; apply Hs; rewrite E; apply end_slot_cells]. rewrite Hp by left.
  split; [done|]. split; [done|].
  apply IH; [done|done|intros c H; apply Hc; by right|intros m H; apply Hp; by right|done].
Qed.

(** Hanging a chain on another cell: the first element points back there. *)
Lemma dseg_restart h h' s s' ns q :
  dseg h s ns q -> cell h' s' = List.hd q ns ->
  (forall n, n ∈ ns -> cell h' (SNext n) = cell h (SNext n)) ->
  match ns with
  | [] => True
  | n :: ns => prev h' n = s' /\ forall m, m ∈ ns -> prev h' m = prev h m
  end -> dseg h' s' ns q.
Proof.
  destruct ns as [|n ns]; cbn; [done|]. intros (H1 & H2 & H3) E Hc [Hp Hps].
  split; [done|]. split; [done|]. apply (dseg_ext h); [|done|done].
  intros c Hc'. unfold cells in Hc'. rewrite elem_of_cons, list_elem_of_fmap in Hc'.
  destruct Hc' as [->|(m & -> & Hm)]; apply Hc; [by left|by right].
Qed.

(** ** The list a heap represents *)

Section proofs.
Context (p : policy).

Definition rep (h : heap) (l : N) (ns : list N) : Prop :=
  dseg h (SFirst l) ns NULL /\ NoDup ns /\ NULL ∉ ns /\
  (fast p = true -> m_last h l = end_slot (SFirst l) ns) /\
  (counting p = true -> m_counter h l = u32 (Z.of_nat (length ns))).

(** [touches h h' l ns]: only the list object [l] and the links of the
    elements [ns] differ. *)
Definition touches (h h' : heap) (l : N) (ns : list N) : Prop :=
  (forall c, c ∉ cells (SFirst l) ns -> cell h' c = cell h c) /\
  (forall n, n ∉ ns -> prev h' n = prev h n) /\
  (forall l', l' <> l -> m_last h' l' = m_last h l' /\ m_counter h' l' = m_counter h l').

Lemma plist_rep_frame h h' l ns l' ns' :
  touches h h' l ns -> l' <> l -> ns ## ns' -> rep h l' ns' -> rep h' l' ns'.
Proof.
  intros (Tc & Tp & Tl) Hl Hd (H1 & H2 & H3 & H4 & H5). destruct (Tl l' Hl) as [E1 E2].
  split; [|rewrite E1, E2; done]. apply (dseg_ext h); [| |done].
  - intros [l2|n] Hc; apply Tc.
    + apply elem_of_cells_first in Hc as [= ->]. rewrite elem_of_cells_first. congruence.
    + apply elem_of_cells_next in Hc as [Hc|Hc]; [done|]. rewrite elem_of_cells_next. set_solver.
  - intros n Hn. apply Tp. set_solver.
Qed.

(** ** Projections of the policy operations *)

Lemma cell_set_last h l s : cell (set_last p h l s) = cell h.
Proof. unfold set_last. by destruct (fast p). Qed.
Lemma prev_set_last h l s : prev (set_last p h l s) = prev h.
Proof. unfold set_last. by destruct (fast p). Qed.
Lemma counter_set_last h l s : m_counter (set_last p h l s) = m_counter h.
Proof. unfold set_last. by destruct (fast p). Qed.
Lemma last_set_last h l s l' :
  m_last (set_last p h l s) l' = if fast p then fupd (m_last h) l s l' else m_last h l'.
Proof. unfold set_last. by destruct (fast p). Qed.
Lemma cell_set_counter h l z : cell (set_counter p h l z) = cell h.
Proof. unfold set_counter. by destruct (counting p). Qed.
Lemma prev_set_counter h l z : prev (set_counter p h l z) = prev h.
Proof. unfold set_counter. by destruct (counting p). Qed.
Lemma last_set_counter h l z : m_last (set_counter p h l z) = m_last h.
Proof. unfold set_counter. by destruct (counting p). Qed.
Lemma counter_set_counter h l z l' :
  m_counter (set_counter p h l z) l' = if counting p then fupd (m_counter h) l z l' else m_counter h l'.
Proof. unfold set_counter. by destruct (counting p). Qed.

Lemma nonnull_spec a : nonnull a = true <-> a <> NULL.
Proof. unfold nonnull. destruct (N.eqb_spec a NULL); naive_solver. Qed.

End proofs.

Create Rewrite HintDb plist.
#[export] Hint Rewrite cell_set_last prev_set_last counter_set_last last_set_last
  cell_set_counter prev_set_counter last_set_counter counter_set_counter : plist.

(** [look] computes a member of the heap an operation returns. *)
Ltac look :=
  unfold inc, dec, creset, get_last, m_first in *;
  repeat (progress (cbn [cell prev m_last m_counter set_cell set_prev] in *; autorewrite with plist in * ));
  unfold fupd in *.

Section operations.
Context (p : policy).
Implicit Types (h : heap) (l a : N) (ns : list N).
Notation rep := (rep p).

(** Inserting [a] at the cell [s] that ends [n1], in front of [n2]: what the
    heap has to look like afterwards. *)
Record inserted (h h' : heap) (l a : N) (n1 n2 : list N) : Prop := {
  ins_next : cell h' (SNext a) = List.hd NULL n2;
  ins_cell : cell h' (end_slot (SFirst l) n1) = a;
  ins_cells c : c <> SNext a -> c <> end_slot (SFirst l) n1 -> cell h' c = cell h c;
  ins_prev : prev h' a = end_slot (SFirst l) n1;
  ins_head n n2' : n2 = n :: n2' -> prev h' n = SNext a;
  ins_prevs n : n <> a -> Some n <> head n2 -> prev h' n = prev h n;
  ins_last : fast p = true -> m_last h' l = if decide (n2 = []) then SNext a else m_last h l;
  ins_count : counting p = true -> m_counter h' l = u32 (m_counter h l + 1);
  ins_others l' : l' <> l -> m_last h' l' = m_last h l' /\ m_counter h' l' = m_counter h l'
}.

Lemma inserted_rep h h' l a n1 n2 :
  rep h l (n1 ++ n2) -> a ∉ n1 ++ n2 -> a <> NULL -> inserted h h' l a n1 n2 ->
  rep h' l (n1 ++ a :: n2) /\ touches h h' l (a :: n1 ++ n2).
Proof.
  intros (H1 & H2 & H3 & H4 & H5) Ha Hn I. apply dseg_app in H1 as [D1 D2].
  set (s := end_slot (SFirst l) n1) in *. pose proof I as [I1 I2 I3 I4 I5 I6 I7 I8 I9].
  fold s in I2, I3, I4. apply NoDup_app in H2 as (N1 & N12 & N2).
  assert (s <> SNext a) as Hs.
  { intros E. apply end_slot_is_next in E. set_solver. }
  assert (forall n, n ∈ n2 -> SNext n <> s) as Hs2.
  { intros n Hn2 E. symmetry in E. apply end_slot_is_next in E. set_solver. }
  assert (forall n, n ∈ n1 -> Some n <> head n2) as Hh.
  { intros n Hn1 E. destruct n2; simplify_eq/=; set_solver. }
  split; [split; [|split; [|split; [|split]]]|].
  - apply dseg_app. split.
    + apply (dseg_redirect h h' _ _ (List.hd NULL n2)); [by apply cells_NoDup|done| | |done].
      * intros c Hc Hne. apply I3; [|done]. intros ->. apply elem_of_cells_next in Hc. set_solver.
      * intros n Hn1. apply I6; [set_solver|by apply Hh].
    + cbn [dseg]. fold s. split; [done|]. split; [done|].
      apply (dseg_restart h h' s); [done|done| |].
      * intros n Hn2. apply I3; [|by apply Hs2]. intros [= ->]. set_solver.
      * destruct n2 as [|n n2]; [done|]. split; [by apply (I5 n n2)|].
        intros m Hm. apply I6; [set_solver|]. intros [= ->]. apply NoDup_cons in N2. tauto.
  - apply NoDup_app. split; [done|]. split; [set_solver|]. apply NoDup_cons. set_solver.
  - set_solver.
  - intros Hf. rewrite I7, end_slot_app by done. cbn. case_decide as E; [by subst n2|].
    rewrite H4, end_slot_app by done. by apply end_slot_nonempty.
  - intros Hc. rewrite I8, H5 by done. rewrite !length_app. cbn [length].
    unfold wrap. rewrite Zplus_mod_idemp_l. f_equal. lia.
  - split; [|split; [|done]].
    + intros c Hc. apply I3; intros ->; apply Hc.
      * apply elem_of_cells_next. set_solver.
      * pose proof (end_slot_cells (SFirst l) n1) as He. fold s in He. clear -He.
        unfold cells in *. set_solver.
    + intros n Hn2. apply I6; [set_solver|]. intros E. destruct n2; simplify_eq/=; set_solver.
Qed.

(** [heap_eq] proves a member of the new heap equal to its specification. *)
Ltac heap_eq :=
  intros; look; repeat case_decide; simplify_eq/=; look;
  repeat (case_decide || case_match); simplify_eq/=; try done; try congruence.

Lemma push_front_inserted h l a ns :
  rep h l ns -> a ∉ ns -> inserted h (push_front p h l a) l a [] ns.
Proof.
  intros (H1 & _ & Hnull & _) Ha. apply dseg_head in H1. unfold push_front, nonnull.
  destruct ns as [|n ns]; cbn [List.hd] in H1; look;
    rewrite !(decide_False (P := SNext a = SFirst l)) by done; rewrite H1.
  - cbn. constructor; cbn [end_slot List.hd head]; heap_eq.
  - destruct (N.eqb_spec n NULL) as [->|]; [set_solver|]. cbn.
    assert (n <> a) by set_solver. constructor; cbn [end_slot List.hd head]; heap_eq.
Qed.

Lemma push_back_inserted h l a ns :
  fast p = true -> rep h l ns -> a ∉ ns -> inserted h (push_back p h l a) l a ns [].
Proof.
  intros Hf (H1 & _ & Hnull & Hl & _) Ha. apply dseg_end in H1. specialize (Hl Hf).
  unfold push_back, get_last. rewrite Hl. set (s := end_slot (SFirst l) ns) in *.
  assert (s <> SNext a) as Hs by (intros E; apply end_slot_is_next in E; set_solver).
  constructor; cbn [List.hd head]; fold s; heap_eq.
Qed.

Lemma insert_after_inserted h l pos a n1 n2 :
  rep h l ((n1 ++ [pos]) ++ n2) -> a ∉ n1 ++ [pos] ++ n2 ->
  inserted h (insert_after p h l pos a) l a (n1 ++ [pos]) n2.
Proof.
  intros (H1 & Hnd & Hnull & _) Ha. apply dseg_app in H1 as [_ H1].
  rewrite end_slot_snoc in H1. pose proof (dseg_head _ _ _ _ H1) as Hh.
  assert (pos <> a) as Hpa by set_solver.
  unfold insert_after, nonnull. destruct (N.eqb_spec pos NULL) as [->|Hpn]; [set_solver|].
  look. destruct (decide (SNext a = SNext pos)) as [[= ?]|]; [congruence|].
  destruct (decide (SNext pos = SNext pos)) as [_|]; [|done].
  destruct (decide (SNext pos = SNext a)) as [[= ?]|]; [congruence|].
  destruct (decide (SNext a = SNext a)) as [_|]; [|done]. rewrite Hh.
  destruct n2 as [|k n2]; cbn [List.hd].
  - cbn. constructor; rewrite ?end_slot_snoc; cbn [List.hd head]; heap_eq.
  - destruct (N.eqb_spec k NULL) as [->|]; [set_solver|]. assert (k <> a) by set_solver.
    cbn. constructor; rewrite ?end_slot_snoc; cbn [List.hd head]; heap_eq.
Qed.

(** ** Removal *)

Lemma plist_remove_rep h l a n1 n2 :
  rep h l (n1 ++ a :: n2) ->
  rep (remove p h l a) l (n1 ++ n2) /\ touches h (remove p h l a) l (n1 ++ a :: n2).
Proof.
  intros (H1 & H2 & H3 & H4 & H5). apply dseg_app in H1 as [D1 (D2 & D3 & D4)].
  set (s := end_slot (SFirst l) n1) in *. pose proof (dseg_head _ _ _ _ D4) as Hh.
  apply NoDup_app in H2 as (N1 & N12 & N2). apply NoDup_cons in N2 as [Na N2].
  assert (s <> SNext a) as Hs by (intros E; apply end_slot_is_next in E; set_solver).
  assert (forall n, n ∈ n2 -> SNext n <> s) as Hs2.
  { intros n Hn2 E. symmetry in E. apply end_slot_is_next in E. set_solver. }
  set (h' := remove p h l a).
  assert (cell h' = fupd (cell h) s (List.hd NULL n2)) as Ec.
  { subst h'. unfold remove. rewrite Hh, D3. destruct n2 as [|n n2]; cbn [List.hd nonnull].
    - cbn. look. by rewrite D3.
    - assert (nonnull n = true) as -> by (apply nonnull_spec; set_solver). look.
      rewrite decide_False by set_solver. by rewrite D3. }
  assert (prev h' = match n2 with [] => prev h | n :: _ => fupd (prev h) n s end) as Ep.
  { subst h'. unfold remove. rewrite Hh, D3. destruct n2 as [|n n2]; cbn [List.hd nonnull].
    - cbn. look. done.
    - assert (nonnull n = true) as -> by (apply nonnull_spec; set_solver). by look. }
  assert (forall l', m_last h' l' =
    if fast p && bool_decide (n2 = []) then fupd (m_last h) l s l' else m_last h l') as El.
  { intros l'. subst h'. unfold remove. rewrite Hh, D3. destruct n2 as [|n n2]; cbn [List.hd nonnull].
    - cbn. look. by destruct (fast p).
    - assert (nonnull n = true) as -> by (apply nonnull_spec; set_solver). look.
      by rewrite andb_false_r. }
  assert (forall l', m_counter h' l' =
    if counting p then fupd (m_counter h) l (u32 (m_counter h l - 1)) l' else m_counter h l') as Ek.
  { intros l'. subst h'. unfold remove. rewrite Hh, D3. by destruct (nonnull _); look. }
  clearbody h'. split; [split; [|split; [|split; [|split]]]|].
  - apply dseg_app. split.
    + apply (dseg_redirect h h' _ _ a); [by apply cells_NoDup|fold s; rewrite Ec; upd| | |done].
      * intros c Hc Hne. rewrite Ec. fold s in Hne. upd.
      * intros n Hn1. rewrite Ep. destruct n2 as [|n' n2]; [done|]. upd. set_solver.
    + apply (dseg_restart h h' (SNext a)); [done|rewrite Ec; upd| |].
      * intros n Hn2. rewrite Ec. specialize (Hs2 n Hn2). upd.
      * destruct n2 as [|n n2]; [done|]. rewrite Ep. split; [upd|]. intros m Hm. upd.
        apply NoDup_cons in N2. tauto.
  - apply NoDup_app. split; [done|]. split; [set_solver|done].
  - set_solver.
  - intros Hf. rewrite El, Hf, end_slot_app. cbn [andb]. case_bool_decide as E.
    + subst n2. upd.
    + rewrite H4, end_slot_app by done. cbn. by apply end_slot_nonempty.
  - intros Hc. rewrite Ek, Hc. unfold fupd. rewrite decide_True by done. rewrite H5 by done.
    rewrite !length_app. cbn [length]. unfold wrap. rewrite Zminus_mod_idemp_l. f_equal. lia.
  - split; [|split].
    + intros c Hc. rewrite Ec. unfold fupd. rewrite decide_False; [done|]. intros E. apply Hc. rewrite <- E.
      pose proof (end_slot_cells (SFirst l) n1) as He. fold s in He. clear -He.
      unfold cells in *. set_solver.
    + intros n Hn. rewrite Ep. destruct n2 as [|n' n2]; [done|]. upd. set_solver.
    + intros l' Hl. rewrite El, Ek. split; [destruct (fast p && _)|destruct (counting p)]; upd.
Qed.

Lemma plist_empty_rep h l : rep (empty p h l) l [] /\ touches h (empty p h l) l [].
Proof.
  unfold empty. split; [split; [|split; [|split; [|split]]]|split; [|split]].
  - cbn. look. by rewrite decide_True.
  - apply NoDup_nil_2.
  - set_solver.
  - heap_eq.
  - heap_eq.
  - intros c Hc. heap_eq. unfold cells in Hc. set_solver.
  - intros n _. by look.
  - intros l' Hl. look. destruct (fast p), (counting p); upd.
Qed.

Lemma pop_front_rep h l ns :
  rep h l ns ->
  (pop_front p h l).1 = List.hd NULL ns /\
  rep (pop_front p h l).2 l (List.tl ns) /\ touches h (pop_front p h l).2 l ns.
Proof.
  intros Hr. pose proof Hr as (H1 & _ & H3 & _). pose proof (dseg_head _ _ _ _ H1) as Hh.
  unfold pop_front, front, m_first. cbn [fst snd]. rewrite Hh. split; [done|].
  destruct ns as [|n ns]; cbn [List.hd List.tl]; [done|].
  assert (nonnull n = true) as -> by (apply nonnull_spec; set_solver).
  apply (plist_remove_rep h l n [] ns Hr).
Qed.

(** ** Swap *)

Lemma swap_heap h l r ns1 ns2 :
  fast p = false -> l <> r -> rep h l ns1 -> rep h r ns2 ->
  cell (swap p h l r) = fupd (fupd (cell h) (SFirst l) (List.hd NULL ns2)) (SFirst r) (List.hd NULL ns1) /\
  (forall n, prev (swap p h l r) n =
    if decide (Some n = head ns1) then SFirst r
    else if decide (Some n = head ns2) then SFirst l else prev h n) /\
  m_last (swap p h l r) = m_last h /\
  (forall l', m_counter (swap p h l r) l' =
    if counting p then fupd (fupd (m_counter h) l (m_counter h r)) r (m_counter h l) l'
    else m_counter h l').
Proof.
  intros Hf Hlr (H1 & _ & Hn1 & _) (H2 & _ & Hn2 & _).
  apply dseg_head in H1, H2.
  set (h2 := set_cell (set_cell h (SFirst l) (m_first h r)) (SFirst r) (m_first h l)).
  assert (m_first h2 l = List.hd NULL ns2) as E1.
  { subst h2. unfold m_first. cbn. rewrite H2. upd. }
  assert (m_first h2 r = List.hd NULL ns1) as E2.
  { subst h2. unfold m_first. cbn. rewrite H1. upd. }
  assert (forall ns, NULL ∉ ns -> nonnull (List.hd NULL ns) = match ns with [] => false | _ => true end) as Hnn.
  { intros [|x xs] Hx; [done|]. apply nonnull_spec. set_solver. }
  assert (swap p h l r = cswap p
    (let h := match ns2 with [] => h2 | n :: _ => set_prev h2 n (SFirst l) end in
     match ns1 with [] => h | n :: _ => set_prev h n (SFirst r) end) l r) as ->.
  { unfold swap. fold h2. unfold set_last. rewrite Hf, E1, Hnn by done.
    f_equal. destruct ns2 as [|n2 ns2]; cbv zeta; [rewrite E2|change (m_first (set_prev h2 _ (SFirst l)) r) with (m_first h2 r); rewrite E2];
      rewrite Hnn by done; by destruct ns1. }
  assert (cell h2 = fupd (fupd (cell h) (SFirst l) (List.hd NULL ns2)) (SFirst r) (List.hd NULL ns1)) as Ec.
  { subst h2. unfold m_first. cbn. by rewrite H1, H2. }
  unfold cswap. split; [|split; [|split]].
  - destruct ns1, ns2; look; done.
  - intros n. destruct ns1 as [|x1 ns1], ns2 as [|x2 ns2]; look; repeat case_decide; simplify_eq/=; done.
  - destruct ns1, ns2; look; done.
  - intros l'. destruct ns1, ns2; unfold set_counter, fupd;
      destruct (counting p); cbn; upd.
Qed.

Lemma plist_swap_rep h l r ns1 ns2 :
  fast p = false -> l <> r -> rep h l ns1 -> rep h r ns2 -> ns1 ## ns2 ->
  rep (swap p h l r) l ns2 /\ rep (swap p h l r) r ns1 /\
  forall l' ns', l' <> l -> l' <> r -> ns1 ## ns' -> ns2 ## ns' -> rep h l' ns' -> rep (swap p h l r) l' ns'.
Proof.
  intros Hf Hlr R1 R2 Hd.
  destruct (swap_heap h l r ns1 ns2 Hf Hlr R1 R2) as (Ec & Ep & El & Ek).
  set (h' := swap p h l r) in *. clearbody h'.
  destruct R1 as (D1 & N1 & U1 & _ & K1), R2 as (D2 & N2 & U2 & _ & K2).
  assert (forall n, n ∈ ns1 -> Some n <> head ns2) as X1.
  { intros n Hn E. destruct ns2; simplify_eq/=. set_solver. }
  assert (forall n, n ∈ ns2 -> Some n <> head ns1) as X2.
  { intros n Hn E. destruct ns1; simplify_eq/=. set_solver. }
  split; [|split].
  - split; [|split; [done|split; [done|split; [by rewrite Hf|]]]].
    + apply (dseg_restart h h' (SFirst r)); [done|rewrite Ec; upd|intros; rewrite Ec; upd|].
      destruct ns2 as [|n ns2]; [done|]. apply NoDup_cons in N2 as [N2 _]. split.
      * rewrite Ep. cbn. rewrite decide_False by (apply X2; left). by rewrite decide_True.
      * intros m Hm. rewrite Ep. cbn. rewrite decide_False by (apply X2; by right).
        rewrite decide_False; [done|]. intros [= ->]. done.
    + intros Hc. rewrite Ek, Hc. upd. by rewrite K2.
  - split; [|split; [done|split; [done|split; [by rewrite Hf|]]]].
    + apply (dseg_restart h h' (SFirst l)); [done|rewrite Ec; upd|intros; rewrite Ec; upd|].
      destruct ns1 as [|n ns1]; [done|]. apply NoDup_cons in N1 as [N1 _]. split.
      * rewrite Ep. cbn. by rewrite decide_True.
      * intros m Hm. rewrite Ep. cbn. rewrite decide_False by (intros [= ->]; done).
        rewrite decide_False; [done|]. apply X1. by right.
    + intros Hc. rewrite Ek, Hc. upd. by rewrite K1.
  - intros l' ns' Hl Hr H1 H2 (D & Nd & U & L & K). split; [|split; [done|split; [done|split]]].
    + apply (dseg_ext h); [| |done].
      * intros c Hc. rewrite Ec. unfold fupd.
        repeat case_decide; subst; try done; apply elem_of_cells_first in Hc as [= ->]; done.
      * intros n Hn. rewrite Ep. rewrite !decide_False; [done| |].
        -- intros E. destruct ns2; simplify_eq/=. set_solver.
        -- intros E. destruct ns1; simplify_eq/=. set_solver.
    + by rewrite El.
    + intros Hc. rewrite Ek, Hc. upd. by apply K.
Qed.

(** ** Iteration *)

Fixpoint it_take (n : nat) (h : heap) (it : iterator) : list N :=
  match n with
  | O => []
  | S n => let '(a, it) := it_post_inc h it in a :: it_take n h it
  end.

Lemma plist_it_take_ok h n : forall s ns it,
  dseg h s ns NULL -> NULL ∉ ns -> current it = cell h s ->
  it_take n h it = take n ns ++ repeat NULL (n - length ns).
Proof.
  induction n as [|n IH]; intros s ns it Hd Hn Hc; [done|]. cbn [it_take]. unfold it_post_inc.
  rewrite Hc, (dseg_head _ _ _ _ Hd). destruct ns as [|x ns]; cbn [List.hd].
  - rewrite (IH s []) by done. cbn. by rewrite take_nil, Nat.sub_0_r.
  - assert (nonnull x = true) as -> by (apply nonnull_spec; set_solver).
    destruct Hd as (H1 & H2 & H3). rewrite (IH (SNext x) ns); [done|done|set_solver|done].
Qed.

(** [while ((a= it++)) list.remove(a);] *)
Fixpoint drain (fuel : nat) (h : heap) (it : iterator) : option (list N * heap) :=
  match fuel with
  | O => None
  | S fuel =>
      let '(a, it) := it_post_inc h it in
      if nonnull a then
        '(xs, h) ← drain fuel (remove p h (it_list it) a) it; Some (a :: xs, h)
      else Some ([], h)
  end.

Lemma drain_ok fuel : forall h ns it,
  rep h (it_list it) ns -> current it = m_first h (it_list it) -> (length ns < fuel)%nat ->
  exists h', drain fuel h it = Some (ns, h') /\ rep h' (it_list it) [].
Proof.
  induction fuel as [|fuel IH]; intros h ns it Hr Hc Hf; [lia|]. cbn [drain]. unfold it_post_inc.
  pose proof Hr as (Hd & _ & Hn & _). rewrite Hc. unfold m_first in *.
  rewrite (dseg_head _ _ _ _ Hd). destruct ns as [|x ns]; cbn [List.hd].
  - exists h. by cbn.
  - assert (nonnull x = true) as E by (apply nonnull_spec; set_solver). rewrite E. cbv zeta.
    destruct (plist_remove_rep h (it_list it) x [] ns Hr) as [Hr' _]. cbn [app] in Hr'.
    destruct Hd as (H1 & H2 & H3).
    destruct (IH (remove p h (it_list it) x) ns (mk_it (it_list it) (cell h (SNext x)))) as (h' & E' & R').
    + exact Hr'.
    + cbn [current it_list]. destruct Hr' as (Hd' & _). unfold m_first.
      by rewrite (dseg_head _ _ _ _ Hd'), (dseg_head _ _ _ _ H3).
    + cbn [length] in Hf. lia.
    + exists h'. cbn [it_list]. rewrite E'. done.
Qed.

(** ** Several lists in one heap *)

Inductive cmd :=
  | CPushFront (l a : N) | CPushBack (l a : N) | CInsertAfter (l pos a : N)
  | CRemove (l a : N) | CPopFront (l : N) | CEmpty (l : N) | CSwap (l r : N).

Definition exec (h : heap) (c : cmd) : N * heap :=
  match c with
  | CPushFront l a => (NULL, push_front p h l a)
  | CPushBack l a => (NULL, push_back p h l a)
  | CInsertAfter l pos a => (NULL, insert_after p h l pos a)
  | CRemove l a => (NULL, remove p h l a)
  | CPopFront l => pop_front p h l
  | CEmpty l => (NULL, empty p h l)
  | CSwap l r => (NULL, swap p h l r)
  end.

Fixpoint insert_after_in (pos a : N) (ns : list N) : list N :=
  match ns with
  | [] => []
  | n :: ns => if decide (n = pos) then n :: a :: ns else n :: insert_after_in pos a ns
  end.

Fixpoint remove_from (a : N) (ns : list N) : list N :=
  match ns with
  | [] => []
  | n :: ns => if decide (n = a) then ns else n :: remove_from a ns
  end.

(** The same command on a family of sequences. *)
Definition aexec (S : N -> list N) (c : cmd) : N * (N -> list N) :=
  match c with
  | CPushFront l a => (NULL, fupd S l (a :: S l))
  | CPushBack l a => (NULL, fupd S l (S l ++ [a]))
  | CInsertAfter l pos a =>
      (NULL, fupd S l (if decide (pos = NULL) then a :: S l else insert_after_in pos a (S l)))
  | CRemove l a => (NULL, fupd S l (remove_from a (S l)))
  | CPopFront l => (List.hd NULL (S l), fupd S l (List.tl (S l)))
  | CEmpty l => (NULL, fupd S l [])
  | CSwap l r => (NULL, fupd (fupd S l (S r)) r (S l))
  end.

(** A new element is in no list; the others name what is there. *)
Definition fresh (S : N -> list N) (a : N) : Prop := a <> NULL /\ forall l, a ∉ S l.

Definition allowed (S : N -> list N) (c : cmd) : Prop :=
  match c with
  | CPushFront l a => fresh S a
  | CPushBack l a => fast p = true /\ fresh S a
  | CInsertAfter l pos a => fresh S a /\ (pos = NULL \/ pos ∈ S l)
  | CRemove l a => a ∈ S l
  | CPopFront _ | CEmpty _ => True
  | CSwap l r => fast p = false /\ l <> r
  end.

Definition world (h : heap) (S : N -> list N) : Prop :=
  (forall l, rep h l (S l)) /\ (forall l l', l <> l' -> S l ## S l').

Lemma insert_after_in_split pos a n1 n2 :
  pos ∉ n1 -> insert_after_in pos a (n1 ++ pos :: n2) = (n1 ++ [pos]) ++ a :: n2.
Proof.
  induction n1 as [|n n1 IH]; intros H; cbn.
  - by rewrite decide_True.
  - rewrite decide_False by set_solver. rewrite IH by set_solver. done.
Qed.

Lemma remove_from_split a n1 n2 : a ∉ n1 -> remove_from a (n1 ++ a :: n2) = n1 ++ n2.
Proof.
  induction n1 as [|n n1 IH]; intros H; cbn.
  - by rewrite decide_True.
  - rewrite decide_False by set_solver. by rewrite IH by set_solver.
Qed.

(** An operation on one list keeps the world when it represents the new
    sequence and touches only elements that were or become its own. *)
Lemma world_update h h' S l ns ts :
  world h S -> rep h' l ns -> touches h h' l ts ->
  (forall l', l' <> l -> ts ## S l') -> (forall l', l' <> l -> ns ## S l') ->
  world h' (fupd S l ns).
Proof.
  intros [W1 W2] Hr Ht Hts Hns. split.
  - intros l'. unfold fupd. case_decide as E; [by subst l'|].
    apply (plist_rep_frame p h h' l ts); auto.
  - intros l1 l2 Hne. unfold fupd. repeat case_decide; subst; try done; auto.
    intros x H1 H2. apply (Hns l1 ltac:(congruence) x); done.
Qed.

Lemma inserted_world h h' S l a n1 n2 :
  world h S -> S l = n1 ++ n2 -> fresh S a -> inserted h h' l a n1 n2 ->
  world h' (fupd S l (n1 ++ a :: n2)).
Proof.
  intros HW El [Hn Hfr] HI. pose proof HW as [W1 W2]. pose proof (W1 l) as Hr. rewrite El in Hr.
  destruct (inserted_rep h h' l a n1 n2 Hr) as [Hr' Ht]; [rewrite <- El; apply Hfr|done|done|].
  assert (forall l', l' <> l -> (a :: n1 ++ n2) ## S l') as Hd.
  { intros l' Hl. rewrite <- El. pose proof (Hfr l'). pose proof (W2 l l' ltac:(congruence)). set_solver. }
  apply (world_update h h' S l _ (a :: n1 ++ n2)); [done|done|done|done|].
  intros l' Hl. specialize (Hd l' Hl). set_solver.
Qed.

Lemma plist_exec_ok h S c :
  world h S -> allowed S c ->
  (exec h c).1 = (aexec S c).1 /\ world (exec h c).2 (aexec S c).2.
Proof.
  intros HW Hc. pose proof HW as [W1 W2].
  destruct c as [l a|l a|l pos a|l a|l|l|l r]; cbn [exec aexec allowed fst snd] in *.
  - split; [done|]. apply (inserted_world h _ S l a [] (S l)); [done|done|done|].
    apply push_front_inserted; [apply W1|apply Hc].
  - destruct Hc as [Hf Hc]. split; [done|].
    apply (inserted_world h _ S l a (S l) []); [done|by rewrite app_nil_r|done|].
    apply push_back_inserted; [done|apply W1|apply Hc].
  - destruct Hc as [Hc Hpos]. split; [done|]. case_decide as E.
    + subst pos. apply (inserted_world h _ S l a [] (S l)); [done|done|done|].
      apply push_front_inserted; [apply W1|apply Hc].
    + destruct Hpos as [|Hpos]; [done|].
      apply list_elem_of_split_l in Hpos as (n1 & n2 & El & Hn1).
      rewrite El, insert_after_in_split by done.
      assert (S l = (n1 ++ [pos]) ++ n2) as El' by (by rewrite El, <- app_assoc).
      apply (inserted_world h _ S l a (n1 ++ [pos]) n2); [done|done|done|].
      apply insert_after_inserted; [rewrite <- El'; apply W1|].
      pose proof (proj2 Hc l) as Ha. rewrite El in Ha. set_solver.
  - split; [done|]. apply list_elem_of_split_l in Hc as (n1 & n2 & El & Hn1).
    rewrite El, remove_from_split by done. pose proof (W1 l) as Hr. rewrite El in Hr.
    destruct (plist_remove_rep h l a n1 n2 Hr) as [Hr' Ht].
    apply (world_update h _ S l _ (n1 ++ a :: n2)); [done|done|done| |].
    + intros l' Hl. rewrite <- El. apply W2. congruence.
    + intros l' Hl. pose proof (W2 l l' ltac:(congruence)) as Hd. rewrite El in Hd. set_solver.
  - destruct (pop_front_rep h l (S l) (W1 l)) as (E & Hr & Ht). split; [done|].
    apply (world_update h _ S l _ (S l)); [done|done|done| |].
    + intros l' Hl. apply W2. congruence.
    + intros l' Hl. pose proof (W2 l l' ltac:(congruence)) as Hd. destruct (S l); set_solver.
  - destruct (plist_empty_rep h l) as [Hr Ht]. split; [done|].
    apply (world_update h _ S l _ []); [done|done|done|set_solver|set_solver].
  - destruct Hc as [Hf Hlr]. split; [done|].
    destruct (plist_swap_rep h l r (S l) (S r) Hf Hlr (W1 l) (W1 r) (W2 l r Hlr)) as (R1 & R2 & R3). split.
    + intros l'. unfold fupd. repeat case_decide; subst; try done.
      apply R3; [congruence|congruence|apply W2; congruence|apply W2; congruence|apply W1].
    + intros l1 l2 Hne. unfold fupd. repeat case_decide; subst; try done; apply W2; congruence.
Qed.

Fixpoint run {St} (step : St -> cmd -> N * St) (s : St) (cs : list cmd) : list N * St :=
  match cs with
  | [] => ([], s)
  | c :: cs => let '(o, s) := step s c in let '(os, s) := run step s cs in (o :: os, s)
  end.

Fixpoint all_allowed (S : N -> list N) (cs : list cmd) : Prop :=
  match cs with
  | [] => True
  | c :: cs => allowed S c /\ all_allowed (aexec S c).2 cs
  end.

(** ** Properties *)

(** C22: Any number of [I_P_List]s that share a heap refine a family of
    disjoint sequences, for each choice of counting and insertion policy: a
    sequence of [push_front], [push_back] (with the fast policy),
    [insert_after], [remove], [pop_front], [empty] and [swap] (without it)
    returns the elements the sequences give, and afterwards every list is
    linked forwards and backwards through its sequence, with its last pointer
    and counter right; iterating delivers the sequence and then null. *)
Theorem plist_commands_refine h S cs :
  world h S -> all_allowed S cs ->
  let '(os, h') := run exec h cs in
  let '(os', S') := run aexec S cs in
  os = os' /\ world h' S' /\
  forall l n, it_take n h' (it_init h' l) = take n (S' l) ++ repeat NULL (n - length (S' l)).
Proof.
  revert h S. induction cs as [|c cs IH]; intros h S HW Hcs; cbn [run].
  - split; [done|]. split; [done|]. intros l n. destruct (proj1 HW l) as (Hd & _ & Hn & _).
    by apply (plist_it_take_ok h n (SFirst l)).
  - destruct Hcs as [Hc Hcs]. destruct (plist_exec_ok h S c HW Hc) as [Eo HW'].
    specialize (IH _ _ HW' Hcs). destruct (exec h c) as [o h1], (aexec S c) as [o' S1].
    cbn [fst snd] in *. destruct (run exec h1 cs) as [os h2], (run aexec S1 cs) as [os' S2].
    destruct IH as (-> & IH). by subst.
Qed.

(** The loop that removes each element the iterator returns visits every
    element once, in order, and ends with the list empty after one round per
    element plus one: since [operator++] saves the next pointer, removing the
    current element does not invalidate it. *)
Theorem plist_drain h l ns :
  rep h l ns ->
  exists h', drain (S (length ns)) h (it_init h l) = Some (ns, h') /\
    rep h' l [] /\ is_empty h' l = true /\ (counting p = true -> elements h' l = 0).
Proof.
  intros Hr. destruct (drain_ok (S (length ns)) h ns (it_init h l)) as (h' & E & R); [done|done|lia|].
  exists h'. split; [done|]. split; [done|]. destruct R as (D & _ & _ & _ & K). split.
  - unfold is_empty, m_first. cbn in D. by rewrite D.
  - intros Hc. exact (K Hc).
Qed.

End operations.

(** ** Witnesses *)

Definition counted : policy := mk_policy true true.

Definition heap0 : heap := mk_heap (fun _ => NULL) (fun _ => SFirst 0) (fun l => SFirst l) (fun _ => 0).

Lemma world0 : world counted heap0 (fun _ => []).
Proof. split; [|set_solver]. intros l. split; [done|]. split; [apply NoDup_nil_2|]. set_solver. Qed.

Definition sample_cmds : list cmd :=
  [CPushBack 1 10; CPushBack 1 11; CPushFront 1 12; CInsertAfter 1 10 13; CPushBack 2 20;
   CRemove 1 11; CPopFront 1; CPushBack 1 14]%N.

Lemma plist_sample_allowed : all_allowed counted (fun _ => []) sample_cmds.
Proof.
  cbn; unfold fresh, fupd.
  repeat match goal with
  | |- _ /\ _ => split
  | |- forall l : N, _ => intros l
  end; repeat case_decide; try done; set_solver.
Qed.

Lemma sample_final :
  (run aexec (fun _ => []) sample_cmds).2 1%N = [10; 13; 14]%N /\
  elements (run (exec counted) heap0 sample_cmds).2 1%N = 3.
Proof. split; vm_compute; reflexivity. Qed.

Lemma plist_commands_refine_witness :
  let '(os, h') := run (exec counted) heap0 sample_cmds in
  let '(os', S') := run aexec (fun _ => []) sample_cmds in
  (os = os' /\ world counted h' S' /\
   forall l n, it_take n h' (it_init h' l) = take n (S' l) ++ repeat NULL (n - length (S' l))) /\
  S' 1%N = [10; 13; 14]%N /\ elements h' 1%N = 3.
Proof.
  generalize (plist_commands_refine counted heap0 (fun _ => []) sample_cmds world0 plist_sample_allowed)
    sample_final.
  destruct (run (exec counted) heap0 sample_cmds) as [os h'].
  destruct (run aexec (fun _ => []) sample_cmds) as [os' S'].
  intros H E. exact (conj H E).
Defined.

Definition heap2 : heap := push_back counted (push_back counted heap0 1 10) 1 11.

Lemma heap2_rep : rep counted heap2 1 [10; 11]%N.
Proof.
  destruct (plist_exec_ok counted heap0 (fun _ => []) (CPushBack 1 10) world0) as [_ W].
  { split; [done|]. split; [done|set_solver]. }
  destruct (plist_exec_ok counted _ _ (CPushBack 1 11) W) as [_ W2].
  { split; [done|]. split; [done|]. intros l. cbn. unfold fupd. case_decide; set_solver. }
  exact (proj1 W2 1%N).
Qed.

Lemma plist_drain_witness :
  exists h', drain counted 3 heap2 (it_init heap2 1) = Some ([10; 11]%N, h') /\
    rep counted h' 1 [] /\ is_empty h' 1 = true /\ (counting counted = true -> elements h' 1 = 0).
Proof. exact (plist_drain counted heap2 1 [10; 11]%N heap2_rep). Defined.

End PList.
