(* ===== verification/Mdl.v ===== *)
(** * Metadata locks (private/mdl.h)

    [Key] models [MDL_key]: namespace, database and object name packed into one
    zero-terminated buffer, and the comparisons on it.  [Request] models
    [MDL_request], [Context] the operations of [MDL_context] whose code is in
    the header.  The buffer is byte memory from address 0; C strings
    are lists of non-zero bytes; the hash function of the binary collation is a
    parameter. *)

From Stdlib Require Import ZArith Lia.
From S2P Require Import Prelude Mem MyIsamPack Links PList.
From stdpp Require Import prelude list.
Local Open Scope Z_scope.
Local Open Scope cint_scope.
Import MyIsamPack.

Definition NAME_CHAR_LEN : Z := 64.
Definition SYSTEM_CHARSET_MBMAXLEN : Z := 3.
Definition NAME_LEN : Z := NAME_CHAR_LEN * SYSTEM_CHARSET_MBMAXLEN.
Definition MAX_MDLKEY_LENGTH : Z := 1 + NAME_LEN + 1 + NAME_LEN + 1.

Inductive enum_mdl_namespace :=
| BACKUP | SCHEMA | TABLE | FUNCTION | PROCEDURE | PACKAGE_BODY | TRIGGER | EVENT | USER_LOCK
| NAMESPACE_END.

#[export] Instance mdl_namespace_eq_dec : EqDecision enum_mdl_namespace.
Proof. solve_decision. Defined.

Definition namespace_code (n : enum_mdl_namespace) : Z :=
  match n with
  | BACKUP => 0 | SCHEMA => 1 | TABLE => 2 | FUNCTION => 3 | PROCEDURE => 4
  | PACKAGE_BODY => 5 | TRIGGER => 6 | EVENT => 7 | USER_LOCK => 8 | NAMESPACE_END => 9
  end.

Module Key.
Section key.
(** [my_hash_sort] of the binary collation, [ok_for_lower_case_names], and
    [strmake] of the string library, which only have declarations. *)
Context (my_hash_sort : list Z -> Z) (ok_for_lower_case_names : list Z -> bool)
        (strmake : mem -> Z -> list Z -> Z -> mem * Z).

(** As documented, [strmake(dst, src, length)] moves at most [length] characters
    to [dst] and appends a zero, to which it returns a pointer; it may use the
    [length + 1] bytes at [dst]. *)
Definition strmake_law : Prop := forall m dst src length,
  Z.of_nat (List.length src) <= length ->
  bytes (strmake m dst src length).1 dst (Z.of_nat (List.length src) + 1) = src ++ [0] /\
  (strmake m dst src length).2 = dst + Z.of_nat (List.length src) /\
  (forall x, x < dst \/ dst + length + 1 <= x -> (strmake m dst src length).1 x = m x).

Record MDL_key := mk {
  m_length : Z; m_db_name_length : Z;   (* uint16 *)
  m_hash_value : Z;                     (* my_hash_value_type *)
  m_ptr : mem                           (* char[MAX_MDLKEY_LENGTH] *)
}.

Definition ptr (k : MDL_key) : list Z := bytes (m_ptr k) 0 (m_length k).
Definition key_length (k : MDL_key) : Z := m_length k.
Definition db_name_length (k : MDL_key) : Z := m_db_name_length k.
Definition name_length (k : MDL_key) : Z := u32 (m_length k - m_db_name_length k - 3).

(** The strings that the pointers [db_name()] and [name()] show. *)
Definition db_name (k : MDL_key) : list Z := bytes (m_ptr k) 1 (db_name_length k).
Definition name (k : MDL_key) : list Z :=
  bytes (m_ptr k) (m_db_name_length k + 2) (name_length k).
Definition mdl_namespace (k : MDL_key) : Z := m_ptr k 0.

(** [old] is the buffer before the call; names that are too long, and a database
    name in capitals where names are to be in lower case, fail the assertions. *)
Definition mdl_key_init (old : mem) (ns : enum_mdl_namespace) (db name_arg : list Z)
  : option MDL_key :=
  let m := poke old 0 (namespace_code ns) in
  if (Z.of_nat (length db) <=? NAME_LEN) && (Z.of_nat (length name_arg) <=? NAME_LEN) then
    let r := strmake m (0 + 1) db NAME_LEN in
    let dbl := u16 (snd r - 0 - 1) in
    let r2 := strmake (fst r) (0 + dbl + 2) name_arg NAME_LEN in
    let len := u16 (snd r2 - 0 + 1) in
    let h := my_hash_sort (bytes (fst r2) 1 (len - 1)) in
    if bool_decide (ns = USER_LOCK) || ok_for_lower_case_names db   (* DBUG_SLOW_ASSERT *)
    then Some (mk len dbl h (fst r2)) else None
  else None.

(** The overload of [mdl_key_init] that copies another key. *)
Definition mdl_key_copy (old : mem) (rhs : MDL_key) : MDL_key :=
  mk (m_length rhs) (m_db_name_length rhs) (m_hash_value rhs) (write_bytes old 0 (ptr rhs)).

Definition is_equal (k rhs : MDL_key) : bool :=
  if m_length k =? m_length rhs
  then bool_decide (memcmp (bytes (m_ptr k) 0 (m_length k)) (bytes (m_ptr rhs) 0 (m_length k)) = Eq)
  else false.

Definition cmp (k rhs : MDL_key) : comparison :=
  let n := Z.min (m_length k) (m_length rhs) in
  memcmp (bytes (m_ptr k) 0 n) (bytes (m_ptr rhs) 0 n).

Definition hash_value (k : MDL_key) : Z := u32 (m_hash_value k + mdl_namespace k).
Definition tc_hash_value (k : MDL_key) : Z := m_hash_value k.

(** ** Properties *)

(** A name: bytes other than zero, of at most [NAME_LEN]. *)
Definition name_ok (l : list Z) : Prop :=
  Forall (fun b => 0 < b < 256) l /\ Z.of_nat (length l) <= NAME_LEN.

(** The packed triple. *)
Definition packed (ns : enum_mdl_namespace) (db n : list Z) : list Z :=
  namespace_code ns :: db ++ 0 :: n ++ [0].

Context (Hstrmake : strmake_law).

Lemma init_packed old ns db n :
  name_ok db -> name_ok n -> ns = USER_LOCK \/ ok_for_lower_case_names db = true ->
  exists k, mdl_key_init old ns db n = Some k /\
    m_length k = Z.of_nat (length (packed ns db n)) /\
    m_db_name_length k = Z.of_nat (length db) /\
    ptr k = packed ns db n /\ m_hash_value k = my_hash_sort (db ++ 0 :: n ++ [0]) /\
    (forall x, x < 0 \/ MAX_MDLKEY_LENGTH <= x -> m_ptr k x = old x) /\
    m_length k <= MAX_MDLKEY_LENGTH.
Proof using Hstrmake.
  intros [_ Hd] [_ Hn] Hlow. unfold mdl_key_init.
  rewrite (proj2 (Z.leb_le _ _) Hd), (proj2 (Z.leb_le _ _) Hn). cbn [andb]. cbn zeta.
  assert (bool_decide (ns = USER_LOCK) || ok_for_lower_case_names db = true) as ->.
  { destruct Hlow as [->| ->]; [by rewrite bool_decide_eq_true_2|apply orb_true_r]. }
  set (m0 := poke old 0 (namespace_code ns)).
  destruct (Hstrmake m0 (0 + 1) db NAME_LEN Hd) as (W1 & P1 & F1).
  set (m1 := (strmake m0 (0 + 1) db NAME_LEN).1) in *. rewrite P1.
  unfold MAX_MDLKEY_LENGTH, NAME_LEN, NAME_CHAR_LEN, SYSTEM_CHARSET_MBMAXLEN in *.
  set (d := Z.of_nat (length db)) in *. set (e := Z.of_nat (length n)) in *.
  replace (0 + 1 + d - 0 - 1) with d by lia.
  rewrite (wrap_small 16 d) by (unfold urange; simpl; lia).
  destruct (Hstrmake m1 (0 + d + 2) n (64 * 3) Hn) as (W2 & P2 & F2).
  set (m2 := (strmake m1 (0 + d + 2) n (64 * 3)).1) in *. rewrite P2.
  fold e in W2. replace (0 + d + 2 + Z.of_nat (length n) - 0 + 1) with (d + e + 3) by lia.
  rewrite wrap_small by (unfold urange; simpl; lia).
  assert (bytes m2 1 (d + 1) = db ++ [0]) as E1.
  { rewrite (bytes_agree _ m1); [exact W1|]. intros x Hx. apply F2. lia. }
  assert (bytes m2 1 (d + e + 2) = db ++ 0 :: n ++ [0]) as E3.
  { replace (d + e + 2) with (d + 1 + (e + 1)) by lia. rewrite bytes_app by lia.
    replace (1 + (d + 1)) with (0 + d + 2) by lia. rewrite E1, W2, <- app_assoc. done. }
  assert (m2 0 = namespace_code ns) as E0.
  { rewrite F2, F1 by lia. done. }
  eexists. split; [done|]. cbn [m_length m_db_name_length m_ptr m_hash_value ptr].
  unfold packed. cbn [length]. rewrite !length_app. cbn [length]. rewrite length_app. cbn [length].
  split; [lia|]. split; [done|]. split; [|split; [|split]].
  - unfold ptr. cbn [m_ptr m_length]. replace (d + e + 3) with (1 + (d + e + 2)) by lia.
    rewrite bytes_app, bytes_one, E0 by lia. cbn [app]. f_equal. exact E3.
  - replace (d + e + 3 - 1) with (d + e + 2) by lia. by rewrite E3.
  - intros x Hx. rewrite F2, F1 by lia. apply poke_ne. lia.
  - lia.
Qed.

Lemma sub_bytes m a n b k (l1 l2 l3 : list Z) :
  bytes m a n = l1 ++ l2 ++ l3 -> b = a + Z.of_nat (length l1) -> k = Z.of_nat (length l2) ->
  bytes m b k = l2.
Proof.
  intros E -> ->. pose proof (f_equal length E) as Hl. rewrite bytes_length, !length_app in Hl.
  destruct (Z.le_gt_cases n 0) as [Hn|Hn].
  { rewrite Z2Nat.nonpos in Hl by lia. destruct l2; [by apply bytes_nil|simpl in Hl; lia]. }
  replace n with (Z.of_nat (length l1) + (Z.of_nat (length l2) + Z.of_nat (length l3))) in E by lia.
  rewrite !bytes_app in E by lia. apply app_inj_1 in E as [_ E]; [|rewrite bytes_length; lia].
  apply app_inj_1 in E as [E _]; [done|]. rewrite bytes_length. lia.
Qed.

(** A key initialised with a namespace and two names gives the three back,
    stays inside its buffer and terminates both names with a zero; a copy of it
    is the same key. *)
Theorem mdl_key_roundtrip old old' ns db n :
  name_ok db -> name_ok n -> ns = USER_LOCK \/ ok_for_lower_case_names db = true ->
  exists k, mdl_key_init old ns db n = Some k /\
    mdl_namespace k = namespace_code ns /\ db_name k = db /\ name k = n /\
    m_ptr k (1 + db_name_length k) = 0 /\ m_ptr k (m_db_name_length k + 2 + name_length k) = 0 /\
    key_length k <= MAX_MDLKEY_LENGTH /\
    (forall x, x < 0 \/ MAX_MDLKEY_LENGTH <= x -> m_ptr k x = old x) /\
    let c := mdl_key_copy old' k in
    is_equal c k = true /\ cmp c k = Eq /\ hash_value c = hash_value k /\ ptr c = ptr k.
Proof using Hstrmake.
  intros Hdb Hn Hlow. destruct (init_packed old ns db n Hdb Hn Hlow) as (k&E&Hl&Hd&Hp&Hh&Hfr&Hmax).
  exists k. split; [done|]. unfold packed in Hl. cbn [length] in Hl.
  rewrite !length_app in Hl. cbn [length] in Hl. rewrite length_app in Hl. cbn [length] in Hl.
  assert (name_length k = Z.of_nat (length n)) as Hnl.
  { unfold name_length. rewrite Hl, Hd, u32_small; [lia|].
    destruct Hn as [_ Hn2]. unfold NAME_LEN, NAME_CHAR_LEN, SYSTEM_CHARSET_MBMAXLEN in Hn2. lia. }
  unfold ptr, packed in Hp.
  assert (forall x l1 y l3, namespace_code ns :: db ++ 0 :: n ++ [0] = l1 ++ [y] ++ l3 ->
    x = Z.of_nat (length l1) -> m_ptr k x = y) as Hcell.
  { intros x l1 y l3 El Hx. rewrite El in Hp.
    assert (bytes (m_ptr k) x 1 = [y]) as B by (eapply sub_bytes; [exact Hp|lia|done]).
    rewrite bytes_one in B. by injection B. }
  split; [by apply (Hcell 0 [] _ (db ++ 0 :: n ++ [0]))|].
  split; [unfold db_name, db_name_length; eapply (sub_bytes _ _ _ _ _ [namespace_code ns]);
          [exact Hp|done|done]|].
  split; [unfold name; eapply (sub_bytes _ _ _ _ _ (namespace_code ns :: db ++ [0]));
          [rewrite Hp; simpl; by rewrite <- app_assoc|rewrite Hd; simpl; rewrite length_app; simpl; lia|done]|].
  split; [apply (Hcell _ (namespace_code ns :: db) _ (n ++ [0])); [done|
          unfold db_name_length; rewrite Hd; simpl; lia]|].
  split; [apply (Hcell _ (namespace_code ns :: db ++ 0 :: n) _ []); [simpl; by rewrite <- app_assoc|
          rewrite Hnl, Hd; simpl; rewrite length_app; simpl; lia]|].
  split; [done|]. split; [exact Hfr|].
  assert (ptr (mdl_key_copy old' k) = ptr k) as Hc.
  { unfold ptr, mdl_key_copy. cbn [m_ptr m_length].
    replace (m_length k) with (Z.of_nat (length (ptr k))) at 1; [apply bytes_write|].
    unfold ptr. rewrite bytes_length. lia. }
  assert (forall l, memcmp l l = Eq) as Hrefl.
  { induction l as [|b l IH]; [done|]. cbn. by rewrite Z.compare_refl. }
  assert (mdl_namespace (mdl_key_copy old' k) = mdl_namespace k) as Hns.
  { unfold ptr in Hc. apply (f_equal head) in Hc. cbn [mdl_key_copy m_length] in Hc.
    unfold mdl_namespace. unfold bytes in Hc. rewrite seqZ_cons in Hc by lia.
    simpl in Hc. by injection Hc. }
  split; [|split; [|split; [|done]]].
  - unfold is_equal. change (m_length (mdl_key_copy old' k)) with (m_length k). rewrite Z.eqb_refl. apply bool_decide_eq_true.
    rewrite (Hc : bytes (m_ptr (mdl_key_copy old' k)) 0 (m_length k) = bytes (m_ptr k) 0 (m_length k)).
    apply Hrefl.
  - unfold cmp. change (m_length (mdl_key_copy old' k)) with (m_length k). rewrite Z.min_id.
    rewrite (Hc : bytes (m_ptr (mdl_key_copy old' k)) 0 (m_length k) = bytes (m_ptr k) 0 (m_length k)).
    apply Hrefl.
  - unfold hash_value. by rewrite Hns.
Qed.

(** [memcmp] of byte strings of one length is 0 only for equal ones. *)
Lemma memcmp_eq l1 l2 : length l1 = length l2 -> memcmp l1 l2 = Eq <-> l1 = l2.
Proof.
  revert l2. induction l1 as [|b1 l1 IH]; intros [|b2 l2] Hl; try done. injection Hl as Hl.
  cbn [memcmp]. destruct (Z.compare_spec b1 b2) as [->| |].
  - rewrite (IH l2 Hl). split; congruence.
  - split; [done|]. intros [= -> _]. lia.
  - split; [done|]. intros [= -> _]. lia.
Qed.

(** Zero-terminated names cannot be told from longer ones by their prefix. *)
Lemma terminated_prefix (a b r1 r2 : list Z) :
  Forall (fun x => 0 < x < 256) a -> Forall (fun x => 0 < x < 256) b ->
  (a ++ 0 :: r1) `prefix_of` (b ++ 0 :: r2) -> a = b /\ r1 `prefix_of` r2.
Proof.
  revert b. induction a as [|x a IH]; intros [|y b] Ha Hb Hp; simpl in Hp.
  - split; [done|]. by apply prefix_cons_inv_2 in Hp.
  - apply prefix_cons_inv_1 in Hp as Hy. apply Forall_cons in Hb as [? _]. lia.
  - apply prefix_cons_inv_1 in Hp as Hy. apply Forall_cons in Ha as [? _]. lia.
  - apply Forall_cons in Ha as [_ Ha]. apply Forall_cons in Hb as [_ Hb].
    pose proof (prefix_cons_inv_1 _ _ _ _ Hp) as ->. apply prefix_cons_inv_2 in Hp.
    destruct (IH b Ha Hb Hp) as [-> ?]. done.
Qed.

Lemma namespace_code_inj a b : namespace_code a = namespace_code b -> a = b.
Proof. destruct a, b; simpl; congruence || lia. Qed.

Lemma packed_prefix ns db n ns' db' n' :
  name_ok db -> name_ok n -> name_ok db' -> name_ok n' ->
  packed ns db n `prefix_of` packed ns' db' n' -> ns = ns' /\ db = db' /\ n = n'.
Proof.
  intros [H1 _] [H2 _] [H3 _] [H4 _] Hp. unfold packed in Hp.
  pose proof (namespace_code_inj _ _ (prefix_cons_inv_1 _ _ _ _ Hp)) as ->.
  apply prefix_cons_inv_2 in Hp. apply terminated_prefix in Hp as [-> Hp]; [|done..].
  apply terminated_prefix in Hp as [-> _]; [|done..]. done.
Qed.

Lemma init_lower old ns db n k :
  mdl_key_init old ns db n = Some k -> ns = USER_LOCK \/ ok_for_lower_case_names db = true.
Proof.
  unfold mdl_key_init. destruct (_ && _); [|done]. cbn zeta.
  destruct (bool_decide_reflect (ns = USER_LOCK)); [by left|]. cbn [orb].
  destruct (ok_for_lower_case_names db); [by right|done].
Qed.

(** C21: Keys are compared by what they name: [is_equal] and [cmp] of two keys
    that were initialised with names of at most [NAME_LEN] bytes say "equal"
    exactly when namespace, database and name are the same, also for keys of
    different lengths, and then the hash values agree. *)
Theorem mdl_key_identity old old' ns db n ns' db' n' k k' :
  name_ok db -> name_ok n -> name_ok db' -> name_ok n' ->
  mdl_key_init old ns db n = Some k -> mdl_key_init old' ns' db' n' = Some k' ->
  let same := ns = ns' /\ db = db' /\ n = n' in
  (is_equal k k' = true <-> same) /\ (cmp k k' = Eq <-> same) /\
  (same -> hash_value k = hash_value k').
Proof using Hstrmake.
  intros H1 H2 H3 H4 E E' same.
  destruct (init_packed old ns db n H1 H2 (init_lower _ _ _ _ _ E)) as (k0&Ek&Hl&_&Hp&Hh&_).
  destruct (init_packed old' ns' db' n' H3 H4 (init_lower _ _ _ _ _ E')) as (k0'&Ek'&Hl'&_&Hp'&Hh'&_).
  rewrite Ek in E. rewrite Ek' in E'. injection E as ->. injection E' as ->.
  assert (forall k ns db n j, ptr k = packed ns db n -> 0 <= j <= m_length k ->
    bytes (m_ptr k) 0 j = take (Z.to_nat j) (packed ns db n)) as Htake.
  { intros q a b c j <- Hj. unfold ptr. replace (m_length q) with (j + (m_length q - j)) by lia.
    rewrite bytes_app by lia. rewrite take_app_le by (rewrite bytes_length; lia).
    rewrite take_ge; [done|]. rewrite bytes_length. lia. }
  assert (cmp k k' = Eq <-> same) as Hcmp.
  { unfold cmp. rewrite (Htake k ns db n), (Htake k' ns' db' n') by (done || lia).
    rewrite memcmp_eq by (rewrite !length_take; lia). rewrite Hl, Hl'. split.
    - intros Et. destruct (Nat.le_ge_cases (length (packed ns db n)) (length (packed ns' db' n'))) as [Hle|Hle].
      + rewrite Z.min_l, Nat2Z.id, (take_ge (packed ns db n)) in Et by lia.
        apply packed_prefix; [done..|]. rewrite Et. apply prefix_take.
      + rewrite Z.min_r, Nat2Z.id, (take_ge (packed ns' db' n')) in Et by lia.
        destruct (packed_prefix ns' db' n' ns db n) as (->&->&->); [done..| |done].
        rewrite <- Et. apply prefix_take.
    - intros (->&->&->). done. }
  split; [|split; [done|]].
  - rewrite <- Hcmp. unfold is_equal, cmp. destruct (Z.eqb_spec (m_length k) (m_length k')) as [El|El].
    + rewrite El, Z.min_id, bool_decide_eq_true. done.
    + split; [done|]. intros (->&->&->)%Hcmp. congruence.
  - intros (->&->&->). unfold hash_value. rewrite Hh, Hh'. do 2 f_equal.
    unfold mdl_namespace. unfold ptr, bytes in Hp, Hp'.
    rewrite Hl, seqZ_cons in Hp by (simpl; lia). rewrite Hl', seqZ_cons in Hp' by (simpl; lia).
    apply (f_equal head) in Hp, Hp'. simpl in Hp, Hp'. congruence.
Qed.

End key.

(** Table test.t1 and table test.t10, with a hash that adds the bytes. *)
Definition sample_hash : list Z -> Z := foldr Z.add 0.
Definition sample_lower (l : list Z) : bool := forallb (fun c => negb ((65 <=? c) && (c <=? 90))) l.
Definition sample_strmake (m : mem) (dst : Z) (src : list Z) (length : Z) : mem * Z :=
  let l := take (Z.to_nat length) src in
  (write_bytes m dst (l ++ [0]), dst + Z.of_nat (List.length l)).

Lemma sample_strmake_law : strmake_law sample_strmake.
Proof.
  intros m dst src n Hn. unfold sample_strmake. rewrite take_ge by lia. cbn [fst snd].
  assert (Z.of_nat (length (src ++ [0])) = Z.of_nat (length src) + 1) as El by (rewrite length_app; simpl; lia).
  split; [rewrite <- El; apply bytes_write|]. split; [done|].
  intros x Hx. apply (write_bytes_frame _ _ _ x 1); lia.
Qed.

Definition sample_init := mdl_key_init sample_hash sample_lower sample_strmake (fun _ => 0).

Lemma name_ok_small l : Forall (fun b => 0 < b < 256) l -> (length l <= 192)%nat -> name_ok l.
Proof. intros H1 H2. split; [done|]. unfold NAME_LEN, NAME_CHAR_LEN, SYSTEM_CHARSET_MBMAXLEN. lia. Qed.

Lemma mdl_key_roundtrip_witness :
  exists k, sample_init TABLE [116; 101] [116; 49] = Some k /\
    db_name k = [116; 101] /\ name k = [116; 49].
Proof.
  destruct (mdl_key_roundtrip sample_hash sample_lower sample_strmake sample_strmake_law
    (fun _ => 0) (fun _ => 9) TABLE [116; 101] [116; 49])
    as (k&E&_&H1&H2&_).
  - apply name_ok_small; [repeat constructor; lia|simpl; lia].
  - apply name_ok_small; [repeat constructor; lia|simpl; lia].
  - by right.
  - by exists k.
Defined.

Lemma mdl_key_identity_witness :
  match sample_init TABLE [116] [116; 49], sample_init TABLE [116] [116; 49; 48] with
  | Some k, Some k' => cmp k k' <> Eq /\ is_equal k k' <> true
  | _, _ => False
  end.
Proof.
  destruct (sample_init TABLE [116] [116; 49]) as [k|] eqn:E; [|done].
  destruct (sample_init TABLE [116] [116; 49; 48]) as [k'|] eqn:E'; [|done].
  destruct (mdl_key_identity sample_hash sample_lower sample_strmake sample_strmake_law
    (fun _ => 0) (fun _ => 0) TABLE [116] [116; 49]
    TABLE [116] [116; 49; 48] k k') as (H0&H&_);
    [apply name_ok_small; [repeat constructor; lia|simpl; lia]..|exact E|exact E'|].
  rewrite H, H0. split; by intros (_&_&?).
Defined.

End Key.

(** ** Requests *)

Module Request.
Import Key.

Inductive enum_mdl_type :=
| MDL_NOT_INITIALIZED | MDL_INTENTION_EXCLUSIVE | MDL_SHARED | MDL_SHARED_HIGH_PRIO
| MDL_SHARED_READ | MDL_SHARED_WRITE | MDL_SHARED_UPGRADABLE | MDL_SHARED_READ_ONLY
| MDL_SHARED_NO_WRITE | MDL_SHARED_NO_READ_WRITE | MDL_EXCLUSIVE | MDL_TYPE_END.

#[export] Instance mdl_type_eq_dec : EqDecision enum_mdl_type.
Proof. solve_decision. Defined.

Definition type_code (t : enum_mdl_type) : Z :=
  match t with
  | MDL_NOT_INITIALIZED => -1 | MDL_INTENTION_EXCLUSIVE => 0 | MDL_SHARED => 1
  | MDL_SHARED_HIGH_PRIO => 2 | MDL_SHARED_READ => 3 | MDL_SHARED_WRITE => 4
  | MDL_SHARED_UPGRADABLE => 5 | MDL_SHARED_READ_ONLY => 6 | MDL_SHARED_NO_WRITE => 7
  | MDL_SHARED_NO_READ_WRITE => 8 | MDL_EXCLUSIVE => 9 | MDL_TYPE_END => 10
  end.

Inductive enum_mdl_duration := MDL_STATEMENT | MDL_TRANSACTION | MDL_EXPLICIT | MDL_DURATION_END.

(** A ticket is its address; the list pointers are kept as the pair of their
    values. *)
Record MDL_request := mk_req {
  type : enum_mdl_type;
  duration : enum_mdl_duration;
  in_list : N * N;          (* next_in_list, prev_in_list *)
  ticket : option N;        (* None: the null pointer *)
  key : MDL_key
}.

(** The default constructor in the memory [raw]: the other members stay as
    they are. *)
Definition MDL_request_default (raw : MDL_request) : MDL_request :=
  mk_req MDL_NOT_INITIALIZED (duration raw) (in_list raw) None (key raw).

(** The constructor from a pointer to a request, in the memory [raw]. *)
Definition MDL_request_copy (raw rhs : MDL_request) : MDL_request :=
  mk_req (type rhs) (duration rhs) (in_list raw) None (mdl_key_copy (m_ptr (key raw)) (key rhs)).

Definition assign (this : MDL_request) : MDL_request :=
  mk_req MDL_NOT_INITIALIZED (duration this) (in_list this) None (key this).

(** Refused by the assertion for a granted request. *)
Definition set_type (this : MDL_request) (type_arg : enum_mdl_type) : option MDL_request :=
  match ticket this with
  | None => Some (mk_req type_arg (duration this) (in_list this) None (key this))
  | Some _ => None
  end.

(** The requests by address: the two of [move_from] may be the same one. *)
Definition store := N -> MDL_request.
Definition upd (s : store) (i : N) (r : MDL_request) : store :=
  fun j => if decide (j = i) then r else s j.

Definition move_from (s : store) (this from : N) : store :=
  let f := s from in
  let s := upd s this (mk_req (type f) (duration f) (in_list f) (ticket f)
                         (mdl_key_copy (m_ptr (key (s this))) (key f))) in
  let f := s from in
  upd s from (mk_req (type f) (duration f) (in_list f) None (key f)).

Definition is_write_lock_request (r : MDL_request) : bool :=
  (type_code MDL_SHARED_WRITE <=? type_code (type r)) &&
  negb (bool_decide (type r = MDL_SHARED_READ_ONLY)).

(** [MDL_ticket::is_upgradable_or_exclusive], on the ticket's [m_type]. *)
Definition is_upgradable_or_exclusive (m_type : enum_mdl_type) : bool :=
  bool_decide (m_type = MDL_SHARED_UPGRADABLE) || bool_decide (m_type = MDL_SHARED_NO_WRITE) ||
  bool_decide (m_type = MDL_SHARED_NO_READ_WRITE) || bool_decide (m_type = MDL_EXCLUSIVE).

(** ** Properties *)

(** What the code does to requests; [Grant] is the lock manager, which stores
    a ticket that no request has in a request that has none. *)
Inductive cmd :=
| Construct (i : N) | Copy (i j : N) | Assign (i : N) | SetType (i : N) (t : enum_mdl_type)
| MoveFrom (i j : N) | Grant (i : N) (t : N).

Inductive step : store -> cmd -> store -> Prop :=
| step_construct s i : step s (Construct i) (upd s i (MDL_request_default (s i)))
| step_copy s i j : step s (Copy i j) (upd s i (MDL_request_copy (s i) (s j)))
| step_assign s i : step s (Assign i) (upd s i (assign (s i)))
| step_set_type s i t r : set_type (s i) t = Some r -> step s (SetType i t) (upd s i r)
| step_move s i j : step s (MoveFrom i j) (move_from s i j)
| step_grant s i t :
    ticket (s i) = None -> (forall j, ticket (s j) <> Some t) ->
    step s (Grant i t)
      (upd s i (mk_req (type (s i)) (duration (s i)) (in_list (s i)) (Some t) (key (s i)))).

Inductive steps : store -> list cmd -> store -> Prop :=
| steps_nil s : steps s [] s
| steps_cons s c s' cs s'' : step s c s' -> steps s' cs s'' -> steps s (c :: cs) s''.

(** Every ticket has one request. *)
Definition unshared (s : store) : Prop :=
  forall i j t, ticket (s i) = Some t -> ticket (s j) = Some t -> i = j.

Lemma upd_eq s i r : upd s i r i = r.
Proof. unfold upd. by rewrite decide_True. Qed.
Lemma upd_ne s i r j : j <> i -> upd s i r j = s j.
Proof. intros. unfold upd. by rewrite decide_False. Qed.

Lemma unshared_upd s i r :
  unshared s -> (forall t, ticket r = Some t -> forall j, j <> i -> ticket (s j) <> Some t) ->
  unshared (upd s i r).
Proof.
  intros H Hr a b t. unfold upd.
  destruct (decide (a = i)) as [->|Ha], (decide (b = i)) as [->|Hb]; [done| | |apply H].
  - intros Ht Hs. by destruct (Hr t Ht b Hb).
  - intros Hs Ht. by destruct (Hr t Ht a Ha).
Qed.

Lemma unshared_move s i j : unshared s -> unshared (move_from s i j).
Proof.
  intros H a b t. unfold move_from, upd. pose proof (H j) as Hj.
  repeat case_decide; simplify_eq/=; try done; intros Ha Hb; try by eapply H.
  - by destruct (Hj b t).
  - by destruct (Hj a t).
Qed.

Lemma unshared_step s c s' : unshared s -> step s c s' -> unshared s'.
Proof.
  intros H Hs. destruct Hs as [s i|s i j|s i|s i t r E|s i j|s i t E Hf];
    [..|by apply unshared_move|]; apply unshared_upd; try done; simpl.
  - unfold set_type in E. destruct (ticket (s i)); [done|]. injection E as <-. done.
  - intros t' [= <-] k _. apply Hf.
Qed.

(** No two lock requests ever hold the same ticket: constructing, copying,
    assigning, retyping and moving requests, also a request onto itself, in any
    order and with tickets granted in between, leave every ticket with one
    request; a granted request is never retyped. *)
Theorem request_ticket_unshared s cs s' :
  unshared s -> steps s cs s' ->
  unshared s' /\ (forall i t, ticket (s' i) <> None -> set_type (s' i) t = None).
Proof.
  intros H Hs. split.
  - induction Hs as [|s c s1 cs s2 Hstep _ IH]; [done|]. eauto using unshared_step.
  - intros i t. unfold set_type. by destruct (ticket (s' i)).
Qed.

(** A move hands over type, duration, list position, ticket and key; the source
    keeps all but the ticket.  A request moved onto itself loses its ticket. *)
Theorem move_from_spec s i j :
  let s' := move_from s i j in
  (i <> j -> type (s' i) = type (s j) /\ duration (s' i) = duration (s j) /\
     in_list (s' i) = in_list (s j) /\ ticket (s' i) = ticket (s j) /\
     Key.ptr (key (s' i)) = Key.ptr (key (s j)) /\
     key (s' j) = key (s j) /\ type (s' j) = type (s j)) /\
  ticket (s' j) = None /\ (forall a, a <> i -> a <> j -> s' a = s a).
Proof.
  assert (forall m (k : MDL_key), Key.ptr (mdl_key_copy m k) = Key.ptr k) as Hk.
  { intros m k. unfold Key.ptr, mdl_key_copy. cbn [m_ptr m_length].
    destruct (Z.le_gt_cases (m_length k) 0); [by rewrite !bytes_nil|].
    replace (m_length k) with (Z.of_nat (length (Key.ptr k))) at 1; [apply bytes_write|].
    unfold Key.ptr. rewrite bytes_length. lia. }
  unfold move_from. split; [|split].
  - intros Hij. rewrite !(upd_ne _ j _ i), !upd_eq, (upd_ne s i _ j) by done. cbn. by rewrite Hk.
  - by rewrite upd_eq.
  - intros a H1 H2. by rewrite !upd_ne.
Qed.

Definition key0 : MDL_key := mk 0 0 0 (fun _ => 0).
Definition store0 : store := fun _ => mk_req MDL_NOT_INITIALIZED MDL_STATEMENT (0, 0)%N None key0.

Definition sample_cmds : list cmd :=
  [SetType 1 MDL_SHARED_READ; Grant 1 70; MoveFrom 2 1; Copy 3 2; Grant 1 71].

Lemma request_ticket_unshared_witness :
  exists s', steps store0 sample_cmds s' /\ unshared s' /\
    ticket (s' 2%N) = Some 70%N /\ ticket (s' 1%N) = Some 71%N /\ ticket (s' 3%N) = None /\
    type (s' 3%N) = MDL_SHARED_READ.
Proof.
  assert (exists s', steps store0 sample_cmds s' /\
    ticket (s' 2%N) = Some 70%N /\ ticket (s' 1%N) = Some 71%N /\ ticket (s' 3%N) = None /\
    type (s' 3%N) = MDL_SHARED_READ) as (s'&Hs&Ht).
  { eexists. split.
    - econstructor; [by apply step_set_type|].
      econstructor; [apply step_grant; [done|]|].
      { intros j. unfold upd. case_decide; done. }
      econstructor; [apply step_move|]. econstructor; [apply step_copy|].
      econstructor; [apply step_grant; [done|]|constructor].
      intros j. unfold move_from, upd. repeat (case_decide; simplify_eq/=; try done).
    - done. }
  exists s'. split; [done|]. split; [|done].
  refine (proj1 (request_ticket_unshared store0 _ s' _ Hs)). intros i j t Hi. done.
Defined.

End Request.

(** ** Contexts of lock owners *)

Module Context.
Import Request.

(** [m_tickets] is an array of [I_P_List]s, given by their addresses in
    the list heap; [m_waiting_for] is represented by the deadlock weight of what
    is waited for. *)
Record MDL_context := mk_ctx {
  m_tickets : enum_mdl_duration -> N;
  m_needs_thr_lock_abort : bool;
  m_waiting_for : option Z;
  m_deadlock_overweight : Z             (* uint *)
}.

Definition has_locks (h : PList.heap) (c : MDL_context) : bool :=
  negb (PList.is_empty h (m_tickets c MDL_STATEMENT) &&
        PList.is_empty h (m_tickets c MDL_TRANSACTION) &&
        PList.is_empty h (m_tickets c MDL_EXPLICIT)).
Definition has_explicit_locks (h : PList.heap) (c : MDL_context) : bool :=
  negb (PList.is_empty h (m_tickets c MDL_EXPLICIT)).
Definition has_transactional_locks (h : PList.heap) (c : MDL_context) : bool :=
  negb (PList.is_empty h (m_tickets c MDL_TRANSACTION)).

Record MDL_savepoint := mk_sp { m_stmt_ticket : N; m_trans_ticket : N }.
Definition mdl_savepoint (h : PList.heap) (c : MDL_context) : MDL_savepoint :=
  mk_sp (PList.front h (m_tickets c MDL_STATEMENT)) (PList.front h (m_tickets c MDL_TRANSACTION)).

(** Reading through a null [m_waiting_for] has no result. *)
Definition get_deadlock_weight (c : MDL_context) : option Z :=
  match m_waiting_for c with
  | Some w => Some (u32 (w + m_deadlock_overweight c))
  | None => None
  end.
Definition inc_deadlock_overweight (c : MDL_context) : MDL_context :=
  mk_ctx (m_tickets c) (m_needs_thr_lock_abort c) (m_waiting_for c)
    (u32 (m_deadlock_overweight c + 1)).
Definition set_needs_thr_lock_abort (c : MDL_context) (b : bool) : MDL_context :=
  mk_ctx (m_tickets c) b (m_waiting_for c) (m_deadlock_overweight c).
Definition will_wait_for (c : MDL_context) (w : Z) : MDL_context :=
  mk_ctx (m_tickets c) (m_needs_thr_lock_abort c) (Some w) (m_deadlock_overweight c).
Definition done_waiting_for (c : MDL_context) : MDL_context :=
  mk_ctx (m_tickets c) (m_needs_thr_lock_abort c) None (m_deadlock_overweight c).

(** ** Properties *)

(** The lists of the context hold the tickets [ts]. *)
Definition holds (p : PList.policy) (h : PList.heap) (c : MDL_context)
  (ts : enum_mdl_duration -> list N) : Prop :=
  forall d, PList.rep p h (m_tickets c d) (ts d).

Lemma plist_is_empty p h l ns : PList.rep p h l ns -> PList.is_empty h l = true <-> ns = [].
Proof.
  intros (Hseg&_&Hnull&_). unfold PList.is_empty, PList.m_first. rewrite N.eqb_eq.
  rewrite (PList.dseg_head _ _ _ _ Hseg). destruct ns as [|n ns]; simpl; [done|].
  split; [|done]. intros ->. destruct Hnull. constructor.
Qed.

(** The predicates of a context say which of its lists have tickets, and a
    savepoint holds the most recently added statement and transaction ticket,
    or null. *)
Theorem context_reads_tickets p h c ts :
  holds p h c ts ->
  (has_locks h c = true <-> ts MDL_STATEMENT <> [] \/ ts MDL_TRANSACTION <> [] \/ ts MDL_EXPLICIT <> []) /\
  (has_explicit_locks h c = true <-> ts MDL_EXPLICIT <> []) /\
  (has_transactional_locks h c = true <-> ts MDL_TRANSACTION <> []) /\
  mdl_savepoint h c = mk_sp (List.hd NULL (ts MDL_STATEMENT)) (List.hd NULL (ts MDL_TRANSACTION)).
Proof.
  intros H. pose proof (fun d => plist_is_empty p h _ _ (H d)) as He.
  unfold has_locks, has_explicit_locks, has_transactional_locks, mdl_savepoint, PList.front, PList.m_first.
  rewrite !negb_true_iff, !andb_false_iff, <- !not_true_iff_false, !He.
  split; [tauto|]. split; [done|]. split; [done|]. f_equal.
  - destruct (H MDL_STATEMENT) as (Hseg&_). apply (PList.dseg_head _ _ _ _ Hseg).
  - destruct (H MDL_TRANSACTION) as (Hseg&_). apply (PList.dseg_head _ _ _ _ Hseg).
Qed.

End Context.
