(* ===== verification/SqlCondition.v ===== *)
(** * SQL conditions (private/sql_error.h)

    The classes from [Sql_state] to [Sql_condition], one record per class with
    the base class as its first member.  A [char] array holds bytes from 0 to
    255; where the code compares a [char], it is read as the signed type it is
    on this platform.  Condition items are byte strings. *)

From Stdlib Require Import ZArith Lia.
From S2P Require Import Prelude Temporal.
From stdpp Require Import prelude list.
Local Open Scope Z_scope.
Local Open Scope cint_scope.

Module SqlState.

Definition SQLSTATE_LENGTH : nat := 5.

(** [m_sqlstate]: SQLSTATE_LENGTH + 1 bytes. *)
Definition Sql_state := list Z.

Definition construct : Sql_state := replicate (SQLSTATE_LENGTH + 1) 0.

(** [sqlstate] is what can be read from the pointer; [memcpy] reads five bytes
    of it. *)
Definition set_sqlstate (sqlstate : list Z) : option Sql_state :=
  if (SQLSTATE_LENGTH <=? length sqlstate)%nat
  then Some (take SQLSTATE_LENGTH sqlstate ++ [0])
  else None.

Definition get_sqlstate (s : Sql_state) : list Z := s.

(** The bytes in front of the terminating zero. *)
Fixpoint cstring (l : list Z) : list Z :=
  match l with
  | [] => []
  | b :: l => if b =? 0 then [] else b :: cstring l
  end.

(** [strcmp] is 0. *)
Definition eq (s other : Sql_state) : bool := bool_decide (cstring s = cstring other).

Definition byte_at (s : Sql_state) (i : nat) : Z := nth i s 0.
Definition char_at (s : Sql_state) (i : nat) : Z := sgn 8 (byte_at s i).

Definition has_sql_state (s : Sql_state) : bool := negb (char_at s 0 =? 0).
Definition is_warning (s : Sql_state) : bool := (char_at s 0 =? 48) && (char_at s 1 =? 49).
Definition is_not_found (s : Sql_state) : bool := (char_at s 0 =? 48) && (char_at s 1 =? 50).
Definition is_exception (s : Sql_state) : bool := negb (char_at s 0 =? 48) || (50 <? char_at s 1).

(** The function at the end of the header, on the characters themselves. *)
Definition is_sqlstate_completion (s : list Z) : bool := (char_at s 0 =? 48) && (char_at s 1 =? 48).

(** ** Properties *)

(** The characters of SQL states. *)
Definition state_char (b : Z) : Prop := 48 <= b <= 57 \/ 65 <= b <= 90.

(** A valid SQL state: five such characters, whatever follows them. *)
Definition valid_state (l : list Z) : Prop :=
  (SQLSTATE_LENGTH <= length l)%nat /\ Forall state_char (take SQLSTATE_LENGTH l).

(** The classes of the SQL standard, by the first two characters. *)
Inductive state_class := Completion | Warning | NotFound | Exception_.

#[export] Instance state_class_eq_dec : EqDecision state_class.
Proof. solve_decision. Defined.

Definition classify (l : list Z) : state_class :=
  match l with
  | 48 :: 48 :: _ => Completion
  | 48 :: 49 :: _ => Warning
  | 48 :: 50 :: _ => NotFound
  | _ => Exception_
  end.

Lemma valid_state_inv l :
  valid_state l -> exists a b c d e r, l = a :: b :: c :: d :: e :: r /\
    state_char a /\ state_char b /\ state_char c /\ state_char d /\ state_char e.
Proof.
  intros [Hl Hf]. unfold SQLSTATE_LENGTH in *.
  destruct l as [|a [|b [|c [|d [|e r]]]]]; cbn in Hl; try lia.
  exists a, b, c, d, e, r. split; [done|]. cbn in Hf. rewrite !Forall_cons in Hf. tauto.
Qed.

Lemma char_small b : state_char b -> sgn 8 b = b.
Proof. intros H. apply sgn_small; [done|]. unfold srange, state_char in *. simpl. lia. Qed.

(** Deciding a class from two characters. *)
Lemma classify_chars a b r :
  state_char a -> state_char b ->
  bool_decide (classify (a :: b :: r) = Completion) = (a =? 48) && (b =? 48) /\
  bool_decide (classify (a :: b :: r) = Warning) = (a =? 48) && (b =? 49) /\
  bool_decide (classify (a :: b :: r) = NotFound) = (a =? 48) && (b =? 50) /\
  bool_decide (classify (a :: b :: r) = Exception_) = negb (a =? 48) || (50 <? b).
Proof.
  intros Ha Hb. destruct (Z.eqb_spec a 48) as [->|Hne]; cbn [andb negb orb].
  - assert (b = 48 \/ b = 49 \/ b = 50 \/ 50 < b) as [->|[->|[->|Hgt]]]
      by (unfold state_char in Hb; lia); try done.
    assert (classify (48 :: b :: r) = Exception_) as ->.
    { cbn. repeat (case_match; try done); lia. }
    rewrite (proj2 (Z.ltb_lt 50 b) Hgt).
    repeat split; symmetry; try done; apply Z.eqb_neq; lia.
  - assert (classify (a :: b :: r) = Exception_) as ->.
    { cbn. repeat (case_match; try done). }
    done.
Qed.

(** For every valid SQL state exactly one of the four predicates holds, the
    one of its class: completion, warning, not found or exception.  Setting the
    state keeps its five characters with a zero after them, and two states are
    equal exactly when their five characters are. *)
Theorem sqlstate_classes l :
  valid_state l ->
  exists s, set_sqlstate l = Some s /\ get_sqlstate s = take SQLSTATE_LENGTH l ++ [0] /\
    has_sql_state s = true /\
    is_sqlstate_completion s = bool_decide (classify l = Completion) /\
    is_warning s = bool_decide (classify l = Warning) /\
    is_not_found s = bool_decide (classify l = NotFound) /\
    is_exception s = bool_decide (classify l = Exception_) /\
    forall l' s', valid_state l' -> set_sqlstate l' = Some s' ->
      (eq s s' = true <-> take SQLSTATE_LENGTH l = take SQLSTATE_LENGTH l').
Proof.
  intros Hv. assert (forall m, valid_state m -> set_sqlstate m = Some (take SQLSTATE_LENGTH m ++ [0]) /\
    cstring (take SQLSTATE_LENGTH m ++ [0]) = take SQLSTATE_LENGTH m) as Hset.
  { intros m Hm. destruct (valid_state_inv m Hm) as (a&b&c&d&e&r&->&?&?&?&?&?). split; [done|].
    cbn. repeat (case_match; [unfold state_char in *; lia|]). done. }
  destruct (Hset l Hv) as [E Ec]. exists (take SQLSTATE_LENGTH l ++ [0]).
  assert (forall l' s', valid_state l' -> set_sqlstate l' = Some s' ->
    (eq (take SQLSTATE_LENGTH l ++ [0]) s' = true <->
     take SQLSTATE_LENGTH l = take SQLSTATE_LENGTH l')) as Heq.
  { intros l' s' Hv'. destruct (Hset l' Hv') as [-> Ec']. intros [= <-].
    unfold eq. by rewrite bool_decide_eq_true, Ec', Ec. }
  destruct (valid_state_inv l Hv) as (a&b&c&d&e&r&Hl&Ha&Hb&_).
  destruct (classify_chars a b (c :: d :: e :: r) Ha Hb) as (C1&C2&C3&C4).
  split; [done|]. split; [done|].
  unfold is_sqlstate_completion, is_warning, is_not_found, is_exception, has_sql_state, char_at.
  rewrite Hl, C1, C2, C3, C4. unfold byte_at. cbn [take SQLSTATE_LENGTH app nth].
  rewrite (char_small a Ha), (char_small b Hb).
  split; [|do 4 (split; [done|]); rewrite Hl in Heq; exact Heq].
  apply negb_true_iff, Z.eqb_neq. unfold state_char in Ha. lia.
Qed.

(** 42S02, a table that does not exist. *)
Lemma sqlstate_classes_witness :
  exists s, set_sqlstate [52; 50; 83; 48; 50; 0] = Some s /\ is_exception s = true.
Proof.
  destruct (sqlstate_classes [52; 50; 83; 48; 50; 0]) as (s&E&_&_&_&_&_&H&_).
  - split; [unfold SQLSTATE_LENGTH; simpl; lia|]. cbn. unfold state_char. repeat constructor; lia.
  - by exists s.
Defined.

End SqlState.

(** ** The classes built on SQL states *)

Module Condition.
Import SqlState.

Record Sql_state_errno := mk_errno { state : Sql_state; m_sql_errno : Z }.

Definition errno_default : Sql_state_errno := mk_errno construct 0.
Definition errno_of (sql_errno : Z) : Sql_state_errno := mk_errno construct sql_errno.
(** The constructor with a SQL state, and [set]. *)
Definition errno_set (sql_errno : Z) (sql_state : list Z) : option Sql_state_errno :=
  s ← set_sqlstate sql_state; Some (mk_errno s sql_errno).
Definition errno_clear (this : Sql_state_errno) : Sql_state_errno := mk_errno (state this) 0.

Inductive enum_warning_level := WARN_LEVEL_NOTE | WARN_LEVEL_WARN | WARN_LEVEL_ERROR | WARN_LEVEL_END.

#[export] Instance warning_level_eq_dec : EqDecision enum_warning_level.
Proof. solve_decision. Defined.

Record Sql_state_errno_level := mk_level { errno : Sql_state_errno; m_level : enum_warning_level }.

Definition level_default : Sql_state_errno_level := mk_level errno_default WARN_LEVEL_ERROR.
Definition level_clear (this : Sql_state_errno_level) : Sql_state_errno_level :=
  mk_level (errno_clear (errno this)) WARN_LEVEL_ERROR.

(** The identity of a user condition: a pointer. *)
Definition Sql_user_condition_identity := option N.
Definition user_clear (_ : Sql_user_condition_identity) : Sql_user_condition_identity := None.

Record Sql_condition_identity := mk_identity {
  level : Sql_state_errno_level;
  m_user_condition_value : Sql_user_condition_identity
}.

Definition identity_default : Sql_condition_identity := mk_identity level_default None.
Definition identity_of (st : Sql_state_errno) (l : enum_warning_level)
  (ucid : Sql_user_condition_identity) : Sql_condition_identity := mk_identity (mk_level st l) ucid.
Definition identity_make (sqlerrno : Z) (sqlstate : list Z) (l : enum_warning_level)
  (ucid : Sql_user_condition_identity) : option Sql_condition_identity :=
  e ← errno_set sqlerrno sqlstate; Some (identity_of e l ucid).
Definition identity_clear (this : Sql_condition_identity) : Sql_condition_identity :=
  mk_identity (level_clear (level this)) (user_clear (m_user_condition_value this)).

Record Sql_condition_items := mk_items {
  m_class_origin : list Z; m_subclass_origin : list Z; m_constraint_catalog : list Z;
  m_constraint_schema : list Z; m_constraint_name : list Z; m_catalog_name : list Z;
  m_schema_name : list Z; m_table_name : list Z; m_column_name : list Z; m_cursor_name : list Z;
  m_row_number : Z                     (* ulong *)
}.

Definition items_default : Sql_condition_items := mk_items [] [] [] [] [] [] [] [] [] [] 0.
(** [length(0)] of every string. *)
Definition items_clear (i : Sql_condition_items) : Sql_condition_items :=
  let cut := take 0 in
  mk_items (cut (m_class_origin i)) (cut (m_subclass_origin i)) (cut (m_constraint_catalog i))
    (cut (m_constraint_schema i)) (cut (m_constraint_name i)) (cut (m_catalog_name i))
    (cut (m_schema_name i)) (cut (m_table_name i)) (cut (m_column_name i)) (cut (m_cursor_name i)) 0.
Definition set_row_number (i : Sql_condition_items) (n : Z) : Sql_condition_items :=
  mk_items (m_class_origin i) (m_subclass_origin i) (m_constraint_catalog i)
    (m_constraint_schema i) (m_constraint_name i) (m_catalog_name i)
    (m_schema_name i) (m_table_name i) (m_column_name i) (m_cursor_name i) n.

Record Sql_condition := mk_cond {
  identity : Sql_condition_identity;
  items : Sql_condition_items;
  m_message_text : list Z;
  m_mem_root : option N
}.

Definition time_warn_level (warnings : Z) : enum_warning_level :=
  if Temporal.MYSQL_TIME_WARN_HAVE_WARNINGS warnings then WARN_LEVEL_WARN else WARN_LEVEL_NOTE.

Definition cond_default : Sql_condition := mk_cond identity_default items_default [] None.

(** Both assertions: there is a memory root, and none was set before. *)
Definition cond_init (this : Sql_condition) (mem_root : option N) : option Sql_condition :=
  match mem_root, m_mem_root this with
  | Some r, None => Some (mk_cond (identity this) (items this) (m_message_text this) (Some r))
  | _, _ => None
  end.

Definition cond_of_root (mem_root : option N) : option Sql_condition :=
  r ← mem_root; Some (mk_cond identity_default items_default [] (Some r)).
Definition cond_of_user (mem_root : option N) (ucid : Sql_user_condition_identity)
  : option Sql_condition :=
  r ← mem_root; Some (mk_cond (mk_identity level_default ucid) items_default [] (Some r)).

(** [builtin_text] is [set_builtin_message_text], the conversion from the
    character set of the message; a null message fails the assertion. *)
Definition cond_of_message (builtin_text : list Z -> list Z) (mem_root : option N)
    (value : Sql_condition_identity) (msg : option (list Z)) (current_row_for_warning : Z)
  : option Sql_condition :=
  if m_sql_errno (errno (level value)) =? 0 then None
  else m ← msg;
    Some (mk_cond value (set_row_number items_default current_row_for_warning) (builtin_text m)
            mem_root).

Definition cond_clear (this : Sql_condition) : Sql_condition :=
  mk_cond (identity_clear (identity this)) (items_clear (items this)) (take 0 (m_message_text this))
    (m_mem_root this).

(** Clearing a condition resets everything but the SQL state and the memory
    root: what remains is a fresh condition that still has its SQL state. *)
Theorem cond_clear_keeps_state (c : Sql_condition) :
  let s := state (errno (level (identity c))) in
  cond_clear c =
    mk_cond (identity_of (mk_errno s 0) WARN_LEVEL_ERROR None) items_default [] (m_mem_root c) /\
  (has_sql_state s = true -> cond_clear c <> mk_cond identity_default items_default [] (m_mem_root c)).
Proof.
  split; [done|]. intros Hs E. apply (f_equal (fun c => state (errno (level (identity c))))) in E.
  cbn in E. rewrite E in Hs. done.
Qed.

End Condition.
