(* ===== verification/Diagnostics.v ===== *)
(** * The diagnostics area (private/sql_error.h)

    [WarningInfo] models [Warning_info]: counters, flags and the conditions of
    one level.  [DiagnosticsArea] models [Diagnostics_area]: the status of a
    statement, and the stack of warning infos, an [I_P_List] with counter and
    fast [push_back] linked through the objects (file PList); every access goes
    to the object in front.  The functions that the header only declares are
    the operations of the interface [WarningImpl]. *)

From Stdlib Require Import ZArith Lia.
From S2P Require Import Prelude Links PList SqlCondition.
From stdpp Require Import prelude list.
Local Open Scope Z_scope.
Local Open Scope cint_scope.

Module WarningInfo.
Import SqlState Condition.

(** The list of conditions and the list of marked ones are the sequences of
    addresses that these lists refine. *)
Record Warning_info := mk {
  m_warn_list : list N;
  m_warn_count : enum_warning_level -> Z;       (* uint[WARN_LEVEL_END] *)
  m_current_statement_warn_count : Z;           (* uint *)
  m_current_row_for_warning : Z;                (* ulong *)
  m_warn_id : Z;                                (* ulonglong *)
  m_error_condition : option N;
  m_allow_unlimited_warnings : bool;
  initialized : bool;
  m_read_only : bool;
  m_marked_sql_conditions : list N
}.

(** The functions of [Warning_info] without a body in the header; the last
    argument is the object. *)
Class WarningImpl := {
  clear : Z -> Warning_info -> Warning_info;
  has_sql_condition : list Z -> Warning_info -> bool;
  append_warning_info : Warning_info -> Warning_info -> Warning_info;
  mark_sql_conditions_for_removal : Warning_info -> Warning_info;
  remove_marked_sql_conditions : Warning_info -> Warning_info;
  reserve_space : Z -> Warning_info -> Warning_info;
  push_condition : Sql_condition -> Warning_info -> Warning_info * option N;
  push_identity : Sql_condition_identity -> list Z -> Z -> Warning_info -> Warning_info * option N
}.

(** What the comment of [clear] says: no warnings, no counts, the first row,
    the new id. *)
Class WarningLaws (W : WarningImpl) := {
  clear_id q w : m_warn_id (clear q w) = q;
  clear_list q w : m_warn_list (clear q w) = [];
  clear_count q w l : m_warn_count (clear q w) l = 0
}.

Section warning_info.
Context {W : WarningImpl}.

Definition set_counters (w : Warning_info) (statement row id : Z) : Warning_info :=
  mk (m_warn_list w) (m_warn_count w) statement row id (m_error_condition w)
    (m_allow_unlimited_warnings w) (initialized w) (m_read_only w) (m_marked_sql_conditions w).

Definition opt_clear (query_id : Z) (w : Warning_info) : Warning_info :=
  if negb (query_id =? m_warn_id w) then clear query_id w else w.

Definition reset_for_next_command (w : Warning_info) : Warning_info :=
  set_counters w 0 (m_current_row_for_warning w) (m_warn_id w).

Definition set_marked (w : Warning_info) (l : list N) : Warning_info :=
  mk (m_warn_list w) (m_warn_count w) (m_current_statement_warn_count w)
    (m_current_row_for_warning w) (m_warn_id w) (m_error_condition w)
    (m_allow_unlimited_warnings w) (initialized w) (m_read_only w) l.

Definition unmark_sql_conditions_from_removal (w : Warning_info) : Warning_info := set_marked w [].

(** The result of [push_back] is ignored: without memory ([mem] is false) the
    condition is not marked. *)
Definition mark_condition_for_removal (mem : bool) (cond : N) (w : Warning_info) : Warning_info :=
  if mem then set_marked w (m_marked_sql_conditions w ++ [cond]) else w.

(** The sum of three [uint]s, then converted to [ulong]. *)
Definition warn_count (w : Warning_info) : Z :=
  u32 (u32 (m_warn_count w WARN_LEVEL_NOTE + m_warn_count w WARN_LEVEL_ERROR) +
       m_warn_count w WARN_LEVEL_WARN).
Definition error_count (w : Warning_info) : Z := m_warn_count w WARN_LEVEL_ERROR.
Definition cond_count (w : Warning_info) : Z := u32 (Z.of_nat (length (m_warn_list w))).
Definition id (w : Warning_info) : Z := m_warn_id w.
Definition set_id (id_arg : Z) (w : Warning_info) : Warning_info :=
  set_counters w (m_current_statement_warn_count w) (m_current_row_for_warning w) id_arg.
Definition is_empty (w : Warning_info) : bool := bool_decide (m_warn_list w = []).
Definition inc_current_row_for_warning (w : Warning_info) : Warning_info :=
  set_counters w (m_current_statement_warn_count w) (u32 (m_current_row_for_warning w + 1))
    (m_warn_id w).
Definition reset_current_row_for_warning (n : Z) (w : Warning_info) : Warning_info :=
  set_counters w (m_current_statement_warn_count w) (u32 n) (m_warn_id w).
Definition current_row_for_warning (w : Warning_info) : Z := m_current_row_for_warning w.
Definition current_statement_warn_count (w : Warning_info) : Z := m_current_statement_warn_count w.

Definition set_read_only (read_only_arg : bool) (w : Warning_info) : Warning_info :=
  mk (m_warn_list w) (m_warn_count w) (m_current_statement_warn_count w)
    (m_current_row_for_warning w) (m_warn_id w) (m_error_condition w)
    (m_allow_unlimited_warnings w) (initialized w) read_only_arg (m_marked_sql_conditions w).
Definition is_read_only (w : Warning_info) : bool := m_read_only w.

Definition set_error_condition (c : option N) (w : Warning_info) : Warning_info :=
  mk (m_warn_list w) (m_warn_count w) (m_current_statement_warn_count w)
    (m_current_row_for_warning w) (m_warn_id w) c
    (m_allow_unlimited_warnings w) (initialized w) (m_read_only w) (m_marked_sql_conditions w).
Definition clear_error_condition (w : Warning_info) : Warning_info := set_error_condition None w.
Definition get_error_condition (w : Warning_info) : option N := m_error_condition w.

(** Within one query [opt_clear] clears at most once: afterwards the area has
    the id of the query, and whatever happens to it then, as long as the id
    stays, the next call for the same query changes nothing. *)
Theorem opt_clear_once (L : WarningLaws W) q w (f : Warning_info -> Warning_info) :
  (forall v, m_warn_id (f v) = m_warn_id v) ->
  m_warn_id (opt_clear q w) = q /\ opt_clear q (f (opt_clear q w)) = f (opt_clear q w) /\
  (m_warn_id w <> q -> warn_count (opt_clear q w) = 0 /\ is_empty (opt_clear q w) = true).
Proof.
  intros Hf. assert (m_warn_id (opt_clear q w) = q) as Hid.
  { unfold opt_clear. destruct (Z.eqb_spec q (m_warn_id w)) as [->|]; [done|apply clear_id]. }
  split; [done|]. split.
  - unfold opt_clear at 1. by rewrite Hf, Hid, Z.eqb_refl.
  - intros Hne. unfold opt_clear. rewrite (proj2 (Z.eqb_neq q (m_warn_id w))) by done. cbn [negb].
    unfold warn_count, is_empty. by rewrite !clear_count, clear_list.
Qed.

End warning_info.
End WarningInfo.

Module DiagnosticsArea.
Import SqlState Condition WarningInfo.

Inductive enum_diagnostics_status :=
| DA_EMPTY | DA_OK | DA_EOF | DA_OK_BULK | DA_EOF_BULK | DA_ERROR | DA_DISABLED.

#[export] Instance diagnostics_status_eq_dec : EqDecision enum_diagnostics_status.
Proof. solve_decision. Defined.

(** [m_wi_stack] is the address of the list object. *)
Record Diagnostics_area := mk_da {
  da_errno : Sql_state_errno;
  da_user : Sql_user_condition_identity;
  m_is_sent : bool;
  m_can_overwrite_status : bool;
  m_message : list Z;
  m_affected_rows : Z;              (* ulonglong *)
  m_last_insert_id : Z;             (* ulonglong *)
  m_statement_warn_count : Z;       (* uint *)
  m_status : enum_diagnostics_status;
  is_bulk_execution : bool;
  m_wi_stack : N
}.

Definition set_overwrite_status (d : Diagnostics_area) (b : bool) : Diagnostics_area :=
  mk_da (da_errno d) (da_user d) (m_is_sent d) b (m_message d) (m_affected_rows d)
    (m_last_insert_id d) (m_statement_warn_count d) (m_status d) (is_bulk_execution d) (m_wi_stack d).
Definition set_is_sent (d : Diagnostics_area) (b : bool) : Diagnostics_area :=
  mk_da (da_errno d) (da_user d) b (m_can_overwrite_status d) (m_message d) (m_affected_rows d)
    (m_last_insert_id d) (m_statement_warn_count d) (m_status d) (is_bulk_execution d) (m_wi_stack d).
Definition set_bulk_execution (d : Diagnostics_area) (b : bool) : Diagnostics_area :=
  mk_da (da_errno d) (da_user d) (m_is_sent d) (m_can_overwrite_status d) (m_message d)
    (m_affected_rows d) (m_last_insert_id d) (m_statement_warn_count d) (m_status d) b (m_wi_stack d).

Definition is_sent (d : Diagnostics_area) : bool := m_is_sent d.
Definition is_bulk_op (d : Diagnostics_area) : bool := is_bulk_execution d.
Definition status_in (d : Diagnostics_area) (l : list enum_diagnostics_status) : bool :=
  bool_decide (m_status d ∈ l).

Definition is_set (d : Diagnostics_area) : bool := negb (status_in d [DA_EMPTY]).
Definition is_error (d : Diagnostics_area) : bool := status_in d [DA_ERROR].
Definition is_eof (d : Diagnostics_area) : bool := status_in d [DA_EOF].
Definition is_ok (d : Diagnostics_area) : bool := status_in d [DA_OK].
Definition is_disabled (d : Diagnostics_area) : bool := status_in d [DA_DISABLED].

(** The readers with an assertion on the status. *)
Definition asserting {A} (d : Diagnostics_area) (l : list enum_diagnostics_status) (a : A) : option A :=
  if status_in d l then Some a else None.
Definition message (d : Diagnostics_area) : option (list Z) :=
  asserting d [DA_ERROR; DA_OK; DA_OK_BULK; DA_EOF_BULK] (m_message d).
Definition sql_errno (d : Diagnostics_area) : option Z :=
  asserting d [DA_ERROR] (m_sql_errno (da_errno d)).
Definition get_sqlstate (d : Diagnostics_area) : option (list Z) :=
  asserting d [DA_ERROR] (state (da_errno d)).
Definition affected_rows (d : Diagnostics_area) : option Z :=
  asserting d [DA_OK; DA_OK_BULK] (m_affected_rows d).
Definition last_insert_id (d : Diagnostics_area) : option Z :=
  asserting d [DA_OK; DA_OK_BULK] (m_last_insert_id d).
Definition statement_warn_count (d : Diagnostics_area) : option Z :=
  asserting d [DA_OK; DA_OK_BULK; DA_EOF; DA_EOF_BULK] (m_statement_warn_count d).
Definition get_error_condition_identity (d : Diagnostics_area) : option Sql_condition_identity :=
  asserting d [DA_ERROR] (identity_of (da_errno d) WARN_LEVEL_ERROR (da_user d)).

Definition increment_warning (d : Diagnostics_area) : Diagnostics_area :=
  if negb (bool_decide (m_status d = DA_EMPTY)) then
    mk_da (da_errno d) (da_user d) (m_is_sent d) (m_can_overwrite_status d) (m_message d)
      (m_affected_rows d) (m_last_insert_id d) (u32 (m_statement_warn_count d + 1)) (m_status d)
      (is_bulk_execution d) (m_wi_stack d)
  else d.

(** ** The stack of warning infos *)

(** The diagnostics area, the warning infos by address and their links. *)
Record world := mk_world {
  links : PList.heap;
  infos : N -> Warning_info;
  da : Diagnostics_area
}.

Definition wi_policy : PList.policy := PList.mk_policy true true.

Section area.
Context {W : WarningImpl}.

(** Null when the stack is empty. *)
Definition get_warning_info (w : world) : option N :=
  let a := PList.front (links w) (m_wi_stack (da w)) in
  if PList.nonnull a then Some a else None.

(** A call of a method on [get_warning_info()]. *)
Definition on_top (f : Warning_info -> Warning_info) (w : world) : option world :=
  a ← get_warning_info w; Some (mk_world (links w) (fupd (infos w) a (f (infos w a))) (da w)).
Definition read_top {A} (g : Warning_info -> A) (w : world) : option A :=
  a ← get_warning_info w; Some (g (infos w a)).
Definition on_top_res {A} (f : Warning_info -> Warning_info * A) (w : world) : option (world * A) :=
  a ← get_warning_info w;
  let '(i, r) := f (infos w a) in Some (mk_world (links w) (fupd (infos w) a i) (da w), r).

Definition push_warning_info (wi : N) (w : world) : world :=
  mk_world (PList.push_front wi_policy (links w) (m_wi_stack (da w)) wi) (infos w) (da w).

Definition pop_warning_info (w : world) : option world :=
  let l := m_wi_stack (da w) in
  if 0 <? PList.elements (links w) l then
    Some (mk_world (PList.remove wi_policy (links w) l (PList.front (links w) l)) (infos w) (da w))
  else None.

Definition set_warning_info_id (i : Z) : world -> option world := on_top (set_id i).
Definition warning_info_id : world -> option Z := read_top id.
Definition warning_info_changed (wi : N) (w : world) : option bool :=
  i ← warning_info_id w; Some (negb (i =? id (infos w wi))).
Definition is_warning_info_empty : world -> option bool := read_top is_empty.
Definition da_current_statement_warn_count : world -> option Z := read_top current_statement_warn_count.
Definition da_has_sql_condition (msg : list Z) : world -> option bool := read_top (has_sql_condition msg).
Definition da_reset_for_next_command : world -> option world := on_top reset_for_next_command.
Definition clear_warning_info (i : Z) : world -> option world := on_top (clear i).
Definition opt_clear_warning_info (query_id : Z) : world -> option world := on_top (opt_clear query_id).
Definition da_current_row_for_warning : world -> option Z := read_top current_row_for_warning.
Definition da_inc_current_row_for_warning : world -> option world := on_top inc_current_row_for_warning.
Definition da_reset_current_row_for_warning (n : Z) : world -> option world :=
  on_top (reset_current_row_for_warning n).
Definition is_warning_info_read_only : world -> option bool := read_top is_read_only.
Definition set_warning_info_read_only (b : bool) : world -> option world := on_top (set_read_only b).
Definition da_error_count : world -> option Z := read_top error_count.
Definition da_warn_count : world -> option Z := read_top warn_count.
Definition da_cond_count : world -> option Z := read_top cond_count.
Definition sql_conditions : world -> option (list N) := read_top m_warn_list.
Definition da_reserve_space (count : Z) : world -> option world := on_top (reserve_space count).
Definition da_push_condition (c : Sql_condition) : world -> option (world * option N) :=
  on_top_res (push_condition c).
Definition da_push_warning (sql_errno_arg : Z) (sqlstate : list Z) (level : enum_warning_level)
    (ucid : Sql_user_condition_identity) (msg : list Z) (current_row_number : Z) (w : world)
  : option (world * option N) :=
  tmp ← identity_make sql_errno_arg sqlstate level ucid;
  on_top_res (push_identity tmp msg current_row_number) w.
Definition da_push_warning_short (sqlerrno : Z) (sqlstate : list Z) (level : enum_warning_level)
    (msg : list Z) : world -> option (world * option N) :=
  da_push_warning sqlerrno sqlstate level None msg 0.
Definition da_mark_sql_conditions_for_removal : world -> option world :=
  on_top mark_sql_conditions_for_removal.
Definition da_unmark_sql_conditions_from_removal : world -> option world :=
  on_top unmark_sql_conditions_from_removal.
Definition da_remove_marked_sql_conditions : world -> option world := on_top remove_marked_sql_conditions.
Definition da_get_error_condition : world -> option (option N) := read_top get_error_condition.
Definition copy_sql_conditions_to_wi (dst_wi : N) (w : world) : option world :=
  a ← get_warning_info w;
  Some (mk_world (links w)
          (fupd (infos w) dst_wi (append_warning_info (infos w a) (infos w dst_wi))) (da w)).
Definition copy_sql_conditions_from_wi (src_wi : N) (w : world) : option world :=
  on_top (append_warning_info (infos w src_wi)) w.

(** ** Properties *)

(** Calls of a statement and of the handlers it activates: an object is made at
    an address and pushed, the front one is popped (and its owner looks at it),
    a method changes the front one, conditions are copied between the front one
    and any object, or a member of the area is set. *)
Inductive update :=
| USetId (i : Z) | UNextCommand | UClear (i : Z) | UOptClear (i : Z) | UIncRow | UResetRow (n : Z)
| UReadOnly (b : bool) | UReserve (n : Z) | UMark | UUnmark | URemoveMarked
| UPush (c : Sql_condition)
| UPushWarning (n : Z) (s : list Z) (l : enum_warning_level) (u : option N) (m : list Z) (row : Z)
| UPushShort (n : Z) (s : list Z) (l : enum_warning_level) (m : list Z).

Inductive setter := SOverwrite (b : bool) | SSent (b : bool) | SBulk (b : bool) | SIncrement.

Inductive cmd :=
| CPush (a : N) (wi : Warning_info) | CPop | CUpdate (u : update)
| CCopyTo (dst : N) | CCopyFrom (src : N) | CSet (t : setter).

(** What a call gives back: nothing, the popped object, or the address of a
    pushed condition (null without memory). *)
Inductive out := ONone | OInfo (wi : Warning_info) | OCond (c : option N).

Definition silent (f : world -> option world) (w : world) : option (world * out) :=
  w ← f w; Some (w, ONone).
Definition cond (f : world -> option (world * option N)) (w : world) : option (world * out) :=
  r ← f w; Some (fst r, OCond (snd r)).

Definition exec_update (u : update) : world -> option (world * out) :=
  match u with
  | USetId i => silent (set_warning_info_id i)
  | UNextCommand => silent da_reset_for_next_command
  | UClear i => silent (clear_warning_info i)
  | UOptClear i => silent (opt_clear_warning_info i)
  | UIncRow => silent da_inc_current_row_for_warning
  | UResetRow n => silent (da_reset_current_row_for_warning n)
  | UReadOnly b => silent (set_warning_info_read_only b)
  | UReserve n => silent (da_reserve_space n)
  | UMark => silent da_mark_sql_conditions_for_removal
  | UUnmark => silent da_unmark_sql_conditions_from_removal
  | URemoveMarked => silent da_remove_marked_sql_conditions
  | UPush c => cond (da_push_condition c)
  | UPushWarning n s l u m row => cond (da_push_warning n s l u m row)
  | UPushShort n s l m => cond (da_push_warning_short n s l m)
  end.

Definition exec_set (t : setter) (d : Diagnostics_area) : Diagnostics_area :=
  match t with
  | SOverwrite b => set_overwrite_status d b
  | SSent b => set_is_sent d b
  | SBulk b => set_bulk_execution d b
  | SIncrement => increment_warning d
  end.

(** The object [a] is [wi] when it is pushed. *)
Definition exec (w : world) (c : cmd) : option (world * out) :=
  match c with
  | CPush a wi =>
      Some (push_warning_info a (mk_world (links w) (fupd (infos w) a wi) (da w)), ONone)
  | CPop => top ← read_top (fun i => i) w; w ← pop_warning_info w; Some (w, OInfo top)
  | CUpdate u => exec_update u w
  | CCopyTo dst => silent (copy_sql_conditions_to_wi dst) w
  | CCopyFrom src => silent (copy_sql_conditions_from_wi src) w
  | CSet t => Some (mk_world (links w) (infos w) (exec_set t (da w)), ONone)
  end.

(** The abstract area: the addresses on the stack, front first, the warning
    infos by address, and the members of the area. *)
Record area := mk_area { stack : list N; vals : N -> Warning_info; own : Diagnostics_area }.

Definition aupdate (u : update) (i : Warning_info) : option (Warning_info * out) :=
  match u with
  | USetId q => Some (set_id q i, ONone)
  | UNextCommand => Some (reset_for_next_command i, ONone)
  | UClear q => Some (clear q i, ONone)
  | UOptClear q => Some (opt_clear q i, ONone)
  | UIncRow => Some (inc_current_row_for_warning i, ONone)
  | UResetRow n => Some (reset_current_row_for_warning n i, ONone)
  | UReadOnly b => Some (set_read_only b i, ONone)
  | UReserve n => Some (reserve_space n i, ONone)
  | UMark => Some (mark_sql_conditions_for_removal i, ONone)
  | UUnmark => Some (unmark_sql_conditions_from_removal i, ONone)
  | URemoveMarked => Some (remove_marked_sql_conditions i, ONone)
  | UPush c => Some (fst (push_condition c i), OCond (snd (push_condition c i)))
  | UPushWarning n s l u m row =>
      t ← identity_make n s l u;
      Some (fst (push_identity t m row i), OCond (snd (push_identity t m row i)))
  | UPushShort n s l m =>
      t ← identity_make n s l None;
      Some (fst (push_identity t m 0 i), OCond (snd (push_identity t m 0 i)))
  end.

Definition aexec (s : area) (c : cmd) : option (area * out) :=
  match c, stack s with
  | CPush a wi, st => Some (mk_area (a :: st) (fupd (vals s) a wi) (own s), ONone)
  | CSet t, st => Some (mk_area st (vals s) (exec_set t (own s)), ONone)
  | CPop, a :: st => Some (mk_area st (vals s) (own s), OInfo (vals s a))
  | CUpdate u, a :: st =>
      r ← aupdate u (vals s a); Some (mk_area (a :: st) (fupd (vals s) a (fst r)) (own s), snd r)
  | CCopyTo dst, a :: st =>
      Some (mk_area (a :: st)
              (fupd (vals s) dst (append_warning_info (vals s a) (vals s dst))) (own s), ONone)
  | CCopyFrom src, a :: st =>
      Some (mk_area (a :: st)
              (fupd (vals s) a (append_warning_info (vals s src) (vals s a))) (own s), ONone)
  | _, [] => None
  end.

Fixpoint run {St} (step : St -> cmd -> option (St * out)) (s : St) (cs : list cmd)
  : option (St * list out) :=
  match cs with
  | [] => Some (s, [])
  | c :: cs => r ← step s c; q ← run step (fst r) cs; Some (fst q, snd r :: snd q)
  end.

(** A pushed object is not on the stack, and there are fewer than 2^32 of them. *)
Definition allowed (s : area) (c : cmd) : Prop :=
  match c with
  | CPush a _ => a <> NULL /\ a ∉ stack s /\ Z.of_nat (length (stack s)) + 1 < 2 ^ 32
  | _ => True
  end.

Fixpoint all_allowed (s : area) (cs : list cmd) : Prop :=
  match cs with
  | [] => True
  | c :: cs => allowed s c /\ forall r, aexec s c = Some r -> all_allowed (fst r) cs
  end.

(** The list object holds the stack; the objects and the area have their values. *)
Record rel (w : world) (s : area) : Prop := {
  rel_list : PList.rep wi_policy (links w) (m_wi_stack (da w)) (stack s);
  rel_infos : forall a, infos w a = vals s a;
  rel_own : da w = own s;
  rel_short : Z.of_nat (length (stack s)) < 2 ^ 32
}.

Lemma rel_top w s :
  rel w s -> get_warning_info w = head (stack s) /\
    forall A (g : Warning_info -> A), read_top g w = (fun a => g (vals s a)) <$> head (stack s).
Proof.
  intros [(Hseg&_&Hnull&_) Hi _ _]. unfold read_top, get_warning_info, PList.front, PList.m_first.
  rewrite (PList.dseg_head _ _ _ _ Hseg). destruct (stack s) as [|a st]; cbn; [done|].
  assert (PList.nonnull a = true) as -> by (apply PList.nonnull_spec; set_solver).
  split; [done|]. intros A g. cbn. by rewrite Hi.
Qed.

(** Changing an object changes its value and nothing else. *)
Lemma rel_set w s b j :
  rel w s ->
  rel (mk_world (links w) (fupd (infos w) b j) (da w)) (mk_area (stack s) (fupd (vals s) b j) (own s)).
Proof.
  intros [Hr Hi Ho Hl]. constructor; [done| |done|done]. intros a. cbn. unfold fupd.
  by case_decide.
Qed.

Lemma exec_update_top w u a :
  get_warning_info w = Some a ->
  exec_update u w =
    (r ← aupdate u (infos w a);
     Some (mk_world (links w) (fupd (infos w) a (fst r)) (da w), snd r)).
Proof.
  intros E. assert (forall f, silent (on_top f) w =
    Some (mk_world (links w) (fupd (infos w) a (f (infos w a))) (da w), ONone)) as Hs.
  { intros f. unfold silent, on_top. by rewrite E. }
  assert (forall f, cond (on_top_res f) w =
    Some (mk_world (links w) (fupd (infos w) a (fst (f (infos w a)))) (da w),
          OCond (snd (f (infos w a))))) as Hc.
  { intros f. unfold cond, on_top_res. rewrite E. cbn. by destruct (f (infos w a)). }
  destruct u; cbn [exec_update aupdate]; try apply Hs; try apply Hc.
  - unfold cond, da_push_warning. destruct (identity_make n s l u) as [t|]; [|done]. apply Hc.
  - unfold cond, da_push_warning_short, da_push_warning.
    destruct (identity_make n s l None) as [t|]; [|done]. apply Hc.
Qed.

Lemma exec_empty w c :
  get_warning_info w = None ->
  match c with CPush _ _ | CSet _ => True | _ => exec w c = None end.
Proof.
  intros E. assert (forall f, silent (on_top f) w = None) as Hs.
  { intros f. unfold silent, on_top. by rewrite E. }
  assert (forall f, cond (on_top_res f) w = None) as Hc.
  { intros f. unfold cond, on_top_res. by rewrite E. }
  destruct c as [| |u|dst|src|]; cbn [exec]; try done.
  - unfold read_top. by rewrite E.
  - destruct u; cbn [exec_update]; try apply Hs; try apply Hc;
      unfold cond, da_push_warning_short, da_push_warning;
      (destruct (identity_make _ _ _ _) as [t|]; [apply Hc|done]).
  - unfold silent, copy_sql_conditions_to_wi. by rewrite E.
  - apply Hs.
Qed.

Lemma push_refines w s a wi :
  rel w s -> allowed s (CPush a wi) ->
  rel (push_warning_info a (mk_world (links w) (fupd (infos w) a wi) (da w)))
    (mk_area (a :: stack s) (fupd (vals s) a wi) (own s)).
Proof.
  intros Hrel (Hn&Hfr&Hlen). pose proof (rel_set w s a wi Hrel) as [_ Hi' _ _].
  destruct Hrel as [Hr Hi Ho Hl].
  destruct (PList.inserted_rep wi_policy (links w)
    (PList.push_front wi_policy (links w) (m_wi_stack (da w)) a)
    (m_wi_stack (da w)) a [] (stack s) Hr Hfr Hn) as [Hr' _]; [by apply PList.push_front_inserted|].
  constructor; [exact Hr'|exact Hi'|done|cbn [stack length]; lia].
Qed.

Lemma pop_refines w a st v d :
  rel w (mk_area (a :: st) v d) -> exists w', pop_warning_info w = Some w' /\ rel w' (mk_area st v d).
Proof.
  intros [Hr Hi Ho Hl]. cbn [stack length] in *. pose proof Hr as (Hseg&_&_&_&Hcnt).
  unfold pop_warning_info, PList.elements. rewrite (Hcnt eq_refl), u32_small by (cbn [length]; lia).
  rewrite (proj2 (Z.ltb_lt 0 _)) by (cbn [length]; lia). eexists. split; [done|].
  unfold PList.front, PList.m_first. rewrite (PList.dseg_head _ _ _ _ Hseg). cbn [List.hd].
  destruct (PList.plist_remove_rep wi_policy (links w) (m_wi_stack (da w)) a [] st Hr) as [Hr' _].
  constructor; [exact Hr'|done|done|cbn [stack]; lia].
Qed.

Lemma set_own_stack t d : m_wi_stack (exec_set t d) = m_wi_stack d.
Proof. destruct t; cbn; try done. unfold increment_warning. by case_match. Qed.

Lemma area_exec_refines w s c :
  rel w s -> allowed s c ->
  match aexec s c with
  | Some (s', o) => exists w', exec w c = Some (w', o) /\ rel w' s'
  | None => exec w c = None
  end.
Proof.
  intros Hrel Hc. destruct (rel_top w s Hrel) as [Htop Hread].
  pose proof (exec_empty w c) as Hemp. pose proof (rel_infos w s Hrel) as Hi.
  destruct s as [st v d]. cbn [stack vals own] in *.
  destruct c as [a wi| |u|dst|src|t]; cbn [aexec exec stack vals own] in *.
  - eexists. split; [done|]. by apply (push_refines w (mk_area st v d)).
  - destruct st as [|a st]; [by apply Hemp|]. rewrite Hread. cbn.
    destruct (pop_refines w a st v d Hrel) as (w'&->&Hr'). by exists w'.
  - destruct st as [|a st]; [by apply Hemp|]. rewrite (exec_update_top w u a Htop), Hi.
    destruct (aupdate u (v a)) as [[j o]|]; cbn [mbind option_bind fst snd]; [|done].
    eexists. split; [done|]. by apply (rel_set w _ a j Hrel).
  - destruct st as [|a st]; [by apply Hemp|]. unfold silent, copy_sql_conditions_to_wi.
    rewrite Htop. cbn [head mbind option_bind]. rewrite !Hi. eexists. split; [done|].
    by apply (rel_set w _ dst _ Hrel).
  - destruct st as [|a st]; [by apply Hemp|]. unfold silent, copy_sql_conditions_from_wi, on_top.
    rewrite Htop. cbn [head mbind option_bind]. rewrite !Hi. eexists. split; [done|].
    by apply (rel_set w _ a _ Hrel).
  - eexists. split; [done|]. destruct Hrel as [Hr Hi' Ho Hl].
    constructor; cbn [links infos da stack vals own] in *; [by rewrite set_own_stack|done|by rewrite Ho|done].
Qed.

Lemma run_refines cs : forall w s,
  rel w s -> all_allowed s cs ->
  match run aexec s cs with
  | Some (s', os) => exists w', run exec w cs = Some (w', os) /\ rel w' s'
  | None => run exec w cs = None
  end.
Proof.
  induction cs as [|c cs IH]; intros w s Hr Hal; cbn [run].
  - by exists w.
  - destruct Hal as [Hc Hal]. pose proof (area_exec_refines w s c Hr Hc) as Hx.
    destruct (aexec s c) as [[s1 o]|] eqn:Ea; cbn [mbind option_bind fst snd] in *; [|by rewrite Hx].
    destruct Hx as (w1&E1&Hr1). rewrite E1. cbn [mbind option_bind fst snd].
    specialize (IH w1 s1 Hr1 (Hal _ eq_refl)).
    destruct (run aexec s1 cs) as [[s2 os]|]; cbn [mbind option_bind fst snd]; [|by rewrite IH].
    destruct IH as (w2&E2&Hr2). exists w2. by rewrite E2.
Qed.

(** The addresses a sequence of commands pushes or copies conditions to. *)
Fixpoint written (cs : list cmd) : list N :=
  match cs with
  | [] => []
  | CPush a _ :: cs | CCopyTo a :: cs => a :: written cs
  | _ :: cs => written cs
  end.

(** An object that is not on the stack and not written keeps its value. *)
Lemma aexec_untouched s c s' o b :
  aexec s c = Some (s', o) -> b ∉ stack s -> b ∉ written [c] -> vals s' b = vals s b /\ b ∉ stack s'.
Proof.
  destruct s as [st v d]. destruct c as [a wi| |u|dst|src|t], st as [|x st]; cbn; intros E Hb Hw; simplify_eq/=;
    try (destruct (aupdate u (v x)); simplify_eq/=); (split; [|set_solver]); try done;
    (apply fupd_ne; set_solver).
Qed.

Lemma run_untouched cs : forall s s' os b,
  run aexec s cs = Some (s', os) -> b ∉ stack s -> b ∉ written cs -> vals s' b = vals s b.
Proof.
  induction cs as [|c cs IH]; intros s s' os b; cbn [run]; [by intros [= <- <-]|].
  destruct (aexec s c) as [[s1 o]|] eqn:Ea; cbn [mbind option_bind fst snd]; [|done].
  destruct (run aexec s1 cs) as [[s2 os2]|] eqn:E; cbn [mbind option_bind fst snd]; [|done].
  intros [= <- <-] Hb Hw.
  destruct (aexec_untouched s c s1 o b Ea Hb) as [<- Hb1]; [destruct c; cbn in *; set_solver|].
  apply (IH s1 s2 os2 b E Hb1). destruct c; cbn in *; set_solver.
Qed.

Lemma run_app {St} (step : St -> cmd -> option (St * out)) cs cs' : forall s,
  run step s (cs ++ cs') =
    (r ← run step s cs; q ← run step (fst r) cs'; Some (fst q, snd r ++ snd q)).
Proof.
  induction cs as [|c cs IH]; intros s; cbn [run app].
  - cbn. by destruct (run step s cs') as [[]|].
  - destruct (step s c) as [r|]; cbn; [|done]. rewrite IH.
    destruct (run step (fst r) cs) as [q|]; cbn; [|done].
    by destruct (run step (fst q) cs') as [q'|].
Qed.

(** Commands that never reach below [s] do not see what is below it. *)
Definition above (s : area) (base : list N) : area := mk_area (stack s ++ base) (vals s) (own s).

Lemma run_frame base cs : forall s s' os,
  run aexec s cs = Some (s', os) -> run aexec (above s base) cs = Some (above s' base, os).
Proof.
  induction cs as [|c cs IH]; intros s s' os; cbn [run]; [by intros [= <- <-]|].
  destruct (aexec s c) as [[s1 o]|] eqn:Ea; cbn; [|done].
  assert (aexec (above s base) c = Some (above s1 base, o)) as ->.
  { destruct s as [st v d]. destruct c as [a wi| |u|dst|src|t], st as [|x st]; cbn in *;
      simplify_eq/=; try done. destruct (aupdate u (v x)); by simplify_eq/=. }
  cbn. destruct (run aexec s1 cs) as [[s2 os2]|] eqn:E; cbn; [|done]. intros [= <- <-].
  by rewrite (IH s1 s2 os2 E).
Qed.


(** A handler works on its own warning info: when an object is pushed, the
    code in between pops only what it pushes itself and copies to no object
    below, and the object is popped again, the stack is as before, with every
    object on it unchanged, and the popped object has what the code did to it. *)
Theorem handler_scope w s a wi cs s1 os :
  rel w s -> all_allowed s (CPush a wi :: cs ++ [CPop]) ->
  run aexec (mk_area [a] (fupd (vals s) a wi) (own s)) cs = Some (s1, os) -> stack s1 = [a] ->
  (forall b, b ∈ written cs -> b ∉ stack s) ->
  exists w', run exec w (CPush a wi :: cs ++ [CPop]) = Some (w', ONone :: os ++ [OInfo (vals s1 a)]) /\
    rel w' (mk_area (stack s) (vals s1) (own s1)) /\
    (forall b, b ∈ stack s -> infos w' b = infos w b) /\
    get_warning_info w' = get_warning_info w.
Proof.
  intros Hr Hal Hin Hst Hw. pose proof (run_refines _ w s Hr Hal) as H.
  assert (run aexec s (CPush a wi :: cs ++ [CPop]) =
    Some (mk_area (stack s) (vals s1) (own s1), ONone :: os ++ [OInfo (vals s1 a)])) as E.
  { cbn [run aexec mbind option_bind fst snd]. rewrite run_app.
    pose proof (run_frame (stack s) cs _ s1 os Hin) as Hf.
    unfold above in Hf. cbn [stack vals own app] in Hf. rewrite Hf, Hst. done. }
  rewrite E in H. destruct H as (w'&E'&Hr'). exists w'. split; [done|]. split; [done|].
  split; [|by rewrite (proj1 (rel_top _ _ Hr)), (proj1 (rel_top _ _ Hr'))].
  intros b Hb. rewrite (rel_infos _ _ Hr), (rel_infos _ _ Hr'). cbn [vals].
  destruct Hal as [(_&Ha&_) _]. assert (b <> a) by (intros ->; done).
  rewrite (run_untouched cs _ s1 os b Hin) by (cbn; set_solver). cbn. by apply fupd_ne.
Qed.

End area.

(** ** Witnesses *)

(** Conditions are numbered; pushing counts them by level. *)
Definition sample_clear (q : Z) (w : Warning_info) : Warning_info :=
  mk [] (fun _ => 0) 0 1 q None (m_allow_unlimited_warnings w) (initialized w) (m_read_only w) [].

Definition sample_push (l : enum_warning_level) (w : Warning_info) : Warning_info * option N :=
  let c := N.of_nat (S (length (m_warn_list w))) in
  (mk (m_warn_list w ++ [c]) (fupd (m_warn_count w) l (u32 (m_warn_count w l + 1)))
     (u32 (m_current_statement_warn_count w + 1)) (m_current_row_for_warning w) (m_warn_id w)
     (m_error_condition w) (m_allow_unlimited_warnings w) (initialized w) (m_read_only w)
     (m_marked_sql_conditions w), Some c).

Definition sample_append (src w : Warning_info) : Warning_info :=
  mk (m_warn_list w ++ m_warn_list src) (fun l => u32 (m_warn_count w l + m_warn_count src l))
    (m_current_statement_warn_count w) (m_current_row_for_warning w) (m_warn_id w)
    (m_error_condition w) (m_allow_unlimited_warnings w) (initialized w) (m_read_only w)
    (m_marked_sql_conditions w).

#[local] Instance sample_impl : WarningImpl := {
  clear := sample_clear;
  has_sql_condition _ _ := false;
  append_warning_info src w := sample_append src w;
  mark_sql_conditions_for_removal w := set_marked w (m_warn_list w);
  remove_marked_sql_conditions w := w;
  reserve_space _ w := w;
  push_condition c := sample_push (m_level (level (identity c)));
  push_identity i _ _ := sample_push (m_level (level i))
}.

#[local] Instance sample_laws : WarningLaws sample_impl.
Proof. constructor; done. Qed.

Definition info0 : Warning_info := sample_clear 7 (mk [] (fun _ => 0) 0 1 0 None false true false []).

Definition world0 : world :=
  mk_world PList.heap0 (fun _ => info0)
    (mk_da errno_default None false false [] 0 0 0 DA_EMPTY false 1%N).
Definition area0 : area := mk_area [] (fun _ => info0) (da world0).

Lemma diagnostics_world0 : rel world0 area0.
Proof. constructor; [apply PList.world0|done..]. Qed.

(** A division by zero in a statement, and two in a handler, which hands its
    conditions down to the statement's area. *)
Definition division : cmd :=
  CUpdate (UPushWarning 1365 [50; 50; 48; 49; 50; 0] WARN_LEVEL_WARN None [] 0).
Definition sample_cmds : list cmd :=
  [CPush 10 info0; division; CUpdate UIncRow; CPush 11 info0; division; division;
   CCopyTo 10; CPop; CSet (SSent true)].

Ltac solve_allowed :=
  repeat match goal with
  | |- _ /\ _ => split
  | |- True => exact I
  | |- forall _, _ => intros [? ?]
  | |- aexec _ _ = Some _ -> _ => intros [= <- <-]
  | |- all_allowed _ _ => cbn [all_allowed allowed fst]
  | |- _ => first [done | set_solver | cbn; lia]
  end.

Lemma sample_allowed : all_allowed area0 sample_cmds.
Proof. unfold sample_cmds. solve_allowed. Qed.

(** What is seen of the object in front. *)
Definition observe (i : Warning_info) : Z * Z * Z :=
  (warn_count i, current_row_for_warning i, cond_count i).

Lemma sample_run :
  (fun r => (observe <$> (vals (fst r) <$> head (stack (fst r))), snd r !! 4%nat)) <$>
    run aexec area0 sample_cmds = Some (Some (3, 2, 3), Some (OCond (Some 1%N))).
Proof. vm_compute. reflexivity. Qed.


(** The area of a statement that runs a handler. *)
Definition world1 : world :=
  push_warning_info 10%N (mk_world (links world0) (fupd (infos world0) 10%N info0) (da world0)).
Definition area1 : area := mk_area [10%N] (fupd (fun _ => info0) 10%N info0) (da world0).

Lemma diagnostics_world1 : rel world1 area1.
Proof. apply (push_refines world0 area0 10 info0 diagnostics_world0). by split; [|split; [set_solver|]]. Qed.

Definition handler : list cmd := [division; CPush 12 info0; division; CPop].

Lemma handler_allowed : all_allowed area1 (CPush 11 info0 :: handler ++ [CPop]).
Proof. unfold handler. cbn [app]. solve_allowed. Qed.

Definition area2 : area := mk_area [11%N] (fupd (vals area1) 11%N info0) (own area1).

Lemma handler_run :
  exists s1 os, run aexec area2 handler = Some (s1, os) /\ stack s1 = [11%N] /\
    warn_count (vals s1 11%N) = 1.
Proof.
  assert ((fun r => (stack (fst r), warn_count (vals (fst r) 11%N))) <$> run aexec area2 handler =
    Some ([11%N], 1)) as Ho by (vm_compute; reflexivity).
  revert Ho. generalize (run aexec area2 handler). intros [[s1 os]|]; [|discriminate].
  intros [= Hs Hc]. by exists s1, os.
Qed.

Lemma handler_below : forall b, b ∈ written handler -> b ∉ stack area1.
Proof. cbn. set_solver. Qed.

Lemma handler_scope_witness :
  exists w' s1 os, run exec world1 (CPush 11 info0 :: handler ++ [CPop]) =
      Some (w', ONone :: os ++ [OInfo (vals s1 11%N)]) /\
    infos w' 10%N = infos world1 10%N /\ warn_count (vals s1 11%N) = 1.
Proof.
  destruct handler_run as (s1&os&E&Hs&Hc).
  destruct (handler_scope world1 area1 11 info0 handler s1 os diagnostics_world1
    handler_allowed E Hs handler_below) as (w'&Er&_&Hi&_).
  exists w', s1, os. split; [exact Er|]. split; [apply Hi, list_elem_of_here|exact Hc].
Defined.

End DiagnosticsArea.
