(* ===== verification/RootArray.v ===== *)
(** * [Mem_root_array] of include/mysql/server/private/mem_root_array.h

    A growing array on a memory root.  The storage is a list of slots, each
    holding a constructed element or nothing; reading an empty slot, storing
    outside the storage and destroying twice are undefined ([None]).  The
    outcomes of the calls to [alloc_root] are the stream [m_root]. *)

From Stdlib Require Import ZArith Lia.
From stdpp Require Import prelude.
From S2P Require Import Prelude.
Local Open Scope Z_scope.
Local Open Scope cint_scope.

Module RootArray.

Section array.
Context {A : Type} (element_size : Z) (has_trivial_destructor : bool).

Record array := mk_array {
  m_root : list bool;            (* whether the next allocations succeed *)
  m_array : list (option A);     (* slots of the current storage *)
  m_size : Z;
  m_capacity : Z;
  destroyed : list A             (* elements whose destructor ran *)
}.

Definition construct (root : list bool) : array := mk_array root [] 0 0 [].

Definition size (a : array) : Z := m_size a.
Definition capacity (a : array) : Z := m_capacity a.
Definition empty (a : array) : bool := size a =? 0.

(** An access to [m_array[n]]. *)
Definition slot (a : array) (n : Z) : option A :=
  match m_array a !! Z.to_nat n with Some (Some x) => Some x | _ => None end.

Definition at_ (a : array) (n : Z) : option A := if n <? size a then slot a n else None.
Definition back (a : array) : option A := at_ a (u64 (size a - 1)).

(** [p->~Element_type()] *)
Definition destroy (a : array) (n : Z) : option array :=
  x ← slot a n;
  Some (mk_array (m_root a) (<[Z.to_nat n := None]> (m_array a)) (m_size a) (m_capacity a)
          (destroyed a ++ [x])).

(** [new (p) Element_type(x)] *)
Definition place (a : array) (n : Z) (x : A) : option array :=
  if decide (Z.to_nat n < length (m_array a))%nat
  then Some (mk_array (m_root a) (<[Z.to_nat n := Some x]> (m_array a)) (m_size a) (m_capacity a)
               (destroyed a))
  else None.

Definition set_size (a : array) (n : Z) : array :=
  mk_array (m_root a) (m_array a) n (m_capacity a) (destroyed a).

Fixpoint destroy_from (k : nat) (ix : Z) (a : array) : option array :=
  match k with
  | O => Some a
  | S k => a ← destroy a ix; destroy_from k (ix + 1) a
  end.

Definition chop (a : array) (pos : Z) : option array :=
  a ← (if negb has_trivial_destructor then destroy_from (Z.to_nat (m_size a - pos)) pos a else Some a);
  Some (set_size a pos).

Definition clear (a : array) : option array := if negb (empty a) then chop a 0 else Some a.

(** The copy loop of [reserve]: from the old slots into the new ones. *)
Fixpoint copy_loop (k : nat) (ix : Z) (a : array) (new : list (option A)) : option (array * list (option A)) :=
  match k with
  | O => Some (a, new)
  | S k =>
      x ← slot a ix;
      if decide (Z.to_nat ix < length new)%nat then
        a ← (if negb has_trivial_destructor then destroy a ix else Some a);
        copy_loop k (ix + 1) a (<[Z.to_nat ix := Some x]> new)
      else None
  end.

Definition alloc_root (root : list bool) : bool * list bool :=
  match root with [] => (false, []) | b :: root => (b, root) end.

(** The storage holds as many elements as fit the bytes asked for. *)
Definition reserve (a : array) (n : Z) : option (bool * array) :=
  if n <=? m_capacity a then Some (false, a)
  else
    let '(ok, root) := alloc_root (m_root a) in
    let a := mk_array root (m_array a) (m_size a) (m_capacity a) (destroyed a) in
    if negb ok then Some (true, a)
    else
      let new := replicate (Z.to_nat (u64 (n * element_size) / element_size)) None in
      '(a, new) ← copy_loop (Z.to_nat (m_size a)) 0 a new;
      Some (false, mk_array (m_root a) new (m_size a) n (destroyed a)).

Definition push_back (a : array) (element : A) : option (bool * array) :=
  let min_capacity := 20 in
  let expansion_factor := 2 in
  '(fail, a) ← (if m_capacity a =? 0 then reserve a min_capacity else Some (false, a));
  if fail : bool then Some (true, a)
  else
    '(fail, a) ← (if m_size a =? m_capacity a then reserve a (u64 (m_capacity a * expansion_factor))
                  else Some (false, a));
    if fail : bool then Some (true, a)
    else
      let n := m_size a in
      let a := set_size a (u64 (m_size a + 1)) in
      a ← place a n element;
      Some (false, a).

Definition pop_back (a : array) : option array :=
  a ← (if negb has_trivial_destructor then destroy a (u64 (size a - 1)) else Some a);
  Some (set_size a (u64 (m_size a - 1))).

Fixpoint push_loop (fuel : nat) (a : array) (n : Z) (val : A) : option array :=
  if n =? m_size a then Some a
  else match fuel with
  | O => None
  | S fuel => '(_, a) ← push_back a val; push_loop fuel a n val
  end.

Fixpoint pop_loop (fuel : nat) (a : array) (n : Z) : option array :=
  if n =? m_size a then Some a
  else match fuel with
  | O => None
  | S fuel => a ← pop_back a; pop_loop fuel a n
  end.

(** The loops of [resize] run once per element added or removed. *)
Definition resize (a : array) (n : Z) (val : A) : option array :=
  if n =? m_size a then Some a
  else if m_size a <? n then
    '(fail, a) ← reserve a n;
    if fail : bool then Some a else push_loop (Z.to_nat (n - m_size a)) a n val
  else
    a ← (if negb has_trivial_destructor then pop_loop (Z.to_nat (m_size a - n)) a n else Some a);
    Some (set_size a n).

(** ** The vector an array represents *)

Definition rep (a : array) (xs : list A) : Prop :=
  m_size a = Z.of_nat (length xs) /\ 0 <= m_size a <= m_capacity a /\
  length (m_array a) = Z.to_nat (m_capacity a) /\ m_capacity a * element_size < 2 ^ 64 /\
  forall i x, xs !! i = Some x -> m_array a !! i = Some (Some x).

Context (Hes : 0 < element_size).

Lemma capacity_bound a xs : rep a xs -> m_capacity a < 2 ^ 64.
Proof. intros (_ & H1 & _ & H2 & _). nia. Qed.

Lemma slot_rep a xs i x : rep a xs -> xs !! i = Some x -> slot a (Z.of_nat i) = Some x.
Proof. intros (_ & _ & _ & _ & H) Hi. unfold slot. by rewrite Nat2Z.id, (H i x Hi). Qed.

Lemma rep_in_storage a xs i : rep a xs -> (i < length xs)%nat -> (i < length (m_array a))%nat.
Proof. intros (H1 & H2 & H3 & _) Hi. lia. Qed.

(** [same a a']: all members but the slots and the destructor log are equal. *)
Definition same (a a' : array) : Prop :=
  m_root a' = m_root a /\ m_size a' = m_size a /\ m_capacity a' = m_capacity a /\
  length (m_array a') = length (m_array a).

Lemma destroy_ok a i x :
  slot a (Z.of_nat i) = Some x -> exists a', destroy a (Z.of_nat i) = Some a' /\ same a a' /\
    forall j, j <> i -> m_array a' !! j = m_array a !! j.
Proof.
  intros Hx. unfold destroy. rewrite Hx. cbn. eexists. split; [done|]. rewrite Nat2Z.id.
  split; [split; [done|]; split; [done|]; split; [done|]; apply length_insert|].
  intros j Hj. cbn. by apply list_lookup_insert_ne.
Qed.

Lemma slot_ext a a' i : m_array a' !! i = m_array a !! i -> slot a' (Z.of_nat i) = slot a (Z.of_nat i).
Proof. unfold slot. by rewrite Nat2Z.id; intros ->. Qed.

(** Destroying a range of constructed slots leaves the others alone. *)
Lemma destroy_from_ok k : forall ix a,
  (forall j, (ix <= j < ix + k)%nat -> exists x, slot a (Z.of_nat j) = Some x) ->
  exists a', destroy_from k (Z.of_nat ix) a = Some a' /\ same a a' /\
    forall j, (j < ix)%nat -> m_array a' !! j = m_array a !! j.
Proof.
  induction k as [|k IH]; intros ix a Hs; cbn [destroy_from]; [by exists a|].
  destruct (Hs ix) as (x & Hx); [lia|].
  destruct (destroy_ok a ix x Hx) as (a1 & -> & S1 & F1). cbn.
  replace (Z.of_nat ix + 1) with (Z.of_nat (S ix)) by lia.
  destruct (IH (S ix) a1) as (a2 & -> & S2 & F2).
  { intros j Hj. destruct (Hs j) as (y & Hy); [lia|]. exists y. rewrite <- Hy.
    apply slot_ext, F1. lia. }
  exists a2. split; [done|]. unfold same in *. split; [intuition congruence|].
  intros j Hj. rewrite F2 by lia. apply F1. lia.
Qed.

Lemma rep_prefix a a' xs ys :
  rep a (xs ++ ys) -> same a a' ->
  (forall j, (j < length xs)%nat -> m_array a' !! j = m_array a !! j) ->
  rep (set_size a' (Z.of_nat (length xs))) xs.
Proof.
  intros (H1 & H2 & H3 & H4 & H5) (S1 & S2 & S3 & S4) F. rewrite length_app in H1.
  split; [done|]. cbn. split; [lia|]. split; [lia|]. split; [by rewrite S3|].
  intros i x Hi. pose proof (lookup_lt_Some _ _ _ Hi). rewrite F by done. apply H5.
  by apply lookup_app_l_Some.
Qed.

Lemma chop_rep a xs ys :
  rep a (xs ++ ys) -> exists a', chop a (Z.of_nat (length xs)) = Some a' /\ rep a' xs /\
    m_capacity a' = m_capacity a /\ m_root a' = m_root a.
Proof.
  intros Hr. unfold chop. destruct has_trivial_destructor; cbn.
  - eexists. split; [done|]. split; [by apply (rep_prefix a a xs ys)|done].
  - pose proof Hr as (H1 & _). rewrite length_app in H1.
    destruct (destroy_from_ok (length ys) (length xs) a) as (a' & E & S & F).
    { intros j Hj. destruct (lookup_lt_is_Some_2 (xs ++ ys) j) as [x Hx]; [rewrite length_app; lia|].
      exists x. by apply (slot_rep a (xs ++ ys)). }
    replace (Z.to_nat (m_size a - Z.of_nat (length xs))) with (length ys) by lia. rewrite E. cbn.
    eexists. split; [done|]. split; [by apply (rep_prefix a a' xs ys)|]. unfold same in S. cbn. tauto.
Qed.

Lemma pop_back_rep a xs x :
  rep a (xs ++ [x]) -> exists a', pop_back a = Some a' /\ rep a' xs /\
    m_capacity a' = m_capacity a /\ m_root a' = m_root a.
Proof.
  intros Hr. pose proof (capacity_bound _ _ Hr). pose proof Hr as (H1 & H2 & _).
  rewrite length_app in H1. cbn [length] in H1. unfold pop_back, size.
  replace (u64 (m_size a - 1)) with (Z.of_nat (length xs)) by (rewrite u64_small by lia; lia).
  destruct has_trivial_destructor; cbn.
  - eexists. split; [done|]. rewrite u64_small by lia.
    replace (m_size a - 1) with (Z.of_nat (length xs)) by lia.
    split; [by apply (rep_prefix a a xs [x])|done].
  - destruct (destroy_ok a (length xs) x) as (a' & -> & S & F).
    { apply (slot_rep a (xs ++ [x])); [done|]. by rewrite lookup_app_r, Nat.sub_diag. }
    cbn. eexists. split; [done|]. pose proof S as (S1 & S2 & S3 & S4). rewrite S2, u64_small by lia.
    replace (m_size a - 1) with (Z.of_nat (length xs)) by lia.
    split; [apply (rep_prefix a a' xs [x]); [done|done|intros; apply F; lia]|done].
Qed.

Lemma pop_loop_rep ys : forall a xs,
  rep a (xs ++ ys) -> exists a', pop_loop (length ys) a (Z.of_nat (length xs)) = Some a' /\ rep a' xs /\
    m_capacity a' = m_capacity a /\ m_root a' = m_root a.
Proof.
  induction ys as [|y ys IH] using rev_ind; intros a xs Hr; pose proof Hr as (H1 & _).
  - rewrite app_nil_r in *. exists a. cbn. rewrite (proj2 (Z.eqb_eq _ _)) by lia. done.
  - rewrite !length_app, Nat.add_1_r in *. cbn [pop_loop length] in *.
    rewrite (proj2 (Z.eqb_neq _ _)) by lia. rewrite app_assoc in Hr.
    destruct (pop_back_rep a (xs ++ ys) y Hr) as (a1 & -> & R1 & C1 & T1). cbn.
    destruct (IH a1 xs R1) as (a2 & E2 & R2 & C2 & T2). exists a2. split; [done|].
    split; [done|]. split; congruence.
Qed.

(** The copy loop moves the elements into the new slots. *)
Lemma copy_loop_ok ys : forall a xs new,
  (forall i x, ys !! i = Some x -> slot a (Z.of_nat (length xs + i)) = Some x) ->
  (forall i x, xs !! i = Some x -> new !! i = Some (Some x)) ->
  (length xs + length ys <= length new)%nat ->
  exists a' new', copy_loop (length ys) (Z.of_nat (length xs)) a new = Some (a', new') /\ same a a' /\
    length new' = length new /\ forall i x, (xs ++ ys) !! i = Some x -> new' !! i = Some (Some x).
Proof.
  induction ys as [|y ys IH]; intros a xs new Hs Hn Hlen; cbn [copy_loop length].
  - exists a, new. split; [done|]. split; [done|]. split; [done|]. by rewrite app_nil_r.
  - pose proof (Hs 0%nat y eq_refl) as Hy. rewrite Nat.add_0_r in Hy. rewrite Hy. cbn.
    rewrite Nat2Z.id. cbn [length] in Hlen. rewrite decide_True by lia.
    assert (exists a1, (if negb has_trivial_destructor then destroy a (Z.of_nat (length xs)) else Some a) = Some a1 /\
      same a a1 /\ forall j, j <> length xs -> m_array a1 !! j = m_array a !! j) as (a1 & -> & S1 & F1).
    { destruct has_trivial_destructor; [by exists a|]. by apply destroy_ok with y. }
    cbn. replace (Z.of_nat (length xs) + 1) with (Z.of_nat (length (xs ++ [y]))) by (rewrite length_app; cbn; lia).
    destruct (IH a1 (xs ++ [y]) (<[length xs := Some y]> new)) as (a2 & new' & E & S2 & L2 & F2).
    + intros i x Hi. rewrite length_app. cbn [length]. rewrite <- (Hs (S i) x Hi).
      replace (length xs + 1 + i)%nat with (length xs + S i)%nat by lia.
      apply slot_ext, F1. lia.
    + intros i x Hi. apply lookup_app_Some in Hi as [Hi|[Hge Hi]].
      * pose proof (lookup_lt_Some _ _ _ Hi). rewrite list_lookup_insert_ne by lia. by apply Hn.
      * apply list_lookup_singleton_Some in Hi as [Hi <-].
        replace i with (length xs) by lia. rewrite list_lookup_insert_eq by lia. done.
    + rewrite length_insert, length_app. cbn [length]. lia.
    + exists a2, new'. rewrite E. split; [done|]. unfold same in *. split; [intuition congruence|].
      rewrite length_insert in L2. split; [done|]. by rewrite <- app_assoc in F2.
Qed.

(** ** The operations on an abstract vector

    A vector is its elements, its capacity and the outcomes of the
    allocations to come. *)

Definition vec : Type := list A * Z * list bool.

Definition models (a : array) (v : vec) : Prop :=
  let '(xs, cap, root) := v in rep a xs /\ m_capacity a = cap /\ m_root a = root.

Definition areserve (v : vec) (n : Z) : bool * vec :=
  let '(xs, cap, root) := v in
  if n <=? cap then (false, v)
  else match root with
       | true :: root => (false, (xs, n, root))
       | false :: root => (true, (xs, cap, root))
       | [] => (true, v)
       end.

Definition apush (v : vec) (x : A) : bool * vec :=
  let '(fail, v) := if v.1.2 =? 0 then areserve v 20 else (false, v) in
  if fail : bool then (true, v)
  else
    let '(fail, (xs, cap, root)) :=
      if Z.of_nat (length v.1.1) =? v.1.2 then areserve v (v.1.2 * 2) else (false, v) in
    if fail : bool then (true, (xs, cap, root)) else (false, (xs ++ [x], cap, root)).

Definition aresize (v : vec) (n : Z) (val : A) : vec :=
  let '(xs, cap, root) := v in
  if Z.of_nat (length xs) <? n then
    let '(fail, (xs', cap', root')) := areserve v n in
    if fail : bool then (xs', cap', root')
    else (xs' ++ repeat val (Z.to_nat n - length xs'), cap', root')
  else (take (Z.to_nat n) xs, cap, root).

Lemma reserve_models a v n :
  models a v -> 0 <= n -> n * element_size < 2 ^ 64 ->
  exists a', reserve a n = Some ((areserve v n).1, a') /\ models a' (areserve v n).2.
Proof.
  destruct v as [[xs cap] root]. intros (Hr & <- & <-) Hn Hb. unfold reserve, areserve, alloc_root.
  destruct (Z.leb_spec n (m_capacity a)); [by exists a|].
  pose proof Hr as (H1 & H2 & H3 & H4 & H5).
  destruct (m_root a) as [|[] root] eqn:Er; cbn.
  - eexists. split; [done|]. split; [exact Hr|done].
  - rewrite u64_small by nia. rewrite Z.div_mul by lia.
    set (a0 := mk_array root (m_array a) (m_size a) (m_capacity a) (destroyed a)).
    destruct (copy_loop_ok xs a0 [] (replicate (Z.to_nat n) None)) as (a' & new & E & S & L & F).
    + intros i x Hi. by apply (slot_rep a0 xs).
    + done.
    + rewrite length_replicate. cbn. lia.
    + change (Z.of_nat (length [])) with 0 in E.
      assert (Z.to_nat (m_size a) = length xs) as El by lia. rewrite El, E. cbn.
      destruct S as (S1 & S2 & S3 & S4). eexists. split; [done|]. split; [|done].
      rewrite length_replicate in L. split; [cbn; rewrite S2; done|]. cbn. rewrite S2. cbn.
      split; [lia|]. split; [done|]. split; done.
  - eexists. split; [done|]. split; [exact Hr|done].
Qed.

Lemma place_models a xs cap root x :
  models a (xs, cap, root) -> Z.of_nat (length xs) < cap ->
  exists a', place (set_size a (u64 (m_size a + 1))) (m_size a) x = Some a' /\
    models a' (xs ++ [x], cap, root).
Proof.
  intros (Hr & Hc & Hroot) Hlt. pose proof (capacity_bound _ _ Hr). pose proof Hr as (H1 & H2 & H3 & H4 & H5).
  unfold place. cbn. rewrite decide_True by lia. eexists. split; [done|]. split; [|done].
  rewrite u64_small by lia. split; [cbn; rewrite length_app; cbn; lia|]. cbn.
  split; [lia|]. rewrite length_insert. split; [done|]. split; [done|].
  intros i y Hi. rewrite H1, Nat2Z.id. apply lookup_app_Some in Hi as [Hi|[Hge Hi]].
  - pose proof (lookup_lt_Some _ _ _ Hi). rewrite list_lookup_insert_ne by lia. by apply H5.
  - apply list_lookup_singleton_Some in Hi as [Hi <-].
    replace i with (length xs) by lia. rewrite list_lookup_insert_eq by lia. done.
Qed.

(** The sizes a push may ask for are representable. *)
Definition push_bound (cap : Z) : Prop := 20 * element_size < 2 ^ 64 /\ cap * 2 * element_size < 2 ^ 64.

(** The last step of [push_back], once the storage is large enough. *)
Lemma push_finish a v x :
  models a v -> Z.of_nat (length v.1.1) < v.1.2 ->
  exists a', (let n := m_size a in let a := set_size a (u64 (m_size a + 1)) in
     a ← place a n x; Some (false, a)) = Some (false, a') /\ models a' (v.1.1 ++ [x], v.1.2, v.2).
Proof.
  destruct v as [[xs cap] root]. cbn [fst snd]. intros Hm Hlt.
  destruct (place_models a xs cap root x Hm Hlt) as (a' & E & M). exists a'. cbv zeta. rewrite E. done.
Qed.

Lemma push_back_models a v x :
  models a v -> push_bound v.1.2 ->
  exists a', push_back a x = Some ((apush v x).1, a') /\ models a' (apush v x).2.
Proof.
  intros Hm [B1 B2]. unfold push_back, apush. destruct v as [[xs cap] root]. cbn [fst snd] in *.
  pose proof Hm as (Hr & Hc & _). rewrite Hc. pose proof Hr as (H1 & H2 & _).
  destruct (Z.eqb_spec cap 0) as [E0|].
  - destruct (reserve_models a (xs, cap, root) 20 Hm) as (a1 & -> & M1); [lia|lia|]. cbn [mbind option_bind].
    assert (xs = []) as -> by (apply length_zero_iff_nil; lia).
    unfold areserve in *. assert (20 <=? cap = false) as Hle by (apply Z.leb_gt; lia).
    rewrite Hle in M1 |- *.
    destruct root as [|[] root]; cbn [fst snd] in *; [by exists a1| |by exists a1].
    pose proof M1 as ((S1 & _) & C1 & _). cbn in S1. rewrite C1.
    assert (m_size a1 =? 20 = false) as Hsz by (rewrite S1; done). rewrite Hsz.
    destruct (push_finish a1 ([], 20, root) x M1) as (a2 & E2 & M2); [cbn; lia|].
    exists a2. split; [exact E2|exact M2].
  - cbn [mbind option_bind]. rewrite Hc.
    assert ((m_size a =? cap) = (Z.of_nat (length xs) =? cap)) as -> by (by rewrite H1).
    cbn [fst snd].
    destruct (Z.eqb_spec (Z.of_nat (length xs)) cap) as [E|].
    + rewrite u64_small by nia.
      destruct (reserve_models a (xs, cap, root) (cap * 2) Hm) as (a1 & -> & M1); [lia|lia|].
      cbn [mbind option_bind]. unfold areserve in *. destruct (Z.leb_spec (cap * 2) cap); [lia|].
      destruct root as [|[] root]; cbn [fst snd] in *; [by exists a1| |by exists a1].
      destruct (push_finish a1 (xs, cap * 2, root) x M1) as (a2 & E2 & M2); [cbn; lia|].
      exists a2. split; [exact E2|exact M2].
    + cbn [mbind option_bind]. destruct (push_finish a (xs, cap, root) x Hm) as (a2 & E2 & M2); [cbn; lia|].
      exists a2. split; [exact E2|exact M2].
Qed.

(** Enough capacity: every push of the loop succeeds. *)
Lemma push_loop_models k : forall a xs cap root val,
  models a (xs, cap, root) -> Z.of_nat (length xs + k) <= cap ->
  exists a', push_loop k a (Z.of_nat (length xs + k)) val = Some a' /\
    models a' (xs ++ repeat val k, cap, root).
Proof.
  induction k as [|k IH]; intros a xs cap root val Hm Hc; pose proof Hm as (Hr & Hcap & _);
    pose proof Hr as (H1 & H2 & _); cbn [push_loop repeat].
  - rewrite (proj2 (Z.eqb_eq _ _)) by lia. exists a. by rewrite app_nil_r.
  - rewrite (proj2 (Z.eqb_neq _ _)) by lia.
    assert (push_back a val = (let n := m_size a in let a := set_size a (u64 (m_size a + 1)) in
      a ← place a n val; Some (false, a))) as ->.
    { unfold push_back. rewrite (proj2 (Z.eqb_neq (m_capacity a) 0)) by lia. cbn [mbind option_bind].
      rewrite (proj2 (Z.eqb_neq (m_size a) (m_capacity a))) by lia. done. }
    destruct (push_finish a (xs, cap, root) val Hm) as (a1 & E1 & M1); [cbn; lia|].
    rewrite E1. cbn [mbind option_bind]. cbn [fst snd] in M1.
    replace (length xs + S k)%nat with (length (xs ++ [val]) + k)%nat in * by (rewrite length_app; cbn; lia).
    destruct (IH a1 (xs ++ [val]) cap root val M1 Hc) as (a2 & E2 & M2). exists a2.
    split; [done|]. by rewrite <- app_assoc in M2.
Qed.

Lemma resize_models a v n val :
  models a v -> 0 <= n -> n * element_size < 2 ^ 64 ->
  exists a', resize a n val = Some a' /\ models a' (aresize v n val).
Proof.
  destruct v as [[xs cap] root]. intros Hm Hn Hb. pose proof Hm as (Hr & Hcap & Hroot).
  pose proof Hr as (H1 & H2 & _). unfold resize, aresize. rewrite H1.
  destruct (Z.eqb_spec n (Z.of_nat (length xs))) as [->|].
  { rewrite Z.ltb_irrefl, Nat2Z.id, firstn_all. by exists a. }
  destruct (Z.ltb_spec (Z.of_nat (length xs)) n).
  - destruct (reserve_models a (xs, cap, root) n Hm Hn Hb) as (a1 & -> & M1). cbn [mbind option_bind].
    destruct (areserve (xs, cap, root) n) as [f v1] eqn:Ea. cbn [fst snd] in *.
    assert (v1.1.1 = xs /\ (f = false -> n <= v1.1.2)) as [X1 C1].
    { unfold areserve in Ea. destruct (Z.leb_spec n cap); [by simplify_eq|].
      destruct root as [|[] root]; simplify_eq; cbn; auto with lia. }
    destruct v1 as [[xs1 cap1] root1]. cbn in X1, C1. subst xs1. destruct f; [by exists a1|].
    specialize (C1 eq_refl). pose proof M1 as ((S1 & _) & _). rewrite S1.
    destruct (push_loop_models (Z.to_nat n - length xs) a1 xs cap1 root1 val M1) as (a2 & E2 & M2); [lia|].
    replace (Z.to_nat (n - Z.of_nat (length xs))) with (Z.to_nat n - length xs)%nat by lia.
    replace (Z.of_nat (length xs + (Z.to_nat n - length xs))) with n in E2 by lia.
    exists a2. by rewrite E2.
  - rewrite <- (take_drop (Z.to_nat n) xs) in Hr.
    assert (length (take (Z.to_nat n) xs) = Z.to_nat n) as Lt by (rewrite length_take; lia).
    destruct has_trivial_destructor; cbn [negb mbind option_bind].
    + eexists. split; [done|]. split; [|done].
      pose proof (rep_prefix a a _ _ Hr ltac:(done) ltac:(done)) as R.
      by rewrite Lt, Z2Nat.id in R by lia.
    + destruct (pop_loop_rep (drop (Z.to_nat n) xs) a _ Hr) as (a1 & E1 & R1 & C1 & T1).
      rewrite length_drop, Lt, Z2Nat.id in E1 by lia.
      replace (Z.to_nat (Z.of_nat (length xs) - n)) with (length xs - Z.to_nat n)%nat by lia.
      rewrite E1. cbn. eexists. split; [done|]. split; [|cbn; split; congruence].
      pose proof (rep_prefix a1 a1 (take (Z.to_nat n) xs) []) as R. rewrite app_nil_r, Lt, Z2Nat.id in R by lia.
      by apply R.
Qed.

(** ** Commands *)

Inductive cmd :=
  | CPush (x : A) | CPop | CChop (pos : Z) | CClear | CReserve (n : Z) | CResize (n : Z) (val : A).

(** The flag is the out-of-memory result of [push_back] and [reserve]. *)
Definition exec (a : array) (c : cmd) : option (bool * array) :=
  match c with
  | CPush x => push_back a x
  | CPop => a ← pop_back a; Some (false, a)
  | CChop pos => a ← chop a pos; Some (false, a)
  | CClear => a ← clear a; Some (false, a)
  | CReserve n => reserve a n
  | CResize n val => a ← resize a n val; Some (false, a)
  end.

Definition aexec (v : vec) (c : cmd) : bool * vec :=
  let '(xs, cap, root) := v in
  match c with
  | CPush x => apush v x
  | CPop => (false, (removelast xs, cap, root))
  | CChop pos => (false, (take (Z.to_nat pos) xs, cap, root))
  | CClear => (false, ([], cap, root))
  | CReserve n => areserve v n
  | CResize n val => (false, aresize v n val)
  end.

Definition allowed (v : vec) (c : cmd) : Prop :=
  let '(xs, cap, root) := v in
  match c with
  | CPush _ => push_bound cap
  | CPop => xs <> []
  | CChop pos => 0 <= pos < Z.of_nat (length xs)
  | CClear => True
  | CReserve n | CResize n _ => 0 <= n /\ n * element_size < 2 ^ 64
  end.

Lemma exec_models a v c :
  models a v -> allowed v c ->
  exists a', exec a c = Some ((aexec v c).1, a') /\ models a' (aexec v c).2.
Proof.
  intros Hm Hc. destruct v as [[xs cap] root]. pose proof Hm as (Hr & Hcap & Hroot).
  destruct c as [x| |pos| |n|n val]; cbn [exec aexec allowed] in *.
  - by apply push_back_models.
  - destruct (exists_last Hc) as (ys & y & ->). rewrite removelast_last.
    destruct (pop_back_rep a ys y Hr) as (a' & -> & R & C & T). exists a'.
    split; [done|]. split; [done|]. split; congruence.
  - rewrite <- (take_drop (Z.to_nat pos) xs) in Hr.
    destruct (chop_rep a _ _ Hr) as (a' & E & R & C & T). rewrite length_take in E.
    replace (Z.of_nat (Z.to_nat pos `min` length xs)) with pos in E by lia. rewrite E.
    exists a'. split; [done|]. split; [done|]. split; congruence.
  - pose proof Hr as (H1 & _). unfold clear, empty, size. rewrite H1. destruct xs as [|x xs].
    + exists a. by cbn.
    + change (Z.of_nat (length (x :: xs)) =? 0) with false. cbn [negb].
      destruct (chop_rep a [] (x :: xs) Hr) as (a' & E & R & C & T). change (Z.of_nat (length [])) with 0 in E.
      rewrite E. exists a'. split; [done|]. split; [done|]. split; congruence.
  - apply reserve_models; tauto.
  - destruct (resize_models a (xs, cap, root) n val Hm) as (a' & -> & M); [tauto|tauto|]. by exists a'.
Qed.

Fixpoint run (a : array) (cs : list cmd) : option (list bool * array) :=
  match cs with
  | [] => Some ([], a)
  | c :: cs => '(f, a) ← exec a c; '(fs, a) ← run a cs; Some (f :: fs, a)
  end.

Fixpoint arun (v : vec) (cs : list cmd) : list bool * vec :=
  match cs with
  | [] => ([], v)
  | c :: cs => let '(f, v) := aexec v c in let '(fs, v) := arun v cs in (f :: fs, v)
  end.

Fixpoint all_allowed (v : vec) (cs : list cmd) : Prop :=
  match cs with [] => True | c :: cs => allowed v c /\ all_allowed (aexec v c).2 cs end.

(** ** Properties *)

(** A [Mem_root_array] refines a vector with capacity: any sequence of
    [push_back], [pop_back], [chop], [clear], [reserve] and [resize] with sizes
    whose byte counts fit 64 bits runs without an access outside the storage
    or to a slot that holds no element, reports out-of-memory exactly when an
    allocation it needs fails, and then leaves the elements as they were; the
    capacity grows to 20 and then doubles. *)
Theorem root_array_refines a v cs :
  models a v -> all_allowed v cs ->
  exists a', run a cs = Some ((arun v cs).1, a') /\ models a' (arun v cs).2 /\
    forall i x, (arun v cs).2.1.1 !! i = Some x -> at_ a' (Z.of_nat i) = Some x.
Proof.
  revert a v. induction cs as [|c cs IH]; intros a v Hm Hcs; cbn [run arun].
  - exists a. split; [done|]. split; [done|]. intros i x Hi. destruct v as [[xs cap] root].
    cbn in Hi. pose proof Hm as (Hr & _). pose proof Hr as (H1 & _). pose proof (lookup_lt_Some _ _ _ Hi).
    unfold at_, size. rewrite (proj2 (Z.ltb_lt _ _)) by lia. by apply (slot_rep a xs).
  - destruct Hcs as [Hc Hcs]. destruct (exec_models a v c Hm Hc) as (a1 & -> & M1). cbn [mbind option_bind].
    destruct (IH a1 _ M1 Hcs) as (a2 & -> & M2). destruct (aexec v c) as [f v1]. cbn [fst snd] in *.
    destruct (arun v1 cs) as [fs v2]. by exists a2.
Qed.

(** [reserve] multiplies without a check: when [n * element_size] passes
    2^64 and the allocation succeeds, the capacity is set to [n] although the
    storage holds fewer than [n] elements. *)
Theorem root_array_reserve_overflow a n :
  m_size a = 0 -> m_capacity a < n -> m_root a = [true] -> n < 2 ^ 64 -> 2 ^ 64 <= n * element_size ->
  exists a', reserve a n = Some (false, a') /\ m_capacity a' = n /\ Z.of_nat (length (m_array a')) < n.
Proof.
  intros Hz Hc Hroot Hn Hov. unfold reserve. rewrite (proj2 (Z.leb_gt _ _)) by lia. rewrite Hroot.
  cbn. rewrite Hz. cbn. eexists. split; [done|]. split; [done|]. cbn. rewrite length_replicate.
  pose proof (wrap_range 64 (n * element_size) ltac:(lia)) as [W1 W2].
  rewrite Z2Nat.id by (apply Z.div_pos; lia). apply Z.div_lt_upper_bound; nia.
Qed.

End array.

(** ** Witnesses *)

Lemma construct_models root : models (A := Z) 8 (construct root) ([], 0, root).
Proof. split; [|done]. split; [done|]. cbn. split; [lia|]. split; [done|]. split; [lia|]. intros i x Hi. done. Qed.

Definition sample_cmds : list (@cmd Z) :=
  [CPush 1; CPush 2; CResize 25 7; CPop; CChop 3; CPush 9; CReserve 100].

Lemma root_array_refines_witness :
  (exists a', run 8 false (construct [true; true; false]) sample_cmds
      = Some ((arun ([], 0, [true; true; false]) sample_cmds).1, a') /\
     models 8 a' (arun ([], 0, [true; true; false]) sample_cmds).2 /\
     forall i x, (arun ([], 0, [true; true; false]) sample_cmds).2.1.1 !! i = Some x ->
       at_ a' (Z.of_nat i) = Some x) /\
  arun ([], 0, [true; true; false]) sample_cmds
    = ([false; false; false; false; false; false; true], ([1; 2; 7; 9], 25, [])).
Proof.
  split; [|vm_compute; reflexivity].
  apply (root_array_refines 8 false); [lia|apply construct_models|].
  unfold sample_cmds. cbn; unfold push_bound. repeat split; try lia; done.
Defined.

Lemma root_array_reserve_overflow_witness :
  exists a' : @array Z, reserve 8 true (construct [true]) (2 ^ 61 + 1) = Some (false, a') /\
    m_capacity a' = 2 ^ 61 + 1 /\ Z.of_nat (length (m_array a')) < 2 ^ 61 + 1.
Proof. apply (root_array_reserve_overflow 8 true); try reflexivity; cbn; lia. Defined.

End RootArray.
