(* ===== verification/TranxAlloc.v ===== *)
(** * [Tranx_node_allocator] of include/mysql/server/private/semisync_master.h

    Transaction nodes are handed out in sequence from blocks of sixteen; blocks
    before the oldest node in use are moved behind the current block and reused
    or freed.  Pointers are integer addresses, 0 is null; the result of
    [my_malloc] is an argument; freeing a block that is not allocated is
    undefined ([None]). *)

From Stdlib Require Import ZArith Lia.
From stdpp Require Import prelude list_numbers.
From S2P Require Import Prelude Links.
Local Open Scope Z_scope.
Local Open Scope cint_scope.

Module TranxAlloc.

(** [struct Tranx_node]: of the name only the first character is written. *)
Record Tranx_node := mk_node { log_name0 : Z; log_pos : Z; tnext : Z; hash_next : Z }.

Definition BLOCK_TRANX_NODES : Z := 16.

(** [char log_name[FN_REFLEN]], an offset and two pointers. *)
Definition sizeof_node : Z := 512 + 8 + 8 + 8.

(** [&(block->nodes[i])] and the size of a [Block]. *)
Definition node_addr (block i : Z) : Z := block + 8 + i * sizeof_node.
Definition sizeof_block : Z := 8 + BLOCK_TRANX_NODES * sizeof_node.

Record allocator := mk_alloc {
  next : Z -> Z;                  (* Block::next *)
  nodes : Z -> Tranx_node;        (* the nodes, by address *)
  allocated : list Z;             (* blocks of my_malloc not yet freed *)
  reserved_blocks : Z;
  first_block : Z; last_block : Z; current_block : Z;
  last_node : Z; block_num : Z
}.

Definition set_next (a : allocator) (b p : Z) : allocator :=
  mk_alloc (fupd (next a) b p) (nodes a) (allocated a) (reserved_blocks a) (first_block a)
    (last_block a) (current_block a) (last_node a) (block_num a).
Definition set_node (a : allocator) (n : Z) (x : Tranx_node) : allocator :=
  mk_alloc (next a) (fupd (nodes a) n x) (allocated a) (reserved_blocks a) (first_block a)
    (last_block a) (current_block a) (last_node a) (block_num a).
Definition set_allocated (a : allocator) (l : list Z) : allocator :=
  mk_alloc (next a) (nodes a) l (reserved_blocks a) (first_block a)
    (last_block a) (current_block a) (last_node a) (block_num a).
Definition set_first (a : allocator) (b : Z) : allocator :=
  mk_alloc (next a) (nodes a) (allocated a) (reserved_blocks a) b
    (last_block a) (current_block a) (last_node a) (block_num a).
Definition set_last (a : allocator) (b : Z) : allocator :=
  mk_alloc (next a) (nodes a) (allocated a) (reserved_blocks a) (first_block a)
    b (current_block a) (last_node a) (block_num a).
Definition set_current (a : allocator) (b : Z) : allocator :=
  mk_alloc (next a) (nodes a) (allocated a) (reserved_blocks a) (first_block a)
    (last_block a) b (last_node a) (block_num a).
Definition set_last_node (a : allocator) (n : Z) : allocator :=
  mk_alloc (next a) (nodes a) (allocated a) (reserved_blocks a) (first_block a)
    (last_block a) (current_block a) n (block_num a).
Definition set_block_num (a : allocator) (n : Z) : allocator :=
  mk_alloc (next a) (nodes a) (allocated a) (reserved_blocks a) (first_block a)
    (last_block a) (current_block a) (last_node a) n.

Definition construct (reserved_nodes : Z) : allocator :=
  mk_alloc (fun _ => 0) (fun _ => mk_node 0 0 0 0) []
    (reserved_nodes / BLOCK_TRANX_NODES
     + (if 1 <? reserved_nodes mod BLOCK_TRANX_NODES then 2 else 1))
    0 0 0 (-1) 0.

(** [block] is the result of [my_malloc]; returns 1 on failure. *)
Definition allocate_block (a : allocator) (block : Z) : Z * allocator :=
  if truth block then
    let a := set_allocated a (block :: allocated a) in
    let a := set_next a block 0 in
    let a := if first_block a =? 0 then set_first a block else set_next a (last_block a) block in
    let a := set_last a block in
    let a := set_current a block in
    (0, set_block_num a (u32 (block_num a + 1)))
  else (1, a).

(** [my_free]: the block leaves the set of allocated ones, if it is there. *)
Fixpoint remove1 (x : Z) (l : list Z) : option (list Z) :=
  match l with
  | [] => None
  | y :: l => if x =? y then Some l else l ← remove1 x l; Some (y :: l)
  end.

Definition free_block (a : allocator) (block : Z) : option allocator :=
  rest ← remove1 block (allocated a);
  Some (set_block_num (set_allocated a rest) (u32 (block_num a - 1))).

(** The loop frees at most the blocks of the table. *)
Fixpoint free_loop (fuel : nat) (a : allocator) (block : Z) : option (allocator * Z) :=
  if (reserved_blocks a <? block_num a) && truth block then
    match fuel with
    | O => None
    | S fuel =>
        let nxt := next a block in
        a ← free_block a block;
        free_loop fuel a nxt
    end
  else Some (a, block).

Definition free_blocks (a : allocator) : option allocator :=
  if (current_block a =? 0) || (next a (current_block a) =? 0) then Some a
  else
    let block := next a (next a (current_block a)) in
    '(a, block) ← free_loop (length (allocated a)) a block;
    let a := set_next a (next a (current_block a)) block in
    Some (if block =? 0 then set_last a (next a (current_block a)) else a).

(** [malloc] is what [my_malloc] returns if it is called; 0 means no node. *)
Definition allocate_node (a : allocator) (malloc : Z) : Z * allocator :=
  let block := current_block a in
  let a := if last_node a =? BLOCK_TRANX_NODES - 1
           then set_last_node (set_current a (next a (current_block a))) (-1) else a in
  let '(fail, a) := if current_block a =? 0 then allocate_block a malloc else (0, a) in
  if truth fail then
    let a := set_current a block in
    (0, if truth (current_block a) then set_last_node a (BLOCK_TRANX_NODES - 1) else a)
  else
    let a := set_last_node a (last_node a + 1) in
    let trx_node := node_addr (current_block a) (last_node a) in
    (trx_node, set_node a trx_node (mk_node 0 0 0 0)).

Definition free_all_nodes (a : allocator) : option (Z * allocator) :=
  let a := set_current a (first_block a) in
  let a := set_last_node a (-1) in
  a ← free_blocks a;
  Some (0, a).

(** The search visits each block of the table at most once; a node that is not
    found fails the assertion at the end. *)
Fixpoint before_loop (fuel : nat) (a : allocator) (node block prev_block : Z) : option (Z * allocator) :=
  if block =? next a (current_block a) then None
  else if (node_addr block 0 <=? node) && (node <=? node_addr block BLOCK_TRANX_NODES) then
    if negb (first_block a =? block) then
      let a := set_next a (last_block a) (first_block a) in
      let a := set_first a block in
      let a := set_last a prev_block in
      let a := set_next a (last_block a) 0 in
      a ← free_blocks a;
      Some (0, a)
    else Some (0, a)
  else match fuel with
       | O => None
       | S fuel => before_loop fuel a node (next a block) block
       end.

Definition free_nodes_before (a : allocator) (node : Z) : option (Z * allocator) :=
  before_loop (length (allocated a)) a node (first_block a) 0.

(** The destructor frees every block of the table. *)
Fixpoint destroy_loop (fuel : nat) (a : allocator) (block : Z) : option allocator :=
  if block =? 0 then Some a
  else match fuel with
       | O => None
       | S fuel => let nxt := next a block in a ← free_block a block; destroy_loop fuel a nxt
       end.

Definition destruct_ (a : allocator) : option allocator :=
  destroy_loop (length (allocated a)) a (first_block a).

(** ** The block table *)

(** From [p] the next pointers lead through the blocks [bs] to [q]. *)
Fixpoint path (nx : Z -> Z) (p : Z) (bs : list Z) (q : Z) : Prop :=
  match bs with
  | [] => p = q
  | b :: bs => p = b /\ b <> 0 /\ path nx (nx b) bs q
  end.

Lemma path_app nx p xs ys q :
  path nx p (xs ++ ys) q <-> path nx p xs (List.hd q ys) /\ path nx (List.hd q ys) ys q.
Proof.
  revert p. induction xs as [|x xs IH]; intros p; cbn.
  - destruct ys; cbn; [tauto|]. naive_solver.
  - rewrite IH. tauto.
Qed.

Lemma path_ext nx nx' p bs q : (forall b, b ∈ bs -> nx' b = nx b) -> path nx p bs q -> path nx' p bs q.
Proof.
  revert p. induction bs as [|b bs IH]; intros p H; cbn; [done|].
  intros (H1 & H2 & H3). rewrite H by left. split; [done|]. split; [done|]. apply IH; [|done].
  intros c Hc. apply H. by right.
Qed.

Lemma path_redirect nx p xs x q q' :
  NoDup (xs ++ [x]) -> path nx p (xs ++ [x]) q -> path (fupd nx x q') p (xs ++ [x]) q'.
Proof.
  intros Hnd [H1 (_ & H2 & _)]%path_app. apply NoDup_app in Hnd as (_ & Hd & _). apply path_app.
  cbn in *. split; [|rewrite fupd_eq; done]. apply (path_ext nx); [|done].
  intros b Hb. apply fupd_ne. set_solver.
Qed.

Lemma path_head nx p bs q : path nx p bs q -> p = List.hd q bs.
Proof. destruct bs; cbn; tauto. Qed.

(** Blocks occupy disjoint memory. *)
Definition apart (bs : list Z) : Prop :=
  (forall b, b ∈ bs -> 0 < b) /\
  forall b c, b ∈ bs -> c ∈ bs -> b <> c -> b + sizeof_block <= c \/ c + sizeof_block <= b.

(** [table a pre cur post]: blocks in use before the current one, the current
    one, and the free ones behind it. *)
Definition table (a : allocator) (pre : list Z) (cur : Z) (post : list Z) : Prop :=
  let bs := pre ++ cur :: post in
  path (next a) (first_block a) bs 0 /\ last_block a = List.last post cur /\ current_block a = cur /\
  NoDup bs /\ allocated a ≡ₚ bs /\ Z.of_nat (length bs) < 2 ^ 32 /\
  block_num a = Z.of_nat (length bs) /\ -1 <= last_node a <= 15 /\ apart bs.

Lemma remove1_perm x l k : l ≡ₚ x :: k -> exists k', k ≡ₚ k' /\ remove1 x l = Some k'.
Proof.
  revert k. induction l as [|y l IH]; intros k H; [by apply Permutation_nil_cons in H|]. cbn.
  destruct (Z.eqb_spec x y) as [->|Hne].
  - exists l. split; [|done]. symmetry. by apply Permutation_cons_inv in H.
  - assert (y ∈ k) as Hy.
    { assert (y ∈ x :: k) by (rewrite <- H; left). set_solver. }
    apply list_elem_of_split in Hy as (k1 & k2 & ->).
    destruct (IH (k1 ++ k2)) as (k' & Hk & E).
    { apply (Permutation_cons_inv (a := y)). rewrite H. rewrite <- Permutation_middle. apply perm_swap. }
    rewrite E. cbn. exists (y :: k'). split; [|done]. by rewrite <- Permutation_middle, Hk.
Qed.

(** Freeing from the front of a list of free blocks. *)
Lemma free_loop_ok keep rest : forall fuel a block,
  path (next a) block rest 0 -> allocated a ≡ₚ keep ++ rest -> NoDup (keep ++ rest) ->
  block_num a = Z.of_nat (length keep + length rest) -> Z.of_nat (length keep + length rest) < 2 ^ 32 ->
  (length rest <= fuel)%nat ->
  exists k alloc, (k <= length rest)%nat /\
    free_loop fuel a block = Some (set_block_num (set_allocated a alloc) (block_num a - Z.of_nat k),
                                   List.hd 0 (drop k rest)) /\
    alloc ≡ₚ keep ++ drop k rest /\
    (drop k rest = [] \/ block_num a - Z.of_nat k <= reserved_blocks a) /\
    (k = 0%nat \/ reserved_blocks a <= block_num a - Z.of_nat k).
Proof.
  induction rest as [|b rest IH]; intros fuel a block Hp Ha Hnd Hn Hb Hf.
  - cbn in Hp. subst block. exists 0%nat, (allocated a). split; [done|].
    assert (forall fuel, free_loop fuel a 0 = Some (a, 0)) as ->.
    { intros [|f]; cbn [free_loop]; by rewrite andb_false_r. }
    split; [by destruct a; cbn; rewrite Z.sub_0_r|]. split; [done|]. split; [by left|by left].
  - pose proof Hp as (-> & Hb0 & Hp'). destruct fuel as [|fuel]; [cbn in Hf; lia|]. cbn [free_loop].
    assert (truth b = true) as -> by (by apply truth_true). rewrite andb_true_r.
    destruct (Z.ltb_spec (reserved_blocks a) (block_num a)) as [Hlt|Hge].
    + assert (allocated a ≡ₚ b :: (keep ++ rest)) as Ha' by (rewrite Ha; symmetry; apply Permutation_middle).
      apply remove1_perm in Ha' as (l & Hl & El).
      unfold free_block. rewrite El. cbn [mbind option_bind].
      rewrite u32_small by (cbn [length] in *; lia).
      destruct (IH fuel (set_block_num (set_allocated a l) (block_num a - 1)) (next a b))
        as (k & alloc & Hk & E & P & R1 & R2); try done.
      * apply NoDup_app in Hnd as (N1 & N2 & N3). apply NoDup_cons in N3 as [N3 N4].
        apply NoDup_app. split; [done|]. split; [set_solver|done].
      * cbn in *. lia.
      * cbn in *. lia.
      * cbn in *. lia.
      * exists (S k), alloc. cbn [length drop] in *. split; [lia|]. rewrite E. cbn in R1, R2 |- *.
        replace (block_num a - Z.of_nat (S k)) with (block_num a - 1 - Z.of_nat k) by lia.
        split; [done|]. split; [done|]. split; [done|]. right. lia.
    + exists 0%nat, (allocated a). split; [lia|]. split; [destruct a; cbn; by rewrite Z.sub_0_r|].
      split; [done|]. split; [right; lia|by left].
Qed.

Lemma apart_sub bs bs' : (forall b, b ∈ bs' -> b ∈ bs) -> apart bs -> apart bs'.
Proof. intros H [H0 Ha]. split; auto. Qed.

Lemma free_blocks_ok a pre cur post :
  table a pre cur post ->
  exists a' k, free_blocks a = Some a' /\ let post' := take 1 post ++ drop k (List.tl post) in
    table a' pre cur post' /\
    nodes a' = nodes a /\ last_node a' = last_node a /\ reserved_blocks a' = reserved_blocks a /\
    (drop k (List.tl post) = [] \/ block_num a' <= reserved_blocks a) /\
    (block_num a' = block_num a \/ reserved_blocks a <= block_num a').
Proof.
  intros (P & L & C & ND & AL & LB & BN & LN & AP). cbn zeta in *. unfold free_blocks. rewrite C.
  pose proof P as [P1 (_ & Hcur & P2)]%path_app. rewrite (proj2 (Z.eqb_neq cur 0)) by done. cbn [orb].
  destruct post as [|p rest].
  { cbn in P2. rewrite P2. exists a, 0%nat. split; [done|]. split; [by split|]. auto 10. }
  destruct P2 as (P2 & Hp0 & P3). rewrite P2, (proj2 (Z.eqb_neq p 0)) by done.
  destruct (free_loop_ok (pre ++ [cur; p]) rest (length (allocated a)) a (next a p))
    as (k & alloc & Hk & E & PA & R1 & R2).
  - done.
  - rewrite AL. by rewrite <- app_assoc.
  - by rewrite <- app_assoc.
  - rewrite BN, !length_app. cbn. lia.
  - rewrite !length_app in *. cbn in *. lia.
  - rewrite AL, length_app. cbn. lia.
  - rewrite E. cbn [mbind option_bind].
    set (q := List.hd 0 (drop k rest)).
    assert (path (next a) q (drop k rest) 0) as Pq.
    { rewrite <- (take_drop k rest) in P3. apply path_app in P3 as [_ P3]. exact P3. }
    set (a1 := set_next (set_block_num (set_allocated a alloc) (block_num a - Z.of_nat k))
      (next (set_block_num (set_allocated a alloc) (block_num a - Z.of_nat k))
        (current_block (set_block_num (set_allocated a alloc) (block_num a - Z.of_nat k)))) q).
    assert (next a1 = fupd (next a) p q) as En.
    { unfold a1. cbn. by rewrite C, P2. }
    assert (next a1 (current_block a1) = p) as Ep.
    { rewrite En. unfold a1. cbn. rewrite C, fupd_ne; [done|]. intros ->.
      apply NoDup_app in ND as (_ & _ & ND). apply NoDup_cons in ND as [ND _]. set_solver. }
    exists (if q =? 0 then set_last a1 (next a1 (current_block a1)) else a1), k.
    split; [done|]. change (take 1 (p :: rest)) with [p]. cbn [List.tl app].
    assert (length (pre ++ cur :: p :: drop k rest) = (length (pre ++ cur :: p :: rest) - k)%nat) as Len.
    { rewrite !length_app. cbn. rewrite length_drop. lia. }
    assert (path (next a1) (first_block a1) (pre ++ cur :: p :: drop k rest) 0) as Pn.
    { rewrite En. apply NoDup_app in ND as (N1 & N12 & N2). apply NoDup_cons in N2 as [N2 N3].
      apply NoDup_cons in N3 as [N3 N4].
      change (first_block a1) with (first_block a).
      apply path_app. split.
      - apply (path_ext (next a)); [|exact P1]. intros b Hb. apply fupd_ne. set_solver.
      - cbn [List.hd path]. split; [done|]. split; [done|]. rewrite fupd_ne by set_solver. split; [done|].
        split; [done|]. rewrite fupd_eq. apply (path_ext (next a)); [|exact Pq]. intros b Hb. apply fupd_ne.
        intros <-. apply N3. by apply subseteq_drop in Hb. }
    assert (forall a2, a2 = (if q =? 0 then set_last a1 (next a1 (current_block a1)) else a1) ->
      next a2 = next a1 /\ first_block a2 = first_block a /\ current_block a2 = cur /\
      allocated a2 = alloc /\ block_num a2 = block_num a - Z.of_nat k /\ last_node a2 = last_node a /\
      nodes a2 = nodes a /\ reserved_blocks a2 = reserved_blocks a /\
      last_block a2 = if q =? 0 then p else last_block a) as Hf.
    { intros a2 ->. destruct (q =? 0); repeat split; try exact C; exact Ep || done. }
    destruct (Hf _ eq_refl) as (F1 & F2 & F3 & F4 & F5 & F6 & F7 & F8 & F9).
    set (a2 := if q =? 0 then _ else _) in *. clearbody a2. rewrite F7, F6, F8, F5.
    split; [|split; [done|split; [done|split; [done|split; [done|lia]]]]].
    unfold table. rewrite F1, F2, F3, F4, F5, F6, F9. change (first_block a1) with (first_block a) in Pn.
    split; [exact Pn|]. split; [|split; [done|split; [|split; [|split; [|split; [|split]]]]]].
    + destruct (drop k rest) as [|d ds] eqn:Ed; cbn [List.hd] in q; subst q.
      * done.
      * destruct Pq as (_ & Hd0 & _). rewrite (proj2 (Z.eqb_neq d 0)) by done. rewrite L.
        change (p :: rest) with ([p] ++ rest). change (p :: d :: ds) with ([p] ++ (d :: ds)).
        rewrite <- (take_drop k rest), Ed. by rewrite app_assoc, !last_app_r.
    + apply NoDup_app in ND as (N1 & N12 & N2). apply NoDup_app. split; [done|].
      apply NoDup_cons in N2 as [N2 N3]. apply NoDup_cons in N3 as [N3 N4].
      pose proof (subseteq_drop k rest) as Hsub. split; [set_solver|].
      apply NoDup_cons. split; [set_solver|]. apply NoDup_cons. split; [set_solver|]. apply (sublist_NoDup _ rest); [done|apply sublist_drop].
    + by rewrite PA, <- app_assoc.
    + rewrite Len. lia.
    + rewrite Len, BN, !length_app. cbn [length]. lia.
    + done.
    + apply (apart_sub (pre ++ cur :: p :: rest)); [|done]. intros b Hb.
      pose proof (subseteq_drop k rest) as Hsub. set_solver.
Qed.

(** ** The sequence of nodes handed out *)

Definition block_nodes (b n : Z) : list Z := node_addr b <$> seqZ 0 n.

Definition used (pre : list Z) (cur ln : Z) : list Z :=
  concat (map (fun b => block_nodes b BLOCK_TRANX_NODES) pre) ++ block_nodes cur (ln + 1).

Lemma elem_of_block_nodes b n x :
  x ∈ block_nodes b n <-> exists i, 0 <= i < n /\ x = node_addr b i.
Proof.
  unfold block_nodes. rewrite list_elem_of_fmap. setoid_rewrite elem_of_seqZ. naive_solver lia.
Qed.

Lemma block_nodes_NoDup b n : NoDup (block_nodes b n).
Proof.
  apply NoDup_fmap_2; [|apply NoDup_seqZ]. intros i j. unfold node_addr, sizeof_node. lia.
Qed.

Lemma block_nodes_snoc b n : 0 <= n -> block_nodes b (n + 1) = block_nodes b n ++ [node_addr b n].
Proof.
  intros Hn. unfold block_nodes. rewrite seqZ_app, fmap_app by lia.
  by rewrite (seqZ_cons (0 + n)), (seqZ_nil (Z.succ _)) by lia.
Qed.

Lemma used_cons b pre cur ln : used (b :: pre) cur ln = block_nodes b BLOCK_TRANX_NODES ++ used pre cur ln.
Proof. unfold used. cbn [map concat]. by rewrite app_assoc. Qed.

Lemma used_app p1 p2 cur ln :
  used (p1 ++ p2) cur ln = concat (map (fun b => block_nodes b BLOCK_TRANX_NODES) p1) ++ used p2 cur ln.
Proof. unfold used. by rewrite map_app, concat_app, app_assoc. Qed.

Lemma elem_of_used pre cur ln x :
  -1 <= ln <= 15 -> x ∈ used pre cur ln ->
  exists b i, b ∈ pre ++ [cur] /\ 0 <= i < 16 /\ x = node_addr b i.
Proof.
  intros Hln. induction pre as [|b pre IH]; intros Hx.
  - unfold used in Hx. cbn in Hx. apply elem_of_block_nodes in Hx as (i & Hi & ->).
    exists cur, i. split; [by left|]. split; [lia|done].
  - rewrite used_cons in Hx. apply elem_of_app in Hx as [Hx|Hx].
    + apply elem_of_block_nodes in Hx as (i & Hi & ->). exists b, i. split; [by left|]. done.
    + destruct (IH Hx) as (c & i & Hc & Hi & ->). exists c, i. split; [by right|]. done.
Qed.

(** Nodes of different blocks are different. *)
Lemma node_addr_inj bs b c i j :
  apart bs -> b ∈ bs -> c ∈ bs -> 0 <= i < 16 -> 0 <= j < 16 -> node_addr b i = node_addr c j -> b = c /\ i = j.
Proof.
  intros [_ Ha] Hb Hc Hi Hj E. unfold node_addr, sizeof_node in *.
  destruct (Z.eq_dec b c) as [->|Hne]; [split; [done|lia]|].
  destruct (Ha b c Hb Hc Hne) as [H|H]; unfold sizeof_block, BLOCK_TRANX_NODES, sizeof_node in H; lia.
Qed.

Lemma used_NoDup bs pre cur ln :
  NoDup (pre ++ [cur]) -> apart bs -> (forall b, b ∈ pre ++ [cur] -> b ∈ bs) -> -1 <= ln <= 15 ->
  NoDup (used pre cur ln).
Proof.
  intros Hnd Ha Hsub Hln. induction pre as [|b pre IH].
  - unfold used. cbn. apply block_nodes_NoDup.
  - rewrite used_cons. cbn [app] in Hnd. apply NoDup_cons in Hnd as [Hb Hnd].
    apply NoDup_app. split; [apply block_nodes_NoDup|]. split; [|apply IH; [done|set_solver]].
    intros x Hx Hu. apply elem_of_block_nodes in Hx as (i & Hi & ->).
    apply (elem_of_used _ _ _ _ Hln) in Hu as (c & j & Hc & Hj & E).
    destruct (node_addr_inj bs b c i j Ha) as [-> _]; try done; set_solver.
Qed.

(** The states of an allocator, with the nodes handed out and not yet
    released with their block. *)
Definition fresh_state (a : allocator) : Prop :=
  first_block a = 0 /\ last_block a = 0 /\ current_block a = 0 /\ allocated a = [] /\
  last_node a = -1 /\ block_num a = 0.

Definition inv (a : allocator) (u : list Z) : Prop :=
  (fresh_state a /\ u = []) \/
  exists pre cur post, table a pre cur post /\ u = used pre cur (last_node a).

(** What [my_malloc] may return: null, or memory apart from all blocks. *)
Definition malloc_ok (a : allocator) (m : Z) : Prop :=
  m = 0 \/
  (0 < m /\ Z.of_nat (length (allocated a)) + 1 < 2 ^ 32 /\
   forall b, b ∈ allocated a -> b + sizeof_block <= m \/ m + sizeof_block <= b).

Lemma table_used_NoDup a pre cur post : table a pre cur post -> NoDup (used pre cur (last_node a)).
Proof.
  intros (_ & _ & _ & ND & _ & _ & _ & LN & AP). apply (used_NoDup (pre ++ cur :: post)); [|done| |done].
  - apply NoDup_app in ND as (N1 & N2 & N3). apply NoDup_cons in N3 as [N3 _].
    apply NoDup_app. split; [done|]. split; [set_solver|apply NoDup_singleton].
  - set_solver.
Qed.

Lemma inv_NoDup a u : inv a u -> NoDup u.
Proof. intros [[_ ->]|(pre & cur & post & T & ->)]; [apply NoDup_nil_2|by apply (table_used_NoDup a pre cur post)]. Qed.

(** ** Allocation *)

(** The last step of [allocate_node]: the next node of the current block. *)
Definition bump (a : allocator) : Z * allocator :=
  let a := set_last_node a (last_node a + 1) in
  let trx_node := node_addr (current_block a) (last_node a) in
  (trx_node, set_node a trx_node (mk_node 0 0 0 0)).

(** What a successful allocation promises. *)
Definition alloc_ok (a : allocator) (u : list Z) (r : Z * allocator) : Prop :=
  r.1 <> 0 /\ r.1 ∉ u /\ inv r.2 (u ++ [r.1]) /\ nodes r.2 r.1 = mk_node 0 0 0 0 /\
  forall y, y ∈ u -> nodes r.2 y = nodes a y.

Lemma bump_ok a pre cur post :
  table a pre cur post -> last_node a < 15 -> alloc_ok a (used pre cur (last_node a)) (bump a).
Proof.
  intros T Hln. pose proof T as (P & L & C & ND & AL & LB & BN & LN & AP).
  assert (table (bump a).2 pre cur post) as T'.
  { unfold bump, table. cbn. repeat (split; [done|]). split; [lia|done]. }
  assert (used pre cur (last_node (bump a).2) = used pre cur (last_node a) ++ [(bump a).1]) as U.
  { unfold used, bump. cbn. rewrite C.
    rewrite (block_nodes_snoc cur (last_node a + 1)), app_assoc by lia. done. }
  pose proof (table_used_NoDup _ _ _ _ T') as NU. rewrite U in NU.
  apply NoDup_app in NU as (_ & NU & _).
  assert ((bump a).1 ∉ used pre cur (last_node a)) as Hfresh by set_solver.
  split.
  - unfold bump. cbn. rewrite C. destruct AP as [AP _]. specialize (AP cur ltac:(set_solver)).
    unfold node_addr, sizeof_node. lia.
  - split; [done|]. split; [right; exists pre, cur, post; by rewrite U|]. split.
    + unfold bump. cbn. by rewrite fupd_eq.
    + intros y Hy. unfold bump. cbn. apply fupd_ne. intros <-. by apply Hfresh.
Qed.

Lemma used_next pre cur p : used (pre ++ [cur]) p (-1) = used pre cur 15.
Proof.
  unfold used. rewrite map_app, concat_app. cbn [map concat]. rewrite app_nil_r.
  change (block_nodes p (-1 + 1)) with (@nil Z). rewrite app_nil_r. done.
Qed.

(** Moving on to the next block of the table. *)
Lemma advance_table a pre cur p post :
  table a pre cur (p :: post) -> table (set_last_node (set_current a p) (-1)) (pre ++ [cur]) p post.
Proof.
  intros (P & L & C & ND & AL & LB & BN & LN & AP). unfold table. cbn -[List.last].
  rewrite <- app_assoc. cbn [app]. repeat (split; [done|]).
  split; [rewrite L; destruct post as [|z post]; [done|]; exact (last_default (z :: post) cur p ltac:(done))|].
  repeat (split; [done|]). done.
Qed.

(** A new block behind all others becomes the current one. *)
Lemma allocate_block_table a pre cur m :
  table a pre cur [] -> malloc_ok a m -> m <> 0 ->
  exists a', allocate_block (set_last_node (set_current a 0) (-1)) m = (0, a') /\
    table a' (pre ++ [cur]) m [] /\ last_node a' = -1 /\ nodes a' = nodes a.
Proof.
  intros (P & L & C & ND & AL & LB & BN & LN & AP) [?|(Hm & Hlen & Hap)] Hne; [done|].
  unfold allocate_block. rewrite (proj2 (truth_true m) Hne). cbn [first_block set_next set_allocated set_last_node set_current].
  assert (first_block a <> 0) as Hf.
  { destruct (pre ++ [cur]) as [|f r] eqn:E; [by destruct pre|]. destruct P as (-> & H0 & _). done. }
  rewrite (proj2 (Z.eqb_neq _ _) Hf). eexists. split; [done|]. split; [|done]. cbn [List.last] in L.
  assert (m ∉ pre ++ [cur]) as Hin.
  { intros Hin. rewrite <- AL in Hin. destruct (Hap m Hin); unfold sizeof_block, BLOCK_TRANX_NODES, sizeof_node in *; lia. }
  unfold table. cbn -[List.last]. rewrite L. split; [|split; [done|split; [done|split; [|split; [|split; [|split; [|split]]]]]]].
  - apply path_app. split.
    + apply (path_redirect (fupd (next a) m 0) (first_block a) pre cur 0 m); [done|].
      apply (path_ext (next a)); [|done]. intros b Hb. apply fupd_ne. intros ->. done.
    + cbn. split; [done|]. split; [done|]. rewrite fupd_ne by set_solver. by rewrite fupd_eq.
  - apply NoDup_app. split; [done|]. split; [set_solver|apply NoDup_singleton].
  - rewrite AL. apply Permutation_cons_append.
  - rewrite AL in Hlen. rewrite length_app. cbn. lia.
  - rewrite u32_small by (rewrite AL in Hlen; lia). rewrite BN, (length_app _ [m]). cbn. lia.
  - lia.
  - destruct AP as [AP0 AP]. split.
    + intros b [Hb|Hb]%elem_of_app; [by apply AP0|set_solver].
    + intros b c [Hb| ->%list_elem_of_singleton]%elem_of_app [Hc| ->%list_elem_of_singleton]%elem_of_app Hbc;
        [by apply AP| | |done].
      * apply Hap. by rewrite AL.
      * assert (c ∈ allocated a) as Hc' by (by rewrite AL). destruct (Hap c Hc'); lia.
Qed.

Lemma allocate_node_ok a u m :
  inv a u -> malloc_ok a m ->
  let r := allocate_node a m in
  (r.1 = 0 /\ m = 0 /\ inv r.2 u /\ nodes r.2 = nodes a) \/ alloc_ok a u r.
Proof.
  intros HI HM r. destruct HI as [[(F1 & F2 & F3 & F4 & F5 & F6) ->]|(pre & cur & post & T & ->)].
  - assert (r = if truth m then bump (set_block_num (set_current (set_last (set_first (set_next
      (set_allocated a (m :: allocated a)) m 0) m) m) m) (u32 (block_num a + 1))) else (0, set_current a 0)) as E.
    { unfold r, allocate_node. rewrite F5. change (-1 =? BLOCK_TRANX_NODES - 1) with false.
      cbv iota zeta. rewrite F3. change (0 =? 0) with true. cbv iota.
      unfold allocate_block. cbn. rewrite F1. by destruct (truth m). }
    destruct HM as [->|(Hm & Hlen & Hap)].
    + left. rewrite E. cbn. split; [done|]. split; [done|]. split; [|done]. left. split; [|done].
      by repeat split.
    + right. assert (truth m = true) as Et by (apply truth_true; lia). rewrite Et in E. rewrite E.
      set (a1 := set_block_num _ _) in *.
      assert (table a1 [] m []) as T1.
      { unfold a1, table. cbn. rewrite F4, F5, F6. split; [rewrite fupd_eq; split; [done|split; [lia|done]]|].
        repeat (split; [done|]). split; [apply NoDup_singleton|]. repeat (split; [done|]).
        split; [intros b ->%list_elem_of_singleton; lia|].
        intros b c ->%list_elem_of_singleton ->%list_elem_of_singleton. done. }
      pose proof (bump_ok a1 [] m [] T1) as B. cbn [last_node set_last_node a1] in B.
      assert (last_node a1 = -1) as El by (unfold a1; cbn; done). rewrite El in B.
      change (used [] m (-1)) with (@nil Z) in B. specialize (B ltac:(lia)).
      destruct B as (B1 & B2 & B3 & B4 & B5). split; [done|]. split; [done|]. split; [done|]. split; [done|].
      set_solver.
  - pose proof T as (P & L & C & ND & AL & LB & BN & LN & AP).
    assert (cur <> 0) as Hc0.
    { destruct AP as [AP _]. specialize (AP cur ltac:(set_solver)). lia. }
    destruct (Z.eq_dec (last_node a) 15) as [E15|Hlt].
    + destruct post as [|p post].
      * assert (next a cur = 0) as Hn by (apply path_app in P as [_ (_ & _ & P)]; exact P).
        destruct (Z.eq_dec m 0) as [->|Hm0].
        -- left. assert (r = (0, set_last_node (set_current (set_last_node (set_current a 0) (-1)) cur) 15)) as E.
           { unfold r, allocate_node. rewrite E15, C, Hn. change (15 =? BLOCK_TRANX_NODES - 1) with true.
             cbn. by rewrite (proj2 (truth_true cur) Hc0). }
           rewrite E. cbn. split; [done|]. split; [done|]. split; [|done]. right.
           exists pre, cur, []. split; [|by rewrite E15]. unfold table. cbn.
           repeat (split; [done|]). done.
        -- right. destruct (allocate_block_table a pre cur m T HM Hm0) as (a' & E & T' & Ln & Nd).
           assert (r = bump a') as ->.
           { unfold r, allocate_node. rewrite E15, C, Hn. change (15 =? BLOCK_TRANX_NODES - 1) with true.
             cbn -[allocate_block]. by rewrite E. }
           pose proof (bump_ok a' _ _ _ T') as B. rewrite Ln, used_next, <- E15 in B.
           destruct (B ltac:(lia)) as (B1 & B2 & B3 & B4 & B5).
           split; [done|]. split; [done|]. split; [done|]. split; [done|]. intros y Hy. by rewrite B5, Nd.
      * right. assert (next a cur = p /\ p <> 0) as [Hn Hp0].
        { apply path_app in P as [_ (_ & _ & P)]. destruct P as (P & Hp & _). done. }
        pose proof (advance_table a pre cur p post T) as T'.
        assert (r = bump (set_last_node (set_current a p) (-1))) as ->.
        { unfold r, allocate_node. rewrite E15, C, Hn. change (15 =? BLOCK_TRANX_NODES - 1) with true.
          cbn. by rewrite (proj2 (Z.eqb_neq p 0) Hp0). }
        pose proof (bump_ok _ _ _ _ T') as B. cbn [last_node set_last_node] in B. rewrite used_next, <- E15 in B.
        exact (B ltac:(lia)).
    + right. assert (r = bump a) as ->.
      { unfold r, allocate_node. rewrite (proj2 (Z.eqb_neq (last_node a) (BLOCK_TRANX_NODES - 1))) by (unfold BLOCK_TRANX_NODES; lia).
        rewrite C, (proj2 (Z.eqb_neq cur 0)) by done. done. }
      apply (bump_ok a pre cur post T). lia.
Qed.

(** ** Freeing *)

(** The blocks [d] in front are moved behind the free blocks. *)
Definition rotate (a : allocator) (block prev_block : Z) : allocator :=
  let a := set_next a (last_block a) (first_block a) in
  let a := set_first a block in
  let a := set_last a prev_block in
  set_next a (last_block a) 0.

Lemma rotate_table a d pre cur post :
  table a (d ++ pre) cur post -> d <> [] ->
  table (rotate a (List.hd cur pre) (List.last d 0)) pre cur (post ++ d).
Proof.
  intros (P & L & C & ND & AL & LB & BN & LN & AP) Hd. cbn zeta in *. rewrite <- app_assoc in *.
  assert (exists ys, pre ++ cur :: post = ys ++ [last_block a]) as (ys & Ey).
  { rewrite L. destruct post as [|q post]; [by exists pre|].
    destruct (last_snoc_form (q :: post) cur) as (k & E); [done|]. exists (pre ++ cur :: k).
    rewrite E at 1. by rewrite <- app_assoc. }
  destruct (last_snoc_form d 0 Hd) as (ds & Ed). set (ld := List.last d 0) in *.
  apply path_app in P as [P1 P2].
  assert (List.hd 0 (pre ++ cur :: post) = List.hd cur pre) as Eh by (by destruct pre). rewrite Eh in P1, P2.
  assert (first_block a = List.hd 0 d) as Ef by (apply path_head in P1; by destruct d).
  assert (NoDup (pre ++ cur :: post) /\ NoDup d /\ forall b, b ∈ d -> b ∉ pre ++ cur :: post) as (N1 & N2 & N3).
  { apply NoDup_app in ND as (? & ? & ?). split; [done|]. split; [done|]. set_solver. }
  assert (ld ∈ d) as Hld by (rewrite Ed; set_solver).
  assert (last_block a ∈ pre ++ cur :: post) as Hlb by (rewrite Ey; set_solver).
  assert (pre ++ cur :: post ++ d = (pre ++ cur :: post) ++ d) as Eapp by (by rewrite <- app_assoc).
  unfold table, rotate. cbn -[List.last]. rewrite Eapp.
  split; [|split; [|split; [done|split; [|split; [|split; [|split; [|split]]]]]]].
  - apply path_app. rewrite <- Ef. split.
    + rewrite Ey in N1, P2 |- *. apply (path_ext (fupd (next a) (last_block a) (first_block a))).
      { intros b Hb. apply fupd_ne. intros <-. rewrite <- Ey in Hb. by apply (N3 ld). }
      by apply (path_redirect (next a) _ _ _ 0).
    + rewrite Ed in N2, P1 |- *. apply (path_redirect _ _ _ _ (List.hd cur pre)); [done|].
      apply (path_ext (next a)); [|done]. intros b Hb. apply fupd_ne. intros <-.
      rewrite <- Ed in Hb. by apply (N3 (last_block a)).
  - symmetry. rewrite last_app_r by done. by apply last_default.
  - apply NoDup_app. split; [done|]. split; [set_solver|done].
  - rewrite AL. apply Permutation_app_comm.
  - rewrite !length_app in *. lia.
  - rewrite BN, !length_app. lia.
  - done.
  - apply (apart_sub (d ++ pre ++ cur :: post)); [|done]. set_solver.
Qed.

(** The search stops at the block of the node. *)
Lemma before_loop_ok a pre cur post : table a pre cur post -> forall t d fuel i,
  pre ++ [cur] = d ++ t -> t <> [] -> 0 <= i < 16 ->
  forall s bt r, t = s ++ bt :: r -> (length t <= fuel)%nat ->
  before_loop fuel a (node_addr bt i) (List.hd 0 t) (List.last d 0) =
    (if negb (first_block a =? bt) then
       a ← free_blocks (rotate a bt (List.last (d ++ s) 0)); Some (0, a)
     else Some (0, a)).
Proof.
  intros (P & L & C & ND & AL & LB & BN & LN & AP) t. cbn zeta in *.
  replace (pre ++ cur :: post) with ((pre ++ [cur]) ++ post) in * by (by rewrite <- app_assoc).
  assert (next a cur = List.hd 0 post) as Hstop.
  { rewrite <- app_assoc in P. apply path_app in P as [_ (_ & _ & P)]. by apply path_head in P. }
  induction t as [|c t IH]; intros d fuel i Hsplit Ht Hi s bt r E Hf; [done|].
  destruct fuel as [|fuel]; [cbn in Hf; lia|]. cbn [before_loop List.hd].
  assert (c ∈ pre ++ [cur] /\ bt ∈ pre ++ [cur]) as [Hc Hbt].
  { rewrite Hsplit, E. split; [|set_solver]. destruct s; set_solver. }
  assert (c <> next a (current_block a)) as Hne.
  { rewrite C, Hstop. destruct post as [|q post]; cbn.
    - destruct AP as [AP _]. specialize (AP c ltac:(set_solver)). lia.
    - intros ->. apply NoDup_app in ND as (_ & ND & _). apply (ND q Hc). left. }
  rewrite (proj2 (Z.eqb_neq _ _) Hne).
  destruct s as [|c' s]; cbn [app] in E; injection E as -> E.
  - assert ((node_addr bt 0 <=? node_addr bt i) && (node_addr bt i <=? node_addr bt BLOCK_TRANX_NODES) = true) as ->.
    { unfold node_addr, BLOCK_TRANX_NODES, sizeof_node. apply andb_true_iff. rewrite !Z.leb_le. lia. }
    by rewrite app_nil_r.
  - assert ((node_addr c' 0 <=? node_addr bt i) && (node_addr bt i <=? node_addr c' BLOCK_TRANX_NODES) = false) as ->.
    { assert (c' <> bt) as Hcb.
      { intros ->. rewrite Hsplit, E in ND. apply NoDup_app in ND as (ND & _).
        apply NoDup_app in ND as (_ & _ & ND). apply NoDup_cons in ND as [ND _]. set_solver. }
      destruct AP as [AP0 AP]. pose proof (AP0 bt ltac:(set_solver)).
      destruct (AP c' bt ltac:(set_solver) ltac:(set_solver) Hcb) as [H1|H1];
        unfold sizeof_block, node_addr, BLOCK_TRANX_NODES, sizeof_node in *; zcases; simpl; lia || done. }
    assert (next a c' = List.hd 0 t) as Hnx.
    { rewrite Hsplit in P. rewrite <- app_assoc in P. apply path_app in P as [_ P]. destruct P as (_ & _ & P).
      apply path_head in P. rewrite P. destruct t; [by destruct s|done]. }
    rewrite Hnx. specialize (IH (d ++ [c']) fuel i). rewrite last_app_r in IH by done. cbn [List.last] in IH.
    rewrite (IH ltac:(by rewrite <- app_assoc) ltac:(rewrite E; by destruct s) Hi s bt r E ltac:(cbn in Hf; lia)).
    by rewrite <- app_assoc.
Qed.

Lemma elem_split (l : list Z) x : x ∈ l -> exists l1 l2, l = l1 ++ x :: l2.
Proof. apply list_elem_of_split. Qed.

(** [free_nodes_before] keeps all nodes from the block of the node on. *)
Lemma free_nodes_before_ok a pre cur post node :
  table a pre cur post -> node ∈ used pre cur (last_node a) ->
  exists a' d pre' post', free_nodes_before a node = Some (0, a') /\ pre = d ++ pre' /\
    table a' pre' cur post' /\ node ∈ used pre' cur (last_node a') /\
    nodes a' = nodes a /\ last_node a' = last_node a /\
    (block_num a' = block_num a \/ reserved_blocks a <= block_num a').
Proof.
  intros T Hn. pose proof T as (P & L & C & ND & AL & LB & BN & LN & AP).
  destruct (elem_of_used _ _ _ _ LN Hn) as (bt & i & Hbt & Hi & ->).
  apply elem_split in Hbt as (d & r & Esplit).
  assert (exists pre', pre = d ++ pre' /\ bt :: r = pre' ++ [cur] /\ bt = List.hd cur pre') as (pre' & -> & Er & Eb).
  { destruct r as [|r0 r _] using rev_ind.
    - apply app_inj_tail in Esplit as [-> ->]. exists []. by rewrite app_nil_r.
    - exists (bt :: r). rewrite app_comm_cons, app_assoc in Esplit.
      apply app_inj_tail in Esplit as [-> ->]. done. }
  assert (node_addr bt i ∈ used pre' cur (last_node a)) as Hn'.
  { clear -Hn T Hi Esplit Er. rewrite used_app in Hn. apply elem_of_app in Hn as [Hn|Hn]; [|done]. exfalso.
    pose proof T as (_ & _ & _ & ND & _ & _ & _ & _ & AP). cbn zeta in *.
    assert (exists c j, c ∈ d /\ 0 <= j < 16 /\ node_addr bt i = node_addr c j) as (c & j & Hc & Hj & E).
    { clear -Hn. induction d as [|b d IH]; cbn in Hn; [set_solver|].
      apply elem_of_app in Hn as [Hn|Hn].
      - apply elem_of_block_nodes in Hn as (j & Hj & E). exists b, j. split; [left|]. done.
      - destruct (IH Hn) as (c & j & Hc & Hj & E). exists c, j. split; [by right|]. done. }
    assert (bt ∈ pre' ++ [cur]) as Hbt by (rewrite <- Er; left).
    destruct (node_addr_inj _ bt c i j AP ltac:(set_solver) ltac:(set_solver) Hi Hj E) as [-> _].
    rewrite <- app_assoc in ND. apply NoDup_app in ND as (_ & ND & _). apply (ND c Hc). set_solver. }
  unfold free_nodes_before.
  assert (first_block a = List.hd 0 ((d ++ pre') ++ [cur])) as Ef.
  { apply path_head in P. rewrite P. destruct (d ++ pre'); done. }
  rewrite Ef.
  pose proof (before_loop_ok a (d ++ pre') cur post T ((d ++ pre') ++ [cur]) [] (length (allocated a)) i
    eq_refl ltac:(by destruct (d ++ pre')) Hi d bt r Esplit) as HL.
  cbn [List.last app] in HL. rewrite HL; clear HL.
  2: { rewrite AL, !length_app. cbn. lia. }
  destruct d as [|d0 d].
  - assert (first_block a = bt) as -> by (rewrite Ef; cbn [app]; destruct pre'; cbn in *; congruence).
    rewrite Z.eqb_refl. cbn [negb]. exists a, [], pre', post. auto 10.
  - assert (first_block a <> bt) as Hfb.
    { rewrite Ef. cbn. intros ->. cbn in ND. apply NoDup_cons in ND as [ND _]. apply ND.
      assert (bt ∈ pre' ++ [cur]) by (rewrite <- Er; left). set_solver. }
    rewrite (proj2 (Z.eqb_neq _ _) Hfb). cbn [negb]. rewrite Eb.
    pose proof (rotate_table a (d0 :: d) pre' cur post T ltac:(done)) as TR.
    destruct (free_blocks_ok _ _ _ _ TR) as (a' & k & E & TF & F1 & F2 & F3 & _ & F5). rewrite E. cbn [mbind option_bind].
    eexists a', (d0 :: d), pre', _. split; [done|]. split; [done|]. split; [exact TF|].
    rewrite F2. cbn in F1, F3, F5 |- *. split; [rewrite <- Eb; exact Hn'|]. split; [done|]. split; [done|].
    exact F5.
Qed.

Lemma free_all_nodes_ok a u :
  inv a u -> exists a', free_all_nodes a = Some (0, a') /\ inv a' [] /\ nodes a' = nodes a.
Proof.
  intros [[(F1 & F2 & F3 & F4 & F5 & F6) ->]|(pre & cur & post & T & ->)].
  - exists (set_last_node (set_current a 0) (-1)). unfold free_all_nodes, free_blocks. cbn. rewrite F1. cbn.
    split; [done|]. split; [|done]. left. by repeat split.
  - pose proof T as (P & L & C & ND & AL & LB & BN & LN & AP). cbn zeta in *.
    assert (exists f rest, pre ++ cur :: post = f :: rest /\ List.last rest f = List.last post cur) as (f & rest & E & EL).
    { destruct pre as [|f pre]; [by exists cur, post|]. exists f, (pre ++ cur :: post). split; [done|].
      rewrite last_app_r by done. destruct post as [|q post]; [done|].
      exact (last_default (q :: post) f cur ltac:(done)). }
    unfold free_all_nodes. set (a1 := set_last_node (set_current a (first_block a)) (-1)).
    assert (first_block a = f) as Ef by (rewrite E in P; apply path_head in P; done).
    assert (table a1 [] f rest) as T1.
    { rewrite E in *. unfold table, a1. cbn -[List.last path]. rewrite EL.
      split; [exact P|]. split; [exact L|]. split; [exact Ef|]. repeat (split; [done|]). done. }
    destruct (free_blocks_ok _ _ _ _ T1) as (a' & k & -> & TF & F1 & F2 & _). cbn [mbind option_bind].
    exists a'. split; [done|]. split; [|by rewrite F1]. right. eexists _, _, _. split; [exact TF|].
    rewrite F2. done.
Qed.

(** The destructor returns every block exactly once. *)
Lemma destroy_loop_ok bs : forall fuel a p,
  path (next a) p bs 0 -> allocated a ≡ₚ bs -> (length bs <= fuel)%nat ->
  exists a', destroy_loop fuel a p = Some a' /\ allocated a' = [].
Proof.
  induction bs as [|b bs IH]; intros fuel a p P AL Hf.
  - cbn in P. subst p. exists a. split; [by destruct fuel|]. by apply Permutation_nil_r in AL.
  - destruct P as (-> & Hb & P). destruct fuel as [|fuel]; [cbn in Hf; lia|]. cbn [destroy_loop].
    rewrite (proj2 (Z.eqb_neq b 0) Hb). apply remove1_perm in AL as (l & Hl & El).
    unfold free_block. rewrite El. cbn [mbind option_bind]. apply IH; [done|done|cbn in Hf; lia].
Qed.

Lemma destruct_ok a u : inv a u -> exists a', destruct_ a = Some a' /\ allocated a' = [].
Proof.
  intros [[(F1 & F2 & F3 & F4 & F5 & F6) _]|(pre & cur & post & (P & _ & _ & _ & AL & _) & _)]; unfold destruct_.
  - exists a. rewrite F1, F4. done.
  - apply (destroy_loop_ok (pre ++ cur :: post)); [done|done|by rewrite AL].
Qed.

(** ** Histories of an allocator *)

Inductive cmd := CAlloc (malloc : Z) | CFreeBefore (node : Z) | CFreeAll.

(** The result of an allocation is its node, of a free the code 0 or 1. *)
Definition exec (a : allocator) (c : cmd) : option (Z * allocator) :=
  match c with
  | CAlloc m => Some (allocate_node a m)
  | CFreeBefore node => free_nodes_before a node
  | CFreeAll => free_all_nodes a
  end.

(** The nodes in use: an allocated node joins at the end, freeing drops the
    nodes in front of the given one, or all. *)
Fixpoint from (node : Z) (live : list Z) : list Z :=
  match live with
  | [] => []
  | x :: live => if x =? node then x :: live else from node live
  end.

Definition live_exec (live : list Z) (c : cmd) (result : Z) : list Z :=
  match c with
  | CAlloc _ => if truth result then live ++ [result] else live
  | CFreeBefore node => from node live
  | CFreeAll => []
  end.

(** One step of a history: what the environment may do and what it sees. *)
Inductive step : allocator * list Z -> allocator * list Z -> Prop :=
  | step_exec a live c r a' :
      match c with
      | CAlloc m => malloc_ok a m
      | CFreeBefore node => node ∈ live
      | CFreeAll => True
      end ->
      exec a c = Some (r, a') ->
      step (a, live) (a', live_exec live c r).

(** The nodes in use are the last ones handed out. *)
Definition world (s : allocator * list Z) : Prop := exists u, inv s.1 u /\ s.2 `suffix_of` u.

Lemma from_split x l1 l2 : x ∉ l1 -> from x (l1 ++ x :: l2) = x :: l2.
Proof.
  induction l1 as [|y l1 IH]; intros H; cbn; [by rewrite Z.eqb_refl|].
  rewrite (proj2 (Z.eqb_neq y x)) by set_solver. apply IH. set_solver.
Qed.

(** In a list without duplicates an element has one tail. *)
Lemma tail_unique (x : Z) a b c d : NoDup (a ++ x :: b) -> a ++ x :: b = c ++ x :: d -> b = d.
Proof.
  revert c. induction a as [|y a IH]; intros c Hnd E; cbn in *.
  - destruct c as [|z c]; cbn in E; [congruence|]. injection E as <- ->.
    apply NoDup_cons in Hnd as [Hx _]. set_solver.
  - apply NoDup_cons in Hnd as [Hy Hnd]. destruct c as [|z c]; cbn in E.
    + injection E as -> <-. set_solver.
    + injection E as <- E. by apply (IH c).
Qed.

(** Every allowed command is defined and keeps the history consistent. *)
Lemma step_total a live c :
  world (a, live) ->
  match c with
  | CAlloc m => malloc_ok a m
  | CFreeBefore node => node ∈ live
  | CFreeAll => True
  end ->
  exists r a', exec a c = Some (r, a') /\ world (a', live_exec live c r) /\
    match c with
    | CAlloc m => (r = 0 /\ m = 0) \/
        (r ∉ live /\ nodes a' r = mk_node 0 0 0 0 /\ forall y, y ∈ live -> nodes a' y = nodes a y)
    | _ => r = 0 /\ nodes a' = nodes a
    end.
Proof.
  intros (u & HI & Hs) Hc. cbn [fst snd] in *. destruct c as [m|node|]; cbn [exec live_exec].
  - destruct (allocate_node a m) as [r a'] eqn:E. pose proof (allocate_node_ok a u m HI Hc) as H.
    rewrite E in H. cbn [fst snd] in H. exists r, a'. split; [done|].
    destruct H as [(-> & -> & HI' & Hn)|(H1 & H2 & H3 & H4 & H5)].
    + split; [exists u; by cbn|by left].
    + cbn [fst snd] in *. rewrite (proj2 (truth_true r) H1). destruct Hs as [w ->]. split.
      * exists ((w ++ live) ++ [r]). split; [done|]. exists w. cbn. by rewrite <- app_assoc.
      * right. split; [set_solver|]. split; [done|]. intros y Hy. apply H5. set_solver.
  - pose proof (inv_NoDup a u HI) as NU.
    destruct HI as [[_ ->]|(pre & cur & post & T & Eu)].
    { destruct Hs as [w E]. symmetry in E. apply app_nil in E as [_ ->]. set_solver. }
    assert (node ∈ u) as Hu by (destruct Hs as [w ->]; set_solver). rewrite Eu in Hu.
    destruct (free_nodes_before_ok a pre cur post node T Hu)
      as (a' & d & pre' & post' & E & -> & T' & Hn' & Nd & Ln & _).
    exists 0, a'. split; [done|]. split; [|done].
    exists (used pre' cur (last_node a')). split; [right; eauto|]. cbn [snd].
    destruct Hs as [w Hw]. apply elem_split in Hc as (l1 & l2 & ->).
    apply elem_split in Hn' as (x1 & x2 & Ex). rewrite Ex.
    rewrite Ln in Ex. rewrite used_app, Ex in Eu. rewrite Hw in NU.
    assert (l2 = x2) as ->.
    { rewrite Eu in Hw. rewrite !app_assoc in Hw. rewrite app_assoc in NU.
      exact (tail_unique _ _ _ _ _ NU (eq_sym Hw)). }
    rewrite from_split; [by exists x1|]. apply NoDup_app in NU as (_ & _ & NU).
    apply NoDup_app in NU as (_ & NU & _). set_solver.
  - destruct (free_all_nodes_ok a u HI) as (a' & -> & HI' & Hn). exists 0, a'. split; [done|].
    split; [|done]. exists []. split; [done|]. by exists [].
Qed.

Lemma reachable_world s s' : rtc step s s' -> world s -> world s'.
Proof.
  induction 1 as [|s1 s2 s3 Hst _ IH]; [done|]. intros HW. apply IH.
  destruct Hst as [a live c r a' Hc E].
  destruct (step_total a live c HW Hc) as (r' & a2 & E' & HW' & _). rewrite E in E'. by simplify_eq.
Qed.

Lemma construct_world n : world (construct n, []).
Proof. exists []. split; [|by exists []]. left. by repeat split. Qed.

(** ** Properties *)

(** C23: Safety of [Tranx_node_allocator]: in every state reachable from the
    constructor by allocations (that may run out of memory), [free_nodes_before]
    a node in use and [free_all_nodes], the nodes in use are distinct, every
    further command is defined (no block is freed that is not allocated and no
    search fails), an allocation returns null only when [my_malloc] does and
    otherwise a node that is not in use, cleared, without touching the nodes
    in use, and a free returns 0; the destructor then returns every block. *)
Theorem tranx_allocator_safe n a live c :
  rtc step (construct n, []) (a, live) ->
  match c with
  | CAlloc m => malloc_ok a m
  | CFreeBefore node => node ∈ live
  | CFreeAll => True
  end ->
  NoDup live /\
  (exists r a', exec a c = Some (r, a') /\
    match c with
    | CAlloc m => (r = 0 /\ m = 0) \/
        (r ∉ live /\ nodes a' r = mk_node 0 0 0 0 /\ forall y, y ∈ live -> nodes a' y = nodes a y)
    | _ => r = 0 /\ nodes a' = nodes a
    end) /\
  exists a', destruct_ a = Some a' /\ allocated a' = [].
Proof.
  intros Hr Hc. pose proof (reachable_world _ _ Hr (construct_world n)) as HW.
  pose proof HW as (u & HI & Hs). cbn [fst snd] in *. split; [|split].
  - pose proof (inv_NoDup a u HI) as NU. destruct Hs as [w ->]. by apply NoDup_app in NU as (_ & _ & ?).
  - destruct (step_total a live c HW Hc) as (r & a' & E & _ & H). by exists r, a'.
  - by apply (destruct_ok a u).
Qed.

(** [free_blocks] returns free blocks as documented: afterwards the blocks
    in use are untouched, at most one free block is left behind the current one
    unless the table is within the reserve, no block is returned that takes the
    table below the reserve, and a free block, if there was one, is kept. *)
Theorem tranx_free_keeps_reserve a pre cur post :
  table a pre cur post ->
  exists a' post', free_blocks a = Some a' /\ table a' pre cur post' /\
    ((length post' <= 1)%nat \/ block_num a' <= reserved_blocks a') /\
    (block_num a' = block_num a \/ reserved_blocks a' <= block_num a') /\
    (post <> [] -> post' <> []).
Proof.
  intros T. destruct (free_blocks_ok a pre cur post T) as (a' & k & E & T' & F1 & F2 & F3 & F4 & F5).
  exists a', (take 1 post ++ drop k (List.tl post)). split; [done|]. split; [done|]. rewrite F3.
  split; [|split; [done|by destruct post]].
  destruct F4 as [->|F4]; [left|by right]. rewrite app_nil_r. destruct post as [|p [|q post]]; cbn; lia.
Qed.

(** ** Witnesses *)

Definition sample : allocator := construct 0.

(** Seventeen allocations from two blocks. *)
Definition fill (a : allocator) (n : nat) : allocator :=
  Nat.iter n (fun a => (allocate_node a (if current_block a =? 0 then 10000 else 30000)).2) a.

Lemma sample_first : step (sample, []) ((allocate_node sample 10000).2, [10008]).
Proof.
  apply (step_exec sample [] (CAlloc 10000) 10008); [|reflexivity].
  right. split; [lia|]. split; [reflexivity|]. intros b Hb. cbn in Hb. set_solver.
Qed.

Lemma tranx_allocator_safe_witness :
  NoDup [10008] /\
  (exists r a', exec (allocate_node sample 10000).2 (CFreeBefore 10008) = Some (r, a') /\
    (r = 0 /\ nodes a' = nodes (allocate_node sample 10000).2)) /\
  exists a', destruct_ (allocate_node sample 10000).2 = Some a' /\ allocated a' = [].
Proof.
  exact (tranx_allocator_safe 0 (allocate_node sample 10000).2 [10008] (CFreeBefore 10008)
    (rtc_once _ _ sample_first) ltac:(left)).
Defined.

Definition two_blocks : allocator := set_last_node (set_current (fill sample 17) 10000) 15.

Lemma two_blocks_table : table two_blocks [] 10000 [30000].
Proof.
  assert (next two_blocks 10000 = 30000 /\ next two_blocks 30000 = 0 /\
    first_block two_blocks = 10000 /\ last_block two_blocks = 30000 /\
    allocated two_blocks = [30000; 10000] /\ block_num two_blocks = 2 /\
    current_block two_blocks = 10000 /\ last_node two_blocks = 15) as H
    by (vm_compute; repeat split; reflexivity).
  revert H. generalize two_blocks as a. intros a (E1 & E2 & E3 & E4 & E5 & E6 & E7 & E8).
  unfold table. cbn [app path List.last]. rewrite E1, E2, E3, E4, E5, E6, E7, E8.
  split; [lia|]. split; [reflexivity|]. split; [reflexivity|].
  split; [apply NoDup_cons; split; [set_solver|apply NoDup_singleton]|].
  split; [apply perm_swap|]. split; [cbn; lia|]. split; [reflexivity|].
  split; [lia|].
  split.
  - intros b Hb. repeat (apply elem_of_cons in Hb as [->|Hb]; [lia|]). set_solver.
  - intros b c Hb Hc Hne.
    repeat (apply elem_of_cons in Hb as [->|Hb]; [|]); try set_solver;
      repeat (apply elem_of_cons in Hc as [->|Hc]; [|]); try set_solver; try done;
      unfold sizeof_block, BLOCK_TRANX_NODES, sizeof_node; lia.
Qed.

Lemma tranx_free_keeps_reserve_witness :
  exists a' post', free_blocks two_blocks = Some a' /\ table a' [] 10000 post' /\
    ((length post' <= 1)%nat \/ block_num a' <= reserved_blocks a') /\
    (block_num a' = block_num two_blocks \/ reserved_blocks a' <= block_num a') /\
    ([30000] <> [] -> post' <> []).
Proof. exact (tranx_free_keeps_reserve two_blocks [] 10000 [30000] two_blocks_table). Defined.

End TranxAlloc.
