(* ===== verification/Rings.v ===== *)
(** * Doubly linked chains that end in a sentinel

    The shape shared by [base_ilist] (sql_list.h), whose elements point back to
    the cell that holds them, and [ilist] (ilist.h), whose elements point back
    to their predecessor, that is to its next cell.  The theory is stated for a
    type of links [L], a type of cells [C] and the next cell [nxt] of a link. *)

From stdpp Require Import prelude.
From S2P Require Import Prelude Links.

Section rings.
Context {L C : Type} `{EqDecision L} `{EqDecision C} (nxt : L -> C) `{!Inj (=) (=) nxt}.

(** From the cell [c] the pointers lead through [xs] to the sentinel [q]; every
    link, the sentinel included, points back to the cell that holds it. *)
Fixpoint seg (ld : C -> L) (prv : L -> C) (c : C) (xs : list L) (q : L) : Prop :=
  match xs with
  | [] => ld c = q /\ prv q = c
  | x :: xs => ld c = x /\ prv x = c /\ seg ld prv (nxt x) xs q
  end.

Fixpoint endc (c : C) (xs : list L) : C :=
  match xs with [] => c | x :: xs => endc (nxt x) xs end.

Lemma endc_app c xs ys : endc c (xs ++ ys) = endc (endc c xs) ys.
Proof. revert c. induction xs; cbn; auto. Qed.

Lemma endc_snoc c xs x : endc c (xs ++ [x]) = nxt x.
Proof. by rewrite endc_app. Qed.

Lemma endc_cell c xs : endc c xs = c \/ exists x, x ∈ xs /\ endc c xs = nxt x.
Proof.
  destruct xs as [|x xs _] using rev_ind; [by left|]. rewrite endc_snoc. right. exists x. set_solver.
Qed.

(** The part of a chain before a link, with the link it leads to. *)
Fixpoint part (ld : C -> L) (prv : L -> C) (c : C) (xs : list L) (q : L) : Prop :=
  match xs with
  | [] => ld c = q
  | x :: xs => ld c = x /\ prv x = c /\ part ld prv (nxt x) xs q
  end.

Lemma seg_app ld prv c xs ys q :
  seg ld prv c (xs ++ ys) q <->
  part ld prv c xs (List.hd q ys) /\ seg ld prv (endc c xs) ys q.
Proof.
  revert c. induction xs as [|x xs IH]; intros c; cbn.
  - destruct ys; cbn; tauto.
  - rewrite IH. tauto.
Qed.

(** Dropping the last link makes it the end of the chain. *)
Lemma seg_snoc ld prv c xs x q :
  seg ld prv c (xs ++ [x]) q -> seg ld prv c xs x /\ ld (nxt x) = q /\ prv q = nxt x.
Proof.
  revert c. induction xs as [|y xs IH]; intros c; cbn; [tauto|].
  intros (H1 & H2 & H3). apply IH in H3. tauto.
Qed.

Lemma seg_head ld prv c xs q : seg ld prv c xs q -> ld c = List.hd q xs /\ prv (List.hd q xs) = c.
Proof. destruct xs; cbn; tauto. Qed.

Lemma seg_sentinel ld prv c xs q : seg ld prv c xs q -> ld (endc c xs) = q /\ prv q = endc c xs.
Proof. revert c. induction xs as [|x xs IH]; intros c; cbn; [done|]. intros (_ & _ & H). by apply IH. Qed.

(** The start cell is not the next cell of a link of the chain. *)
Definition proper (c : C) (xs : list L) (q : L) : Prop :=
  NoDup xs /\ q ∉ xs /\ forall x, x ∈ xs -> c <> nxt x.

Lemma seg_ext ld ld' prv prv' c xs q :
  ld' c = ld c -> (forall x, x ∈ xs -> ld' (nxt x) = ld (nxt x) /\ prv' x = prv x) ->
  prv' q = prv q -> seg ld prv c xs q -> seg ld' prv' c xs q.
Proof.
  revert c. induction xs as [|x xs IH]; intros c Hc Hx Hq; cbn.
  - by rewrite Hc, Hq.
  - intros (H1 & H2 & H3). destruct (Hx x) as [X1 X2]; [by left|]. rewrite Hc, X2.
    split; [done|]. split; [done|]. apply IH; [done| |done|done]. intros y Hy. apply Hx. by right.
Qed.

Lemma part_redirect ld ld' prv prv' c xs q q' :
  NoDup xs -> (forall x, x ∈ xs -> c <> nxt x) -> ld' (endc c xs) = q' ->
  (forall x, x ∈ xs -> prv' x = prv x) ->
  (forall c', c' <> endc c xs -> (c' = c \/ exists x, x ∈ xs /\ c' = nxt x) -> ld' c' = ld c') ->
  part ld prv c xs q -> part ld' prv' c xs q'.
Proof.
  revert c. induction xs as [|x xs IH]; intros c Hnd Hc He Hp Hl; cbn in *; [done|].
  intros (H1 & H2 & H3). apply NoDup_cons in Hnd as [Hx Hnd].
  rewrite (Hl c).
  - rewrite Hp by left. split; [done|]. split; [done|]. apply IH; [done| |done| | |done].
    + intros y Hy E. apply (inj nxt) in E. by subst.
    + intros y Hy. apply Hp. by right.
    + intros c' Hne [->|(y & Hy & ->)]; apply Hl; try done.
      * right. exists x. split; [by left|done].
      * right. exists y. split; [by right|done].
  - intros E. destruct (endc_cell (nxt x) xs) as [E'|(y & Hy & E')].
    + apply (Hc x); [by left|congruence].
    + apply (Hc y); [by right|congruence].
  - by left.
Qed.

Lemma seg_restart ld ld' prv prv' c c' xs q :
  seg ld prv c xs q -> NoDup xs -> q ∉ xs ->
  ld' c' = List.hd q xs -> prv' (List.hd q xs) = c' ->
  (forall x, x ∈ xs -> ld' (nxt x) = ld (nxt x)) ->
  (forall x, x ∈ xs \/ x = q -> x <> List.hd q xs -> prv' x = prv x) ->
  seg ld' prv' c' xs q.
Proof.
  destruct xs as [|x xs]; cbn; [done|]. intros (H1 & H2 & H3) Hnd Hq E P Hl Hp.
  apply NoDup_cons in Hnd as [Hx Hnd]. split; [done|]. split; [done|].
  apply (seg_ext ld _ prv); [apply Hl; by left| | |done].
  - intros y Hy. split; [apply Hl; by right|]. apply Hp; [left; by right|]. intros ->. done.
  - apply Hp; [by right|]. intros ->. set_solver.
Qed.

(** Linking [a] between [xs] and [ys]. *)
Lemma splice_in ld ld' prv prv' c xs ys q a :
  let e := endc c xs in let y := List.hd q ys in
  seg ld prv c (xs ++ ys) q -> proper c (xs ++ ys) q -> a ∉ xs ++ ys -> a <> q -> c <> nxt a ->
  ld' e = a -> ld' (nxt a) = y -> (forall c', c' <> e -> c' <> nxt a -> ld' c' = ld c') ->
  prv' a = e -> prv' y = nxt a -> (forall z, z <> a -> z <> y -> prv' z = prv z) ->
  seg ld' prv' c (xs ++ a :: ys) q /\ proper c (xs ++ a :: ys) q.
Proof.
  intros e y [S1 S2]%seg_app (Hnd & Hq & Hc) Ha Haq Hca L1 L2 L3 P1 P2 P3.
  apply NoDup_app in Hnd as (N1 & N12 & N2).
  assert (forall x, x ∈ xs -> x <> y) as Hxy.
  { intros x Hx ->. unfold y in Hx. destruct ys; cbn in Hx; set_solver. }
  assert (forall x, x ∈ ys -> nxt x <> e) as Hye.
  { intros x Hx E. destruct (endc_cell c xs) as [E'|(z & Hz & E')]; fold e in E'.
    - apply (Hc x); [set_solver|congruence].
    - rewrite E' in E. apply (inj nxt) in E. set_solver. }
  split.
  - apply seg_app. split.
    + apply (part_redirect ld _ prv _ _ _ (List.hd q ys)); [done|set_solver|done| | |done].
      * intros x Hx. apply P3; [set_solver|by apply Hxy].
      * intros c' Hne Hc'. apply L3; [done|]. intros ->.
        destruct Hc' as [|(x & Hx & E)]; [done|]. apply (inj nxt) in E. set_solver.
    + cbn. fold e. split; [done|]. split; [done|].
      apply (seg_restart ld _ prv _ e); [done|done|set_solver|done|done| |].
      * intros x Hx. apply L3; [by apply Hye|]. intros E. apply (inj nxt) in E. set_solver.
      * intros x Hx Hne. apply P3; [|done]. intros ->. set_solver.
  - split; [|split].
    + apply NoDup_app. split; [done|]. split; [set_solver|]. apply NoDup_cons. set_solver.
    + set_solver.
    + intros x Hx. apply elem_of_app in Hx as [|[->|]%elem_of_cons]; [set_solver|done|set_solver].
Qed.

(** Unlinking [a]: the cells of [a] itself are free to change. *)
Lemma splice_out ld ld' prv prv' c xs ys q a :
  let e := endc c xs in let y := List.hd q ys in
  seg ld prv c (xs ++ a :: ys) q -> proper c (xs ++ a :: ys) q ->
  ld' e = y -> (forall c', c' <> e -> c' <> nxt a -> ld' c' = ld c') ->
  prv' y = e -> (forall z, z <> a -> z <> y -> prv' z = prv z) ->
  seg ld' prv' c (xs ++ ys) q /\ proper c (xs ++ ys) q.
Proof.
  intros e y [S1 (S2 & S3 & S4)]%seg_app (Hnd & Hq & Hc) L1 L2 P1 P2.
  apply NoDup_app in Hnd as (N1 & N12 & N2). apply NoDup_cons in N2 as [Na N2].
  assert (forall x, x ∈ xs -> x <> y) as Hxy.
  { intros x Hx ->. unfold y in Hx. destruct ys; cbn in Hx; set_solver. }
  assert (forall x, x ∈ ys -> nxt x <> e) as Hye.
  { intros x Hx E. destruct (endc_cell c xs) as [E'|(z & Hz & E')]; fold e in E'.
    - apply (Hc x); [set_solver|congruence].
    - rewrite E' in E. apply (inj nxt) in E. set_solver. }
  split.
  - apply seg_app. split.
    + apply (part_redirect ld _ prv _ _ _ a); [done|set_solver|done| | |done].
      * intros x Hx. apply P2; [set_solver|by apply Hxy].
      * intros c' Hne Hc'. apply L2; [done|]. intros ->.
        destruct Hc' as [E|(x & Hx & E)].
        -- apply (Hc a); [set_solver|congruence].
        -- apply (inj nxt) in E. set_solver.
    + fold e. apply (seg_restart ld _ prv _ (nxt a)); [done|done|set_solver|done|done| |].
      * intros x Hx. apply L2; [by apply Hye|]. intros E. apply (inj nxt) in E. set_solver.
      * intros x Hx Hne. apply P2; [|done]. intros ->. set_solver.
  - split; [|split].
    + apply NoDup_app. split; [done|]. split; [set_solver|done].
    + set_solver.
    + set_solver.
Qed.

End rings.
