(* ===== verification/SqlIList.v ===== *)
(** * [SQL_I_List] of include/mysql/server/private/sql_list.h

    A singly linked intrusive list with the address of its last next cell.
    Copying a list object copies that address, so two objects can share cells;
    the model keeps the cells and the list objects in one heap. *)

From Stdlib Require Import ZArith Lia.
From stdpp Require Import prelude.
From S2P Require Import Prelude Links.
Local Open Scope Z_scope.
Local Open Scope cint_scope.

Module SqlIList.

Record heap := mk_heap {
  cell : slot -> N;      (* [first] of a list object, next member of an element *)
  next : N -> slot;      (* [T **next] of a list object *)
  elements : N -> Z      (* its [elements] *)
}.

Definition set_cell (h : heap) (s : slot) (a : N) : heap :=
  mk_heap (fupd (cell h) s a) (next h) (elements h).
Definition set_next (h : heap) (l : N) (s : slot) : heap :=
  mk_heap (cell h) (fupd (next h) l s) (elements h).
Definition set_elements (h : heap) (l : N) (z : Z) : heap :=
  mk_heap (cell h) (next h) (fupd (elements h) l z).

Definition first (h : heap) (l : N) : N := cell h (SFirst l).

Definition empty (h : heap) (l : N) : heap :=
  let h := set_elements h l 0 in
  let h := set_cell h (SFirst l) NULL in
  set_next h l (SFirst l).

(** The copy constructor, [l] being the object under construction. *)
Definition copy_ctor (h : heap) (l tmp : N) : heap :=
  let h := set_elements h l (elements h tmp) in
  let h := set_cell h (SFirst l) (first h tmp) in
  set_next h l (if truth (elements h l) then next h tmp else SFirst l).

Definition assign (h : heap) (l tmp : N) : heap :=
  let h := set_elements h l (elements h tmp) in
  let h := set_cell h (SFirst l) (first h tmp) in
  set_next h l (next h tmp).

(** Every caller passes the next member of the element as [next_ptr]. *)
Definition link_in_list (h : heap) (l element : N) : heap :=
  let h := set_elements h l (u32 (elements h l + 1)) in
  let h := set_cell h (next h l) element in
  let h := set_next h l (SNext element) in
  set_cell h (next h l) NULL.

Definition save_and_clear (h : heap) (l save : N) : heap := empty (assign h save l) l.

Definition push_front (h : heap) (l save : N) : heap :=
  let h := set_cell h (next h save) (first h l) in
  let h := set_cell h (SFirst l) (first h save) in
  set_elements h l (u32 (elements h l + elements h save)).

Definition push_back (h : heap) (l save : N) : heap :=
  if N.eqb (first h save) NULL then h
  else
    let h := set_cell h (next h l) (first h save) in
    let h := set_next h l (next h save) in
    set_elements h l (u32 (elements h l + elements h save)).

(** ** The sequence a list object represents *)

Definition load (h : heap) (s : slot) : option N := Some (cell h s).

Definition rep (h : heap) (l : N) (ns : list N) : Prop :=
  linked (load h) (SFirst l) ns NULL /\ NoDup ns /\ NULL ∉ ns /\
  next h l = end_slot (SFirst l) ns /\ elements h l = u32 (Z.of_nat (length ns)).

Lemma load_eq h h' s : cell h' s = cell h s -> load h' s = load h s.
Proof. unfold load. by intros ->. Qed.

Lemma rep_first h l ns : rep h l ns -> first h l = from_option id NULL (head ns).
Proof. intros (H & _). apply linked_head in H. by injection H. Qed.

Lemma empty_is_rep h l : rep (empty h l) l [].
Proof.
  split; [cbn; unfold load; cbn; upd|]. split; [apply NoDup_nil_2|]. split; [set_solver|].
  split; cbn; upd.
Qed.

(** Lists with other elements are not disturbed by a change of these cells. *)
Definition touches (h h' : heap) (l : N) (ns : list N) : Prop :=
  (forall c, c ∉ cells (SFirst l) ns -> cell h' c = cell h c) /\
  (forall l', l' <> l -> next h' l' = next h l' /\ elements h' l' = elements h l').

Lemma sqli_frame h h' l ns l' ns' :
  touches h h' l ns -> l' <> l -> ns ## ns' -> rep h l' ns' -> rep h' l' ns'.
Proof.
  intros (Tc & Tl) Hl Hd (H1 & H2 & H3 & H4 & H5). destruct (Tl l' Hl) as [E1 E2].
  split; [|rewrite E1, E2; done]. apply (linked_ext (load h)); [|done].
  intros [l2|n] Hc; apply load_eq, Tc.
  - apply elem_of_cells_first in Hc as [= ->]. rewrite elem_of_cells_first. congruence.
  - apply elem_of_cells_next in Hc as [Hc|Hc]; [done|]. rewrite elem_of_cells_next. set_solver.
Qed.

Lemma u32_add a b : u32 (u32 a + b) = u32 (a + b).
Proof. unfold wrap. by rewrite Zplus_mod_idemp_l. Qed.

Lemma link_in_list_rep h l a ns :
  rep h l ns -> a ∉ ns -> a <> NULL ->
  rep (link_in_list h l a) l (ns ++ [a]) /\ touches h (link_in_list h l a) l (a :: ns).
Proof.
  intros (H1 & H2 & H3 & H4 & H5) Ha Hn. set (s := end_slot (SFirst l) ns) in *.
  assert (s <> SNext a) as Hs by (intros E; apply end_slot_is_next in E; done).
  assert (cell (link_in_list h l a) = fupd (fupd (cell h) s a) (SNext a) NULL) as Ec.
  { unfold link_in_list. cbn. by rewrite fupd_eq, H4. }
  assert (next (link_in_list h l a) = fupd (next h) l (SNext a)) as En by done.
  assert (elements (link_in_list h l a) = fupd (elements h) l (u32 (elements h l + 1))) as Ee by done.
  set (h' := link_in_list h l a) in *. clearbody h'.
  split; [split; [|split; [|split; [|split]]]|split].
  - apply linked_snoc. split.
    + apply (linked_redirect (load h) _ _ _ NULL); [by apply cells_NoDup| |done].
      intros c Hc. unfold load. rewrite Ec. fold s. unfold fupd.
      destruct (decide (SNext a = c)) as [<-|]; [|by case_decide].
      apply elem_of_cells_next in Hc as [|]; done.
    + unfold load. rewrite Ec. upd.
  - apply NoDup_app. split; [done|]. split; [set_solver|apply NoDup_singleton].
  - set_solver.
  - rewrite En, end_slot_snoc. upd.
  - rewrite Ee. unfold fupd. rewrite decide_True by done. rewrite H5, u32_add, length_app. f_equal. cbn. lia.
  - intros c Hc. rewrite Ec. unfold fupd. rewrite !decide_False; [done| |].
    + intros E. apply Hc. rewrite <- E. pose proof (end_slot_cells (SFirst l) ns) as He. fold s in He.
      clear -He. unfold cells in *. set_solver.
    + intros E. apply Hc. rewrite <- E. apply elem_of_cells_next. set_solver.
  - intros l' Hl. rewrite En, Ee. upd.
Qed.

(** Concatenation: the cells of [l] lead through [ns] and then through [ms]. *)
Lemma push_back_list_rep h l save ns ms :
  rep h l ns -> rep h save ms -> l <> save -> ns ## ms -> rep (push_back h l save) l (ns ++ ms).
Proof.
  intros R1 R2 Hls Hd. pose proof (rep_first h save ms R2) as Hf.
  destruct R1 as (H1 & H2 & H3 & H4 & H5), R2 as (G1 & G2 & G3 & G4 & G5).
  unfold push_back. rewrite Hf. destruct ms as [|m ms]; cbn [from_option head id].
  { rewrite N.eqb_refl, app_nil_r. by split. }
  destruct (N.eqb_spec m NULL) as [->|Hm]; [set_solver|]. rewrite H4.
  set (s := end_slot (SFirst l) ns) in *.
  assert (forall n, n ∈ m :: ms -> SNext n <> s) as Hs.
  { intros n Hn E. symmetry in E. apply end_slot_is_next in E. set_solver. }
  split; [|split; [|split; [|split]]].
  - apply (linked_concat _ _ _ _ _ m).
    + apply (linked_redirect (load h) _ _ _ NULL); [by apply cells_NoDup| |done].
      intros c Hc. unfold load. cbn. fold s. upd.
    + unfold load. cbn. fold s. upd.
    + destruct G1 as [_ G1]. apply (linked_ext (load h)); [|done]. intros c Hc. apply load_eq. cbn.
      unfold fupd. rewrite decide_False; [done|]. intros <-. unfold cells in Hc.
      rewrite elem_of_cons, list_elem_of_fmap in Hc. destruct Hc as [E|(k & E & Hk)].
      * apply (Hs m); [by left|done].
      * apply (Hs k); [by right|done].
  - apply NoDup_app. split; [done|]. split; [set_solver|done].
  - set_solver.
  - cbn. unfold fupd. rewrite decide_True by done. rewrite G4, end_slot_app. fold s.
    by apply end_slot_nonempty.
  - cbn. unfold fupd. rewrite decide_True by done. rewrite H5, G5, u32_add, Z.add_comm, u32_add, length_app.
    f_equal. lia.
Qed.

(** Prepending a saved list, provided this list is not empty. *)
Lemma push_front_list_rep h l save n ns ms :
  rep h l (n :: ns) -> rep h save ms -> l <> save -> (n :: ns) ## ms ->
  rep (push_front h l save) l (ms ++ n :: ns).
Proof.
  intros R1 R2 Hls Hd. pose proof (rep_first h save ms R2) as Hf. pose proof (rep_first h l _ R1) as Hf1.
  cbn in Hf1. destruct R1 as (H1 & H2 & H3 & H4 & H5), R2 as (G1 & G2 & G3 & G4 & G5).
  set (s := end_slot (SFirst save) ms) in *.
  assert (s <> SFirst l) as Hsl by (intros E; apply end_slot_is_first in E; naive_solver).
  assert (cell (push_front h l save) =
    fupd (fupd (cell h) s n) (SFirst l) (from_option id n (head ms))) as Ec.
  { unfold push_front, first in *. cbn. rewrite G4, Hf1. fold s. f_equal. unfold fupd.
    destruct ms as [|m ms]; cbn [end_slot] in s; subst s.
    - by rewrite decide_True.
    - rewrite decide_False; [done|]. intros E. destruct (end_slot_next m ms) as (q & Eq & _). congruence. }
  assert (next (push_front h l save) = next h) as En by done.
  assert (elements (push_front h l save) l = u32 (elements h l + elements h save)) as Ee by (cbn; upd).
  set (h' := push_front h l save) in *. clearbody h'.
  assert (forall k, k ∈ n :: ns -> SNext k <> s) as Hs.
  { intros k Hk E. symmetry in E. apply end_slot_is_next in E. set_solver. }
  assert (linked (load h') (SNext n) ns NULL) as Hrest.
  { destruct H1 as [_ H1]. apply (linked_ext (load h)); [|done]. intros c Hc. apply load_eq. rewrite Ec.
    unfold cells in Hc. rewrite elem_of_cons, list_elem_of_fmap in Hc.
    assert (exists k, c = SNext k /\ k ∈ n :: ns) as (k & -> & Hk) by (destruct Hc as [->|(k & -> & Hk)]; set_solver).
    specialize (Hs k Hk). upd. }
  split; [|split; [|split; [|split]]].
  - destruct ms as [|m ms].
    + cbn. split; [|done]. unfold load. rewrite Ec. upd.
    + cbn [app linked]. split; [unfold load; rewrite Ec; upd|].
      apply linked_app. split; [|done]. destruct G1 as [_ G1].
      apply (linked_redirect (load h) _ _ _ NULL); [apply cells_NoDup_next; done| |done].
      intros c Hc. unfold load. rewrite Ec. change (end_slot (SNext m) ms) with s. unfold fupd.
      rewrite (decide_False (P := SFirst l = c)) by
        (intros <-; apply elem_of_cells_first in Hc; done). by case_decide.
  - apply NoDup_app. split; [done|]. split; [set_solver|done].
  - set_solver.
  - rewrite En, H4, end_slot_app. by apply end_slot_nonempty.
  - rewrite Ee, H5, G5, u32_add, Z.add_comm, u32_add, length_app. f_equal. lia.
Qed.

(** ** Properties *)

Fixpoint link_all (h : heap) (l : N) (xs : list N) : heap :=
  match xs with [] => h | a :: xs => link_all (link_in_list h l a) l xs end.

Lemma link_all_rep xs : forall h l ns,
  rep h l ns -> NoDup (ns ++ xs) -> NULL ∉ xs -> rep (link_all h l xs) l (ns ++ xs).
Proof.
  induction xs as [|a xs IH]; intros h l ns Hr Hnd Hn; cbn [link_all]; [by rewrite app_nil_r|].
  replace (ns ++ a :: xs) with ((ns ++ [a]) ++ xs) in * by (by rewrite <- app_assoc).
  apply IH; [|done|set_solver].
  rewrite <- app_assoc in Hnd. apply NoDup_app in Hnd as (_ & Hnd & _).
  apply link_in_list_rep; [done|set_solver|set_solver].
Qed.

(** [SQL_I_List]: linking elements one by one appends them in order, and
    concatenating another list, at the back or at the front of a list that is
    not empty, yields the concatenation with the end cell and the count right. *)
Theorem sqli_build_and_concat h l save ns xs ms :
  rep h l ns -> NoDup (ns ++ xs) -> NULL ∉ xs -> rep (link_all h l xs) save ms -> l <> save ->
  (ns ++ xs) ## ms ->
  let h1 := link_all h l xs in
  rep h1 l (ns ++ xs) /\ rep (push_back h1 l save) l ((ns ++ xs) ++ ms) /\
  (ns ++ xs <> [] -> rep (push_front h1 l save) l (ms ++ (ns ++ xs))).
Proof.
  intros Hr Hnd Hn Hs Hls Hd h1. assert (rep h1 l (ns ++ xs)) as H1 by (by apply link_all_rep).
  split; [done|]. split; [by apply push_back_list_rep|].
  destruct (ns ++ xs) as [|n k] eqn:E; [done|]. intros _. by apply push_front_list_rep.
Qed.

(** [push_front] onto an empty list forgets to move [next]: the saved
    elements are reachable from [first], but [next] still addresses [first], so
    that the following [link_in_list] overwrites [first] and drops all of them,
    while the count still includes them. *)
Theorem sqli_push_front_loses h l save m ms a :
  rep h l [] -> rep h save (m :: ms) -> l <> save -> a ∉ m :: ms -> a <> NULL ->
  let h1 := push_front h l save in let h2 := link_in_list h1 l a in
  linked (load h1) (SFirst l) (m :: ms) NULL /\ next h1 l = SFirst l /\
  linked (load h2) (SFirst l) [a] NULL /\ elements h2 l = u32 (Z.of_nat (length ms) + 2).
Proof.
  intros R1 R2 Hls Ha Hn. pose proof (rep_first h save _ R2) as Hf. pose proof (rep_first h l _ R1) as Hf1.
  cbn in Hf, Hf1. destruct R1 as (_ & _ & _ & H4 & H5), R2 as (G1 & G2 & G3 & G4 & G5).
  cbn [end_slot] in H4. set (s := end_slot (SFirst save) (m :: ms)) in *.
  assert (s <> SFirst save) as Hss.
  { cbn in s. subst s. destruct (end_slot_next m ms) as (q & -> & _). done. }
  assert (cell (push_front h l save) = fupd (fupd (cell h) s NULL) (SFirst l) m) as Ec.
  { unfold push_front, first in *. cbn. rewrite G4, Hf1. fold s. f_equal. unfold fupd.
    by rewrite decide_False. }
  intros h1 h2. split; [|split; [done|split]].
  - cbn [linked]. split; [unfold load, h1; rewrite Ec; upd|]. destruct G1 as [_ G1].
    apply (linked_redirect (load h) _ _ _ NULL); [by apply cells_NoDup_next| |done].
    intros c Hc. unfold load, h1. rewrite Ec. change (end_slot (SNext m) ms) with s. unfold fupd.
    rewrite (decide_False (P := SFirst l = c)) by
      (intros <-; apply elem_of_cells_first in Hc; done). by case_decide.
  - cbn [linked]. unfold load, h2, link_in_list. cbn. rewrite H4. split; upd.
  - unfold h2, h1. cbn. unfold fupd. rewrite !decide_True by done. rewrite H5, G5, u32_add.
    cbn [length]. change (u32 (Z.of_nat 0)) with 0. rewrite Z.add_0_l, u32_add. f_equal. lia.
Qed.

(** [save_and_clear] moves a list that is not empty to the saved object;
    for an empty list [operator=] copies the address of the other object's
    [first], so that the saved object is left with a [next] that is not its
    own: an element linked into it lands in the cleared list. *)
Theorem sqli_save_and_clear h l save ns a :
  rep h l ns -> l <> save -> a <> NULL ->
  let h1 := save_and_clear h l save in
  rep h1 l [] /\ (ns <> [] -> rep h1 save ns) /\
  (ns = [] -> first (link_in_list h1 save a) save = NULL /\ first (link_in_list h1 save a) l = a).
Proof.
  intros Hr Hls Ha h1. split; [apply empty_is_rep|].
  pose proof (rep_first h l ns Hr) as Hf. destruct Hr as (H1 & H2 & H3 & H4 & H5). split.
  - intros Hne. split; [|split; [done|split; [done|split]]].
    + apply (linked_restart (load h) _ (SFirst l)); [done| |].
      * unfold load, h1, save_and_clear. cbn. unfold fupd.
        repeat case_decide; simplify_eq; done.
      * intros n Hn. unfold load. cbn. upd.
    + unfold h1, save_and_clear. cbn. unfold fupd. rewrite decide_False by done.
      rewrite decide_True, H4 by done. by apply end_slot_nonempty.
    + unfold h1, save_and_clear. cbn. unfold fupd. by rewrite decide_False, decide_True by done.
  - intros ->. cbn in Hf, H4. unfold h1, save_and_clear, link_in_list, first in *. cbn. unfold fupd.
    rewrite !(decide_False (P := l = save)) by done. rewrite !(decide_True (P := save = save)) by done.
    rewrite H4, Hf. split; upd.
Qed.

(** ** Witnesses *)

Definition heap0 : heap := mk_heap (fun _ => NULL) SFirst (fun _ => 0).

Lemma heap0_rep l : rep heap0 l [].
Proof. split; [done|]. split; [apply NoDup_nil_2|]. split; [set_solver|]. split; done. Qed.

Definition heap1 : heap := link_all heap0 2 [20; 21]%N.

Lemma heap1_rep2 : rep heap1 2 [20; 21]%N.
Proof.
  apply (link_all_rep [20; 21]%N heap0 2 []); [apply heap0_rep| |set_solver].
  apply (bool_decide_unpack _). vm_compute. exact I.
Qed.

Lemma heap1_rep1 : rep heap1 1 [].
Proof. split; [vm_compute; done|]. split; [apply NoDup_nil_2|]. split; [set_solver|]. split; vm_compute; done. Qed.

Lemma sqli_build_and_concat_witness :
  let h1 := link_all heap1 1 [10; 11]%N in
  rep h1 1 [10; 11]%N /\ rep (push_back h1 1 2) 1 [10; 11; 20; 21]%N /\
  ([10; 11]%N <> [] -> rep (push_front h1 1 2) 1 [20; 21; 10; 11]%N).
Proof.
  apply (sqli_build_and_concat heap1 1 2 [] [10; 11]%N [20; 21]%N).
  - exact heap1_rep1.
  - apply (bool_decide_unpack _). vm_compute. exact I.
  - set_solver.
  - apply (link_all_rep [20; 21]%N (link_all heap0 1 [10; 11]%N) 2 []); [|apply (bool_decide_unpack _); vm_compute; exact I|set_solver].
    split; [vm_compute; done|]. split; [apply NoDup_nil_2|]. split; [set_solver|]. split; vm_compute; done.
  - done.
  - set_solver.
Defined.

Lemma sqli_push_front_loses_witness :
  let h1 := push_front heap1 1 2 in let h2 := link_in_list h1 1 30 in
  linked (load h1) (SFirst 1) [20; 21]%N NULL /\ next h1 1%N = SFirst 1 /\
  linked (load h2) (SFirst 1) [30]%N NULL /\ elements h2 1%N = u32 (Z.of_nat (length [21%N]) + 2).
Proof.
  apply (sqli_push_front_loses heap1 1 2 20 [21]%N 30);
    [exact heap1_rep1|exact heap1_rep2|done|set_solver|done].
Defined.

Lemma sqli_save_and_clear_witness :
  let h1 := save_and_clear heap1 2 3 in
  rep h1 2 [] /\ ([20; 21]%N <> [] -> rep h1 3 [20; 21]%N) /\
  ([20; 21]%N = [] -> first (link_in_list h1 3 9) 3 = NULL /\ first (link_in_list h1 3 9) 2 = 9%N).
Proof. apply (sqli_save_and_clear heap1 2 3 [20; 21]%N 9); [exact heap1_rep2|done|done]. Defined.

End SqlIList.
