(* ===== verification/BaseIList.v ===== *)
(** * [ilink], [base_ilist] and its iterator, include/mysql/server/private/sql_list.h

    An [ilink] points to its successor and back to the cell that holds it; the
    list object holds the first pointer and, by value, a sentinel [ilink last].
    [I_List] and [I_List_iterator] only forward to these classes. *)

From Stdlib Require Import ZArith Lia.
From stdpp Require Import prelude.
From S2P Require Import Prelude Links Rings.

Module BaseIList.

(** A pointer to an [ilink]: null, an element, or [&list->last]. *)
Inductive link := Null | Elem (n : N) | Sent (l : N).

(** A pointer to a pointer: null, [&list->first] or [&x->next]. *)
Inductive cell := CNull | CFirst (l : N) | CNext (x : link).

#[export] Instance link_eq_dec : EqDecision link.
Proof. solve_decision. Defined.
#[export] Instance cell_eq_dec : EqDecision cell.
Proof. solve_decision. Defined.
#[export] Instance Elem_link_inj : Inj (=) (=) Elem.
Proof. by intros ?? [= ->]. Qed.
#[export] Instance CNext_inj : Inj (=) (=) CNext.
Proof. by intros ?? [= ->]. Qed.

Record heap := mk_heap { ld : cell -> link; prv : link -> cell }.

Definition store (h : heap) (c : cell) (x : link) : heap := mk_heap (fupd (ld h) c x) (prv h).
Definition set_prev (h : heap) (x : link) (c : cell) : heap := mk_heap (ld h) (fupd (prv h) x c).

Definition next (h : heap) (x : link) : link := ld h (CNext x).
Definition first (h : heap) (l : N) : link := ld h (CFirst l).

(** ** [ilink] *)

Definition ilink (h : heap) (x : link) : heap := store (set_prev h x CNull) (CNext x) Null.

Definition unlink (h : heap) (x : link) : heap :=
  let h := if bool_decide (prv h x = CNull) then h else store h (prv h x) (next h x) in
  let h := if bool_decide (next h x = Null) then h else set_prev h (next h x) (prv h x) in
  store (set_prev h x CNull) (CNext x) Null.

(** ** [base_ilist] *)

Definition empty (h : heap) (l : N) : heap :=
  let h := store h (CFirst l) (Sent l) in
  set_prev h (Sent l) (CFirst l).

Definition is_empty (h : heap) (l : N) : bool := bool_decide (first h l = Sent l).

Definition is_last (h : heap) (l : N) (p : link) : bool :=
  bool_decide (next h p = Null) || bool_decide (next h p = Sent l).

Definition append (h : heap) (l : N) (a : link) : heap :=
  let h := set_prev h (first h l) (CNext a) in
  let h := store h (CNext a) (first h l) in
  let h := set_prev h a (CFirst l) in
  store h (CFirst l) a.

Definition push_back (h : heap) (l : N) (a : link) : heap :=
  let h := store h (prv h (Sent l)) a in
  let h := store h (CNext a) (Sent l) in
  let h := set_prev h a (prv h (Sent l)) in
  set_prev h (Sent l) (CNext a).

Definition get (h : heap) (l : N) : heap * link :=
  let first_link := first h l in
  if bool_decide (first_link = Sent l) then (h, Null)
  else (unlink h first_link, first_link).

Definition head (h : heap) (l : N) : link :=
  if negb (bool_decide (first h l = Sent l)) then first h l else Null.

(** [new_owner->last= last] copies both members of the sentinel. *)
Definition move_elements_to (h : heap) (l new_owner : N) : heap :=
  let h := store h (CFirst new_owner) (first h l) in
  let h := store h (CNext (Sent new_owner)) (next h (Sent l)) in
  let h := set_prev h (Sent new_owner) (prv h (Sent l)) in
  empty h l.

(** ** [base_ilist_iterator] *)

Record iterator := mk_it { it_list : N; el : cell; current : link }.

Definition it_init (l : N) : iterator := mk_it l (CFirst l) Null.

Definition it_next (h : heap) (it : iterator) : iterator * link :=
  let current := ld h (el it) in
  if bool_decide (current = Sent (it_list it))
  then (mk_it (it_list it) (el it) current, Null)
  else (mk_it (it_list it) (CNext current) current, current).

(** ** The sequence a list represents *)

Definition rep (h : heap) (l : N) (ns : list N) : Prop :=
  seg CNext (ld h) (prv h) (CFirst l) (Elem <$> ns) (Sent l) /\ NoDup ns.

Lemma base_proper l (ns : list N) : NoDup ns -> proper CNext (CFirst l) (Elem <$> ns) (Sent l).
Proof.
  intros H. split; [by apply NoDup_fmap_2; [apply _|]|].
  split; [intros (n & ? & _)%list_elem_of_fmap; done|done].
Qed.

Lemma base_proper_NoDup l (ns : list N) : proper CNext (CFirst l) (Elem <$> ns) (Sent l) -> NoDup ns.
Proof. intros (H & _). by apply NoDup_fmap_1 in H. Qed.

Lemma base_elem_notin n (ns : list N) : n ∉ ns -> Elem n ∉ Elem <$> ns.
Proof. intros H (m & [= ->] & Hm)%list_elem_of_fmap. done. Qed.

Lemma base_end_ne l n1 a : a ∉ n1 -> endc CNext (CFirst l) (Elem <$> n1) <> CNext (Elem a).
Proof.
  intros Ha E. destruct (endc_cell CNext (CFirst l) (Elem <$> n1)) as [E'|(x & Hx & E')]; [congruence|].
  rewrite E in E'. injection E' as <-. by apply (base_elem_notin a n1) in Ha.
Qed.

Lemma base_end_nonnull l (n1 : list N) : endc CNext (CFirst l) (Elem <$> n1) <> CNull.
Proof.
  intros E. destruct (endc_cell CNext (CFirst l) (Elem <$> n1)) as [E'|(x & Hx & E')]; congruence.
Qed.

Definition at_ (l : N) (n2 : list N) : link := List.hd (Sent l) (Elem <$> n2).

Lemma at_ne l n2 a : a ∉ n2 -> at_ l n2 <> Elem a.
Proof. unfold at_. destruct n2 as [|n n2]; cbn; [done|]. intros H [= ->]. set_solver. Qed.

Lemma at_nonnull l n2 : at_ l n2 <> Null.
Proof. unfold at_. by destruct n2. Qed.

(** Inserting between [n1] and [n2]. *)
Lemma base_splice_in h h' l a n1 n2 :
  rep h l (n1 ++ n2) -> a ∉ n1 ++ n2 ->
  (forall c, ld h' c = fupd (fupd (ld h) (endc CNext (CFirst l) (Elem <$> n1)) (Elem a))
     (CNext (Elem a)) (at_ l n2) c) ->
  (forall x, prv h' x = fupd (fupd (prv h) (at_ l n2) (CNext (Elem a))) (Elem a)
     (endc CNext (CFirst l) (Elem <$> n1)) x) ->
  rep h' l (n1 ++ a :: n2).
Proof.
  intros [Hs Hnd] Ha El Ep. pose proof (base_proper l _ Hnd) as Hp. rewrite fmap_app in Hs, Hp.
  pose proof (base_end_ne l n1 a ltac:(set_solver)) as He.
  pose proof (at_ne l n2 a ltac:(set_solver)) as Hy.
  destruct (splice_in CNext (ld h) (ld h') (prv h) (prv h')
    (CFirst l) (Elem <$> n1) (Elem <$> n2) (Sent l) (Elem a))
    as [S P]; try done; fold (at_ l n2); try (intros; rewrite ?El, ?Ep; by upd).
  - rewrite <- fmap_app. by apply base_elem_notin.
  - rewrite <- (fmap_cons Elem), <- fmap_app in S, P. exact (conj S (base_proper_NoDup _ _ P)).
Qed.

Lemma append_rep_base h l a ns : rep h l ns -> a ∉ ns -> rep (append h l (Elem a)) l (a :: ns).
Proof.
  intros Hr Ha. pose proof Hr as [Hs _]. apply seg_head in Hs as [H1 H2]. fold (at_ l ns) in H1, H2.
  pose proof (at_ne l ns a Ha) as Hy.
  apply (base_splice_in h _ l a [] ns Hr Ha); intros c; unfold append, first; cbn; rewrite H1.
  - upd.
  - upd.
Qed.

Lemma push_back_rep_base h l a ns : rep h l ns -> a ∉ ns -> rep (push_back h l (Elem a)) l (ns ++ [a]).
Proof.
  intros Hr Ha. pose proof Hr as [Hs _]. apply seg_sentinel in Hs as [H1 H2].
  pose proof (base_end_ne l ns a Ha) as He.
  apply (base_splice_in h _ l a ns []); [by rewrite app_nil_r|by rewrite app_nil_r| |];
    intros c; unfold push_back; cbn; rewrite H2; upd.
Qed.

(** The effect of [unlink] on a linked element. *)
Lemma unlink_eq h x :
  prv h x <> CNull -> next h x <> Null -> prv h x <> CNext x ->
  unlink h x =
    store (set_prev (set_prev (store h (prv h x) (next h x)) (next h x) (prv h x)) x CNull) (CNext x) Null.
Proof.
  intros H1 H2 H3. unfold unlink. rewrite (bool_decide_eq_false_2 (prv h x = CNull)) by done.
  assert (next (store h (prv h x) (next h x)) x = next h x) as E.
  { unfold next at 1. cbn. by rewrite fupd_ne. }
  rewrite !E. by rewrite bool_decide_eq_false_2.
Qed.

Lemma unlink_rep h l a n1 n2 :
  rep h l (n1 ++ a :: n2) ->
  rep (unlink h (Elem a)) l (n1 ++ n2) /\
  prv (unlink h (Elem a)) (Elem a) = CNull /\ next (unlink h (Elem a)) (Elem a) = Null.
Proof.
  intros [Hs Hnd]. split; [|unfold next, unlink; cbn; by rewrite !fupd_eq].
  pose proof (base_proper l _ Hnd) as Hp. rewrite fmap_app in Hs, Hp.
  pose proof (proj1 (seg_app _ _ _ _ _ _ _) Hs) as [_ (H1 & H2 & Hs2)].
  apply seg_head in Hs2 as [H3 H4]. fold (at_ l n2) in H3, H4.
  set (e := endc CNext (CFirst l) (Elem <$> n1)) in *.
  apply NoDup_app in Hnd as (Nd1 & Nd12 & Nd2). apply NoDup_cons in Nd2 as [Na Nd2].
  assert (e <> CNext (Elem a)) as He by (apply base_end_ne; set_solver).
  pose proof (at_ne l n2 a Na) as Hy. pose proof (at_nonnull l n2) as Hyn.
  assert (e <> CNull) as Hen by apply base_end_nonnull.
  assert (forall c, c <> CNext (Elem a) -> ld (unlink h (Elem a)) c = fupd (ld h) e (at_ l n2) c) as El.
  { intros c Hc. rewrite unlink_eq; unfold next; rewrite ?H2, ?H3; try done. cbn.
    by rewrite fupd_ne by congruence. }
  assert (forall x, x <> Elem a -> prv (unlink h (Elem a)) x = fupd (prv h) (at_ l n2) e x) as Ep.
  { intros x Hx. rewrite unlink_eq; unfold next; rewrite ?H2, ?H3; try done. cbn.
    by rewrite fupd_ne by congruence. }
  set (h' := unlink h (Elem a)) in *. clearbody h'.
  destruct (splice_out CNext (ld h) (ld h') (prv h) (prv h')
    (CFirst l) (Elem <$> n1) (Elem <$> n2) (Sent l) (Elem a))
    as [S P]; try done; fold e; fold (at_ l n2);
    try (intros; rewrite ?El, ?Ep by done; by upd).
  rewrite <- fmap_app in S, P. exact (conj S (base_proper_NoDup _ _ P)).
Qed.

Lemma get_rep h l ns :
  rep h l ns ->
  (get h l).2 = List.hd Null (Elem <$> ns) /\ rep (get h l).1 l (List.tl ns).
Proof.
  intros Hr. pose proof Hr as [Hs _]. apply seg_head in Hs as [H1 _]. unfold get, first. rewrite H1.
  destruct ns as [|n ns]; cbn [fmap list_fmap List.hd List.tl].
  - by rewrite bool_decide_eq_true_2.
  - rewrite bool_decide_eq_false_2 by done. split; [done|]. by apply (unlink_rep h l n [] ns).
Qed.

(** ** Commands *)

Inductive cmd := CAppend (a : N) | CPushBack (a : N) | CGet | CUnlink (a : N) | CEmpty.

Definition exec (l : N) (h : heap) (c : cmd) : heap * link :=
  match c with
  | CAppend a => (append h l (Elem a), Null)
  | CPushBack a => (push_back h l (Elem a), Null)
  | CGet => get h l
  | CUnlink a => (unlink h (Elem a), Null)
  | CEmpty => (empty h l, Null)
  end.

Fixpoint unlink_from (a : N) (ns : list N) : list N :=
  match ns with
  | [] => []
  | n :: ns => if decide (n = a) then ns else n :: unlink_from a ns
  end.

Definition aexec (ns : list N) (c : cmd) : list N * link :=
  match c with
  | CAppend a => (a :: ns, Null)
  | CPushBack a => (ns ++ [a], Null)
  | CGet => (List.tl ns, List.hd Null (Elem <$> ns))
  | CUnlink a => (unlink_from a ns, Null)
  | CEmpty => ([], Null)
  end.

Definition allowed (ns : list N) (c : cmd) : Prop :=
  match c with
  | CAppend a | CPushBack a => a ∉ ns
  | CUnlink a => a ∈ ns
  | CGet | CEmpty => True
  end.

Fixpoint all_allowed (ns : list N) (cs : list cmd) : Prop :=
  match cs with [] => True | c :: cs => allowed ns c /\ all_allowed (aexec ns c).1 cs end.

Fixpoint run {S} (step : S -> cmd -> S * link) (s : S) (cs : list cmd) : S * list link :=
  match cs with
  | [] => (s, [])
  | c :: cs => let '(s, o) := step s c in let '(s, os) := run step s cs in (s, o :: os)
  end.

Lemma base_exec_ok l h ns c :
  rep h l ns -> allowed ns c ->
  (exec l h c).2 = (aexec ns c).2 /\ rep (exec l h c).1 l (aexec ns c).1.
Proof.
  intros Hr Hc. destruct c as [a|a| |a|]; cbn [exec aexec allowed fst snd] in *.
  - split; [done|by apply append_rep_base].
  - split; [done|by apply push_back_rep_base].
  - by apply get_rep.
  - split; [done|]. apply list_elem_of_split_l in Hc as (n1 & n2 & -> & Hn1).
    assert (unlink_from a (n1 ++ a :: n2) = n1 ++ n2) as ->.
    { clear -Hn1. induction n1 as [|n n1 IH]; cbn; [by rewrite decide_True|].
      rewrite decide_False by set_solver. by rewrite IH by set_solver. }
    by apply unlink_rep.
  - split; [done|]. split; [cbn; upd|apply NoDup_nil_2].
Qed.

(** ** Iteration *)

Fixpoint it_take (n : nat) (h : heap) (it : iterator) : iterator * list link :=
  match n with
  | O => (it, [])
  | S n => let '(it, x) := it_next h it in let '(it, xs) := it_take n h it in (it, x :: xs)
  end.

(** The pointers from a cell lead through the elements [ns] to [q]. *)
Fixpoint path (h : heap) (c : cell) (ns : list N) (q : link) : Prop :=
  match ns with
  | [] => ld h c = q
  | n :: ns => ld h c = Elem n /\ path h (CNext (Elem n)) ns q
  end.

Lemma seg_path h ns q : forall c, seg CNext (ld h) (prv h) c (Elem <$> ns) q -> path h c ns q.
Proof. induction ns as [|n ns IH]; intros c; cbn; [tauto|]. intros (H1 & _ & H2). auto. Qed.

Lemma path_restart h h' c c' ns q :
  ld h' c' = ld h c -> (forall x, ld h' (CNext (Elem x)) = ld h (CNext (Elem x))) ->
  path h c ns q -> path h' c' ns q.
Proof.
  intros Hc Hn. revert c c' Hc. induction ns as [|n ns IH]; intros c c' Hc; cbn; [congruence|].
  intros [H1 H2]. split; [congruence|]. by apply (IH (CNext (Elem n))).
Qed.

(** The iterator follows the path; it takes only its own sentinel for the end. *)
Lemma it_take_path h l q ns : forall c cur,
  path h c ns q ->
  it_take (S (length ns)) h (mk_it l c cur) =
    if bool_decide (q = Sent l) then (mk_it l (endc CNext c (Elem <$> ns)) q, (Elem <$> ns) ++ [Null])
    else (mk_it l (CNext q) q, (Elem <$> ns) ++ [q]).
Proof.
  induction ns as [|n ns IH]; intros c cur.
  - intros H. cbn in H. cbn [it_take length]. unfold it_next. cbn [el it_list]. rewrite H.
    by case_bool_decide.
  - intros [H1 H2]. specialize (IH (CNext (Elem n)) (Elem n) H2).
    cbn [length it_take] in IH |- *. unfold it_next at 1. cbn [el it_list]. rewrite H1.
    rewrite bool_decide_eq_false_2 by done.
    destruct (it_next h _) as [it1 x1]. destruct (it_take (length ns) h it1) as [it2 xs].
    cbn [fmap list_fmap endc app] in IH |- *. destruct (bool_decide (q = Sent l)); by injection IH as -> ->.
Qed.

(** ** Properties *)

(** An [I_List] refines the sequence of its elements under [append] (at
    the front), [push_back], [get], [ilink::unlink] and [empty]; the iterator
    then delivers the sequence and null, and an element pushed back after that
    is delivered by the same iterator. *)
Theorem base_ilist_commands_refine l h ns cs a :
  rep h l ns -> all_allowed ns cs ->
  let '(h', os) := run (exec l) h cs in
  let '(ns', os') := run aexec ns cs in
  os = os' /\ rep h' l ns' /\
  let '(it, xs) := it_take (S (length ns')) h' (it_init l) in
  xs = (Elem <$> ns') ++ [Null] /\
  (a ∉ ns' -> (it_next (push_back h' l (Elem a)) it).2 = Elem a).
Proof.
  revert h ns. induction cs as [|c cs IH]; intros h ns Hr Hcs; cbn [run].
  - split; [done|]. split; [done|]. pose proof Hr as [Hs _]. apply seg_path in Hs.
    unfold it_init. rewrite (it_take_path h l _ ns (CFirst l) Null Hs), bool_decide_eq_true_2 by done.
    split; [done|]. intros Ha. pose proof Hr as [Hs2 _]. apply seg_sentinel in Hs2 as [_ Hl].
    unfold it_next, push_back. cbn. rewrite Hl. pose proof (base_end_ne l ns a Ha) as Hne.
    rewrite (fupd_ne _ (CNext (Elem a))) by done. rewrite fupd_eq.
    by rewrite bool_decide_eq_false_2.
  - destruct Hcs as [Hc Hcs]. destruct (base_exec_ok l h ns c Hr Hc) as [Eo Hr'].
    specialize (IH _ _ Hr' Hcs). destruct (exec l h c) as [h1 o1], (aexec ns c) as [ns1 o1'].
    cbn [fst snd] in *. destruct (run (exec l) h1 cs) as [h2 os], (run aexec ns1 cs) as [ns2 os'].
    destruct IH as (-> & IH). by subst.
Qed.

(** [move_elements_to] copies the sentinel by value while the last element
    goes on pointing to the old one: the new owner of an empty list is not
    empty, and iterating over the new owner delivers the elements and then the
    old list's sentinel as if it were an element. *)
Theorem base_ilist_move_broken l l' h ns :
  rep h l ns -> l <> l' ->
  let h' := move_elements_to h l l' in
  is_empty h' l = true /\ is_empty h' l' = false /\
  (it_take (S (length ns)) h' (it_init l')).2 = (Elem <$> ns) ++ [Sent l].
Proof.
  intros Hr Hne h'. pose proof Hr as [Hs _].
  pose proof (seg_head _ _ _ _ _ _ Hs) as [H1 _]. apply seg_path in Hs.
  assert (forall x, ld h' (CNext (Elem x)) = ld h (CNext (Elem x))) as En.
  { intros x. unfold h', move_elements_to, empty. cbn. upd. }
  assert (first h' l' = List.hd (Sent l) (Elem <$> ns)) as Hf.
  { unfold h', move_elements_to, empty, first in *. cbn. rewrite fupd_ne by congruence.
    rewrite fupd_ne by done. by rewrite fupd_eq. }
  split; [|split].
  - unfold is_empty, first, h', move_elements_to, empty. cbn. rewrite fupd_eq. by apply bool_decide_eq_true_2.
  - unfold is_empty. rewrite Hf. apply bool_decide_eq_false_2. destruct ns; cbn; congruence.
  - apply (path_restart h h' _ (CFirst l')) in Hs; [|unfold first in *; congruence|done].
    unfold it_init. rewrite (it_take_path h' l' _ ns (CFirst l') Null Hs), bool_decide_eq_false_2 by congruence.
    done.
Qed.

(** ** Witnesses *)

Definition heap0 : heap := empty (empty (mk_heap (fun _ => Null) (fun _ => CNull)) 1) 2.

Lemma heap0_rep_base : rep heap0 1 [].
Proof. split; [vm_compute; done|apply NoDup_nil_2]. Qed.

Definition sample_cmds : list cmd := [CPushBack 10; CPushBack 11; CAppend 12; CUnlink 10; CGet; CPushBack 13]%N.

Lemma base_sample_allowed : all_allowed [] sample_cmds.
Proof. cbn. repeat split; set_solver. Qed.

Lemma base_ilist_commands_refine_witness :
  let '(h', os) := run (exec 1) heap0 sample_cmds in
  let '(ns', os') := run aexec [] sample_cmds in
  os = os' /\ rep h' 1 ns' /\
  let '(it, xs) := it_take (S (length ns')) h' (it_init 1) in
  xs = (Elem <$> ns') ++ [Null] /\
  (20%N ∉ ns' -> (it_next (push_back h' 1 (Elem 20)) it).2 = Elem 20).
Proof.
  exact (base_ilist_commands_refine 1 heap0 [] sample_cmds 20 heap0_rep_base base_sample_allowed).
Defined.

Definition heap2 : heap := (run (exec 1) heap0 [CPushBack 10; CPushBack 11]%N).1.

Lemma heap2_rep_base : rep heap2 1 [10; 11]%N.
Proof.
  apply (base_exec_ok 1 _ [10]%N (CPushBack 11)); [|cbn; set_solver].
  apply (base_exec_ok 1 _ [] (CPushBack 10)); [exact heap0_rep_base|cbn; set_solver].
Qed.

Lemma base_ilist_move_broken_witness :
  let h' := move_elements_to heap2 1 2 in
  is_empty h' 1 = true /\ is_empty h' 2 = false /\
  (it_take 3 h' (it_init 2)).2 = [Elem 10; Elem 11; Sent 1].
Proof. exact (base_ilist_move_broken 1 2 heap2 [10; 11]%N heap2_rep_base ltac:(done)). Defined.

End BaseIList.
