(* ===== verification/IList.v ===== *)
(** * Intrusive lists of include/mysql/server/private/ilist.h

    [ilist] is a ring through a sentinel that is a member of the list object;
    [sized_ilist] adds a counter.  A node is an element, the sentinel of a list
    or the null pointer that a debug build leaves in erased nodes. *)

From Stdlib Require Import ZArith Lia.
From stdpp Require Import prelude.
From S2P Require Import Prelude Links Rings.
Local Open Scope Z_scope.
Local Open Scope cint_scope.

Module IList.

Inductive node := Null | Elem (n : N) | Sent (l : N).

#[export] Instance node_eq_dec : EqDecision node.
Proof. solve_decision. Defined.

#[export] Instance Elem_inj : Inj (=) (=) Elem.
Proof. by intros ?? [= ->]. Qed.

Record heap := mk_heap { next : node -> node; prev : node -> node; size_ : N -> Z }.

Definition set_next (h : heap) (x y : node) : heap := mk_heap (fupd (next h) x y) (prev h) (size_ h).
Definition set_prev (h : heap) (x y : node) : heap := mk_heap (next h) (fupd (prev h) x y) (size_ h).
Definition set_size (h : heap) (l : N) (z : Z) : heap := mk_heap (next h) (prev h) (fupd (size_ h) l z).

(** ** Iterators: an iterator is the node it is at *)

Definition it_inc (h : heap) (it : node) : node := next h it.
Definition it_dec (h : heap) (it : node) : node := prev h it.

(** ** [ilist] *)

Definition construct (h : heap) (l : N) : heap :=
  set_prev (set_next h (Sent l) (Sent l)) (Sent l) (Sent l).

Definition begin (h : heap) (l : N) : node := next h (Sent l).
Definition end_ (l : N) : node := Sent l.
Definition front (h : heap) (l : N) : node := begin h l.
Definition back (h : heap) (l : N) : node := it_dec h (end_ l).

Definition empty (h : heap) (l : N) : bool := bool_decide (next h (Sent l) = Sent l).

Definition clear (h : heap) (l : N) : heap :=
  let h := set_next h (Sent l) (Sent l) in
  set_prev h (Sent l) (Sent l).

Definition insert (h : heap) (pos value : node) : heap * node :=
  let curr := pos in
  let prev_ := prev h pos in
  let h := set_next h prev_ value in
  let h := set_prev h curr value in
  let h := set_prev h value prev_ in
  let h := set_next h value curr in
  (h, value).

(** [dbug]: the build resets the erased node ([DBUG_OFF] is not defined). *)
Definition erase (dbug : bool) (h : heap) (pos : node) : heap * node :=
  let prev_ := prev h pos in
  let next_ := next h pos in
  let h := set_next h prev_ next_ in
  let h := set_prev h next_ prev_ in
  let h := if dbug then set_next (set_prev h pos Null) pos Null else h in
  (h, next_).

Definition push_back (h : heap) (l : N) (value : node) : heap := (insert h (end_ l) value).1.
Definition pop_back (dbug : bool) (h : heap) (l : N) : heap := (erase dbug h (end_ l)).1.
Definition push_front (h : heap) (l : N) (value : node) : heap := (insert h (begin h l) value).1.
Definition pop_front (dbug : bool) (h : heap) (l : N) : heap := (erase dbug h (begin h l)).1.
Definition remove (dbug : bool) (h : heap) (value : node) : heap := (erase dbug h value).1.

(** ** [sized_ilist] *)

Definition size (h : heap) (l : N) : Z := size_ h l.

Definition sized_construct (h : heap) (l : N) : heap := set_size (construct h l) l 0.

Definition sized_clear (h : heap) (l : N) : heap := set_size (clear h l) l 0.

Definition sized_insert (h : heap) (l : N) (pos value : node) : heap * node :=
  let h := set_size h l (u64 (size_ h l + 1)) in insert h pos value.

Definition sized_erase (dbug : bool) (h : heap) (l : N) (pos : node) : heap * node :=
  let h := set_size h l (u64 (size_ h l - 1)) in erase dbug h pos.

Definition sized_push_back (h : heap) (l : N) (value : node) : heap := (sized_insert h l (end_ l) value).1.
Definition sized_pop_back (dbug : bool) (h : heap) (l : N) : heap := (sized_erase dbug h l (end_ l)).1.
Definition sized_push_front (h : heap) (l : N) (value : node) : heap :=
  (sized_insert h l (begin h l) value).1.
Definition sized_pop_front (dbug : bool) (h : heap) (l : N) : heap :=
  (sized_erase dbug h l (begin h l)).1.
Definition sized_remove (dbug : bool) (h : heap) (l : N) (value : node) : heap :=
  (sized_erase dbug h l value).1.

(** ** The sequence a list represents *)

Definition chain (h : heap) (l : N) (ns : list N) : Prop :=
  seg id (next h) (prev h) (Sent l) (Elem <$> ns) (Sent l) /\ NoDup ns.

Definition rep (h : heap) (l : N) (ns : list N) : Prop :=
  chain h l ns /\ size_ h l = u64 (Z.of_nat (length ns)).

Lemma sent_notin l (ns : list N) : Sent l ∉ Elem <$> ns.
Proof. intros (n & ? & _)%list_elem_of_fmap. done. Qed.

Lemma chain_proper l (ns : list N) : NoDup ns -> proper id (Sent l) (Elem <$> ns) (Sent l).
Proof.
  intros H. split; [by apply NoDup_fmap_2; [apply _|]|]. split; [apply sent_notin|].
  intros x Hx E. cbn in E. subst x. by apply sent_notin in Hx.
Qed.

Lemma proper_NoDup l (ns : list N) : proper id (Sent l) (Elem <$> ns) (Sent l) -> NoDup ns.
Proof. intros (H & _). by apply NoDup_fmap_1 in H. Qed.

Lemma elem_notin n (ns : list N) : n ∉ ns -> Elem n ∉ Elem <$> ns.
Proof. intros H (m & [= ->] & Hm)%list_elem_of_fmap. done. Qed.

(** The node in front of which the rest [n2] of the sequence starts. *)
Definition at_ (l : N) (n2 : list N) : node := List.hd (Sent l) (Elem <$> n2).

Lemma insert_chain h l a n1 n2 :
  chain h l (n1 ++ n2) -> a ∉ n1 ++ n2 ->
  chain (insert h (at_ l n2) (Elem a)).1 l (n1 ++ a :: n2).
Proof.
  intros [Hs Hnd] Ha. pose proof (chain_proper l _ Hnd) as Hp.
  rewrite fmap_app in Hs, Hp. pose proof (proj1 (seg_app _ _ _ _ _ _ _) Hs) as [_ Hs2].
  apply seg_head in Hs2 as [H1 H2]. fold (at_ l n2) in H1, H2.
  set (e := endc id (Sent l) (Elem <$> n1)) in *.
  assert (e <> Elem a) as He.
  { intros E. destruct (endc_cell id (Sent l) (Elem <$> n1)) as [E'|(x & Hx & E')]; fold e in E'.
    - congruence.
    - cbn in E'. subst x. rewrite E in Hx. apply (elem_notin a n1) in Hx; [done|set_solver]. }
  assert (at_ l n2 <> Elem a) as Hy.
  { unfold at_. destruct n2 as [|n n2]; cbn; [done|]. intros [= ->]. set_solver. }
  set (h' := (insert h (at_ l n2) (Elem a)).1).
  assert (next h' = fupd (fupd (next h) e (Elem a)) (Elem a) (at_ l n2)) as En.
  { unfold h', insert. cbn. by rewrite H2. }
  assert (prev h' = fupd (fupd (prev h) (at_ l n2) (Elem a)) (Elem a) e) as Ep.
  { unfold h', insert. cbn. by rewrite H2. }
  clearbody h'.
  destruct (splice_in id (next h) (next h') (prev h) (prev h')
    (Sent l) (Elem <$> n1) (Elem <$> n2) (Sent l) (Elem a))
    as [S P]; try done; rewrite ?En, ?Ep; cbn; fold e; fold (at_ l n2); try (intros; by upd).
  - rewrite <- fmap_app. by apply elem_notin.
  - rewrite <- (fmap_cons Elem), <- fmap_app in S, P. exact (conj S (proper_NoDup _ _ P)).
Qed.

Lemma erase_chain dbug h l a n1 n2 :
  chain h l (n1 ++ a :: n2) ->
  chain (erase dbug h (Elem a)).1 l (n1 ++ n2) /\ (erase dbug h (Elem a)).2 = at_ l n2.
Proof.
  intros [Hs Hnd]. pose proof (chain_proper l _ Hnd) as Hp. rewrite fmap_app in Hs, Hp.
  pose proof (proj1 (seg_app _ _ _ _ _ _ _) Hs) as [_ (H1 & H2 & Hs2)].
  apply seg_head in Hs2 as [H3 H4]. fold (at_ l n2) in H3, H4. cbn in H3.
  set (e := endc id (Sent l) (Elem <$> n1)) in *.
  assert (e <> Elem a) as He.
  { intros E. destruct (endc_cell id (Sent l) (Elem <$> n1)) as [E'|(x & Hx & E')]; fold e in E'.
    - congruence.
    - cbn in E'. subst x. rewrite E in Hx. apply (elem_notin a n1) in Hx; [done|].
      apply NoDup_app in Hnd as (_ & Hd & _). set_solver. }
  assert (at_ l n2 <> Elem a) as Hy.
  { unfold at_. destruct n2 as [|n n2]; cbn; [done|]. intros [= ->].
    apply NoDup_app in Hnd as (_ & _ & Hd). apply NoDup_cons in Hd. set_solver. }
  split; [|done].
  set (h' := (erase dbug h (Elem a)).1).
  assert (forall x, x <> Elem a -> next h' x = fupd (next h) e (at_ l n2) x) as En.
  { intros x Hx. unfold h', erase. cbn. rewrite H2, H3. destruct dbug; cbn; upd. }
  assert (forall x, x <> Elem a -> prev h' x = fupd (prev h) (at_ l n2) e x) as Ep.
  { intros x Hx. unfold h', erase. cbn. rewrite H2, H3. destruct dbug; cbn; upd. }
  clearbody h'.
  destruct (splice_out id (next h) (next h') (prev h) (prev h')
    (Sent l) (Elem <$> n1) (Elem <$> n2) (Sent l) (Elem a))
    as [S P]; try done; cbn; fold e; fold (at_ l n2);
    try (intros; rewrite ?En, ?Ep by done; by upd).
  rewrite <- fmap_app in S, P. exact (conj S (proper_NoDup _ _ P)).
Qed.

Lemma chain_begin h l ns : chain h l ns -> begin h l = at_ l ns.
Proof. intros [Hs _]. by apply seg_head in Hs as [H _]. Qed.

Lemma clear_chain h l : chain (clear h l) l [].
Proof. split; [cbn; upd|apply NoDup_nil_2]. Qed.

(** ** Commands on a [sized_ilist] *)

Inductive cmd :=
  | CPushBack (a : N) | CPushFront (a : N) | CInsertBefore (pos a : N)
  | CErase (a : N) | CPopFront | CRemove (a : N) | CClear.

Definition exec (dbug : bool) (l : N) (h : heap) (c : cmd) : heap :=
  match c with
  | CPushBack a => sized_push_back h l (Elem a)
  | CPushFront a => sized_push_front h l (Elem a)
  | CInsertBefore pos a => (sized_insert h l (Elem pos) (Elem a)).1
  | CErase a => (sized_erase dbug h l (Elem a)).1
  | CPopFront => sized_pop_front dbug h l
  | CRemove a => sized_remove dbug h l (Elem a)
  | CClear => sized_clear h l
  end.

Fixpoint insert_before_in (pos a : N) (ns : list N) : list N :=
  match ns with
  | [] => []
  | n :: ns => if decide (n = pos) then a :: n :: ns else n :: insert_before_in pos a ns
  end.

Fixpoint erase_from (a : N) (ns : list N) : list N :=
  match ns with
  | [] => []
  | n :: ns => if decide (n = a) then ns else n :: erase_from a ns
  end.

Definition aexec (ns : list N) (c : cmd) : list N :=
  match c with
  | CPushBack a => ns ++ [a]
  | CPushFront a => a :: ns
  | CInsertBefore pos a => insert_before_in pos a ns
  | CErase a | CRemove a => erase_from a ns
  | CPopFront => List.tl ns
  | CClear => []
  end.

Definition allowed (ns : list N) (c : cmd) : Prop :=
  match c with
  | CPushBack a | CPushFront a => a ∉ ns
  | CInsertBefore pos a => pos ∈ ns /\ a ∉ ns
  | CErase a | CRemove a => a ∈ ns
  | CPopFront => ns <> []
  | CClear => True
  end.

Fixpoint all_allowed (ns : list N) (cs : list cmd) : Prop :=
  match cs with [] => True | c :: cs => allowed ns c /\ all_allowed (aexec ns c) cs end.

Lemma insert_before_split pos a n1 n2 :
  pos ∉ n1 -> insert_before_in pos a (n1 ++ pos :: n2) = n1 ++ a :: pos :: n2.
Proof.
  induction n1 as [|n n1 IH]; intros H; cbn; [by rewrite decide_True|].
  rewrite decide_False by set_solver. by rewrite IH by set_solver.
Qed.

Lemma erase_from_split a n1 n2 : a ∉ n1 -> erase_from a (n1 ++ a :: n2) = n1 ++ n2.
Proof.
  induction n1 as [|n n1 IH]; intros H; cbn; [by rewrite decide_True|].
  rewrite decide_False by set_solver. by rewrite IH by set_solver.
Qed.

(** The counter lives beside the ring. *)
Lemma sized_insert_rep h l a n1 n2 :
  rep h l (n1 ++ n2) -> a ∉ n1 ++ n2 ->
  rep (sized_insert h l (at_ l n2) (Elem a)).1 l (n1 ++ a :: n2).
Proof.
  intros [Hc Hz] Ha. split.
  - by apply (insert_chain (set_size h l (u64 (size_ h l + 1)))).
  - cbn. rewrite fupd_eq, Hz, !length_app. cbn [length]. unfold wrap.
    rewrite Zplus_mod_idemp_l. f_equal. lia.
Qed.

Lemma sized_erase_rep dbug h l a n1 n2 :
  rep h l (n1 ++ a :: n2) -> rep (sized_erase dbug h l (Elem a)).1 l (n1 ++ n2).
Proof.
  intros [Hc Hz]. split.
  - by apply (erase_chain dbug (set_size h l (u64 (size_ h l - 1)))).
  - unfold sized_erase, erase. destruct dbug; cbn; rewrite fupd_eq, Hz, !length_app; cbn [length];
      unfold wrap; rewrite Zminus_mod_idemp_l; f_equal; lia.
Qed.

Lemma ilist_exec_ok dbug l h ns c : rep h l ns -> allowed ns c -> rep (exec dbug l h c) l (aexec ns c).
Proof.
  intros Hr Hc. pose proof Hr as [Hch _]. destruct c as [a|a|pos a|a| |a|]; cbn [exec aexec allowed] in *.
  - apply (sized_insert_rep h l a ns []); by rewrite app_nil_r.
  - unfold sized_push_front. rewrite (chain_begin _ _ _ Hch).
    by apply (sized_insert_rep h l a [] ns).
  - destruct Hc as [Hp Ha]. apply list_elem_of_split_l in Hp as (n1 & n2 & -> & Hn1).
    rewrite insert_before_split by done. by apply (sized_insert_rep h l a n1 (pos :: n2)).
  - apply list_elem_of_split_l in Hc as (n1 & n2 & -> & Hn1).
    rewrite erase_from_split by done. by apply sized_erase_rep.
  - unfold sized_pop_front. rewrite (chain_begin _ _ _ Hch). destruct ns as [|n ns]; [done|].
    by apply (sized_erase_rep dbug h l n [] ns).
  - apply list_elem_of_split_l in Hc as (n1 & n2 & -> & Hn1).
    rewrite erase_from_split by done. by apply sized_erase_rep.
  - split; [apply (clear_chain h l)|]. cbn. by rewrite fupd_eq.
Qed.

(** ** Walking the ring *)

Fixpoint walk (n : nat) (step : node -> node) (it : node) : list node :=
  match n with O => [] | S n => it :: walk n step (step it) end.

Lemma walk_chain h xs q : forall c, seg id (next h) (prev h) c xs q ->
  walk (S (length xs)) (it_inc h) (next h c) = xs ++ [q].
Proof.
  induction xs as [|x xs IH]; intros c; cbn.
  - by intros [-> _].
  - intros (-> & _ & H). f_equal. by apply (IH x).
Qed.

Lemma walk_back_chain h xs : forall q c, seg id (next h) (prev h) c xs q ->
  walk (S (length xs)) (it_dec h) (prev h q) = reverse (c :: xs).
Proof.
  induction xs as [|x xs IH] using rev_ind; intros q c Hs.
  - destruct Hs as [_ ->]. done.
  - apply seg_snoc in Hs as (Hs & _ & Hq). rewrite Hq. rewrite length_app, Nat.add_1_r.
    change (x :: walk (S (length xs)) (it_dec h) (prev h x) = reverse (c :: (xs ++ [x]))).
    rewrite (IH x c) by done. rewrite app_comm_cons, reverse_app. done.
Qed.

(** ** Properties *)

(** A [sized_ilist] refines the sequence of its elements: after any
    allowed sequence of pushes, insertions, erasures, [pop_front], [remove] and
    [clear], in release and debug builds, iterating from [begin] delivers the
    elements in order and then [end], iterating backwards from [end] delivers
    them in reverse, and [size] counts them. *)
Theorem ilist_commands_refine dbug l h ns cs :
  rep h l ns -> all_allowed ns cs ->
  let h' := fold_left (exec dbug l) cs h in let ns' := fold_left aexec cs ns in
  rep h' l ns' /\
  walk (S (length ns')) (it_inc h') (begin h' l) = (Elem <$> ns') ++ [end_ l] /\
  walk (S (length ns')) (it_dec h') (back h' l) = (Elem <$> reverse ns') ++ [end_ l] /\
  size h' l = u64 (Z.of_nat (length ns')).
Proof.
  revert h ns. induction cs as [|c cs IH]; intros h ns Hr Hcs; cbn [fold_left].
  - split; [done|]. destruct Hr as [[Hs Hnd] Hz]. split; [|split; [|done]].
    + rewrite <- (length_fmap Elem). by apply walk_chain.
    + rewrite <- (length_fmap Elem). unfold back, it_dec at 2, end_.
      rewrite (walk_back_chain h _ _ _ Hs). rewrite reverse_cons. by rewrite fmap_reverse.
  - destruct Hcs as [Hc Hcs]. apply IH; [by apply ilist_exec_ok|done].
Qed.

(** [pop_back] erases [end()], the sentinel, instead of the last element:
    on a list that is not empty no element is removed, in a release build the
    sentinel is cut out of the ring, so that iterating from [begin] never
    reaches [end], and [sized_ilist] still counts one element less. *)
Theorem ilist_pop_back_erases_sentinel l h n ns :
  rep h l (n :: ns) ->
  let h' := sized_pop_back false h l in
  begin h' l = Elem n /\ back h' l = Elem (List.last ns n) /\
  size h' l = u64 (Z.of_nat (length ns)) /\
  forall k x, x ∈ walk k (it_inc h') (begin h' l) -> x <> end_ l.
Proof.
  intros [[Hs Hnd] Hz] h'.
  pose proof (seg_sentinel _ _ _ _ _ _ Hs) as [He1 He2].
  assert (endc id (Sent l) (Elem <$> (n :: ns)) = Elem (List.last ns n)) as He.
  { clear. change (endc id (Elem n) (Elem <$> ns) = Elem (List.last ns n)). revert n.
    induction ns as [|m ns IH]; intros n; [done|].
    change (endc id (Elem m) (Elem <$> ns) = Elem (List.last (m :: ns) n)).
    by rewrite IH, last_shift. }
  rewrite He in He1, He2. pose proof (seg_head _ _ _ _ _ _ Hs) as [Hb _]. cbn in Hb.
  assert (next h' = fupd (next h) (Elem (List.last ns n)) (Elem n)) as En.
  { unfold h', sized_pop_back, sized_erase, erase, end_. cbn. by rewrite He2, Hb. }
  assert (begin h' l = Elem n) as Hbeg by (unfold begin; rewrite En; upd).
  split; [done|]. split; [|split].
  - unfold h', back, sized_pop_back, sized_erase, erase, it_dec, end_. cbn. rewrite He2, Hb. upd.
  - unfold h', size. cbn. rewrite fupd_eq, Hz. cbn [length]. unfold wrap.
    rewrite Zminus_mod_idemp_l. f_equal. lia.
  - clearbody h'. assert (forall c xs, seg id (next h) (prev h) c (Elem <$> xs) (Sent l) ->
      forall m, m ∈ xs -> exists m', next h' (Elem m) = Elem m' /\ (m' ∈ xs \/ m' = n)) as Hstep.
    { intros c xs. revert c. induction xs as [|y xs IH]; intros c Hc m Hm; [set_solver|].
      destruct Hc as (_ & _ & Hc). destruct (decide (m = y)) as [->|Hne].
      - rewrite En. unfold fupd. case_decide as E; [exists n; split; [done|by right]|].
        destruct xs as [|z xs]; cbn in Hc.
        + destruct Hc as [Hn Hp]. exfalso. apply E. cbn in Hp. congruence.
        + exists z. destruct Hc as [Hn _]. split; [done|left; set_solver].
      - destruct (IH (Elem y) Hc m) as (m' & E1 & E2); [set_solver|].
        exists m'. split; [done|]. set_solver. }
    assert (forall k m, m ∈ n :: ns -> forall x, x ∈ walk k (it_inc h') (Elem m) -> x <> end_ l) as Hw.
    { induction k as [|k IH]; intros m Hm x Hx; cbn [walk] in Hx; [set_solver|].
      apply elem_of_cons in Hx as [->|Hx]; [done|].
      destruct (Hstep (Sent l) (n :: ns) Hs m Hm) as (m' & E & Hm'). change (it_inc h' (Elem m)) with (next h' (Elem m)) in Hx.
      rewrite E in Hx. apply (IH m'); [set_solver|done]. }
    intros k x. rewrite Hbeg. apply Hw. set_solver.
Qed.

(** ** Witnesses *)

Definition heap0 : heap := sized_construct (mk_heap (fun _ => Null) (fun _ => Null) (fun _ => 7)) 1.

Lemma heap0_rep_ilist : rep heap0 1 [].
Proof. split; [split; [vm_compute; done|apply NoDup_nil_2]|done]. Qed.

Definition sample_cmds : list cmd :=
  [CPushBack 10; CPushBack 11; CPushFront 12; CInsertBefore 11 13; CErase 10; CPopFront]%N.

Lemma ilist_commands_refine_witness :
  let h' := fold_left (exec true 1) sample_cmds heap0 in let ns' := fold_left aexec sample_cmds [] in
  (rep h' 1 ns' /\
   walk (S (length ns')) (it_inc h') (begin h' 1) = (Elem <$> ns') ++ [end_ 1] /\
   walk (S (length ns')) (it_dec h') (back h' 1) = (Elem <$> reverse ns') ++ [end_ 1] /\
   size h' 1 = u64 (Z.of_nat (length ns'))) /\
  ns' = [13; 11]%N.
Proof.
  split; [|reflexivity].
  apply ilist_commands_refine; [exact heap0_rep_ilist|].
  cbn. repeat split; set_solver.
Defined.

Definition heap2 : heap := fold_left (exec false 1) [CPushBack 10; CPushBack 11]%N heap0.

Lemma heap2_rep_ilist : rep heap2 1 [10; 11]%N.
Proof.
  apply (ilist_exec_ok false 1 _ [10]%N (CPushBack 11)); [|cbn; set_solver].
  apply (ilist_exec_ok false 1 _ [] (CPushBack 10)); [exact heap0_rep_ilist|cbn; set_solver].
Qed.

Lemma ilist_pop_back_witness :
  let h' := sized_pop_back false heap2 1 in
  (begin h' 1 = Elem 10 /\ back h' 1 = Elem 11 /\ size h' 1 = u64 (Z.of_nat 1) /\
   forall k x, x ∈ walk k (it_inc h') (begin h' 1) -> x <> end_ 1) /\
  walk 5 (it_inc h') (begin h' 1) = [Elem 10; Elem 11; Elem 10; Elem 11; Elem 10].
Proof.
  split; [exact (ilist_pop_back_erases_sentinel 1 heap2 10 [11]%N heap2_rep_ilist)|].
  vm_compute; reflexivity.
Defined.

End IList.
