(* ===== verification/SqlList.v ===== *)
(** * The singly linked list of include/mysql/server/private/sql_list.h

    [base_list], its iterator, [List<T>] and [bubble_sort].  The nodes and the
    list objects live in a store, so that lists which share nodes (after
    [append], [disjoin] or the shallow copy) really share them.  Reading or
    writing memory that is not allocated gives [None].

    The result of [operator new] is an argument of the operations that
    allocate: a fresh address, or [NULL] when the memory root is exhausted. *)

From Stdlib Require Import ZArith Lia.
From stdpp Require Import prelude gmap sorting.
From S2P Require Import Prelude Links.
Local Open Scope N_scope.

Module BaseList.

(** ** Data *)

Record list_node := mk_node { node_next : N; node_info : N }.

(** The object [end_of_list]: its [info] is null, its [next] is itself. *)
Definition end_of_list : N := 1.
Definition end_of_list_node : list_node := mk_node end_of_list NULL.

Record base_list := mk_list { bl_first : N; bl_last : slot; bl_elements : Z }.

Record store := mk_store { nodes : gmap N list_node; lists : gmap N base_list }.

(** ** Memory access *)

Definition load (st : store) (s : slot) : option N :=
  match s with
  | SFirst l => bl_first <$> lists st !! l
  | SNext n => node_next <$> nodes st !! n
  end.

Definition store_at (st : store) (s : slot) (v : N) : option store :=
  match s with
  | SFirst l =>
      b ← lists st !! l;
      Some (mk_store (nodes st) (<[l := mk_list v (bl_last b) (bl_elements b)]> (lists st)))
  | SNext n =>
      nd ← nodes st !! n;
      Some (mk_store (<[n := mk_node v (node_info nd)]> (nodes st)) (lists st))
  end.

Definition info_of (st : store) (n : N) : option N := node_info <$> nodes st !! n.
Definition last_of (st : store) (l : N) : option slot := bl_last <$> lists st !! l.
Definition elements_of (st : store) (l : N) : option Z := bl_elements <$> lists st !! l.

Definition set_info (st : store) (n v : N) : option store :=
  nd ← nodes st !! n;
  Some (mk_store (<[n := mk_node (node_next nd) v]> (nodes st)) (lists st)).

Definition set_last (st : store) (l : N) (s : slot) : option store :=
  b ← lists st !! l;
  Some (mk_store (nodes st) (<[l := mk_list (bl_first b) s (bl_elements b)]> (lists st))).

Definition set_elements (st : store) (l : N) (z : Z) : option store :=
  b ← lists st !! l;
  Some (mk_store (nodes st) (<[l := mk_list (bl_first b) (bl_last b) (wrap 32 z)]> (lists st))).

(** [new list_node(info, next)]: [node] is what the allocator returned. *)
Definition new_node (st : store) (node info next : N) : store :=
  if decide (node = NULL) then st
  else mk_store (<[node := mk_node next info]> (nodes st)) (lists st).

(** [delete node]: the storage is given back. *)
Definition delete_node (st : store) (node : N) : store :=
  mk_store (delete node (nodes st)) (lists st).

(** ** Operations of [base_list] *)

Definition list_eqb (a b : base_list) : bool :=
  (bl_elements a =? bl_elements b)%Z && (bl_first a =? bl_first b) &&
  bool_decide (bl_last a = bl_last b).

Definition assign (this rhs : N) (st : store) : option store :=
  r ← lists st !! rhs;
  _ ← lists st !! this;
  let last := if (bl_elements r =? 0)%Z then SFirst this else bl_last r in
  Some (mk_store (nodes st) (<[this := mk_list (bl_first r) last (bl_elements r)]> (lists st))).

Definition empty (this : N) (st : store) : store :=
  mk_store (nodes st) (<[this := mk_list end_of_list (SFirst this) 0]> (lists st)).

Definition is_empty (this : N) (st : store) : option bool :=
  f ← load st (SFirst this); Some (f =? end_of_list).

(** [true] is the return value 1 of the C++ code: out of memory.  The store
    through [last] happens before the result of [new] is tested. *)
Definition push_back (this info node : N) (st : store) : option (bool * store) :=
  let st := new_node st node info end_of_list in
  last ← last_of st this;
  st ← store_at st last node;
  if decide (node = NULL) then Some (true, st)
  else
    last ← last_of st this;
    n ← load st last;
    st ← set_last st this (SNext n);
    e ← elements_of st this;
    st ← set_elements st this (e + 1);
    Some (false, st).

Definition push_front_impl (this node : N) (st : store) : option (bool * store) :=
  if decide (node = NULL) then Some (true, st)
  else
    last ← last_of st this;
    st ← (if bool_decide (last = SFirst this) then set_last st this (SNext node) else Some st);
    st ← store_at st (SFirst this) node;
    e ← elements_of st this;
    st ← set_elements st this (e + 1);
    Some (false, st).

Definition push_front (this info node : N) (st : store) : option (bool * store) :=
  f ← load st (SFirst this);
  push_front_impl this node (new_node st node info f).

Definition remove (this : N) (prev : slot) (st : store) : option store :=
  p ← load st prev;
  node ← load st (SNext p);
  e ← elements_of st this;
  st ← set_elements st this (e - 1);
  e ← elements_of st this;
  last ← last_of st this;
  st ← (if (e =? 0)%Z then set_last st this (SFirst this)
        else if bool_decide (last = SNext p) then set_last st this prev else Some st);
  store_at (delete_node st p) prev node.

Definition append (this list : N) (st : store) : option store :=
  le ← is_empty list st;
  if (le : bool) then Some st
  else
    te ← is_empty this st;
    if (te : bool) then assign this list st
    else
      tlast ← last_of st this;
      lfirst ← load st (SFirst list);
      st ← store_at st tlast lfirst;
      llast ← last_of st list;
      st ← set_last st this llast;
      e ← elements_of st this;
      le ← elements_of st list;
      set_elements st this (e + le).

(** The returned pointer is null for an empty list. *)
Definition pop (this : N) (st : store) : option (N * store) :=
  f ← load st (SFirst this);
  if f =? end_of_list then Some (NULL, st)
  else
    nf ← load st (SNext f);
    st ← store_at st (SFirst this) nf;
    e ← elements_of st this;
    st ← set_elements st this (e - 1);
    e ← elements_of st this;
    st ← (if (e =? 0)%Z then set_last st this (SFirst this) else Some st);
    i ← info_of st f;
    Some (i, st).

(** The loop of [disjoin]; [None] in the second component is the early return. *)
Fixpoint disjoin_loop (fuel : nat) (this list_first : N) (prev : slot) (node : N) (st : store)
    : option (option slot * store) :=
  match fuel with
  | O => None
  | S fuel =>
      if (node =? end_of_list) || (node =? list_first) then Some (Some prev, st)
      else
        nx ← load st (SNext node);
        e ← elements_of st this;
        st ← set_elements st this (e + 1);
        if nx =? end_of_list then Some (None, st)
        else disjoin_loop fuel this list_first (SNext node) nx st
  end.

Definition disjoin (fuel : nat) (this list : N) (st : store) : option store :=
  node ← load st (SFirst this);
  list_first ← load st (SFirst list);
  st ← set_elements st this 0;
  r ← disjoin_loop fuel this list_first (SFirst this) node st;
  match r with
  | (None, st) => Some st
  | (Some prev, st) =>
      st ← store_at st prev end_of_list;
      set_last st this prev
  end.

Definition prepend (this list : N) (st : store) : option store :=
  le ← is_empty list st;
  if (le : bool) then Some st
  else
    te ← is_empty this st;
    st ← (if (te : bool) then llast ← last_of st list; set_last st this llast else Some st);
    tf ← load st (SFirst this);
    llast ← last_of st list;
    st ← store_at st llast tf;
    lf ← load st (SFirst list);
    st ← store_at st (SFirst this) lf;
    e ← elements_of st this;
    le ← elements_of st list;
    set_elements st this (e + le).

Definition swap (this rhs : N) (st : store) : option store :=
  a ← lists st !! this;
  b ← lists st !! rhs;
  let a' := mk_list (bl_first b)
              (if decide (bl_last b = SFirst rhs) then SFirst this else bl_last b) (bl_elements b) in
  let b' := mk_list (bl_first a)
              (if decide (bl_last a = SFirst this) then SFirst rhs else bl_last a) (bl_elements a) in
  Some (mk_store (nodes st) (<[rhs := b']> (<[this := a']> (lists st)))).

Definition head (this : N) (st : store) : option N :=
  f ← load st (SFirst this); info_of st f.

Definition last_node (this : N) (st : store) : option N :=
  l ← last_of st this; load st l.

(** [head_ref] returns the address of the first node's [info], named by the
    node, or null. *)
Definition head_ref (this : N) (st : store) : option (option N) :=
  f ← load st (SFirst this);
  Some (if f =? end_of_list then None else Some f).

Fixpoint add_unique_loop (fuel : nat) (eq : N -> N -> bool) (info node : N) (st : store) : option N :=
  match fuel with
  | O => None
  | S fuel =>
      if node =? end_of_list then Some node
      else
        i ← info_of st node;
        if eq i info then Some node
        else nx ← load st (SNext node); add_unique_loop fuel eq info nx st
  end.

Definition add_unique (fuel : nat) (eq : N -> N -> bool) (this info node : N) (st : store)
    : option (bool * store) :=
  f ← load st (SFirst this);
  n ← add_unique_loop fuel eq info f st;
  if n =? end_of_list then push_back this info node st else Some (true, st).

(** [for (i= 0; i <= n; i++)]: [k] rounds are left, [k = n + 1] at the start. *)
Fixpoint elem_loop (k : nat) (node data : N) (st : store) : option N :=
  match k with
  | O => Some data
  | S k =>
      if node =? end_of_list then Some NULL
      else
        i ← info_of st node;
        nx ← load st (SNext node);
        elem_loop k nx i st
  end.

Definition elem (this : N) (n : nat) (st : store) : option N :=
  f ← load st (SFirst this); elem_loop (S n) f NULL st.

Fixpoint check_list_loop (fuel : nat) (node : N) (cnt : Z) (st : store) : option (option (N * Z)) :=
  match fuel with
  | O => None
  | S fuel =>
      nx ← load st (SNext node);
      if nx =? end_of_list then Some (Some (node, cnt))
      else
        i ← info_of st node;
        if i =? NULL then Some None else check_list_loop fuel nx (wrap 32 (cnt + 1)) st
  end.

Definition check_list (fuel : nat) (this : N) (st : store) : option bool :=
  f ← load st (SFirst this);
  r ← check_list_loop fuel f 0 st;
  match r with
  | None => Some false
  | Some (node, cnt) =>
      last ← last_of st this;
      e ← elements_of st this;
      if negb (bool_decide (last = SNext node)) then Some false
      else if negb (wrap 32 (cnt + 1) =? e)%Z then Some false
      else Some true
  end.

Definition after (this info node newp : N) (st : store) : option store :=
  nx ← load st (SNext node);
  let st := new_node st newp info nx in
  st ← store_at st (SNext node) newp;
  e ← elements_of st this;
  st ← set_elements st this (e + 1);
  last ← last_of st this;
  if bool_decide (last = SNext node) then set_last st this (SNext newp) else Some st.

(** ** [base_list_iterator] *)

Record iterator := mk_iter
  { it_list : N; it_el : option slot; it_prev : option slot; it_current : N }.

Definition it_none : iterator := mk_iter NULL None None NULL.

Definition it_init (l : N) : iterator := mk_iter l (Some (SFirst l)) None NULL.

Definition it_next (it : iterator) (st : store) : option (N * iterator) :=
  el ← it_el it;
  c ← load st el;
  i ← info_of st c;
  Some (i, mk_iter (it_list it) (Some (SNext c)) (Some el) c).

Definition it_peek (it : iterator) (st : store) : option N :=
  el ← it_el it; c ← load st el; info_of st c.

Definition it_next_fast (it : iterator) (st : store) : option (N * iterator) :=
  el ← it_el it;
  tmp ← load st el;
  i ← info_of st tmp;
  Some (i, mk_iter (it_list it) (Some (SNext tmp)) (it_prev it) (it_current it)).

Definition it_rewind (it : iterator) : iterator :=
  mk_iter (it_list it) (Some (SFirst (it_list it))) (it_prev it) (it_current it).

Definition it_replace (it : iterator) (element : N) (st : store) : option (N * store) :=
  tmp ← info_of st (it_current it);
  if tmp =? NULL then None                       (* DBUG_ASSERT(current->info != 0) *)
  else
    st ← set_info st (it_current it) element;
    Some (tmp, st).

Definition it_replace_list (it : iterator) (new_list : N) (st : store) : option (N * store) :=
  ret_value ← info_of st (it_current it);
  ne ← is_empty new_list st;
  if (ne : bool) then Some (ret_value, st)
  else
    let cur := it_current it in
    nlast ← last_of st new_list;
    cnext ← load st (SNext cur);
    st ← store_at st nlast cnext;
    nf ← load st (SFirst new_list);
    nfi ← info_of st nf;
    st ← set_info st cur nfi;
    nfn ← load st (SNext nf);
    st ← store_at st (SNext cur) nfn;
    llast ← last_of st (it_list it);
    nel ← elements_of st new_list;
    st ← (if bool_decide (llast = SNext cur) && (1 <? nel)%Z
          then nlast ← last_of st new_list; set_last st (it_list it) nlast else Some st);
    e ← elements_of st (it_list it);
    nel ← elements_of st new_list;
    st ← set_elements st (it_list it) (e + wrap 32 (nel - 1));
    Some (ret_value, st).

Definition it_remove (it : iterator) (st : store) : option (iterator * store) :=
  prev ← it_prev it;
  st ← remove (it_list it) prev st;
  Some (mk_iter (it_list it) (Some prev) (Some prev) NULL, st).

Definition it_after (it : iterator) (element newp : N) (st : store) : option (iterator * store) :=
  st ← after (it_list it) element (it_current it) newp st;
  c ← load st (SNext (it_current it));
  Some (mk_iter (it_list it) (Some (SNext c)) (it_prev it) c, st).

(** [ref] is [&current->info], named by its node. *)
Definition it_ref (it : iterator) : N := it_current it.

Definition it_is_last (it : iterator) : bool := bool_decide (it_el it = Some (SNext end_of_list)).

Definition it_at_end (it : iterator) : bool := it_current it =? end_of_list.

Definition it_sublist (it : iterator) (ls : N) (elm : Z) (st : store) : option store :=
  el ← it_el it;
  f ← load st el;
  last ← last_of st (it_list it);
  _ ← lists st !! ls;
  Some (mk_store (nodes st) (<[ls := mk_list f last elm]> (lists st))).

(** ** [List<T>] *)

(** [delete_elements]: the pointers passed to [delete], in order, and the
    emptied list. *)
Fixpoint delete_elements_loop (fuel : nat) (element : N) (st : store) : option (list N) :=
  match fuel with
  | O => None
  | S fuel =>
      if element =? end_of_list then Some []
      else
        nx ← load st (SNext element);
        i ← info_of st element;
        rest ← delete_elements_loop fuel nx st;
        Some (i :: rest)
  end.

Definition delete_elements (fuel : nat) (this : N) (st : store) : option (list N * store) :=
  f ← load st (SFirst this);
  d ← delete_elements_loop fuel f st;
  Some (d, empty this st).

(** [List<T>::make]: [res] is the address of the new list object or null,
    [node] the address of its node or null. *)
Definition make (res first node : N) (st : store) : option (N * store) :=
  if decide (res = NULL) then Some (NULL, st)
  else
    r ← push_back res first node (empty res st);
    Some (if (r.1 : bool) then NULL else res, r.2).

(** ** [bubble_sort]

    [None] for [ref1]/[ref2] is the null pointer they start with. *)

Fixpoint bubble_pass (fuel : nat) (cmp : N -> N -> Z) (it : iterator) (item1 : N)
    (ref1 last_ref : option N) (swap : bool) (st : store)
    : option (iterator * option N * bool * store) :=
  match fuel with
  | O => None
  | S fuel =>
      '(item2, it) ← it_next it st;
      if item2 =? NULL then Some (it, ref1, swap, st)
      else
        let ref2 := Some (it_ref it) in
        if decide (ref2 = last_ref) then Some (it, ref1, swap, st)
        else if (0 <? cmp item1 item2)%Z then
          r1 ← ref1;
          st ← set_info st r1 item2;
          st ← set_info st (it_ref it) item1;
          bubble_pass fuel cmp it item1 ref2 last_ref true st
        else bubble_pass fuel cmp it item2 ref2 last_ref swap st
  end.

Fixpoint bubble_rounds (rounds fuel : nat) (cmp : N -> N -> Z) (it : iterator)
    (ref1 : option N) (st : store) : option store :=
  match rounds with
  | O => None
  | S rounds =>
      let last_ref := ref1 in
      '(item1, it) ← it_next it st;
      '(it, ref1, swap, st) ← bubble_pass fuel cmp it item1 (Some (it_ref it)) last_ref false st;
      let it := it_rewind it in
      if (swap : bool) then bubble_rounds rounds fuel cmp it ref1 st else Some st
  end.

Definition bubble_sort (rounds fuel : nat) (cmp : N -> N -> Z) (list_to_sort : N) (st : store)
    : option store :=
  bubble_rounds rounds fuel cmp (it_init list_to_sort) None st.

(** [list_copy_and_replace_each_value]: [clone] stands for [el->clone(mem_root)]. *)
Fixpoint copy_each_loop (fuel : nat) (clone : N -> N) (it : iterator) (st : store) : option store :=
  match fuel with
  | O => None
  | S fuel =>
      '(el, it) ← it_next it st;
      if el =? NULL then Some st
      else
        '(_, st) ← it_replace it (clone el) st;
        copy_each_loop fuel clone it st
  end.

Definition list_copy_and_replace_each_value (fuel : nat) (clone : N -> N) (l : N) (st : store)
    : option store :=
  copy_each_loop fuel clone (it_init l) st.

(** ** What each memory access changes *)

#[global] Arguments load : simpl never.
#[global] Arguments store_at : simpl never.
#[global] Arguments end_of_list : simpl never.

(** Decides every lookup in an updated store. *)
Ltac solve_obs Hb :=
  let x := fresh "x" in
  intros x; try (match type of x with slot => destruct x end);
  unfold load, info_of, last_of, elements_of; simpl; try done;
  match goal with |- context [<[?i := _]> _ !! ?j] =>
    destruct (decide (i = j)) as [->|];
    [rewrite ?lookup_insert_eq, ?Hb|rewrite ?lookup_insert_ne by done] end;
  simpl; try done; case_decide; congruence.

Lemma store_at_ok st s v : is_Some (load st s) ->
  exists st', store_at st s v = Some st' /\
    (forall c, load st' c = if decide (s = c) then Some v else load st c) /\
    (forall n, info_of st' n = info_of st n) /\
    (forall l, last_of st' l = last_of st l) /\
    (forall l, elements_of st' l = elements_of st l).
Proof.
  unfold load, store_at; destruct s; intros [x H]; apply fmap_Some in H as (b & Hb & ->);
    rewrite Hb; simpl; eexists; (split; [reflexivity|]); (repeat split); solve_obs Hb.
Qed.

Lemma set_last_ok st l s : is_Some (last_of st l) ->
  exists st', set_last st l s = Some st' /\
    (forall c, load st' c = load st c) /\
    (forall n, info_of st' n = info_of st n) /\
    (forall l', last_of st' l' = if decide (l = l') then Some s else last_of st l') /\
    (forall l', elements_of st' l' = elements_of st l').
Proof.
  intros [x H]; apply fmap_Some in H as (b & Hb & ->). unfold set_last. rewrite Hb.
  simpl; eexists; (split; [reflexivity|]); (repeat split); solve_obs Hb.
Qed.

(** A guarded assignment to [last] that ends with the value [s'] either way. *)
Lemma maybe_set_last_ok st l (b : bool) s s' :
  (if b then is_Some (last_of st l) /\ s = s' else last_of st l = Some s') ->
  exists st', (if b then set_last st l s else Some st) = Some st' /\
    (forall c, load st' c = load st c) /\
    (forall n, info_of st' n = info_of st n) /\
    (forall l', last_of st' l' = if decide (l = l') then Some s' else last_of st l') /\
    (forall l', elements_of st' l' = elements_of st l').
Proof.
  destruct b; [intros [H ->]; by apply set_last_ok|].
  intros H. exists st. do 3 (split; [done|]). split; [|done]. intros l'. case_decide; congruence.
Qed.

Lemma set_elements_ok st l z : is_Some (elements_of st l) ->
  exists st', set_elements st l z = Some st' /\
    (forall c, load st' c = load st c) /\
    (forall n, info_of st' n = info_of st n) /\
    (forall l', last_of st' l' = last_of st l') /\
    (forall l', elements_of st' l' = if decide (l = l') then Some (wrap 32 z) else elements_of st l').
Proof.
  intros [x H]; apply fmap_Some in H as (b & Hb & ->). unfold set_elements. rewrite Hb.
  simpl; eexists; (split; [reflexivity|]); (repeat split); solve_obs Hb.
Qed.

Lemma set_info_ok st n v : is_Some (info_of st n) ->
  exists st', set_info st n v = Some st' /\
    (forall c, load st' c = load st c) /\
    (forall n', info_of st' n' = if decide (n = n') then Some v else info_of st n') /\
    (forall l, last_of st' l = last_of st l) /\
    (forall l, elements_of st' l = elements_of st l).
Proof.
  intros [x H]; apply fmap_Some in H as (b & Hb & ->). unfold set_info. rewrite Hb.
  simpl; eexists; (split; [reflexivity|]); (repeat split); solve_obs Hb.
Qed.

Lemma new_node_ok st p i nx : p <> NULL ->
  let st' := new_node st p i nx in
    (forall c, load st' c = if decide (SNext p = c) then Some nx else load st c) /\
    (forall n, info_of st' n = if decide (p = n) then Some i else info_of st n) /\
    (forall l, last_of st' l = last_of st l) /\
    (forall l, elements_of st' l = elements_of st l).
Proof.
  intros Hp st'. unfold st', new_node. rewrite decide_False by done.
  (repeat split); intros x; try (match type of x with slot => destruct x end);
    unfold load, info_of, last_of, elements_of; simpl; rewrite ?lookup_insert; try done;
    repeat case_decide; simplify_eq; done.
Qed.

Lemma delete_node_ok st p :
  let st' := delete_node st p in
    (forall c, load st' c = if decide (SNext p = c) then None else load st c) /\
    (forall n, info_of st' n = if decide (p = n) then None else info_of st n) /\
    (forall l, last_of st' l = last_of st l) /\
    (forall l, elements_of st' l = elements_of st l).
Proof.
  intros st'. unfold st', delete_node.
  (repeat split); intros x; try (match type of x with slot => destruct x end);
    unfold load, info_of, last_of, elements_of; simpl; rewrite ?lookup_delete; try done;
    repeat case_decide; simplify_eq; done.
Qed.

(** ** Representation

    [rep st l ns xs]: the list object [l] owns the nodes [ns], which hold the
    elements [xs] in order; this is the invariant the C++ code documents
    (every list ends with [end_of_list], [elements] counts the nodes, [last]
    is the address of the last next pointer). *)
Record rep (st : store) (l : N) (ns xs : list N) : Prop := mk_rep {
  rep_chain : linked (load st) (SFirst l) ns end_of_list;
  rep_info : info_of st <$> ns = Some <$> xs;
  rep_last : last_of st l = Some (end_slot (SFirst l) ns);
  rep_elements : elements_of st l = Some (Z.of_nat (length ns));
  rep_nodup : NoDup ns;
  rep_nodes : Forall (fun n => n <> NULL /\ n <> end_of_list) ns;
  rep_end_next : load st (SNext end_of_list) = Some end_of_list;
  rep_end_info : info_of st end_of_list = Some NULL;
  rep_bound : (Z.of_nat (length ns) < 2 ^ 32)%Z }.

(** Only the list object, its nodes and the sentinel matter. *)
Lemma rep_frame st st' l ns xs :
  rep st l ns xs ->
  (forall c, c ∈ cells (SFirst l) ns \/ c = SNext end_of_list -> load st' c = load st c) ->
  (forall n, n ∈ ns \/ n = end_of_list -> info_of st' n = info_of st n) ->
  last_of st' l = last_of st l -> elements_of st' l = elements_of st l ->
  rep st' l ns xs.
Proof.
  intros [] Hload Hinfo Hlast Hel. split; try done; try congruence.
  - eapply linked_ext; [|done]. intros; apply Hload; by left.
  - rewrite <- rep_info0. apply list_fmap_ext. intros i n Hn. apply Hinfo. left.
    by eapply list_elem_of_lookup_2.
  - rewrite Hload; [done|by right].
  - rewrite Hinfo; [done|by right].
Qed.

(** The other lists of the store: a list whose nodes are not among [D] and
    whose object is not among [L] is untouched. *)
Definition frame (st st' : store) (L D : list N) : Prop :=
  forall l ns xs, l ∉ L -> (forall n, n ∈ ns -> n ∉ D) -> rep st l ns xs -> rep st' l ns xs.

Lemma frame_refl st L D : frame st st L D.
Proof. by intros l ns xs. Qed.

Lemma frame_intro st st' L D :
  end_of_list ∉ D ->
  (forall l, l ∉ L -> load st' (SFirst l) = load st (SFirst l)) ->
  (forall n, n ∉ D -> load st' (SNext n) = load st (SNext n)) ->
  (forall n, n ∉ D -> info_of st' n = info_of st n) ->
  (forall l, l ∉ L -> last_of st' l = last_of st l) ->
  (forall l, l ∉ L -> elements_of st' l = elements_of st l) ->
  frame st st' L D.
Proof.
  intros HD H1 H2 H3 H4 H5 l ns xs Hl Hns Hrep.
  eapply rep_frame; [done| |..]; [|intros n [Hn| ->]; auto|auto|auto].
  intros c [Hc| ->]; [|by auto]. destruct c as [l'|n].
  - apply elem_of_cells_first in Hc as [= ->]. auto.
  - apply elem_of_cells_next in Hc as [?|Hn]; [done|auto].
Qed.

Lemma rep_not_end st l ns xs : rep st l ns xs -> end_of_list ∉ ns /\ NULL ∉ ns.
Proof.
  intros [_ _ _ _ _ H _ _ _]. rewrite Forall_forall in H. split; intros ?%H; naive_solver.
Qed.

Lemma rep_load_node st l ns xs n : rep st l ns xs -> n ∈ ns -> is_Some (load st (SNext n)).
Proof.
  intros H Hn. apply list_elem_of_split in Hn as (ns1 & ns2 & ->).
  destruct H as [H _ _ _ _ _ _ _ _]. apply linked_app in H as [_ H].
  destruct ns2; simpl in H; [eauto|destruct H; eauto].
Qed.

Lemma rep_fresh st l ns xs p :
  rep st l ns xs -> nodes st !! p = None -> p ∉ ns /\ p <> end_of_list.
Proof.
  intros H Hp. split.
  - intros Hn. destruct (rep_load_node _ _ _ _ _ H Hn) as [x Hx].
    unfold load in Hx. by rewrite Hp in Hx.
  - intros ->. pose proof (rep_end_next _ _ _ _ H) as Hx. unfold load in Hx. by rewrite Hp in Hx.
Qed.

(** Reads the value of an observation in an updated store. *)
Ltac obs :=
  repeat match goal with
  | H : forall c, load ?s c = _ |- context [load ?s ?x] => rewrite (H x)
  | H : forall c, info_of ?s c = _ |- context [info_of ?s ?x] => rewrite (H x)
  | H : forall c, last_of ?s c = _ |- context [last_of ?s ?x] => rewrite (H x)
  | H : forall c, elements_of ?s c = _ |- context [elements_of ?s ?x] => rewrite (H x)
  end.

(** Runs one memory access of the program in the goal. *)
Ltac run :=
  lazymatch goal with
  | |- context [store_at ?st ?s ?v] =>
      let st' := fresh "st" in let E := fresh "E" in
      destruct (store_at_ok st s v) as (st' & E & ? & ? & ? & ?); [|rewrite E; cbn [mbind option_bind]]
  | |- context [set_last ?st ?l ?s] =>
      let st' := fresh "st" in let E := fresh "E" in
      destruct (set_last_ok st l s) as (st' & E & ? & ? & ? & ?); [|rewrite E; cbn [mbind option_bind]]
  | |- context [set_elements ?st ?l ?z] =>
      let st' := fresh "st" in let E := fresh "E" in
      destruct (set_elements_ok st l z) as (st' & E & ? & ? & ? & ?); [|rewrite E; cbn [mbind option_bind]]
  | |- context [set_info ?st ?n ?z] =>
      let st' := fresh "st" in let E := fresh "E" in
      destruct (set_info_ok st n z) as (st' & E & ? & ? & ? & ?); [|rewrite E; cbn [mbind option_bind]]
  end.

(** Shows that an operation leaves the other lists alone. *)
Ltac split_elem :=
  repeat match goal with
  | H : _ ∉ _ :: _ |- _ => apply not_elem_of_cons in H as [??]
  | H : _ ∉ _ ++ _ |- _ => apply not_elem_of_app in H as [??]
  | |- _ ∉ _ :: _ => apply not_elem_of_cons; split
  | |- _ ∉ _ ++ _ => apply not_elem_of_app; split
  | |- _ ∉ [] => apply not_elem_of_nil
  end.

Ltac end_slot_cases :=
  repeat match goal with
  | H : end_slot (SFirst _) _ = SFirst _ |- _ => apply end_slot_is_first in H as [??]
  | H : end_slot (SFirst _) _ = SNext _ |- _ => apply end_slot_is_next in H
  end.

Ltac solve_frame :=
  apply frame_intro; [split_elem; auto|..];
  let y := fresh "y" in intros y ?; split_elem; obs;
  repeat case_decide; simplify_eq; try done; end_slot_cases; simplify_eq; try done.

Lemma push_back_rep st l ns xs x p :
  rep st l ns xs -> nodes st !! p = None -> p <> NULL -> (Z.of_nat (length ns) + 1 < 2 ^ 32)%Z ->
  exists st', push_back l x p st = Some (false, st') /\
    rep st' l (ns ++ [p]) (xs ++ [x]) /\ frame st st' [l] (p :: ns).
Proof.
  intros Hrep Hp Hnull Hlen.
  destruct (rep_fresh _ _ _ _ _ Hrep Hp) as [Hpn Hpe].
  destruct (rep_not_end _ _ _ _ Hrep) as [Hend Hnul].
  destruct (new_node_ok st p x end_of_list Hnull) as (L1 & I1 & T1 & E1).
  destruct Hrep as [Hc Hi Hl He Hnd Hns Hen Hei Hb].
  unfold push_back. set (st1 := new_node st p x end_of_list) in *.
  rewrite T1, Hl. cbn [mbind option_bind].
  assert (SNext p ∉ cells (SFirst l) ns) as Hpc by (rewrite elem_of_cells_next; naive_solver).
  assert (end_slot (SFirst l) ns <> SNext p) as Hse
    by (intros E; apply Hpc; rewrite <- E; apply end_slot_cells).
  run. { obs. case_decide; [eauto|]. erewrite linked_end by done. eauto. }
  rewrite decide_False by done. obs. rewrite Hl. cbn [mbind option_bind]. obs.
  rewrite decide_True by done. cbn [mbind option_bind].
  run. { obs. eauto. }
  obs. rewrite He. cbn [mbind option_bind].
  run. { obs. eauto. }
  eexists; split; [reflexivity|]. split.
  - split; rewrite ?length_app; simpl; obs.
    + apply linked_snoc. split; [|obs; rewrite decide_False by done; by rewrite decide_True].
      apply (linked_redirect (load st1) _ _ _ end_of_list); [auto with links| |].
      * intros c _. obs. done.
      * eapply linked_ext; [|done]. intros c Hcc. rewrite L1, decide_False; [done|naive_solver].
    + rewrite !fmap_app. f_equal.
      * rewrite <- Hi. apply list_fmap_ext. intros i n Hn%list_elem_of_lookup_2. obs.
        rewrite decide_False; [done|naive_solver].
      * simpl. obs. by rewrite decide_True.
    + rewrite decide_True by done. by rewrite end_slot_snoc.
    + rewrite decide_True by done. f_equal. rewrite wrap_small; [lia|split; lia].
    + apply NoDup_app. split; [done|]. split; [set_solver|apply NoDup_singleton].
    + apply Forall_app. split; [done|]. by apply Forall_singleton.
    + rewrite decide_False, decide_False; [done|naive_solver|].
      intros ?%end_slot_is_next. done.
    + rewrite decide_False; [done|naive_solver].
    + lia.
  - solve_frame.
Qed.

Lemma rep_lists st l ns xs : rep st l ns xs ->
  lists st !! l = Some (mk_list (from_option id end_of_list (list.head ns))
    (end_slot (SFirst l) ns) (Z.of_nat (length ns))).
Proof.
  intros [Hc _ Hl He _ _ _ _ _]. apply linked_head in Hc.
  unfold load, last_of, elements_of in *. destruct (lists st !! l) as [[f la e]|]; naive_solver.
Qed.

Lemma rep_length st l ns xs : rep st l ns xs -> length ns = length xs.
Proof.
  intros [_ Hi _ _ _ _ _ _ _]. apply (f_equal length) in Hi. by rewrite !length_fmap in Hi.
Qed.

(** A list is empty for the code exactly when it holds no element. *)
Lemma is_empty_rep st l ns xs :
  rep st l ns xs -> is_empty l st = Some (bool_decide (xs = [])).
Proof.
  intros H. pose proof (rep_length _ _ _ _ H). destruct (rep_not_end _ _ _ _ H) as [He _].
  destruct H as [Hc _ _ _ _ _ _ _ _]. apply linked_head in Hc. unfold is_empty. rewrite Hc. simpl.
  destruct ns as [|n ns], xs as [|x xs]; try done. simpl. f_equal.
  apply N.eqb_neq. intros ->. set_solver.
Qed.

Lemma infos_app st (ns1 ns2 xs1 xs2 : list N) :
  length ns1 = length xs1 -> info_of st <$> ns1 ++ ns2 = Some <$> xs1 ++ xs2 ->
  info_of st <$> ns1 = Some <$> xs1 /\ info_of st <$> ns2 = Some <$> xs2.
Proof.
  intros Hlen. rewrite !fmap_app. intros H. apply app_inj_1 in H; [done|].
  by rewrite !length_fmap.
Qed.

Lemma infos_ext st st' (ns xs : list N) :
  info_of st <$> ns = Some <$> xs ->
  (forall n, n ∈ ns -> info_of st' n = info_of st n) -> info_of st' <$> ns = Some <$> xs.
Proof.
  intros <- H. apply list_fmap_ext. intros i n Hn%list_elem_of_lookup_2. auto.
Qed.

Lemma push_front_rep st l ns xs x p :
  rep st l ns xs -> nodes st !! p = None -> p <> NULL -> (Z.of_nat (length ns) + 1 < 2 ^ 32)%Z ->
  exists st', push_front l x p st = Some (false, st') /\
    rep st' l (p :: ns) (x :: xs) /\ frame st st' [l] [p].
Proof.
  intros Hrep Hp Hnull Hlen.
  destruct (rep_fresh _ _ _ _ _ Hrep Hp) as [Hpn Hpe].
  destruct (rep_not_end _ _ _ _ Hrep) as [Hend Hnul].
  destruct Hrep as [Hc Hi Hl He Hnd Hns Hen Hei Hb].
  unfold push_front. pose proof (linked_head _ _ _ _ Hc) as Hf. rewrite Hf. cbn [mbind option_bind].
  destruct (new_node_ok st p x (from_option id end_of_list (list.head ns)) Hnull) as (L1 & I1 & T1 & E1).
  set (st1 := new_node st p x _) in *.
  unfold push_front_impl. rewrite decide_False by done. rewrite T1, Hl. cbn [mbind option_bind].
  destruct (maybe_set_last_ok st1 l (bool_decide (end_slot (SFirst l) ns = SFirst l)) (SNext p)
    (end_slot (SFirst l) (p :: ns))) as (st2 & -> & ? & ? & ? & ?).
  { case_bool_decide as Hd; rewrite T1, Hl.
    - apply end_slot_is_first in Hd as [_ ->]. eauto.
    - f_equal. simpl. apply end_slot_nonempty. by intros ->. }
  cbn [mbind option_bind].
  run. { obs. rewrite decide_False by done. eauto. }
  obs. rewrite He. cbn [mbind option_bind].
  run. { obs. eauto. }
  eexists; split; [reflexivity|]. split.
  - split; simpl; obs; rewrite ?decide_True by done; try done.
    + split; [done|]. eapply linked_restart; [exact Hc|obs|]; [|intros n Hn; obs].
      * rewrite Hf, decide_False, decide_True by done. done.
      * rewrite !decide_False by (naive_solver congruence). done.
    + f_equal. eapply infos_ext; [done|]. intros n Hn. obs. rewrite decide_False by naive_solver. done.
    + f_equal. rewrite wrap_small; [lia|split; lia].
    + by apply NoDup_cons.
    + by apply Forall_cons.
    + rewrite !decide_False by (done || naive_solver). done.
    + rewrite decide_False by naive_solver. done.
    + lia.
  - solve_frame.
Qed.

Lemma pop_rep st l n ns x xs :
  rep st l (n :: ns) (x :: xs) ->
  exists st', pop l st = Some (x, st') /\ rep st' l ns xs /\ frame st st' [l] [].
Proof.
  intros Hrep. destruct (rep_not_end _ _ _ _ Hrep) as [Hend Hnul].
  destruct Hrep as [Hc Hi Hl He Hnd Hns Hen Hei Hb].
  destruct Hc as [Hf Hc]. pose proof (linked_head _ _ _ _ Hc) as Hn.
  unfold pop. rewrite Hf. cbn [mbind option_bind].
  rewrite (proj2 (N.eqb_neq n end_of_list)) by set_solver. rewrite Hn. cbn [mbind option_bind].
  run. { eauto. }
  obs. rewrite He. cbn [mbind option_bind].
  run. { obs. eauto. }
  obs. rewrite decide_True by done. cbn [mbind option_bind].
  simpl length in *. rewrite wrap_small by (split; lia).
  simpl in Hi. injection Hi as Hx Hi.
  destruct (maybe_set_last_ok st1 l (Z.of_nat (S (length ns)) - 1 =? 0)%Z (SFirst l)
    (end_slot (SFirst l) ns)) as (st2 & -> & ? & ? & ? & ?).
  { obs. rewrite Hl. destruct (Z.eqb_spec (Z.of_nat (S (length ns)) - 1) 0).
    - destruct ns; simpl in *; [eauto|lia].
    - f_equal. simpl. apply end_slot_nonempty. intros ->. simpl in *. lia. }
  cbn [mbind option_bind]. obs. rewrite Hx. cbn [mbind option_bind].
  apply NoDup_cons in Hnd as [Hnn Hnd]. apply Forall_cons in Hns as [_ Hns].
  eexists; split; [reflexivity|]. split.
  - split; obs; rewrite ?decide_True by done; try done.
    + eapply linked_restart; [exact Hc|obs|]; [by rewrite decide_True|].
      intros m Hm. obs. by rewrite decide_False.
    + eapply infos_ext; [done|]. intros m Hm. by obs.
    + f_equal. rewrite wrap_small by (split; lia). lia.
    + lia.
  - solve_frame.
Qed.

(** Removing through the cell [prev] that points to the node. *)
Lemma remove_rep st l ns1 n ns2 xs1 x xs2 :
  rep st l (ns1 ++ n :: ns2) (xs1 ++ x :: xs2) -> length ns1 = length xs1 ->
  exists st', remove l (end_slot (SFirst l) ns1) st = Some st' /\
    rep st' l (ns1 ++ ns2) (xs1 ++ xs2) /\ nodes st' !! n = None /\
    frame st st' [l] (n :: ns1).
Proof.
  intros Hrep Hlen. destruct (rep_not_end _ _ _ _ Hrep) as [Hend Hnul].
  destruct Hrep as [Hc Hi Hl He Hnd Hns Hen Hei Hb].
  apply NoDup_app in Hnd as (Hnd1 & Hdis & Hnd2). apply NoDup_cons in Hnd2 as [Hn2 Hnd2].
  apply Forall_app in Hns as [Hns1 Hns2]. apply Forall_cons in Hns2 as [_ Hns2].
  apply infos_app in Hi as [Hi1 Hi2]; [|done]. simpl in Hi2. injection Hi2 as Hx Hi2.
  apply linked_app in Hc as [Hc1 Hc2].
  pose proof (linked_end _ _ _ _ Hc1) as Hp. pose proof (linked_head _ _ _ _ Hc2) as Hnx.
  assert (n ∉ ns1) as Hn1 by set_solver.
  assert (end_slot (SFirst l) ns1 <> SNext n) as Hpn by (intros ?%end_slot_is_next; done).
  rewrite length_app in *. simpl length in *.
  unfold remove. rewrite Hp. cbn [mbind option_bind]. rewrite Hnx. cbn [mbind option_bind].
  rewrite He. cbn [mbind option_bind].
  run. { eauto. }
  obs. rewrite decide_True by done. cbn [mbind option_bind]. rewrite Hl. cbn [mbind option_bind].
  rewrite wrap_small by (split; lia).
  assert (exists st2, (if (Z.of_nat (length ns1 + S (length ns2)) - 1 =? 0)%Z
      then set_last st0 l (SFirst l)
      else if bool_decide (end_slot (SFirst l) (ns1 ++ n :: ns2) = SNext n)
           then set_last st0 l (end_slot (SFirst l) ns1) else Some st0) = Some st2 /\
    (forall c, load st2 c = load st0 c) /\ (forall n, info_of st2 n = info_of st0 n) /\
    (forall l', last_of st2 l' = if decide (l = l') then Some (end_slot (SFirst l) (ns1 ++ ns2))
       else last_of st0 l') /\
    (forall l', elements_of st2 l' = elements_of st0 l')) as (st2 & -> & ? & ? & ? & ?).
  { destruct (Z.eqb_spec (Z.of_nat (length ns1 + S (length ns2)) - 1) 0) as [Hz|Hz].
    - apply (maybe_set_last_ok st0 l true). obs. destruct ns1, ns2; simpl in *; try lia; eauto.
    - apply maybe_set_last_ok. obs. rewrite Hl, end_slot_app. simpl.
      case_bool_decide as Hd; [|f_equal; rewrite end_slot_app; apply end_slot_nonempty; by intros ->].
      destruct ns2 as [|m ns2 _] using rev_ind; [rewrite app_nil_r; eauto|].
      rewrite end_slot_app in Hd. simpl in Hd. injection Hd as ->. set_solver. }
  cbn [mbind option_bind].
  destruct (delete_node_ok st2 n) as (L3 & I3 & T3 & E3).
  set (st3 := delete_node st2 n) in *.
  destruct (store_at_ok st3 (end_slot (SFirst l) ns1) (default end_of_list (list.head ns2)))
    as (st4 & Hst4 & ? & ? & ? & ?).
  { obs. rewrite decide_False by done. eauto. }
  rewrite Hst4. eexists; split; [reflexivity|]. split; [|split].
  - split; obs; rewrite ?decide_True by done; try done.
    + apply (linked_concat _ _ _ _ _ (default end_of_list (list.head ns2))).
      * eapply (linked_redirect (load st)); [by apply cells_NoDup| |exact Hc1].
        intros c Hcc. obs. case_decide; [done|]. rewrite decide_False; [done|].
        intros <-. apply elem_of_cells_next in Hcc as [?|?]; done.
      * obs. by rewrite decide_True.
      * destruct ns2 as [|m ns2]; [done|]. destruct Hc2 as [_ Hc2].
        eapply linked_ext; [|exact Hc2]. intros c Hcc. obs.
        rewrite !decide_False; [done| |]; intros <-.
        -- apply elem_of_cells_next in Hcc as [[= ->]|?]; set_solver.
        -- destruct ns1 as [|k ns1 _] using rev_ind; [by apply elem_of_cells_first in Hcc|].
           rewrite end_slot_snoc in Hcc. apply elem_of_cells_next in Hcc as [[= ->]|?]; set_solver.
    + rewrite !fmap_app. f_equal; (eapply infos_ext; [done|]); intros m Hm; obs;
        rewrite decide_False; try done; intros ->; done.
    + f_equal. rewrite wrap_small by (split; lia). rewrite length_app. lia.
    + apply NoDup_app. split; [done|]. split; [set_solver|done].
    + by apply Forall_app.
    + rewrite !decide_False; try done.
      * intros [= ->]. set_solver.
      * intros ?%end_slot_is_next. set_solver.
    + rewrite decide_False; [done|]. intros ->. set_solver.
    + rewrite length_app. lia.
  - assert (load st4 (SNext n) = None) as Hn by (obs; by rewrite decide_False, decide_True by done).
    unfold load in Hn. by apply fmap_None in Hn.
  - solve_frame.
Qed.

Lemma swap_rep st a b ns ms xs ys :
  a <> b -> rep st a ns xs -> rep st b ms ys ->
  exists st', swap a b st = Some st' /\ rep st' a ms ys /\ rep st' b ns xs /\ frame st st' [a; b] [].
Proof.
  intros Hab Ha Hb. pose proof (rep_lists _ _ _ _ Ha) as La. pose proof (rep_lists _ _ _ _ Hb) as Lb.
  unfold swap. rewrite La. cbn [mbind option_bind]. rewrite Lb. cbn [mbind option_bind].
  eexists; split; [reflexivity|]. simpl bl_last. simpl bl_first. simpl bl_elements.
  match goal with |- context [mk_store _ (<[b := ?B]> (<[a := ?A]> _))] => set (lb := B); set (la := A) end.
  assert (forall l la' ns' xs' l', rep st l ns' xs' ->
    mk_list (default end_of_list (list.head ns')) (end_slot (SFirst l') ns') (Z.of_nat (length ns')) = la' ->
    lists (mk_store (nodes st) (<[b := lb]> (<[a := la]> (lists st)))) !! l' = Some la' ->
    rep (mk_store (nodes st) (<[b := lb]> (<[a := la]> (lists st)))) l' ns' xs') as Hmove.
  { intros l la' ns' xs' l' [Hc Hi Hl He Hnd Hns Hen Hei Hbd] <- Hlk. split; try done.
    - eapply linked_restart; [exact Hc| |done]. unfold load at 1. rewrite Hlk. simpl.
      symmetry. by apply linked_head.
    - unfold last_of. by rewrite Hlk.
    - unfold elements_of. by rewrite Hlk. }
  assert (forall l l' ks, (if decide (end_slot (SFirst l) ks = SFirst l) is left _
    then SFirst l' else end_slot (SFirst l) ks) = end_slot (SFirst l') ks) as Hend.
  { intros l l' ks. case_decide as Hd; [by apply end_slot_is_first in Hd as [_ ->]|].
    apply end_slot_nonempty. by intros ->. }
  split; [|split].
  - eapply Hmove; [exact Hb| |simpl; rewrite lookup_insert_ne, lookup_insert_eq by done; reflexivity].
    unfold la. by rewrite Hend.
  - eapply Hmove; [exact Ha| |simpl; rewrite lookup_insert_eq; reflexivity].
    unfold lb. by rewrite Hend.
  - apply frame_intro; [apply not_elem_of_nil|..]; intros l Hl; split_elem;
      unfold load, info_of, last_of, elements_of; simpl; by rewrite ?lookup_insert_ne by done.
Qed.

(** The shallow copy: both lists then own the same nodes. *)
Lemma assign_rep st a b ns ms xs ys :
  a <> b -> rep st a ns xs -> rep st b ms ys ->
  exists st', assign a b st = Some st' /\ rep st' a ms ys /\ rep st' b ms ys /\ frame st st' [a] [].
Proof.
  intros Hab Ha Hb. pose proof (rep_lists _ _ _ _ Ha) as La. pose proof (rep_lists _ _ _ _ Hb) as Lb.
  unfold assign. rewrite Lb. cbn [mbind option_bind]. rewrite La. cbn [mbind option_bind].
  eexists; split; [reflexivity|]. simpl bl_last. simpl bl_first. simpl bl_elements.
  match goal with |- context [mk_store _ (<[a := ?A]> _)] => set (la := A) end.
  assert (frame st (mk_store (nodes st) (<[a := la]> (lists st))) [a] []) as Hf.
  { apply frame_intro; [apply not_elem_of_nil|..]; intros l Hl; split_elem;
      unfold load, info_of, last_of, elements_of; simpl; by rewrite ?lookup_insert_ne by done. }
  split; [|split; [|done]].
  - destruct Hb as [Hc Hi Hl He Hnd Hns Hen Hei Hbd].
    assert (bl_last la = end_slot (SFirst a) ms) as Hla.
    { unfold la. by destruct ms. }
    split; try done.
    + eapply linked_restart; [exact Hc| |done]. unfold load at 1. simpl. rewrite lookup_insert_eq.
      simpl. symmetry. by apply linked_head.
    + unfold last_of. simpl. rewrite lookup_insert_eq. simpl. by rewrite <- Hla.
    + unfold elements_of. simpl. by rewrite lookup_insert_eq.
  - apply Hf; [by intros ?%list_elem_of_singleton|set_solver|done].
Qed.

Lemma append_rep st a b ns ms xs ys :
  a <> b -> rep st a ns xs -> rep st b ms ys -> (forall n, n ∈ ns -> n ∉ ms) ->
  (Z.of_nat (length ns + length ms) < 2 ^ 32)%Z ->
  exists st', append a b st = Some st' /\ rep st' a (ns ++ ms) (xs ++ ys) /\ rep st' b ms ys /\
    frame st st' [a] ns.
Proof.
  intros Hab Ha Hb Hdis Hlen. unfold append.
  rewrite (is_empty_rep _ _ _ _ Hb). cbn [mbind option_bind].
  pose proof (rep_length _ _ _ _ Ha) as LA. pose proof (rep_length _ _ _ _ Hb) as LB.
  case_bool_decide as Eys.
  { subst ys. destruct ms; [|done]. rewrite !app_nil_r. exists st. eauto using frame_refl. }
  rewrite (is_empty_rep _ _ _ _ Ha). cbn [mbind option_bind].
  case_bool_decide as Exs.
  { subst xs. destruct ns; [|done].
    destruct (assign_rep st a b [] ms [] ys) as (st' & -> & ? & ? & ?); [done..|]. simpl. eauto. }
  destruct (rep_not_end _ _ _ _ Ha) as [Hena _]. destruct (rep_not_end _ _ _ _ Hb) as [Henb _].
  pose proof Ha as Ha'. pose proof Hb as Hb'.
  destruct Ha as [Hc Hi Hl He Hnd Hns Hen Hei Hbd]. destruct Hb as [Hc2 Hi2 Hl2 He2 Hnd2 Hns2 _ _ _].
  rewrite Hl. cbn [mbind option_bind]. pose proof (linked_head _ _ _ _ Hc2) as Hh2.
  rewrite Hh2. cbn [mbind option_bind].
  run. { erewrite linked_end by done. eauto. }
  obs. rewrite Hl2. cbn [mbind option_bind].
  run. { obs. eauto. }
  obs. rewrite He. cbn [mbind option_bind]. rewrite He2. cbn [mbind option_bind].
  run. { obs. eauto. }
  eexists; split; [reflexivity|].
  assert (forall n, n ∈ ms -> end_slot (SFirst a) ns <> SNext n) as Hout.
  { intros n Hn ?%end_slot_is_next. by apply (Hdis n). }
  assert (ms <> []) as Hms by (intros ->; by destruct ys).
  split; [|split].
  - split; rewrite ?length_app; obs; rewrite ?decide_True by done; try done.
    + apply (linked_concat _ _ _ _ _ (default end_of_list (list.head ms))).
      * eapply (linked_redirect (load st)); [by apply cells_NoDup| |exact Hc]. intros c _. by obs.
      * obs. by rewrite decide_True.
      * destruct ms as [|m ms]; [done|]. destruct Hc2 as [_ Hc2].
        eapply linked_ext; [|exact Hc2]. intros c Hcc. obs. rewrite decide_False; [done|].
        unfold cells in Hcc. rewrite elem_of_cons, list_elem_of_fmap in Hcc.
        destruct Hcc as [->|(k & -> & Hk)]; apply Hout; set_solver.
    + rewrite !fmap_app. f_equal; (eapply infos_ext; [done|]); intros; by obs.
    + f_equal. rewrite end_slot_app. by apply end_slot_nonempty.
    + f_equal. rewrite wrap_small; [lia|split; lia].
    + by apply NoDup_app.
    + by apply Forall_app.
    + rewrite decide_False; [done|]. intros ?%end_slot_is_next. done.
  - eapply rep_frame; [exact Hb'|..].
    + intros c Hcc. obs. rewrite decide_False; [done|]. intros <-. destruct Hcc as [Hcc|Hcc].
      * destruct ns as [|k ns' _] using rev_ind; [apply elem_of_cells_first in Hcc; naive_solver|].
        rewrite end_slot_snoc in Hcc. apply elem_of_cells_next in Hcc as [?|?]; [done|].
        apply (Hdis k); set_solver.
      * by apply end_slot_is_next in Hcc.
    + intros. by obs.
    + obs. by rewrite decide_False.
    + obs. by rewrite decide_False.
  - solve_frame.
Qed.

Lemma prepend_rep st a b ns ms xs ys :
  a <> b -> rep st a ns xs -> rep st b ms ys -> (forall n, n ∈ ns -> n ∉ ms) ->
  (Z.of_nat (length ns + length ms) < 2 ^ 32)%Z ->
  exists st', prepend a b st = Some st' /\ rep st' a (ms ++ ns) (ys ++ xs) /\
    frame st st' [a; b] ms.
Proof.
  intros Hab Ha Hb Hdis Hlen. unfold prepend.
  rewrite (is_empty_rep _ _ _ _ Hb). cbn [mbind option_bind].
  pose proof (rep_length _ _ _ _ Ha) as LA. pose proof (rep_length _ _ _ _ Hb) as LB.
  case_bool_decide as Eys.
  { subst ys. destruct ms; [|done]. simpl. exists st. eauto using frame_refl. }
  rewrite (is_empty_rep _ _ _ _ Ha). cbn [mbind option_bind].
  destruct (rep_not_end _ _ _ _ Ha) as [Hena _]. destruct (rep_not_end _ _ _ _ Hb) as [Henb _].
  destruct Ha as [Hc Hi Hl He Hnd Hns Hen Hei Hbd]. destruct Hb as [Hc2 Hi2 Hl2 He2 Hnd2 Hns2 _ _ _].
  assert (ms <> []) as Hms by (intros ->; by destruct ys).
  rewrite Hl2. cbn [mbind option_bind].
  destruct (maybe_set_last_ok st a (bool_decide (xs = [])) (end_slot (SFirst b) ms)
    (end_slot (SFirst a) (ms ++ ns))) as (st1 & -> & ? & ? & ? & ?).
  { rewrite end_slot_app. case_bool_decide as Exs.
    - subst xs. destruct ns; [|done]. split; [eauto|]. simpl. by apply end_slot_nonempty.
    - rewrite Hl. f_equal. apply end_slot_nonempty. intros ->. by destruct xs. }
  cbn [mbind option_bind]. obs. pose proof (linked_head _ _ _ _ Hc) as Hh.
  pose proof (linked_head _ _ _ _ Hc2) as Hh2.
  rewrite Hh. cbn [mbind option_bind]. obs. rewrite decide_False, Hl2 by done. cbn [mbind option_bind].
  assert (end_slot (SFirst b) ms <> SFirst a) as Hba by (intros [? ?]%end_slot_is_first; done).
  assert (end_slot (SFirst b) ms <> SFirst b) as Hbb by (intros [? ?]%end_slot_is_first; done).
  run. { obs. erewrite linked_end by done. eauto. }
  obs. rewrite decide_False, Hh2 by done. cbn [mbind option_bind].
  run. { obs. rewrite decide_False by done. eauto. }
  obs. rewrite He. cbn [mbind option_bind]. obs. rewrite He2. cbn [mbind option_bind].
  run. { obs. eauto. }
  eexists; split; [reflexivity|]. split.
  - split; rewrite ?length_app; obs; rewrite ?decide_True by done; try done.
    + apply (linked_concat _ _ _ _ _ (default end_of_list (list.head ns))).
      * assert (linked (load st0) (SFirst b) ms (default end_of_list (list.head ns))) as Hb1.
        { eapply (linked_redirect (load st)); [by apply cells_NoDup| |exact Hc2]. intros c _. by obs. }
        eapply linked_restart; [exact Hb1|obs|].
        -- rewrite decide_True by done. rewrite decide_False by done. done.
        -- intros n Hn. obs. by rewrite decide_False.
      * rewrite (end_slot_nonempty _ (SFirst b)) by done. obs.
        rewrite decide_False by done. by rewrite decide_True.
      * destruct ns as [|m ns]; [done|]. destruct Hc as [_ Hc].
        eapply linked_ext; [|exact Hc]. intros c Hcc. obs.
        unfold cells in Hcc. rewrite elem_of_cons, list_elem_of_fmap in Hcc.
        rewrite !decide_False; [done|..]; destruct Hcc as [->|(k & -> & Hk)]; try done;
          intros ?%end_slot_is_next; [apply (Hdis m)|apply (Hdis k)]; set_solver.
    + rewrite !fmap_app. f_equal; (eapply infos_ext; [done|]); intros; by obs.
    + f_equal. rewrite wrap_small; [lia|split; lia].
    + apply NoDup_app. split; [done|]. split; [set_solver|done].
    + by apply Forall_app.
    + rewrite !decide_False; [done|..|done]. intros ?%end_slot_is_next. done.
    + lia.
  - solve_frame.
Qed.

(** ** Reading: [elem], [add_unique] *)

Lemma elem_loop_rep st ns xs s k d :
  linked (load st) s ns end_of_list -> info_of st <$> ns = Some <$> xs -> end_of_list ∉ ns ->
  elem_loop (S k) (default end_of_list (list.head ns)) d st = Some (default NULL (xs !! k)).
Proof.
  revert s ns xs d. induction k as [|k IH]; intros s ns xs d Hc Hi He;
    (destruct ns as [|n ns]; [by destruct xs|]);
    destruct xs as [|x xs]; try done; destruct Hc as [Hf Hc]; simpl in Hi; injection Hi as Hx Hi;
    apply not_elem_of_cons in He as [Hne He]; cbn [elem_loop list.head default from_option id];
    rewrite (proj2 (N.eqb_neq n end_of_list)) by done;
    rewrite Hx, (linked_head _ _ _ _ Hc); cbn [mbind option_bind].
  - done.
  - specialize (IH (SNext n) ns xs x Hc Hi He). exact IH.
Qed.

Lemma elem_rep st l ns xs k : rep st l ns xs -> elem l k st = Some (default NULL (xs !! k)).
Proof.
  intros H. destruct (rep_not_end _ _ _ _ H) as [He _].
  destruct H as [Hc Hi _ _ _ _ _ _ _]. unfold elem. rewrite (linked_head _ _ _ _ Hc).
  cbn [mbind option_bind]. by eapply elem_loop_rep.
Qed.

Lemma add_unique_loop_rep st eq x ns xs s fuel :
  linked (load st) s ns end_of_list -> info_of st <$> ns = Some <$> xs -> end_of_list ∉ ns ->
  (length ns < fuel)%nat ->
  exists n, add_unique_loop fuel eq x (default end_of_list (list.head ns)) st = Some n /\
    (n = end_of_list <-> forall y, y ∈ xs -> eq y x = false).
Proof.
  revert s xs fuel. induction ns as [|m ns IH]; intros s xs fuel Hc Hi He Hf;
    (destruct fuel as [|fuel]; [simpl in Hf; lia|]).
  - destruct xs; [|done]. exists end_of_list. split; [done|]. split; [set_solver|done].
  - destruct xs as [|y xs]; [done|]. destruct Hc as [_ Hc]. simpl in Hi. injection Hi as Hy Hi.
    apply not_elem_of_cons in He as [Hne He]. cbn [add_unique_loop list.head default from_option id].
    rewrite (proj2 (N.eqb_neq m end_of_list)) by done. rewrite Hy. cbn [mbind option_bind].
    destruct (eq y x) eqn:Eq.
    + exists m. split; [done|]. split; [done|]. intros H. rewrite H in Eq; [done|by left].
    + rewrite (linked_head _ _ _ _ Hc). cbn [mbind option_bind].
      destruct (IH (SNext m) xs fuel) as (n & -> & Hn); [done..|simpl in Hf; lia|].
      exists n. split; [done|]. rewrite Hn. set_solver.
Qed.

(** ** [disjoin] *)

Lemma disjoin_loop_ok a post ns2 : forall pre fuel st,
  linked (load st) (SFirst a) (pre ++ post ++ ns2) end_of_list ->
  NoDup (pre ++ post ++ ns2) -> end_of_list ∉ pre ++ post ++ ns2 ->
  elements_of st a = Some (Z.of_nat (length pre)) ->
  (Z.of_nat (length (pre ++ post)) < 2 ^ 32)%Z -> (length post < fuel)%nat ->
  exists r st', disjoin_loop fuel a (default end_of_list (list.head ns2))
      (end_slot (SFirst a) pre) (default end_of_list (list.head (post ++ ns2))) st = Some (r, st') /\
    (r = Some (end_slot (SFirst a) (pre ++ post)) \/ (r = None /\ ns2 = [])) /\
    (forall c, load st' c = load st c) /\ (forall n, info_of st' n = info_of st n) /\
    (forall l, last_of st' l = last_of st l) /\
    (forall l, elements_of st' l = if decide (a = l) then Some (Z.of_nat (length (pre ++ post)))
      else elements_of st l).
Proof.
  induction post as [|n post IH]; intros pre fuel st Hc Hnd Hne He Hb Hf;
    (destruct fuel as [|fuel]; [simpl in Hf; lia|]); cbn [disjoin_loop app].
  - rewrite N.eqb_refl, orb_true_r, app_nil_r. eexists _, st. split; [reflexivity|].
    split; [by left|]. do 3 (split; [done|]). intros l. case_decide; congruence.
  - cbn [list.head default from_option id]. simpl app in *.
    rewrite (proj2 (N.eqb_neq n end_of_list)) by set_solver.
    assert ((n =? default end_of_list (list.head ns2)) = false) as ->.
    { apply N.eqb_neq. destruct ns2 as [|m ns2]; simpl; [set_solver|].
      intros ->. apply NoDup_app in Hnd as (_ & _ & Hnd). apply NoDup_cons in Hnd as [? _]. set_solver. }
    cbn [orb]. pose proof Hc as Hc'. apply linked_app in Hc' as [_ Hc'].
    rewrite (linked_head _ _ _ _ Hc'). cbn [mbind option_bind].
    rewrite He. cbn [mbind option_bind].
    run. { eauto. }
    assert (pre ++ n :: post ++ ns2 = (pre ++ [n]) ++ post ++ ns2) as Eapp by (by rewrite <- app_assoc).
    assert (pre ++ n :: post = (pre ++ [n]) ++ post) as Eapp2 by (by rewrite <- app_assoc).
    assert (elements_of st0 a = Some (Z.of_nat (length (pre ++ [n])))) as He0.
    { obs. rewrite decide_True by done. f_equal. rewrite length_app in *. simpl in *.
      rewrite wrap_small; [lia|split; lia]. }
    destruct (N.eqb_spec (default end_of_list (list.head (post ++ ns2))) end_of_list) as [Hend|Hend].
    + assert (post ++ ns2 = []) as Hnil.
      { destruct (post ++ ns2) as [|k ks] eqn:Ek; [done|]. simpl in Hend. subst k. set_solver. }
      apply app_eq_nil in Hnil as [-> ->]. eexists _, st0. split; [reflexivity|]. split; [by right|].
      do 3 (split; [done|]). intros l. obs. case_decide; [|done]. rewrite <- He0. obs.
      by rewrite decide_True.
    + destruct (IH (pre ++ [n]) fuel st0) as (r & st' & Hrun & Hr & ? & ? & ? & ?).
      * rewrite <- Eapp. eapply linked_ext; [|done]. intros. by obs.
      * by rewrite <- Eapp.
      * by rewrite <- Eapp.
      * done.
      * by rewrite <- Eapp2.
      * simpl in Hf. lia.
      * rewrite end_slot_snoc in Hrun. exists r, st'. split; [done|].
        rewrite Eapp2. split; [done|]. split; [intros; by obs|]. split; [intros; by obs|].
        split; [intros; by obs|]. intros l. obs. by case_decide.
Qed.

Lemma disjoin_rep st a b ns1 ns2 xs1 xs2 fuel :
  rep st a (ns1 ++ ns2) (xs1 ++ xs2) -> length ns1 = length xs1 ->
  load st (SFirst b) = Some (default end_of_list (list.head ns2)) -> (length ns1 < fuel)%nat ->
  exists st', disjoin fuel a b st = Some st' /\ rep st' a ns1 xs1 /\ frame st st' [a] ns1.
Proof.
  intros Hrep Hlen Hlf Hf. destruct (rep_not_end _ _ _ _ Hrep) as [Hend Hnul].
  destruct Hrep as [Hc Hi Hl He Hnd Hns Hen Hei Hb].
  unfold disjoin. rewrite (linked_head _ _ _ _ Hc), Hlf. cbn [mbind option_bind].
  run. { eauto. }
  rewrite length_app in Hb.
  destruct (disjoin_loop_ok a ns1 ns2 [] fuel st0) as (r & st1 & Hrun & Hr & ? & ? & ? & ?); simpl; try done.
  { eapply linked_ext; [|done]. intros. by obs. }
  { obs. by rewrite decide_True. }
  { lia. }
  simpl in Hrun, Hr. rewrite Hrun. cbn [mbind option_bind].
  apply infos_app in Hi as [Hi1 Hi2]; [|done]. apply Forall_app in Hns as [Hns1 _].
  pose proof Hnd as Hnd0. apply NoDup_app in Hnd as (Hnd1 & Hdis & _).
  destruct Hr as [->|[-> ->]].
  - run. { obs. destruct ns2 as [|m ns2]; [rewrite app_nil_r in Hc; erewrite linked_end by done; eauto|].
      apply linked_app in Hc as [Hc _]. erewrite linked_end by done. eauto. }
    destruct (set_last_ok st2 a (end_slot (SFirst a) ns1)) as (st3 & -> & ? & ? & ? & ?); [obs; eauto|].
    eexists; split; [reflexivity|]. split.
    + split; simpl in *; obs; rewrite ?decide_True by done; try done.
      * assert (exists q, linked (load st) (SFirst a) ns1 q) as [q Hq].
        { destruct ns2; [rewrite app_nil_r in Hc; eauto|apply linked_app in Hc as [? _]; eauto]. }
        eapply (linked_redirect (load st)); [by apply cells_NoDup| |exact Hq]. intros c _. by obs.
      * eapply infos_ext; [done|]. intros; by obs.
      * rewrite decide_False; [done|]. intros ?%end_slot_is_next. set_solver.
      * lia.
    + solve_frame; set_solver.
  - rewrite !app_nil_r in *. eexists; split; [reflexivity|]. split.
    + split; simpl in *; obs; rewrite ?decide_True by done; try done.
      * eapply linked_ext; [|done]. intros; by obs.
      * eapply infos_ext; [done|]. intros; by obs.
      * lia.
    + solve_frame.
Qed.

(** ** [after] *)

Lemma after_rep st l ns1 n ns2 xs1 x xs2 y p :
  rep st l (ns1 ++ n :: ns2) (xs1 ++ x :: xs2) -> length ns1 = length xs1 ->
  nodes st !! p = None -> p <> NULL -> (Z.of_nat (length (ns1 ++ n :: ns2)) + 1 < 2 ^ 32)%Z ->
  exists st', after l y n p st = Some st' /\
    rep st' l (ns1 ++ n :: p :: ns2) (xs1 ++ x :: y :: xs2) /\ frame st st' [l] [p; n].
Proof.
  intros Hrep Hlen Hp Hnull Hlen2.
  destruct (rep_fresh _ _ _ _ _ Hrep Hp) as [Hpn Hpe].
  destruct (rep_not_end _ _ _ _ Hrep) as [Hend Hnul].
  destruct Hrep as [Hc Hi Hl He Hnd Hns Hen Hei Hb].
  apply infos_app in Hi as [Hi1 Hi2]; [|done]. simpl in Hi2. injection Hi2 as Hx Hi2.
  apply linked_app in Hc as [Hc1 Hc2]. pose proof (linked_head _ _ _ _ Hc2) as Hnx.
  unfold after. rewrite Hnx. cbn [mbind option_bind].
  destruct (new_node_ok st p y (default end_of_list (list.head ns2)) Hnull) as (L1 & I1 & T1 & E1).
  set (st1 := new_node st p y _) in *.
  assert (n <> p) as Hnp by set_solver.
  run. { obs. rewrite decide_False by naive_solver. eauto. }
  obs. rewrite He. cbn [mbind option_bind].
  run. { obs. eauto. }
  obs. rewrite Hl. cbn [mbind option_bind].
  assert (n ∉ ns1 /\ n ∉ ns2) as [Hn1 Hn2].
  { apply NoDup_app in Hnd as (_ & Hd & Hnd). apply NoDup_cons in Hnd as [? _]. set_solver. }
  destruct (maybe_set_last_ok st2 l (bool_decide (end_slot (SFirst l) (ns1 ++ n :: ns2) = SNext n))
    (SNext p) (end_slot (SFirst l) (ns1 ++ n :: p :: ns2))) as (st3 & -> & ? & ? & ? & ?).
  { obs. rewrite Hl, !end_slot_app. simpl. case_bool_decide as Hd.
    - destruct ns2 as [|m ns2 _] using rev_ind; [eauto|].
      rewrite end_slot_snoc in Hd. injection Hd as ->. set_solver.
    - f_equal. apply end_slot_nonempty. by intros ->. }
  eexists; split; [reflexivity|]. split.
  - split; rewrite ?length_app; simpl; obs; rewrite ?decide_True by done; try done.
    + apply linked_app. split.
      * eapply linked_ext; [|exact Hc1]. intros c Hcc. obs.
        rewrite !decide_False; [done|..]; intros <-; apply elem_of_cells_next in Hcc as [?|?];
          set_solver.
      * split; [obs; by rewrite decide_True|]. eapply linked_restart; [exact Hc2|obs|].
        -- rewrite decide_False by naive_solver. by rewrite decide_True.
        -- intros m Hm. obs. rewrite !decide_False; [done|..]; intros [= ->]; set_solver.
    + rewrite !fmap_app. f_equal.
      { eapply infos_ext; [done|]. intros m Hm. obs. rewrite decide_False; [done|set_solver]. }
      simpl. obs. rewrite decide_False, decide_True by done. rewrite Hx. do 2 f_equal.
      eapply infos_ext; [done|]. intros m Hm. obs. rewrite decide_False; [done|set_solver].
    + f_equal. rewrite length_app in *. simpl in *. rewrite wrap_small; [lia|split; lia].
    + apply NoDup_app in Hnd as (? & Hd & Hnd2). apply NoDup_cons in Hnd2 as [? ?].
      apply NoDup_app. split; [done|]. split; [set_solver|].
      apply NoDup_cons. split; [set_solver|]. apply NoDup_cons. split; [set_solver|done].
    + apply Forall_app in Hns as [? Hns2]. apply Forall_cons in Hns2 as [? ?].
      apply Forall_app. split; [done|]. by repeat apply Forall_cons_2.
    + rewrite !decide_False; [done|naive_solver|set_solver].
    + rewrite decide_False; [done|naive_solver].
    + rewrite length_app in *. simpl in *. lia.
  - solve_frame; set_solver.
Qed.

End BaseList.
