(* ===== verification/SqlListSort.v ===== *)
(** * Iteration and sorting over the lists of sql_list.h

    Correctness of [base_list_iterator], of [bubble_sort] and of
    [list_copy_and_replace_each_value], on the model of SqlList. *)

From Stdlib Require Import ZArith Lia.
From stdpp Require Import prelude gmap sorting.
From S2P Require Import Prelude Links SqlList.
Local Open Scope N_scope.

Module ListSort.
Import BaseList.

(** ** The iterator

    [at_pos st l ns k it]: the iterator has returned the first [k] nodes. *)
Record at_pos (l : N) (ns : list N) (k : nat) (it : iterator) : Prop := mk_at {
  at_list : it_list it = l;
  at_el : it_el it = Some (end_slot (SFirst l) (take k ns));
  at_prev : k <> O -> it_prev it = Some (end_slot (SFirst l) (take (pred k) ns));
  at_current : k <> O -> ns !! pred k = Some (it_current it) }.

Lemma it_init_pos l ns : at_pos l ns 0 (it_init l).
Proof. by split. Qed.

Lemma linked_take ld l ns k n :
  linked ld (SFirst l) ns end_of_list -> ns !! k = Some n ->
  ld (end_slot (SFirst l) (take k ns)) = Some n.
Proof.
  intros Hc Hn. rewrite <- (take_drop_middle ns k n Hn) in Hc.
  apply linked_app in Hc as [Hc _]. by apply linked_end in Hc.
Qed.

Lemma info_lookup st (ns xs : list N) k n :
  info_of st <$> ns = Some <$> xs -> ns !! k = Some n ->
  exists x, xs !! k = Some x /\ info_of st n = Some x.
Proof.
  intros H Hn. apply (f_equal (lookup k)) in H. rewrite !list_lookup_fmap, Hn in H. simpl in H.
  destruct (xs !! k) as [x|]; [|done]. simpl in H. injection H as H. eauto.
Qed.

Lemma it_next_rep st l ns xs k n it :
  rep st l ns xs -> at_pos l ns k it -> ns !! k = Some n ->
  exists x it', xs !! k = Some x /\ it_next it st = Some (x, it') /\ at_pos l ns (S k) it'.
Proof.
  intros [Hc Hi _ _ _ _ _ _ _] [Hl Hel _ _] Hn.
  destruct (info_lookup _ _ _ _ _ Hi Hn) as (x & Hx & Hinfo).
  unfold it_next. rewrite Hel. cbn [mbind option_bind]. rewrite (linked_take _ _ _ _ _ Hc Hn).
  cbn [mbind option_bind]. rewrite Hinfo. cbn [mbind option_bind].
  eexists x, _. split; [done|]. split; [reflexivity|]. split; simpl; try done.
  by rewrite (take_S_r _ _ _ Hn), end_slot_snoc.
Qed.

(** Past the last node the iterator returns null and stays at the end. *)
Lemma it_next_end st l ns xs it el :
  rep st l ns xs -> it_el it = Some el -> load st el = Some end_of_list ->
  exists it', it_next it st = Some (NULL, it') /\ it_el it' = Some (SNext end_of_list) /\
    it_list it' = it_list it.
Proof.
  intros [_ _ _ _ _ _ Hen Hei _] Hel Hld. unfold it_next. rewrite Hel. cbn [mbind option_bind].
  rewrite Hld. cbn [mbind option_bind]. rewrite Hei. eauto.
Qed.

(** The loop [while ((item= it++)) ...]: the elements it sees. *)
Fixpoint iterate (fuel : nat) (it : iterator) (st : store) : option (list N) :=
  match fuel with
  | O => None
  | S fuel =>
      '(item, it) ← it_next it st;
      if item =? NULL then Some []
      else rest ← iterate fuel it st; Some (item :: rest)
  end.

Lemma iterate_from st l ns xs k fuel it :
  rep st l ns xs -> NULL ∉ xs -> at_pos l ns k it -> (length ns - k < fuel)%nat ->
  (k <= length ns)%nat -> iterate fuel it st = Some (drop k xs).
Proof.
  intros Hrep Hnull. revert k it. induction fuel as [|fuel IH]; intros k it Hat Hf Hk; [lia|].
  pose proof (rep_length _ _ _ _ Hrep) as Hlen. cbn [iterate].
  destruct (decide (k = length ns)) as [->|Hne].
  - destruct (it_next_end st l ns xs it (end_slot (SFirst l) (take (length ns) ns)))
      as (it' & -> & _); [done|apply Hat| |].
    + rewrite firstn_all. apply linked_end, Hrep.
    + simpl. rewrite Hlen, drop_all. done.
  - destruct (lookup_lt_is_Some_2 ns k) as [n Hn]; [lia|].
    destruct (it_next_rep _ _ _ _ _ _ _ Hrep Hat Hn) as (x & it' & Hx & -> & Hat').
    cbn [mbind option_bind]. rewrite (proj2 (N.eqb_neq x NULL)).
    + rewrite (IH (S k) it') by (done || lia). cbn [mbind option_bind].
      by rewrite (drop_S _ _ _ Hx).
    + intros ->. apply Hnull. by eapply list_elem_of_lookup_2.
Qed.

(** ** [bubble_sort] on abstract lists *)

Section bubble.
Context (cmp : N -> N -> Z).

Definition le (a b : N) : Prop := (cmp a b <= 0)%Z.

(** One pass carrying [x] along [ys]; the flag tells whether it exchanged. *)
Fixpoint bpass (x : N) (ys : list N) : list N * bool :=
  match ys with
  | [] => ([x], false)
  | y :: ys =>
      if (0 <? cmp x y)%Z then (y :: (bpass x ys).1, true)
      else (x :: (bpass y ys).1, (bpass y ys).2)
  end.

Lemma bpass_perm x ys : (bpass x ys).1 ≡ₚ x :: ys.
Proof.
  revert x. induction ys as [|y ys IH]; intros x; simpl; [done|].
  destruct (0 <? cmp x y)%Z; simpl; rewrite IH; [apply Permutation_swap|done].
Qed.

Lemma bpass_length x ys : length (bpass x ys).1 = S (length ys).
Proof. by rewrite (Permutation_length (bpass_perm x ys)). Qed.

Context (le_trans : forall a b c, le a b -> le b c -> le a c)
        (le_total : forall a b, (0 < cmp a b)%Z -> le b a).

(** The pass carries the largest element to the end. *)
Lemma bpass_max x ys : exists zs m,
  (bpass x ys).1 = zs ++ [m] /\ Forall (fun z => le z m) zs /\ (m = x \/ le x m).
Proof using le_trans le_total.
  revert x. induction ys as [|y ys IH]; intros x; simpl.
  - exists [], x. split; [done|]. split; [constructor|by left].
  - destruct (Z.ltb_spec 0 (cmp x y)) as [Hc|Hc]; simpl.
    + destruct (IH x) as (zs & m & -> & Hz & Hm). exists (y :: zs), m.
      split; [done|]. split; [|done]. constructor; [|done].
      destruct Hm as [->|Hm]; [by apply le_total|]. eapply le_trans; [by apply le_total|done].
    + destruct (IH y) as (zs & m & -> & Hz & Hm). exists (x :: zs), m.
      assert (le x m) by (destruct Hm as [->|Hm]; [done|eapply le_trans; [exact Hc|done]]).
      split; [done|]. split; [by constructor|by right].
Qed.

(** A pass without exchange leaves a sorted list as it was. *)
Lemma bpass_sorted x ys :
  (bpass x ys).2 = false -> (bpass x ys).1 = x :: ys /\ Sorted le (x :: ys).
Proof.
  revert x. induction ys as [|y ys IH]; intros x; simpl; [intros _; by repeat constructor|].
  destruct (Z.ltb_spec 0 (cmp x y)) as [Hc|Hc]; simpl; [done|].
  intros Hf. destruct (IH y Hf) as [-> Hs]. split; [done|]. constructor; [done|by constructor].
Qed.
End bubble.

(** ** [bubble_sort] on the store *)

(** The part of the store a pass may change: the elements of [D]. *)
Definition same_links (st st' : store) (D : list N) : Prop :=
  (forall c, load st' c = load st c) /\ (forall l, last_of st' l = last_of st l) /\
  (forall l, elements_of st' l = elements_of st l) /\
  (forall n, n ∉ D -> info_of st' n = info_of st n).

Lemma same_links_trans st1 st2 st3 D : same_links st1 st2 D -> same_links st2 st3 D -> same_links st1 st3 D.
Proof.
  intros (H1 & H2 & H3 & H4) (K1 & K2 & K3 & K4).
  repeat split; intros; rewrite ?K1, ?K2, ?K3, ?K4 by done; auto.
Qed.

Lemma same_links_mono st1 st2 D D' : D ⊆ D' -> same_links st1 st2 D -> same_links st1 st2 D'.
Proof. intros Hs (?&?&?&?). repeat split; auto. Qed.

Lemma rep_same_links st st' l ns xs ys D :
  rep st l ns xs -> same_links st st' D -> end_of_list ∉ D ->
  info_of st' <$> ns = Some <$> ys -> rep st' l ns ys.
Proof.
  intros [Hc Hi Hl He Hnd Hns Hen Hei Hb] (H1 & H2 & H3 & H4) HD Hy.
  split; rewrite ?H1, ?H2, ?H3, ?H4 by done; try done.
  eapply linked_ext; [|done]. intros; apply H1.
Qed.

Section bubble_store.
Context (cmp : N -> N -> Z).

Lemma bubble_pass_ok (nb : list N) : forall post ys st it r x sw fuel,
  linked (load st) (SNext r) (post ++ nb) end_of_list ->
  load st (SNext end_of_list) = Some end_of_list -> info_of st end_of_list = Some NULL ->
  it_el it = Some (SNext r) -> info_of st r = Some x ->
  info_of st <$> post = Some <$> ys -> NULL ∉ ys ->
  (forall m, list.head nb = Some m -> exists z, info_of st m = Some z /\ z <> NULL) ->
  NoDup (r :: post ++ nb) -> end_of_list ∉ r :: post ++ nb -> (length post < fuel)%nat ->
  exists it' st',
    bubble_pass fuel cmp it x (Some r) (list.head nb) sw st =
      Some (it', list.last (r :: post), sw || (bpass cmp x ys).2, st') /\
    it_list it' = it_list it /\
    info_of st' <$> (r :: post) = Some <$> (bpass cmp x ys).1 /\
    same_links st st' (r :: post).
Proof.
  induction post as [|p post IH]; intros ys st it r x sw fuel Hc Hen Hei Hel Hr Hi Hnull Hnb Hnd Hend Hf;
    (destruct fuel as [|fuel]; [simpl in Hf; lia|]); cbn [bubble_pass];
    unfold it_next; rewrite Hel; cbn [mbind option_bind];
    rewrite (linked_head _ _ _ _ Hc); cbn [mbind option_bind].
  - destruct ys; [|done]. destruct nb as [|m nb]; cbn [app list.head default from_option id].
    + rewrite Hei. cbn [mbind option_bind]. simpl N.eqb. eexists _, st. split; [simpl; by rewrite orb_false_r|].
      split; [done|]. split; [simpl; by rewrite Hr|]. by repeat split.
    + destruct (Hnb m eq_refl) as (z & Hz & Hzn). rewrite Hz. cbn [mbind option_bind].
      rewrite (proj2 (N.eqb_neq z NULL)) by done. unfold it_ref. simpl it_current.
      rewrite decide_True by done. eexists _, st. split; [simpl; by rewrite orb_false_r|].
      split; [done|]. split; [simpl; by rewrite Hr|]. by repeat split.
  - destruct ys as [|y ys]; [done|]. simpl in Hi. injection Hi as Hp Hi.
    apply not_elem_of_cons in Hnull as [Hyn Hnull].
    cbn [app list.head default from_option id]. rewrite Hp. cbn [mbind option_bind].
    rewrite (proj2 (N.eqb_neq y NULL)) by done. unfold it_ref. simpl it_current.
    simpl app in *. destruct Hc as [_ Hc].
    apply NoDup_cons in Hnd as [Hrn Hnd]. pose proof Hnd as Hnd'. apply NoDup_cons in Hnd' as [Hpn _].
    assert (r <> p /\ p ∉ post /\ r ∉ post) as (Hrp & Hpp & Hrpo) by set_solver.
    rewrite decide_False by (intros E; destruct nb; simplify_eq/=; set_solver).
    set (it1 := mk_iter _ _ _ _).
    cbn [bpass]. destruct (0 <? cmp x y)%Z.
    + destruct (set_info_ok st r y) as (st1 & -> & L1 & I1 & T1 & E1); [eauto|]. cbn [mbind option_bind].
      destruct (set_info_ok st1 p x) as (st2 & -> & L2 & I2 & T2 & E2).
      { rewrite I1, decide_False by done. eauto. }
      cbn [mbind option_bind].
      assert (forall n, n <> r -> n <> p -> info_of st2 n = info_of st n) as Iout.
      { intros n ??. rewrite I2, I1, !decide_False by done. done. }
      destruct (IH ys st2 it1 p x true fuel) as (it' & st' & Hrun & Hl' & Hi' & Hs').
      * eapply linked_ext; [|exact Hc]. intros. by rewrite L2, L1.
      * by rewrite L2, L1.
      * rewrite Iout; [done|set_solver..].
      * done.
      * rewrite I2. by rewrite decide_True.
      * eapply infos_ext; [exact Hi|]. intros n Hn. apply Iout; intros ->; done.
      * done.
      * intros m Hm. destruct (Hnb m Hm) as (z & Hz & ?). exists z. split; [|done].
        destruct nb; simplify_eq/=. rewrite Iout; set_solver.
      * done.
      * set_solver.
      * simpl in Hf. lia.
      * exists it', st'. simpl. rewrite Hrun. rewrite orb_true_r. split; [done|]. split; [done|].
        destruct Hs' as (Hs1 & Hs2 & Hs3 & Hs4). split.
        -- simpl. simpl in Hi'. rewrite Hi'. f_equal. rewrite Hs4 by set_solver.
           rewrite I2, I1, decide_False, decide_True by done. done.
        -- repeat split; intros; rewrite ?Hs1, ?Hs2, ?Hs3, ?Hs4, ?L2, ?L1, ?T2, ?T1, ?E2, ?E1 by set_solver;
             try done. apply Iout; set_solver.
    + destruct (IH ys st it1 p y sw fuel) as (it' & st' & Hrun & Hl' & Hi' & Hs'); try done.
      { set_solver. }
      { simpl in Hf. lia. }
      exists it', st'. simpl. rewrite Hrun. split; [done|]. split; [done|].
      split.
      * simpl in Hi' |- *. rewrite Hi'. f_equal. destruct Hs' as (_ & _ & _ & Hs4).
        rewrite Hs4 by set_solver. done.
      * eapply same_links_mono; [|done]. set_solver.
Qed.

Context (le_trans : forall a b c, le cmp a b -> le cmp b c -> le cmp a c)
        (le_total : forall a b, (0 < cmp a b)%Z -> le cmp b a).

(** One round on [n :: post], the unsorted part of the list. *)
Lemma bubble_round_ok st l n post nb x ys b fuel it :
  rep st l (n :: post ++ nb) (x :: ys ++ b) -> length post = length ys -> NULL ∉ x :: ys ++ b ->
  it_el it = Some (SFirst l) -> it_list it = l -> (length post < fuel)%nat ->
  exists it1 it' st',
    it_next it st = Some (x, it1) /\ it_ref it1 = n /\
    bubble_pass fuel cmp it1 x (Some n) (list.head nb) false st =
      Some (it', list.last (n :: post), (bpass cmp x ys).2, st') /\
    it_list it' = l /\ rep st' l (n :: post ++ nb) ((bpass cmp x ys).1 ++ b) /\
    same_links st st' (n :: post).
Proof.
  intros Hrep Hlen Hnull Hel Hl Hf. destruct (rep_not_end _ _ _ _ Hrep) as [Hend _].
  pose proof Hrep as [Hc Hi _ _ Hnd _ Hen Hei _].
  destruct Hc as [Hf0 Hc]. simpl in Hi. injection Hi as Hx Hi.
  apply infos_app in Hi as [Hiy Hib]; [|done].
  set (it1 := mk_iter (it_list it) (Some (SNext n)) (Some (SFirst l)) n).
  destruct (bubble_pass_ok nb post ys st it1 n x false fuel) as (it' & st' & Hrun & Hl' & Hi' & Hs);
    try done.
  { set_solver. }
  { intros m Hm. destruct nb as [|m' nb]; simplify_eq/=. destruct b as [|z b]; [done|].
    simpl in Hib. injection Hib as Hz _. exists z. split; [done|]. set_solver. }
  exists it1, it', st'. split; [unfold it_next; rewrite Hel; simpl; rewrite Hf0; simpl; by rewrite Hx|].
  split; [done|]. split; [exact Hrun|]. split; [by rewrite Hl'|]. split; [|done].
  eapply rep_same_links; [exact Hrep|exact Hs|set_solver|].
  change (n :: post ++ nb) with ((n :: post) ++ nb). rewrite !fmap_app. f_equal; [done|].
  destruct Hs as (_ & _ & _ & Hs). eapply infos_ext; [exact Hib|]. intros k Hk. apply Hs.
  intros Hk'. change (n :: post ++ nb) with ((n :: post) ++ nb) in Hnd.
  apply NoDup_app in Hnd as (_ & Hd & _). by apply (Hd k).
Qed.

Lemma bubble_rounds_ok l fuel : forall rounds na nb a b st it,
  rep st l (na ++ nb) (a ++ b) -> length na = length a -> na <> [] -> NULL ∉ a ++ b ->
  StronglySorted (le cmp) b -> (forall x y, x ∈ a -> y ∈ b -> le cmp x y) ->
  it_el it = Some (SFirst l) -> it_list it = l ->
  (length na <= rounds)%nat -> (length na <= fuel)%nat ->
  exists st' ys, bubble_rounds rounds fuel cmp it (list.head nb) st = Some st' /\
    rep st' l (na ++ nb) ys /\ ys ≡ₚ a ++ b /\ StronglySorted (le cmp) ys /\
    same_links st st' (na ++ nb).
Proof using le_trans le_total.
  induction rounds as [|rounds IH]; intros na nb a b st it Hrep Hlen Hne Hnull Hsb Hab Hel Hl Hr Hf.
  { destruct na; [done|simpl in Hr; lia]. }
  destruct na as [|n post]; [done|]. destruct a as [|x ys]; [done|]. simpl in Hlen.
  destruct (bubble_round_ok st l n post nb x ys b fuel it) as
    (it1 & it' & st' & Hnx & Href & Hrun & Hl' & Hrep' & Hs); [done|lia|done..|simpl in Hf; lia|].
  cbn [bubble_rounds]. rewrite Hnx. cbn [mbind option_bind]. rewrite Href, Hrun.
  cbn [mbind option_bind].
  pose proof (bpass_perm cmp x ys) as Hperm.
  assert (same_links st st' ((n :: post) ++ nb)) as Hs' by (eapply same_links_mono; [|done]; set_solver).
  destruct ((bpass cmp x ys).2) eqn:Esw.
  - destruct (bpass_max cmp le_trans le_total x ys) as (zs & m & Ezs & Hzs & _).
    pose proof (bpass_length cmp x ys) as Hbl. rewrite Ezs, length_app in Hbl. simpl in Hbl.
    destruct (exists_last (l := n :: post)) as (na' & k & Ena); [done|].
    assert (length na' = length zs) as Hlz.
    { apply (f_equal length) in Ena. rewrite length_app in Ena. simpl in Ena. lia. }
    rewrite Ena, last_snoc. rewrite Ezs in Hrep', Hperm.
    change (n :: post ++ nb) with ((n :: post) ++ nb) in Hrep'.
    rewrite Ena, <- !app_assoc in Hrep'. simpl in Hrep'.
    destruct (IH na' (k :: nb) zs (m :: b) st' (it_rewind it')) as (st2 & us & Hrun2 & Hrep2 & Hp2 & Hs2 & Hsl2).
    + done.
    + done.
    + intros ->. destruct zs; [|done]. destruct ys; [by simpl in Esw|]. simpl in Hbl. lia.
    + assert (zs ++ m :: b ≡ₚ (x :: ys) ++ b) as -> by (rewrite <- Hperm, <- app_assoc; done). done.
    + constructor; [done|]. apply Forall_forall. intros y Hy. apply Hab; [|done].
      rewrite <- Hperm. set_solver.
    + intros u v Hu [->|Hv]%elem_of_cons; [rewrite Forall_forall in Hzs; auto|].
      apply Hab; [|done]. rewrite <- Hperm. set_solver.
    + unfold it_rewind. simpl. by rewrite Hl'.
    + done.
    + rewrite <- Hlz in *. simpl in Hr. lia.
    + simpl in Hf. lia.
    + exists st2, us. split; [done|]. rewrite <- app_assoc. split; [done|].
      split; [rewrite Hp2; rewrite <- Hperm, <- app_assoc; done|]. split; [done|].
      eapply same_links_trans; [|exact Hsl2]. by rewrite Ena, <- app_assoc in Hs'.
  - destruct (bpass_sorted cmp x ys Esw) as [Eb Hsort]. rewrite Eb in Hrep'.
    exists st', ((x :: ys) ++ b). split; [done|]. split; [done|]. split; [done|]. split; [|done].
    apply StronglySorted_app_2; [done| |done]. apply Sorted_StronglySorted; [|done].
    intros u v w. apply le_trans.
Qed.
End bubble_store.

(** ** Commands on one list

    The interface of a list as its clients use it: a sequence of operations,
    each with the address the allocator returns where it allocates.  Removal,
    insertion and replacement go through an iterator advanced to the element. *)

Inductive cmd :=
  | CPushBack (x p : N)
  | CPushFront (x p : N)
  | CPop
  | CRemove (i : nat)
  | CAfter (i : nat) (x p : N)
  | CReplace (i : nat) (x : N).

Fixpoint advance (k : nat) (it : iterator) (st : store) : option iterator :=
  match k with
  | O => Some it
  | S k => it' ← it_next it st; advance k it'.2 st
  end.

(** What a method returns: nothing, a [bool], or a pointer to an element. *)
Inductive ret := RVoid | RBool (b : bool) | RPtr (x : N).

Definition exec (l : N) (c : cmd) (st : store) : option (ret * store) :=
  match c with
  | CPushBack x p => r ← push_back l x p st; Some (RBool r.1, r.2)
  | CPushFront x p => r ← push_front l x p st; Some (RBool r.1, r.2)
  | CPop => r ← pop l st; Some (RPtr r.1, r.2)
  | CRemove i => it ← advance (S i) (it_init l) st; r ← it_remove it st; Some (RVoid, r.2)
  | CAfter i x p => it ← advance (S i) (it_init l) st; r ← it_after it x p st; Some (RVoid, r.2)
  | CReplace i x => it ← advance (S i) (it_init l) st; r ← it_replace it x st; Some (RPtr r.1, r.2)
  end.

(** The same commands on a sequence of elements. *)
Definition aexec (c : cmd) (xs : list N) : ret * list N :=
  match c with
  | CPushBack x _ => (RBool false, xs ++ [x])
  | CPushFront x p => if p =? NULL then (RBool true, xs) else (RBool false, x :: xs)
  | CPop => match xs with [] => (RPtr NULL, []) | x :: xs => (RPtr x, xs) end
  | CRemove i => (RVoid, take i xs ++ drop (S i) xs)
  | CAfter i x _ => (RVoid, take (S i) xs ++ x :: drop (S i) xs)
  | CReplace i x => (RPtr (default NULL (xs !! i)), <[i := x]> xs)
  end.

(** When a command may be issued: positions are in range, allocated addresses
    are fresh, the element counter does not overflow, and the element to replace
    is not null.  Only [push_front] may run out of memory: [push_back] and
    [after] store the null pointer into the list before they look at it. *)
Definition allowed (st : store) (xs : list N) (c : cmd) : Prop :=
  match c with
  | CPushBack _ p =>
      nodes st !! p = None /\ p <> NULL /\ (Z.of_nat (length xs) + 1 < 2 ^ 32)%Z
  | CPushFront _ p => p = NULL \/
      (nodes st !! p = None /\ p <> NULL /\ (Z.of_nat (length xs) + 1 < 2 ^ 32)%Z)
  | CPop => True
  | CRemove i => (i < length xs)%nat
  | CReplace i _ => (i < length xs)%nat /\ xs !! i <> Some NULL
  | CAfter i _ p => (i < length xs)%nat /\ nodes st !! p = None /\ p <> NULL /\
      (Z.of_nat (length xs) + 1 < 2 ^ 32)%Z
  end.

Lemma advance_rep st l ns xs k j it :
  rep st l ns xs -> at_pos l ns j it -> (j + k <= length ns)%nat ->
  exists it', advance k it st = Some it' /\ at_pos l ns (j + k) it'.
Proof.
  intros Hrep. revert j it. induction k as [|k IH]; intros j it Hat Hk; simpl.
  - rewrite Nat.add_0_r. eauto.
  - destruct (lookup_lt_is_Some_2 ns j) as [n Hn]; [lia|].
    destruct (it_next_rep _ _ _ _ _ _ _ Hrep Hat Hn) as (x & it' & _ & -> & Hat').
    simpl. destruct (IH (S j) it' Hat') as (it2 & -> & ?); [lia|].
    exists it2. split; [done|]. by rewrite Nat.add_succ_r.
Qed.

(** An iterator on element [i] splits the list there. *)
Lemma at_elem st l ns xs i :
  rep st l ns xs -> (i < length xs)%nat ->
  exists it ns1 n ns2 xs1 x xs2,
    advance (S i) (it_init l) st = Some it /\ it_list it = l /\ it_current it = n /\
    it_prev it = Some (end_slot (SFirst l) ns1) /\
    ns = ns1 ++ n :: ns2 /\ xs = xs1 ++ x :: xs2 /\ length ns1 = length xs1 /\ length xs1 = i.
Proof.
  intros Hrep Hi. pose proof (rep_length _ _ _ _ Hrep) as Hlen.
  destruct (advance_rep st l ns xs (S i) 0 (it_init l) Hrep (it_init_pos l ns)) as (it & Hadv & Hat);
    [lia|]. destruct Hat as [Hl _ Hprev Hcur]. simpl in *.
  specialize (Hprev ltac:(done)). specialize (Hcur ltac:(done)).
  destruct (lookup_lt_is_Some_2 xs i Hi) as [x Hx].
  exists it, (take i ns), (it_current it), (drop (S i) ns), (take i xs), x, (drop (S i) xs).
  split_and!; try done.
  - by rewrite take_drop_middle.
  - by rewrite take_drop_middle.
  - rewrite !length_take. lia.
  - rewrite length_take. lia.
Qed.

Lemma it_replace_rep st l ns1 n ns2 xs1 x xs2 y it :
  rep st l (ns1 ++ n :: ns2) (xs1 ++ x :: xs2) -> length ns1 = length xs1 -> it_current it = n -> x <> NULL ->
  exists st', it_replace it y st = Some (x, st') /\
    rep st' l (ns1 ++ n :: ns2) (xs1 ++ y :: xs2) /\ same_links st st' [n].
Proof.
  intros Hrep Hlen Hcur Hnull. destruct (rep_not_end _ _ _ _ Hrep) as [Hend _].
  pose proof Hrep as [_ Hi _ _ Hnd _ _ _ _].
  apply infos_app in Hi as [Hi1 Hi2]; [|done]. simpl in Hi2. injection Hi2 as Hx Hi2.
  unfold it_replace. rewrite Hcur, Hx. cbn [mbind option_bind]. rewrite (proj2 (N.eqb_neq x NULL) Hnull).
  destruct (set_info_ok st n y) as (st' & -> & L & I & T & E); [eauto|]. cbn [mbind option_bind].
  assert (same_links st st' [n]) as Hs.
  { repeat split; auto. intros m Hm. rewrite I, decide_False; [done|set_solver]. }
  exists st'. split; [done|]. split; [|done].
  apply NoDup_app in Hnd as (_ & Hd & Hnd). apply NoDup_cons in Hnd as [Hn2 _].
  eapply rep_same_links; [exact Hrep|exact Hs|set_solver|].
  rewrite !fmap_app. simpl. f_equal; [|f_equal].
  - eapply infos_ext; [exact Hi1|]. intros m Hm. rewrite I, decide_False; [done|].
    intros ->. apply (Hd m); [done|by left].
  - by rewrite I, decide_True.
  - eapply infos_ext; [exact Hi2|]. intros m Hm. rewrite I, decide_False; [done|]. by intros ->.
Qed.

End ListSort.
