(* ===== verification/SqlListProps.v ===== *)
(** * Properties of the lists of sql_list.h

    The theorems about [base_list], [List<T>], their iterators and
    [bubble_sort]; the lemmas are in SqlList and SqlListSort. *)

From Stdlib Require Import ZArith Lia.
From stdpp Require Import prelude gmap sorting.
From S2P Require Import Prelude Links SqlList SqlListSort.
Local Open Scope N_scope.

Module ListProps.
Import BaseList ListSort.

(** A store with the sentinel and the empty list objects [ls], for the witnesses. *)
Definition init_store (ls : list N) : store :=
  foldr empty (mk_store {[end_of_list := end_of_list_node]} ∅) ls.

Lemma empty_rep st l :
  load st (SNext end_of_list) = Some end_of_list -> info_of st end_of_list = Some NULL ->
  rep (empty l st) l [] [] /\ frame st (empty l st) [l] [].
Proof.
  intros H1 H2. split.
  - split; try done; try constructor.
    + unfold load. simpl. by rewrite lookup_insert_eq.
    + unfold last_of. simpl. by rewrite lookup_insert_eq.
    + unfold elements_of. simpl. by rewrite lookup_insert_eq.
  - apply frame_intro; [apply not_elem_of_nil|..]; intros k Hk; split_elem;
      unfold load, info_of, last_of, elements_of; simpl; by rewrite ?lookup_insert_ne by done.
Qed.

Lemma exec_rep st l ns xs c :
  rep st l ns xs -> allowed st xs c ->
  exists st' ns', exec l c st = Some ((aexec c xs).1, st') /\ rep st' l ns' (aexec c xs).2.
Proof.
  intros Hrep. pose proof (rep_length _ _ _ _ Hrep) as Hlen.
  destruct c as [x p|x p| |i|i x p|i x]; simpl.
  - intros (? & ? & ?). destruct (push_back_rep st l ns xs x p) as (st' & -> & ? & _);
      [done..|by rewrite Hlen|]. eauto.
  - destruct (N.eqb_spec p NULL) as [->|Hp].
    { intros _. exists st, ns. split; [|done]. unfold push_front.
      rewrite (linked_head _ _ _ _ (rep_chain _ _ _ _ Hrep)). done. }
    intros [?|(? & ? & ?)]; [done|]. destruct (push_front_rep st l ns xs x p) as (st' & -> & ? & _);
      [done..|by rewrite Hlen|]. eauto.
  - intros _. destruct ns as [|n ns], xs as [|x xs]; try done; simpl.
    + exists st, []. split; [|done]. unfold pop. rewrite (linked_head _ _ _ _ (rep_chain _ _ _ _ Hrep)). done.
    + destruct (pop_rep _ _ _ _ _ _ Hrep) as (st' & -> & ? & _). eauto.
  - intros Hi. destruct (at_elem st l ns xs i Hrep Hi) as
      (it & ns1 & n & ns2 & xs1 & x & xs2 & Hadv & Hl & Hcur & Hprev & -> & -> & Hl1 & <-).
    simpl in Hadv. rewrite Hadv. cbn [mbind option_bind]. unfold it_remove. rewrite Hprev, Hl. cbn [mbind option_bind].
    destruct (remove_rep _ _ _ _ _ _ _ _ Hrep Hl1) as (st' & -> & ? & _). simpl.
    rewrite take_app_length, drop_app_ge, Nat.sub_succ_l, Nat.sub_diag by lia. eauto.
  - intros (Hi & ? & ? & ?). destruct (at_elem st l ns xs i Hrep Hi) as
      (it & ns1 & n & ns2 & xs1 & y & xs2 & Hadv & Hl & Hcur & Hprev & -> & -> & Hl1 & <-).
    simpl in Hadv. rewrite Hadv. cbn [mbind option_bind]. unfold it_after. rewrite Hl, Hcur.
    destruct (after_rep _ _ _ _ _ _ _ _ x p Hrep Hl1) as (st' & -> & Hrep' & _); [done..|by rewrite Hlen|].
    cbn [mbind option_bind].
    destruct (rep_load_node _ _ _ _ n Hrep') as [c ->]; [set_solver|]. simpl.
    assert (take (S (length xs1)) (xs1 ++ y :: xs2) = xs1 ++ [y]) as ->
      by (rewrite take_app_ge, Nat.sub_succ_l, Nat.sub_diag by lia; done).
    rewrite drop_app_ge, Nat.sub_succ_l, Nat.sub_diag by lia. rewrite <- app_assoc. simpl. eauto.
  - intros [Hi Hnn]. destruct (at_elem st l ns xs i Hrep Hi) as
      (it & ns1 & n & ns2 & xs1 & y & xs2 & Hadv & Hl & Hcur & Hprev & -> & -> & Hl1 & <-).
    rewrite list_lookup_middle in Hnn by done.
    simpl in Hadv. rewrite Hadv. cbn [mbind option_bind].
    destruct (it_replace_rep st l ns1 n ns2 xs1 y xs2 x it Hrep Hl1 Hcur) as (st' & -> & ? & _);
      [congruence|]. simpl.
    rewrite list_lookup_middle by done. rewrite insert_app_r_alt by done.
    rewrite Nat.sub_diag. simpl. eauto.
Qed.

(** A sequence of commands, with the values they return. *)
Fixpoint exec_all (l : N) (cs : list cmd) (st : store) : option (list ret * store) :=
  match cs with
  | [] => Some ([], st)
  | c :: cs => r ← exec l c st; rs ← exec_all l cs r.2; Some (r.1 :: rs.1, rs.2)
  end.

Fixpoint aexec_all (cs : list cmd) (xs : list N) : list ret * list N :=
  match cs with
  | [] => ([], xs)
  | c :: cs => let r := aexec c xs in let rs := aexec_all cs r.2 in (r.1 :: rs.1, rs.2)
  end.

Fixpoint allowed_all (l : N) (cs : list cmd) (st : store) (xs : list N) : Prop :=
  match cs with
  | [] => True
  | c :: cs => allowed st xs c /\
      match exec l c st with Some (_, st') => allowed_all l cs st' (aexec c xs).2 | None => True end
  end.

(** C3: Refinement.  A [List] driven by any sequence of push_back, push_front,
    pop and iterator remove, after and replace behaves as the sequence of its
    elements, as long as positions are in range, fewer than 2^32 elements are
    stored, the element to replace is not null, and push_back and after get
    memory (push_front reports that it got none and changes nothing): every
    command returns what the abstract command returns, its [bool] included, and
    the representation (sentinel, [last] pointer, element count) holds at the
    end. *)
Theorem list_commands_refine st l ns xs cs :
  rep st l ns xs -> allowed_all l cs st xs ->
  exists st' ns', exec_all l cs st = Some ((aexec_all cs xs).1, st') /\
    rep st' l ns' (aexec_all cs xs).2.
Proof.
  revert st ns xs. induction cs as [|c cs IH]; intros st ns xs Hrep Hal; simpl; [eauto|].
  destruct Hal as [Hc Hal].
  destruct (exec_rep st l ns xs c Hrep Hc) as (st1 & ns1 & E & Hrep1). rewrite E in Hal |- *.
  destruct (IH st1 ns1 _ Hrep1 Hal) as (st2 & ns2 & E2 & Hrep2). simpl. rewrite E2. simpl. eauto.
Qed.

Definition demo_cmds : list cmd :=
  [CPushBack 100 20; CPushFront 101 21; CPushFront 105 NULL; CPushBack 102 22; CAfter 1 103 23;
   CReplace 0 104; CRemove 2; CPop].

Lemma list_commands_refine_witness :
  (exists st' ns', exec_all 7 demo_cmds (init_store [7]) =
     Some ((aexec_all demo_cmds []).1, st') /\ rep st' 7 ns' (aexec_all demo_cmds []).2) /\
  aexec_all demo_cmds [] =
    ([RBool false; RBool false; RBool true; RBool false; RVoid; RPtr 101; RVoid; RPtr 104], [100; 102]).
Proof.
  split; [|vm_compute; reflexivity].
  apply (list_commands_refine (init_store [7]) 7 [] [] demo_cmds).
  - exact (proj1 (empty_rep (init_store []) 7 eq_refl eq_refl)).
  - vm_compute. repeat first [split | left; reflexivity | discriminate | right | constructor].
Defined.

(** An iterator started on a list delivers the elements in order and then
    null; [elem] returns the same elements by position and null past the end. *)
Theorem iteration_spec st l ns xs fuel :
  rep st l ns xs -> NULL ∉ xs -> (length xs < fuel)%nat ->
  iterate fuel (it_init l) st = Some xs /\ forall k, elem l k st = Some (default NULL (xs !! k)).
Proof.
  intros Hrep Hnull Hf. split.
  - rewrite (iterate_from st l ns xs 0); [done..|apply it_init_pos| |lia].
    rewrite (rep_length _ _ _ _ Hrep). lia.
  - intros k. by eapply elem_rep.
Qed.

(** A two-element list for the witnesses. *)
Definition two_store : store :=
  default (init_store []) (snd <$> exec_all 7 [CPushBack 100 20; CPushBack 90 21] (init_store [7])).

Lemma two_store_rep : rep two_store 7 [20; 21] [100; 90].
Proof.
  split; try reflexivity; try (apply (bool_decide_unpack _); vm_compute; exact I).
Qed.

Lemma iteration_spec_witness :
  iterate 3 (it_init 7) two_store = Some [100; 90] /\
  (forall k, elem 7 k two_store = Some (default NULL ([100; 90] !! k))) /\
  elem 7 1 two_store = Some 90 /\ elem 7 2 two_store = Some NULL.
Proof.
  destruct (iteration_spec two_store 7 [20; 21] [100; 90] 3) as [H1 H2].
  - exact two_store_rep.
  - apply (bool_decide_unpack _). vm_compute. exact I.
  - simpl. lia.
  - split; [exact H1|]. split; [exact H2|]. split; vm_compute; reflexivity.
Defined.

(** C4: [bubble_sort] terminates and sorts: for a comparison that is a total
    preorder on the elements, none of them null, after at most [length] rounds
    (one for the empty list) the list holds a permutation of its elements in
    non-decreasing order, in the same nodes, and no other list is changed. *)
Theorem bubble_sort_sorts (cmp : N -> N -> Z) st l ns xs rounds fuel :
  (forall a b c, (cmp a b <= 0)%Z -> (cmp b c <= 0)%Z -> (cmp a c <= 0)%Z) ->
  (forall a b, (0 < cmp a b)%Z -> (cmp b a <= 0)%Z) ->
  rep st l ns xs -> NULL ∉ xs -> (Nat.max 1 (length xs) <= rounds)%nat -> (length xs < fuel)%nat ->
  exists st' ys, bubble_sort rounds fuel cmp l st = Some st' /\ rep st' l ns ys /\
    ys ≡ₚ xs /\ StronglySorted (fun a b => (cmp a b <= 0)%Z) ys /\ frame st st' [l] ns.
Proof.
  intros Htrans Htotal Hrep Hnull Hr Hf. pose proof (rep_length _ _ _ _ Hrep) as Hlen.
  destruct (rep_not_end _ _ _ _ Hrep) as [Hend _].
  destruct (decide (ns = [])) as [->|Hne].
  - destruct xs; [|done]. destruct rounds as [|rounds]; [lia|]. destruct fuel as [|fuel]; [lia|].
    exists st, []. split; [|split; [done|]; split; [done|]; split; [constructor|apply frame_refl]].
    destruct (it_next_end st l [] [] (it_init l) (SFirst l) Hrep) as (it1 & E1 & Hel1 & _);
      [done|apply Hrep|].
    destruct (it_next_end st l [] [] it1 (SNext end_of_list) Hrep) as (it2 & E2 & _);
      [done|apply Hrep|].
    unfold bubble_sort. cbn [bubble_rounds]. rewrite E1. cbn [mbind option_bind bubble_pass].
    rewrite E2. done.
  - destruct (bubble_rounds_ok cmp Htrans Htotal l fuel rounds ns [] xs [] st (it_init l))
      as (st' & ys & Hrun & Hrep' & Hp & Hs & Hsl); try rewrite ?app_nil_r in *; try done.
    + constructor.
    + set_solver.
    + lia.
    + lia.
    + exists st', ys. split; [exact Hrun|]. do 3 (split; [done|]).
      destruct Hsl as (H1 & H2 & H3 & H4). apply frame_intro; auto.
Qed.

Lemma bubble_sort_sorts_witness :
  exists st' ys, bubble_sort 2 3 (fun a b => (Z.of_N a - Z.of_N b)%Z) 7 two_store = Some st' /\
    rep st' 7 [20; 21] ys /\ ys ≡ₚ [100; 90] /\
    StronglySorted (fun a b => (Z.of_N a - Z.of_N b <= 0)%Z) ys /\ frame two_store st' [7] [20; 21].
Proof.
  apply bubble_sort_sorts.
  - intros. lia.
  - intros. lia.
  - exact two_store_rep.
  - apply (bool_decide_unpack _). vm_compute. exact I.
  - simpl. lia.
  - simpl. lia.
Defined.

(** Two lists on disjoint nodes, for the witnesses. *)
Definition pair_store : store :=
  default (init_store [])
    (r ← exec_all 7 [CPushBack 100 20; CPushBack 90 21] (init_store [7; 8]);
     r ← exec_all 8 [CPushBack 80 30; CPushBack 70 31] r.2; Some r.2).

Lemma pair_store_rep7 : rep pair_store 7 [20; 21] [100; 90].
Proof. split; try reflexivity; apply (bool_decide_unpack _); vm_compute; exact I. Qed.

Lemma pair_store_rep8 : rep pair_store 8 [30; 31] [80; 70].
Proof. split; try reflexivity; apply (bool_decide_unpack _); vm_compute; exact I. Qed.

Lemma pair_store_disjoint : forall n : N, n ∈ [20; 21] -> n ∉ [30; 31].
Proof. intros n H. rewrite !elem_of_cons in *. rewrite elem_of_nil in *. naive_solver lia. Qed.

(** [append] concatenates and [disjoin] undoes it: after [a.append(&b)] the
    list [a] holds the elements of both and [b] still holds its own, sharing
    the nodes; [a.disjoin(&b)] then gives back the original [a]. *)
Theorem append_disjoin_roundtrip st a b ns ms xs ys fuel :
  a <> b -> rep st a ns xs -> rep st b ms ys -> (forall n, n ∈ ns -> n ∉ ms) ->
  (Z.of_nat (length ns + length ms) < 2 ^ 32)%Z -> (length ns < fuel)%nat ->
  exists st1 st2, append a b st = Some st1 /\
    rep st1 a (ns ++ ms) (xs ++ ys) /\ rep st1 b ms ys /\
    disjoin fuel a b st1 = Some st2 /\ rep st2 a ns xs /\ rep st2 b ms ys.
Proof.
  intros Hab Ha Hb Hdis Hlen Hf. pose proof (rep_length _ _ _ _ Ha) as Hl.
  destruct (append_rep st a b ns ms xs ys) as (st1 & E1 & Ha1 & Hb1 & _); [done..|].
  destruct (disjoin_rep st1 a b ns ms xs ys fuel Ha1 Hl) as (st2 & E2 & Ha2 & Hf2); [|done|].
  { apply linked_head, Hb1. }
  exists st1, st2. split_and!; try done. apply Hf2; [set_solver|set_solver|done].
Qed.

Lemma append_disjoin_roundtrip_witness :
  exists st1 st2, append 7 8 pair_store = Some st1 /\
    rep st1 7 ([20; 21] ++ [30; 31]) ([100; 90] ++ [80; 70]) /\ rep st1 8 [30; 31] [80; 70] /\
    disjoin 3 7 8 st1 = Some st2 /\ rep st2 7 [20; 21] [100; 90] /\ rep st2 8 [30; 31] [80; 70].
Proof.
  apply append_disjoin_roundtrip.
  - discriminate.
  - exact pair_store_rep7.
  - exact pair_store_rep8.
  - exact pair_store_disjoint.
  - reflexivity.
  - simpl. lia.
Defined.

(** [prepend] puts the other list in front, and [swap] exchanges two lists
    completely, also when one of them is empty and its [last] pointer is the
    address of its own [first] member. *)
Theorem prepend_and_swap st a b ns ms xs ys :
  a <> b -> rep st a ns xs -> rep st b ms ys -> (forall n, n ∈ ns -> n ∉ ms) ->
  (Z.of_nat (length ns + length ms) < 2 ^ 32)%Z ->
  (exists st', prepend a b st = Some st' /\ rep st' a (ms ++ ns) (ys ++ xs)) /\
  (exists st', swap a b st = Some st' /\ rep st' a ms ys /\ rep st' b ns xs).
Proof.
  intros Hab Ha Hb Hdis Hlen. split.
  - destruct (prepend_rep st a b ns ms xs ys) as (st' & ? & ? & _); [done..|]. eauto.
  - destruct (swap_rep st a b ns ms xs ys) as (st' & ? & ? & ? & _); [done..|]. eauto.
Qed.

Lemma prepend_and_swap_witness :
  (exists st', prepend 7 8 pair_store = Some st' /\
     rep st' 7 ([30; 31] ++ [20; 21]) ([80; 70] ++ [100; 90])) /\
  (exists st', swap 7 8 pair_store = Some st' /\
     rep st' 7 [30; 31] [80; 70] /\ rep st' 8 [20; 21] [100; 90]).
Proof.
  apply prepend_and_swap.
  - discriminate.
  - exact pair_store_rep7.
  - exact pair_store_rep8.
  - exact pair_store_disjoint.
  - reflexivity.
Defined.

(** [add_unique] appends exactly when no element is equal to the new one;
    otherwise it returns 1 and leaves the store alone. *)
Theorem add_unique_spec st l ns xs eq x p fuel :
  rep st l ns xs -> (length xs < fuel)%nat ->
  nodes st !! p = None -> p <> NULL -> (Z.of_nat (length xs) + 1 < 2 ^ 32)%Z ->
  if existsb (fun y => eq y x) xs then add_unique fuel eq l x p st = Some (true, st)
  else exists st', add_unique fuel eq l x p st = Some (false, st') /\
    rep st' l (ns ++ [p]) (xs ++ [x]).
Proof.
  intros Hrep Hf Hp Hn Hb. pose proof (rep_length _ _ _ _ Hrep) as Hlen.
  destruct (rep_not_end _ _ _ _ Hrep) as [He _]. pose proof Hrep as [Hc Hi _ _ _ _ _ _ _].
  unfold add_unique. rewrite (linked_head _ _ _ _ Hc). cbn [mbind option_bind].
  destruct (add_unique_loop_rep st eq x ns xs (SFirst l) fuel) as (n & -> & Hiff); [done..|lia|].
  cbn [mbind option_bind]. destruct (existsb _ xs) eqn:Hex.
  - apply existsb_exists in Hex as (y & Hy & Heq). apply list_elem_of_In in Hy.
    rewrite (proj2 (N.eqb_neq n end_of_list)); [done|]. intros ->.
    rewrite (proj1 Hiff eq_refl y Hy) in Heq. done.
  - rewrite (proj2 (N.eqb_eq n end_of_list)).
    + destruct (push_back_rep st l ns xs x p) as (st' & ? & ? & _); [done..|by rewrite Hlen|]. eauto.
    + apply Hiff. intros y Hy. apply list_elem_of_In in Hy.
      destruct (eq y x) eqn:E; [|done]. exfalso.
      assert (existsb (fun y => eq y x) xs = true) by (apply existsb_exists; eauto). congruence.
Qed.

Lemma add_unique_spec_witness :
  (if existsb (fun y => y =? 90) [100; 90]
   then add_unique 3 N.eqb 7 90 25 two_store = Some (true, two_store)
   else exists st', add_unique 3 N.eqb 7 90 25 two_store = Some (false, st') /\
     rep st' 7 ([20; 21] ++ [25]) ([100; 90] ++ [90])) /\
  (if existsb (fun y => y =? 91) [100; 90]
   then add_unique 3 N.eqb 7 91 25 two_store = Some (true, two_store)
   else exists st', add_unique 3 N.eqb 7 91 25 two_store = Some (false, st') /\
     rep st' 7 ([20; 21] ++ [25]) ([100; 90] ++ [91])).
Proof.
  split; (apply (add_unique_spec two_store 7 [20; 21] [100; 90] N.eqb);
    [exact two_store_rep|simpl; lia|reflexivity|discriminate|reflexivity]).
Defined.

(** A chain that ends in a null pointer cannot be iterated. *)
Lemma iterate_null st fuel : info_of st NULL = None -> forall s ns (xs : list N) it,
  it_el it = Some s -> linked (load st) s ns NULL -> info_of st <$> ns = Some <$> xs -> NULL ∉ xs ->
  iterate fuel it st = None.
Proof.
  intros HN. induction fuel as [|fuel IH]; intros s ns xs it Hel Hc Hi Hnull; [done|].
  cbn [iterate]. unfold it_next. rewrite Hel. cbn [mbind option_bind].
  destruct ns as [|n ns]; simpl in Hc; [rewrite Hc; simpl; by rewrite HN|].
  destruct xs as [|y xs]; [done|]. simpl in Hi. injection Hi as Hy Hi. destruct Hc as [-> Hc].
  cbn [mbind option_bind]. rewrite Hy. cbn [mbind option_bind].
  apply not_elem_of_cons in Hnull as [Hyn Hnull]. rewrite (proj2 (N.eqb_neq y NULL)) by done.
  erewrite IH; try done.
Qed.

(** When the allocator returns null, [push_back] reports the error but has
    already overwritten the terminator: the chain of the list then ends in a
    null pointer instead of [end_of_list], and iterating over it dereferences
    null. *)
Theorem push_back_out_of_memory st l ns xs x fuel :
  rep st l ns xs -> NULL ∉ xs -> nodes st !! NULL = None ->
  exists st', push_back l x NULL st = Some (true, st') /\
    linked (load st') (SFirst l) ns NULL /\ elements_of st' l = Some (Z.of_nat (length xs)) /\
    iterate fuel (it_init l) st' = None.
Proof.
  intros Hrep Hnull Hnode. rewrite <- (rep_length _ _ _ _ Hrep).
  destruct Hrep as [Hc Hi Hl He Hnd Hns Hen Hei Hb].
  unfold push_back, new_node. rewrite decide_True by done. rewrite Hl. cbn [mbind option_bind].
  destruct (store_at_ok st (end_slot (SFirst l) ns) NULL) as (st' & -> & L & I & T & E).
  { erewrite linked_end by done. eauto. }
  cbn [mbind option_bind]. rewrite decide_True by done. exists st'. split; [done|].
  assert (linked (load st') (SFirst l) ns NULL) as Hc'
    by (eapply linked_redirect; [by apply cells_NoDup|intros; apply L|exact Hc]).
  split; [done|]. rewrite E. split; [done|].
  assert (info_of st' NULL = None) as HN by (rewrite I; unfold info_of; by rewrite Hnode).
  assert (info_of st' <$> ns = Some <$> xs) as Hi' by (eapply infos_ext; [done|]; intros; apply I).
  by eapply iterate_null.
Qed.

Lemma push_back_out_of_memory_witness :
  exists st', push_back 7 5 NULL two_store = Some (true, st') /\
    linked (load st') (SFirst 7) [20; 21] NULL /\
    elements_of st' 7 = Some (Z.of_nat (length [100; 90])) /\
    iterate 9 (it_init 7) st' = None.
Proof.
  apply push_back_out_of_memory.
  - exact two_store_rep.
  - apply (bool_decide_unpack _). vm_compute. exact I.
  - reflexivity.
Defined.

(** ** [check_list] *)

Lemma check_list_loop_ok st ns : forall n (xs : list N) x cnt fuel,
  linked (load st) (SNext n) ns end_of_list -> end_of_list ∉ n :: ns ->
  info_of st <$> (n :: ns) = Some <$> (x :: xs) ->
  (0 <= cnt)%Z -> (cnt + Z.of_nat (length ns) < 2 ^ 32)%Z -> (length ns < fuel)%nat ->
  check_list_loop fuel n cnt st =
    Some (if bool_decide (NULL ∈ removelast (x :: xs)) then None
          else Some (List.last ns n, (cnt + Z.of_nat (length ns))%Z)).
Proof.
  induction ns as [|m ns IH]; intros n xs x cnt fuel Hc Hend Hi Hcnt Hb Hf;
    (destruct fuel as [|fuel]; [simpl in Hf; lia|]); cbn [check_list_loop];
    rewrite (linked_head _ _ _ _ Hc); cbn [mbind option_bind list.head default from_option id].
  - destruct xs as [|y xs]; [|done]. rewrite N.eqb_refl. rewrite bool_decide_eq_false_2.
    + simpl. by rewrite Z.add_0_r.
    + simpl. apply not_elem_of_nil.
  - destruct xs as [|y xs]; [done|]. simpl in Hi. injection Hi as Hx Hy Hi.
    rewrite (proj2 (N.eqb_neq m end_of_list)) by set_solver. rewrite Hx. cbn [mbind option_bind].
    destruct Hc as [_ Hc]. simpl length in *. destruct (N.eqb_spec x NULL) as [->|Hxn].
    + rewrite bool_decide_eq_true_2; [done|]. simpl. by left.
    + rewrite wrap_small by (split; lia).
      rewrite (IH m xs y (cnt + 1)%Z fuel); [|done|set_solver|simpl; by rewrite Hy, <- Hi|lia..].
      assert (removelast (x :: y :: xs) = x :: removelast (y :: xs)) as -> by done.
      rewrite (bool_decide_ext (NULL ∈ x :: removelast (y :: xs)) (NULL ∈ removelast (y :: xs)))
        by (rewrite elem_of_cons; naive_solver).
      case_bool_decide; [done|]. do 3 f_equal; [|lia].
      destruct ns as [|k ns _] using rev_ind; [done|].
      change (m :: ns ++ [k]) with ((m :: ns) ++ [k]). by rewrite !List.last_last.
Qed.

(** The debug check [check_list] accepts a well-formed list exactly when it
    is not empty and no element before the last is null: it rejects every
    empty list, and it does not look at the last element. *)
Theorem check_list_verdict st l ns xs fuel :
  rep st l ns xs -> (length xs < fuel)%nat ->
  check_list fuel l st = Some (bool_decide (xs <> [] /\ NULL ∉ removelast xs)).
Proof.
  intros Hrep Hf. pose proof (rep_length _ _ _ _ Hrep) as Hlen.
  destruct (rep_not_end _ _ _ _ Hrep) as [He _].
  pose proof Hrep as [Hc Hi Hl Hel _ _ Hen Hei Hb].
  unfold check_list. rewrite (linked_head _ _ _ _ Hc). cbn [mbind option_bind].
  destruct ns as [|n ns], xs as [|x xs]; try done.
  - destruct fuel as [|fuel]; [lia|]. cbn [list.head default from_option id check_list_loop].
    rewrite Hen. cbn [mbind option_bind]. rewrite N.eqb_refl. cbn [mbind option_bind].
    rewrite Hl. cbn [mbind option_bind]. rewrite Hel. done.
  - destruct Hc as [_ Hc]. simpl length in *. cbn [list.head default from_option id].
    rewrite (check_list_loop_ok st ns n xs x 0 fuel) by (done || lia). cbn [mbind option_bind].
    case_bool_decide as Hn.
    + rewrite bool_decide_eq_false_2; [done|]. naive_solver.
    + rewrite Hl. cbn [mbind option_bind]. rewrite Hel. cbn [mbind option_bind].
      assert (end_slot (SFirst l) (n :: ns) = SNext (List.last ns n)) as ->.
      { simpl. destruct ns as [|k ns _] using rev_ind; [done|]. by rewrite end_slot_snoc, List.last_last. }
      rewrite bool_decide_eq_true_2 by done. simpl negb.
      rewrite wrap_small by (split; lia).
      rewrite (proj2 (Z.eqb_eq _ _)) by lia. simpl. by rewrite bool_decide_eq_true_2.
Qed.

Lemma check_list_verdict_witness :
  check_list 3 7 two_store = Some (bool_decide ([100; 90] <> [] /\ NULL ∉ removelast [100; 90])) /\
  check_list 3 7 two_store = Some true /\
  check_list 3 7 (init_store [7]) = Some (bool_decide (@nil N <> [] /\ NULL ∉ removelast (@nil N))) /\
  check_list 3 7 (init_store [7]) = Some false.
Proof.
  split; [apply (check_list_verdict _ _ [20; 21]); [exact two_store_rep|simpl; lia]|].
  split; [vm_compute; reflexivity|].
  split; [apply (check_list_verdict _ _ []);
    [exact (proj1 (empty_rep (init_store []) 7 eq_refl eq_refl))|simpl; lia]|].
  vm_compute; reflexivity.
Defined.

(** ** [list_copy_and_replace_each_value] *)

Lemma copy_each_from clone l fuel : forall k st ns xs it,
  rep st l ns xs -> NULL ∉ drop k xs -> at_pos l ns k it -> (k <= length ns)%nat ->
  (length ns - k < fuel)%nat ->
  exists st', copy_each_loop fuel clone it st = Some st' /\
    rep st' l ns (take k xs ++ (clone <$> drop k xs)) /\ same_links st st' ns.
Proof.
  induction fuel as [|fuel IH]; intros k st ns xs it Hrep Hnull Hat Hk Hf; [lia|].
  pose proof (rep_length _ _ _ _ Hrep) as Hlen. cbn [copy_each_loop].
  destruct (decide (k = length ns)) as [->|Hne].
  - destruct (it_next_end st l ns xs it (end_slot (SFirst l) (take (length ns) ns)))
      as (it' & -> & _); [done|apply Hat| |].
    { rewrite firstn_all. apply linked_end, Hrep. }
    exists st. split; [done|]. rewrite Hlen, firstn_all, drop_all, app_nil_r.
    split; [done|]. by repeat split.
  - destruct (lookup_lt_is_Some_2 ns k) as [n Hn]; [lia|].
    destruct (it_next_rep _ _ _ _ _ _ _ Hrep Hat Hn) as (x & it' & Hx & -> & Hat').
    cbn [mbind option_bind]. rewrite (drop_S _ _ _ Hx) in *.
    apply not_elem_of_cons in Hnull as [Hxn Hnull]. rewrite (proj2 (N.eqb_neq x NULL)) by done.
    pose proof (at_current _ _ _ _ Hat' ltac:(done)) as Hcur. simpl in Hcur. rewrite Hn in Hcur.
    injection Hcur as Hcur.
    rewrite <- (take_drop_middle ns k n Hn), <- (take_drop_middle xs k x Hx) in Hrep.
    destruct (it_replace_rep st l (take k ns) n (drop (S k) ns) (take k xs) x (drop (S k) xs)
      (clone x) it' Hrep) as (st1 & -> & Hrep1 & Hs1); [rewrite !length_take; lia|done|done|].
    cbn [mbind option_bind]. rewrite (take_drop_middle ns k n Hn) in Hrep1.
    assert (length (take k xs) = k) as Htk by (rewrite length_take; lia).
    destruct (IH (S k) st1 ns _ it' Hrep1) as (st2 & E2 & Hrep2 & Hs2); try lia.
    + rewrite drop_app_ge, Htk, Nat.sub_succ_l, Nat.sub_diag by lia. done.
    + done.
    + exists st2. split; [done|]. split.
      * rewrite take_app_ge, drop_app_ge, Htk, Nat.sub_succ_l, Nat.sub_diag in Hrep2 by lia.
        simpl in Hrep2. rewrite <- app_assoc in Hrep2. exact Hrep2.
      * eapply same_links_trans; [|exact Hs2]. eapply same_links_mono; [|exact Hs1].
        intros m ->%list_elem_of_singleton. by eapply list_elem_of_lookup_2.
Qed.

(** [list_copy_and_replace_each_value] visits every node once, puts the
    clone of each element in its place and ends. *)
Theorem list_copy_and_replace_spec clone st l ns xs fuel :
  rep st l ns xs -> NULL ∉ xs -> (length xs < fuel)%nat ->
  exists st', list_copy_and_replace_each_value fuel clone l st = Some st' /\
    rep st' l ns (clone <$> xs).
Proof.
  intros Hrep Hnull Hf. pose proof (rep_length _ _ _ _ Hrep).
  destruct (copy_each_from clone l fuel 0 st ns xs (it_init l) Hrep) as (st' & ? & ? & _);
    [done|apply it_init_pos|lia|lia|]. eauto.
Qed.

Lemma list_copy_and_replace_witness :
  exists st', list_copy_and_replace_each_value 3 (fun x => x + 1) 7 two_store = Some st' /\
    rep st' 7 [20; 21] ((fun x => x + 1) <$> [100; 90]).
Proof.
  apply list_copy_and_replace_spec.
  - exact two_store_rep.
  - apply (bool_decide_unpack _). vm_compute. exact I.
  - simpl. lia.
Defined.

(** ** [base_list_iterator::replace(base_list &)] *)

(** The chain after the nodes [ks] of another chain were linked in behind [n]:
    [n] leads to them, and their last node [q] to what followed [n]. *)
Lemma splice_linked (ld ld' : slot -> option N) l ns1 n ns2 k ks q z :
  linked ld (SFirst l) (ns1 ++ n :: ns2) z -> linked ld (SNext k) ks z ->
  NoDup (ns1 ++ n :: ns2) -> NoDup (k :: ks) -> (forall p, p ∈ ns1 ++ n :: ns2 -> p ∉ k :: ks) ->
  end_slot (SNext k) ks = SNext q -> q ∈ k :: ks ->
  (forall c, ld' c =
     if decide (SNext n = c) then Some (default (default z (list.head ns2)) (list.head ks))
     else if decide (SNext q = c) then Some (default z (list.head ns2)) else ld c) ->
  linked ld' (SFirst l) (ns1 ++ n :: ks ++ ns2) z.
Proof.
  intros Hc Mc Hnd Mnd Hdis Hq Hqk Hld.
  apply linked_app in Hc as [Hc1 Hc2].
  apply NoDup_app in Hnd as (_ & Hnd12 & Hnd2). apply NoDup_cons in Hnd2 as [Hn2 _].
  assert (q <> n /\ q ∉ ns1 /\ q ∉ ns2) as (Hqn & Hq1 & Hq2) by set_solver.
  assert (n ∉ ns1 /\ n ∉ k :: ks) as [Hn1 Hnk] by set_solver.
  apply linked_app. split.
  { eapply linked_ext; [|exact Hc1]. intros c Hcc. rewrite Hld.
    rewrite !decide_False; [done|..]; intros <-; apply elem_of_cells_next in Hcc as [?|?]; set_solver. }
  destruct ks as [|k2 ks].
  - simpl. eapply linked_restart; [exact Hc2| |].
    { rewrite Hld, decide_True by done. by rewrite (linked_head _ _ _ _ Hc2). }
    intros p Hp. rewrite Hld, !decide_False; [done|..]; intros [= ->]; set_solver.
  - cbn [app list.head default from_option id] in *. split; [rewrite Hld; by rewrite decide_True|].
    apply NoDup_cons in Mnd as [_ Mnd]. destruct Mc as [_ Mc]. cbn [end_slot] in Hq.
    apply (linked_concat _ _ _ _ _ (default z (list.head ns2))).
    + eapply (linked_redirect ld); [by apply cells_NoDup_next| |exact Mc].
      intros c Hcc. rewrite Hld, Hq.
      rewrite decide_False; [done|]. intros <-. apply elem_of_cells_next in Hcc as [?|?]; set_solver.
    + rewrite Hq, Hld. rewrite decide_False by naive_solver. by rewrite decide_True.
    + destruct ns2 as [|p ns2]; [done|]. destruct Hc2 as [_ Hc2]. eapply linked_ext; [|exact Hc2].
      intros c Hcc. unfold cells in Hcc. rewrite elem_of_cons, list_elem_of_fmap in Hcc.
      rewrite Hld, !decide_False; [done|..]; destruct Hcc as [->|(r & -> & Hr)]; intros [= ->]; set_solver.
Qed.

(** Replacing the current element by a non-empty list splices that list in
    its place: the current node takes the first new element, the other nodes
    of the new list follow, [last] and the element count are adjusted and the
    old element is returned. *)
Theorem replace_list_spec st l m ns1 n ns2 xs1 x xs2 k ks y ys it :
  l <> m -> rep st l (ns1 ++ n :: ns2) (xs1 ++ x :: xs2) -> length ns1 = length xs1 ->
  rep st m (k :: ks) (y :: ys) -> (forall p, p ∈ ns1 ++ n :: ns2 -> p ∉ k :: ks) ->
  it_list it = l -> it_current it = n ->
  (Z.of_nat (length (ns1 ++ n :: ns2) + length ks) < 2 ^ 32)%Z ->
  exists st', it_replace_list it m st = Some (x, st') /\
    rep st' l (ns1 ++ n :: ks ++ ns2) (xs1 ++ y :: ys ++ xs2).
Proof.
  intros Hlm Hrep Hlen Hm Hdis Hil Hcur Hb2.
  destruct (rep_not_end _ _ _ _ Hrep) as [Hend _]. destruct (rep_not_end _ _ _ _ Hm) as [Hendm _].
  pose proof (is_empty_rep _ _ _ _ Hm) as Hme.
  destruct Hrep as [Hc Hi Hl He Hnd0 Hns Hen Hei Hb]. destruct Hm as [Mc Mi Ml Me Mnd Mns _ _ _].
  apply infos_app in Hi as [Hi1 Hi2]; [|done]. simpl in Hi2. injection Hi2 as Hx Hi2.
  simpl in Mi. injection Mi as Hy Mi. destruct Mc as [Mf Mc].
  pose proof Hc as [_ Hc2]%linked_app. pose proof (linked_head _ _ _ _ Hc2) as Hnx.
  pose proof Hnd0 as Hnd. apply NoDup_app in Hnd as (Hnd1 & Hnd12 & Hnd2). apply NoDup_cons in Hnd2 as [Hn2 Hnd2].
  assert (n ∉ ns1) as Hn1 by set_solver. pose proof Mnd as Mnd'. apply NoDup_cons in Mnd' as [Hkk Mnd'].
  assert (n <> k /\ n ∉ ks) as [Hnk Hnks] by (specialize (Hdis n); set_solver).
  unfold it_replace_list. rewrite Hcur, Hil, Hx. cbn [mbind option_bind].
  rewrite Hme. clear Hme. cbn [mbind option_bind]. rewrite bool_decide_eq_false_2 by done.
  rewrite Ml. cbn [mbind option_bind]. rewrite Hnx. cbn [mbind option_bind].
  cbn [end_slot]. destruct (end_slot_next k ks) as (q & Hq & Hqk). rewrite Hq.
  assert (q <> n) as Hqn by set_solver.
  run. { rewrite <- Hq. erewrite linked_end by done. eauto. }
  obs. rewrite decide_False, Mf by done. cbn [mbind option_bind].
  obs. rewrite Hy. cbn [mbind option_bind].
  run. { obs. eauto. }
  assert (load st1 (SNext k) = Some (default (default end_of_list (list.head ns2)) (list.head ks))) as Hk1.
  { obs. case_decide as Hqk2.
    - injection Hqk2 as ->. by rewrite (end_slot_next_self _ _ Hkk Hq).
    - rewrite (linked_head _ _ _ _ Mc). destruct ks; [|done]. simpl in Hq. congruence. }
  rewrite Hk1. cbn [mbind option_bind].
  run. { obs. rewrite decide_False by naive_solver. eauto. }
  obs. rewrite Hl. cbn [mbind option_bind]. rewrite Me. cbn [mbind option_bind]. rewrite Ml. cbn [mbind option_bind].
  destruct (maybe_set_last_ok st2 l
    (bool_decide (end_slot (SFirst l) (ns1 ++ n :: ns2) = SNext n) && (1 <? Z.of_nat (length (k :: ks)))%Z)
    (end_slot (SFirst m) (k :: ks)) (end_slot (SFirst l) (ns1 ++ n :: ks ++ ns2))) as (st3 & E3 & ? & ? & ? & ?).
  { obs. rewrite Hl, !end_slot_app. cbn [end_slot]. rewrite end_slot_app.
    case_bool_decide as Hd; simpl andb.
    - apply end_slot_next_self in Hd as ->; [|done]. destruct ks; simpl; [done|].
      rewrite (proj2 (Z.ltb_lt _ _)) by lia. split; [eauto|done].
    - f_equal. apply end_slot_nonempty. by intros ->. }
  rewrite E3. cbn [mbind option_bind]. obs. rewrite He. cbn [mbind option_bind]. rewrite Me. cbn [mbind option_bind].
  run. { obs. eauto. }
  rewrite length_app in *. simpl length in *.
  eexists; split; [reflexivity|].
  split; rewrite ?length_app; simpl; rewrite ?length_app; obs; rewrite ?decide_True by done; try done.
  - apply (splice_linked (load st) _ l ns1 n ns2 k ks q); try done. intros c. obs. repeat case_decide; congruence.
  - rewrite !fmap_app. simpl. rewrite !fmap_app. obs. rewrite decide_True by done.
    f_equal; [|f_equal; f_equal]; (eapply infos_ext; [done|]); intros p Hp; obs;
      (rewrite decide_False; [done|]); intros ->; set_solver.
  - f_equal. rewrite (wrap_small 32 (Z.of_nat (S (length ks)) - 1)) by (split; lia).
    rewrite wrap_small; [lia|split; lia].
  - apply NoDup_app. split; [done|]. split; [set_solver|].
    apply NoDup_cons. split; [set_solver|]. apply NoDup_app. split; [done|]. split; [set_solver|done].
  - apply Forall_app in Hns as [? Hns2]. apply Forall_cons in Hns2 as [? ?]. apply Forall_cons in Mns as [_ ?].
    apply Forall_app. split; [done|]. apply Forall_cons. split; [done|]. by apply Forall_app.
  - rewrite !decide_False; [done|..]; intros [= ->]; set_solver.
  - rewrite decide_False; [done|]. intros ->. set_solver.
  - lia.
Qed.

Lemma replace_list_spec_witness :
  exists st', it_replace_list (mk_iter 7 (Some (SNext 21)) (Some (SNext 20)) 21) 8 pair_store =
      Some (90, st') /\
    rep st' 7 ([20] ++ 21 :: [31] ++ []) ([100] ++ 80 :: [70] ++ []).
Proof.
  apply (replace_list_spec pair_store 7 8 [20] 21 [] [100] 90 [] 30 [31] 80 [70]); try reflexivity.
  - discriminate.
  - exact pair_store_rep7.
  - exact pair_store_rep8.
  - exact pair_store_disjoint.
Defined.

End ListProps.
