(* ===== verification/AppModel.v ===== *)
(** * The web application: entities, queries and the persistence interface

    The entities of src/prjspring2025/.../model, the WHERE clauses of the
    queries in .../repository, and the class [Repositories]: the operations
    of Spring Data JPA the application calls, with the laws of their
    documentation ([RepoLaws]) against which the controllers are verified.

    A request runs in one persistence context, in which a row is one managed
    object: a [Set<Plat>] is a list of rows without repeated identifiers.
    Java [int] is a 32-bit two's complement [Z]; a [double] is only compared,
    and is a rational.  An uncaught exception is [Throw]. *)

From Stdlib Require Import ZArith Lia QArith.
From stdpp Require Import prelude strings gmap pretty sorting.
From S2P Require Import Prelude.
Local Open Scope Z_scope.

Module AppModel.

(** ** Exceptions *)

Inductive exception := IllegalArgument | DataIntegrityViolation | PersistenceFailure.

Inductive result (A : Type) :=
  | Ok (a : A)
  | Throw (e : exception).
Arguments Ok {A} a.
Arguments Throw {A} e.

#[global] Instance result_ret : MRet result := fun A a => Ok a.
#[global] Instance result_bind : MBind result := fun A B f m =>
  match m with Ok a => f a | Throw e => Throw e end.

(** ** Entities *)

Record Categorie := mk_cat { cat_id : option Z; cat_nom : option string }.

Record Plat := mk_plat {
  plat_id : option Z; plat_nom : option string;
  nbCalories : Z; nbLipides : Z; nbProteines : Z; nbGlucides : Z;
  categorie : option Categorie }.

Record Menu := mk_menu {
  menu_id : option Z; menu_nom : option string; description : option string; prix : Q;
  plats : list Plat }.

(** The no-argument constructors. *)
Definition new_Plat : Plat := mk_plat None None 0 0 0 0 None.
Definition new_Menu : Menu := mk_menu None None None 0 [].

(** [Plat(nom, nbCalories, nbGlucides, nbLipides, nbProteines, categorie)]. *)
Definition Plat_of (nom : string) (nbCalories nbGlucides nbLipides nbProteines : Z) (c : Categorie) : Plat :=
  mk_plat None (Some nom) nbCalories nbLipides nbProteines nbGlucides (Some c).
Definition Menu_of (nom description : string) (prix : Q) : Menu :=
  mk_menu None (Some nom) (Some description) prix [].

Definition plat_setId (i : Z) (p : Plat) : Plat :=
  mk_plat (Some i) (plat_nom p) (nbCalories p) (nbLipides p) (nbProteines p) (nbGlucides p) (categorie p).
Definition menu_setId (i : Z) (m : Menu) : Menu :=
  mk_menu (Some i) (menu_nom m) (description m) (prix m) (plats m).
Definition setPlats (ps : list Plat) (m : Menu) : Menu :=
  mk_menu (menu_id m) (menu_nom m) (description m) (prix m) ps.

(** [mapToInt(f).sum()]: 32-bit addition. *)
Definition int_sum (f : Plat -> Z) (ps : list Plat) : Z :=
  foldl (fun a p => sgn 32 (a + f p)) 0 ps.

Definition getTotalCalories (m : Menu) : Z := int_sum nbCalories (plats m).
Definition getTotalGlucides (m : Menu) : Z := int_sum nbGlucides (plats m).
Definition getTotalLipides (m : Menu) : Z := int_sum nbLipides (plats m).
Definition getTotalProteines (m : Menu) : Z := int_sum nbProteines (plats m).

(** ** Queries

    [LOWER], [LIKE] and the order of strings (the collation, with the place of
    NULL) are functions of the database. *)

Class Jpql := {
  lower : string -> string;
  like : string -> string -> bool;
  collate : option string -> option string -> bool
}.

Section queries.
Context {jpql : Jpql}.

(** [x LIKE pattern] is not true for a null [x]. *)
Definition like_opt (x : option string) (pattern : string) : bool :=
  match x with Some x => like (lower x) pattern | None => false end.

Definition contains (motCle : string) : string := "%" +:+ motCle +:+ "%".

(** [:bound IS NULL OR ...] *)
Definition at_least (b : option Z) (x : Z) : bool := match b with None => true | Some b => b <=? x end.
Definition at_most (b : option Z) (x : Z) : bool := match b with None => true | Some b => x <=? b end.

(** WHERE clause of [PlatRepository.rechercher]: [p.nom LIKE :x]. *)
Definition rechercher_where (x : string) (p : Plat) : bool :=
  match plat_nom p with Some n => like n x | None => false end.

(** The bounds of a dish query. *)
Record plat_filter := mk_pf {
  categorieId : option Z;
  minCalories : option Z; maxCalories : option Z; minLipides : option Z; maxLipides : option Z;
  minGlucides : option Z; maxGlucides : option Z; minProteines : option Z; maxProteines : option Z }.

(** WHERE clause of [PlatRepository.findFiltered]. *)
Definition plat_where (f : plat_filter) (motCle : string) (p : Plat) : bool :=
  match categorieId f with
  | None => true
  | Some i => bool_decide (categorie p ≫= cat_id = Some i)
  end &&
  at_least (minCalories f) (nbCalories p) && at_most (maxCalories f) (nbCalories p) &&
  at_least (minLipides f) (nbLipides p) && at_most (maxLipides f) (nbLipides p) &&
  at_least (minGlucides f) (nbGlucides p) && at_most (maxGlucides f) (nbGlucides p) &&
  at_least (minProteines f) (nbProteines p) && at_most (maxProteines f) (nbProteines p) &&
  (bool_decide (motCle = "") || like_opt (plat_nom p) (lower (contains motCle))).

(** The rows of [Menu m LEFT JOIN m.plats p] for one menu. *)
Definition join_rows (m : Menu) : list (option Plat) :=
  match plats m with [] => [None] | ps => Some <$> ps end.

(** [COALESCE((SELECT SUM(p2.nbCalories) FROM m.plats p2), 0)] *)
Definition sum_calories (m : Menu) : Z := foldr (fun p a => nbCalories p + a) 0 (plats m).

(** WHERE clause of [MenuRepository.findFiltered] on one row of the join. *)
Definition menu_row_where (filtre : string) (prixMin prixMax : option Q) (calMin calMax : option Z)
    (m : Menu) (p : option Plat) : bool :=
  (bool_decide (filtre = "") || like_opt (menu_nom m) (contains (lower filtre)) ||
   like_opt (p ≫= plat_nom) (contains (lower filtre))) &&
  match prixMin with None => true | Some b => Qle_bool b (prix m) end &&
  match prixMax with None => true | Some b => Qle_bool (prix m) b end &&
  at_least calMin (sum_calories m) && at_most calMax (sum_calories m).

(** SELECT DISTINCT: a menu is in the result when one of its rows is. *)
Definition menu_where (filtre : string) (prixMin prixMax : option Q) (calMin calMax : option Z) (m : Menu) : bool :=
  existsb (menu_row_where filtre prixMin prixMax calMin calMax m) (join_rows m).
End queries.

(** ** Paging and sorting *)

Inductive direction := Ascending | Descending.
Inductive Sort := Unsorted | SortBy (property : string) (d : direction).

Inductive Pageable := Unpaged | PageRequest (page size : Z) (sort : Sort).

(** [PageRequest.of] throws for a negative page or a size below one. *)
Definition PageRequest_of (page size : Z) (sort : Sort) : result Pageable :=
  if (page <? 0) || (size <? 1) then Throw IllegalArgument else Ok (PageRequest page size sort).

(** What [ORDER BY] means: [a] may stand before [b].  Of the properties the
    controllers never sort by, nothing is said. *)
Definition order_by {jpql : Jpql} (property : string) (a b : Plat) : bool :=
  if bool_decide (property = "nom") then collate (plat_nom a) (plat_nom b)
  else if bool_decide (property = "categorie.nom")
       then collate (categorie a ≫= cat_nom) (categorie b ≫= cat_nom)
  else if bool_decide (property = "nbCalories") then nbCalories a <=? nbCalories b
  else if bool_decide (property = "nbGlucides") then nbGlucides a <=? nbGlucides b
  else if bool_decide (property = "nbLipides") then nbLipides a <=? nbLipides b
  else if bool_decide (property = "nbProteines") then nbProteines a <=? nbProteines b
  else true.

Definition ordered {jpql : Jpql} (s : Sort) (a b : Plat) : bool :=
  match s with
  | Unsorted => true
  | SortBy p Ascending => order_by p a b
  | SortBy p Descending => order_by p b a
  end.

Record Page (A : Type) := mk_page { getContent : list A; pageable : Pageable; totalElements : Z }.
Arguments mk_page {A}.
Arguments getContent {A}.
Arguments pageable {A}.
Arguments totalElements {A}.

(** ** The repositories

    [save] returns the database and the argument object after the call: the
    identity column gives a new object its identifier. *)
Class Repositories (DB : Type) := {
  plat_findById : DB -> Z -> option Plat;
  plat_findAll : DB -> list Plat;
  plat_save : DB -> Plat -> result (DB * Plat);
  plat_deleteById : DB -> Z -> result DB;
  plat_select : DB -> (Plat -> bool) -> Pageable -> Page Plat;
  menu_findById : DB -> Z -> option Menu;
  menu_findAll : DB -> list Menu;
  menu_save : DB -> Menu -> result (DB * Menu);
  menu_deleteById : DB -> Z -> result DB;
  menu_select : DB -> (Menu -> bool) -> Pageable -> Page Menu;
  categorie_findAll : DB -> list Categorie;
}.

(** The window of a page in the ordered rows of a query. *)
Definition window {A} (page size : Z) (l : list A) : list A :=
  take (Z.to_nat size) (drop (Z.to_nat (page * size)) l).

(** Two menus with the same columns and the same set of dishes. *)
Definition menu_equiv (a b : Menu) : Prop :=
  menu_id a = menu_id b /\ menu_nom a = menu_nom b /\ description a = description b /\
  prix a = prix b /\ plats a ≡ₚ plats b.

(** What Spring Data documents of these operations, for this schema.  A page of a
    query is a window of the matching rows in some order that the requested sort
    allows; two queries may place rows with equal keys differently. *)
Class RepoLaws (DB : Type) {jpql : Jpql} {repo : Repositories DB} : Prop := {
  plat_findById_id : forall db i p, plat_findById db i = Some p -> plat_id p = Some i;
  menu_findById_id : forall db i m, menu_findById db i = Some m -> menu_id m = Some i;
  plat_findAll_spec : forall db p, p ∈ plat_findAll db <-> exists i, plat_findById db i = Some p;
  plat_save_new : forall db p db' p', plat_id p = None -> plat_save db p = Ok (db', p') ->
    exists i, 0 < i /\ p' = plat_setId i p /\ plat_findById db i = None /\
      plat_findById db' i = Some p' /\ (forall j, j <> i -> plat_findById db' j = plat_findById db j);
  plat_save_existing : forall db p i db' p', plat_id p = Some i -> is_Some (plat_findById db i) ->
    plat_save db p = Ok (db', p') ->
    p' = p /\ plat_findById db' i = Some p /\ (forall j, j <> i -> plat_findById db' j = plat_findById db j);
  plat_delete_spec : forall db i db', plat_deleteById db i = Ok db' ->
    plat_findById db' i = None /\ (forall j, j <> i -> plat_findById db' j = plat_findById db j) /\
    (forall j, menu_findById db' j = menu_findById db j);
  plat_delete_used : forall db i j m, menu_findById db j = Some m ->
    Some i ∈ (plat_id <$> plats m) -> plat_deleteById db i = Throw DataIntegrityViolation;
  menu_save_new : forall db m db' m', menu_id m = None -> menu_save db m = Ok (db', m') ->
    (forall p, p ∈ plats m -> exists i, plat_findById db i = Some p) ->
    exists i m'', 0 < i /\ m' = menu_setId i m /\ menu_findById db i = None /\
      menu_findById db' i = Some m'' /\ menu_equiv m'' m' /\
      (forall j, j <> i -> menu_findById db' j = menu_findById db j) /\
      (forall j, plat_findById db' j = plat_findById db j);
  menu_save_existing : forall db m i db' m', menu_id m = Some i -> is_Some (menu_findById db i) ->
    menu_save db m = Ok (db', m') ->
    (forall p, p ∈ plats m -> exists i, plat_findById db i = Some p) ->
    exists m'', m' = m /\ menu_findById db' i = Some m'' /\ menu_equiv m'' m /\
      (forall j, j <> i -> menu_findById db' j = menu_findById db j) /\
      (forall j, plat_findById db' j = plat_findById db j);
  menu_delete_spec : forall db i db', menu_deleteById db i = Ok db' ->
    menu_findById db' i = None /\ (forall j, j <> i -> menu_findById db' j = menu_findById db j) /\
    (forall j, plat_findById db' j = plat_findById db j);
  plat_select_unpaged : forall db f,
    getContent (plat_select db f Unpaged) ≡ₚ filter (fun p => f p = true) (plat_findAll db);
  plat_select_page : forall db f sort page size, 0 <= page -> 1 <= size ->
    exists l, l ≡ₚ filter (fun p => f p = true) (plat_findAll db) /\
      StronglySorted (fun a b => ordered sort a b = true) l /\
      getContent (plat_select db f (PageRequest page size sort)) = window page size l;
  menu_select_page : forall db f sort page size, 0 <= page -> 1 <= size ->
    exists l, l ≡ₚ filter (fun m => f m = true) (menu_findAll db) /\
      getContent (menu_select db f (PageRequest page size sort)) = window page size l;
}.

(** ** Responses *)

Inductive value :=
  | VInt (n : Z) | VOptInt (n : option Z) | VOptDouble (d : option Q) | VStr (s : string)
  | VPlats (l : list Plat) | VMenus (l : list Menu) | VCategories (l : list Categorie)
  | VPlatPage (p : Page Plat) | VMenuPage (p : Page Menu)
  | VPlat (p : Plat) | VMenu (m : Menu) | VMenuReference (id : Z).

(** A view name (or ["redirect:..."]), the model, and redirect attributes. *)
Record Response := mk_resp { view : string; model : gmap string value; redirect : gmap string value }.

Definition addAttribute (k : string) (v : value) (m : gmap string value) : gmap string value := <[k := v]> m.

End AppModel.
