(* ===== verification/AppControllers.v ===== *)
(** * The controllers of the web application

    [HomeController], [PlatController] and [MenuController] of
    src/prjspring2025/.../controller.  A handler takes the database and the
    request parameters (an optional parameter is an [option]) and returns the
    new database and the response, or the exception it lets through. *)

From Stdlib Require Import ZArith Lia QArith.
From stdpp Require Import prelude strings gmap pretty.
From S2P Require Import Prelude AppModel.
Local Open Scope Z_scope.

Module AppControllers.
Import AppModel.

Section app.
Context {jpql : Jpql} {DB : Type} {repo : Repositories DB}.

(** ** [HomeController] *)

Definition home : Response := mk_resp "home" ∅ ∅.

(** ** [PlatController] *)

(** The [switch] on the parameter [sort]. *)
Definition plat_sort (sort : string) : Sort :=
  if bool_decide (sort = "nomAsc") then SortBy "nom" Ascending
  else if bool_decide (sort = "nomDesc") then SortBy "nom" Descending
  else if bool_decide (sort = "calAsc") then SortBy "nbCalories" Ascending
  else if bool_decide (sort = "calDesc") then SortBy "nbCalories" Descending
  else if bool_decide (sort = "catAsc") then SortBy "categorie.nom" Ascending
  else if bool_decide (sort = "catDesc") then SortBy "categorie.nom" Descending
  else if bool_decide (sort = "glucidesAsc") then SortBy "nbGlucides" Ascending
  else if bool_decide (sort = "glucidesDesc") then SortBy "nbGlucides" Descending
  else if bool_decide (sort = "lipidesAsc") then SortBy "nbLipides" Ascending
  else if bool_decide (sort = "lipidesDesc") then SortBy "nbLipides" Descending
  else if bool_decide (sort = "proteinesAsc") then SortBy "nbProteines" Ascending
  else if bool_decide (sort = "proteinesDesc") then SortBy "nbProteines" Descending
  else Unsorted.

(** The bounds of a request, put back into the model for the view. *)
Definition add_bounds (f : plat_filter) (m : gmap string value) : gmap string value :=
  addAttribute "maxProteines" (VOptInt (maxProteines f))
   (addAttribute "minProteines" (VOptInt (minProteines f))
   (addAttribute "maxGlucides" (VOptInt (maxGlucides f))
   (addAttribute "minGlucides" (VOptInt (minGlucides f))
   (addAttribute "maxLipides" (VOptInt (maxLipides f))
   (addAttribute "minLipides" (VOptInt (minLipides f))
   (addAttribute "maxCalories" (VOptInt (maxCalories f))
   (addAttribute "minCalories" (VOptInt (minCalories f))
   (addAttribute "categorieId" (VOptInt (categorieId f)) m)))))))).

(** GET /plats *)
Definition listePlats (db : DB) (f : plat_filter) (motCle sort : string) (page size : Z)
    (action : string) (id : Z) : result Response :=
  pageable ← PageRequest_of page size (plat_sort sort);
  let pagePlats := plat_select db (plat_where f motCle) pageable in
  let model := addAttribute "categories" (VCategories (categorie_findAll db))
    (add_bounds f
    (addAttribute "motCle" (VStr motCle)
    (addAttribute "sort" (VStr sort)
    (addAttribute "page" (VPlatPage pagePlats)
    (addAttribute "plats" (VPlats (getContent pagePlats)) ∅))))) in
  let '(model, action) :=
    if negb (bool_decide (action = "")) && (0 <? id)
    then (match plat_findById db id with
          | Some p => addAttribute "plat" (VPlat p) model
          | None => model
          end, action)
    else if negb (bool_decide (action = "del")) then (model, "") else (model, action) in
  Ok (mk_resp "plats" (addAttribute "action" (VStr action) model) ∅).

(** GET /platDelete *)
Definition deletePlat (db : DB) (id page size : Z) (motCle : string) : result (DB * Response) :=
  db ← plat_deleteById db id;
  Ok (db, mk_resp "redirect:/plats" ∅
    (addAttribute "action" (VStr "del") (addAttribute "motCle" (VStr motCle)
      (addAttribute "size" (VInt size) (addAttribute "page" (VInt page) ∅))))).

(** GET /platEdit *)
Definition editPlat (db : DB) (page size : Z) (motCle : string) (id : Z) : Response :=
  let form p :=
    mk_resp "platForm"
      (addAttribute "motCle" (VStr motCle) (addAttribute "size" (VInt size)
        (addAttribute "page" (VInt page)
          (addAttribute "categories" (VCategories (categorie_findAll db))
            (addAttribute "plat" (VPlat p) ∅))))) ∅ in
  if negb (id =? 0)
  then match plat_findById db id with
       | Some p => form p
       | None => mk_resp "redirect:/plats" ∅ ∅
       end
  else form new_Plat.

(** POST /plats/save *)
Definition savePlat (db : DB) (plat : Plat) (page size : Z) (motCle : string) : result (DB * Response) :=
  let action := match plat_id plat with Some _ => "mod" | None => "new" end in
  '(db, plat) ← plat_save db plat;
  Ok (db, mk_resp "redirect:/plats" ∅
    (addAttribute "id" (VOptInt (plat_id plat)) (addAttribute "action" (VStr action)
      (addAttribute "motCle" (VStr motCle) (addAttribute "size" (VInt size)
        (addAttribute "page" (VInt page) ∅)))))).

(** GET /platDetail/{id} *)
Definition showPlatDetail (db : DB) (id page size : Z) (motCle : string) : Response :=
  match plat_findById db id with
  | Some p =>
      mk_resp "platDetail"
        (addAttribute "motCle" (VStr motCle) (addAttribute "size" (VInt size)
          (addAttribute "page" (VInt page) (addAttribute "plat" (VPlat p) ∅)))) ∅
  | None => mk_resp "redirect:/plats" ∅ ∅
  end.

(** ** [MenuController] *)

Definition menu_sort (sort : string) : Sort :=
  if bool_decide (sort = "nomAsc") then SortBy "nom" Ascending
  else if bool_decide (sort = "nomDesc") then SortBy "nom" Descending
  else if bool_decide (sort = "prixAsc") then SortBy "prix" Ascending
  else if bool_decide (sort = "prixDesc") then SortBy "prix" Descending
  else Unsorted.

(** [List.sort] with a comparator is a stable merge sort; insertion sort is
    the stable sort written structurally. *)
Fixpoint insert_by (key : Menu -> Z) (m : Menu) (l : list Menu) : list Menu :=
  match l with
  | [] => [m]
  | m' :: l' => if key m <=? key m' then m :: l else m' :: insert_by key m l'
  end.

Definition sort_by (key : Menu -> Z) (l : list Menu) : list Menu := foldr (insert_by key) [] l.

(** The second [switch]: the page's menus by total calories, in memory. *)
Definition sort_calories (sort : string) (menus : list Menu) : list Menu :=
  if bool_decide (sort = "calAsc") then sort_by getTotalCalories menus
  else if bool_decide (sort = "calDesc") then sort_by (fun m => - getTotalCalories m) menus
  else menus.

(** GET /menus *)
Definition listMenus (db : DB) (page size : Z) (filtre : string) (prixMin prixMax : option Q)
    (calMin calMax : option Z) (sort action : string) (id : Z) : result Response :=
  pageable ← PageRequest_of page size (menu_sort sort);
  let menuPage := menu_select db (menu_where filtre prixMin prixMax calMin calMax) pageable in
  let menus := sort_calories sort (getContent menuPage) in
  let '(model, action) :=
    if (0 <? id) && (bool_decide (action = "new") || bool_decide (action = "mod"))
    then (addAttribute "menu" (VMenuReference id) ∅, action)
    else if negb (bool_decide (action = "del")) then (∅, "") else (∅, action) in
  Ok (mk_resp "menus"
    (addAttribute "calMax" (VOptInt calMax) (addAttribute "calMin" (VOptInt calMin)
    (addAttribute "prixMax" (VOptDouble prixMax) (addAttribute "prixMin" (VOptDouble prixMin)
    (addAttribute "sort" (VStr sort) (addAttribute "filtre" (VStr filtre)
    (addAttribute "page" (VMenuPage menuPage) (addAttribute "menus" (VMenus menus)
    (addAttribute "action" (VStr action) model))))))))) ∅).

(** Whether any bound of the dish filter is given. *)
Definition has_bound (f : plat_filter) : bool :=
  bool_decide (is_Some (categorieId f)) || bool_decide (is_Some (minCalories f)) ||
  bool_decide (is_Some (maxCalories f)) || bool_decide (is_Some (minLipides f)) ||
  bool_decide (is_Some (maxLipides f)) || bool_decide (is_Some (minGlucides f)) ||
  bool_decide (is_Some (maxGlucides f)) || bool_decide (is_Some (minProteines f)) ||
  bool_decide (is_Some (maxProteines f)).

(** GET /edit *)
Definition editMenu (db : DB) (id page size : Z) (filtre : string) (f : plat_filter) : Response :=
  let form m :=
    let ps := if has_bound f then getContent (plat_select db (plat_where f "") Unpaged)
              else plat_findAll db in
    mk_resp "menuForm"
      (add_bounds f (addAttribute "categories" (VCategories (categorie_findAll db))
      (addAttribute "filtre" (VStr filtre) (addAttribute "size" (VInt size)
      (addAttribute "page" (VInt page) (addAttribute "plats" (VPlats ps)
      (addAttribute "menu" (VMenu m) ∅))))))) ∅ in
  if negb (id =? 0)
  then match menu_findById db id with
       | Some m => form m
       | None => mk_resp ("redirect:/menus?page=" +:+ pretty page +:+ "&size=" +:+ pretty size +:+
                          "&filtre=" +:+ filtre) ∅ ∅
       end
  else form new_Menu.

(** [selectedPlats::add]: one managed object per row, so a row already in the
    set is not added again. *)
Definition set_add (p : Plat) (s : list Plat) : list Plat :=
  if bool_decide (plat_id p ∈ (plat_id <$> s)) then s else s ++ [p].

(** The loop over [platIds]. *)
Definition select_plats (db : DB) (platIds : list Z) : list Plat :=
  foldl (fun s i => match plat_findById db i with Some p => set_add p s | None => s end) [] platIds.

(** POST /menus/save *)
Definition saveMenu (db : DB) (menu : Menu) (platIds : option (list Z)) (page size : Z) (filtre : string) :
    result (DB * Response) :=
  let menu := setPlats (match platIds with Some ids => select_plats db ids | None => [] end) menu in
  let action := match menu_id menu with Some _ => "mod" | None => "new" end in
  '(db, menu) ← menu_save db menu;
  Ok (db, mk_resp "redirect:/menus" ∅
    (addAttribute "id" (VOptInt (menu_id menu)) (addAttribute "action" (VStr action)
      (addAttribute "filtre" (VStr filtre) (addAttribute "size" (VInt size)
        (addAttribute "page" (VInt page) ∅)))))).

(** GET /menuDelete *)
Definition deleteMenu (db : DB) (id page size : Z) (filtre : string) : result (DB * Response) :=
  db ← menu_deleteById db id;
  Ok (db, mk_resp "redirect:/menus" ∅
    (addAttribute "action" (VStr "del") (addAttribute "filtre" (VStr filtre)
      (addAttribute "size" (VInt size) (addAttribute "page" (VInt page) ∅))))).

(** GET /menuDetail/{id} *)
Definition showMenuDetail (db : DB) (id page size : Z) (filtre : string) : Response :=
  match menu_findById db id with
  | Some m =>
      mk_resp "menuDetail"
        (addAttribute "filtre" (VStr filtre) (addAttribute "size" (VInt size)
          (addAttribute "page" (VInt page) (addAttribute "menu" (VMenu m) ∅)))) ∅
  | None => mk_resp "redirect:/menus" ∅ ∅
  end.

End app.
End AppControllers.
