(* ===== verification/AppProps.v ===== *)
(** * Properties of the web application

    The controllers against the interface of the repositories: what is saved
    is what is shown, what is deleted is gone, listings and their pages show
    exactly the rows the filters select. *)

From Stdlib Require Import ZArith Lia QArith.
From stdpp Require Import prelude strings gmap pretty sorting.
From S2P Require Import Prelude AppModel AppControllers.
Local Open Scope Z_scope.

Module AppProps.
Import AppModel AppControllers.

(** Reading an attribute back. *)
Ltac attr := unfold addAttribute; by simplify_map_eq.

(** ** Totals *)

Definition zsum (f : Plat -> Z) (ps : list Plat) : Z := foldr (fun p a => f p + a) 0 ps.

Lemma sgn_sgn_add w a b : 0 < w -> sgn w (sgn w a + b) = sgn w (a + b).
Proof.
  intros Hw. rewrite <- (sgn_wrap w (sgn w a + b)), <- (sgn_wrap w (a + b)). f_equal.
  pose proof (wrap_sgn w a Hw) as E. unfold wrap in *.
  rewrite (Zplus_mod (sgn w a)), E, <- Zplus_mod. done.
Qed.

Lemma int_sum_acc f ps a :
  foldl (fun a p => sgn 32 (a + f p)) (sgn 32 a) ps = sgn 32 (a + zsum f ps).
Proof.
  revert a. induction ps as [|p ps IH]; intros a; cbn [foldl zsum foldr].
  - by rewrite Z.add_0_r.
  - rewrite sgn_sgn_add by lia. rewrite IH. f_equal. unfold zsum. lia.
Qed.

Lemma int_sum_zsum f ps : int_sum f ps = sgn 32 (zsum f ps).
Proof. exact (int_sum_acc f ps 0). Qed.

Lemma zsum_perm f ps qs : ps ≡ₚ qs -> zsum f ps = zsum f qs.
Proof. unfold zsum. induction 1; cbn; lia. Qed.

(** ** The selected dishes *)

Section app.
Context {jpql : Jpql} {DB : Type} {repo : Repositories DB} {laws : RepoLaws DB}.

Lemma set_add_elem p q s :
  q ∈ set_add p s <-> q ∈ s \/ (q = p /\ plat_id p ∉ (plat_id <$> s)).
Proof. unfold set_add. case_bool_decide; set_solver. Qed.

Lemma select_plats_snoc db ids i :
  select_plats db (ids ++ [i]) =
    match plat_findById db i with Some p => set_add p (select_plats db ids) | None => select_plats db ids end.
Proof. unfold select_plats. by rewrite foldl_snoc. Qed.

Lemma select_plats_spec db ids :
  NoDup (plat_id <$> select_plats db ids) /\
  forall p, p ∈ select_plats db ids <-> exists i, i ∈ ids /\ plat_findById db i = Some p.
Proof.
  induction ids as [|i ids [IHn IHe]] using rev_ind.
  { split; [constructor|]. intros p. set_solver. }
  rewrite select_plats_snoc. destruct (plat_findById db i) as [q|] eqn:Eq.
  - split.
    + unfold set_add. case_bool_decide as Hin; [done|]. rewrite fmap_app. apply NoDup_app.
      split; [done|]. split; [|apply NoDup_singleton]. set_solver.
    + intros p. rewrite set_add_elem, IHe. split.
      * intros [(j & Hj & E) | [-> Hn]]; [|]; [exists j|exists i]; set_solver.
      * intros (j & Hj & E). apply elem_of_app in Hj as [Hj|Hj%list_elem_of_singleton]; [left; by exists j|].
        subst j. rewrite Eq in E. simplify_eq.
        destruct (decide (plat_id p ∈ (plat_id <$> select_plats db ids))) as [Hin|Hn]; [|by right].
        left. apply list_elem_of_fmap in Hin as (q & Ei & Hq). apply IHe in Hq as (k & Hk & E).
        pose proof (plat_findById_id _ _ _ Eq) as E1. pose proof (plat_findById_id _ _ _ E) as E2.
        assert (k = i) as -> by congruence. by exists i.
  - split; [done|]. intros p. rewrite IHe. split.
    + intros (j & Hj & E). exists j. set_solver.
    + intros (j & Hj & E). apply elem_of_app in Hj as [Hj|Hj%list_elem_of_singleton]; [by exists j|].
      subst j. by rewrite Eq in E.
Qed.

(** ** Saving *)

(** A request to save an object that is new or stored. *)
Definition saveable {A} (find : DB -> Z -> option A) (db : DB) (id : option Z) : Prop :=
  match id with None => True | Some i => is_Some (find db i) end.

Definition action_of (id : option Z) : string := match id with Some _ => "mod" | None => "new" end.

(** Saving a dish and reading it back: when POST /plats/save succeeds for
    a new or stored dish, it redirects to the list with the action ("new" or
    "mod") and the dish's identifier, GET /platDetail of that identifier and
    the redirected list show exactly the dish saved, and every other dish is
    shown as before. *)
Theorem plat_save_roundtrip db p page size k db' r :
  saveable plat_findById db (plat_id p) ->
  savePlat db p page size k = Ok (db', r) ->
  exists i, view r = "redirect:/plats" /\
    redirect r !! "id" = Some (VOptInt (Some i)) /\
    redirect r !! "action" = Some (VStr (action_of (plat_id p))) /\
    (plat_id p = None \/ plat_id p = Some i) /\
    view (showPlatDetail db' i page size k) = "platDetail" /\
    model (showPlatDetail db' i page size k) !! "plat" = Some (VPlat (plat_setId i p)) /\
    (0 < i -> forall f s, 0 <= page -> 1 <= size -> exists r',
       listePlats db' f k s page size (action_of (plat_id p)) i = Ok r' /\
       model r' !! "plat" = Some (VPlat (plat_setId i p))) /\
    forall j, j <> i -> showPlatDetail db' j page size k = showPlatDetail db j page size k.
Proof.
  intros Hs E. unfold savePlat in E. destruct (plat_save db p) as [[db1 p1]|e] eqn:Ep; [|done].
  cbn in E. injection E as <- <-.
  assert (exists i, plat_id p1 = Some i /\ (plat_id p = None \/ plat_id p = Some i) /\
    plat_findById db1 i = Some (plat_setId i p) /\
    forall j, j <> i -> plat_findById db1 j = plat_findById db j) as (i & Ei & Hi & Hf & Hfr).
  { destruct (plat_id p) as [i|] eqn:Eid; cbn in Hs.
    - destruct (plat_save_existing db p i db1 p1 Eid Hs Ep) as (-> & Hf & Hfr).
      exists i. split_and!; [done|by right| |done]. rewrite Hf. f_equal. destruct p; cbn in *. by subst.
    - destruct (plat_save_new db p db1 p1 Eid Ep) as (i & _ & -> & _ & Hf & Hfr).
      exists i. by split_and!; [|left|..]. }
  exists i. unfold showPlatDetail. rewrite Hf.
  split_and!; cbn [view model redirect]; try done; rewrite ?Ei; try attr.
  - intros Hpos f s Hp Hsz. unfold listePlats, PageRequest_of.
    rewrite (proj2 (Z.ltb_ge page 0)), (proj2 (Z.ltb_ge size 1)) by lia. cbn [orb mbind result_bind].
    rewrite Hf. rewrite (proj2 (Z.ltb_lt 0 i)) by done.
    rewrite bool_decide_eq_false_2 by (unfold action_of; by destruct (plat_id p)). cbn [negb andb].
    eexists. split; [done|]. cbn [model]. attr.
  - intros j Hj. by rewrite Hfr.
Qed.

(** C8: Saving a menu: when POST /menus/save succeeds for a new or stored
    menu, GET /menuDetail of the identifier in the redirect shows the menu's
    name, description and price as posted, its dishes are exactly the stored
    dishes among the posted identifiers, each once (none when no identifier
    is posted), the total shown is the sum of their calories as a 32-bit
    integer, and no dish and no other menu changes. *)
Theorem menu_save_roundtrip db m ids page size k db' r :
  saveable menu_findById db (menu_id m) ->
  saveMenu db m ids page size k = Ok (db', r) ->
  exists i m', view r = "redirect:/menus" /\
    redirect r !! "id" = Some (VOptInt (Some i)) /\
    redirect r !! "action" = Some (VStr (action_of (menu_id m))) /\
    model (showMenuDetail db' i page size k) !! "menu" = Some (VMenu m') /\
    menu_nom m' = menu_nom m /\ description m' = description m /\ prix m' = prix m /\
    NoDup (plat_id <$> plats m') /\
    (forall p, p ∈ plats m' <-> exists j, j ∈ default [] ids /\ plat_findById db j = Some p) /\
    getTotalCalories m' = sgn 32 (zsum nbCalories (select_plats db (default [] ids))) /\
    (forall j, j <> i -> menu_findById db' j = menu_findById db j) /\
    (forall j, plat_findById db' j = plat_findById db j).
Proof.
  intros Hs E. unfold saveMenu in E.
  assert (match ids with Some ids => select_plats db ids | None => [] end = select_plats db (default [] ids))
    as Esel by (by destruct ids). rewrite Esel in E. clear Esel.
  set (ps := select_plats db (default [] ids)) in *.
  destruct (select_plats_spec db (default [] ids)) as [Hnd Hel]. fold ps in Hnd, Hel.
  destruct (menu_save db (setPlats ps m)) as [[db1 m1]|e] eqn:Em; [|done].
  cbn in E. injection E as <- <-.
  assert (forall p, p ∈ plats (setPlats ps m) -> exists i, plat_findById db i = Some p) as Hrows.
  { intros p Hp. apply Hel in Hp as (j & _ & Hj). by exists j. }
  assert (exists i m', menu_id m1 = Some i /\ menu_findById db1 i = Some m' /\
    menu_nom m' = menu_nom m /\ description m' = description m /\ prix m' = prix m /\ plats m' ≡ₚ ps /\
    (forall j, j <> i -> menu_findById db1 j = menu_findById db j) /\
    (forall j, plat_findById db1 j = plat_findById db j))
    as (i & m' & Ei & Hf & H1 & H2 & H3 & Hps & Hfr & Hfp).
  { destruct (menu_id m) as [i|] eqn:Eid; cbn in Hs.
    - destruct (menu_save_existing db (setPlats ps m) i db1 m1 Eid Hs Em Hrows)
        as (m' & -> & Hf & (_ & H1 & H2 & H3 & H4) & Hfr & Hfp). by exists i, m'.
    - destruct (menu_save_new db (setPlats ps m) db1 m1 Eid Em Hrows)
        as (i & m' & _ & -> & _ & Hf & (_ & H1 & H2 & H3 & H4) & Hfr & Hfp). by exists i, m'. }
  exists i, m'. unfold showMenuDetail. rewrite Hf. cbn [view model redirect].
  split_and!; try done; rewrite ?Ei; try attr.
  - by rewrite Hps.
  - intros p. by rewrite Hps.
  - unfold getTotalCalories. rewrite int_sum_zsum. f_equal. by apply zsum_perm.
Qed.

(** ** Deleting *)

(** Deleting: after GET /platDelete succeeds the dish's detail and edit
    pages redirect to the list, other dishes and all menus are unchanged; a
    dish that a menu contains cannot be deleted (the foreign key's exception
    is let through).  After GET /menuDelete the menu is gone and no dish is. *)
Theorem delete_spec db i page size k :
  (forall db' r, i <> 0 -> deletePlat db i page size k = Ok (db', r) ->
     view (showPlatDetail db' i page size k) = "redirect:/plats" /\
     view (editPlat db' page size k i) = "redirect:/plats" /\
     (forall j, j <> i -> showPlatDetail db' j page size k = showPlatDetail db j page size k) /\
     (forall j, showMenuDetail db' j page size k = showMenuDetail db j page size k)) /\
  (forall j m, menu_findById db j = Some m -> Some i ∈ (plat_id <$> plats m) ->
     deletePlat db i page size k = Throw DataIntegrityViolation) /\
  (forall db' r, deleteMenu db i page size k = Ok (db', r) ->
     view (showMenuDetail db' i page size k) = "redirect:/menus" /\
     (forall j, j <> i -> showMenuDetail db' j page size k = showMenuDetail db j page size k) /\
     (forall j, showPlatDetail db' j page size k = showPlatDetail db j page size k)).
Proof.
  split_and!.
  - intros db' r Hi E. unfold deletePlat in E. destruct (plat_deleteById db i) as [db1|e] eqn:Ed; [|done].
    cbn in E. injection E as <- _. apply plat_delete_spec in Ed as (H1 & H2 & H3).
    unfold showPlatDetail, editPlat, showMenuDetail. rewrite H1.
    rewrite (proj2 (Z.eqb_neq i 0)) by done.
    split_and!; try done; intros j; [intros Hj; by rewrite H2|by rewrite H3].
  - intros j m Hm Hin. unfold deletePlat. by rewrite (plat_delete_used db i j m Hm Hin).
  - intros db' r E. unfold deleteMenu in E. destruct (menu_deleteById db i) as [db1|e] eqn:Ed; [|done].
    cbn in E. injection E as <- _. apply menu_delete_spec in Ed as (H1 & H2 & H3).
    unfold showPlatDetail, showMenuDetail. rewrite H1.
    split_and!; try done; intros j; [intros Hj; by rewrite H2|by rewrite H3].
Qed.

(** ** Listing *)

Lemma window_concat {A} (l : list A) size n :
  1 <= size ->
  concat (map (fun i => window (Z.of_nat i) size l) (seq 0 n)) = take (n * Z.to_nat size) l.
Proof.
  intros Hs. induction n as [|n IH]; [done|].
  rewrite seq_S, map_app, concat_app, IH. cbn [map concat]. rewrite app_nil_r. unfold window.
  replace (Z.to_nat (Z.of_nat (0 + n) * size)) with (n * Z.to_nat size)%nat by lia.
  replace (S n * Z.to_nat size)%nat with (n * Z.to_nat size + Z.to_nat size)%nat by lia.
  apply take_take_drop.
Qed.

Lemma page_request_ok page size s :
  0 <= page -> 1 <= size -> PageRequest_of page size s = Ok (PageRequest page size s).
Proof.
  intros. unfold PageRequest_of. by rewrite (proj2 (Z.ltb_ge page 0)), (proj2 (Z.ltb_ge size 1)) by lia.
Qed.

(** The dishes a request selects: of the category asked for, within all bounds
    given, and with the text in the name. *)
Definition selected (f : plat_filter) (motCle : string) (p : Plat) : Prop :=
  (forall i, categorieId f = Some i -> exists c, categorie p = Some c /\ cat_id c = Some i) /\
  (forall b, minCalories f = Some b -> b <= nbCalories p) /\
  (forall b, maxCalories f = Some b -> nbCalories p <= b) /\
  (forall b, minLipides f = Some b -> b <= nbLipides p) /\
  (forall b, maxLipides f = Some b -> nbLipides p <= b) /\
  (forall b, minGlucides f = Some b -> b <= nbGlucides p) /\
  (forall b, maxGlucides f = Some b -> nbGlucides p <= b) /\
  (forall b, minProteines f = Some b -> b <= nbProteines p) /\
  (forall b, maxProteines f = Some b -> nbProteines p <= b) /\
  (motCle <> "" -> exists n, plat_nom p = Some n /\ like (lower n) (lower ("%" +:+ motCle +:+ "%")) = true).

(** The order the parameter [sort] asks for. *)
Definition requested (s : string) (a b : Plat) : Prop :=
  (s = "nomAsc" -> collate (plat_nom a) (plat_nom b) = true) /\
  (s = "nomDesc" -> collate (plat_nom b) (plat_nom a) = true) /\
  (s = "catAsc" -> collate (categorie a ≫= cat_nom) (categorie b ≫= cat_nom) = true) /\
  (s = "catDesc" -> collate (categorie b ≫= cat_nom) (categorie a ≫= cat_nom) = true) /\
  (s = "calAsc" -> nbCalories a <= nbCalories b) /\
  (s = "calDesc" -> nbCalories b <= nbCalories a) /\
  (s = "glucidesAsc" -> nbGlucides a <= nbGlucides b) /\
  (s = "glucidesDesc" -> nbGlucides b <= nbGlucides a) /\
  (s = "lipidesAsc" -> nbLipides a <= nbLipides b) /\
  (s = "lipidesDesc" -> nbLipides b <= nbLipides a) /\
  (s = "proteinesAsc" -> nbProteines a <= nbProteines b) /\
  (s = "proteinesDesc" -> nbProteines b <= nbProteines a).

Lemma at_least_spec b x : at_least b x = true <-> forall c, b = Some c -> c <= x.
Proof. destruct b as [c|]; cbn; [rewrite Z.leb_le|]; naive_solver. Qed.
Lemma at_most_spec b x : at_most b x = true <-> forall c, b = Some c -> x <= c.
Proof. destruct b as [c|]; cbn; [rewrite Z.leb_le|]; naive_solver. Qed.

Lemma plat_where_selected f k p : plat_where f k p = true <-> selected f k p.
Proof.
  unfold plat_where, selected. rewrite !andb_true_iff, !at_least_spec, !at_most_spec.
  assert (match categorieId f with None => true | Some i => bool_decide (categorie p ≫= cat_id = Some i) end = true
    <-> forall i, categorieId f = Some i -> exists c, categorie p = Some c /\ cat_id c = Some i) as ->.
  { destruct (categorieId f) as [i|]; [rewrite bool_decide_eq_true, bind_Some|]; naive_solver. }
  assert (bool_decide (k = "") || like_opt (plat_nom p) (lower (contains k)) = true
    <-> (k <> "" -> exists n, plat_nom p = Some n /\ like (lower n) (lower ("%" +:+ k +:+ "%")) = true)) as ->.
  { rewrite orb_true_iff, bool_decide_eq_true. unfold like_opt, contains.
    destruct (decide (k = "")); [naive_solver|]. destruct (plat_nom p); naive_solver. }
  tauto.
Qed.

#[global] Instance selected_dec f k p : Decision (selected f k p).
Proof. refine (cast_if (decide (plat_where f k p = true))); by rewrite <- plat_where_selected. Defined.

Lemma filter_selected f k (l : list Plat) :
  filter (fun p => plat_where f k p = true) l = filter (selected f k) l.
Proof. apply list_filter_iff. intros p. apply plat_where_selected. Qed.

Lemma sorted_impl {A} (R S : A -> A -> Prop) l :
  (forall a b, R a b -> S a b) -> StronglySorted R l -> StronglySorted S l.
Proof. intros H. induction 1; constructor; [done|]. eapply Forall_impl; [done|]. auto. Qed.

(** The sort handed to the repository is the requested one. *)
Lemma ordered_requested s a b : ordered (plat_sort s) a b = true -> requested s a b.
Proof.
  intros H. unfold requested.
  repeat split; intros ->; cbn in H; try exact H; by apply Z.leb_le.
Qed.

(** C9: Every page of the dish list is rejected with an exception before any
    query when the page is negative or the size below one; else it is a window
    of the selected dishes in an order that the sort parameter asks for.  When
    the requested order has no ties among them, the pages 0, 1, 2, ... together
    contain every selected dish exactly once, in that order.  (With ties, two
    queries may place equal rows differently.) *)
Theorem plat_pages_complete db f k s size action id :
  let found := filter (selected f k) (plat_findAll db) in
  let shows page l := exists r, listePlats db f k s page size action id = Ok r /\ view r = "plats" /\
                        model r !! "plats" = Some (VPlats (window page size l)) in
  (1 <= size ->
     (forall page, 0 <= page -> exists l, l ≡ₚ found /\ StronglySorted (requested s) l /\ shows page l) /\
     ((forall a b, a ∈ found -> b ∈ found -> requested s a b -> requested s b a -> a = b) ->
      exists l, l ≡ₚ found /\ StronglySorted (requested s) l /\ (forall page, 0 <= page -> shows page l) /\
        (forall n, (length l <= n * Z.to_nat size)%nat ->
           concat (map (fun i => window (Z.of_nat i) size l) (seq 0 n)) = l))) /\
  (forall page, page < 0 \/ size < 1 ->
     listePlats db f k s page size action id = Throw IllegalArgument).
Proof.
  intros found shows. split.
  - intros Hs.
    assert (forall page, 0 <= page -> exists l, l ≡ₚ found /\ StronglySorted (requested s) l /\ shows page l) as Hpage.
    { intros page Hp. destruct (plat_select_page db (plat_where f k) (plat_sort s) page size Hp Hs)
        as (l & Hl & Hsort & Hw). rewrite filter_selected in Hl. exists l. split; [done|]. split.
      { eapply sorted_impl; [|exact Hsort]. apply ordered_requested. }
      unfold shows, listePlats. rewrite page_request_ok by done. cbn [mbind result_bind].
      rewrite Hw. unfold add_bounds, addAttribute.
      repeat case_match; simplify_eq; eexists; (split; [done|]); split; try done; cbn [model]; by simplify_map_eq. }
    split; [exact Hpage|]. intros Hties. destruct (Hpage 0) as (l & Hl & Hsort & _); [done|].
    exists l. split; [done|]. split; [done|]. split.
    + intros page Hp. destruct (Hpage page Hp) as (l' & Hl' & Hsort' & Hsh).
      assert (l' = l) as ->; [|done]. apply (StronglySorted_unique_strong (requested s)); [|done|done|].
      * intros a b Ha Hb. apply Hties; [by rewrite <- Hl'|by rewrite <- Hl].
      * by rewrite Hl', Hl.
    + intros n Hn. rewrite window_concat by done. by apply take_ge.
  - intros page Hp. unfold listePlats, PageRequest_of.
    assert ((page <? 0) || (size <? 1) = true) as ->; [|done].
    destruct Hp as [H|H]; apply Z.ltb_lt in H; rewrite H; [done|apply orb_true_r].
Qed.

(** ** Menus *)

Lemma insert_by_perm key m l : insert_by key m l ≡ₚ m :: l.
Proof.
  induction l as [|m' l IH]; cbn; [done|]. destruct (_ <=? _); [done|].
  rewrite IH. apply perm_swap.
Qed.

Lemma sort_by_perm key l : sort_by key l ≡ₚ l.
Proof. induction l as [|m l IH]; cbn; [done|]. by rewrite insert_by_perm, IH. Qed.

Definition le_key (key : Menu -> Z) (a b : Menu) : Prop := key a <= key b.

Lemma insert_by_sorted key m l :
  StronglySorted (le_key key) l -> StronglySorted (le_key key) (insert_by key m l).
Proof.
  induction 1 as [|m' l Hs IH Hall]; cbn; [by repeat constructor|].
  destruct (Z.leb_spec (key m) (key m')) as [H|H].
  - constructor; [by constructor|]. constructor; [done|].
    eapply Forall_impl; [exact Hall|]. unfold le_key. lia.
  - constructor; [done|]. rewrite insert_by_perm. constructor; [unfold le_key; lia|done].
Qed.

Lemma sort_by_sorted key l : StronglySorted (le_key key) (sort_by key l).
Proof. induction l; cbn; [constructor|]. by apply insert_by_sorted. Qed.

Lemma sorted_desc (key : Menu -> Z) l :
  StronglySorted (le_key (fun m => - key m)) l -> StronglySorted (fun a b => key b <= key a) l.
Proof.
  induction 1 as [|m l _ IH Hall]; constructor; [done|].
  eapply Forall_impl; [exact Hall|]. unfold le_key. lia.
Qed.

(** The menu list: page [page] shows the menus of the query's window,
    rearranged when sorting by calories: then the page itself is sorted by
    the displayed total, ascending or descending; the query selects the menus
    whose name or one of whose dishes contains the text and whose price and
    total of calories are within the bounds given; and the action shown is
    empty, "new", "mod" or "del". *)
Theorem menu_page_spec db page size filtre pmin pmax cmin cmax s action id :
  0 <= page -> 1 <= size ->
  exists l r shown a,
    l ≡ₚ filter (fun m => menu_where filtre pmin pmax cmin cmax m = true) (menu_findAll db) /\
    listMenus db page size filtre pmin pmax cmin cmax s action id = Ok r /\
    model r !! "menus" = Some (VMenus shown) /\ shown ≡ₚ window page size l /\
    (s = "calAsc" -> StronglySorted (fun a b => getTotalCalories a <= getTotalCalories b) shown) /\
    (s = "calDesc" -> StronglySorted (fun a b => getTotalCalories b <= getTotalCalories a) shown) /\
    model r !! "action" = Some (VStr a) /\ a ∈ [""; "new"; "mod"; "del"].
Proof.
  intros Hp Hs.
  destruct (menu_select_page db (menu_where filtre pmin pmax cmin cmax) (menu_sort s) page size Hp Hs)
    as (l & Hl & Hw).
  exists l. unfold listMenus. rewrite page_request_ok by done. cbn [mbind result_bind]. rewrite Hw.
  set (shown := sort_calories s (window page size l)).
  assert (shown ≡ₚ window page size l) as Hperm.
  { subst shown. unfold sort_calories. repeat case_bool_decide; [apply sort_by_perm..|done]. }
  assert ((s = "calAsc" -> StronglySorted (fun a b => getTotalCalories a <= getTotalCalories b) shown) /\
          (s = "calDesc" -> StronglySorted (fun a b => getTotalCalories b <= getTotalCalories a) shown))
    as [H1 H2].
  { subst shown. split; intros ->; unfold sort_calories; cbn.
    - apply (sort_by_sorted getTotalCalories).
    - apply sorted_desc, sort_by_sorted. }
  match goal with |- context [if ?c then (?x, action) else ?y] =>
    assert (exists mo a, (if c then (x, action) else y) = (mo, a) /\ a ∈ [""; "new"; "mod"; "del"])
      as (mo & a & -> & Ha) end.
  { destruct (bool_decide_reflect (action = "new")), (bool_decide_reflect (action = "mod")),
      (bool_decide_reflect (action = "del")), (0 <? id); subst; cbn; eexists _, _; (split; [done|]); set_solver. }
  eexists _, shown, a. split; [exact Hl|]. split; [done|]. cbn [model]. unfold addAttribute.
  split_and!; try done; by simplify_map_eq.
Qed.

(** The DISTINCT join of the menu query means what its documentation says:
    a menu is selected when the text is empty or occurs in its name or in the
    name of one of its dishes, its price and its total of calories being
    within the bounds; in particular a menu without dishes can be selected by
    its name, and counts as zero calories. *)
Theorem menu_where_meaning filtre pmin pmax cmin cmax m :
  menu_where filtre pmin pmax cmin cmax m =
    (bool_decide (filtre = "") || like_opt (menu_nom m) (contains (lower filtre)) ||
     existsb (fun p => like_opt (plat_nom p) (contains (lower filtre))) (plats m)) &&
    (match pmin with None => true | Some b => Qle_bool b (prix m) end &&
     match pmax with None => true | Some b => Qle_bool (prix m) b end &&
     at_least cmin (zsum nbCalories (plats m)) && at_most cmax (zsum nbCalories (plats m))).
Proof.
  unfold menu_where, menu_row_where, join_rows. change (sum_calories m) with (zsum nbCalories (plats m)).
  set (b := match pmin with None => true | Some b => Qle_bool b (prix m) end).
  set (b' := match pmax with None => true | Some b => Qle_bool (prix m) b end).
  set (c := at_least _ _). set (c' := at_most _ _).
  set (n := bool_decide (filtre = "") || like_opt (menu_nom m) (contains (lower filtre))).
  assert (forall ps : list Plat,
    existsb (fun p => (n || like_opt (p ≫= plat_nom) (contains (lower filtre))) && b && b' && c && c') (Some <$> ps) =
    (match ps with [] => false | _ => n end ||
      existsb (fun p => like_opt (plat_nom p) (contains (lower filtre))) ps) && (b && b' && c && c')) as Hex.
  { induction ps as [|p ps IH]; [done|]. cbn [fmap list_fmap existsb]. rewrite IH. cbn [mbind option_bind].
    destruct n, (like_opt (plat_nom p) _), b, b', c, c', ps; cbn; rewrite ?orb_true_r, ?orb_false_r, ?andb_false_r, ?andb_true_r; done. }
  destruct (plats m) as [|p ps] eqn:E.
  - cbn. rewrite !orb_false_r. by rewrite !andb_assoc.
  - by rewrite Hex.
Qed.
End app.
End AppProps.
