(* ===== verification/AppSample.v ===== *)
(** * An in-memory database for the web application

    The tables plat, menu and menu_plat of src/mariadb-fp/prjspring2025.sql as
    finite maps, with their foreign keys, instantiate the repositories: the
    laws of [RepoLaws] hold, and the theorems about the controllers are
    applied to concrete requests. *)

From Stdlib Require Import ZArith Lia QArith Ascii.
From stdpp Require Import prelude strings gmap pretty sorting.
From S2P Require Import Prelude AppModel AppControllers AppProps.
Local Open Scope Z_scope.

Module AppSample.
Import AppModel AppControllers AppProps.

(** ** LIKE with the wildcards [%] and [_] *)

Fixpoint like_match (p s : string) : bool :=
  match p with
  | EmptyString => bool_decide (s = "")
  | String c p' =>
      if bool_decide (c = "%"%char) then
        (fix go (s : string) : bool :=
           like_match p' s || match s with EmptyString => false | String _ s' => go s' end) s
      else match s with
           | EmptyString => false
           | String c' s' => (bool_decide (c = "_"%char) || bool_decide (c = c')) && like_match p' s'
           end
  end.

(** NULL sorts first, strings by their characters. *)
Definition sample_collate (a b : option string) : bool :=
  match a, b with
  | None, _ => true
  | Some _, None => false
  | Some x, Some y => String.leb x y
  end.

#[global] Instance sample_jpql : Jpql :=
  {| lower s := s; like s p := like_match p s; collate := sample_collate |}.

(** ** Tables *)

Record menu_row := mk_row { row_nom : option string; row_desc : option string; row_prix : Q; row_plats : list Z }.

Record db := mk_db { t_plat : gmap Z Plat; t_menu : gmap Z menu_row; t_categorie : list Categorie }.

(** AUTO_INCREMENT *)
Definition next_id {A} (t : gmap Z A) : Z := 1 + foldr Z.max 0 (fst <$> map_to_list t).

Definition find_plat (d : db) (i : Z) : option Plat := plat_setId i <$> t_plat d !! i.

Definition menu_of (d : db) (i : Z) (r : menu_row) : Menu :=
  mk_menu (Some i) (row_nom r) (row_desc r) (row_prix r) (omap (find_plat d) (row_plats r)).

Definition row_of (m : Menu) : menu_row :=
  mk_row (menu_nom m) (description m) (prix m) (omap plat_id (plats m)).

(** The foreign key menu_plat.plat_id. *)
Definition used (d : db) (i : Z) : bool :=
  existsb (fun ir => bool_decide (i ∈ row_plats ir.2)) (map_to_list (t_menu d)).

Definition all_plats (d : db) : list Plat := (fun ip => plat_setId ip.1 ip.2) <$> map_to_list (t_plat d).
Definition all_menus (d : db) : list Menu := (fun ir => menu_of d ir.1 ir.2) <$> map_to_list (t_menu d).

Definition paged {A} (l : list A) (p : Pageable) : Page A :=
  mk_page (match p with Unpaged => l | PageRequest page size _ => window page size l end) p
    (Z.of_nat (length l)).

Definition sort_of (p : Pageable) : Sort :=
  match p with Unpaged => Unsorted | PageRequest _ _ s => s end.

Definition in_order (s : Sort) (a b : Plat) : Prop := ordered s a b = true.

#[global] Instance in_order_dec s : RelDecision (in_order s).
Proof. intros a b. unfold in_order. apply _. Defined.

(** The column categorie_id is NOT NULL. *)
Definition save_plat (d : db) (p : Plat) : result (db * Plat) :=
  if bool_decide (categorie p = None) then Throw DataIntegrityViolation
  else match plat_id p with
       | None => let i := next_id (t_plat d) in
           Ok (mk_db (<[i := p]> (t_plat d)) (t_menu d) (t_categorie d), plat_setId i p)
       | Some i => match t_plat d !! i with
                   | Some _ => Ok (mk_db (<[i := p]> (t_plat d)) (t_menu d) (t_categorie d), p)
                   | None => Throw PersistenceFailure
                   end
       end.

Definition save_menu (d : db) (m : Menu) : result (db * Menu) :=
  if Qle_bool 0 (prix m) then
    match menu_id m with
    | None => let i := next_id (t_menu d) in
        Ok (mk_db (t_plat d) (<[i := row_of m]> (t_menu d)) (t_categorie d), menu_setId i m)
    | Some i => match t_menu d !! i with
                | Some _ => Ok (mk_db (t_plat d) (<[i := row_of m]> (t_menu d)) (t_categorie d), m)
                | None => Throw PersistenceFailure
                end
    end
  else Throw DataIntegrityViolation.

#[global] Instance categorie_eq_dec : EqDecision Categorie.
Proof. solve_decision. Defined.

#[global] Instance sample_repo : Repositories db := {|
  plat_findById := find_plat;
  plat_findAll := all_plats;
  plat_save := save_plat;
  plat_deleteById d i :=
    if used d i then Throw DataIntegrityViolation
    else Ok (mk_db (delete i (t_plat d)) (t_menu d) (t_categorie d));
  plat_select d f p :=
    paged (merge_sort (in_order (sort_of p))
             (filter (fun x => f x = true) (all_plats d))) p;
  menu_findById d i := menu_of d i <$> t_menu d !! i;
  menu_findAll := all_menus;
  menu_save := save_menu;
  menu_deleteById d i := Ok (mk_db (t_plat d) (delete i (t_menu d)) (t_categorie d));
  menu_select d f p := paged (filter (fun x => f x = true) (all_menus d)) p;
  categorie_findAll := t_categorie;
|}.

(** ** The laws *)

Lemma collate_total a b : sample_collate a b = true \/ sample_collate b a = true.
Proof.
  destruct a as [a|], b as [b|]; cbn; auto.
  destruct (String.leb a b) eqn:E, (String.leb b a) eqn:E'; auto.
  unfold String.leb in *. rewrite String.compare_antisym in E'. by destruct (a ?= b)%string.
Qed.

Lemma collate_trans a b c :
  sample_collate a b = true -> sample_collate b c = true -> sample_collate a c = true.
Proof.
  destruct a as [a|], b as [b|], c as [c|]; cbn; try done. intros H1%Is_true_true H2%Is_true_true.
  apply Is_true_true. exact (transitivity (R := String.le) H1 H2).
Qed.

Lemma order_by_total prop a b : order_by prop a b = true \/ order_by prop b a = true.
Proof.
  unfold order_by. repeat case_bool_decide; try apply collate_total; rewrite ?Z.leb_le; auto; lia.
Qed.

Lemma order_by_trans prop a b c :
  order_by prop a b = true -> order_by prop b c = true -> order_by prop a c = true.
Proof.
  unfold order_by. repeat case_bool_decide; try apply collate_trans; rewrite ?Z.leb_le; auto; lia.
Qed.

Lemma sorted_plats s l :
  StronglySorted (in_order s) (merge_sort (in_order s) l).
Proof.
  apply StronglySorted_merge_sort.
  - intros a b c. unfold in_order. destruct s as [|prop []]; cbn; [done|apply order_by_trans|].
    intros H1 H2. by apply (order_by_trans prop c b a).
  - intros a b. unfold in_order. destruct s as [|prop []]; cbn; [auto|apply order_by_total|apply order_by_total].
Qed.

Lemma next_id_fresh {A} (t : gmap Z A) : 0 < next_id t /\ t !! next_id t = None.
Proof.
  unfold next_id. assert (forall l : list Z, 0 <= foldr Z.max 0 l /\ forall x, x ∈ l -> x <= foldr Z.max 0 l) as H.
  { induction l as [|y l [IH1 IH2]]; cbn; [set_solver by lia|]. split; [lia|].
    intros x [->|Hx]%elem_of_cons; [lia|]. specialize (IH2 x Hx). lia. }
  destruct (H (fst <$> map_to_list t)) as [H1 H2]. split; [lia|].
  destruct (t !! _) as [a|] eqn:E; [|done]. exfalso.
  apply elem_of_map_to_list in E. apply (list_elem_of_fmap_2 fst) in E. apply H2 in E. cbn in E. lia.
Qed.

Lemma setId_id i p : plat_id p = Some i -> plat_setId i p = p.
Proof. destruct p; cbn. by intros ->. Qed.

Lemma setId_setId i p : plat_setId i (plat_setId i p) = plat_setId i p.
Proof. done. Qed.

Lemma find_insert d i p tm tc :
  find_plat (mk_db (<[i := p]> (t_plat d)) tm tc) i = Some (plat_setId i p) /\
  forall j, j <> i -> find_plat (mk_db (<[i := p]> (t_plat d)) tm tc) j = find_plat d j.
Proof.
  unfold find_plat. cbn [t_plat]. split; [by rewrite lookup_insert_eq|].
  intros j Hj. by rewrite lookup_insert_ne.
Qed.

(** Joining the rows of stored dishes gives the dishes. *)
Lemma join_back d (ps : list Plat) :
  (forall p, p ∈ ps -> exists i, find_plat d i = Some p) -> omap (find_plat d) (omap plat_id ps) = ps.
Proof.
  intros H. induction ps as [|p ps IH]; [done|]. destruct (H p) as [i Hi]; [set_solver|].
  assert (plat_id p = Some i) as Ei.
  { unfold find_plat in Hi. destruct (t_plat d !! i); naive_solver. }
  cbn. rewrite Ei. cbn. rewrite Hi. f_equal. apply IH. set_solver.
Qed.

Lemma menu_of_ext d d' i r :
  (forall j, j ∈ row_plats r -> find_plat d' j = find_plat d j) -> menu_of d' i r = menu_of d i r.
Proof.
  intros H. unfold menu_of. f_equal. induction (row_plats r) as [|j l IH]; [done|]. cbn.
  rewrite H by set_solver. rewrite IH by set_solver. done.
Qed.

Lemma not_used d i j r : used d i = false -> t_menu d !! j = Some r -> i ∉ row_plats r.
Proof.
  unfold used. intros E Hr Hin.
  assert (existsb (fun ir => bool_decide (i ∈ row_plats ir.2)) (map_to_list (t_menu d)) = true) as E'.
  { apply existsb_exists. exists (j, r). split; [|by apply bool_decide_eq_true_2].
    apply list_elem_of_In. by apply elem_of_map_to_list. }
  congruence.
Qed.

Lemma save_plat_new d p d' p' :
  plat_id p = None -> save_plat d p = Ok (d', p') ->
  exists i, 0 < i /\ p' = plat_setId i p /\ find_plat d i = None /\
    find_plat d' i = Some p' /\ (forall j, j <> i -> find_plat d' j = find_plat d j).
Proof.
  intros Ei. unfold save_plat. case_bool_decide; [done|]. rewrite Ei. intros [= <- <-].
  destruct (next_id_fresh (t_plat d)) as [Hpos Hn]. exists (next_id (t_plat d)).
  destruct (find_insert d (next_id (t_plat d)) p (t_menu d) (t_categorie d)) as [H1 H2].
  split_and!; try done. unfold find_plat. by rewrite Hn.
Qed.

Lemma save_plat_existing d p i d' p' :
  plat_id p = Some i -> save_plat d p = Ok (d', p') ->
  p' = p /\ find_plat d' i = Some p /\ (forall j, j <> i -> find_plat d' j = find_plat d j).
Proof.
  intros Ei. unfold save_plat. case_bool_decide; [done|]. rewrite Ei.
  destruct (t_plat d !! i); [|done]. intros [= <- <-].
  destruct (find_insert d i p (t_menu d) (t_categorie d)) as [H1 H2]. rewrite (setId_id i p Ei) in H1. done.
Qed.

(** Storing a row: the menu read back. *)
Lemma menu_insert d i m :
  (forall p, p ∈ plats m -> exists i, find_plat d i = Some p) ->
  let d' := mk_db (t_plat d) (<[i := row_of m]> (t_menu d)) (t_categorie d) in
  (menu_of d' i <$> t_menu d' !! i) = Some (menu_setId i m) /\
  (forall j, j <> i -> (menu_of d' j <$> t_menu d' !! j) = (menu_of d j <$> t_menu d !! j)) /\
  forall j, find_plat d' j = find_plat d j.
Proof.
  intros Hp d'. cbn [t_menu d']. split_and!; [|intros j Hj|done].
  - rewrite lookup_insert_eq. cbn. unfold menu_of, row_of, menu_setId. cbn. do 2 f_equal.
    exact (join_back d (plats m) Hp).
  - by rewrite lookup_insert_ne.
Qed.

Lemma save_menu_new d m d' m' :
  menu_id m = None -> save_menu d m = Ok (d', m') ->
  (forall p, p ∈ plats m -> exists i, find_plat d i = Some p) ->
  exists i m'', 0 < i /\ m' = menu_setId i m /\ (menu_of d i <$> t_menu d !! i) = None /\
    (menu_of d' i <$> t_menu d' !! i) = Some m'' /\ menu_equiv m'' m' /\
    (forall j, j <> i -> (menu_of d' j <$> t_menu d' !! j) = (menu_of d j <$> t_menu d !! j)) /\
    (forall j, find_plat d' j = find_plat d j).
Proof.
  intros Ei. unfold save_menu. destruct (Qle_bool _ _); [|done]. rewrite Ei. intros [= <- <-] Hp.
  destruct (next_id_fresh (t_menu d)) as [Hpos Hn].
  destruct (menu_insert d (next_id (t_menu d)) m Hp) as (H1 & H2 & H3).
  exists (next_id (t_menu d)), (menu_setId (next_id (t_menu d)) m).
  rewrite Hn. split_and!; try done.
Qed.

Lemma save_menu_existing d m i d' m' :
  menu_id m = Some i -> save_menu d m = Ok (d', m') ->
  (forall p, p ∈ plats m -> exists i, find_plat d i = Some p) ->
  exists m'', m' = m /\ (menu_of d' i <$> t_menu d' !! i) = Some m'' /\ menu_equiv m'' m /\
    (forall j, j <> i -> (menu_of d' j <$> t_menu d' !! j) = (menu_of d j <$> t_menu d !! j)) /\
    (forall j, find_plat d' j = find_plat d j).
Proof.
  intros Ei. unfold save_menu. destruct (Qle_bool _ _); [|done]. rewrite Ei.
  destruct (t_menu d !! i); [|done]. intros [= <- <-] Hp.
  destruct (menu_insert d i m Hp) as (H1 & H2 & H3). exists (menu_setId i m).
  split_and!; try done.
Qed.

#[global] Instance sample_repo_laws : RepoLaws db.
Proof.
  split; cbn.
  - intros d i p. unfold find_plat. destruct (t_plat d !! i); naive_solver.
  - intros d i m. destruct (t_menu d !! i); naive_solver.
  - intros d p. unfold all_plats. rewrite list_elem_of_fmap. unfold find_plat. split.
    + intros ([i q] & -> & H%elem_of_map_to_list). exists i. by rewrite H.
    + intros [i H]. destruct (t_plat d !! i) as [q|] eqn:E; [|done].
      exists (i, q). cbn in *. split; [congruence|]. by apply elem_of_map_to_list.
  - intros d p d' p'. apply save_plat_new.
  - intros d p i d' p' Ei _. by apply save_plat_existing.
  - intros d i d'. destruct (used d i) eqn:Eu; [done|]. intros [= <-]. split_and!.
    + unfold find_plat. cbn. by rewrite lookup_delete_eq.
    + intros j Hj. unfold find_plat. cbn. by rewrite lookup_delete_ne.
    + intros j. cbn [t_menu]. destruct (t_menu d !! j) as [r|] eqn:Er; [|done]. cbn. f_equal. apply menu_of_ext.
      intros k Hk. unfold find_plat. cbn. rewrite lookup_delete_ne; [done|].
      intros ->. by eapply not_used.
  - intros d i j m Hm Hin. destruct (t_menu d !! j) as [r|] eqn:Er; [|done]. cbn in Hm. injection Hm as <-.
    destruct (used d i) eqn:Eu; [done|]. exfalso. apply (not_used d i j r Eu Er).
    apply list_elem_of_fmap in Hin as (p & Ei & Hp). apply list_elem_of_omap in Hp as (k & Hk & Ek).
    unfold find_plat in Ek. destruct (t_plat d !! k); [|done]. cbn in Ek. injection Ek as <-. cbn in Ei.
    by injection Ei as ->.
  - intros d m d' m'. apply save_menu_new.
  - intros d m i d' m' Ei _. by apply save_menu_existing.
  - intros d i d' [= <-]. cbn [t_menu]. split_and!; [by rewrite lookup_delete_eq| |done].
    intros j Hj. by rewrite lookup_delete_ne.
  - intros d f. apply (merge_sort_Permutation (in_order Unsorted)).
  - intros d f s page size _ _. eexists. split; [apply (merge_sort_Permutation (in_order s))|].
    split; [apply sorted_plats|done].
  - intros d f s page size _ _. by eexists.
Qed.

(** ** Requests on a small restaurant *)

Definition dessert : Categorie := mk_cat (Some 30) (Some "Dessert").
Definition tarte : Plat := Plat_of "Tarte" 300 40 12 4 dessert.
Definition gateau : Plat := Plat_of "Gateau" 450 60 20 5 dessert.
Definition salade : Plat := Plat_of "Salade" 100 5 3 2 dessert.

Definition restaurant : db :=
  mk_db {[ 1 := tarte; 2 := gateau; 3 := salade ]}
    {[ 1 := mk_row (Some "Sucre") (Some "tout sucre") 32 [1; 2]; 2 := mk_row (Some "Leger") (Some "leger") 12 [3] ]}
    [dessert].

Lemma plat_save_roundtrip_witness :
  exists db' r i, savePlat restaurant (Plat_of "Flan" 250 30 8 6 dessert) 0 10 "" = Ok (db', r) /\
    redirect r !! "action" = Some (VStr "new") /\
    model (showPlatDetail db' i 0 10 "") !! "plat" = Some (VPlat (plat_setId i (Plat_of "Flan" 250 30 8 6 dessert))).
Proof.
  destruct (savePlat restaurant (Plat_of "Flan" 250 30 8 6 dessert) 0 10 "") as [[db' r]|e] eqn:E;
    [|vm_compute in E; discriminate E].
  destruct (plat_save_roundtrip restaurant (Plat_of "Flan" 250 30 8 6 dessert) 0 10 "" db' r I E)
    as (i & _ & _ & H1 & _ & _ & H2 & _).
  exists db', r, i. split; [reflexivity|]. split; [exact H1|exact H2].
Defined.

(** Menu 2 saved with dishes 2, 2, 3 and the unknown 9: two dishes, 550 kcal. *)
Lemma menu_save_roundtrip_witness :
  exists db' r i m', saveMenu restaurant (mk_menu (Some 2) (Some "Leger") None 12 []) (Some [2; 2; 9; 3]) 0 10 "" =
    Ok (db', r) /\
    model (showMenuDetail db' i 0 10 "") !! "menu" = Some (VMenu m') /\ getTotalCalories m' = 550.
Proof.
  destruct (saveMenu restaurant (mk_menu (Some 2) (Some "Leger") None 12 []) (Some [2; 2; 9; 3]) 0 10 "")
    as [[db' r]|e] eqn:E; [|vm_compute in E; discriminate E].
  destruct (menu_save_roundtrip restaurant (mk_menu (Some 2) (Some "Leger") None 12 []) (Some [2; 2; 9; 3])
    0 10 "" db' r ltac:(by eexists) E) as (i & m' & _ & _ & _ & H1 & _ & _ & _ & _ & _ & H2 & _).
  exists db', r, i, m'. split; [reflexivity|]. split; [exact H1|]. rewrite H2. vm_compute. reflexivity.
Defined.

Lemma delete_spec_witness :
  deletePlat restaurant 3 0 10 "" = Throw DataIntegrityViolation.
Proof.
  destruct (delete_spec restaurant 3 0 10 "") as (_ & H & _).
  apply (H 2 (menu_of restaurant 2 (mk_row (Some "Leger") (Some "leger") 12 [3]))); [reflexivity|].
  vm_compute. left.
Defined.

Definition no_bound : plat_filter := mk_pf None None None None None None None None None.

(** Dishes of at least 200 kcal by ascending calories, one on a page. *)
Definition rich : plat_filter := mk_pf None (Some 200) None None None None None None None.

Lemma rich_dishes : filter (selected rich "") (plat_findAll restaurant) =
  [plat_setId 2 gateau; plat_setId 1 tarte].
Proof. vm_compute. reflexivity. Qed.

Lemma plat_pages_complete_witness :
  (forall page, 0 <= page -> exists r, listePlats restaurant rich "" "calAsc" page 1 "" 0 = Ok r /\
     view r = "plats" /\
     model r !! "plats" = Some (VPlats (window page 1 [plat_setId 1 tarte; plat_setId 2 gateau]))) /\
  listePlats restaurant rich "" "calAsc" (-1) 1 "" 0 = Throw IllegalArgument.
Proof.
  destruct (plat_pages_complete restaurant rich "" "calAsc" 1 "" 0) as [H1 H2].
  split; [|apply H2; lia]. destruct H1 as [_ H1]; [lia|]. rewrite rich_dishes in H1.
  destruct H1 as (l & Hl & Hs & H1 & _).
  - intros a b Ha Hb Hab Hba. apply elem_of_cons in Ha as [Ha|Ha%list_elem_of_singleton];
      apply elem_of_cons in Hb as [Hb|Hb%list_elem_of_singleton]; subst; try done; exfalso;
      destruct Hab as (_&_&_&_&Hab&_), Hba as (_&_&_&_&Hba&_);
      specialize (Hab eq_refl); specialize (Hba eq_refl); cbn in Hab, Hba; lia.
  - assert (l = [plat_setId 1 tarte; plat_setId 2 gateau]) as ->; [|exact H1].
    apply Permutation_sym, Permutation_length_2_inv in Hl as [->| ->]; [|done].
    apply StronglySorted_inv in Hs as [_ Hs]. apply Forall_inv in Hs. destruct Hs as (_&_&_&_&Hs&_).
    specialize (Hs eq_refl). cbn in Hs. lia.
Defined.

Lemma menu_page_spec_witness :
  exists r shown, listMenus restaurant 0 10 "" None None None None "calAsc" "" 0 = Ok r /\
    model r !! "menus" = Some (VMenus shown) /\
    StronglySorted (fun a b => getTotalCalories a <= getTotalCalories b) shown.
Proof.
  destruct (menu_page_spec restaurant 0 10 "" None None None None "calAsc" "" 0)
    as (l & r & shown & a & _ & H1 & H2 & _ & H3 & _); [lia..|].
  exists r, shown. split; [exact H1|]. split; [exact H2|]. apply H3. reflexivity.
Defined.

(** The totals a response lists. *)
Definition totals_of (r : result Response) : list Z :=
  match r with
  | Ok r => match model r !! "menus" with Some (VMenus ms) => getTotalCalories <$> ms | _ => [] end
  | Throw _ => []
  end.

(** Sorting menus by total calories sorts each page by itself, after the
    pages have been cut: for two menus of 750 and 100 kcal listed in
    descending order of calories with one menu per page, the first page shows
    100 and the second 750, though one page of ten shows 750 before 100. *)
Theorem calories_sort_is_per_page :
  totals_of (listMenus restaurant 0 10 "" None None None None "calDesc" "" 0) = [750; 100] /\
  totals_of (listMenus restaurant 0 1 "" None None None None "calDesc" "" 0) = [100] /\
  totals_of (listMenus restaurant 1 1 "" None None None None "calDesc" "" 0) = [750].
Proof. vm_compute. auto. Qed.
End AppSample.
